(* ===== verification/_CoqProject ===== *)
-Q . S2P
Prelude.v
UnicodeCase.v
GoStrings.v
Sha256.v
GoNumeric.v
GoParse.v
TurnCommand.v
TurnDispatcher.v
TurnDispatcherProofs.v
TurnDispatcherSteps.v
TurnDispatcherSpec.v
MemoryTypes.v
MemoryRecords.v
MemoryDerived.v
MemoryCanonical.v
GoTimeJson.v
MemoryReconciler.v
MemoryProcessor.v
MemoryForget.v
MemoryProjection.v
MemoryRecall.v
MemoryViews.v
Actions.v
ProjectionViews.v
ProjectionSync.v
BadgerKeys.v
BadgerTxn.v
BadgerStore.v
BadgerLedgers.v
BadgerWrites.v
BadgerProvenance.v
BadgerEntries.v
LedgerSpec.v
BadgerRefinement.v
BadgerSteps.v
BadgerAcceptance.v
BadgerScan.v
BadgerPorts.v
BadgerLeases.v
BadgerGenerations.v
BadgerReader.v
BadgerRecall.v
BadgerHeads.v
BadgerProjection.v
RuntimeOperations.v
ArchiveLifetimes.v
RuntimeSlots.v
RuntimePublication.v
ModelRecovery.v
ModelChange.v
ModelAsked.v
Runs.v
CommandOutbox.v
OutboxSpec.v
OutboxRefinement.v
OutboxRuns.v
OutboxHistory.v
OutboxLiveness.v
QuestionTypes.v
QuestionStore.v
Questions.v
QuestionSpec.v
QuestionRuns.v
QuestionOperations.v
QuestionAnswers.v
QuestionHistory.v
QuestionOutbox.v
QuestionRecovery.v
