(* ===== verification/Prelude.v ===== *)
(** * Balda: a verification development for commands, questions, turns, runtimes and the session memory

    Balda is an agent server written in Go.  Messages arrive on channels, become
    turns of a session, are run one at a time by an agent, and a finished turn is
    exported to the session memory, which extracts grounded facts from it and keeps
    them in an embedded database.  The runtime a session executes on can be replaced
    while it is in use, through a durable journal, and the commands between its parts
    pass through a durable outbox.  An agent may put a question to a person and is
    resumed with the answer.  This development models the
    subsystems that carry that logic, and proves what they promise.

    ** The program's parts and how they meet

    The turn dispatcher (src/internal/apps/balda/actors/turn_dispatcher.go) admits
    turn tasks (turncmd/turn.go, appports/turns.go) into one bounded queue per
    session, merges user messages that arrive while a turn waits, lets one worker
    per session run them, and answers every accepted task exactly once.

    The session memory (src/sessionmemory) validates a terminal turn (types.go,
    validation.go), asks an untrusted extractor for candidates
    (canonical_extraction.go), grounds each candidate in the turn's own messages and
    reconciles it with the active memory (canonical_processor.go, reconciler.go), and
    submits one canonical mutation (canonical.go) at the scope version it read.  The
    store (store/badger) commits it in one transaction or refuses it.  Forgetting
    (canonical_forget.go, forget_validation.go) denies sources and revisions in the
    same store; deliveries and projections consume what was committed.

    The session runtimes (src/internal/apps/balda/session) are leased slots that share
    and drain their owners (runtime_slot.go).  Replacing one commits an operation of
    the journal (state/runtime_operation_store.go) together with the session's row and
    then swaps the pointer (runtime_publication.go); a model change
    (model_change.go) asks the provider in between, and what a failure interrupts is
    completed or fenced (model_recovery.go).

    Commands are admitted into an outbox over a key-value store and published from
    it, one scope at a time and in order (jobs/commandoutbox/outbox.go).

    A question (questioncmd/question.go, questions/service.go) is a row of a table
    (state/sqlite_questions.go): it is asked, bound to the message that shows it, and
    settled once, by an answer, its timeout or a failure.  The session that asked is
    resumed through the command outbox; an answer whose continuation was not admitted
    there is found again by the recovery runner (jobs/questionoutbox/recovery.go).
    A timeout is a scheduled job (actors/session_actor.go).

    ** Files

    - Prelude: errors, the result type and its loops, unsigned machine integers and
      the lemmas all files share.
    - UnicodeCase, GoStrings, Sha256, GoNumeric, GoParse, GoTimeJson: what the code uses of Go's
      standard library: strings.TrimSpace, Fields, ToLower, unicode/utf8, hex,
      crypto/sha256 (executable, checked on test vectors), the binary encodings,
      float64 arithmetic (binary64 of SpecFloat), durations and stable sorting, and
      the years the JSON encoding of a time accepts.
    - TurnCommand: turncmd/turn.go with attachment/attachment.go and
      deliverycmd/locator.go: origins, locators, deduplication keys.
    - TurnDispatcher: turn_dispatcher.go.  A [lane] is one sessionTurnQueue with its
      worker's program point; Enqueue, EnqueueReplacement, CancelSession, Shutdown
      and the worker's critical sections are functions on it.
      TurnDispatcherProofs and TurnDispatcherSteps hold the queue invariant,
      TurnDispatcherSpec the properties.
    - MemoryTypes, MemoryRecords, MemoryDerived, MemoryCanonical, MemoryProjection:
      the memory's data, validation, identities and encodings (types.go,
      validation.go, errors.go, v2.go, derived*.go, canonical.go, projection.go,
      projection_views.go).
    - MemoryReconciler, MemoryProcessor, MemoryForget: reconciliation, the turn
      processor and the forget steps, against the store interfaces they are written
      for ([CanonicalStore], [CanonicalSourceForgetStore], classes).
    - MemoryRecall: recall.go and app/recall.go: the request, the validation of
      hydrated records, ranking, and the service, against [RecallCanonicalReader].
      MemoryViews: source records and compatibility metadata (ports.go,
      ports_validation.go, canonical_compatibility.go).
    - Actions: operations on a world that may fail, with the rules the proofs use.
      ProjectionViews and ProjectionSync: projection_views.go and projection.go, the
      bounded views and the coordinator of a disposable projection, against records
      of operations for the store and the projection engine.
    - BadgerKeys, BadgerTxn, BadgerStore, BadgerLedgers: the store.  The database is
      a finite map from keys to records; a transaction is a function from database to
      result, applied whole or not at all.  BadgerStore has the commits, payloads,
      denial markers and scans, BadgerLedgers the delivery outbox, projection
      generations, retention floors, checkpoints, forget outcomes and scrubbing.
    - LedgerSpec: the abstract specification.  A [Ledger] is what one scope's records
      mean: the log of changes, operations with their outcomes, and one table per
      record type; [ledger_step] has one transition per committing request.
    - BadgerWrites, BadgerProvenance, BadgerEntries, BadgerRefinement: a
      transaction's effect as a list of writes, the provenance search, and the
      relation [represents] between a database and a scope's ledger.
    - BadgerSteps: executions: every state-changing operation is a [store_step], with
      database failures and any interleaving.  BadgerAcceptance, BadgerScan,
      BadgerLeases and BadgerGenerations prove the remaining guarantees, BadgerPorts
      instantiates the processor's and the forget step's interfaces with the store.
    - BadgerReader, BadgerRecall: canonical_reader.go, the fail-closed view of one
      revision, and recall over the store.  BadgerHeads: paging through the active
      heads.  BadgerProjection: the coordinator over the store.

    - RuntimeOperations: the journal and the runtime columns of the session table, as
      two maps; each method is one transaction with a [fate].  ArchiveLifetimes: the
      lifetimes of archived sessions (state/chat_archive_store.go), whose activation is
      the other writer of those columns, on one database with the journal.  RuntimeSlots: slots,
      owners, leases and pending goroutines as a heap.  RuntimePublication: the
      publication, as steps of a [pub] computation, with the rules ([triple]) the
      proofs about sessions use.  ModelRecovery, ModelChange: model_recovery.go and
      model_change.go.  ModelAsked: how often a provider is asked.

    - CommandOutbox: outbox.go and the scope of an envelope (session_scope.go), over a
      key-value store.  OutboxSpec: the abstract outbox, with its admission, its moves
      and its invariant.  OutboxRefinement, OutboxRuns: every run is a sequence of those
      moves.  OutboxHistory, OutboxLiveness: histories of runs, deaths and restarts.
    - Runs: computations that read and write a world, call what may fail, and may die
      before any step; CommandOutbox and the questions are written in it.
    - QuestionTypes, QuestionStore, Questions: the data and pure decisions of a
      question, the statements of its table, and the service, the session's timeout
      and the recovery runner over them.  QuestionSpec: the abstract question, the
      moves a row can make and [Admission], the class of what a continuation is handed
      to.  QuestionRuns, QuestionOperations, QuestionAnswers: the rules of a run, and
      that each operation makes those moves only.  QuestionHistory: histories of
      operations.  QuestionOutbox: the command outbox as an [Admission].
      QuestionRecovery: repeated flushes.

    ** What the theorems show

    - The store refines its specification ([BadgerSteps.store_refines_ledger],
      [apply_refines_ledger]), refuses nothing the specification allows
      ([BadgerAcceptance.allowed_mutation_commits]), stays well formed and typed,
      and never alters committed history.
    - End to end: processing a turn over the store is one commit at the version it
      was prepared against, so no update is lost; a retry is idempotent; a denial is
      for ever ([BadgerPorts]).
    - Readers: a change scan is a window of the log ([BadgerScan]).  Deliveries are
      leased exclusively and settled once ([BadgerLeases]); a projection has one
      active generation and its cursors never move back ([BadgerGenerations]).
    - Recall: a response is ranked, distinct and within its bounds ([MemoryRecall]);
      over the store each reference is the head revision of its item, and nothing of a
      denied source is ever recalled ([BadgerRecall]).
    - Projections: a synchronisation applies the log from its stored watermark, or from
      where the rebuild of a generation below the retention floor ends, in order and
      without a gap before it activates, a failed one activates nothing, and the loop
      ends ([BadgerProjection]); paging and the batched rebuild lose records, as two
      theorems show ([BadgerHeads], [BadgerProjection]).
    - The dispatcher: its queue invariant, exactly-once answers, order, isolation of
      sessions, exclusive replacements and draining ([TurnDispatcherSpec]).
    - The memory core: memories quote the turn's own messages, revisions extend
      their items, identities are injective up to a hash collision and independent of
      irrelevant order, encodings round-trip, validation accepts exactly the
      well-formed records, states only move forward.

    - Session runtimes: a leased runtime is never closed and a retired one drains
      ([RuntimeSlots]); the journal moves forward ([RuntimeOperations]), and a session's
      runtime columns change only by a guarded publication or by activating a lifetime for
      an intent that is spent with it ([ArchiveLifetimes]); a publication, a model change
      and a recovery leave row and memory in agreement or the session fenced
      ([RuntimePublication], [ModelChange], [ModelRecovery]); a provider is asked once at most ([ModelAsked]).  One path
      lifts a fence it should not, whoever put it up ([ModelChange.replay_lifts_later_fence]).

    - The command outbox: within a scope commands are published in the order of their
      admission; an acknowledged command stays until it is published or its deadline is
      over; a published one is not sent again while its receipt is retained; at most 256
      wait, and with a healthy transport every flush hands over the 32 oldest, until
      nothing waits ([OutboxHistory], [OutboxLiveness]).

    - Questions: a settled question keeps its status and its answer for ever; an
      answer comes from whom the question allows and selects one of its options; an
      accepted reply is the recorded answer ([QuestionHistory]).  An answer whose
      continuation is no longer pending was admitted to the command outbox under the
      question's identity ([QuestionOutbox]).  With N answers waiting, N / 32 + 2
      flushes of the recovery runner release every one of them whose continuation the
      outbox accepts, whatever becomes of the others.  A timeout
      interrupted between the row and its dispatch is never resumed
      ([QuestionRecovery]).

    ** Choices

    Errors are values ([error]); a fallible Go function returns [result].  64-bit
    counters are integers with their wrap-around or range written out.  A time is an
    integer number of nanoseconds since the Unix epoch with 0 for Go's zero time.  A
    context is absent, live or failed.  A stored record is the envelope's record
    type with the value its JSON denotes, since the store reads only what it wrote;
    marshalling fails where Go's does, on years outside 0 to 9999.  A failure the
    database reports for a write ([fault]) undoes the transaction.  Where Go cancels
    a turn after unlocking, the model records the cancellation as landed later.
    Callbacks and the extractor are arbitrary functions.  Logging and metrics are
    left out; a nil check appears where a nil argument changes the result.

    The reader decodes payloads with a parameter ([PayloadDecoder]), since JSON
    decoding of arbitrary bytes is not modelled.  One recall reads several
    transactions: it runs along a [timeline] of stores, each a later one.  The
    coordinator runs in a [world] with the store, the engine and a history of what
    succeeded; [env] is what other writers do before each call of the store.

    A call on a session runs under its operation lock, one critical section or one
    transaction per step; [env] is what everybody else does before each step, and
    [quiet] what holding the lock excludes.  A transaction commits, fails, or commits
    while the driver reports a failure.  Canonical provider bindings
    ([BindingCodec]), providers, the runtime manager and the builder of runtimes are
    parameters.

    The outbox runs over a store whose values are the records it writes or text.  Its
    process may die before any step and every call of the store has a [fate]; where no
    lock is held the other goroutines act ([su_others]).  The actor library, its
    envelope, codec and errors are parameters ([ActorLayer]).

    A question runs over its table, with [question_env]: the clock, the fates of the
    statements, when the process dies, what others do before each statement, and what
    the dispatcher, the archive, the channel's controls and the scheduler answer.  A
    JSON column holds the value its text denotes, or text that denotes none.  Building
    a continuation's envelope is a parameter ([ActorMessages]).

    The coordinator's loops take fuel and return [exhausted] when it ends;
    [BadgerProjection.replay_terminates] shows that one round per change suffices.
    The provenance search runs with fuel one more than the number of new revisions:
    each level of the search colours a new revision, and
    [BadgerProvenance.provenance_check_exact] shows the bound is never hit.  The
    loops of the dispatcher's worker need no fuel: they are steps of a relation, and
    [queue_drains] and [shutdown_drains] show they end.

    ** Not modelled

    Opening, closing, backup, restore and value-log maintenance of the database
    (library calls); the JSON export and import streams (their keys are modelled);
    derived search and trace, the full-text index; derived-memory ports and boundary
    snapshots; of the sessions, the manager that creates, rotates and resets them and
    the recovery of lifetimes, which wrap workspaces, stores and builders of agents; the
    messages of the chat archive;
    the goroutines that call the outbox's Flush and the recovery's FlushAnswers;
    how a question is rendered, delivered and awaited in memory; the Postgres twin of
    the question table, which differs in how it reports errors;
    actors, agent runtime and providers, channels, schedules, plugins, user and
    management interfaces, which are mostly I/O. *)

From Stdlib Require Import ZArith Lia.
From stdpp Require Import base numbers list gmap strings.

#[global] Set Default Goal Selector "!".

Declare Scope go_scope.
Delimit Scope go_scope with go.

(** ** Errors

    Go's [error] values, as far as the modelled code builds or inspects them.
    [ErrSentinel] is a package-level [errors.New] variable, compared by
    identity through [errors.Is]; [ErrText] is a fresh [errors.New] or
    [fmt.Errorf] value, which no [errors.Is] test of this code matches;
    [ErrWrap] is [fmt.Errorf] with a [%w] verb; [ErrMemory] is the pointer type
    [*sessionmemory.Error] with its stable code, retry class, message and
    optional cause. *)
Inductive error : Type :=
  | ErrSentinel (name : string)
  | ErrText (message : string)
  | ErrWrap (message : string) (inner : error)
  | ErrMemory (code class message : string) (cause : option error).

#[export] Instance error_eq_dec : EqDecision error.
Proof.
  refine (fix go (x y : error) {struct x} : Decision (x = y) :=
    match x, y with
    | ErrSentinel a, ErrSentinel b => cast_if (decide (a = b))
    | ErrText a, ErrText b => cast_if (decide (a = b))
    | ErrWrap a i, ErrWrap b j => cast_if_and (decide (a = b)) (go i j)
    | ErrMemory c k m None, ErrMemory c' k' m' None =>
        cast_if_and3 (decide (c = c')) (decide (k = k')) (decide (m = m'))
    | ErrMemory c k m (Some i), ErrMemory c' k' m' (Some j) =>
        cast_if_and4 (decide (c = c')) (decide (k = k')) (decide (m = m')) (go i j)
    | _, _ => right _
    end); try congruence.
Defined.

(** The standard library's two context sentinels. *)
Definition context_Canceled : error := ErrSentinel "context canceled".
Definition context_DeadlineExceeded : error := ErrSentinel "context deadline exceeded".

(** [errors.Is err target] for a sentinel [target]: walk the [Unwrap] chain. *)
Fixpoint errors_Is (err : error) (target : error) : bool :=
  bool_decide (err = target) ||
  match err with
  | ErrSentinel _ | ErrText _ => false
  | ErrWrap _ inner => errors_Is inner target
  | ErrMemory _ _ _ None => false
  | ErrMemory _ _ _ (Some cause) => errors_Is cause target
  end.

(** ** The error monad

    A Go function returning [(A, error)] becomes a function into [result A]; a
    function returning only [error] becomes one into [result unit]. *)
Inductive result (A : Type) : Type :=
  | Ok (a : A)
  | Err (e : error).
Arguments Ok {A} a.
Arguments Err {A} e.

#[export] Instance result_ret : MRet result := λ A a, Ok a.
#[export] Instance result_bind : MBind result := λ A B f m,
  match m with Ok a => f a | Err e => Err e end.
#[export] Instance result_fmap : FMap result := λ A B f m,
  match m with Ok a => Ok (f a) | Err e => Err e end.

#[export] Instance result_eq_dec {A} `{EqDecision A} : EqDecision (result A).
Proof. solve_decision. Defined.

(** [if cond { return err }] *)
Definition reject_if (cond : bool) (e : error) : result unit :=
  if cond then Err e else Ok tt.

Definition is_ok {A} (r : result A) : bool :=
  match r with Ok _ => true | Err _ => false end.

(** The value of a run that succeeds, else a default. *)
Definition ok_or {A} (d : A) (r : result A) : A :=
  match r with Ok a => a | Err _ => d end.

(** [if err := r; err != nil { return other }]: replace the error. *)
Definition or_else {A} (r : result A) (e : error) : result A :=
  match r with Ok a => Ok a | Err _ => Err e end.

(** A [for _, x := range l] loop whose body only checks [x]. *)
Fixpoint for_each {A} (f : A → result unit) (l : list A) : result unit :=
  match l with
  | [] => Ok tt
  | x :: l => _ ← f x; for_each f l
  end.

(** A [for _, x := range l] loop that threads a state. *)
Fixpoint for_fold {A S} (f : S → A → result S) (s : S) (l : list A) : result S :=
  match l with
  | [] => Ok s
  | x :: l => s' ← f s x; for_fold f s' l
  end.

(** The [seen] idiom: every element is checked and must be new. *)
Fixpoint check_unique {A} `{EqDecision A} (check : A → result unit) (dup : error)
    (seen l : list A) : result unit :=
  match l with
  | [] => Ok tt
  | x :: l =>
      _ ← check x;
      _ ← reject_if (bool_decide (x ∈ seen)) dup;
      check_unique check dup (x :: seen) l
  end.

Lemma Ok_inj {A} (a b : A) : Ok a = Ok b → a = b.
Proof. by intros [= ->]. Qed.

Section result_lemmas.
  Context {A B : Type}.

Lemma bind_Ok (m : result A) (f : A → result B) b :
    m ≫= f = Ok b ↔ ∃ a, m = Ok a ∧ f a = Ok b.
  Proof. destruct m; cbn; naive_solver. Qed.

Lemma reject_if_Ok c e u : reject_if c e = Ok u ↔ c = false.
  Proof. destruct c, u; cbn; naive_solver. Qed.

Lemma or_else_Ok (r : result A) e a : or_else r e = Ok a ↔ r = Ok a.
  Proof. destruct r; cbn; naive_solver. Qed.

Lemma is_ok_true (r : result A) : is_ok r = true ↔ ∃ a, r = Ok a.
  Proof. destruct r; cbn; naive_solver. Qed.

Lemma for_each_Ok (f : A → result unit) l u :
    for_each f l = Ok u ↔ Forall (λ x, f x = Ok tt) l.
  Proof.
    destruct u. induction l as [|x l IH]; cbn.
    - split; [constructor | done].
    - rewrite Forall_cons, <-IH. destruct (f x) as [[]|]; cbn; naive_solver.
  Qed.

Lemma for_fold_inv (f : B → A → result B) (P : B → Prop) l s s' :
    for_fold f s l = Ok s' → P s → (∀ s x s', x ∈ l → P s → f s x = Ok s' → P s') → P s'.
  Proof.
    revert s. induction l as [|x l IH]; intros s; cbn; [by intros [= ->]|].
    intros H Hs Hstep. destruct (f s x) as [s1|] eqn:Hf; [|done]. cbn in H.
    apply (IH s1 H); [apply (Hstep s x s1); [apply list_elem_of_here|done|done]|].
    intros s2 y s3 Hy. apply Hstep. by apply list_elem_of_further.
  Qed.

Lemma check_unique_Ok `{EqDecision A} (check : A → result unit) dup seen l u :
    check_unique check dup seen l = Ok u ↔
    Forall (λ x, check x = Ok tt) l ∧ NoDup l ∧ (∀ x, x ∈ l → x ∉ seen).
  Proof.
    destruct u. revert seen. induction l as [|x l IH]; intros seen; cbn.
    - split; [|done]. intros _. repeat split; [constructor | constructor | set_solver].
    - rewrite Forall_cons, NoDup_cons.
      destruct (check x) as [[]|e]; cbn; [|naive_solver].
      case_bool_decide as Hin; cbn.
      + split; [done|]. intros (_ & _ & Hs). exfalso. apply (Hs x); set_solver.
      + rewrite IH. set_solver.
  Qed.
End result_lemmas.

(** *** Equations of the monad *)
Lemma reject_cong {A} b e (k1 k2 : unit → result A) :
  k1 tt = k2 tt → (reject_if b e ≫= k1) = (reject_if b e ≫= k2).
Proof. unfold reject_if. by destruct b. Qed.

Lemma bind_ok {A B} (x : A) (k : A → result B) : (Ok x ≫= k) = k x.
Proof. reflexivity. Qed.

Lemma bind_assoc_result {A B C} (m : result A) (k : A → result B) (h : B → result C) :
  ((m ≫= k) ≫= h) = (m ≫= λ x, k x ≫= h).
Proof. by destruct m. Qed.

Lemma reject_false {A} e (k : unit → result A) : (reject_if false e ≫= k) = k tt.
Proof. reflexivity. Qed.

Lemma reject_true {A} e (k : unit → result A) : (reject_if true e ≫= k) = Err e.
Proof. reflexivity. Qed.

(** Running an example: only whether it succeeds has to be evaluated. *)
Lemma is_ok_run {A} (d : A) (r : result A) : is_ok r = true → r = Ok (ok_or d r).
Proof. by destruct r. Qed.

Lemma is_ok_unit (r : result unit) : is_ok r = true ↔ r = Ok tt.
Proof. destruct r as [[]|]; done. Qed.

(** ** Stores

    How a call of a durable store ends: it takes effect and says so, it fails and leaves
    no trace, or it takes effect but the caller is told that it failed. *)
Inductive fate :=
  | Commits
  | Fails (err : error)
  | CommitsUnreported (err : error).

(** ** Machine integers: unsigned wrap-around arithmetic on [Z] *)
Definition u8 (z : Z) : Z := z `mod` 2 ^ 8.
Definition u32 (z : Z) : Z := z `mod` 2 ^ 32.
Definition u64 (z : Z) : Z := z `mod` 2 ^ 64.
Definition max_u64 : Z := 2 ^ 64 - 1.

Definition is_u32 (z : Z) : Prop := (0 ≤ z < 2 ^ 32)%Z.
Definition is_u64 (z : Z) : Prop := (0 ≤ z < 2 ^ 64)%Z.

Lemma u64_range z : is_u64 (u64 z).
Proof. apply Z.mod_pos_bound. lia. Qed.

Lemma u32_range z : is_u32 (u32 z).
Proof. apply Z.mod_pos_bound. lia. Qed.

Lemma u64_small z : is_u64 z → u64 z = z.
Proof. apply Z.mod_small. Qed.

Lemma u32_small z : is_u32 z → u32 z = z.
Proof. apply Z.mod_small. Qed.

(** Incrementing a [uint64] gives zero only at the maximum. *)
Lemma u64_succ_nonzero z : is_u64 z → u64 (z + 1) ≠ 0%Z → u64 (z + 1) = (z + 1)%Z.
Proof.
  unfold is_u64, u64. intros Hz Hne. destruct (decide (z + 1 < 2 ^ 64)%Z).
  - apply Z.mod_small. lia.
  - replace (z + 1)%Z with (1 * 2 ^ 64)%Z in Hne by lia. by rewrite Z.mod_mul in Hne by lia.
Qed.

Definition Zlength {A} (l : list A) : Z := Z.of_nat (length l).
Definition len (s : string) : Z := Z.of_nat (String.length s).

(** ** Automation *)
Create HintDb balda discriminated.
#[export] Hint Resolve u64_range u32_range : balda.

(** Invert a successful run of a monadic definition into its steps. *)
Ltac inv_ok_step :=
  match goal with
  | H : mbind _ _ = Ok _ |- _ =>
      apply bind_Ok in H; let a := fresh "r" in let H1 := fresh "Hok" in
      destruct H as (a & H1 & H)
  | H : reject_if _ _ = Ok _ |- _ => apply reject_if_Ok in H
  | H : or_else _ _ = Ok _ |- _ => apply or_else_Ok in H
  | H : for_each _ _ = Ok _ |- _ => apply for_each_Ok in H
  | H : check_unique _ _ _ _ = Ok _ |- _ => apply check_unique_Ok in H
  | H : Ok _ = Ok _ |- _ => injection H as H
  | H : Err _ = Ok _ |- _ => discriminate H
  | H : mret _ = Ok _ |- _ => injection H as H
  | H : _ || _ = false |- _ => apply orb_false_iff in H; destruct H
  | H : _ && _ = true |- _ => apply andb_true_iff in H; destruct H
  | H : negb _ = false |- _ => apply negb_false_iff in H
  | H : negb _ = true |- _ => apply negb_true_iff in H
  | H : bool_decide _ = true |- _ => apply bool_decide_eq_true in H
  | H : bool_decide _ = false |- _ => apply bool_decide_eq_false in H
  | u : unit |- _ => destruct u
  end.
Ltac inv_ok := repeat inv_ok_step.
