(* ===== verification/GoStrings.v ===== *)
(** * GoStrings: the parts of Go's [strings], [unicode/utf8], [encoding/hex],
    [encoding/binary] and [fmt] that the modelled code calls.

    A Go [string] and a Go [[]byte] are both byte sequences, represented by the
    standard library's [string] (a list of 8-bit characters).  Comparison with
    [<=] and [bytes.Compare] is byte-wise, the order of [String.leb].
    White space and case mapping follow Unicode as Go does: [TrimSpace] and
    [Fields] remove the multi-byte white-space runes too, and [ToLower] decodes
    UTF-8, replacing invalid bytes by U+FFFD. *)

From Stdlib Require Import ZArith Lia Ascii String.
From stdpp Require Import base numbers list strings pretty.
From S2P Require Import Prelude.
From S2P Require Import UnicodeCase.

Local Open Scope Z_scope.

(** ** Bytes *)
Definition byte_of (c : ascii) : Z := Z.of_N (N_of_ascii c).
Definition char_of (b : Z) : ascii := ascii_of_N (Z.to_N (u8 b)).

Lemma byte_of_range c : 0 ≤ byte_of c < 256.
Proof. unfold byte_of. pose proof (N_ascii_bounded c). lia. Qed.

Lemma char_of_byte_of c : char_of (byte_of c) = c.
Proof.
  unfold char_of, u8. rewrite Z.mod_small by apply byte_of_range.
  unfold byte_of. by rewrite N2Z.id, ascii_N_embedding.
Qed.

Lemma byte_of_char_of b : byte_of (char_of b) = u8 b.
Proof.
  unfold char_of, byte_of, u8.
  pose proof (Z.mod_pos_bound b (2 ^ 8) ltac:(lia)).
  rewrite N_ascii_embedding by lia. rewrite Z2N.id; lia.
Qed.

Lemma byte_of_inj c d : byte_of c = byte_of d → c = d.
Proof. intros H. by rewrite <-(char_of_byte_of c), <-(char_of_byte_of d), H. Qed.

Lemma length_append (s t : string) :
  String.length (s +:+ t) = (String.length s + String.length t)%nat.
Proof. induction s as [|c s IH]; simpl; [done | by rewrite IH]. Qed.

Lemma append_cons c (s t : string) : String c s +:+ t = String c (s +:+ t).
Proof. done. Qed.

Lemma append_assoc (s t u : string) : (s +:+ t) +:+ u = s +:+ (t +:+ u).
Proof. induction s as [|c s IH]; [done |]. by rewrite !append_cons, IH. Qed.

Lemma append_nil_r (s : string) : s +:+ "" = s.
Proof. induction s as [|c s IH]; [done |]. by rewrite append_cons, IH. Qed.

(** Two concatenations whose first halves have the same length split alike. *)
Lemma append_inj_length (s1 s2 t1 t2 : string) :
  String.length s1 = String.length s2 → s1 +:+ t1 = s2 +:+ t2 → s1 = s2 ∧ t1 = t2.
Proof.
  revert s2. induction s1 as [|c s1 IH]; intros [|d s2]; simpl; try done.
  rewrite !append_cons. intros Hl H. injection Hl as Hl. injection H as -> H.
  destruct (IH _ Hl H) as [-> ->]. done.
Qed.

Lemma append_inj_l (s t1 t2 : string) : s +:+ t1 = s +:+ t2 → t1 = t2.
Proof. intros H. by apply append_inj_length in H as [_ ?]. Qed.

Lemma len_append s t : len (s +:+ t) = len s + len t.
Proof. unfold len. rewrite length_append. lia. Qed.

Lemma len_nonneg s : 0 ≤ len s.
Proof. unfold len. lia. Qed.

(** ** White space: [unicode.IsSpace] on UTF-8 encoded runes *)
Definition ascii_space (c : ascii) : bool :=
  let b := byte_of c in (b =? 32) || ((9 <=? b) && (b <=? 13)).

(** U+0085 and U+00A0. *)
Definition space2 (c d : ascii) : bool :=
  (byte_of c =? 0xC2) && ((byte_of d =? 0x85) || (byte_of d =? 0xA0)).

(** U+1680, U+2000 to U+200A, U+2028, U+2029, U+202F, U+205F and U+3000. *)
Definition space3 (c d e : ascii) : bool :=
  let b1 := byte_of c in let b2 := byte_of d in let b3 := byte_of e in
  ((b1 =? 0xE1) && (b2 =? 0x9A) && (b3 =? 0x80)) ||
  ((b1 =? 0xE2) && (b2 =? 0x80) &&
     (((0x80 <=? b3) && (b3 <=? 0x8A)) || (b3 =? 0xA8) || (b3 =? 0xA9) || (b3 =? 0xAF))) ||
  ((b1 =? 0xE2) && (b2 =? 0x81) && (b3 =? 0x9F)) ||
  ((b1 =? 0xE3) && (b2 =? 0x80) && (b3 =? 0x80)).

(** The text after one leading white-space rune, if there is one. *)
Definition strip_space (s : string) : option string :=
  match s with
  | EmptyString => None
  | String c s1 =>
      if ascii_space c then Some s1 else
      match s1 with
      | EmptyString => None
      | String d s2 =>
          if space2 c d then Some s2 else
          match s2 with
          | EmptyString => None
          | String e s3 => if space3 c d e then Some s3 else None
          end
      end
  end.

(** [strings.TrimLeftFunc(s, unicode.IsSpace)] *)
Fixpoint trim_left (s : string) : string :=
  match s with
  | EmptyString => EmptyString
  | String c s1 =>
      if ascii_space c then trim_left s1 else
      match s1 with
      | EmptyString => s
      | String d s2 =>
          if space2 c d then trim_left s2 else
          match s2 with
          | EmptyString => s
          | String e s3 => if space3 c d e then trim_left s3 else s
          end
      end
  end.

(** [strings.TrimRightFunc(s, unicode.IsSpace)]: cut at the first position from
    which only white space follows. *)
Fixpoint trim_right (s : string) : string :=
  match s with
  | EmptyString => EmptyString
  | String c s1 =>
      if bool_decide (trim_left s = EmptyString) then EmptyString
      else String c (trim_right s1)
  end.

Definition TrimSpace (s : string) : string := trim_right (trim_left s).

(** [strings.Fields]: [cur] is the field being read. *)
Fixpoint fields_from (cur : string) (s : string) : list string :=
  let emit rest := if bool_decide (cur = EmptyString) then rest else cur :: rest in
  match s with
  | EmptyString => emit []
  | String c s1 =>
      if ascii_space c then emit (fields_from EmptyString s1) else
      let keep := fields_from (cur +:+ String c EmptyString) s1 in
      match s1 with
      | EmptyString => keep
      | String d s2 =>
          if space2 c d then emit (fields_from EmptyString s2) else
          match s2 with
          | EmptyString => keep
          | String e s3 => if space3 c d e then emit (fields_from EmptyString s3) else keep
          end
      end
  end.
Definition Fields (s : string) : list string := fields_from EmptyString s.

(** [strings.Join] *)
Fixpoint strings_Join (parts : list string) (sep : string) : string :=
  match parts with
  | [] => EmptyString
  | [p] => p
  | p :: parts => p +:+ sep +:+ strings_Join parts sep
  end.

(** [strings.Cut] with a one-byte separator. *)
Fixpoint Cut (s : string) (sep : ascii) : string * string * bool :=
  match s with
  | EmptyString => (EmptyString, EmptyString, false)
  | String c s1 =>
      if Ascii.eqb c sep then (EmptyString, s1, true)
      else let '(before, after, found) := Cut s1 sep in (String c before, after, found)
  end.

Definition TAB : ascii := "009"%char.
Definition LF : ascii := "010"%char.
Definition CR : ascii := "013"%char.

(** [strings.ContainsAny] with ASCII characters. *)
Definition ContainsAny (s : string) (chars : list ascii) : bool :=
  existsb (λ c, existsb (Ascii.eqb c) chars) (list_ascii_of_string s).

Definition HasPrefix (s prefix : string) : bool := String.prefix prefix s.

Lemma HasPrefix_append p s : HasPrefix (p +:+ s) p = true.
Proof.
  unfold HasPrefix. induction p as [|c p IH]; [by destruct s|]. rewrite append_cons. cbn. by destruct (ascii_dec c c).
Qed.

Lemma HasPrefix_inv k p : HasPrefix k p = true → ∃ t, k = p +:+ t.
Proof.
  unfold HasPrefix. revert k. induction p as [|c p IH]; intros k; [by exists k|]. destruct k as [|d k]; [done|].
  cbn [String.prefix]. destruct (ascii_dec c d) as [->|]; [|done]. intros (t & ->)%IH. exists t. by rewrite append_cons.
Qed.

(** [strings.Contains] *)
Fixpoint Contains (s substr : string) : bool :=
  HasPrefix s substr || match s with String _ s => Contains s substr | EmptyString => false end.

(** Byte-wise comparison: Go's [<=] and [<] on strings. *)
Definition string_leb (s t : string) : bool := String.leb s t.
Definition string_ltb (s t : string) : bool := String.ltb s t.

Lemma string_leb_total s t : string_leb s t = true ∨ string_leb t s = true.
Proof. destruct (String.leb_total s t); auto. Qed.

Lemma string_leb_trans s t u : string_leb s t = true → string_leb t u = true → string_leb s u = true.
Proof.
  intros H1 H2. apply Is_true_true. apply (transitivity (R := String.le) (y := t)); by apply Is_true_true.
Qed.

Lemma string_leb_antisym s t : string_leb s t = true → string_leb t s = true → s = t.
Proof. apply String.leb_antisym. Qed.

Lemma string_leb_refl s : string_leb s s = true.
Proof. by destruct (string_leb_total s s). Qed.

Lemma string_ltb_leb s t : string_ltb s t = negb (string_leb t s).
Proof.
  unfold string_ltb, string_leb, String.ltb, String.leb. rewrite (String.compare_antisym s t).
  by destruct (String.compare t s).
Qed.

(** ** UTF-8 *)
Definition RuneError : Z := 0xFFFD.
Definition is_cont (b : Z) : bool := (0x80 <=? b) && (b <=? 0xBF).

(** [utf8.DecodeRuneInString] on a non-empty string with first byte [c]:
    (rune, width); an invalid sequence gives [(RuneError, 1)]. *)
Definition decode_rune (c : ascii) (rest : string) : Z * nat :=
  let bad := (RuneError, 1%nat) in
  let b1 := byte_of c in
  if b1 <? 0x80 then (b1, 1%nat)
  else if b1 <? 0xC2 then bad
  else match rest with
  | EmptyString => bad
  | String d rest2 =>
      let b2 := byte_of d in
      if b1 <? 0xE0 then
        if is_cont b2 then ((b1 - 0xC0) * 64 + (b2 - 0x80), 2%nat) else bad
      else
        let lo2 := if b1 =? 0xE0 then 0xA0 else if b1 =? 0xF0 then 0x90 else 0x80 in
        let hi2 := if b1 =? 0xED then 0x9F else if b1 =? 0xF4 then 0x8F else 0xBF in
        if negb ((lo2 <=? b2) && (b2 <=? hi2)) then bad
        else match rest2 with
        | EmptyString => bad
        | String e rest3 =>
            let b3 := byte_of e in
            if negb (is_cont b3) then bad
            else if b1 <? 0xF0 then
              ((b1 - 0xE0) * 4096 + (b2 - 0x80) * 64 + (b3 - 0x80), 3%nat)
            else if 0xF4 <? b1 then bad
            else match rest3 with
            | EmptyString => bad
            | String f _ =>
                let b4 := byte_of f in
                if is_cont b4 then
                  ((b1 - 0xF0) * 262144 + (b2 - 0x80) * 4096 + (b3 - 0x80) * 64 + (b4 - 0x80),
                   4%nat)
                else bad
            end
        end
  end.

(** [utf8.AppendRune] for a valid rune or [RuneError]. *)
Definition encode_rune (r : Z) : string :=
  if r <? 0x80 then String (char_of r) EmptyString
  else if r <? 0x800 then
    String (char_of (0xC0 + r / 64)) (String (char_of (0x80 + r mod 64)) EmptyString)
  else if r <? 0x10000 then
    String (char_of (0xE0 + r / 4096)) (String (char_of (0x80 + (r / 64) mod 64))
      (String (char_of (0x80 + r mod 64)) EmptyString))
  else
    String (char_of (0xF0 + r / 262144)) (String (char_of (0x80 + (r / 4096) mod 64))
      (String (char_of (0x80 + (r / 64) mod 64)) (String (char_of (0x80 + r mod 64)) EmptyString))).

(** [s[n:]] *)
Fixpoint drop_bytes (n : nat) (s : string) : string :=
  match n, s with
  | O, _ => s
  | S n, EmptyString => EmptyString
  | S n, String _ s => drop_bytes n s
  end.

(** [s[:n]] *)
Fixpoint take_bytes (n : nat) (s : string) : string :=
  match n, s with
  | O, _ | _, EmptyString => EmptyString
  | S n, String c s => String c (take_bytes n s)
  end.

(** The runes of a string as [range] yields them; [fuel] bounds the number of
    runes, and the length of the string is always enough. *)
Fixpoint runes_fuel (fuel : nat) (s : string) : list (Z * nat) :=
  match fuel, s with
  | O, _ | _, EmptyString => []
  | S fuel, String c rest =>
      let rw := decode_rune c rest in
      rw :: runes_fuel fuel (drop_bytes (rw.2 - 1) rest)
  end.
Definition runes (s : string) : list (Z * nat) := runes_fuel (String.length s) s.

(** [utf8.ValidString]: no rune is an error of width one. *)
Definition ValidString (s : string) : bool :=
  forallb (λ rw, negb ((rw.1 =? RuneError) && (rw.2 =? 1)%nat)) (runes s).

(** [utf8.RuneStart] *)
Definition RuneStart (c : ascii) : bool := negb (is_cont (byte_of c)).

(** [unicode.ToLower] *)
Definition lower_rune (r : Z) : Z :=
  if r <? 0x80 then (if (65 <=? r) && (r <=? 90) then r + 32 else r)
  else lower_non_ascii r.

(** [strings.ToLower] *)
Definition ToLower (s : string) : string :=
  foldr (λ rw acc, encode_rune (lower_rune rw.1) +:+ acc) EmptyString (runes s).

(** ** [encoding/hex] *)
Definition hex_digit (d : Z) : ascii :=
  if d <? 10 then char_of (48 + d) else char_of (87 + d).

(** [hex.EncodeToString] *)
Fixpoint hex_encode (s : string) : string :=
  match s with
  | EmptyString => EmptyString
  | String c s =>
      String (hex_digit (byte_of c / 16)) (String (hex_digit (byte_of c mod 16)) (hex_encode s))
  end.

Definition is_hex_digit (c : ascii) : bool :=
  let b := byte_of c in
  ((48 <=? b) && (b <=? 57)) || ((97 <=? b) && (b <=? 102)) || ((65 <=? b) && (b <=? 70)).

(** Whether [hex.DecodeString] returns no error. *)
Definition hex_decodes (s : string) : bool :=
  Nat.even (String.length s) && forallb is_hex_digit (list_ascii_of_string s).

(** ** [encoding/binary]: big-endian integers of [n] bytes *)
Fixpoint be_bytes (n : nat) (z : Z) : string :=
  match n with
  | O => EmptyString
  | S n => String (char_of (z / 2 ^ (8 * Z.of_nat n))) (be_bytes n z)
  end.

(** [fmt.Sprintf("%d", n)] *)
Definition Sprint_d (z : Z) : string := pretty z.

(** ** Facts about the encodings *)
Fixpoint be_value (s : string) : Z :=
  match s with
  | EmptyString => 0
  | String c s => byte_of c * 2 ^ (8 * len s) + be_value s
  end.

Lemma length_be_bytes n z : String.length (be_bytes n z) = n.
Proof. induction n as [|n IH]; simpl; [done | by rewrite IH]. Qed.

Lemma len_be_bytes n z : len (be_bytes n z) = Z.of_nat n.
Proof. unfold len. by rewrite length_be_bytes. Qed.

Lemma be_value_be_bytes n z : be_value (be_bytes n z) = z mod 2 ^ (8 * Z.of_nat n).
Proof.
  induction n as [|n IH]; [cbn; by rewrite Z.mod_1_r|].
  cbn [be_bytes be_value]. rewrite len_be_bytes, byte_of_char_of, IH. unfold u8.
  replace (8 * Z.of_nat (S n)) with (8 * Z.of_nat n + 8) by lia.
  rewrite Z.pow_add_r by lia. rewrite Z.rem_mul_r by lia. lia.
Qed.

Lemma be_bytes_inj n a b :
  0 ≤ a < 2 ^ (8 * Z.of_nat n) → 0 ≤ b < 2 ^ (8 * Z.of_nat n) →
  be_bytes n a = be_bytes n b → a = b.
Proof.
  intros Ha Hb H. apply (f_equal be_value) in H. rewrite !be_value_be_bytes in H.
  by rewrite !Z.mod_small in H by done.
Qed.

(** A length-prefixed component: [n] length bytes, then the bytes. *)
Definition framed (n : nat) (s : string) : string := be_bytes n (len s) +:+ s.

(** A stream that starts with a framed component determines it and the rest. *)
Lemma framed_inj n s1 s2 t1 t2 :
  len s1 < 2 ^ (8 * Z.of_nat n) → len s2 < 2 ^ (8 * Z.of_nat n) →
  framed n s1 +:+ t1 = framed n s2 +:+ t2 → s1 = s2 ∧ t1 = t2.
Proof.
  unfold framed. rewrite !append_assoc. intros H1 H2 H.
  apply append_inj_length in H as [Hl H]; [|by rewrite !length_be_bytes].
  apply be_bytes_inj in Hl; [|split; [apply len_nonneg | done]..].
  apply append_inj_length in H; [done|]. unfold len in Hl. lia.
Qed.

Fixpoint framed_all (n : nat) (parts : list string) : string :=
  match parts with
  | [] => EmptyString
  | p :: parts => framed n p +:+ framed_all n parts
  end.

Definition fits (n : nat) (s : string) : Prop := len s < 2 ^ (8 * Z.of_nat n).

Lemma framed_nonempty n s t : (0 < n)%nat → framed n s +:+ t ≠ EmptyString.
Proof. intros Hn H. apply (f_equal String.length) in H. unfold framed in H.
  rewrite !length_append, length_be_bytes in H. simpl in H. lia.
Qed.

(** Sequences of framed components of the same number are told apart even with
    an arbitrary tail; of any number when nothing follows. *)
Lemma framed_all_app_inj n ps qs t u :
  length ps = length qs → Forall (fits n) ps → Forall (fits n) qs →
  framed_all n ps +:+ t = framed_all n qs +:+ u → ps = qs ∧ t = u.
Proof.
  revert qs. induction ps as [|p ps IH]; intros [|q qs]; simpl; try done.
  rewrite !append_assoc. intros Hl Hp Hq H. injection Hl as Hl.
  apply Forall_cons in Hp as [Hp Hps]. apply Forall_cons in Hq as [Hq Hqs].
  apply framed_inj in H as [-> H]; [|done..].
  by destruct (IH qs Hl Hps Hqs H) as [-> ->].
Qed.

Lemma framed_all_inj n ps qs :
  (0 < n)%nat → Forall (fits n) ps → Forall (fits n) qs →
  framed_all n ps = framed_all n qs → ps = qs.
Proof.
  intros Hn. revert qs. induction ps as [|p ps IH]; intros [|q qs]; simpl; try done.
  - intros _ _ H. symmetry in H. by apply framed_nonempty in H.
  - intros _ _ H. by apply framed_nonempty in H.
  - intros Hp Hq H. apply Forall_cons in Hp as [Hp Hps]. apply Forall_cons in Hq as [Hq Hqs].
    apply framed_inj in H as [-> H]; [|done..]. by rewrite (IH qs).
Qed.

(** ** Hexadecimal text *)
Lemma length_hex_encode s : String.length (hex_encode s) = (2 * String.length s)%nat.
Proof. induction s as [|c s IH]; simpl; [done | rewrite IH; lia]. Qed.

Definition is_lower_hex (c : ascii) : bool :=
  let b := byte_of c in ((48 <=? b) && (b <=? 57)) || ((97 <=? b) && (b <=? 102)).

Lemma is_lower_hex_digit d : 0 ≤ d < 16 → is_lower_hex (hex_digit d) = true.
Proof.
  intros Hd. unfold is_lower_hex, hex_digit.
  destruct (Z.ltb_spec d 10); rewrite byte_of_char_of; unfold u8; rewrite Z.mod_small by lia; lia.
Qed.

Lemma hex_encode_lower s : forallb is_lower_hex (list_ascii_of_string (hex_encode s)) = true.
Proof.
  induction s as [|c s IH]; [done|]. pose proof (byte_of_range c).
  cbn [hex_encode list_ascii_of_string forallb].
  rewrite IH, !is_lower_hex_digit; [done| |].
  - apply Z.mod_pos_bound. lia.
  - split; [apply Z.div_pos; lia | apply Z.div_lt_upper_bound; lia].
Qed.

Lemma hex_encode_decodes s : hex_decodes (hex_encode s) = true.
Proof.
  unfold hex_decodes. rewrite length_hex_encode.
  replace (Nat.even (2 * String.length s)) with true
    by (symmetry; apply Nat.even_spec; by exists (String.length s)).
  rewrite andb_true_l.
  pose proof (hex_encode_lower s) as H. rewrite forallb_forall in H |- *.
  intros c Hc. specialize (H c Hc). unfold is_lower_hex in H. unfold is_hex_digit. lia.
Qed.

(** Text of ASCII bytes none of which is an upper-case letter is its own lower case. *)
Definition is_lower_ascii (c : ascii) : bool :=
  let b := byte_of c in (b <? 0x80) && negb ((65 <=? b) && (b <=? 90)).

Lemma ToLower_lower_ascii s :
  forallb is_lower_ascii (list_ascii_of_string s) = true → ToLower s = s.
Proof.
  unfold ToLower, runes. induction s as [|c s IH]; [done|].
  cbn [list_ascii_of_string forallb String.length runes_fuel].
  intros [Hc Hs]%andb_true_iff. unfold is_lower_ascii in Hc. pose proof (byte_of_range c).
  apply andb_true_iff in Hc as [Hlt Hup].
  assert (Hd : decode_rune c s = (byte_of c, 1%nat)) by (unfold decode_rune; by rewrite Hlt).
  rewrite Hd. cbn [snd foldr fst drop_bytes Nat.sub]. rewrite IH by done.
  unfold lower_rune. rewrite Hlt. apply negb_true_iff in Hup. rewrite Hup.
  unfold encode_rune. rewrite Hlt, char_of_byte_of. done.
Qed.

Lemma ToLower_hex_encode s : ToLower (hex_encode s) = hex_encode s.
Proof.
  apply ToLower_lower_ascii. pose proof (hex_encode_lower s) as H.
  rewrite forallb_forall in H |- *. intros c Hc. specialize (H c Hc).
  unfold is_lower_hex in H. unfold is_lower_ascii. lia.
Qed.

Lemma hex_digit_inj a b : 0 ≤ a < 16 → 0 ≤ b < 16 → hex_digit a = hex_digit b → a = b.
Proof.
  intros Ha Hb H. apply (f_equal byte_of) in H. unfold hex_digit in H.
  destruct (Z.ltb_spec a 10), (Z.ltb_spec b 10); rewrite !byte_of_char_of in H;
    unfold u8 in H; rewrite !Z.mod_small in H by lia; lia.
Qed.

Lemma hex_encode_inj s t : hex_encode s = hex_encode t → s = t.
Proof.
  revert t. induction s as [|c s IH]; intros [|d t]; simpl; try done.
  intros H. injection H as H1 H2 H3. pose proof (byte_of_range c). pose proof (byte_of_range d).
  assert (∀ x, 0 ≤ byte_of x / 16 < 16) as Hq.
  { intros x. pose proof (byte_of_range x).
    split; [apply Z.div_pos; lia | apply Z.div_lt_upper_bound; lia]. }
  assert (∀ x, 0 ≤ byte_of x mod 16 < 16) as Hr by (intros; apply Z.mod_pos_bound; lia).
  apply hex_digit_inj in H1; [|auto..]. apply hex_digit_inj in H2; [|auto..].
  rewrite (IH t) by done. f_equal. apply byte_of_inj.
  rewrite (Z.div_mod (byte_of c) 16), (Z.div_mod (byte_of d) 16) by lia. lia.
Qed.

#[export] Hint Resolve len_nonneg byte_of_range : balda.

(** ** Trimming *)
Lemma trim_left_strip s :
  trim_left s = match strip_space s with Some s1 => trim_left s1 | None => s end.
Proof.
  destruct s as [|c [|d [|e s]]]; simpl; [done|..];
    destruct (ascii_space c); try done; destruct (space2 c d); try done; by destruct (space3 c d e).
Qed.

Lemma strip_space_shorter s s1 : strip_space s = Some s1 → (String.length s1 < String.length s)%nat.
Proof.
  destruct s as [|c [|d [|e s]]]; simpl; [done|..]; repeat case_match; intros [= <-]; simpl; lia.
Qed.

(** Induction on the length of a string. *)
Lemma string_length_ind (P : string → Prop) :
  (∀ s, (∀ s1, (String.length s1 < String.length s)%nat → P s1) → P s) → ∀ s, P s.
Proof.
  intros H s. remember (String.length s) as n eqn:Hn. revert s Hn.
  induction n as [n IH] using lt_wf_ind. intros s ->. apply H. intros s1 Hs. by eapply IH.
Qed.

Lemma trim_left_no_space s : strip_space (trim_left s) = None.
Proof.
  induction s as [s IH] using string_length_ind. rewrite trim_left_strip.
  destruct (strip_space s) as [s1|] eqn:Hs; [|done]. apply IH. by apply strip_space_shorter.
Qed.

Lemma trim_left_id s : strip_space s = None → trim_left s = s.
Proof. intros H. by rewrite trim_left_strip, H. Qed.

Lemma trim_right_cons c s :
  trim_right (String c s) =
    if bool_decide (trim_left (String c s) = EmptyString) then EmptyString else String c (trim_right s).
Proof. done. Qed.

Lemma trim_right_head s c t :
  trim_right s = String c t → ∃ s1, s = String c s1 ∧ t = trim_right s1.
Proof.
  destruct s as [|c' s1]; [done|]. rewrite trim_right_cons.
  case_bool_decide; [done|]. intros [= -> <-]. eauto.
Qed.

Lemma strip_space_trim_right s s1 :
  strip_space (trim_right s) = Some s1 → ∃ s2, strip_space s = Some s2 ∧ s1 = trim_right s2.
Proof.
  destruct (trim_right s) as [|c t] eqn:Ht; [done|].
  apply trim_right_head in Ht as (s2 & -> & ->). simpl.
  destruct (ascii_space c); [intros [= <-]; eauto|].
  destruct (trim_right s2) as [|d t2] eqn:Ht2; [done|].
  apply trim_right_head in Ht2 as (s3 & -> & ->).
  destruct (space2 c d); [intros [= <-]; eauto|].
  destruct (trim_right s3) as [|e t3] eqn:Ht3; [done|].
  apply trim_right_head in Ht3 as (s4 & -> & ->).
  destruct (space3 c d e); [intros [= <-]; eauto | done].
Qed.

Lemma trim_right_empty s : trim_right s = EmptyString ↔ trim_left s = EmptyString.
Proof.
  destruct s as [|c s]; [done|]. rewrite trim_right_cons. case_bool_decide; done.
Qed.

Lemma all_space_trim_right s : trim_left (trim_right s) = EmptyString → trim_left s = EmptyString.
Proof.
  induction s as [s IH] using string_length_ind. rewrite (trim_left_strip (trim_right s)).
  destruct (strip_space (trim_right s)) as [s1|] eqn:Hs.
  - apply strip_space_trim_right in Hs as (s2 & Hs2 & ->). intros H.
    rewrite trim_left_strip, Hs2. apply IH; [by apply strip_space_shorter | done].
  - apply trim_right_empty.
Qed.

Lemma trim_right_idemp s : trim_right (trim_right s) = trim_right s.
Proof.
  induction s as [|c s IH]; [done|]. rewrite (trim_right_cons c s).
  case_bool_decide as Hc; [done|]. rewrite trim_right_cons, IH.
  rewrite bool_decide_false; [done|]. intros H. apply Hc, all_space_trim_right.
  by rewrite trim_right_cons, bool_decide_false.
Qed.

Lemma TrimSpace_idemp s : TrimSpace (TrimSpace s) = TrimSpace s.
Proof.
  unfold TrimSpace. set (t := trim_left s).
  rewrite (trim_left_id (trim_right t)); [apply trim_right_idemp|].
  destruct (strip_space (trim_right t)) as [s1|] eqn:Hs; [|done].
  apply strip_space_trim_right in Hs as (s2 & Hs2 & _).
  unfold t in Hs2. by rewrite trim_left_no_space in Hs2.
Qed.

(** A common suffix of known length determines the rest. *)
Lemma append_inj_suffix (s1 s2 t1 t2 : string) :
  String.length t1 = String.length t2 → s1 +:+ t1 = s2 +:+ t2 → s1 = s2 ∧ t1 = t2.
Proof.
  intros Hl H. apply append_inj_length; [|done].
  apply (f_equal String.length) in H. rewrite !length_append in H. lia.
Qed.

(** [Cut] splits at the first separator. *)
Lemma Cut_spec s sep a b :
  Cut s sep = (a, b, true) → s = a +:+ String sep b ∧ sep ∉ list_ascii_of_string a.
Proof.
  revert a b. induction s as [|c s IH]; intros a b; simpl; [done|].
  destruct (Ascii.eqb_spec c sep) as [->|Hc].
  - intros [= <- <-]. split; [done|]. simpl. apply not_elem_of_nil.
  - destruct (Cut s sep) as [[a' b'] ok]. intros [= <- <- ->].
    destruct (IH a' b' eq_refl) as [-> Hn]. split; [done|]. simpl.
    apply not_elem_of_cons. split; [congruence | done].
Qed.

(** ** Valid UTF-8 as a sequence of runes *)
Definition is_bad (rw : Z * nat) : bool := (rw.1 =? RuneError) && (rw.2 =? 1)%nat.
Definition all_cont (s : string) : bool :=
  forallb (λ c, is_cont (byte_of c)) (list_ascii_of_string s).

(** The bytes of one well-formed rune: a first byte and continuation bytes that
    decode to the same rune whatever follows. *)
Definition is_rune (p : string) : Prop :=
  ∃ c q r, p = String c q ∧ all_cont q = true ∧ is_bad (r, String.length p) = false ∧
    ∀ s, decode_rune c (q +:+ s) = (r, String.length p).

Inductive utf8_valid : string → Prop :=
  | valid_empty : utf8_valid EmptyString
  | valid_rune p s : is_rune p → utf8_valid s → utf8_valid (p +:+ s).

(** A rune that decodes without an error is one of these. *)
Lemma decode_is_rune c rest :
  is_bad (decode_rune c rest) = false →
  ∃ p s, String c rest = p +:+ s ∧ is_rune p ∧ (decode_rune c rest).2 = String.length p.
Proof.
  intros Hbad.
  assert (Hmk : ∀ q s r, rest = q +:+ s → all_cont q = true →
    (∀ s', decode_rune c (q +:+ s') = (r, S (String.length q))) →
    ∃ p s, String c rest = p +:+ s ∧ is_rune p ∧ (decode_rune c rest).2 = String.length p).
  { intros q s r -> Hq Hd. exists (String c q), s. split; [done|].
    rewrite Hd in Hbad |- *. split; [|done]. exists c, q, r. done. }
  unfold decode_rune in Hbad, Hmk |- *.
  destruct (byte_of c <? 0x80) eqn:E1; [by apply (Hmk EmptyString rest (byte_of c))|].
  destruct (byte_of c <? 0xC2) eqn:E2; [done|].
  destruct rest as [|d rest2]; [done|].
  destruct (byte_of c <? 0xE0) eqn:E3.
  { destruct (is_cont (byte_of d)) eqn:Ed; [|done].
    eapply (Hmk (String d EmptyString) rest2); [done | unfold all_cont; simpl; by rewrite Ed|].
    intros s'. simpl. rewrite Ed. reflexivity. }
  set (lo := if byte_of c =? 0xE0 then _ else _) in *.
  set (hi := if byte_of c =? 0xED then _ else _) in *.
  destruct (negb ((lo <=? byte_of d) && (byte_of d <=? hi))) eqn:Er; [done|].
  assert (Ed : is_cont (byte_of d) = true).
  { apply negb_false_iff, andb_true_iff in Er as [H1%Z.leb_le H2%Z.leb_le].
    unfold is_cont. apply andb_true_iff. rewrite !Z.leb_le. subst lo hi.
    repeat case_match; lia. }
  destruct rest2 as [|e rest3]; [done|].
  destruct (is_cont (byte_of e)) eqn:Ee; cbn [negb] in *; [|done].
  destruct (byte_of c <? 0xF0) eqn:E4.
  { eapply (Hmk (String d (String e EmptyString)) rest3); [done | unfold all_cont; simpl; by rewrite Ed, Ee|].
    intros s'. simpl. fold lo hi. rewrite Er, Ee. reflexivity. }
  destruct (0xF4 <? byte_of c) eqn:E5; [done|].
  destruct rest3 as [|f rest4]; [done|].
  destruct (is_cont (byte_of f)) eqn:Ef; [|done].
  eapply (Hmk (String d (String e (String f EmptyString))) rest4);
    [done | unfold all_cont; simpl; by rewrite Ed, Ee, Ef|].
  intros s'. simpl. fold lo hi. rewrite Er, Ee. cbn [negb]. rewrite Ef. reflexivity.
Qed.

Lemma drop_bytes_append p s : drop_bytes (String.length p) (p +:+ s) = s.
Proof. induction p as [|c p IH]; [by destruct s|]. rewrite append_cons. simpl. exact IH. Qed.

Lemma take_bytes_append p s : take_bytes (String.length p) (p +:+ s) = p.
Proof. induction p as [|c p IH]; [by destruct s|]. rewrite append_cons. simpl. by rewrite IH. Qed.

Lemma rune_length p : is_rune p → (0 < String.length p)%nat.
Proof. intros (c & q & r & -> & _). simpl. lia. Qed.

Lemma runes_fuel_valid fuel s :
  (String.length s ≤ fuel)%nat →
  forallb (λ rw, negb (is_bad rw)) (runes_fuel fuel s) = true ↔ utf8_valid s.
Proof.
  revert s. induction fuel as [|fuel IH]; intros s Hlen.
  { destruct s; [|simpl in Hlen; lia]. split; [constructor | done]. }
  destruct s as [|c rest]; [split; [constructor | done]|].
  cbn [runes_fuel forallb]. rewrite andb_true_iff, negb_true_iff. split.
  - intros [Hb Hr]. destruct (decode_is_rune c rest Hb) as (p & s & Hps & Hp & Hw).
    rewrite Hps. constructor; [done|]. apply IH.
    + pose proof (rune_length p Hp). apply (f_equal String.length) in Hps.
      rewrite length_append in Hps. simpl in Hps, Hlen. lia.
    + rewrite Hw in Hr. destruct p as [|c' q]; [by destruct Hp as (? & ? & ? & ? & _)|].
      rewrite append_cons in Hps. injection Hps as -> ->. simpl in Hr.
      rewrite Nat.sub_0_r, drop_bytes_append in Hr. exact Hr.
  - inversion 1 as [|p s Hp Hs Heq]. destruct Hp as (c' & q & r & -> & Hq & Hb & Hd).
    rewrite append_cons in Heq. injection Heq as -> <-. rewrite Hd. split; [exact Hb|].
    simpl. rewrite Nat.sub_0_r, drop_bytes_append. apply IH; [|done].
    simpl in Hlen. rewrite length_append in Hlen. lia.
Qed.

Lemma ValidString_valid s : ValidString s = true ↔ utf8_valid s.
Proof. apply (runes_fuel_valid (String.length s) s). done. Qed.

(** A position that does not point into a rune. *)
Definition boundary (s : string) (n : nat) : Prop :=
  n = O ∨ n = String.length s ∨ ∃ c, String.get n s = Some c ∧ RuneStart c = true.

Lemma get_append_r p s n :
  (String.length p ≤ n)%nat → String.get n (p +:+ s) = String.get (n - String.length p) s.
Proof.
  revert n. induction p as [|c p IH]; intros n Hn; [simpl; by rewrite Nat.sub_0_r|].
  destruct n as [|n]; [simpl in Hn; lia|]. rewrite append_cons. simpl. apply IH. simpl in Hn. lia.
Qed.

Lemma get_all_cont q s n c :
  all_cont q = true → (n < String.length q)%nat → String.get n (q +:+ s) = Some c → RuneStart c = false.
Proof.
  revert n. induction q as [|d q IH]; intros n; [simpl; lia|].
  unfold all_cont. cbn [list_ascii_of_string forallb]. intros [Hd Hq]%andb_true_iff Hn.
  rewrite append_cons. destruct n as [|n]; simpl.
  - intros [= <-]. unfold RuneStart. by rewrite Hd.
  - apply IH; [exact Hq | simpl in Hn; lia].
Qed.

Lemma drop_bytes_add p s n :
  drop_bytes (String.length p + n) (p +:+ s) = drop_bytes n s.
Proof. induction p as [|c p IH]; [done|]. rewrite append_cons. simpl. exact IH. Qed.

Lemma take_bytes_add p s n :
  take_bytes (String.length p + n) (p +:+ s) = p +:+ take_bytes n s.
Proof. induction p as [|c p IH]; [done|]. rewrite !append_cons. simpl. by rewrite IH. Qed.

(** Cutting valid text at a boundary leaves two valid texts. *)
Lemma utf8_split s n :
  utf8_valid s → boundary s n → utf8_valid (take_bytes n s) ∧ utf8_valid (drop_bytes n s).
Proof.
  intros Hs. revert n. induction Hs as [|p s Hp Hs IH]; intros n Hn.
  { destruct n; split; constructor. }
  destruct (decide (n = O)) as [->|Hn0]; [split; simpl; [destruct p; destruct s; constructor|]; by constructor|].
  destruct (decide (n < String.length p)%nat) as [Hlt|Hge].
  - exfalso. destruct Hn as [->|[->|(c & Hc & Hrs)]]; [lia | rewrite length_append in Hlt; lia|].
    destruct Hp as (c0 & q & r & -> & Hq & _). destruct n as [|n]; [lia|].
    rewrite append_cons in Hc. simpl in Hc, Hlt.
    rewrite (get_all_cont q s n c Hq ltac:(lia) Hc) in Hrs. done.
  - replace n with (String.length p + (n - String.length p))%nat by lia.
    rewrite take_bytes_add, drop_bytes_add.
    destruct (IH (n - String.length p)%nat) as [H1 H2].
    { destruct Hn as [->|[->|(c & Hc & Hrs)]]; [lia|..].
      - right. left. rewrite length_append. lia.
      - right. right. exists c. split; [|done]. rewrite <-get_append_r by lia. exact Hc. }
    split; [by constructor | done].
Qed.

(** [fits] by computation. *)
Lemma fits_forallb n parts :
  forallb (λ s, len s <? 2 ^ (8 * Z.of_nat n)) parts = true → Forall (fits n) parts.
Proof.
  intros H. apply Forall_forall. intros s Hs. rewrite forallb_forall in H.
  apply Z.ltb_lt, H. by apply list_elem_of_In.
Qed.
