(* ===== verification/Sha256.v ===== *)
(** * Sha256: the [crypto/sha256] digest of Go's standard library

    An executable FIPS 180-4 SHA-256 on byte strings, with [Sum256] and the
    lower-case hexadecimal form the code derives identities from.  Words are
    32-bit values in [Z], reduced after every addition. *)

From Stdlib Require Import ZArith Lia Ascii String.
From stdpp Require Import base numbers list strings.
From S2P Require Import Prelude.
From S2P Require Import GoStrings.

Local Open Scope Z_scope.

(** ** The constants: the first thirty-two fractional bits of the roots of the
    first primes, found by bisection. *)
Fixpoint root_floor (fuel : nat) (power target low high : Z) : Z :=
  match fuel with
  | O => low
  | S fuel =>
      let middle := (low + high) / 2 in
      if middle ^ power <=? target then root_floor fuel power target middle high
      else root_floor fuel power target low middle
  end.

Definition is_prime (n : Z) : bool :=
  forallb (λ k, negb (n mod Z.of_nat k =? 0)) (seq 2 (Z.to_nat n - 2)).
Definition primes_upto (n : nat) : list Z :=
  List.filter is_prime (map Z.of_nat (seq 2 (n - 1))).

Definition root_fraction (power p : Z) : Z :=
  u32 (root_floor 40 power (p * 2 ^ (32 * power)) 0 (2 ^ 39)).

Definition round_constants : list Z :=
  Eval vm_compute in map (root_fraction 3) (primes_upto 311).
Definition initial_hash : list Z :=
  Eval vm_compute in map (root_fraction 2) (primes_upto 19).

Lemma root_fractions_count : length round_constants = 64%nat ∧ length initial_hash = 8%nat.
Proof. split; reflexivity. Qed.

(** ** 32-bit word functions *)

(** Truncation to 32 bits as a mask. *)
Definition word (x : Z) : Z := Z.land x 0xffffffff.

Lemma word_u32 x : word x = u32 x.
Proof. unfold word, u32. change 0xffffffff with (Z.ones 32). by rewrite Z.land_ones by lia. Qed.

Definition rotr (n x : Z) : Z := word (Z.lor (Z.shiftr x n) (Z.shiftl x (32 - n))).
Definition big_sigma0 (x : Z) : Z := Z.lxor (rotr 2 x) (Z.lxor (rotr 13 x) (rotr 22 x)).
Definition big_sigma1 (x : Z) : Z := Z.lxor (rotr 6 x) (Z.lxor (rotr 11 x) (rotr 25 x)).
Definition small_sigma0 (x : Z) : Z := Z.lxor (rotr 7 x) (Z.lxor (rotr 18 x) (Z.shiftr x 3)).
Definition small_sigma1 (x : Z) : Z := Z.lxor (rotr 17 x) (Z.lxor (rotr 19 x) (Z.shiftr x 10)).
Definition choose (x y z : Z) : Z := Z.lxor (Z.land x y) (Z.land (Z.lxor x 0xffffffff) z).
Definition majority (x y z : Z) : Z :=
  Z.lxor (Z.land x y) (Z.lxor (Z.land x z) (Z.land y z)).

(** ** Message schedule: [window] holds the next sixteen words, oldest first. *)
Fixpoint expand (n : nat) (window : list Z) : list Z :=
  match n, window with
  | S n, w0 :: rest =>
      let w k := nth k window 0 in
      let new := word (small_sigma1 (w 14%nat) + w 9%nat + small_sigma0 (w 1%nat) + w0) in
      w0 :: expand n (rest ++ [new])
  | _, _ => []
  end.

Record working := Working { wa : Z; wb : Z; wc : Z; wd : Z; we : Z; wf : Z; wg : Z; wh : Z }.

Definition round (s : working) (kw : Z * Z) : working :=
  let t1 := wh s + big_sigma1 (we s) + choose (we s) (wf s) (wg s) + kw.1 + kw.2 in
  let t2 := big_sigma0 (wa s) + majority (wa s) (wb s) (wc s) in
  Working (word (t1 + t2)) (wa s) (wb s) (wc s) (word (wd s + t1)) (we s) (wf s) (wg s).

Definition compress (h : working) (block : list Z) : working :=
  let s := fold_left round (combine round_constants (expand 64 block)) h in
  Working (word (wa h + wa s)) (word (wb h + wb s)) (word (wc h + wc s)) (word (wd h + wd s))
    (word (we h + we s)) (word (wf h + wf s)) (word (wg h + wg s)) (word (wh h + wh s)).

(** ** Padding and blocks *)
Definition bytes_of (s : string) : list Z := map byte_of (list_ascii_of_string s).

Definition pad (msg : list Z) : list Z :=
  let n := Z.of_nat (length msg) in
  msg ++ 0x80 :: repeat 0 (Z.to_nat ((55 - n) mod 64)) ++ bytes_of (be_bytes 8 (8 * n)).

Fixpoint words (bytes : list Z) : list Z :=
  match bytes with
  | b0 :: b1 :: b2 :: b3 :: rest =>
      Z.lor (Z.shiftl b0 24) (Z.lor (Z.shiftl b1 16) (Z.lor (Z.shiftl b2 8) b3)) :: words rest
  | _ => []
  end.

(** [fuel] bounds the number of sixteen-word blocks; the number of words does. *)
Fixpoint absorb (fuel : nat) (h : working) (ws : list Z) : working :=
  match fuel, ws with
  | S fuel, _ :: _ => absorb fuel (compress h (take 16 ws)) (drop 16 ws)
  | _, _ => h
  end.

Definition start : working :=
  match initial_hash with
  | [a; b; c; d; e; f; g; h] => Working a b c d e f g h
  | _ => Working 0 0 0 0 0 0 0 0
  end.

(** [sha256.Sum256]: the 32 digest bytes. *)
Definition Sum256 (s : string) : string :=
  let ws := words (pad (bytes_of s)) in
  let h := absorb (length ws) start ws in
  be_bytes 4 (wa h) +:+ be_bytes 4 (wb h) +:+ be_bytes 4 (wc h) +:+ be_bytes 4 (wd h) +:+
  be_bytes 4 (we h) +:+ be_bytes 4 (wf h) +:+ be_bytes 4 (wg h) +:+ be_bytes 4 (wh h).

(** [hex.EncodeToString(digest[:])] *)
Definition sha256_hex (s : string) : string := hex_encode (Sum256 s).

Local Open Scope string_scope.

(** The published test vectors for the empty message, one block and two blocks. *)
Example sha256_empty :
  sha256_hex "" = "e3b0c44298fc1c149afbf4c8996fb92427ae41e4649b934ca495991b7852b855".
Proof. vm_compute. reflexivity. Qed.

Example sha256_abc :
  sha256_hex "abc" = "ba7816bf8f01cfea414140de5dae2223b00361a396177a9cb410ff61f20015ad".
Proof. vm_compute. reflexivity. Qed.

Example sha256_two_blocks :
  sha256_hex "abcdbcdecdefdefgefghfghighijhijkijkljklmklmnlmnomnopnopq" =
  "248d6a61d20638b8e5c026930c3e6039a33ce45964ff2167f6ecedd419db06c1".
Proof. vm_compute. reflexivity. Qed.

Lemma length_Sum256 s : String.length (Sum256 s) = 32%nat.
Proof. unfold Sum256. by rewrite !length_append, !length_be_bytes. Qed.

Lemma length_sha256_hex s : String.length (sha256_hex s) = 64%nat.
Proof. unfold sha256_hex. by rewrite length_hex_encode, length_Sum256. Qed.

Lemma sha256_hex_eq s t : sha256_hex s = sha256_hex t → Sum256 s = Sum256 t.
Proof. apply hex_encode_inj. Qed.

(** Two different messages with one digest. *)
Definition sha256_collision (s t : string) : Prop := s ≠ t ∧ Sum256 s = Sum256 t.

(** Identities are compared by their preimages, never by computing digests. *)
#[global] Opaque Sum256 sha256_hex.
