(* ===== verification/GoNumeric.v ===== *)
(** * GoNumeric: float64, durations and stable sorting of Go's standard library

    [float64] is IEEE 754 binary64 with round to nearest even, as the Standard
    Library's executable specification computes it; [time.Time.Sub] saturates to the
    range of a [time.Duration]; [sort.SliceStable] keeps equal elements in order. *)

From Stdlib Require Import ZArith Lia SpecFloat.
From stdpp Require Import base numbers list sorting.
From S2P Require Import Prelude.

Local Open Scope Z_scope.

(** ** float64 *)
Abbreviation float64 := spec_float.
Definition f64_of_Z (z : Z) : float64 := binary_normalize 53 1024 z 0 false.
Definition f64_zero : float64 := S754_zero false.
Definition f64_one : float64 := f64_of_Z 1.
Definition f64_add : float64 → float64 → float64 := SFadd 53 1024.
Definition f64_div : float64 → float64 → float64 := SFdiv 53 1024.
(** [==] and [<]: false when an argument is not a number. *)
Definition f64_eqb : float64 → float64 → bool := SFeqb.
Definition f64_ltb : float64 → float64 → bool := SFltb.
Definition IsNaN (x : float64) : bool := match x with S754_nan => true | _ => false end.
Definition IsInf (x : float64) : bool := match x with S754_infinity _ => true | _ => false end.

Example f64_third : f64_div f64_one (f64_of_Z 3) = S754_finite false 6004799503160661 (-54).
Proof. reflexivity. Qed.
Example f64_round_even : f64_of_Z 9007199254740993 = S754_finite false 4503599627370496 1.
Proof. reflexivity. Qed.

#[export] Instance float64_eq_dec : EqDecision float64.
Proof. solve_decision. Defined.

(** ** Durations *)
Definition max_i64 : Z := 2 ^ 63 - 1.
Definition min_i64 : Z := - 2 ^ 63.
Definition time_Sub (t u : Z) : Z := Z.max min_i64 (Z.min max_i64 (t - u)).
Definition Second : Z := 10 ^ 9.
Definition Hour : Z := 3600 * 10 ^ 9.
Definition Duration_Hours (d : Z) : float64 :=
  f64_add (f64_of_Z (Z.quot d Hour)) (f64_div (f64_of_Z (Z.rem d Hour)) (f64_of_Z Hour)).

Example ninety_minutes : Duration_Hours (90 * 60 * 10 ^ 9) = f64_div (f64_of_Z 3) (f64_of_Z 2).
Proof. reflexivity. Qed.

(** ** Stable sorting *)
Section slice_stable.
  Context {A : Type} (less : A → A → bool).

Fixpoint insert_stable (x : A) (l : list A) : list A :=
  match l with
  | [] => [x]
  | y :: l => if less x y then x :: y :: l else y :: insert_stable x l
  end.
Definition SliceStable (l : list A) : list A := foldl (λ acc x, insert_stable x acc) [] l.

  (** The order a sorted slice is in. *)
Definition not_after (x y : A) : Prop := less y x = false.

Lemma insert_stable_perm x l : insert_stable x l ≡ₚ x :: l.
  Proof.
    induction l as [|y l IH]; cbn [insert_stable]; [done|]. destruct (less x y); [done|].
    rewrite IH. apply Permutation_swap.
  Qed.

Lemma SliceStable_perm l : SliceStable l ≡ₚ l.
  Proof.
    unfold SliceStable. assert (Hgen : ∀ l acc, foldl (λ acc x, insert_stable x acc) acc l ≡ₚ acc ++ l).
    { clear l. induction l as [|x l IH]; intros acc; cbn [foldl]; [by rewrite app_nil_r|].
      rewrite IH, insert_stable_perm. apply Permutation_middle. }
    apply (Hgen l []).
  Qed.

  (** Sorting by a strict weak order of the elements at hand. *)
  Context (P : A → Prop).
  Context (Hasym : ∀ y z, P y → P z → less y z = true → less z y = false).
  Context (Htrans : ∀ y z w, P y → P z → P w → less z y = false → less w z = false → less w y = false).

Lemma insert_stable_sorted x l :
    P x → Forall P l → StronglySorted not_after l → StronglySorted not_after (insert_stable x l).
  Proof using Hasym Htrans.
    intros Hx. induction l as [|y l IH]; intros Hp Hs; cbn [insert_stable].
    - constructor; [constructor|constructor].
    - apply StronglySorted_inv in Hs as [Hs Hall]. apply Forall_cons in Hp as [Hy Hl].
      destruct (less x y) eqn:E.
      + constructor; [by constructor|]. constructor; [by apply Hasym|].
        rewrite Forall_forall in Hall, Hl |- *. intros z Hz. unfold not_after in *.
        apply (Htrans x y z); [done|done|by apply Hl|by apply Hasym|by apply Hall].
      + constructor; [by apply IH|]. rewrite insert_stable_perm. by constructor.
  Qed.

Lemma SliceStable_sorted l : Forall P l → StronglySorted not_after (SliceStable l).
  Proof using Hasym Htrans.
    unfold SliceStable.
    assert (Hgen : ∀ l acc, Forall P l → Forall P acc → StronglySorted not_after acc →
      StronglySorted not_after (foldl (λ acc x, insert_stable x acc) acc l)).
    { clear l. induction l as [|x l IH]; intros acc Hl Hp Hacc; cbn [foldl]; [done|].
      apply Forall_cons in Hl as [Hx Hl]. apply IH; [done| |by apply insert_stable_sorted].
      rewrite insert_stable_perm. by constructor. }
    intros Hl. apply Hgen; [done|constructor|constructor].
  Qed.
End slice_stable.

(** ** Numbers compare totally *)
Lemma SFcompare_some x y : IsNaN x = false → IsNaN y = false → is_Some (SFcompare x y).
Proof. destruct x as [[]|[]| |[]], y as [[]|[]| |[]]; intros [=] [=]; by eexists. Qed.

(** Position of a number: class, then exponent and mantissa by sign. *)
Definition float_rank (x : float64) : Z * (Z * Z) :=
  match x with
  | S754_infinity true => (-2, (0, 0))
  | S754_finite true m e => (-1, (- e, - Z.pos m))
  | S754_zero _ => (0, (0, 0))
  | S754_finite false m e => (1, (e, Z.pos m))
  | S754_infinity false => (2, (0, 0))
  | S754_nan => (3, (0, 0))
  end.
Definition rank_lt (p q : Z * (Z * Z)) : Prop :=
  p.1 < q.1 ∨ (p.1 = q.1 ∧ (p.2.1 < q.2.1 ∨ (p.2.1 = q.2.1 ∧ p.2.2 < q.2.2))).

Lemma SFcompare_rank x y :
  IsNaN x = false → IsNaN y = false →
  match SFcompare x y with
  | Some Lt => rank_lt (float_rank x) (float_rank y)
  | Some Eq => float_rank x = float_rank y
  | Some Gt => rank_lt (float_rank y) (float_rank x)
  | None => False
  end.
Proof.
  unfold rank_lt. destruct x as [s|[]| |[] m e], y as [s'|[]| |[] m' e']; intros Hx Hy;
    try discriminate Hx; try discriminate Hy; cbn; try lia; try done;
    destruct (Z.compare_spec e e') as [->|He|He]; cbn; try lia;
    change (Pos.compare_cont Eq m m') with (Pos.compare m m'); destruct (Pos.compare_spec m m') as [->|Hm|Hm]; cbn; try done; lia.
Qed.

Lemma f64_ltb_rank x y : IsNaN x = false → IsNaN y = false → f64_ltb x y = true ↔ rank_lt (float_rank x) (float_rank y).
Proof.
  intros Hx Hy. pose proof (SFcompare_rank x y Hx Hy) as H. unfold f64_ltb, SFltb, rank_lt in *.
  destruct (SFcompare x y) as [[]|]; try done.
  - rewrite H. split; [done|lia].
  - split; [discriminate|lia].
Qed.
Lemma f64_eqb_rank x y : IsNaN x = false → IsNaN y = false → f64_eqb x y = true ↔ float_rank x = float_rank y.
Proof.
  intros Hx Hy. pose proof (SFcompare_rank x y Hx Hy) as H. unfold f64_eqb, SFeqb, rank_lt in *.
  destruct (SFcompare x y) as [[]|]; try done; (split; [discriminate | intros E; rewrite E in H; lia]).
Qed.

(** ** Arithmetic on non-negative numbers *)
Definition f64_nonneg (x : float64) : bool :=
  match x with S754_zero false | S754_infinity false | S754_finite false _ _ => true | _ => false end.
Definition f64_positive_finite (x : float64) : bool := match x with S754_finite false _ _ => true | _ => false end.

Lemma nonneg_number x : f64_nonneg x = true → IsNaN x = false.
Proof. by destruct x as [[]|[]| |[]]. Qed.

Lemma shr_1_nonneg r : 0 ≤ shr_m r → 0 ≤ shr_m (shr_1 r).
Proof. destruct r as [[|[p|p|]|p] ? ?]; cbn; lia. Qed.

Lemma shr_nonneg r e n : 0 ≤ shr_m r → 0 ≤ shr_m (shr r e n).1.
Proof.
  unfold shr. destruct n as [|p|p]; cbn [fst]; try done. revert r.
  induction p as [p IH|p IH|]; intros r Hr; cbn [iter_pos].
  - apply IH, IH. by apply shr_1_nonneg.
  - by apply IH, IH.
  - by apply shr_1_nonneg.
Qed.

Lemma round_aux_nonneg mx ex lx : 0 ≤ mx → f64_nonneg (binary_round_aux 53 1024 false mx ex lx) = true.
Proof.
  intros Hm. unfold binary_round_aux, shr_fexp.
  assert (H1 : 0 ≤ shr_m (shr_record_of_loc mx lx)) by (by destruct lx as [|[]]).
  destruct (shr (shr_record_of_loc mx lx) _ _) as [r e] eqn:E1.
  pose proof (shr_nonneg (shr_record_of_loc mx lx) ex (fexp 53 1024 (Zdigits2 mx + ex) - ex) H1) as H2.
  rewrite E1 in H2. cbn [fst] in H2.
  assert (H3 : 0 ≤ round_nearest_even (shr_m r) (loc_of_shr_record r)).
  { unfold round_nearest_even. destruct (loc_of_shr_record r) as [|[]]; try lia. destruct (Z.even _); lia. }
  set (mz := round_nearest_even _ _) in *. destruct (shr (shr_record_of_loc mz loc_Exact) _ _) as [r' e'] eqn:E2.
  pose proof (shr_nonneg (shr_record_of_loc mz loc_Exact) e (fexp 53 1024 (Zdigits2 mz + e) - e) H3) as H4.
  rewrite E2 in H4. cbn [fst] in H4. destruct (shr_m r') as [|p|p]; [done| |lia]. by destruct (_ <=? _).
Qed.

Lemma normalize_nonneg m e : 0 ≤ m → f64_nonneg (binary_normalize 53 1024 m e false) = true.
Proof.
  intros Hm. unfold binary_normalize, binary_round. destruct m as [|m|m]; [done| |lia].
  destruct (shl_align _ _ _). apply round_aux_nonneg. lia.
Qed.

Lemma f64_of_Z_nonneg z : 0 ≤ z → f64_nonneg (f64_of_Z z) = true.
Proof. apply normalize_nonneg. Qed.

Lemma f64_add_nonneg x y : f64_nonneg x = true → f64_nonneg y = true → f64_nonneg (f64_add x y) = true.
Proof.
  unfold f64_add, SFadd. destruct x as [[]|[]| |[] m e], y as [[]|[]| |[] m' e']; intros Hx Hy;
    try discriminate Hx; try discriminate Hy; try done.
  apply normalize_nonneg. cbn [cond_Zopp]. lia.
Qed.

Lemma f64_div_nonneg x y :
  f64_nonneg x = true → f64_nonneg y = true → f64_positive_finite x = true ∨ f64_positive_finite y = true →
  f64_nonneg (f64_div x y) = true.
Proof.
  unfold f64_div, SFdiv. destruct x as [[]|[]| |[] m e], y as [[]|[]| |[] m' e']; intros Hx Hy Hf;
    try discriminate Hx; try discriminate Hy; try done; try (by destruct Hf).
  unfold SFdiv_core_binary. set (e1 := Z.min _ _). set (mm := match _ with Z0 => _ | Z.pos _ => _ | Z.neg _ => _ end).
  destruct (Z.div_eucl mm (Z.pos m')) as [q r] eqn:E. apply round_aux_nonneg.
  assert (Hmm : 0 ≤ mm) by (unfold mm; destruct (e - e' - e1); [lia|apply Z.shiftl_nonneg; lia|lia]).
  pose proof (Z.div_pos mm (Z.pos m') Hmm ltac:(lia)) as Hq. unfold Z.div in Hq. by rewrite E in Hq.
Qed.

Lemma Duration_Hours_nonneg d : 0 ≤ d → f64_nonneg (Duration_Hours d) = true.
Proof.
  intros Hd. apply f64_add_nonneg.
  - apply f64_of_Z_nonneg, Z.quot_pos; [done|unfold Hour; lia].
  - apply f64_div_nonneg; [|done|by right]. apply f64_of_Z_nonneg, Z.rem_nonneg; [unfold Hour; lia|done].
Qed.
