(* ===== verification/GoParse.v ===== *)
(** * GoParse: [strconv.ParseUint] and [Atoi], [strings.TrimPrefix] and [EqualFold], and
    [sort.Strings], as the outboxes and the questions use them, with their laws. *)

From Stdlib Require Import ZArith Lia Ascii String.
From stdpp Require Import base numbers list strings pretty sorting.
From S2P Require Import Prelude.
From S2P Require Import GoStrings.
From S2P Require Import GoNumeric.

Local Open Scope Z_scope.

(** ** [strconv.ParseUint(s, 10, 64)] *)
Definition digit_value (c : ascii) : option Z :=
  let b := byte_of c in if (48 <=? b) && (b <=? 57) then Some (b - 48) else None.
Fixpoint parse_digits (acc : Z) (s : string) : option Z :=
  match s with
  | EmptyString => Some acc
  | String c s => d ← digit_value c; parse_digits (10 * acc + d) s
  end.
Definition ParseUint (s : string) : result Z :=
  match s with
  | EmptyString => Err (ErrText "invalid syntax")
  | _ => match parse_digits 0 s with
         | None => Err (ErrText "invalid syntax")
         | Some n => if n <=? max_u64 then Ok n else Err (ErrText "value out of range")
         end
  end.
(** [strconv.FormatUint(n, 10)] *)
Definition FormatUint (n : Z) : string := Sprint_d n.

Lemma digit_value_pretty d : (d < 10)%N → digit_value (pretty_N_char d) = Some (Z.of_N d).
Proof.
  intros Hd. assert (d = 0 ∨ d = 1 ∨ d = 2 ∨ d = 3 ∨ d = 4 ∨ d = 5 ∨ d = 6 ∨ d = 7 ∨ d = 8 ∨ d = 9)%N by lia.
  naive_solver.
Qed.

Lemma parse_pretty_go n : ∀ s, parse_digits 0 (pretty_N_go n s) = parse_digits (Z.of_N n) s.
Proof.
  induction (N.lt_wf_0 n) as [n _ IH]. intros s. destruct (decide (n = 0)%N) as [->|Hn]; [by rewrite pretty_N_go_0|].
  rewrite pretty_N_go_step by lia. rewrite IH by (apply N.div_lt; lia). cbn [parse_digits].
  rewrite digit_value_pretty by (apply N.mod_lt; lia). cbn [mbind option_bind]. f_equal.
  pose proof (N.div_mod n 10 ltac:(lia)). lia.
Qed.

Lemma pretty_go_filled n s : (0 < n)%N → pretty_N_go n s ≠ EmptyString.
Proof.
  revert s. induction (N.lt_wf_0 n) as [n _ IH]. intros s Hn. rewrite pretty_N_go_step by done.
  destruct (decide (n `div` 10 = 0)%N) as [->|Hd]; [by rewrite pretty_N_go_0|]. apply IH; [apply N.div_lt; lia|]. by apply N.neq_0_lt_0.
Qed.

Lemma ParseUint_FormatUint n : is_u64 n → ParseUint (FormatUint n) = Ok n.
Proof.
  intros [H0 H1]. unfold FormatUint, Sprint_d. destruct n as [|p|p]; [reflexivity| |lia].
  change (pretty (Z.pos p)) with (pretty_N_go (N.pos p) "").
  pose proof (pretty_go_filled (N.pos p) "" ltac:(lia)) as Hne. pose proof (parse_pretty_go (N.pos p) "") as Hp.
  unfold ParseUint. destruct (pretty_N_go (N.pos p) "") as [|c s]; [done|]. rewrite Hp. cbn [parse_digits Z.of_N].
  destruct (Z.leb_spec (Z.pos p) max_u64); [done | unfold max_u64 in *; lia].
Qed.

(** ** Prefixes *)
(** [strings.TrimPrefix] *)
Definition TrimPrefix (s prefix : string) : string :=
  if HasPrefix s prefix then drop_bytes (String.length prefix) s else s.

Lemma TrimPrefix_append p s : TrimPrefix (p +:+ s) p = s.
Proof. unfold TrimPrefix. by rewrite HasPrefix_append, drop_bytes_append. Qed.

(** ** [strings.EqualFold]

    Two runes fold to each other when they lie in one orbit of simple case folding.  The
    lower-case letter represents an orbit, except where two of its members are lower-case
    letters, or the upper-case one folds to nothing else. *)
Definition folded_lower : list (Z * Z) :=
  [(0xB5, 0x3BC); (0x130, 0x130); (0x17F, 0x73); (0x345, 0x3B9); (0x3C2, 0x3C3); (0x3D0, 0x3B2); (0x3D1, 0x3B8); (0x3D5, 0x3C6);
   (0x3D6, 0x3C0); (0x3F0, 0x3BA); (0x3F1, 0x3C1); (0x3F5, 0x3B5); (0x1C80, 0x432); (0x1C81, 0x434); (0x1C82, 0x43E);
   (0x1C83, 0x441); (0x1C84, 0x442); (0x1C85, 0x442); (0x1C86, 0x44A); (0x1C87, 0x463); (0x1C88, 0xA64B); (0x1E9B, 0x1E61);
   (0x1FBE, 0x3B9)].
Definition fold_rune (r : Z) : Z :=
  match find (λ p, p.1 =? r) folded_lower with Some (_, r') => r' | None => lower_rune r end.
Definition EqualFold (s t : string) : bool :=
  bool_decide (map (λ rw, fold_rune rw.1) (runes s) = map (λ rw, fold_rune rw.1) (runes t)).

Example EqualFold_examples :
  (EqualFold "Session" "session", EqualFold "sessions" "session", EqualFold "STRASSE" "straße", EqualFold "ΣΑΣ" "σας") =
  (true, false, false, true).
Proof. vm_compute. reflexivity. Qed.

(** ** [strconv.Atoi] *)
Definition Atoi (s : string) : result Z :=
  let digits neg s :=
    match s with
    | EmptyString => Err (ErrText "invalid syntax")
    | _ => match parse_digits 0 s with
           | None => Err (ErrText "invalid syntax")
           | Some n => let n := if neg : bool then - n else n in
                       if (min_i64 <=? n) && (n <=? max_i64) then Ok n else Err (ErrText "value out of range")
           end
    end in
  match s with
  | String "-" s => digits true s
  | String "+" s => digits false s
  | s => digits false s
  end.

Example Atoi_examples : (Atoi "12", Atoi "-3", is_ok (Atoi "+"), is_ok (Atoi "9223372036854775808")) = (Ok 12, Ok (-3), false, false).
Proof. vm_compute. reflexivity. Qed.

(** ** Text in JSON: a byte that is not UTF-8 is written as U+FFFD. *)
Definition json_text (s : string) : string := foldr (λ rw acc, encode_rune rw.1 +:+ acc) "" (runes s).

(** ** [sort.Strings] and [sort.SearchStrings] *)
Definition sort_Strings (l : list string) : list string := SliceStable string_ltb l.
(** The first index whose element is not below [x], in a sorted slice. *)
Fixpoint SearchStrings (l : list string) (x : string) : nat :=
  match l with
  | [] => 0
  | y :: l => if string_ltb y x then S (SearchStrings l x) else 0
  end.

Lemma sort_Strings_perm l : sort_Strings l ≡ₚ l.
Proof. apply SliceStable_perm. Qed.
Lemma sort_Strings_sorted l : StronglySorted (λ s t, string_leb s t = true) (sort_Strings l).
Proof.
  assert (Hlt : ∀ s t, string_ltb s t = false ↔ string_leb t s = true) by (intros s t; by rewrite string_ltb_leb, negb_false_iff).
  assert (Hs : StronglySorted (not_after string_ltb) (sort_Strings l)).
  { apply (SliceStable_sorted string_ltb (λ _, True)); [| |by apply Forall_true].
    - intros y z _ _ E. apply Hlt. destruct (string_leb_total y z) as [?|Hz]; [done|]. apply Hlt in Hz. congruence.
    - intros y z w _ _ _ E1 E2. apply Hlt in E1, E2. apply Hlt. by eapply string_leb_trans. }
  induction Hs as [|s t Hs IH Hall]; constructor; [done|]. eapply Forall_impl; [exact Hall|]. intros u Hu. by apply Hlt.
Qed.
