(* ===== verification/TurnCommand.v ===== *)
(** * TurnCommand: the transport-neutral turn contracts

    Models src/internal/apps/balda/attachment (descriptors and their
    normalisation), src/internal/apps/balda/deliverycmd/locator.go and the pure
    part of src/internal/apps/balda/turncmd/turn.go: the durable session-turn
    payload, the conversion of a normalised inbound message into it, the
    steering-batch text and the private-run session identity. *)

From Stdlib Require Import ZArith Lia Ascii String.
From stdpp Require Import base numbers list strings.
From S2P Require Import Prelude.
From S2P Require Import GoStrings.
From S2P Require Import Sha256.

Local Open Scope string_scope.
Local Open Scope list_scope.
Local Open Scope Z_scope.

(** ** attachment *)
Definition KindPhoto : string := "photo".
Definition KindDocument : string := "document".
Definition KindVoice : string := "voice".

Record BlobRef := mkBlobRef {
  blob_Store : string; blob_Key : string; blob_Path : string; blob_URL : string;
  blob_SHA256 : string }.

Record Descriptor := mkDescriptor {
  att_Kind : string; att_FileID : string; att_FileUniqueID : string; att_FileName : string;
  att_MIMEType : string; att_SizeBytes : Z; att_Caption : string; att_Blob : option BlobRef }.

#[export] Instance BlobRef_eq_dec : EqDecision BlobRef.
Proof. solve_decision. Defined.
#[export] Instance Descriptor_eq_dec : EqDecision Descriptor.
Proof. solve_decision. Defined.

Definition trim_blob (b : BlobRef) : option BlobRef :=
  let blob := mkBlobRef (TrimSpace (blob_Store b)) (TrimSpace (blob_Key b))
    (TrimSpace (blob_Path b)) (TrimSpace (blob_URL b)) (TrimSpace (blob_SHA256 b)) in
  if bool_decide (blob_Store blob = "") && bool_decide (blob_Key blob = "") &&
     bool_decide (blob_Path blob = "") && bool_decide (blob_URL blob = "") &&
     bool_decide (blob_SHA256 blob = "")
  then None else Some blob.

(** [attachment.Normalize]: [None] stands for the [false] result. *)
Definition Normalize (in_ : Descriptor) : option Descriptor :=
  let kind := ToLower (TrimSpace (att_Kind in_)) in
  let fileID := TrimSpace (att_FileID in_) in
  let blob := att_Blob in_ ≫= trim_blob in
  if negb (bool_decide (kind = KindPhoto) || bool_decide (kind = KindDocument) ||
           bool_decide (kind = KindVoice)) then None
  else if bool_decide (fileID = "") && bool_decide (blob = None) then None
  else Some (mkDescriptor kind fileID (TrimSpace (att_FileUniqueID in_))
    (TrimSpace (att_FileName in_)) (TrimSpace (att_MIMEType in_))
    (if att_SizeBytes in_ <? 0 then 0 else att_SizeBytes in_)
    (TrimSpace (att_Caption in_)) blob).

(** [attachment.NormalizeList]; a nil slice and an empty one are both [[]]. *)
Definition NormalizeList (in_ : list Descriptor) : list Descriptor := omap Normalize in_.

(** ** deliverycmd.Locator *)
Record Locator := mkLocator {
  loc_ChannelType : string; loc_AddressKey : string; loc_AddressJSON : string;
  loc_SessionID : string }.

#[export] Instance Locator_eq_dec : EqDecision Locator.
Proof. solve_decision. Defined.

Definition NewLocator (channelType addressKey addressJSON sessionID : string) : result Locator :=
  let locator := mkLocator (TrimSpace channelType) (TrimSpace addressKey)
    (TrimSpace addressJSON) (TrimSpace sessionID) in
  _ ← reject_if (bool_decide (loc_ChannelType locator = "")) (ErrText "channel_type is required");
  _ ← reject_if (bool_decide (loc_AddressKey locator = "")) (ErrText "address_key is required");
  _ ← reject_if (bool_decide (loc_AddressJSON locator = "")) (ErrText "address_json is required");
  _ ← reject_if (bool_decide (loc_SessionID locator = "")) (ErrText "session_id is required");
  Ok locator.

(** The first non-empty string of a list, or the empty string. *)
Definition first_filled (candidates : list string) : string :=
  default "" (List.find (λ c, negb (bool_decide (c = ""))) candidates).

Definition DeliveryActorKey (locator : Locator) : string :=
  let channelType := ToLower (TrimSpace (loc_ChannelType locator)) in
  let addressKey := TrimSpace (loc_AddressKey locator) in
  if negb (bool_decide (channelType = "")) && negb (bool_decide (addressKey = ""))
  then channelType +:+ ":" +:+ addressKey
  else first_filled [addressKey; TrimSpace (loc_SessionID locator); channelType; "telegram"].

(** ** turncmd *)
Definition SourceTelegram : string := "telegram".
Definition SourceWebhook : string := "webhook".
Definition SourceSchedule : string := "schedule".

Record SessionTurnMetadata := mkMetadata { LatestMemoryAt : string }.

(** [SessionTurnMetadata.IsZero]; a nil pointer is [None]. *)
Definition Metadata_IsZero (m : option SessionTurnMetadata) : bool :=
  match m with
  | None => true
  | Some m => bool_decide (TrimSpace (LatestMemoryAt m) = "")
  end.

Record SteeringMessage := mkSteeringMessage {
  sm_Attachments : list Descriptor; sm_ArchiveID : string; sm_DedupeKey : string;
  sm_MessageID : Z; sm_ReplyToMessageID : Z; sm_UserID : string; sm_ReceivedAt : string;
  sm_Text : string }.

Record ProgressPolicy := mkProgressPolicy {
  pp_Typing : bool; pp_Thinking : bool; pp_PlanUpdates : bool }.

(** [sessioncmd.Activation] with its runtime summary, and
    [runtimecatalogcmd.SkillSelection]: carried by the payload. *)
Record RuntimeSummary := mkRuntimeSummary {
  rs_ProviderID : string; rs_ProviderType : string; rs_ReasoningEffort : string;
  rs_MCPServers : list string; rs_EffectiveModel : string }.

Record Activation := mkActivation {
  act_Kind : string; act_SessionID : string; act_Label : string;
  act_Runtime : RuntimeSummary; act_Warnings : list string }.

Record SkillSelection := mkSkillSelection {
  skill_Snapshot : string; skill_SourceKind : string; skill_SourceName : string;
  skill_Revision : string; skill_Name : string }.

#[export] Instance RuntimeSummary_eq_dec : EqDecision RuntimeSummary.
Proof. solve_decision. Defined.
#[export] Instance Activation_eq_dec : EqDecision Activation.
Proof. solve_decision. Defined.
#[export] Instance SkillSelection_eq_dec : EqDecision SkillSelection.
Proof. solve_decision. Defined.

Record SessionTurnPayload := mkPayload {
  st_ArchiveID : string;
  st_Activation : option Activation;
  st_JobID : string;
  st_Text : string;
  st_Attachments : list Descriptor;
  st_Locator : Locator;
  st_ReportTo : option Locator;
  st_ParentJobID : string;
  st_UserID : string;
  st_RequesterUserID : string;
  st_AgentSessionID : string;
  st_ScheduledJobID : string;
  st_ScheduleOneShot : option bool;
  st_MessageID : Z;
  st_ReplyToMessageID : Z;
  st_ReceivedAt : string;
  st_SteeringMessages : list SteeringMessage;
  st_TopicID : Z;
  st_DeliveryFormat : string;
  st_ProgressPolicy : ProgressPolicy;
  st_Deliver : bool;
  st_Source : string;
  st_DedupeKey : string;
  st_QuestionID : string;
  st_Metadata : option SessionTurnMetadata;
  st_Skill : option SkillSelection }.

#[export] Instance Metadata_eq_dec : EqDecision SessionTurnMetadata.
Proof. solve_decision. Defined.
#[export] Instance SteeringMessage_eq_dec : EqDecision SteeringMessage.
Proof. solve_decision. Defined.
#[export] Instance ProgressPolicy_eq_dec : EqDecision ProgressPolicy.
Proof. solve_decision. Defined.
#[export] Instance SessionTurnPayload_eq_dec : EqDecision SessionTurnPayload.
Proof. solve_decision. Defined.

(** The zero value of the payload. *)
Definition zero_payload : SessionTurnPayload :=
  mkPayload "" None "" "" [] (mkLocator "" "" "" "") None "" "" "" "" "" None 0 0 "" [] 0 ""
    (mkProgressPolicy false false false) false "" "" "" None None.

(** The archive's copy of the original input is not read by [SessionTurn]. *)
Record NormalizedInbound := mkInbound {
  in_ID : string; in_Text : string; in_Attachments : list Descriptor; in_Locator : Locator;
  in_ProviderMessageID : string; in_UserID : string; in_MessageID : Z;
  in_ReplyToMessageID : Z; in_TopicID : Z; in_ReceivedAt : string; in_DeliveryFormat : string;
  in_ProgressPolicy : ProgressPolicy; in_Direct : bool; in_Source : string }.

Definition NormalizeDeliveryFormat (format : string) : string := ToLower (TrimSpace format).

Definition SessionTurn (m : NormalizedInbound) : result SessionTurnPayload :=
  let id := TrimSpace (in_ID m) in
  _ ← reject_if (bool_decide (id = "")) (ErrText "inbound id is required");
  _ ← reject_if (bool_decide (TrimSpace (loc_SessionID (in_Locator m)) = ""))
        (ErrText "session id is required");
  _ ← reject_if (bool_decide (TrimSpace (loc_ChannelType (in_Locator m)) = ""))
        (ErrText "channel type is required");
  _ ← reject_if (bool_decide (TrimSpace (in_Source m) = "")) (ErrText "inbound source is required");
  Ok (mkPayload "" None "" (in_Text m) (NormalizeList (in_Attachments m)) (in_Locator m) None ""
    (TrimSpace (in_UserID m)) "" "" "" None (in_MessageID m) (in_ReplyToMessageID m)
    (TrimSpace (in_ReceivedAt m)) [] (in_TopicID m)
    (NormalizeDeliveryFormat (in_DeliveryFormat m)) (in_ProgressPolicy m) true
    (TrimSpace (in_Source m)) id "" None None).

Definition firstNonEmpty (values : list string) : string :=
  first_filled (map TrimSpace values).

(** [ScheduledExecutionSessionID]: the first sixteen digest bytes in hex. *)
Definition ScheduledExecutionSessionID (jobID : string) : string :=
  "sch-" +:+ hex_encode (take_bytes 16 (Sum256 (TrimSpace jobID))).

Definition is_private_digit (c : ascii) : bool :=
  let b := byte_of c in
  if (b <? 48) || (57 <? b) then negb ((b <? 97) || (102 <? b)) else true.

(** [IsPrivateRun].  The source ranges over runes; every rune outside the two
    digit ranges is refused, and so is every byte of a multi-byte rune. *)
Definition IsPrivateRun (source sessionID : string) : bool :=
  let run prefix :=
    (len sessionID =? len prefix + 32) && HasPrefix sessionID prefix &&
    forallb is_private_digit
      (list_ascii_of_string (drop_bytes (String.length prefix) sessionID)) in
  if bool_decide (source = SourceSchedule) then run "sch-"
  else if bool_decide (source = SourceWebhook) then run "wh-"
  else false.

Definition steering_line (msg : SteeringMessage) : string :=
  let ts := TrimSpace (sm_ReceivedAt msg) in
  let ts := if bool_decide (ts = "") then "unknown_time" else ts in
  "- [" +:+ ts +:+ "] " +:+ TrimSpace (sm_Text msg).

Fixpoint steering_lines (first : bool) (messages : list SteeringMessage) : string :=
  match messages with
  | [] => ""
  | msg :: rest =>
      (if first then "" else String LF "") +:+ steering_line msg +:+ steering_lines false rest
  end.

Definition RenderSteeringBatchText (messages : list SteeringMessage) : string :=
  match messages with
  | [] => ""
  | _ => "Steering messages:" +:+ String LF "" +:+ steering_lines true messages
  end.

(** ** Facts *)
Lemma Normalize_size d d' : Normalize d = Some d' → 0 ≤ att_SizeBytes d'.
Proof.
  unfold Normalize. repeat case_match; try done; intros [= <-]; cbn; lia.
Qed.

Lemma hex_lower_private c : is_lower_hex c = true → is_private_digit c = true.
Proof.
  unfold is_lower_hex, is_private_digit. intros H.
  destruct ((byte_of c <? 48) || (57 <? byte_of c)) eqn:E; [lia | done].
Qed.

Lemma length_take_bytes n s :
  String.length (take_bytes n s) = Nat.min n (String.length s).
Proof. revert s. induction n as [|n IH]; intros [|c s]; simpl; auto. Qed.

Lemma length_drop_bytes n s :
  String.length (drop_bytes n s) = (String.length s - n)%nat.
Proof. revert s. induction n as [|n IH]; intros [|c s]; simpl; auto. Qed.

Lemma take_drop_bytes n s : take_bytes n s +:+ drop_bytes n s = s.
Proof.
  revert s. induction n as [|n IH]; intros [|c s]; simpl; try done. by rewrite append_cons, IH.
Qed.

(** A scheduled execution session is always recognised as a private schedule
    run, whatever the job identifier. *)
Lemma scheduled_session_is_private jobID :
  IsPrivateRun SourceSchedule (ScheduledExecutionSessionID jobID) = true.
Proof.
  unfold IsPrivateRun, ScheduledExecutionSessionID. rewrite bool_decide_eq_true_2 by done.
  set (h := hex_encode _).
  assert (Hl : String.length h = 32%nat).
  { unfold h. by rewrite length_hex_encode, length_take_bytes, length_Sum256. }
  apply andb_true_iff; split; [apply andb_true_iff; split|].
  - rewrite len_append. unfold len. rewrite Hl. done.
  - done.
  - change (drop_bytes _ _) with h. pose proof (hex_encode_lower _ : forallb is_lower_hex (list_ascii_of_string h) = true) as Hh.
    rewrite forallb_forall in Hh |- *. eauto using hex_lower_private.
Qed.
