(* ===== verification/TurnDispatcher.v ===== *)
(** * TurnDispatcher: the per-session turn queue

    Models src/internal/apps/balda/actors/turn_dispatcher.go with the task types
    of src/internal/apps/balda/appports/turns.go.  A [lane] is one
    [sessionTurnQueue] with its worker goroutine: the queue fields, the heap of
    [queuedTurn] objects the queue's pointers refer to (a pointer is a number,
    allocated in admission order), the worker's program point and the log of
    values sent on result channels.  Every critical section of the dispatcher's
    mutex is one function; [lane_step] and [step] interleave them freely. *)

From Stdlib Require Import ZArith Lia Ascii String.
From stdpp Require Import base numbers list gmap strings.
From S2P Require Import Prelude.
From S2P Require Import GoStrings.
From S2P Require Import TurnCommand.

Local Open Scope string_scope.
Local Open Scope list_scope.
Local Open Scope Z_scope.

Definition perSessionQueueLimit : Z := 20.
Definition terminalReplacementLimit : Z := 32.

Definition ErrTurnQueueFull : error := ErrSentinel "turn queue is full".
Definition ErrTurnReplacementPending : error := ErrSentinel "session replacement is pending".
Definition ErrTurnReplacementConflict : error :=
  ErrSentinel "session replacement conflicts with prior input".
Definition ErrTurnReplacementFailed : error := ErrSentinel "session replacement failed".

(** ** Tasks.  A callback is present or nil; what it returns is chosen by the
    environment when the worker runs it. *)
Record TurnTask := mkTask {
  tk_SessionID : string; tk_Run : bool; tk_SessionTurn : option SessionTurnPayload }.

Record ReplacementTask := mkReplacement {
  rt_SessionID : string; rt_OperationID : string; rt_InputHash : string; rt_Run : bool }.

#[export] Instance ReplacementTask_eq_dec : EqDecision ReplacementTask.
Proof. solve_decision. Defined.

(** The result of a callback: it returns an error value (nil is [None]) or panics. *)
Inductive outcome := Returned (err : option error) | Panicked.

Definition context_Background : nat := 0%nat.

(** ** Queue objects *)
Record queuedTurn := mkTurn {
  t_ctx : nat;
  t_turn : option SessionTurnPayload;
  t_result : bool;                      (* the result channel is not nil *)
  t_constituents : list nat;
  t_replacement : option ReplacementTask }.

Record replacementResult := mkReplacementResult {
  rr_inputHash : string; rr_err : option error }.

Record sessionTurnQueue := mkQueue {
  pending : list nat;
  running : bool;
  runningTurn : option nat;
  startedAt : Z;
  inFlightCancel : bool;                (* the cancel function is not nil *)
  wakeCh : bool;                        (* the one-slot channel holds a signal *)
  replacement : option nat;
  terminalReplacements : gmap string replacementResult;
  terminalOrder : list string }.

(** Program points of [sessionWorker]: about to take the lock in [nextTask], in
    its [select], before the check of the run context (its parent context and
    whether its own cancel function was called), inside the callback, between
    unlocking and [completeTurn], returned. *)
Inductive phase :=
  | Checking
  | Waiting
  | Starting (t : nat) (parent : nat) (cancelled : bool)
  | Running (t : nat) (parent : nat) (cancelled : bool)
  | Completing (t : nat) (err : option error)
  | Exited.

#[export] Instance phase_eq_dec : EqDecision phase.
Proof. solve_decision. Defined.

Record lane := mkLane {
  l_queue : sessionTurnQueue;
  l_turns : gmap nat queuedTurn;
  l_next : nat;
  l_results : list (nat * option error);
  l_phase : phase }.

(** A channel returned to the caller: a turn's own channel, or the closed
    channel of [completedTurnResult]. *)
Inductive channel := ChTurn (t : nat) | ChDone (err : option error).

(** ** Field updates *)
Definition set_pending (p : list nat) (q : sessionTurnQueue) : sessionTurnQueue :=
  mkQueue p (running q) (runningTurn q) (startedAt q) (inFlightCancel q) (wakeCh q)
    (replacement q) (terminalReplacements q) (terminalOrder q).
Definition set_wake (w : bool) (q : sessionTurnQueue) : sessionTurnQueue :=
  mkQueue (pending q) (running q) (runningTurn q) (startedAt q) (inFlightCancel q) w
    (replacement q) (terminalReplacements q) (terminalOrder q).
Definition set_replacement (r : option nat) (q : sessionTurnQueue) : sessionTurnQueue :=
  mkQueue (pending q) (running q) (runningTurn q) (startedAt q) (inFlightCancel q) (wakeCh q)
    r (terminalReplacements q) (terminalOrder q).
Definition set_terminal (m : gmap string replacementResult) (o : list string)
    (q : sessionTurnQueue) : sessionTurnQueue :=
  mkQueue (pending q) (running q) (runningTurn q) (startedAt q) (inFlightCancel q) (wakeCh q)
    (replacement q) m o.
Definition set_running (r : bool) (t : option nat) (at_ : Z) (c : bool)
    (q : sessionTurnQueue) : sessionTurnQueue :=
  mkQueue (pending q) r t at_ c (wakeCh q) (replacement q) (terminalReplacements q)
    (terminalOrder q).

Definition with_queue (f : sessionTurnQueue → sessionTurnQueue) (l : lane) : lane :=
  mkLane (f (l_queue l)) (l_turns l) (l_next l) (l_results l) (l_phase l).
Definition with_phase (p : phase) (l : lane) : lane :=
  mkLane (l_queue l) (l_turns l) (l_next l) (l_results l) p.
Definition with_turns (m : gmap nat queuedTurn) (l : lane) : lane :=
  mkLane (l_queue l) m (l_next l) (l_results l) (l_phase l).

Definition set_turn (t : nat) (turn : queuedTurn) (l : lane) : lane :=
  with_turns (<[t := turn]> (l_turns l)) l.

(** Allocate a [queuedTurn] object. *)
Definition alloc (turn : queuedTurn) (l : lane) : lane * nat :=
  (mkLane (l_queue l) (<[l_next l := turn]> (l_turns l)) (S (l_next l)) (l_results l) (l_phase l),
   l_next l).

Definition add_constituent (c : nat) (turn : queuedTurn) : queuedTurn :=
  mkTurn (t_ctx turn) (t_turn turn) (t_result turn) (t_constituents turn ++ [c])
    (t_replacement turn).
Definition set_payload (p : option SessionTurnPayload) (turn : queuedTurn) : queuedTurn :=
  mkTurn (t_ctx turn) p (t_result turn) (t_constituents turn) (t_replacement turn).
Definition set_ctx (c : nat) (turn : queuedTurn) : queuedTurn :=
  mkTurn c (t_turn turn) (t_result turn) (t_constituents turn) (t_replacement turn).
Definition close_result (turn : queuedTurn) : queuedTurn :=
  mkTurn (t_ctx turn) (t_turn turn) false (t_constituents turn) (t_replacement turn).
Definition clear_constituents (turn : queuedTurn) : queuedTurn :=
  mkTurn (t_ctx turn) (t_turn turn) (t_result turn) [] (t_replacement turn).

Definition newQueue : sessionTurnQueue :=
  mkQueue [] false None 0 false false None ∅ [].
Definition newLane : lane := mkLane newQueue ∅ 0 [] Checking.

(** ** Deduplication and steering *)
Definition turnDedupeKey (payload : option SessionTurnPayload) : string :=
  match payload with
  | None => ""
  | Some p =>
      let key := TrimSpace (st_DedupeKey p) in
      if negb (bool_decide (key = "")) then key
      else if 0 <? st_MessageID p then "msg:" +:+ Sprint_d (st_MessageID p)
      else ""
  end.

(** The dedupe key of the object a pointer refers to. *)
Definition key_of (l : lane) (t : nat) : string :=
  match l_turns l !! t with None => "" | Some turn => turnDedupeKey (t_turn turn) end.

Definition batchContainsConstituent (l : lane) (batch : nat) (dedupeKey : string) : bool :=
  match l_turns l !! batch with
  | None => false
  | Some turn =>
      negb (bool_decide (dedupeKey = "")) &&
      (bool_decide (turnDedupeKey (t_turn turn) = dedupeKey) ||
       existsb (λ c, bool_decide (key_of l c = dedupeKey)) (t_constituents turn))
  end.

Definition isSteeringCandidate (payload : SessionTurnPayload) : bool :=
  (0 <? st_MessageID payload) && (0 <? st_ReplyToMessageID payload) &&
  negb (bool_decide (TrimSpace (st_RequesterUserID payload) = "")).

(** [slices.Contains] on message identifiers. *)
Definition contains_id (ids : list Z) (id : Z) : bool := existsb (Z.eqb id) ids.

Definition steeringAnchorMessageIDs (payload : SessionTurnPayload) : list Z :=
  let ids := if 0 <? st_MessageID payload then [st_MessageID payload] else [] in
  fold_left (λ ids msg,
    if (0 <? sm_MessageID msg) && negb (contains_id ids (sm_MessageID msg))
    then ids ++ [sm_MessageID msg] else ids) (st_SteeringMessages payload) ids.

Definition matchesRunningSteering (runningPayload : option SessionTurnPayload)
    (incoming : SessionTurnPayload) : bool :=
  match runningPayload with
  | None => false
  | Some r =>
      negb (bool_decide (TrimSpace (st_RequesterUserID r) = "")) &&
      negb (bool_decide (TrimSpace (st_RequesterUserID incoming) = "")) &&
      bool_decide (st_ArchiveID r = st_ArchiveID incoming) &&
      bool_decide (TrimSpace (st_RequesterUserID r) = TrimSpace (st_RequesterUserID incoming)) &&
      contains_id (steeringAnchorMessageIDs r) (st_ReplyToMessageID incoming)
  end.

Definition steeringMessageFromPayload (p : SessionTurnPayload) : SteeringMessage :=
  mkSteeringMessage (st_Attachments p) (st_ArchiveID p) (st_DedupeKey p) (st_MessageID p)
    (st_ReplyToMessageID p) (TrimSpace (st_RequesterUserID p)) (TrimSpace (st_ReceivedAt p))
    (TrimSpace (st_Text p)).

Definition reconcileSessionTurnMetadata (current incoming : option SessionTurnMetadata) :
    option SessionTurnMetadata :=
  match current, incoming with
  | Some c, Some i =>
      let currentMemoryAt := TrimSpace (LatestMemoryAt c) in
      let incomingMemoryAt := TrimSpace (LatestMemoryAt i) in
      if bool_decide (currentMemoryAt = "") || negb (bool_decide (currentMemoryAt = incomingMemoryAt))
      then None else Some c
  | _, _ => None
  end.

(** The payload with its text, attachments, anchors, metadata, receipt time and
    steering messages replaced; the other fields stay. *)
Definition set_steering (text : string) (atts : list Descriptor) (msg reply : Z)
    (received : string) (msgs : list SteeringMessage) (meta : option SessionTurnMetadata)
    (p : SessionTurnPayload) : SessionTurnPayload :=
  mkPayload (st_ArchiveID p) (st_Activation p) (st_JobID p) text atts (st_Locator p)
    (st_ReportTo p) (st_ParentJobID p) (st_UserID p) (st_RequesterUserID p)
    (st_AgentSessionID p) (st_ScheduledJobID p) (st_ScheduleOneShot p) msg reply received msgs
    (st_TopicID p) (st_DeliveryFormat p) (st_ProgressPolicy p) (st_Deliver p) (st_Source p)
    (st_DedupeKey p) (st_QuestionID p) meta (st_Skill p).

Definition initializeSteeringBatch (p : SessionTurnPayload) : SessionTurnPayload :=
  let msgs := [steeringMessageFromPayload p] in
  set_steering (RenderSteeringBatchText msgs) (st_Attachments p) (st_MessageID p)
    (st_ReplyToMessageID p) (st_ReceivedAt p) msgs (st_Metadata p) p.

(** The batch payload after a new steering message joined it. *)
Definition extend_batch (batch incoming : SessionTurnPayload) : SessionTurnPayload :=
  let msgs := (st_SteeringMessages batch ++ [steeringMessageFromPayload incoming])%list in
  set_steering (RenderSteeringBatchText msgs)
    (st_Attachments batch ++ st_Attachments incoming)%list
    (st_MessageID incoming) (st_ReplyToMessageID incoming)
    (if bool_decide (TrimSpace (st_ReceivedAt incoming) = "") then st_ReceivedAt batch
     else st_ReceivedAt incoming)
    msgs (reconcileSessionTurnMetadata (st_Metadata batch) (st_Metadata incoming)) batch.

(** [mergeIntoSteeringBatch turn incoming]: [ctxErr] gives a context's [Err()].
    [None] is the [false] result, which leaves the objects alone. *)
Definition mergeIntoSteeringBatch (ctxErr : nat → option error) (l : lane) (turn incoming : nat) :
    option lane :=
  t ← l_turns l !! turn;
  i ← l_turns l !! incoming;
  batch ← t_turn t;
  inc ← t_turn i;
  if negb (bool_decide (st_ArchiveID batch = st_ArchiveID inc)) ||
     negb (bool_decide (TrimSpace (st_RequesterUserID batch) = TrimSpace (st_RequesterUserID inc)))
  then None else
  let incKey := turnDedupeKey (Some inc) in
  let isDuplicate :=
    negb (bool_decide (incKey = "")) && batchContainsConstituent l turn incKey in
  let matchesAnchor := contains_id (steeringAnchorMessageIDs batch) (st_ReplyToMessageID inc) in
  let matchesSameReply := (0 <? st_ReplyToMessageID batch) &&
    (st_ReplyToMessageID batch =? st_ReplyToMessageID inc) in
  if negb isDuplicate && negb matchesAnchor && negb matchesSameReply then None else
  let t := add_constituent incoming t in
  let t := match ctxErr (t_ctx t), ctxErr (t_ctx i) with
           | Some _, None => set_ctx (t_ctx i) t
           | _, _ => t
           end in
  let t := if isDuplicate then t else set_payload (Some (extend_batch batch inc)) t in
  Some (set_turn turn t l).

(** Try the pending batches from the newest to the oldest. *)
Fixpoint merge_scan (ctxErr : nat → option error) (l : lane) (batches : list nat) (incoming : nat) :
    option lane :=
  match batches with
  | [] => None
  | b :: batches =>
      match mergeIntoSteeringBatch ctxErr l b incoming with
      | Some l' => Some l'
      | None => merge_scan ctxErr l batches incoming
      end
  end.

(** [tryMergeSteeringTurn]: (merged, lane).  The incoming payload is rewritten
    in place when it starts a batch for the running turn. *)
Definition tryMergeSteeringTurn (ctxErr : nat → option error) (l : lane) (incoming : nat) :
    bool * lane :=
  match l_turns l !! incoming with
  | Some (mkTurn c (Some inc) r cs rep) =>
      if negb (isSteeringCandidate inc) then (false, l) else
      match merge_scan ctxErr l (rev (pending (l_queue l))) incoming with
      | Some l' => (true, l')
      | None =>
          let runningPayload :=
            t ← runningTurn (l_queue l); turn ← l_turns l !! t; t_turn turn in
          if negb (matchesRunningSteering runningPayload inc) then (false, l)
          else (false, set_turn incoming (mkTurn c (Some (initializeSteeringBatch inc)) r cs rep) l)
      end
  | _ => (false, l)
  end.

(** ** Admission *)
Fixpoint find_index (f : nat → bool) (i : nat) (l : list nat) : option (nat * nat) :=
  match l with
  | [] => None
  | x :: l => if f x then Some (i, x) else find_index f (S i) l
  end.

Definition attach (batch c : nat) (l : lane) : lane :=
  match l_turns l !! batch with
  | None => l
  | Some turn => set_turn batch (add_constituent c turn) l
  end.

(** The duplicate check of [Enqueue]: the running turn first, then the pending
    batches from the oldest; the position reported, and the lane with the turn
    attached. *)
Definition attach_duplicate (l : lane) (queued : nat) (incKey : string) : option (lane * Z) :=
  let q := l_queue l in
  let runningBatch :=
    r ← (if running q then runningTurn q else None);
    if batchContainsConstituent l r incKey then Some r else None in
  match runningBatch with
  | Some r => Some (attach r queued l, 0)
  | None =>
      match find_index (λ t, batchContainsConstituent l t incKey) 0 (pending q) with
      | Some (i, t) => Some (attach t queued l, Z.of_nat (if running q then S i else i))
      | None => None
      end
  end.

(** The critical section of [Enqueue] on the session's queue.  A refused turn
    object is garbage: the lane is returned as it was. *)
Definition lane_enqueue (ctxErr : nat → option error) (ctx : nat) (task : TurnTask) (l0 : lane) :
    lane * result (channel * Z) :=
  let '(l, queued) := alloc (mkTurn ctx (tk_SessionTurn task) true [] None) l0 in
  let q := l_queue l in
  let incKey := turnDedupeKey (tk_SessionTurn task) in
  match (if bool_decide (incKey = "") then None else attach_duplicate l queued incKey) with
  | Some (l, pos) => (l, Ok (ChTurn queued, pos))
  | None =>
      if bool_decide (replacement q ≠ None) then (l0, Err ErrTurnReplacementPending) else
      if perSessionQueueLimit <=? Zlength (pending q) then (l0, Err ErrTurnQueueFull) else
      let '(merged, l) := if running q then tryMergeSteeringTurn ctxErr l queued else (false, l) in
      if merged then (l, Ok (ChTurn queued, 1)) else
      let position :=
        if running q then Zlength (pending q) + 1
        else if 0 <? Zlength (pending q) then Zlength (pending q) else 0 in
      (with_queue (λ q, set_wake true (set_pending (pending q ++ [queued]) q)) l,
       Ok (ChTurn queued, position))
  end.

Definition queuePosition (q : sessionTurnQueue) (target : nat) : Z :=
  if bool_decide (runningTurn q = Some target) then 0 else
  match find_index (λ t, bool_decide (t = target)) 0 (pending q) with
  | Some (i, _) => Z.of_nat (if running q then S i else i)
  | None => 0
  end.

(** The operation identity of the pending or running replacement. *)
Definition replacement_task (l : lane) : option ReplacementTask :=
  r ← replacement (l_queue l); turn ← l_turns l !! r; t_replacement turn.

(** The critical section of [EnqueueReplacement]; [task] has its fields trimmed. *)
Definition lane_enqueue_replacement (ctx : nat) (task : ReplacementTask) (l : lane) :
    lane * result (channel * Z) :=
  let q := l_queue l in
  match terminalReplacements q !! rt_OperationID task with
  | Some terminal =>
      if bool_decide (rr_inputHash terminal = rt_InputHash task)
      then (l, Ok (ChDone (rr_err terminal), 0))
      else (l, Err ErrTurnReplacementConflict)
  | None =>
      match replacement q with
      | Some r =>
          let current := default task (replacement_task l) in
          if negb (bool_decide (rt_OperationID current = rt_OperationID task))
          then (l, Err ErrTurnReplacementPending) else
          if negb (bool_decide (rt_InputHash current = rt_InputHash task))
          then (l, Err ErrTurnReplacementConflict) else
          let '(l, duplicate) := alloc (mkTurn ctx None true [] None) l in
          (attach r duplicate l, Ok (ChTurn duplicate, queuePosition q r))
      | None =>
          if perSessionQueueLimit <=? Zlength (pending q) then (l, Err ErrTurnQueueFull) else
          let '(l, queued) := alloc (mkTurn ctx None true [] (Some task)) l in
          let position := if running q then Zlength (pending q) + 1 else Zlength (pending q) in
          (with_queue (λ q, set_wake true
             (set_replacement (Some queued) (set_pending (pending q ++ [queued]) q))) l,
           Ok (ChTurn queued, position))
      end
  end.

(** ** Completion *)
Definition boundedReplacementError (err : option error) : option error :=
  match err with
  | None => None
  | Some e =>
      Some (if errors_Is e context_Canceled then context_Canceled
            else if errors_Is e context_DeadlineExceeded then context_DeadlineExceeded
            else if errors_Is e ErrTurnReplacementPending then ErrTurnReplacementPending
            else if errors_Is e ErrTurnReplacementConflict then ErrTurnReplacementConflict
            else ErrTurnReplacementFailed)
  end.

Definition replacementErrorClass (err : error) : string :=
  if errors_Is err context_DeadlineExceeded then "deadline_exceeded"
  else if errors_Is err ErrTurnReplacementConflict then "replacement_conflict"
  else if errors_Is err ErrTurnReplacementPending then "replacement_pending"
  else "replacement_failed".

(** What [turn.task.Run] returns: a replacement runs under [replacementRunner],
    which recovers panics and bounds the error.  A panic of an ordinary turn is
    not recovered and has no result. *)
Definition run_turn (turn : queuedTurn) (o : outcome) : option (option error) :=
  match t_replacement turn, o with
  | Some _, Panicked => Some (Some ErrTurnReplacementFailed)
  | Some _, Returned err => Some (boundedReplacementError err)
  | None, Returned err => Some err
  | None, Panicked => None
  end.

Definition rememberReplacementResult (operationID : string) (r : replacementResult)
    (q : sessionTurnQueue) : sessionTurnQueue :=
  let m := terminalReplacements q in
  let o := terminalOrder q in
  match m !! operationID with
  | Some _ => set_terminal (<[operationID := r]> m) o q
  | None =>
      let '(m, o) :=
        match o with
        | oldest :: rest =>
            if Zlength o =? terminalReplacementLimit then (delete oldest m, rest) else (m, o)
        | [] => (m, o)
        end in
      set_terminal (<[operationID := r]> m) (o ++ [operationID]) q
  end.

Definition finishReplacement (t : nat) (err : option error) (l : lane) : lane :=
  match l_turns l !! t with
  | Some turn =>
      match t_replacement turn with
      | Some task =>
          if bool_decide (replacement (l_queue l) = Some t) then
            with_queue (λ q, set_replacement None
              (rememberReplacementResult (rt_OperationID task)
                (mkReplacementResult (rt_InputHash task) (boundedReplacementError err)) q)) l
          else l
      | None => l
      end
  | None => l
  end.

(** Send on a result channel, close it and set the field to nil. *)
Definition send_result (err : option error) (l : lane) (t : nat) : lane :=
  match l_turns l !! t with
  | Some turn =>
      if t_result turn then
        mkLane (l_queue l) (<[t := close_result turn]> (l_turns l)) (l_next l)
          (l_results l ++ [(t, err)]) (l_phase l)
      else l
  | None => l
  end.

Definition constituents_of (l : lane) (t : nat) : list nat :=
  match l_turns l !! t with Some turn => t_constituents turn | None => [] end.

Definition completeTurn (err : option error) (l : lane) (t : nat) : lane :=
  let l := fold_left (send_result err) (t :: constituents_of l t) l in
  match l_turns l !! t with
  | Some turn => set_turn t (clear_constituents turn) l
  | None => l
  end.

Definition completeTurns (turns : list nat) (err : option error) (l : lane) : lane :=
  fold_left (completeTurn err) turns l.

(** Drop the pending turns: the common part of [CancelSession] and [Shutdown].
    The code answers the dropped turns after releasing the lock; nothing else
    refers to them by then. *)
Definition drop_pending (l : lane) : lane :=
  let dropped := pending (l_queue l) in
  let l := with_queue (set_pending []) l in
  let l := fold_left (λ l t, finishReplacement t (Some context_Canceled) l) dropped l in
  completeTurns dropped (Some context_Canceled) l.

(** Call the captured cancel function: the context of the current run is done. *)
Definition cancel_run (l : lane) : lane :=
  match l_phase l with
  | Starting t parent _ => with_phase (Starting t parent true) l
  | Running t parent _ => with_phase (Running t parent true) l
  | _ => l
  end.

Definition lane_cancel (clearQueued : bool) (l : lane) : lane * (bool * Z) :=
  let dropped := if clearQueued then Zlength (pending (l_queue l)) else 0 in
  let hadInFlight := inFlightCancel (l_queue l) in
  let l := if clearQueued then drop_pending l else l in
  let l := if hadInFlight then cancel_run l else l in
  (l, (hadInFlight, dropped)).

Definition lane_shutdown (l : lane) : lane :=
  drop_pending (if inFlightCancel (l_queue l) then cancel_run l else l).

(** ** The worker *)

(** The locked part of [nextTask] when a turn is pending or none is. *)
Definition lane_next (now : Z) (l : lane) : lane :=
  match pending (l_queue l) with
  | turn :: rest =>
      let ctx := match l_turns l !! turn with Some t => t_ctx t | None => context_Background end in
      with_phase (Starting turn ctx false)
        (with_queue (λ q, set_running true (Some turn) now true (set_pending rest q)) l)
  | [] => with_phase Waiting l
  end.

(** [runCtx.Err()] at the worker's check.  The caller of [CancelSession] calls the
    captured cancel function after it has released the lock: [landed] says
    whether that call came before the check. *)
Definition run_ctx_err (ctxErr : nat → option error) (parent : nat) (cancelled landed : bool) :
    option error :=
  if cancelled && landed then Some context_Canceled else ctxErr parent.

(** From the end of the callback to the unlock that follows it. *)
Definition lane_finish (turn : nat) (err : option error) (l : lane) : lane :=
  with_phase (Completing turn err)
    (finishReplacement turn err (with_queue (set_running false None 0 false) l)).

Definition lane_complete (turn : nat) (err : option error) (l : lane) : lane :=
  with_phase Checking (completeTurn err l turn).

(** The outcome recorded for a finished turn. *)
Definition OutcomeSucceeded : string := "succeeded".
Definition OutcomeCanceled : string := "canceled".
Definition OutcomeFailed : string := "failed".
Definition turn_outcome (err : option error) : string :=
  match err with
  | None => OutcomeSucceeded
  | Some e => if errors_Is e context_Canceled then OutcomeCanceled else OutcomeFailed
  end.

Definition isConversationTurn (payload : option SessionTurnPayload) : bool :=
  match payload with
  | None => false
  | Some p =>
      negb (bool_decide (TrimSpace (st_ArchiveID p) = "")) &&
      negb (bool_decide (st_Source p = SourceSchedule)) &&
      negb (bool_decide (st_Source p = SourceWebhook))
  end.

(** ** The dispatcher: sessions to queues, and every queue ever created with the
    session it was created for. *)
Record TurnDispatcher := mkDispatcher {
  sessions : gmap string nat;
  lanes : gmap nat (string * lane);
  next_lane : nat;
  stopping : bool }.

Definition NewTurnDispatcher : TurnDispatcher := mkDispatcher ∅ ∅ 0 false.

Definition set_lane (qp : nat) (sid : string) (l : lane) (d : TurnDispatcher) : TurnDispatcher :=
  mkDispatcher (sessions d) (<[qp := (sid, l)]> (lanes d)) (next_lane d) (stopping d).

Definition remove_session (sid : string) (d : TurnDispatcher) : TurnDispatcher :=
  mkDispatcher (delete sid (sessions d)) (lanes d) (next_lane d) (stopping d).

(** The session's queue, created with its worker when there is none. *)
Definition ensure_lane (sid : string) (d : TurnDispatcher) : TurnDispatcher * nat :=
  match sessions d !! sid with
  | Some qp => (d, qp)
  | None =>
      (mkDispatcher (<[sid := next_lane d]> (sessions d))
         (<[next_lane d := (sid, newLane)]> (lanes d)) (S (next_lane d)) (stopping d),
       next_lane d)
  end.

Definition lane_at (d : TurnDispatcher) (qp : nat) : lane :=
  match lanes d !! qp with Some (_, l) => l | None => newLane end.

(** The channel is named by its queue and turn. *)
Definition Enqueue (ctxErr : nat → option error) (ctx : option nat) (task : TurnTask)
    (d : TurnDispatcher) : TurnDispatcher * result (nat * channel * Z) :=
  let sid := TrimSpace (tk_SessionID task) in
  if bool_decide (sid = "") then (d, Err (ErrText "session id is required")) else
  if negb (tk_Run task) then (d, Err (ErrText "turn task runner is required")) else
  let ctx := default context_Background ctx in
  if stopping d then (d, Err (ErrText "turn dispatcher is stopping")) else
  let '(d, qp) := ensure_lane sid d in
  let '(l, r) := lane_enqueue ctxErr ctx task (lane_at d qp) in
  (set_lane qp sid l d, '(ch, pos) ← r; Ok (qp, ch, pos)).

Definition trim_replacement (task : ReplacementTask) : ReplacementTask :=
  mkReplacement (TrimSpace (rt_SessionID task)) (TrimSpace (rt_OperationID task))
    (TrimSpace (rt_InputHash task)) (rt_Run task).

Definition EnqueueReplacement (ctx : option nat) (task : ReplacementTask) (d : TurnDispatcher) :
    TurnDispatcher * result (nat * channel * Z) :=
  let task := trim_replacement task in
  let sid := rt_SessionID task in
  if bool_decide (sid = "") then (d, Err (ErrText "session id is required")) else
  if bool_decide (rt_OperationID task = "") then
    (d, Err (ErrText "replacement operation id is required")) else
  if bool_decide (rt_InputHash task = "") then
    (d, Err (ErrText "replacement input hash is required")) else
  if negb (rt_Run task) then (d, Err (ErrText "replacement runner is required")) else
  let ctx := default context_Background ctx in
  if stopping d then (d, Err (ErrText "turn dispatcher is stopping")) else
  let '(d, qp) := ensure_lane sid d in
  let '(l, r) := lane_enqueue_replacement ctx task (lane_at d qp) in
  (set_lane qp sid l d, '(ch, pos) ← r; Ok (qp, ch, pos)).

Definition CancelSession (sessionID : string) (clearQueued : bool) (d : TurnDispatcher) :
    TurnDispatcher * result (bool * Z) :=
  let sid := TrimSpace sessionID in
  if bool_decide (sid = "") then (d, Err (ErrText "session id is required")) else
  match sessions d !! sid with
  | None => (d, Ok (false, 0))
  | Some qp =>
      let '(l, r) := lane_cancel clearQueued (lane_at d qp) in
      (set_lane qp sid l d, Ok r)
  end.

(** [Shutdown] up to the wait for the workers: every session's queue is dropped. *)
Definition Shutdown (d : TurnDispatcher) : TurnDispatcher :=
  if stopping d then d else
  mkDispatcher (sessions d)
    (map_imap (λ qp '(sid, l),
       Some (sid, if bool_decide (sessions d !! sid = Some qp) then lane_shutdown l else l))
     (lanes d))
    (next_lane d) true.

Definition pendingUserTurns (l : lane) : Z :=
  Zlength (List.filter (λ t, match l_turns l !! t with
                             | Some turn => bool_decide (t_replacement turn = None)
                             | None => false
                             end) (pending (l_queue l))).

Record CurrentTurnInfo := mkCurrentTurn {
  ct_SessionID : string; ct_RequesterUserID : string; ct_Text : string; ct_StartedAt : Z;
  ct_PendingTurns : Z }.

Definition CurrentTurn (sessionID : string) (d : TurnDispatcher) : option CurrentTurnInfo :=
  let sid := TrimSpace sessionID in
  if bool_decide (sid = "") then None else
  qp ← sessions d !! sid;
  let l := lane_at d qp in
  let q := l_queue l in
  if negb (running q) then None else
  t ← runningTurn q;
  turn ← l_turns l !! t;
  payload ← t_turn turn;
  Some (mkCurrentTurn sid (TrimSpace (st_RequesterUserID payload)) (st_Text payload)
    (startedAt q) (pendingUserTurns l)).

(** [evictIdleSessionLocked] *)
Definition evictIdleSession (sid : string) (qp : nat) (d : TurnDispatcher) :
    TurnDispatcher * bool :=
  let q := l_queue (lane_at d qp) in
  if negb (bool_decide (sessions d !! sid = Some qp)) || running q ||
     negb (bool_decide (pending q = []))
  then (d, false) else (remove_session sid d, true).

(** One scheduling step of the worker of queue [qp].  The environment chooses
    the clock, the callback's outcome and which ready [select] case fires. *)
Inductive worker_event :=
  | EvNext (now : Z)
  | EvWake
  | EvStop
  | EvIdle
  | EvCheck (landed : bool)
  | EvReturn (o : outcome)
  | EvComplete.

Definition exit_worker (sid : string) (qp : nat) (l : lane) (d : TurnDispatcher) : TurnDispatcher :=
  set_lane qp sid (with_phase Exited l) (remove_session sid d).

Definition worker_step (ctxErr : nat → option error) (qp : nat) (e : worker_event)
    (d : TurnDispatcher) : option TurnDispatcher :=
  '(sid, l) ← lanes d !! qp;
  match l_phase l, e with
  | Checking, EvNext now =>
      if stopping d then Some (exit_worker sid qp l d)
      else Some (set_lane qp sid (lane_next now l) d)
  | Waiting, EvWake =>
      if wakeCh (l_queue l)
      then Some (set_lane qp sid (with_phase Checking (with_queue (set_wake false) l)) d)
      else None
  | Waiting, EvStop => if stopping d then Some (exit_worker sid qp l d) else None
  | Waiting, EvIdle =>
      let '(d', evicted) := evictIdleSession sid qp d in
      Some (set_lane qp sid (with_phase (if evicted then Exited else Checking) l) d')
  | Starting t parent cancelled, EvCheck landed =>
      match run_ctx_err ctxErr parent cancelled landed with
      | Some e => Some (set_lane qp sid (lane_finish t (Some e) l) d)
      | None => Some (set_lane qp sid (with_phase (Running t parent cancelled) l) d)
      end
  | Running t parent cancelled, EvReturn o =>
      turn ← l_turns l !! t;
      err ← run_turn turn o;
      Some (set_lane qp sid (lane_finish t err l) d)
  | Completing t err, EvComplete => Some (set_lane qp sid (lane_complete t err l) d)
  | _, _ => None
  end.
