(* ===== verification/TurnDispatcherProofs.v ===== *)
(** * TurnDispatcherProofs: the queue invariant and what it gives

    The invariant of one lane ([lane_inv]): admission bound, FIFO order, exact
    accounting of result channels, agreement of the queue fields with the
    worker's program point, exclusiveness of the replacement boundary, bounded
    replay memory and no lost wake-up.  Every operation preserves it, hence every
    reachable dispatcher satisfies it. *)

From Stdlib Require Import ZArith Lia Ascii String Sorted.
From stdpp Require Import base numbers list gmap strings.
From S2P Require Import Prelude.
From S2P Require Import GoStrings.
From S2P Require Import TurnCommand.
From S2P Require Import TurnDispatcher.

Local Open Scope string_scope.
Local Open Scope list_scope.
Local Open Scope Z_scope.

(** ** Accounting of turn objects *)
Definition active (p : phase) : list nat :=
  match p with Starting t _ _ | Running t _ _ => [t] | _ => [] end.
Definition held (p : phase) : list nat :=
  match p with Starting t _ _ | Running t _ _ | Completing t _ => [t] | _ => [] end.

Definition roots (l : lane) : list nat := held (l_phase l) ++ pending (l_queue l).

(** A batch: the head and the turns attached to it. *)
Definition batch (l : lane) (r : nat) : list nat := r :: constituents_of l r.
Definition tracked_of (l : lane) (rs : list nat) : list nat := rs ≫= batch l.
Definition tracked (l : lane) : list nat := tracked_of l (roots l).

Definition is_open (l : lane) (t : nat) : Prop :=
  ∃ turn, l_turns l !! t = Some turn ∧ t_result turn = true.
Definition is_closed (l : lane) (t : nat) : Prop :=
  ∃ turn, l_turns l !! t = Some turn ∧ t_result turn = false.

Definition replacement_of (l : lane) (t : nat) : option ReplacementTask :=
  turn ← l_turns l !! t; t_replacement turn.

Definition answers (err : option error) (ts : list nat) : list (nat * option error) :=
  map (λ t, (t, err)) ts.

Lemma tracked_of_app l rs1 rs2 : tracked_of l (rs1 ++ rs2) = tracked_of l rs1 ++ tracked_of l rs2.
Proof. apply bind_app. Qed.

Lemma elem_of_tracked_of l rs t :
  t ∈ tracked_of l rs ↔ ∃ r, r ∈ rs ∧ (t = r ∨ t ∈ constituents_of l r).
Proof.
  unfold tracked_of. rewrite list_elem_of_bind. unfold batch.
  setoid_rewrite elem_of_cons. naive_solver.
Qed.

Lemma roots_tracked l r : r ∈ roots l → r ∈ tracked l.
Proof. intros Hr. apply elem_of_tracked_of. eauto. Qed.

Lemma tracked_of_cons l r rs : tracked_of l (r :: rs) = batch l r ++ tracked_of l rs.
Proof. done. Qed.

(** Two heaps that agree on constituents track the same turns. *)
Lemma tracked_of_ext l l' rs :
  (∀ r, r ∈ rs → constituents_of l' r = constituents_of l r) →
  tracked_of l' rs = tracked_of l rs.
Proof.
  induction rs as [|r rs IH]; intros H; [done|].
  rewrite !tracked_of_cons, IH by set_solver. unfold batch. by rewrite (H r) by set_solver.
Qed.

(** Attaching one turn to one of the batches. *)
Lemma tracked_of_attach l l' rs b c :
  NoDup rs → b ∈ rs →
  (∀ r, r ∈ rs → constituents_of l' r = if decide (r = b) then constituents_of l r ++ [c]
                               else constituents_of l r) →
  tracked_of l' rs ≡ₚ c :: tracked_of l rs.
Proof.
  intros Hnd Hb Hc. induction rs as [|r rs IH]; [by apply elem_of_nil in Hb|].
  apply NoDup_cons in Hnd as [Hr Hnd]. rewrite !tracked_of_cons.
  destruct (decide (r = b)) as [->|Hne].
  - rewrite (tracked_of_ext l l' rs).
    + unfold batch. rewrite Hc, decide_True by set_solver.
      cbn. rewrite <-app_assoc. cbn. solve_Permutation.
    + intros r' Hr'. rewrite Hc, decide_False by set_solver. done.
  - rewrite IH by set_solver. unfold batch. rewrite Hc, decide_False by set_solver.
    solve_Permutation.
Qed.

(** ** Sending results *)
Lemma send_result_open err l t :
  is_open l t →
  ∃ turn, l_turns l !! t = Some turn ∧
  send_result err l t =
    mkLane (l_queue l) (<[t := close_result turn]> (l_turns l)) (l_next l)
      (l_results l ++ [(t, err)]) (l_phase l).
Proof. intros (turn & Ht & Hr). exists turn. split; [done|]. unfold send_result. by rewrite Ht, Hr. Qed.

Lemma send_results_spec err ts l :
  NoDup ts → (∀ t, t ∈ ts → is_open l t) →
  let l' := fold_left (send_result err) ts l in
  l_queue l' = l_queue l ∧ l_phase l' = l_phase l ∧ l_next l' = l_next l ∧
  l_results l' = l_results l ++ answers err ts ∧
  ∀ t, l_turns l' !! t =
    if decide (t ∈ ts) then close_result <$> l_turns l !! t else l_turns l !! t.
Proof.
  revert l. induction ts as [|t ts IH]; intros l Hnd Ho; cbn -[decide].
  - rewrite app_nil_r. do 4 (split; [done|]). intros t. by rewrite decide_False by set_solver.
  - apply NoDup_cons in Hnd as [Hnt Hnd].
    destruct (send_result_open err l t) as (turn & Ht & ->); [set_solver|].
    set (l1 := mkLane _ _ _ _ _). destruct (IH l1 Hnd) as (Hq & Hp & Hn & Hr & Hl).
    { intros t' Ht'. destruct (Ho t') as (turn' & ? & ?); [set_solver|].
      exists turn'. split; [|done]. cbn. rewrite lookup_insert_ne; [done | by intros ->]. }
    rewrite Hq, Hp, Hn, Hr. repeat split.
    + cbn. by rewrite <-app_assoc.
    + intros t'. rewrite Hl. cbn. destruct (decide (t' = t)) as [->|Hne].
      * rewrite decide_False by done. rewrite decide_True by set_solver.
        by rewrite lookup_insert_eq, Ht.
      * rewrite lookup_insert_ne by done. destruct (decide (t' ∈ ts)).
        -- by rewrite decide_True by set_solver.
        -- by rewrite decide_False by set_solver.
Qed.

Definition finish_turn (turn : queuedTurn) : queuedTurn := clear_constituents (close_result turn).

(** [completeTurn] answers the batch with one error value and nothing else. *)
Lemma completeTurn_spec err l r :
  NoDup (batch l r) → (∀ t, t ∈ batch l r → is_open l t) →
  let l' := completeTurn err l r in
  l_queue l' = l_queue l ∧ l_phase l' = l_phase l ∧ l_next l' = l_next l ∧
  l_results l' = l_results l ++ answers err (batch l r) ∧
  ∀ t, l_turns l' !! t =
    if decide (t = r) then finish_turn <$> l_turns l !! t
    else if decide (t ∈ batch l r) then close_result <$> l_turns l !! t else l_turns l !! t.
Proof.
  intros Hnd Ho. unfold completeTurn. change (r :: constituents_of l r) with (batch l r).
  destruct (send_results_spec err (batch l r) l Hnd Ho) as (Hq & Hp & Hn & Hr & Hl).
  set (l1 := fold_left _ _ _) in *. clearbody l1. cbv zeta.
  destruct (Ho r) as (turn & Ht & Hopen); [set_solver|].
  pose proof (Hl r) as Hlr. rewrite decide_True, Ht in Hlr by set_solver. cbn in Hlr.
  rewrite Hlr. cbn [set_turn with_turns l_queue l_phase l_next l_results l_turns].
  do 4 (split; [done|]). intros t. destruct (decide (t = r)) as [->|Hne].
  - by rewrite lookup_insert_eq, Ht.
  - by rewrite lookup_insert_ne, Hl by done.
Qed.

Lemma completeTurn_constituents err l r r' :
  NoDup (batch l r) → (∀ t, t ∈ batch l r → is_open l t) → r' ≠ r →
  constituents_of (completeTurn err l r) r' = constituents_of l r'.
Proof.
  intros Hnd Ho Hne. destruct (completeTurn_spec err l r Hnd Ho) as (_ & _ & _ & _ & Hl).
  unfold constituents_of. rewrite Hl, decide_False by done.
  destruct (decide _); [|done]. by destruct (l_turns l !! r').
Qed.

(** Dropping several disjoint batches answers each exactly once, in order. *)
Lemma completeTurns_spec err rs l :
  NoDup (tracked_of l rs) → (∀ t, t ∈ tracked_of l rs → is_open l t) →
  let l' := completeTurns rs err l in
  l_queue l' = l_queue l ∧ l_phase l' = l_phase l ∧ l_next l' = l_next l ∧
  l_results l' = l_results l ++ answers err (tracked_of l rs) ∧
  ∀ t, l_turns l' !! t =
    if decide (t ∈ rs) then finish_turn <$> l_turns l !! t
    else if decide (t ∈ tracked_of l rs) then close_result <$> l_turns l !! t
    else l_turns l !! t.
Proof.
  unfold completeTurns. revert l. induction rs as [|r rs IH]; intros l Hnd Ho; cbv zeta.
  - cbn -[decide]. rewrite app_nil_r. do 4 (split; [done|]). intros t.
    by rewrite !decide_False by set_solver.
  - rewrite tracked_of_cons in Hnd, Ho |- *. cbn [fold_left].
    apply NoDup_app in Hnd as (Hb & Hdis & Hnd).
    assert (Hob : ∀ t, t ∈ batch l r → is_open l t) by set_solver.
    destruct (completeTurn_spec err l r Hb Hob) as (Hq & Hp & Hn & Hr & Hl).
    assert (Hrs : ∀ r', r' ∈ rs → r' ≠ r).
    { intros r' Hr' ->. apply (Hdis r); [set_solver|]. apply elem_of_tracked_of. eauto. }
    assert (Htr : tracked_of (completeTurn err l r) rs = tracked_of l rs).
    { apply tracked_of_ext. intros r' Hr'. apply completeTurn_constituents; auto. }
    set (l1 := completeTurn err l r) in *. clearbody l1.
    destruct (IH l1) as (Hq2 & Hp2 & Hn2 & Hr2 & Hl2).
    { by rewrite Htr. }
    { rewrite Htr. intros t Ht. destruct (Ho t) as (turn & ? & ?); [set_solver|].
      exists turn. rewrite Hl, !decide_False; [done|..].
      - intros Hin. by apply (Hdis t).
      - intros ->. apply (Hdis r); [set_solver | done]. }
    rewrite Htr in Hr2. rewrite Hq2, Hp2, Hn2, Hr2, Hr. do 3 (split; [done|]). split.
    { unfold answers. by rewrite map_app, app_assoc. }
    intros t. rewrite Hl2, Htr, Hl.
    destruct (decide (t = r)) as [->|Hne].
    + assert (Hrr : r ∉ rs) by (intros Hin; by apply (Hrs r)).
      assert (Hrt : r ∉ tracked_of l rs) by (apply Hdis; set_solver).
      by rewrite decide_False, decide_False, decide_True by set_solver.
    + destruct (decide (t ∈ rs)) as [Hin|Hin].
      * rewrite (decide_True (P := t ∈ r :: rs)) by set_solver.
        rewrite decide_False; [done|]. intros Hb'. apply (Hdis t Hb').
        apply elem_of_tracked_of. eauto.
      * rewrite (decide_False (P := t ∈ r :: rs)) by set_solver.
        destruct (decide (t ∈ tracked_of l rs)), (decide (t ∈ batch l r)).
        -- exfalso. by apply (Hdis t).
        -- by rewrite decide_True by set_solver.
        -- by rewrite decide_True by set_solver.
        -- by rewrite decide_False by set_solver.
Qed.

(** ** The replay memory *)
Definition terminal_ok (q : sessionTurnQueue) : Prop :=
  NoDup (terminalOrder q) ∧ Zlength (terminalOrder q) ≤ terminalReplacementLimit ∧
  ∀ op, is_Some (terminalReplacements q !! op) ↔ op ∈ terminalOrder q.

Lemma remember_ok op r q : terminal_ok q → terminal_ok (rememberReplacementResult op r q).
Proof.
  intros (Hnd & Hlen & Hdom). unfold rememberReplacementResult.
  destruct (terminalReplacements q !! op) eqn:Hop; cbn.
  { split; [done | split; [done|]]. cbn. intros op'.
    rewrite lookup_insert_is_Some', Hdom.
    assert (op ∈ terminalOrder q) by (apply Hdom; eauto). naive_solver. }
  assert (Hnew : op ∉ terminalOrder q).
  { intros Hin. apply Hdom in Hin as [? ?]. congruence. }
  destruct (terminalOrder q) as [|oldest rest] eqn:Ho.
  - split; [|split]; cbn.
    + apply NoDup_singleton.
    + unfold Zlength, terminalReplacementLimit. cbn. lia.
    + intros op'. rewrite lookup_insert_is_Some'. rewrite Hdom. set_solver.
  - apply NoDup_cons in Hnd as [Hold Hnd].
    destruct (Z.eqb_spec (Zlength (oldest :: rest)) terminalReplacementLimit) as [Heq|Hne].
    + split; [|split]; cbn.
      * apply NoDup_app. repeat split; [done | set_solver | apply NoDup_singleton].
      * unfold Zlength in *. rewrite length_app. cbn in *. lia.
      * intros op'. rewrite lookup_insert_is_Some', lookup_delete_is_Some, Hdom. set_solver.
    + split; [|split]; cbn.
      * apply NoDup_cons. split; [set_solver|].
        apply NoDup_app. repeat split; [done | set_solver | apply NoDup_singleton].
      * unfold Zlength in *. cbn in *. rewrite length_app. cbn. lia.
      * intros op'. rewrite lookup_insert_is_Some', Hdom. set_solver.
Qed.

(** ** The invariant of a lane *)
Definition phase_ok (l : lane) : Prop :=
  let q := l_queue l in
  match l_phase l with
  | Starting t _ _ | Running t _ _ =>
      running q = true ∧ runningTurn q = Some t ∧ inFlightCancel q = true
  | _ => running q = false ∧ runningTurn q = None ∧ inFlightCancel q = false
  end.

Record lane_inv (l : lane) : Prop := {
  (* pointers are allocated in order and live *)
  inv_alloc : ∀ t, is_Some (l_turns l !! t) ↔ (t < l_next l)%nat;
  (* batch heads run in admission order *)
  inv_fifo : StronglySorted lt (roots l);
  inv_bound : Zlength (pending (l_queue l)) ≤ perSessionQueueLimit;
  (* exactly the unanswered turns are held, each once *)
  inv_nodup : NoDup (tracked l);
  inv_open : ∀ t, t ∈ tracked l ↔ is_open l t;
  (* exactly the answered turns appear in the log, each once *)
  inv_results_nodup : NoDup (l_results l).*1;
  inv_results : ∀ t, t ∈ (l_results l).*1 ↔ is_closed l t;
  inv_phase : phase_ok l;
  inv_wake : l_phase l = Waiting → pending (l_queue l) ≠ [] → wakeCh (l_queue l) = true;
  inv_exited : l_phase l = Exited → pending (l_queue l) = [];
  (* the replacement boundary *)
  inv_repl : ∀ r, replacement (l_queue l) = Some r ↔
    r ∈ active (l_phase l) ++ pending (l_queue l) ∧ is_Some (replacement_of l r);
  inv_repl_last : ∀ r, replacement (l_queue l) = Some r →
    r ∈ pending (l_queue l) → last (pending (l_queue l)) = Some r;
  inv_terminal : terminal_ok (l_queue l) }.

Lemma active_held p t : t ∈ active p → t ∈ held p.
Proof. destruct p; cbn; set_solver. Qed.

Lemma NoDup_sorted_lt (ts : list nat) : StronglySorted lt ts → NoDup ts.
Proof.
  induction 1 as [|t ts Hs IH Hall]; constructor; [|done].
  rewrite Forall_forall in Hall. intros Hin. specialize (Hall _ Hin). lia.
Qed.

Lemma newLane_inv : lane_inv newLane.
Proof.
  split; cbn; try done.
  - intros t. rewrite lookup_empty. split; [intros [? ?]; done | lia].
  - constructor.
  - constructor.
  - intros t. split; [set_solver|]. intros (turn & Ht & _). cbn in Ht. by apply lookup_empty_Some in Ht.
  - constructor.
  - intros t. split; [set_solver|]. intros (turn & Ht & _). cbn in Ht. by apply lookup_empty_Some in Ht.
  - intros r. split; [done|]. intros [Hr _]. by apply elem_of_nil in Hr.
  - split; [constructor|]. split; [done|]. intros op. cbn. rewrite lookup_empty.
    split; [intros [? ?]; done | set_solver].
Qed.

Section inv_facts.
  Context (l : lane) (Hl : lane_inv l).

Lemma root_alloc r : r ∈ roots l → (r < l_next l)%nat.
  Proof.
    intros Hr. apply (inv_alloc l Hl). apply roots_tracked, (inv_open l Hl) in Hr as (turn & ? & _).
    eauto.
  Qed.

Lemma next_fresh : l_turns l !! l_next l = None.
  Proof. apply eq_None_not_Some. rewrite (inv_alloc l Hl). lia. Qed.

Lemma roots_NoDup : NoDup (roots l).
  Proof. apply NoDup_sorted_lt, (inv_fifo l Hl). Qed.

Lemma next_not_tracked rs : rs ⊆ roots l → l_next l ∉ tracked_of l rs.
  Proof.
    intros Hrs Hin. assert (Ht : l_next l ∈ tracked l).
    { apply elem_of_tracked_of in Hin as (r & Hr & ?). apply elem_of_tracked_of. eauto. }
    apply (inv_open l Hl) in Ht as (turn & Ht & _). by rewrite next_fresh in Ht.
  Qed.
End inv_facts.

(** Joining: a fresh turn is attached to the batch [b] and nothing is queued. *)
Record joined (l : lane) (b : nat) (l' : lane) : Prop := {
  j_queue : l_queue l' = l_queue l;
  j_phase : l_phase l' = l_phase l;
  j_next : l_next l' = S (l_next l);
  j_results : l_results l' = l_results l;
  j_new : ∃ tn, l_turns l' !! l_next l = Some tn ∧ t_result tn = true ∧
    t_constituents tn = [] ∧ t_replacement tn = None;
  j_batch : ∃ tb tb', l_turns l !! b = Some tb ∧ l_turns l' !! b = Some tb' ∧
    t_result tb' = t_result tb ∧ t_constituents tb' = t_constituents tb ++ [l_next l] ∧
    t_replacement tb' = t_replacement tb;
  j_other : ∀ t, t ≠ b → t ≠ l_next l → l_turns l' !! t = l_turns l !! t }.

Lemma joined_inv l b l' : lane_inv l → b ∈ roots l → joined l b l' → lane_inv l'.
Proof.
  intros Hl Hb [Hq Hp Hn Hres (tn & Hnew & Hno & Hnc & Hnr) (tb & tb' & Htb & Htb' & Hbo & Hbc & Hbr) Hoth].
  pose proof (root_alloc l Hl b Hb) as Hblt.
  assert (Hroots : roots l' = roots l) by (unfold roots; by rewrite Hq, Hp).
  assert (Htr : tracked l' ≡ₚ l_next l :: tracked l).
  { unfold tracked. rewrite Hroots. apply (tracked_of_attach _ _ _ b); [by apply roots_NoDup | done |].
    intros r Hr. pose proof (root_alloc l Hl r Hr). unfold constituents_of.
    destruct (decide (r = b)) as [->|Hne]; [by rewrite Htb, Htb'|].
    rewrite Hoth by lia. done. }
  assert (Hrep : ∀ r, r ≠ l_next l → replacement_of l' r = replacement_of l r).
  { intros r Hr. unfold replacement_of. destruct (decide (r = b)) as [->|Hne].
    - rewrite Htb, Htb'. done.
    - by rewrite Hoth. }
  assert (Hstat : ∀ t v, (∃ turn, l_turns l' !! t = Some turn ∧ t_result turn = v) ↔
            (t = l_next l ∧ v = true) ∨ ∃ turn, l_turns l !! t = Some turn ∧ t_result turn = v).
  { intros t v. pose proof (next_fresh l Hl) as Hf.
    destruct (decide (t = l_next l)) as [->|Hne]; [rewrite Hnew, Hf; naive_solver|].
    destruct (decide (t = b)) as [->|Hne2]; [|rewrite Hoth by done; naive_solver].
    rewrite Htb, Htb'. naive_solver congruence. }
  destruct Hl as [Ha Hf Hbd Hnd Ho Hrn Hrs Hph Hw Hex Hre Hrl Hte].
  split; rewrite ?Hroots, ?Hq, ?Hp, ?Hres; try done.
  - intros t. rewrite Hn. destruct (decide (t = l_next l)) as [->|Hne].
    { rewrite Hnew. split; [lia | eauto]. }
    transitivity (is_Some (l_turns l !! t)); [|rewrite Ha; lia].
    destruct (decide (t = b)) as [->|]; [rewrite Htb, Htb'; naive_solver | by rewrite Hoth].
  - rewrite Htr. apply NoDup_cons. split; [|done]. rewrite Ho. intros (turn & Ht & _).
    assert (is_Some (l_turns l !! l_next l)) as Hs by eauto. apply Ha in Hs. lia.
  - intros t. rewrite Htr, elem_of_cons, Ho. unfold is_open. rewrite Hstat. naive_solver.
  - intros t. rewrite Hrs. unfold is_closed. rewrite Hstat. naive_solver.
  - unfold phase_ok. by rewrite Hq, Hp.
  - intros r. rewrite Hre. split; intros [Hin Hr]; (split; [done|]);
      (rewrite Hrep in * || rewrite <-Hrep by idtac); try done.
    all: intros ->; assert (l_next l ∈ roots l) as Hx
      by (unfold roots; apply elem_of_app in Hin as [Hin|Hin]; [apply active_held in Hin|]; set_solver);
      apply roots_tracked, Ho in Hx as (turn & Ht & _);
      assert (is_Some (l_turns l !! l_next l)) as Hs by eauto; apply Ha in Hs; lia.
Qed.

(** Queueing: a fresh turn object goes to the end of the queue, as the
    replacement boundary when it is a replacement, and the worker is signalled. *)
Record pushed (l : lane) (tn : queuedTurn) (l' : lane) : Prop := {
  p_open : t_result tn = true;
  p_single : t_constituents tn = [];
  p_turns : l_turns l' = <[l_next l := tn]> (l_turns l);
  p_next : l_next l' = S (l_next l);
  p_phase : l_phase l' = l_phase l;
  p_results : l_results l' = l_results l;
  p_pending : pending (l_queue l') = pending (l_queue l) ++ [l_next l];
  p_running : running (l_queue l') = running (l_queue l);
  p_runningTurn : runningTurn (l_queue l') = runningTurn (l_queue l);
  p_cancel : inFlightCancel (l_queue l') = inFlightCancel (l_queue l);
  p_wake : wakeCh (l_queue l') = true;
  p_replacement : replacement (l_queue l') =
    match t_replacement tn with Some _ => Some (l_next l) | None => None end;
  p_terminal : terminalReplacements (l_queue l') = terminalReplacements (l_queue l) ∧
    terminalOrder (l_queue l') = terminalOrder (l_queue l) }.

Lemma sorted_snoc (ts : list nat) n :
  StronglySorted lt ts → (∀ t, t ∈ ts → (t < n)%nat) → StronglySorted lt (ts ++ [n]).
Proof.
  induction 1 as [|t ts Hs IH Hall]; intros Hn; cbn.
  - repeat constructor.
  - constructor; [apply IH; set_solver|].
    rewrite Forall_app. split; [done|]. constructor; [apply Hn; set_solver | constructor].
Qed.

Lemma pushed_inv l tn l' :
  lane_inv l → l_phase l ≠ Exited → replacement (l_queue l) = None →
  Zlength (pending (l_queue l)) < perSessionQueueLimit →
  pushed l tn l' → lane_inv l'.
Proof.
  intros Hl Hph0 Hnorep Hcap [Hto Htc Hturns Hn Hp Hres Hpe Hru Hrt Hca Hwa Hrp [Htm Htord]].
  assert (Hroots : roots l' = roots l ++ [l_next l]) by (unfold roots; by rewrite Hp, Hpe, app_assoc).
  assert (Hold : ∀ t, t ≠ l_next l → l_turns l' !! t = l_turns l !! t)
    by (intros t Ht; by rewrite Hturns, lookup_insert_ne).
  assert (Hnew : l_turns l' !! l_next l = Some tn) by (by rewrite Hturns, lookup_insert_eq).
  assert (Htr : tracked l' = tracked l ++ [l_next l]).
  { unfold tracked. rewrite Hroots, tracked_of_app. f_equal.
    - apply tracked_of_ext. intros r Hr. pose proof (root_alloc l Hl r Hr).
      unfold constituents_of. rewrite Hold by lia. done.
    - cbn. unfold batch, constituents_of. by rewrite Hnew, Htc. }
  assert (Hstat : ∀ t v, (∃ turn, l_turns l' !! t = Some turn ∧ t_result turn = v) ↔
            (t = l_next l ∧ v = true) ∨ ∃ turn, l_turns l !! t = Some turn ∧ t_result turn = v).
  { intros t v. pose proof (next_fresh l Hl) as Hf.
    destruct (decide (t = l_next l)) as [->|Hne]; [rewrite Hnew, Hf; naive_solver|].
    rewrite Hold by done. naive_solver. }
  assert (Hfree : ∀ r, r ∈ active (l_phase l) ++ pending (l_queue l) → replacement_of l' r = None).
  { intros r Hr. assert (Hr2 : r ∈ roots l).
    { apply elem_of_app in Hr as [Hr|Hr]; [apply active_held in Hr|]; unfold roots; set_solver. }
    pose proof (root_alloc l Hl r Hr2). unfold replacement_of. rewrite Hold by lia.
    fold (replacement_of l r). destruct (replacement_of l r) eqn:E; [|done].
    assert (replacement (l_queue l) = Some r) by (apply (inv_repl l Hl); eauto). congruence. }
  pose proof (next_not_tracked l Hl (roots l) ltac:(set_solver)) as Hnt.
  pose proof (root_alloc l Hl) as Hra.
  destruct Hl as [Ha Hf Hbd Hnd Ho Hrn Hrs Hph Hw Hex Hre Hrl Hte].
  split; rewrite ?Hres; try done.
  - intros t. rewrite Hn. destruct (decide (t = l_next l)) as [->|Hne].
    { rewrite Hnew. split; [lia | eauto]. }
    rewrite Hold by done. rewrite Ha. lia.
  - rewrite Hroots. by apply sorted_snoc.
  - rewrite Hpe. unfold Zlength, perSessionQueueLimit in *. rewrite length_app. cbn. lia.
  - rewrite Htr. apply NoDup_app. split; [done|]. split; [set_solver | apply NoDup_singleton].
  - intros t. rewrite Htr, elem_of_app, list_elem_of_singleton, Ho. unfold is_open. rewrite Hstat.
    naive_solver.
  - intros t. rewrite Hrs. unfold is_closed. rewrite Hstat. naive_solver.
  - unfold phase_ok in *. by rewrite Hp, Hru, Hrt, Hca.
  - by rewrite Hp.
  - intros r. rewrite Hrp, Hp, Hpe. split.
    + destruct (t_replacement tn) eqn:E; [|done]. intros [= <-]. split; [set_solver|].
      unfold replacement_of. rewrite Hnew. cbn. eauto.
    + rewrite app_assoc, elem_of_app, list_elem_of_singleton. intros [[Hin| ->] [tk Hs]].
      * rewrite Hfree in Hs by done. done.
      * unfold replacement_of in Hs. rewrite Hnew in Hs. cbn in Hs. by rewrite Hs.
  - intros r. rewrite Hrp, Hpe. destruct (t_replacement tn); [|done]. intros [= <-] _. apply last_snoc.
  - unfold terminal_ok. by rewrite Htm, Htord.
Qed.

(** ** Admission either refuses, joins or pushes *)
Section admission.
  Context (l : lane) (Hl : lane_inv l).

Lemma joined_intro b tn tb tb' :
    b ∈ roots l → t_result tn = true → t_constituents tn = [] → t_replacement tn = None →
    l_turns l !! b = Some tb →
    t_result tb' = t_result tb → t_constituents tb' = t_constituents tb ++ [l_next l] →
    t_replacement tb' = t_replacement tb →
    joined l b (set_turn b tb' (alloc tn l).1).
  Proof.
    intros Hb Ho Hc Hr Htb H1 H2 H3. pose proof (root_alloc l Hl b Hb).
    split; cbn; try done.
    - exists tn. rewrite lookup_insert_ne by lia. by rewrite lookup_insert_eq.
    - exists tb, tb'. by rewrite lookup_insert_eq.
    - intros t Ht1 Ht2. by rewrite !lookup_insert_ne.
  Qed.

Lemma root_lookup b : b ∈ roots l → ∃ tb, l_turns l !! b = Some tb ∧ t_result tb = true.
  Proof. intros Hb. apply roots_tracked, (inv_open l Hl) in Hb. exact Hb. Qed.

Lemma alloc_lookup_root tn b :
    b ∈ roots l → l_turns (alloc tn l).1 !! b = l_turns l !! b.
  Proof. intros Hb. pose proof (root_alloc l Hl b Hb). cbn. by rewrite lookup_insert_ne by lia. Qed.

Lemma attach_joined tn b :
    b ∈ roots l → t_result tn = true → t_constituents tn = [] → t_replacement tn = None →
    joined l b (attach b (l_next l) (alloc tn l).1).
  Proof.
    intros Hb Ho Hc Hr. destruct (root_lookup b Hb) as (tb & Htb & _).
    unfold attach. rewrite (alloc_lookup_root tn b Hb), Htb.
    by eapply (joined_intro b tn tb).
  Qed.

Lemma merge_joined ctxErr tn b l' :
    b ∈ roots l → t_result tn = true → t_constituents tn = [] → t_replacement tn = None →
    mergeIntoSteeringBatch ctxErr (alloc tn l).1 b (l_next l) = Some l' → joined l b l'.
  Proof.
    intros Hb Ho Hc Hr. destruct (root_lookup b Hb) as (tb & Htb & _).
    unfold mergeIntoSteeringBatch. rewrite (alloc_lookup_root tn b Hb), Htb.
    cbn [mbind option_bind]. intros Hm.
    destruct (l_turns (alloc tn l).1 !! l_next l) as [ti|]; [|done]. cbn in Hm.
    destruct (t_turn tb) as [pb|]; [|done]. cbn in Hm.
    destruct (t_turn ti) as [pi|]; [|done]. cbn in Hm.
    destruct (negb _ || negb _); [done|].
    destruct (negb _ && negb _ && negb _); [done|]. injection Hm as <-.
    eapply (joined_intro b tn tb); try done;
      destruct (negb _ && _), (ctxErr (t_ctx tb)), (ctxErr (t_ctx ti)); done.
  Qed.

Lemma merge_scan_joined ctxErr tn bs l' :
    (∀ b, b ∈ bs → b ∈ pending (l_queue l)) →
    t_result tn = true → t_constituents tn = [] → t_replacement tn = None →
    merge_scan ctxErr (alloc tn l).1 bs (l_next l) = Some l' →
    ∃ b, b ∈ pending (l_queue l) ∧ joined l b l'.
  Proof.
    induction bs as [|b bs IH]; cbn; [done|]. intros Hbs Ho Hc Hr.
    assert (Hb : b ∈ pending (l_queue l)) by (apply Hbs; set_solver).
    destruct (mergeIntoSteeringBatch _ _ b _) as [l1|] eqn:Hm.
    - intros [= <-]. exists b. split; [done|]. eapply merge_joined; try done.
      unfold roots. set_solver.
    - apply IH; try done. set_solver.
  Qed.
End admission.

Lemma find_index_Some f i ts j t :
  find_index f i ts = Some (j, t) → t ∈ ts ∧ f t = true ∧ (i ≤ j < i + length ts)%nat.
Proof.
  revert i. induction ts as [|x ts IH]; cbn; [done|]. intros i.
  destruct (f x) eqn:Hf.
  - intros [= <- <-]. split; [set_solver | split; [done | lia]].
  - intros H. apply IH in H as (? & ? & ?). split; [set_solver | split; [done | lia]].
Qed.

Lemma find_index_None f i ts : find_index f i ts = None ↔ ∀ t, t ∈ ts → f t = false.
Proof.
  revert i. induction ts as [|x ts IH]; cbn; intros i; [set_solver|].
  destruct (f x) eqn:Hf.
  - split; [done|]. intros H. rewrite H in Hf by set_solver. done.
  - rewrite IH. set_solver.
Qed.

(** The running turn is the active one. *)
Lemma running_active l t :
  lane_inv l → (if running (l_queue l) then runningTurn (l_queue l) else None) = Some t →
  active (l_phase l) = [t].
Proof.
  intros Hl. pose proof (inv_phase l Hl) as Hp. unfold phase_ok in Hp.
  destruct (l_phase l); cbn; destruct Hp as (-> & H2 & _); try done;
    rewrite H2; by intros [= ->].
Qed.

Lemma active_roots l t : t ∈ active (l_phase l) ++ pending (l_queue l) → t ∈ roots l.
Proof. unfold roots. rewrite !elem_of_app. intros [H|H]; [left; by apply active_held | by right]. Qed.

Lemma attach_duplicate_joined l tn key l' pos :
  lane_inv l → t_result tn = true → t_constituents tn = [] → t_replacement tn = None →
  attach_duplicate (alloc tn l).1 (l_next l) key = Some (l', pos) →
  ∃ b, b ∈ active (l_phase l) ++ pending (l_queue l) ∧ joined l b l'.
Proof.
  intros Hl Ho Hc Hr. unfold attach_duplicate. cbn [alloc fst l_queue].
  pose proof (running_active l) as Hact.
  assert (Hfind : ∀ f, match find_index f 0 (pending (l_queue l)) with
      | Some (i, t) => Some (attach t (l_next l) (alloc tn l).1, Z.of_nat (if running (l_queue l) then S i else i))
      | None => None end = Some (l', pos) →
    ∃ b, b ∈ active (l_phase l) ++ pending (l_queue l) ∧ joined l b l').
  { intros f. destruct (find_index f _ _) as [[i t]|] eqn:Hf; [|done]. intros [= <- _].
    apply find_index_Some in Hf as (Hin & _). exists t. split; [set_solver|].
    apply attach_joined; try done. apply active_roots. set_solver. }
  destruct (if running (l_queue l) then _ else _) as [r|] eqn:Hrun; cbn -[find_index]; [|apply Hfind].
  destruct (batchContainsConstituent _ r key) eqn:Hk; [|apply Hfind].
  intros [= <- _]. specialize (Hact r Hl eq_refl). exists r. rewrite Hact.
  split; [set_solver|]. apply attach_joined; try done. apply active_roots. rewrite Hact. set_solver.
Qed.

(** The three outcomes of an admission. *)
Inductive admitted (l : lane) : lane → result (channel * Z) → Prop :=
  | adm_refused e : admitted l l (Err e)
  | adm_replayed err : admitted l l (Ok (ChDone err, 0))
  | adm_joined b l' pos :
      b ∈ active (l_phase l) ++ pending (l_queue l) → joined l b l' →
      admitted l l' (Ok (ChTurn (l_next l), pos))
  | adm_pushed tn l' pos :
      pushed l tn l' → replacement (l_queue l) = None →
      Zlength (pending (l_queue l)) < perSessionQueueLimit →
      admitted l l' (Ok (ChTurn (l_next l), pos)).

Lemma admitted_inv l l' r : lane_inv l → l_phase l ≠ Exited → admitted l l' r → lane_inv l'.
Proof.
  intros Hl Hp [ | |b l1 pos Hb Hj|tn l1 pos Hpu Hr Hlt]; try done.
  - eapply joined_inv; try done. by apply active_roots.
  - by eapply pushed_inv.
Qed.

Lemma pushed_intro l tn :
  t_result tn = true → t_constituents tn = [] → replacement (l_queue l) = None →
  pushed l tn (with_queue (λ q, set_wake true
    (set_replacement (match t_replacement tn with Some _ => Some (l_next l) | None => None end)
      (set_pending (pending q ++ [l_next l]) q))) (alloc tn l).1).
Proof. intros Ho Hc Hr. by split. Qed.

Lemma tryMerge_cases ctxErr l tn :
  lane_inv l → t_result tn = true → t_constituents tn = [] → t_replacement tn = None →
  let p := tryMergeSteeringTurn ctxErr (alloc tn l).1 (l_next l) in
  (p.1 = true ∧ ∃ b, b ∈ pending (l_queue l) ∧ joined l b p.2) ∨
  (p.1 = false ∧ ∃ tn', t_result tn' = true ∧ t_constituents tn' = [] ∧
    t_replacement tn' = None ∧ p.2 = (alloc tn' l).1).
Proof.
  intros Hl Ho Hc Hr. cbv zeta. unfold tryMergeSteeringTurn.
  assert (Htn : l_turns (alloc tn l).1 !! l_next l = Some tn) by apply lookup_insert_eq.
  assert (Hsame : (false = true ∧ ∃ b, b ∈ pending (l_queue l) ∧ joined l b (alloc tn l).1) ∨
    (false = false ∧ ∃ tn', t_result tn' = true ∧ t_constituents tn' = [] ∧
      t_replacement tn' = None ∧ (alloc tn l).1 = (alloc tn' l).1)) by (right; split; [done|]; by exists tn).
  rewrite Htn. destruct tn as [c [inc|] r cs rep]; [|exact Hsame]. cbn in Ho, Hc, Hr. subst.
  destruct (negb (isSteeringCandidate inc)); [exact Hsame|].
  destruct (merge_scan _ _ _ _) as [l1|] eqn:Hm.
  - left. split; [done|]. eapply (merge_scan_joined l Hl); try exact Hm; try done.
    intros b. cbn. by rewrite list_elem_of_In, <-in_rev, <-list_elem_of_In.
  - destruct (negb (matchesRunningSteering _ _)); [exact Hsame|]. right. split; [done|].
    exists (mkTurn c (Some (initializeSteeringBatch inc)) true [] None).
    do 3 (split; [done|]). unfold set_turn, with_turns, alloc. cbn. by rewrite insert_insert_eq.
Qed.

Lemma lane_enqueue_admitted ctxErr ctx task l :
  lane_inv l →
  let '(l', r) := lane_enqueue ctxErr ctx task l in admitted l l' r.
Proof.
  intros Hl. unfold lane_enqueue.
  set (tn := mkTurn ctx (tk_SessionTurn task) true [] None).
  rewrite (surjective_pairing (alloc tn l)). change (alloc tn l).2 with (l_next l).
  change (l_queue (alloc tn l).1) with (l_queue l).
  destruct (if bool_decide _ then None else attach_duplicate _ _ _) as [[l1 pos]|] eqn:Hdup.
  { destruct (bool_decide _); [done|].
    apply attach_duplicate_joined in Hdup as (b & Hb & Hj); try done. by eapply adm_joined. }
  clear Hdup. case_bool_decide as Hrep; [apply adm_refused|].
  destruct (Z.leb_spec perSessionQueueLimit (Zlength (pending (l_queue l)))); [apply adm_refused|].
  set (p := if running (l_queue l) then tryMergeSteeringTurn _ _ _ else _).
  assert (Hp : (p.1 = true ∧ ∃ b, b ∈ pending (l_queue l) ∧ joined l b p.2) ∨
    (p.1 = false ∧ ∃ tn', t_result tn' = true ∧ t_constituents tn' = [] ∧
      t_replacement tn' = None ∧ p.2 = (alloc tn' l).1)).
  { subst p. destruct (running (l_queue l)); [by apply tryMerge_cases | right; split; [done|]].
    by exists tn. }
  rewrite (surjective_pairing p). destruct Hp as [(-> & b & Hb & Hj)|(-> & tn' & Ho & Hc & Hr & ->)].
  { apply (adm_joined l b); [set_solver | done]. }
  clear p. cbn -[Zlength Z.ltb].
  eapply (adm_pushed l tn'); try done. destruct (pushed_intro l tn' Ho Hc Hrep).
  split; try done. by rewrite Hr.
Qed.

Lemma lane_enqueue_replacement_admitted ctx task l :
  lane_inv l →
  let '(l', r) := lane_enqueue_replacement ctx task l in admitted l l' r.
Proof.
  intros Hl. unfold lane_enqueue_replacement.
  destruct (terminalReplacements (l_queue l) !! rt_OperationID task) as [term|].
  { case_bool_decide; [apply adm_replayed | apply adm_refused]. }
  destruct (replacement (l_queue l)) as [r|] eqn:Hr.
  - case_bool_decide; cbn; [|apply adm_refused]. case_bool_decide; cbn; [|apply adm_refused].
    apply (adm_joined l r); [by apply (inv_repl l Hl) in Hr as [? _]|].
    apply (attach_joined l Hl (mkTurn ctx None true [] None)); try done.
    apply active_roots. by apply (inv_repl l Hl) in Hr as [? _].
  - destruct (Z.leb_spec perSessionQueueLimit (Zlength (pending (l_queue l)))); [apply adm_refused|].
    cbn -[Zlength]. eapply (adm_pushed l (mkTurn ctx None true [] (Some task))); try done.
Qed.

(** ** Ends of turns *)

(** The heap part of the invariant, for a given list of held batches. *)
Record heap_inv (l : lane) (rs : list nat) : Prop := {
  h_alloc : ∀ t, is_Some (l_turns l !! t) ↔ (t < l_next l)%nat;
  h_nodup : NoDup (tracked_of l rs);
  h_open : ∀ t, t ∈ tracked_of l rs ↔ is_open l t;
  h_results_nodup : NoDup (l_results l).*1;
  h_results : ∀ t, t ∈ (l_results l).*1 ↔ is_closed l t }.

Lemma lane_heap_inv l : lane_inv l → heap_inv l (roots l).
Proof. intros []. by split. Qed.

Lemma heap_inv_perm l rs rs' : rs ≡ₚ rs' → heap_inv l rs → heap_inv l rs'.
Proof.
  intros Hp [H1 H2 H3 H4 H5]. assert (Ht : tracked_of l rs ≡ₚ tracked_of l rs').
  { unfold tracked_of. by rewrite Hp. }
  split; try done; [by rewrite <-Ht | intros t; by rewrite <-Ht].
Qed.

(** The heap part does not look at the queue. *)
Lemma heap_inv_ext l l' rs :
  l_turns l' = l_turns l → l_next l' = l_next l → l_results l' = l_results l →
  heap_inv l rs → heap_inv l' rs.
Proof.
  destruct l as [q m n r p], l' as [q' m' n' r' p']. cbn. intros -> -> ->.
  intros [H1 H2 H3 H4 H5]. by split.
Qed.

Lemma answers_fst err ts : (answers err ts).*1 = ts.
Proof. unfold answers. induction ts as [|t ts IH]; cbn; [done|]. f_equal. exact IH. Qed.

Lemma complete_heap_inv gone keep err l :
  heap_inv l (gone ++ keep) →
  let l' := completeTurns gone err l in
  heap_inv l' keep ∧ l_queue l' = l_queue l ∧ l_phase l' = l_phase l ∧ l_next l' = l_next l ∧
  l_results l' = l_results l ++ answers err (tracked_of l gone) ∧
  (∀ t, replacement_of l' t = replacement_of l t) ∧
  (∀ r, r ∈ keep → constituents_of l' r = constituents_of l r) ∧
  (∀ r, r ∈ gone → constituents_of l' r = []).
Proof.
  intros [Ha Hnd Ho Hrn Hrs]. rewrite tracked_of_app in Hnd, Ho.
  pose proof Hnd as (Hg & Hdis & Hk)%NoDup_app. cbv zeta.
  destruct (completeTurns_spec err gone l Hg) as (Hq & Hp & Hn & Hr & Hl).
  { intros t Ht. apply Ho, elem_of_app. by left. }
  assert (Hog : ∀ t, t ∈ tracked_of l gone → is_open l t) by (intros t Ht; apply Ho, elem_of_app; by left).
  assert (Hok : ∀ t, t ∈ tracked_of l keep → is_open l t) by (intros t Ht; apply Ho, elem_of_app; by right).
  set (l' := completeTurns gone err l) in *. clearbody l'.
  assert (Hgin : ∀ t, t ∈ gone → t ∈ tracked_of l gone) by (intros t Ht; apply elem_of_tracked_of; eauto).
  assert (Hkin : ∀ t, t ∈ keep → t ∈ tracked_of l keep) by (intros t Ht; apply elem_of_tracked_of; eauto).
  assert (Hkc : ∀ r, r ∈ keep → constituents_of l' r = constituents_of l r).
  { intros r Hin. assert (r ∉ tracked_of l gone) by (intros Hx; by apply (Hdis r Hx), Hkin).
    unfold constituents_of. rewrite Hl, !decide_False by auto. done. }
  assert (Htr : tracked_of l' keep = tracked_of l keep) by (apply tracked_of_ext; done).
  assert (Hcl : ∀ t, is_closed l' t ↔ is_closed l t ∨ t ∈ tracked_of l gone).
  { intros t. unfold is_closed. rewrite Hl. split.
    - intros (turn & Ht & Hv). destruct (decide (t ∈ gone)); [right; auto|].
      destruct (decide (t ∈ tracked_of l gone)); eauto.
    - intros [(turn & Ht & Hv)|Ht].
      + rewrite !decide_False; [eauto|..]; intros Hin.
        all: assert (is_open l t) as (x & ? & ?) by auto; congruence.
      + destruct (Hog t Ht) as (x & Hx & _).
        rewrite Hx. destruct (decide (t ∈ gone)); [|rewrite decide_True by done]; cbn; eauto. }
  assert (Hop : ∀ t, is_open l' t ↔ is_open l t ∧ t ∉ tracked_of l gone).
  { intros t. unfold is_open. rewrite Hl.
    destruct (decide (t ∈ gone)) as [Hin|Hin]; [|destruct (decide (t ∈ tracked_of l gone))].
    - split; [|intros [_ Hx]; by destruct Hx; apply Hgin]. intros (turn & Ht & Hv). destruct (l_turns l !! t); [|done].
      cbn in Ht. injection Ht as <-. done.
    - split; [|by intros [_ Hx]]. intros (turn & Ht & Hv). destruct (l_turns l !! t); [|done].
      cbn in Ht. injection Ht as <-. done.
    - naive_solver. }
  split; [|repeat (split; [done|])].
  - split.
    + intros t. rewrite Hn, <-Ha, Hl.
      destruct (decide _); [|destruct (decide _)]; by rewrite ?fmap_is_Some.
    + by rewrite Htr.
    + intros t. rewrite Htr, Hop, <-Ho, elem_of_app.
      specialize (Hdis t). tauto.
    + rewrite Hr, fmap_app, answers_fst. apply NoDup_app. split; [done|]. split; [|done].
      intros t Ht%Hrs Hin. destruct (Hog t Hin) as (x & ? & ?).
      destruct Ht as (y & ? & ?). congruence.
    + intros t. rewrite Hr, fmap_app, answers_fst, elem_of_app, Hrs, Hcl. done.
  - split; [|split; [done|]].
    + intros t. unfold replacement_of. rewrite Hl.
      destruct (decide _); [|destruct (decide _)]; by destruct (l_turns l !! t).
    + intros r Hin. unfold constituents_of. rewrite Hl, decide_True by done.
      by destruct (l_turns l !! r).
Qed.

(** [l'] differs from [l] in the replacement fields only. *)
Record only_replacement (l l' : lane) : Prop := {
  or_turns : l_turns l' = l_turns l;
  or_next : l_next l' = l_next l;
  or_results : l_results l' = l_results l;
  or_phase : l_phase l' = l_phase l;
  or_pending : pending (l_queue l') = pending (l_queue l);
  or_running : running (l_queue l') = running (l_queue l);
  or_runningTurn : runningTurn (l_queue l') = runningTurn (l_queue l);
  or_cancel : inFlightCancel (l_queue l') = inFlightCancel (l_queue l);
  or_wake : wakeCh (l_queue l') = wakeCh (l_queue l);
  or_terminal : terminal_ok (l_queue l) → terminal_ok (l_queue l') }.

#[export] Instance only_replacement_preorder : PreOrder only_replacement.
Proof.
  split; [by split|]. intros l1 l2 l3 [] []. split; try congruence. auto.
Qed.

Lemma finishReplacement_frame t err l : only_replacement l (finishReplacement t err l).
Proof.
  unfold finishReplacement. destruct (l_turns l !! t) as [turn|]; [|done].
  destruct (t_replacement turn) as [task|]; [|done]. case_bool_decide; [|done].
  split; cbn; try (unfold rememberReplacementResult; repeat case_match; done).
  intros Hok. by apply (remember_ok (rt_OperationID task)
    (mkReplacementResult (rt_InputHash task) (boundedReplacementError err))) in Hok.
Qed.

(** The boundary is lifted exactly when the finished turn is the boundary. *)
Lemma finishReplacement_replacement t err l r :
  (replacement (l_queue l) = Some t → is_Some (replacement_of l t)) →
  replacement (l_queue (finishReplacement t err l)) = Some r ↔
  replacement (l_queue l) = Some r ∧ r ≠ t.
Proof.
  unfold finishReplacement, replacement_of. intros Hr.
  destruct (l_turns l !! t) as [turn|] eqn:Ht; cbn in *.
  - destruct (t_replacement turn) as [task|] eqn:Htr.
    + case_bool_decide as Hq; cbn; [|naive_solver congruence].
      split; [done|]. intros [Hx Hne]. congruence.
    + split; [|naive_solver]. intros Hx. split; [done|]. intros ->. by destruct (Hr Hx).
  - split; [|naive_solver]. intros Hx. split; [done|]. intros ->. by destruct (Hr Hx).
Qed.

Definition finish_all (err : option error) (ts : list nat) (l : lane) : lane :=
  fold_left (λ l t, finishReplacement t err l) ts l.

Lemma finish_all_spec err ts l :
  (∀ r, replacement (l_queue l) = Some r → is_Some (replacement_of l r)) →
  only_replacement l (finish_all err ts l) ∧
  ∀ r, replacement (l_queue (finish_all err ts l)) = Some r ↔
       replacement (l_queue l) = Some r ∧ r ∉ ts.
Proof.
  unfold finish_all. revert l. induction ts as [|t ts IH]; intros l Hr; cbn [fold_left].
  - split; [done|]. set_solver.
  - pose proof (finishReplacement_frame t err l) as Hf.
    pose proof (finishReplacement_replacement t err l) as Hx.
    set (l1 := finishReplacement t err l) in *. clearbody l1.
    destruct (IH l1) as [Hf2 Hx2].
    { intros r Hr1. unfold replacement_of. rewrite (or_turns _ _ Hf). apply Hr.
      by apply Hx in Hr1 as [? _]; [|apply Hr]. }
    split; [by transitivity l1|]. intros r. rewrite Hx2, Hx by apply Hr. set_solver.
Qed.

Lemma replacement_of_ext l l' t : l_turns l' = l_turns l → replacement_of l' t = replacement_of l t.
Proof. unfold replacement_of. by intros ->. Qed.

Lemma repl_is_Some l : lane_inv l → ∀ r, replacement (l_queue l) = Some r → is_Some (replacement_of l r).
Proof. intros Hl r Hr. by apply (inv_repl l Hl) in Hr as [_ ?]. Qed.

Lemma sorted_app_r (a b : list nat) : StronglySorted lt (a ++ b) → StronglySorted lt b.
Proof. induction a; cbn; [done|]. intros H. inversion H. auto. Qed.

Lemma sorted_app_l (a b : list nat) : StronglySorted lt (a ++ b) → StronglySorted lt a.
Proof.
  induction a; cbn; [constructor|]. intros H. inversion_clear H as [|? ? Hs Hall].
  constructor; [auto|]. by apply Forall_app in Hall as [? _].
Qed.

(** The generic end of a critical section that answers some of the held batches:
    the control part of the invariant is re-established by the caller. *)
Lemma answered_inv l l1 l2 gone err :
  lane_inv l → roots l ≡ₚ gone ++ roots l2 → StronglySorted lt (roots l2) →
  l_turns l1 = l_turns l → l_next l1 = l_next l → l_results l1 = l_results l →
  l2 = with_phase (l_phase l2) (completeTurns gone err l1) →
  phase_ok l2 → Zlength (pending (l_queue l2)) ≤ perSessionQueueLimit →
  (l_phase l2 = Waiting → pending (l_queue l2) ≠ [] → wakeCh (l_queue l2) = true) →
  (l_phase l2 = Exited → pending (l_queue l2) = []) →
  (∀ r, replacement (l_queue l2) = Some r ↔
    r ∈ active (l_phase l2) ++ pending (l_queue l2) ∧ is_Some (replacement_of l r)) →
  (∀ r, replacement (l_queue l2) = Some r → r ∈ pending (l_queue l2) →
    last (pending (l_queue l2)) = Some r) →
  terminal_ok (l_queue l2) → lane_inv l2.
Proof.
  intros Hl Hroots Hsort H1 H2 H3 Hl2 Hph Hbd Hw Hex Hre Hrl Hte.
  assert (Hh : heap_inv l1 (gone ++ roots l2)).
  { eapply heap_inv_perm; [exact Hroots|]. eapply (heap_inv_ext l); try done. by apply lane_heap_inv. }
  destruct (complete_heap_inv gone (roots l2) err l1 Hh) as (Hh2 & _ & _ & _ & _ & Hrep & _ & _).
  assert (Hh3 : heap_inv l2 (roots l2)).
  { eapply heap_inv_ext; [..|exact Hh2]; by rewrite Hl2. }
  assert (Hrep2 : ∀ t, replacement_of l2 t = replacement_of l t).
  { intros t. rewrite <-(replacement_of_ext l l1), <-Hrep by done.
    apply replacement_of_ext. by rewrite Hl2. }
  destruct Hh3 as [Ha Hnd Ho Hrn Hrs].
  split; try done. intros r. by rewrite Hrep2.
Qed.
