(* ===== verification/TurnDispatcherSteps.v ===== *)
(** * TurnDispatcherSteps: every step of the dispatcher keeps the lane invariant

    Preservation of [lane_inv] by each critical section, the invariant of the
    whole dispatcher, its transition relation and the closure under it. *)

From Stdlib Require Import ZArith Lia Ascii String Sorted.
From stdpp Require Import base numbers list gmap strings relations.
From S2P Require Import Prelude.
From S2P Require Import GoStrings.
From S2P Require Import TurnCommand.
From S2P Require Import TurnDispatcher.
From S2P Require Import TurnDispatcherProofs.

Local Open Scope string_scope.
Local Open Scope list_scope.
Local Open Scope Z_scope.

(** ** The transition relation: client calls and worker steps in any order *)
Inductive call :=
  | CEnqueue (ctx : option nat) (task : TurnTask)
  | CReplace (ctx : option nat) (task : ReplacementTask)
  | CCancel (sessionID : string) (clearQueued : bool)
  | CShutdown
  | CWorker (qp : nat) (e : worker_event).

Definition run_call (ctxErr : nat → option error) (c : call) (d : TurnDispatcher) :
    option TurnDispatcher :=
  match c with
  | CEnqueue ctx task => Some (Enqueue ctxErr ctx task d).1
  | CReplace ctx task => Some (EnqueueReplacement ctx task d).1
  | CCancel sid clear => Some (CancelSession sid clear d).1
  | CShutdown => Some (Shutdown d)
  | CWorker qp e => worker_step ctxErr qp e d
  end.

(** Contexts may expire at any time, so each step reads its own [ctxErr]. *)
Definition step (d d' : TurnDispatcher) : Prop := ∃ ctxErr c, run_call ctxErr c d = Some d'.
Definition reachable (d : TurnDispatcher) : Prop := rtc step NewTurnDispatcher d.

Definition run_calls (ctxErr : nat → option error) (cs : list call) (d : TurnDispatcher) :
    option TurnDispatcher :=
  fold_left (λ od c, d ← od; run_call ctxErr c d) cs (Some d).

Lemma run_calls_reachable ctxErr cs d d' :
  reachable d → run_calls ctxErr cs d = Some d' → reachable d'.
Proof.
  unfold run_calls. revert d. induction cs as [|c cs IH]; cbn; intros d Hd; [by intros [= <-]|].
  destruct (run_call ctxErr c d) as [d1|] eqn:Hc.
  - apply IH. eapply rtc_r; [exact Hd|]. by exists ctxErr, c.
  - intros Hf. exfalso. clear -Hf. induction cs; cbn in *; [done | auto].
Qed.

(** ** Lane operations *)

Lemma lane_phase_inv l p :
  lane_inv l → held p = held (l_phase l) → active p = active (l_phase l) →
  (p = Waiting → pending (l_queue l) ≠ [] → wakeCh (l_queue l) = true) →
  (p = Exited → pending (l_queue l) = []) → lane_inv (with_phase p l).
Proof.
  intros [Ha Hf Hbd Hnd Ho Hrn Hrs Hph Hw Hex Hre Hrl Hte] Hh Hact H1 H2.
  assert (Hroots : roots (with_phase p l) = roots l) by (unfold roots; cbn; by rewrite Hh).
  split; cbn; try done.
  - by rewrite Hroots.
  - unfold tracked. by rewrite Hroots.
  - intros t. unfold tracked. rewrite Hroots. apply Ho.
  - unfold phase_ok in *. cbn. destruct p, (l_phase l); cbn in *; try done; by inversion Hact; subst.
  - intros r. rewrite Hre, Hact. done.
Qed.

Lemma cancel_run_inv l : lane_inv l → lane_inv (cancel_run l).
Proof.
  intros Hl. unfold cancel_run. destruct (l_phase l) eqn:Hp; try done;
    apply lane_phase_inv; rewrite ?Hp; done.
Qed.

Lemma wake_inv l :
  lane_inv l → l_phase l = Waiting →
  lane_inv (with_phase Checking (with_queue (set_wake false) l)).
Proof.
  intros [Ha Hf Hbd Hnd Ho Hrn Hrs Hph Hw Hex Hre Hrl Hte] Hp.
  unfold roots, tracked, phase_ok in *. unfold roots in *. rewrite Hp in *.
  split; cbn; done.
Qed.

Lemma lane_next_inv now l : lane_inv l → l_phase l = Checking → lane_inv (lane_next now l).
Proof.
  intros Hl Hp. unfold lane_next. destruct (pending (l_queue l)) as [|t rest] eqn:Hpe.
  { apply lane_phase_inv; rewrite ?Hp; try done.  }
  destruct Hl as [Ha Hf Hbd Hnd Ho Hrn Hrs Hph Hw Hex Hre Hrl Hte].
  unfold tracked, roots in *. rewrite Hp, Hpe in *. cbn in *.
  split; cbn; try done.
  - unfold Zlength in *. cbn in Hbd. lia.
  - intros r Hr Hin. specialize (Hrl r Hr ltac:(set_solver)).
    destruct rest; [by apply elem_of_nil in Hin | done].
Qed.

Lemma with_phase_id l p : l_phase l = p → l = with_phase p l.
Proof. intros <-. by destruct l. Qed.

Lemma drop_pending_spec l :
  lane_inv l →
  lane_inv (drop_pending l) ∧ pending (l_queue (drop_pending l)) = [] ∧
  l_phase (drop_pending l) = l_phase l ∧
  l_results (drop_pending l) =
    l_results l ++ answers (Some context_Canceled) (tracked_of l (pending (l_queue l))) ∧
  inFlightCancel (l_queue (drop_pending l)) = inFlightCancel (l_queue l) ∧
  (∀ r, r ∈ held (l_phase l) → constituents_of (drop_pending l) r = constituents_of l r).
Proof.
  intros Hl. unfold drop_pending.
  set (err := Some context_Canceled). set (l0 := with_queue (set_pending []) l).
  change (fold_left _ (pending (l_queue l)) l0) with (finish_all err (pending (l_queue l)) l0).
  destruct (finish_all_spec err (pending (l_queue l)) l0) as [Hf Hr].
  { apply (repl_is_Some l Hl). }
  set (l1 := finish_all err _ l0) in *. clearbody l1.
  assert (Hh : heap_inv l1 (pending (l_queue l) ++ held (l_phase l))).
  { eapply heap_inv_ext; [apply Hf|apply Hf|apply Hf|].
    apply (heap_inv_ext l); try done.
    eapply heap_inv_perm; [|by apply lane_heap_inv]. unfold roots. by rewrite Permutation_app_comm. }
  destruct (complete_heap_inv _ _ err l1 Hh) as (_ & Hq2 & Hp2 & _ & Hr2 & _ & Hc2 & _).
  set (l2 := completeTurns _ err l1) in *.
  assert (Hp : l_phase l2 = l_phase l) by (rewrite Hp2; apply Hf).
  assert (Hpe : pending (l_queue l2) = []) by (rewrite Hq2; apply Hf).
  assert (Hroots : roots l2 = held (l_phase l)) by (unfold roots; by rewrite Hp, Hpe, app_nil_r).
  assert (Hcof : ∀ r, constituents_of l1 r = constituents_of l r).
  { intros r. unfold constituents_of. by rewrite (or_turns _ _ Hf). }
  split; [|split; [done|split; [done|split; [|split]]]].
  - eapply (answered_inv l l1 l2 (pending (l_queue l)) err Hl); rewrite ?Hroots, ?Hp, ?Hpe.
    + unfold roots. by rewrite Permutation_app_comm.
    + apply (sorted_app_l _ (pending (l_queue l))). apply (inv_fifo l Hl).
    + apply Hf.
    + apply Hf.
    + apply Hf.
    + by apply with_phase_id.
    + pose proof (inv_phase l Hl) as Hph. unfold phase_ok in *.
      rewrite Hp, Hq2, (or_running _ _ Hf), (or_runningTurn _ _ Hf), (or_cancel _ _ Hf). done.
    + done.
    + done.
    + done.
    + intros r. rewrite Hq2, Hr. cbn. rewrite (inv_repl l Hl), app_nil_r, elem_of_app.
      split; [tauto|]. intros [Hin Hs]. split; [tauto|]. intros Hin2.
      pose proof (roots_NoDup l Hl) as Hnd. unfold roots in Hnd.
      apply NoDup_app in Hnd as (_ & Hd & _). apply (Hd r); [by apply active_held | done].
    + intros r _ Hin. by apply elem_of_nil in Hin.
    + rewrite Hq2. apply (or_terminal _ _ Hf). apply (inv_terminal l Hl).
  - rewrite Hr2, (or_results _ _ Hf). f_equal. f_equal. apply tracked_of_ext. auto.
  - rewrite Hq2. apply Hf.
  - intros r Hin. by rewrite Hc2.
Qed.

Lemma lane_finish_inv t err l :
  lane_inv l → active (l_phase l) = [t] → lane_inv (lane_finish t err l).
Proof.
  intros Hl Hact. unfold lane_finish. set (l0 := with_queue (set_running _ _ _ _) l).
  pose proof (finishReplacement_frame t err l0) as Hf.
  pose proof (finishReplacement_replacement t err l0) as Hr.
  set (l1 := finishReplacement t err l0) in *. clearbody l1.
  assert (Hheld : held (l_phase l) = [t]) by (destruct (l_phase l); cbn in *; congruence).
  assert (Hroots : roots (with_phase (Completing t err) l1) = roots l).
  { unfold roots. cbn. by rewrite Hheld, (or_pending _ _ Hf). }
  assert (Hrs : ∀ r, replacement (l_queue l) = Some r → is_Some (replacement_of l r))
    by apply (repl_is_Some l Hl).
  pose proof (roots_NoDup l Hl) as Hnd'. unfold roots in Hnd'. rewrite Hheld in Hnd'.
  destruct Hl as [Ha Hfi Hbd Hnd Ho Hrn Hrs' Hph Hw Hex Hre Hrl Hte].
  destruct (heap_inv_ext l l1 (roots l)) as [Ha' Hnd2 Ho2 Hrn2 Hrs2]; try apply Hf; [by split|].
  assert (Htk : tracked (with_phase (Completing t err) l1) = tracked_of l1 (roots l)).
  { unfold tracked. by rewrite Hroots. }
  split; rewrite ?Hroots, ?Htk; try (intros x; rewrite Htk; apply Ho2); cbn; try done.
  - by rewrite (or_pending _ _ Hf).
  - unfold phase_ok. cbn. by rewrite (or_running _ _ Hf), (or_runningTurn _ _ Hf), (or_cancel _ _ Hf).
  - intros r. rewrite Hr by apply Hrs. cbn. rewrite Hre, Hact, (or_pending _ _ Hf). cbn.
    unfold replacement_of. cbn. rewrite (or_turns _ _ Hf). cbn.
    apply NoDup_cons in Hnd' as [Hnt _]. rewrite elem_of_cons.
    split; [intros [[[->|?] ?] ?]; done|]. intros [Hin Hs]. split; [auto|]. by intros ->.
  - intros r Hx Hin. rewrite (or_pending _ _ Hf) in *. apply Hr in Hx as [Hx _]; [|apply Hrs].
    by apply Hrl.
  - apply (or_terminal _ _ Hf). done.
Qed.

Lemma lane_complete_spec t err l :
  lane_inv l → l_phase l = Completing t err →
  lane_inv (lane_complete t err l) ∧
  l_results (lane_complete t err l) = l_results l ++ answers err (batch l t).
Proof.
  intros Hl Hp. unfold lane_complete. change (completeTurn err l t) with (completeTurns [t] err l).
  assert (Hh : heap_inv l ([t] ++ pending (l_queue l))).
  { pose proof (lane_heap_inv l Hl) as H. unfold roots in H. by rewrite Hp in H. }
  destruct (complete_heap_inv _ _ err l Hh) as (_ & Hq2 & Hp2 & _ & Hr2 & _).
  remember (completeTurns [t] err l) as l2 eqn:El2.
  split; [|cbn; rewrite Hr2; cbn; by rewrite app_nil_r].
  assert (Hroots : roots (with_phase Checking l2) = pending (l_queue l)) by (unfold roots; cbn; by rewrite Hq2).
  pose proof (inv_phase l Hl) as Hph. unfold phase_ok in Hph. rewrite Hp in Hph.
  eapply (answered_inv l l (with_phase Checking l2) [t] err Hl); rewrite ?Hroots; try done; cbn; rewrite ?Hq2.
  all: try (by rewrite El2).
  - unfold roots. rewrite Hp. done.
  - pose proof (inv_fifo l Hl) as Hs. unfold roots in Hs. by apply sorted_app_r in Hs.
  - exact Hph.
  - apply (inv_bound l Hl).
  - intros r. rewrite (inv_repl l Hl), Hp. done.
  - apply (inv_repl_last l Hl).
  - apply (inv_terminal l Hl).
Qed.

(** ** The invariant of the dispatcher *)
Record disp_inv (d : TurnDispatcher) : Prop := {
  di_lane : ∀ qp sid l, lanes d !! qp = Some (sid, l) → lane_inv l;
  di_alloc : ∀ qp, is_Some (lanes d !! qp) → (qp < next_lane d)%nat;
  (* the table names exactly the queues with a live worker *)
  di_session : ∀ sid qp, sessions d !! sid = Some qp →
    ∃ l, lanes d !! qp = Some (sid, l) ∧ l_phase l ≠ Exited;
  di_live : ∀ qp sid l, lanes d !! qp = Some (sid, l) → l_phase l ≠ Exited →
    sessions d !! sid = Some qp;
  di_stop : ∀ qp sid l, stopping d = true → lanes d !! qp = Some (sid, l) →
    pending (l_queue l) = [] }.

Lemma NewTurnDispatcher_inv : disp_inv NewTurnDispatcher.
Proof. split; cbn; try done. by intros qp [? ?]. Qed.

(** Replacing a live queue by another live state of it. *)
Lemma set_lane_inv d qp sid l l' :
  disp_inv d → lanes d !! qp = Some (sid, l) → lane_inv l' →
  (l_phase l' = Exited ↔ l_phase l = Exited) →
  (stopping d = true → pending (l_queue l') = []) →
  disp_inv (set_lane qp sid l' d).
Proof.
  intros [H1 H2 H3 H4 H5] Hqp Hl' Hex Hst. split; cbn.
  - intros qp' sid' l1. rewrite lookup_insert_Some. intros [[<- [= <- <-]]|[_ ?]]; eauto.
  - intros qp' [x Hx]. rewrite lookup_insert_Some in Hx. destruct Hx as [[<- _]|[_ ?]]; eauto.
  - intros sid' qp' Hs. destruct (H3 sid' qp' Hs) as (l1 & Hl1 & Hp1).
    destruct (decide (qp = qp')) as [<-|Hne].
    + rewrite Hqp in Hl1. injection Hl1 as <- <-. exists l'. rewrite lookup_insert_eq. tauto.
    + exists l1. by rewrite lookup_insert_ne.
  - intros qp' sid' l1. rewrite lookup_insert_Some. intros [[<- [= <- <-]]|[_ ?]] Hp; [|by eauto].
    apply (H4 qp sid l); [done | tauto].
  - intros qp' sid' l1 Hs. rewrite lookup_insert_Some. intros [[<- [= <- <-]]|[_ ?]]; eauto.
Qed.

(** A worker that leaves removes exactly its own session. *)
Lemma exit_inv d qp sid l :
  disp_inv d → lanes d !! qp = Some (sid, l) → l_phase l ≠ Exited →
  pending (l_queue l) = [] → held (l_phase l) = [] →
  disp_inv (exit_worker sid qp l d).
Proof.
  intros [H1 H2 H3 H4 H5] Hqp Hp Hpe Hh.
  assert (Hsid : sessions d !! sid = Some qp) by by eapply H4.
  assert (Hl' : lane_inv (with_phase Exited l)).
  { apply lane_phase_inv; try done; [by eapply H1|]. destruct (l_phase l); done. }
  unfold exit_worker. split; cbn.
  - intros qp' sid' l1. rewrite lookup_insert_Some. intros [[<- [= <- <-]]|[_ ?]]; eauto.
  - intros qp' [x Hx]. rewrite lookup_insert_Some in Hx. destruct Hx as [[<- _]|[_ ?]]; eauto.
  - intros sid' qp'. rewrite lookup_delete_Some. intros [Hne Hs].
    destruct (H3 sid' qp' Hs) as (l1 & Hl1 & Hp1). exists l1.
    rewrite lookup_insert_ne; [done|]. intros ->. rewrite Hqp in Hl1. congruence.
  - intros qp' sid' l1. rewrite lookup_insert_Some. intros [[<- [= <- <-]]|[Hne Hx]] Hpx; [done|].
    rewrite lookup_delete_ne; [by eapply H4|]. intros <-.
    assert (sessions d !! sid = Some qp') by by eapply H4. congruence.
  - intros qp' sid' l1 Hs. rewrite lookup_insert_Some. intros [[<- [= <- <-]]|[_ ?]]; eauto.
Qed.

Lemma ensure_lane_inv d sid d' qp :
  disp_inv d → stopping d = false → ensure_lane sid d = (d', qp) →
  disp_inv d' ∧ stopping d' = false ∧ sessions d' !! sid = Some qp ∧
  ∃ l, lanes d' !! qp = Some (sid, l) ∧ l_phase l ≠ Exited ∧ lane_inv l ∧ lane_at d' qp = l.
Proof.
  intros Hd Hst. unfold ensure_lane. destruct (sessions d !! sid) as [qp0|] eqn:Hs.
  - intros [= <- <-]. destruct (di_session d Hd sid qp0 Hs) as (l & Hl & Hp).
    do 3 (split; [done|]). exists l. split; [done|]. split; [done|].
    split; [by eapply (di_lane d Hd)|]. unfold lane_at. by rewrite Hl.
  - intros [= <- <-]. destruct Hd as [H1 H2 H3 H4 H5].
    assert (Hnone : lanes d !! next_lane d = None).
    { apply eq_None_not_Some. intros Hx%H2. lia. }
    split; [|split; [done|split; [by cbn; rewrite lookup_insert_eq|]]].
    + split; cbn.
      * intros qp' sid' l1. rewrite lookup_insert_Some.
        intros [[<- [= <- <-]]|[_ ?]]; [apply newLane_inv | eauto].
      * intros qp' [x Hx]. rewrite lookup_insert_Some in Hx. destruct Hx as [[<- _]|[_ ?]]; [lia|].
        assert (qp' < next_lane d)%nat by eauto. lia.
      * intros sid' qp'. rewrite lookup_insert_Some. intros [[<- <-]|[Hne Hx]].
        -- exists newLane. by rewrite lookup_insert_eq.
        -- destruct (H3 sid' qp' Hx) as (l1 & Hl1 & Hp1). exists l1.
           rewrite lookup_insert_ne by congruence. done.
      * intros qp' sid' l1. rewrite lookup_insert_Some. intros [[<- [= <- <-]]|[_ Hx]] Hp.
        -- by rewrite lookup_insert_eq.
        -- rewrite lookup_insert_ne; [by eauto|]. intros <-.
           assert (sessions d !! sid = Some qp') by eauto. congruence.
      * congruence.
    + exists newLane. cbn. rewrite lookup_insert_eq. do 2 (split; [done|]).
      split; [apply newLane_inv|]. unfold lane_at. cbn. by rewrite lookup_insert_eq.
Qed.

Lemma admitted_phase l l' r : admitted l l' r → l_phase l' = l_phase l.
Proof. intros [ | |? ? ? ? []|? ? ? []]; done. Qed.

Lemma Enqueue_inv ctxErr ctx task d : disp_inv d → disp_inv (Enqueue ctxErr ctx task d).1.
Proof.
  intros Hd. unfold Enqueue. case_bool_decide; [done|].
  destruct (negb (tk_Run task)); [done|]. destruct (stopping d) eqn:Hst; [done|].
  destruct (ensure_lane _ d) as [d1 qp] eqn:He.
  destruct (ensure_lane_inv d _ d1 qp Hd Hst He) as (Hd1 & Hst1 & _ & l & Hl & Hp & Hli & ->).
  pose proof (lane_enqueue_admitted ctxErr (default context_Background ctx) task l Hli) as Ha.
  destruct (lane_enqueue _ _ _ l) as [l' r]. cbn [fst].
  eapply set_lane_inv; try done; [by eapply admitted_inv | by rewrite (admitted_phase _ _ _ Ha)|].
  by rewrite Hst1.
Qed.

Lemma EnqueueReplacement_inv ctx task d : disp_inv d → disp_inv (EnqueueReplacement ctx task d).1.
Proof.
  intros Hd. unfold EnqueueReplacement. do 3 (case_bool_decide; [done|]).
  destruct (negb _); [done|]. destruct (stopping d) eqn:Hst; [done|].
  destruct (ensure_lane _ d) as [d1 qp] eqn:He.
  destruct (ensure_lane_inv d _ d1 qp Hd Hst He) as (Hd1 & Hst1 & _ & l & Hl & Hp & Hli & ->).
  pose proof (lane_enqueue_replacement_admitted (default context_Background ctx)
    (trim_replacement task) l Hli) as Ha.
  destruct (lane_enqueue_replacement _ _ l) as [l' r]. cbn [fst].
  eapply set_lane_inv; try done; [by eapply admitted_inv | by rewrite (admitted_phase _ _ _ Ha)|].
  by rewrite Hst1.
Qed.

Lemma cancel_run_exited l : l_phase (cancel_run l) = Exited ↔ l_phase l = Exited.
Proof. unfold cancel_run. destruct (l_phase l) eqn:E; cbn; rewrite ?E; done. Qed.

Lemma cancel_run_queue l : l_queue (cancel_run l) = l_queue l.
Proof. unfold cancel_run. by destruct (l_phase l). Qed.

Lemma lane_cancel_inv clear l :
  lane_inv l →
  lane_inv (lane_cancel clear l).1 ∧
  (l_phase (lane_cancel clear l).1 = Exited ↔ l_phase l = Exited) ∧
  pending (l_queue (lane_cancel clear l).1) = (if clear then [] else pending (l_queue l)).
Proof.
  intros Hl. unfold lane_cancel. cbn [fst].
  destruct (drop_pending_spec l Hl) as (H1 & H2 & H3 & _).
  destruct (inFlightCancel (l_queue l)), clear.
  all: rewrite ?cancel_run_exited, ?cancel_run_queue, ?H3; split; [|split];
    auto using cancel_run_inv; done.
Qed.

Lemma lane_shutdown_inv l :
  lane_inv l →
  lane_inv (lane_shutdown l) ∧ (l_phase (lane_shutdown l) = Exited ↔ l_phase l = Exited) ∧
  pending (l_queue (lane_shutdown l)) = [].
Proof.
  intros Hl. unfold lane_shutdown. set (l1 := if inFlightCancel _ then _ else _).
  assert (Hl1 : lane_inv l1 ∧ (l_phase l1 = Exited ↔ l_phase l = Exited)).
  { subst l1. destruct (inFlightCancel _); [|done].
    split; [by apply cancel_run_inv | apply cancel_run_exited]. }
  destruct Hl1 as [Hl1 Hp1]. destruct (drop_pending_spec l1 Hl1) as (H1 & H2 & H3 & _).
  rewrite H3. done.
Qed.

Lemma CancelSession_inv sid clear d : disp_inv d → disp_inv (CancelSession sid clear d).1.
Proof.
  intros Hd. unfold CancelSession. case_bool_decide; [done|].
  destruct (sessions d !! TrimSpace sid) as [qp|] eqn:Hs; [|done].
  destruct (di_session d Hd _ _ Hs) as (l & Hl & Hp).
  assert (lane_at d qp = l) as -> by (unfold lane_at; by rewrite Hl).
  assert (Hli : lane_inv l) by by eapply (di_lane d Hd).
  destruct (lane_cancel_inv clear l Hli) as (H1 & H2 & H3).
  destruct (lane_cancel clear l) as [l' r]. cbn [fst] in *.
  eapply set_lane_inv; try done. intros Hst. rewrite H3. destruct clear; [done|].
  by eapply (di_stop d Hd).
Qed.

Lemma Shutdown_lookup d qp sid l :
  stopping d = false → lanes (Shutdown d) !! qp = Some (sid, l) ↔
  ∃ l0, lanes d !! qp = Some (sid, l0) ∧
    l = if bool_decide (sessions d !! sid = Some qp) then lane_shutdown l0 else l0.
Proof.
  intros Hst. unfold Shutdown. rewrite Hst. cbn. rewrite map_lookup_imap.
  destruct (lanes d !! qp) as [[sid0 l0]|]; cbn; [|naive_solver].
  split; [intros [= <- <-]; eauto|]. intros (l1 & [= <- <-] & ->). done.
Qed.

Lemma Shutdown_inv d : disp_inv d → disp_inv (Shutdown d).
Proof.
  intros Hd. destruct (stopping d) eqn:Hst; [unfold Shutdown; by rewrite Hst|].
  assert (Hok : ∀ qp sid l, lanes (Shutdown d) !! qp = Some (sid, l) →
    lane_inv l ∧ pending (l_queue l) = [] ∧
    ∃ l0, lanes d !! qp = Some (sid, l0) ∧ (l_phase l = Exited ↔ l_phase l0 = Exited)).
  { intros qp sid l (l0 & Hl0 & ->)%(Shutdown_lookup d qp sid l Hst).
    pose proof (di_lane d Hd _ _ _ Hl0) as Hi. case_bool_decide as Hs.
    - destruct (lane_shutdown_inv l0 Hi) as (? & ? & ?). eauto.
    - assert (Hx : l_phase l0 = Exited).
      { destruct (decide (l_phase l0 = Exited)); [done|].
        by destruct Hs; eapply (di_live d Hd). }
      split; [done|]. split; [by apply (inv_exited l0 Hi) | eauto]. }
  assert (Hses : sessions (Shutdown d) = sessions d) by (unfold Shutdown; by rewrite Hst).
  assert (Hnl : next_lane (Shutdown d) = next_lane d) by (unfold Shutdown; by rewrite Hst).
  split; rewrite ?Hses, ?Hnl.
  - intros qp sid l Hl. by apply Hok in Hl as (? & _).
  - intros qp [[sid l] Hl]. apply Hok in Hl as (_ & _ & l0 & Hl0 & _). apply (di_alloc d Hd). eauto.
  - intros sid qp Hs. destruct (di_session d Hd sid qp Hs) as (l0 & Hl0 & Hp0).
    eexists. rewrite Shutdown_lookup by done. split; [by exists l0|].
    rewrite bool_decide_true by done.
    destruct (lane_shutdown_inv l0 (di_lane d Hd _ _ _ Hl0)) as (_ & ? & _). tauto.
  - intros qp sid l Hl Hp. apply Hok in Hl as (_ & _ & l0 & Hl0 & Hx).
    apply (di_live d Hd _ _ l0); tauto.
  - intros qp sid l _ Hl. by apply Hok in Hl as (_ & ? & _).
Qed.

Lemma worker_step_inv ctxErr qp e d d' : disp_inv d → worker_step ctxErr qp e d = Some d' → disp_inv d'.
Proof.
  intros Hd. unfold worker_step. destruct (lanes d !! qp) as [[sid l]|] eqn:Hl; [|done]. cbn.
  pose proof (di_lane d Hd _ _ _ Hl) as Hli.
  assert (Hstop : stopping d = true → pending (l_queue l) = []) by (intros; by eapply (di_stop d Hd)).
  assert (Hex : ∀ t, l_phase l = t → held t = [] → t ≠ Exited → stopping d = true →
    disp_inv (exit_worker sid qp l d)).
  { intros t Ht Hh Hne Hs. subst t. eapply exit_inv; eauto. }
  destruct (l_phase l) as [| |t parent c|t parent c|t err|] eqn:Hp, e; try done.
  - destruct (stopping d) eqn:Hs; intros [= <-]; [by apply (Hex Checking)|].
    assert (Hp2 : l_phase (lane_next now l) ≠ Exited).
    { unfold lane_next. destruct (pending (l_queue l)); done. }
    eapply set_lane_inv; try done; [by apply lane_next_inv | rewrite Hp; naive_solver | by rewrite Hs].
  - destruct (wakeCh (l_queue l)); [|done]. intros [= <-].
    eapply set_lane_inv; try done; [by apply wake_inv | by rewrite Hp].
  - destruct (stopping d) eqn:Hs; [|done]. intros [= <-]. by apply (Hex Waiting).
  - unfold evictIdleSession. assert (lane_at d qp = l) as -> by (unfold lane_at; by rewrite Hl).
    destruct (negb _ || running (l_queue l) || negb _) eqn:Hc; intros [= <-].
    + eapply set_lane_inv; try done; [|by rewrite Hp].
      apply lane_phase_inv; rewrite ?Hp; done.
    + apply orb_false_iff in Hc as [Hc1 Hc2]. inv_ok.
      change (set_lane qp sid (with_phase Exited l) (remove_session sid d))
        with (exit_worker sid qp l d). eapply exit_inv; rewrite ?Hp; done.
  - assert (Hact : active (l_phase l) = [t]) by (by rewrite Hp).
    assert (Hph : ∀ e0, l_phase (lane_finish t e0 l) = Completing t e0) by done.
    destruct (run_ctx_err ctxErr parent c landed) as [e0|]; intros [= <-].
    + eapply set_lane_inv; try done; [by apply lane_finish_inv | by rewrite Hp, Hph |].
      intros Hs. unfold lane_finish. cbn. rewrite (or_pending _ _ (finishReplacement_frame _ _ _)).
      by apply Hstop.
    + eapply set_lane_inv; try done; [|by rewrite Hp].
      apply lane_phase_inv; rewrite ?Hp; done.
  - assert (Hact : active (l_phase l) = [t]) by (by rewrite Hp).
    destruct (l_turns l !! t) as [turn|]; [|done]. cbn.
    destruct (run_turn turn o) as [e0|]; [|done]. cbn. intros [= <-].
    eapply set_lane_inv; try done; [by apply lane_finish_inv | by rewrite Hp |].
    intros Hs. unfold lane_finish. cbn. rewrite (or_pending _ _ (finishReplacement_frame _ _ _)).
    by apply Hstop.
  - intros [= <-]. destruct (lane_complete_spec t err l Hli Hp) as [Hi _].
    eapply set_lane_inv; try done; [by rewrite Hp|]. intros Hs. unfold lane_complete. cbn.
    assert (Hh : heap_inv l ([t] ++ pending (l_queue l))).
    { pose proof (lane_heap_inv l Hli) as H. unfold roots in H. by rewrite Hp in H. }
    destruct (complete_heap_inv [t] _ err l Hh) as (_ & Hq & _).
    change (completeTurn err l t) with (completeTurns [t] err l). rewrite Hq. by apply Hstop.
Qed.

Lemma step_inv d d' : disp_inv d → step d d' → disp_inv d'.
Proof.
  intros Hd (ctxErr & c & Hc). destruct c; cbn in Hc; try injection Hc as <-.
  - by apply Enqueue_inv.
  - by apply EnqueueReplacement_inv.
  - by apply CancelSession_inv.
  - by apply Shutdown_inv.
  - by eapply worker_step_inv.
Qed.

Lemma reachable_disp_inv d : reachable d → disp_inv d.
Proof.
  unfold reachable. intros H. remember NewTurnDispatcher as d0 eqn:E.
  assert (Hd0 : disp_inv d0) by (subst; apply NewTurnDispatcher_inv). clear E.
  induction H as [|d1 d2 d3 Hs Hr IH]; [done|]. apply IH. by eapply step_inv.
Qed.
