(* ===== verification/TurnDispatcherSpec.v ===== *)
(** * TurnDispatcherSpec: what the turn dispatcher promises

    The correctness properties of the turn dispatcher, each a few lines on top of
    the invariant and the step lemmas, with a concrete run as witness. *)

From Stdlib Require Import ZArith Lia Ascii String Sorted.
From stdpp Require Import base numbers list gmap strings relations.
From S2P Require Import Prelude.
From S2P Require Import GoStrings.
From S2P Require Import TurnCommand.
From S2P Require Import TurnDispatcher.
From S2P Require Import TurnDispatcherProofs.
From S2P Require Import TurnDispatcherSteps.

Local Open Scope string_scope.
Local Open Scope list_scope.
Local Open Scope Z_scope.

(** ** Concrete runs used by the witnesses *)
Definition no_ctx_err : nat → option error := λ _, None.
Definition user_turn (msg reply : Z) (text : string) : SessionTurnPayload :=
  set_steering text [] msg reply "" [] None
    (mkPayload "arch" None "" "" [] (mkLocator "" "" "" "") None "" "u1" "u1" "" "" None 0 0 "" []
      0 "" (mkProgressPolicy false false false) false "" "" "" None None).
Definition task1 (msg reply : Z) (text : string) : TurnTask :=
  mkTask "s" true (Some (user_turn msg reply text)).
Definition replace1 (op hash : string) : ReplacementTask := mkReplacement "s" op hash true.

(** One turn running, one queued batch of two steering messages, a boundary. *)
Definition demo_calls : list call :=
  [ CEnqueue None (task1 1 0 "first"); CWorker 0 (EvNext 5); CWorker 0 (EvCheck false);
    CEnqueue None (task1 2 1 "second"); CEnqueue None (task1 3 1 "third");
    CReplace None (replace1 "op" "h") ].
Definition demo : TurnDispatcher :=
  default NewTurnDispatcher (run_calls no_ctx_err demo_calls NewTurnDispatcher).
Definition demo_lane : lane := lane_at demo 0.

Lemma reachable_run cs d :
  run_calls no_ctx_err cs NewTurnDispatcher = Some d → reachable d.
Proof. apply run_calls_reachable. apply rtc_refl. Qed.

Lemma demo_reachable : reachable demo.
Proof. apply (reachable_run demo_calls). vm_compute. reflexivity. Qed.

(** ** Consecutive worker steps of one queue *)
Definition worker_run (ctxErr : nat → option error) (qp : nat) (es : list worker_event)
    (d : TurnDispatcher) : option TurnDispatcher :=
  fold_left (λ od e, d ← od; worker_step ctxErr qp e d) es (Some d).

Lemma worker_run_app ctxErr qp es1 es2 d d1 d2 :
  worker_run ctxErr qp es1 d = Some d1 → worker_run ctxErr qp es2 d1 = Some d2 →
  worker_run ctxErr qp (es1 ++ es2) d = Some d2.
Proof. unfold worker_run. rewrite fold_left_app. by intros ->. Qed.

Lemma worker_run_inv ctxErr qp es d d' :
  disp_inv d → worker_run ctxErr qp es d = Some d' → disp_inv d'.
Proof.
  revert d. unfold worker_run. induction es as [|e es IH]; cbn; intros d Hd; [by intros [= <-]|].
  destruct (worker_step ctxErr qp e d) as [d1|] eqn:Hs.
  - apply IH. by eapply worker_step_inv.
  - intros H. exfalso. clear -H. induction es; cbn in *; [done|auto].
Qed.

(** The lane after a step that rewrites it. *)
Lemma lane_lookup d qp sid l : lanes (set_lane qp sid l d) !! qp = Some (sid, l).
Proof. cbn. by rewrite lookup_insert_eq. Qed.

Lemma set_lane_set_lane qp sid l1 l2 d : set_lane qp sid l2 (set_lane qp sid l1 d) = set_lane qp sid l2 d.
Proof. unfold set_lane. cbn. by rewrite insert_insert_eq. Qed.

Lemma set_lane_id d qp sid l : lanes d !! qp = Some (sid, l) → set_lane qp sid l d = d.
Proof. intros H. unfold set_lane. rewrite insert_id by done. by destruct d. Qed.

(** The turn of every worker that is in, or just after, its callback ends. *)
Lemma run_turn_returns turn err : ∃ e, run_turn turn (Returned err) = Some e.
Proof. unfold run_turn. destruct (t_replacement turn); eauto. Qed.

Lemma held_lookup l t : lane_inv l → t ∈ held (l_phase l) → ∃ turn, l_turns l !! t = Some turn.
Proof.
  intros Hl Ht. destruct (root_lookup l Hl t) as (turn & ? & _); [unfold roots; set_solver | eauto].
Qed.

(** From any program point but the [select] and the exit, at most three steps
    bring the worker back to the top of its loop, answering its turn. *)
Lemma settle ctxErr qp d sid l :
  disp_inv d → lanes d !! qp = Some (sid, l) → l_phase l ≠ Waiting → l_phase l ≠ Exited →
  ∃ es l', worker_run ctxErr qp es d = Some (set_lane qp sid l' d) ∧ (length es ≤ 3)%nat ∧
    l_phase l' = Checking ∧ pending (l_queue l') = pending (l_queue l).
Proof.
  intros Hd Hl Hw Hex. pose proof (di_lane d Hd _ _ _ Hl) as Hli.
  (* the last step *)
  assert (Hcomp : ∀ l1 t err, lane_inv l1 → l_phase l1 = Completing t err →
    worker_run ctxErr qp [EvComplete] (set_lane qp sid l1 d) =
      Some (set_lane qp sid (lane_complete t err l1) d) ∧
    pending (l_queue (lane_complete t err l1)) = pending (l_queue l1)).
  { intros l1 t err Hl1 Hp1. split.
    - cbn -[set_lane]. unfold worker_step. rewrite lane_lookup. cbn -[set_lane].
      by rewrite Hp1, set_lane_set_lane.
    - assert (Hh : heap_inv l1 ([t] ++ pending (l_queue l1))).
      { pose proof (lane_heap_inv l1 Hl1) as H. unfold roots in H. by rewrite Hp1 in H. }
      destruct (complete_heap_inv [t] _ err l1 Hh) as (_ & Hq & _).
      change (pending (l_queue (completeTurns [t] err l1)) = pending (l_queue l1)). by rewrite Hq. }
  assert (Hfin : ∀ l1 t err, pending (l_queue (lane_finish t err l1)) = pending (l_queue l1)).
  { intros l1 t err. unfold lane_finish. cbn. by rewrite (or_pending _ _ (finishReplacement_frame _ _ _)). }
  (* the last two steps *)
  assert (Hrun : ∀ l1 t parent c, lane_inv l1 → l_phase l1 = Running t parent c →
    ∃ es l', worker_run ctxErr qp es (set_lane qp sid l1 d) = Some (set_lane qp sid l' d) ∧
      (length es ≤ 2)%nat ∧ l_phase l' = Checking ∧ pending (l_queue l') = pending (l_queue l1)).
  { intros l1 t parent c Hl1 Hp1.
    destruct (held_lookup l1 t Hl1) as [turn Ht]; [rewrite Hp1; set_solver|].
    destruct (run_turn_returns turn None) as [e He].
    assert (Hi : lane_inv (lane_finish t e l1)) by (apply lane_finish_inv; [done | by rewrite Hp1]).
    destruct (Hcomp _ t e Hi eq_refl) as [Hr Hq].
    exists [EvReturn (Returned None); EvComplete], (lane_complete t e (lane_finish t e l1)).
    split; [|split; [cbn; lia | split; [done | by rewrite Hq, Hfin]]].
    apply (worker_run_app ctxErr qp [EvReturn (Returned None)] [EvComplete] _
      (set_lane qp sid (lane_finish t e l1) d)); [|done].
    cbn -[set_lane]. unfold worker_step. rewrite lane_lookup. cbn -[set_lane].
    rewrite Hp1, Ht. cbn -[set_lane]. rewrite He. cbn -[set_lane]. by rewrite set_lane_set_lane. }
  pose proof (set_lane_id d qp sid l Hl) as Hid.
  destruct (l_phase l) as [| |t parent c|t parent c|t err|] eqn:Hp; try done.
  - exists [], l. split; [by rewrite Hid|]. split; [cbn; lia | done].
  - assert (Hi : lane_inv (with_phase (Running t parent c) l)).
    { apply lane_phase_inv; rewrite ?Hp; done. }
    destruct (run_ctx_err ctxErr parent c false) as [e|] eqn:Hc.
    + assert (Hi2 : lane_inv (lane_finish t (Some e) l)) by (apply lane_finish_inv; [done | by rewrite Hp]).
      destruct (Hcomp _ t (Some e) Hi2 eq_refl) as [Hr Hq].
      exists [EvCheck false; EvComplete], (lane_complete t (Some e) (lane_finish t (Some e) l)).
      split; [|split; [cbn; lia | split; [done | by rewrite Hq, Hfin]]].
      apply (worker_run_app ctxErr qp [EvCheck false] [EvComplete] _
        (set_lane qp sid (lane_finish t (Some e) l) d)); [|done].
      cbn -[set_lane]. unfold worker_step. rewrite Hl. cbn -[set_lane run_ctx_err].
      by rewrite Hp, Hc.
    + destruct (Hrun _ t parent c Hi eq_refl) as (es & l' & Hes & Hlen & ? & ?).
      exists ([EvCheck false] ++ es), l'. split; [|split; [cbn; lia | done]].
      eapply (worker_run_app ctxErr qp [EvCheck false]); [|exact Hes].
      cbn -[set_lane]. unfold worker_step. rewrite Hl. cbn -[set_lane run_ctx_err].
      by rewrite Hp, Hc.
  - destruct (Hrun l t parent c Hli Hp) as (es & l' & Hes & ? & ? & ?). rewrite Hid in Hes. exists es, l'.
    split; [done|]. split; [lia | done].
  - destruct (Hcomp l t err Hli Hp) as [Hr Hq]. rewrite Hid in Hr.
    exists [EvComplete], (lane_complete t err l). split; [done|]. split; [cbn; lia | done].
Qed.

Lemma drain_pending ctxErr qp sid n d l :
  disp_inv d → stopping d = false → lanes d !! qp = Some (sid, l) → l_phase l = Checking →
  length (pending (l_queue l)) = n →
  ∃ es l', worker_run ctxErr qp es d = Some (set_lane qp sid l' d) ∧
    (length es ≤ 4 * n + 1)%nat ∧ l_phase l' = Waiting ∧ pending (l_queue l') = [].
Proof.
  revert d l. induction n as [|n IH]; intros d l Hd Hst Hl Hp Hn.
  - exists [EvNext 0], (lane_next 0 l). unfold lane_next.
    destruct (pending (l_queue l)) as [|t rest] eqn:Hpe; [|done].
    split; [|split; [cbn; lia | by cbn]].
    cbn -[set_lane]. unfold worker_step. rewrite Hl. cbn -[set_lane]. rewrite Hp, Hst.
    unfold lane_next. by rewrite Hpe.
  - destruct (pending (l_queue l)) as [|t rest] eqn:Hpe; [done|]. injection Hn as Hn.
    set (l1 := lane_next 0 l). set (d1 := set_lane qp sid l1 d).
    assert (Hs1 : worker_run ctxErr qp [EvNext 0] d = Some d1).
    { cbn -[set_lane]. unfold worker_step. rewrite Hl. cbn -[set_lane]. by rewrite Hp, Hst. }
    assert (Hp1 : pending (l_queue l1) = rest) by (subst l1; unfold lane_next; by rewrite Hpe).
    assert (Hph1 : ∃ c, l_phase l1 = Starting t c false) by (subst l1; unfold lane_next; rewrite Hpe; by eexists).
    destruct Hph1 as [c Hph1].
    destruct (settle ctxErr qp d1 sid l1) as (es2 & l2 & Hr2 & Hlen2 & Hp2 & Hpe2).
    { by eapply worker_run_inv. }
    { apply lane_lookup. }
    { by rewrite Hph1. }
    { by rewrite Hph1. }
    unfold d1 in Hr2. rewrite set_lane_set_lane in Hr2.
    destruct (IH (set_lane qp sid l2 d) l2) as (es3 & l3 & Hr3 & Hlen3 & Hp3 & Hpe3).
    { eapply worker_run_inv; [|exact Hr2]. by eapply worker_run_inv. }
    { done. }
    { apply lane_lookup. }
    { done. }
    { by rewrite Hpe2, Hp1. }
    rewrite set_lane_set_lane in Hr3.
    exists ([EvNext 0] ++ es2 ++ es3), l3. split; [|split; [|done]].
    + eapply worker_run_app; [exact Hs1|]. by eapply worker_run_app.
    + rewrite !length_app. cbn. lia.
Qed.

(** The worker gets to the top of its loop. *)
Lemma to_checking ctxErr qp sid d l :
  disp_inv d → lanes d !! qp = Some (sid, l) → l_phase l ≠ Exited →
  (l_phase l = Waiting → pending (l_queue l) ≠ []) →
  ∃ es l', worker_run ctxErr qp es d = Some (set_lane qp sid l' d) ∧ (length es ≤ 3)%nat ∧
    l_phase l' = Checking ∧ pending (l_queue l') = pending (l_queue l).
Proof.
  intros Hd Hl Hex Hw. destruct (decide (l_phase l = Waiting)) as [Hp|Hp]; [|by apply settle].
  exists [EvWake], (with_phase Checking (with_queue (set_wake false) l)).
  split; [|split; [cbn; lia | done]]. cbn -[set_lane]. unfold worker_step. rewrite Hl. cbn -[set_lane].
  rewrite Hp, (inv_wake l (di_lane d Hd _ _ _ Hl) Hp); auto.
Qed.

Lemma idle_all_answered l t :
  lane_inv l → l_phase l = Waiting ∨ l_phase l = Exited → pending (l_queue l) = [] →
  (t < l_next l)%nat → t ∈ (l_results l).*1.
Proof.
  intros Hl Hp Hpe Ht. apply (inv_results l Hl). apply (inv_alloc l Hl) in Ht as [turn Ht].
  exists turn. split; [done|]. destruct (t_result turn) eqn:Hr; [|done].
  assert (Hin : t ∈ tracked l) by (apply (inv_open l Hl); by exists turn).
  unfold tracked, roots in Hin. rewrite Hpe in Hin.
  destruct Hp as [Hp|Hp]; rewrite Hp in Hin; by apply elem_of_nil in Hin.
Qed.

Lemma filter_key_singleton {A} (log : list (nat * A)) t :
  NoDup log.*1 → t ∈ log.*1 → ∃ x, filter (λ r, r.1 = t) log = [(t, x)].
Proof.
  induction log as [|[t' x] log IH]; [set_solver|].
  rewrite fmap_cons. cbn [fst]. intros [Hni Hnd]%NoDup_cons Hin. destruct (decide (t' = t)) as [->|Hne].
  - exists x. rewrite filter_cons_True by done. f_equal.
    assert (Hno : ∀ r, r ∈ log → r.1 ≠ t) by (intros r Hr Heq; apply Hni; rewrite <-Heq; by apply list_elem_of_fmap_2).
    clear -Hno. induction log as [|r log IH]; [done|].
    rewrite filter_cons_False by (apply Hno; set_solver). apply IH. set_solver.
  - rewrite filter_cons_False by done. apply IH; [done|]. set_solver.
Qed.

(** ** Properties *)

(** C28. Every reachable dispatcher satisfies the invariant: each queue holds at most
    twenty pending batches in admission order, exactly the unanswered turns are
    held, each in one batch, the queue fields agree with the worker's program
    point, the replacement boundary is unique and last, a sleeping worker with
    work has its wake-up signal, and the table names exactly the queues that have
    a live worker. *)
Theorem dispatcher_invariant d : reachable d → disp_inv d.
Proof. apply reachable_disp_inv. Qed.

(** C13. A turn accepted by a queue is either still held by exactly one batch and
    unanswered, or its result channel received exactly one value: results are
    neither lost nor sent twice. *)
Theorem turn_answered_once d qp sid l t :
  reachable d → lanes d !! qp = Some (sid, l) → (t < l_next l)%nat →
  (t ∈ tracked l ∧ NoDup (tracked l) ∧ t ∉ (l_results l).*1) ∨
  (t ∉ tracked l ∧ ∃ err, filter (λ r, r.1 = t) (l_results l) = [(t, err)]).
Proof.
  intros Hd Hl Ht. pose proof (di_lane d (reachable_disp_inv d Hd) _ _ _ Hl) as Hi.
  apply (inv_alloc l Hi) in Ht as [turn Ht]. destruct (t_result turn) eqn:Hr.
  - left. assert (is_open l t) as Ho by (by exists turn). split; [by apply (inv_open l Hi)|].
    split; [apply (inv_nodup l Hi)|]. intros (x & ? & ?)%(inv_results l Hi). congruence.
  - right. split; [intros (x & ? & ?)%(inv_open l Hi); congruence|].
    apply filter_key_singleton; [apply (inv_results_nodup l Hi)|].
    apply (inv_results l Hi). by exists turn.
Qed.

(** C29. No accepted turn is stuck: from any reachable state of a running dispatcher the
    session's worker, with callbacks that return, answers every turn it holds
    within four steps per queued batch and a constant. *)
Theorem queue_drains ctxErr d qp sid l :
  reachable d → stopping d = false → lanes d !! qp = Some (sid, l) → l_phase l ≠ Exited →
  ∃ es l', worker_run ctxErr qp es d = Some (set_lane qp sid l' d) ∧
    (length es ≤ 4 * length (pending (l_queue l)) + 4)%nat ∧
    tracked l' = [] ∧ ∀ t, (t < l_next l')%nat → t ∈ (l_results l').*1.
Proof.
  intros Hr Hst Hl Hex. pose proof (reachable_disp_inv d Hr) as Hd.
  destruct (decide (l_phase l = Waiting ∧ pending (l_queue l) = [])) as [[Hp Hpe]|Hne].
  { exists [], l. rewrite (set_lane_id d qp sid l Hl). split; [done|]. split; [cbn; lia|].
    split; [unfold tracked, roots; by rewrite Hp, Hpe|]. intros t.
    apply idle_all_answered; auto. by eapply (di_lane d Hd). }
  destruct (to_checking ctxErr qp sid d l Hd Hl Hex ltac:(tauto)) as (es1 & l1 & H1 & Hlen1 & Hp1 & Hpe1).
  assert (Hd1 : disp_inv (set_lane qp sid l1 d)) by by eapply worker_run_inv.
  destruct (drain_pending ctxErr qp sid _ (set_lane qp sid l1 d) l1 Hd1 Hst
    (lane_lookup _ _ _ _) Hp1 eq_refl) as (es2 & l2 & H2 & Hlen2 & Hp2 & Hpe2).
  pose proof (worker_run_app _ _ _ _ _ _ _ H1 H2) as H12. rewrite set_lane_set_lane in H12, H2.
  exists (es1 ++ es2), l2. split; [done|]. split; [rewrite length_app, <-Hpe1; lia|].
  assert (Hi2 : lane_inv l2).
  { eapply (di_lane (set_lane qp sid l2 d)); [|apply lane_lookup]. by eapply worker_run_inv. }
  split; [unfold tracked, roots; by rewrite Hp2, Hpe2|]. intros t. apply idle_all_answered; auto.
Qed.

(** Shutdown terminates: once the dispatcher is stopping every worker that has not
    left leaves within four of its own steps, with every turn it held answered. *)
Theorem shutdown_drains ctxErr d qp sid l :
  reachable d → stopping d = true → lanes d !! qp = Some (sid, l) → l_phase l ≠ Exited →
  ∃ es d' l', worker_run ctxErr qp es d = Some d' ∧ (length es ≤ 4)%nat ∧
    lanes d' !! qp = Some (sid, l') ∧ l_phase l' = Exited ∧ sessions d' !! sid = None ∧
    ∀ t, (t < l_next l')%nat → t ∈ (l_results l').*1.
Proof.
  intros Hr Hst Hl Hex. pose proof (reachable_disp_inv d Hr) as Hd.
  assert (Hpe : pending (l_queue l) = []) by by eapply (di_stop d Hd).
  assert (Hlast : ∀ d1 l1, disp_inv d1 → stopping d1 = true → lanes d1 !! qp = Some (sid, l1) →
    l_phase l1 = Waiting ∨ l_phase l1 = Checking →
    ∃ e, worker_run ctxErr qp [e] d1 = Some (exit_worker sid qp l1 d1)).
  { intros d1 l1 Hd1 Hs1 Hl1 [Hp|Hp]; [exists EvStop | exists (EvNext 0)];
      cbn -[exit_worker set_lane]; unfold worker_step; rewrite Hl1; cbn -[exit_worker set_lane];
      by rewrite Hp, Hs1. }
  assert (Hend : ∀ d1 l1, disp_inv (exit_worker sid qp l1 d1) →
    ∃ l', lanes (exit_worker sid qp l1 d1) !! qp = Some (sid, l') ∧ l_phase l' = Exited ∧
      sessions (exit_worker sid qp l1 d1) !! sid = None ∧
      ∀ t, (t < l_next l')%nat → t ∈ (l_results l').*1).
  { intros d1 l1 Hdx. pose proof (lane_lookup (remove_session sid d1) qp sid (with_phase Exited l1)) as Hlx.
    exists (with_phase Exited l1). split; [done|]. split; [done|].
    split; [cbn; by rewrite lookup_delete_eq|]. pose proof (di_lane _ Hdx _ _ _ Hlx) as Hi.
    intros t. apply idle_all_answered; auto. by apply (inv_exited _ Hi). }
  destruct (decide (l_phase l = Waiting)) as [Hp|Hp].
  - destruct (Hlast d l Hd Hst Hl (or_introl Hp)) as [e He].
    destruct (Hend d l) as (l' & ?); [by eapply worker_run_inv|].
    exists [e], (exit_worker sid qp l d), l'. split; [done|]. split; [cbn; lia | done].
  - destruct (settle ctxErr qp d sid l Hd Hl Hp Hex) as (es1 & l1 & H1 & Hlen1 & Hp1 & Hpe1).
    assert (Hd1 : disp_inv (set_lane qp sid l1 d)) by by eapply worker_run_inv.
    destruct (Hlast _ l1 Hd1 Hst (lane_lookup _ _ _ _) (or_intror Hp1)) as [e He].
    destruct (Hend (set_lane qp sid l1 d) l1) as (l' & ?); [by eapply worker_run_inv|].
    exists (es1 ++ [e]), (exit_worker sid qp l1 (set_lane qp sid l1 d)), l'.
    split; [by eapply worker_run_app|]. split; [rewrite length_app; cbn; lia | done].
Qed.

(** A session has at most one live worker, hence at most one turn in its
    callback: two queues created for the same session are never both live. *)
Theorem one_worker_per_session d qp1 qp2 sid l1 l2 :
  reachable d → lanes d !! qp1 = Some (sid, l1) → lanes d !! qp2 = Some (sid, l2) →
  l_phase l1 ≠ Exited → l_phase l2 ≠ Exited → qp1 = qp2.
Proof.
  intros Hd%reachable_disp_inv H1 H2 Hp1 Hp2.
  pose proof (di_live d Hd _ _ _ H1 Hp1). pose proof (di_live d Hd _ _ _ H2 Hp2). congruence.
Qed.

(** Turns run in admission order: the turn the worker takes was admitted before
    every batch that stays queued, and it is the only one in flight. *)
Theorem turns_run_in_order ctxErr now d d' qp sid l l' t parent c :
  reachable d → worker_step ctxErr qp (EvNext now) d = Some d' →
  lanes d !! qp = Some (sid, l) → lanes d' !! qp = Some (sid, l') →
  l_phase l' = Starting t parent c →
  pending (l_queue l) = t :: pending (l_queue l') ∧
  Forall (λ t', (t < t')%nat) (pending (l_queue l')) ∧
  held (l_phase l) = [] ∧ running (l_queue l') = true ∧ runningTurn (l_queue l') = Some t ∧
  c = false.
Proof.
  intros Hd%reachable_disp_inv Hs Hl Hl' Hp'. pose proof (worker_step_inv _ _ _ _ _ Hd Hs) as Hd'.
  pose proof (di_lane d' Hd' _ _ _ Hl') as Hi'.
  unfold worker_step in Hs. rewrite Hl in Hs. cbn -[set_lane exit_worker] in Hs.
  destruct (l_phase l) eqn:Hp; try done. destruct (stopping d); injection Hs as <-.
  { unfold exit_worker in Hl'. rewrite lane_lookup in Hl'. injection Hl' as <-. done. }
  rewrite lane_lookup in Hl'. injection Hl' as <-. unfold lane_next in *.
  destruct (pending (l_queue l)) as [|t0 rest] eqn:Hpe; [done|].
  cbn in Hp'. injection Hp' as -> _ <-. cbn.
  pose proof (inv_fifo _ Hi') as Hsort. unfold roots in Hsort. cbn in Hsort.
  inversion_clear Hsort as [|? ? _ Hall]. done.
Qed.

(** The dispatcher's entry points on a session with a live queue. *)
Lemma Enqueue_live ctxErr ctx task d qp sid l :
  lanes d !! qp = Some (sid, l) → sessions d !! sid = Some qp → stopping d = false →
  TrimSpace (tk_SessionID task) = sid → sid ≠ "" → tk_Run task = true →
  Enqueue ctxErr ctx task d =
    (set_lane qp sid (lane_enqueue ctxErr (default context_Background ctx) task l).1 d,
     '(ch, pos) ← (lane_enqueue ctxErr (default context_Background ctx) task l).2; Ok (qp, ch, pos)).
Proof.
  intros Hl Hs Hst Hsid Hne Hrun. unfold Enqueue. rewrite Hsid, bool_decide_false by done.
  rewrite Hrun, Hst. cbn [negb]. unfold ensure_lane. rewrite Hs.
  unfold lane_at. rewrite Hl. by destruct (lane_enqueue _ _ _ _) as [l' r].
Qed.

Lemma EnqueueReplacement_live ctx task d qp sid l :
  lanes d !! qp = Some (sid, l) → sessions d !! sid = Some qp → stopping d = false →
  TrimSpace (rt_SessionID task) = sid → sid ≠ "" → TrimSpace (rt_OperationID task) ≠ "" →
  TrimSpace (rt_InputHash task) ≠ "" → rt_Run task = true →
  EnqueueReplacement ctx task d =
    let '(l', r) := lane_enqueue_replacement (default context_Background ctx) (trim_replacement task) l in
    (set_lane qp sid l' d, '(ch, pos) ← r; Ok (qp, ch, pos)).
Proof.
  intros Hl Hs Hst Hsid Hne Ho Hh Hrun. unfold EnqueueReplacement, trim_replacement.
  cbn [rt_SessionID rt_OperationID rt_InputHash rt_Run].
  rewrite Hsid, !bool_decide_false by done.
  rewrite Hrun, Hst. cbn [negb]. unfold ensure_lane. rewrite Hs. unfold lane_at. by rewrite Hl.
Qed.

(** The heap seen by the duplicate check. *)
Lemma batchContains_alloc l tn r key :
  lane_inv l → r ∈ roots l →
  batchContainsConstituent (alloc tn l).1 r key = batchContainsConstituent l r key.
Proof.
  intros Hl Hr. unfold batchContainsConstituent. rewrite (alloc_lookup_root l Hl tn r Hr).
  destruct (l_turns l !! r) as [turn|] eqn:Ht; [|done]. f_equal. f_equal.
  assert (Hc : ∀ c, c ∈ t_constituents turn → key_of (alloc tn l).1 c = key_of l c).
  { intros c Hc. assert (Hct : c ∈ tracked l).
    { apply elem_of_tracked_of. exists r. split; [done|]. right. unfold constituents_of. by rewrite Ht. }
    apply (inv_open l Hl) in Hct as (x & Hx & _).
    assert (is_Some (l_turns l !! c)) as Hlt%(inv_alloc l Hl) by eauto.
    unfold key_of. cbn. by rewrite lookup_insert_ne by lia. }
  induction (t_constituents turn) as [|c cs IH]; [done|]. cbn [existsb].
  rewrite Hc by set_solver. f_equal. apply IH. set_solver.
Qed.

Definition live_batch (l : lane) (key : string) : Prop :=
  ∃ r, r ∈ active (l_phase l) ++ pending (l_queue l) ∧ batchContainsConstituent l r key = true.

(** The running turn of the duplicate check is the active one. *)
Lemma running_is_active l :
  lane_inv l → (if running (l_queue l) then runningTurn (l_queue l) else None) = head (active (l_phase l)).
Proof.
  intros Hl. pose proof (inv_phase l Hl) as Hp. unfold phase_ok in Hp.
  destruct (l_phase l); cbn; destruct Hp as (-> & Hrt & _); by rewrite ?Hrt.
Qed.

Lemma attach_duplicate_None l tn key :
  lane_inv l → attach_duplicate (alloc tn l).1 (l_next l) key = None ↔ ¬ live_batch l key.
Proof.
  intros Hl. unfold attach_duplicate, live_batch.
  change (l_queue (alloc tn l).1) with (l_queue l). rewrite running_is_active by done.
  assert (Hbc : ∀ r, r ∈ active (l_phase l) ++ pending (l_queue l) →
    batchContainsConstituent (alloc tn l).1 r key = batchContainsConstituent l r key).
  { intros r Hr. apply batchContains_alloc; [done|]. by apply active_roots. }
  assert (Hp : find_index (λ t, batchContainsConstituent (alloc tn l).1 t key) 0 (pending (l_queue l)) = None
    ↔ ∀ t, t ∈ pending (l_queue l) → batchContainsConstituent l t key = false).
  { rewrite find_index_None. split; intros H t Ht; [rewrite <-Hbc by set_solver | rewrite Hbc by set_solver]; auto. }
  assert (Hact : active (l_phase l) = [] ∨ ∃ r, active (l_phase l) = [r]).
  { destruct (l_phase l); cbn; eauto. }
  destruct Hact as [Ha|[r Ha]]; rewrite Ha in *; cbn [head app mbind option_bind].
  - destruct (find_index _ _ _) as [[i t]|]; split; try done.
    + intros Hn. assert (Hx : Some (i, t) = None); [|done]. apply Hp. intros t' Ht'.
      apply not_true_is_false. intros Hk. apply Hn. eauto.
    + intros _ (t & Ht & Hk). rewrite (proj1 Hp eq_refl) in Hk; done.
  - rewrite Hbc by set_solver. destruct (batchContainsConstituent l r key) eqn:Hk.
    + split; [done|]. intros Hn. exfalso. apply Hn. exists r. split; [set_solver | done].
    + destruct (find_index _ _ _) as [[i t]|]; split; try done.
      * intros Hn. assert (Hx : Some (i, t) = None); [|done]. apply Hp. intros t' Ht'.
        apply not_true_is_false. intros Hk'. apply Hn. exists t'. split; [set_solver | done].
      * intros _ (t & Ht & Hk'). apply elem_of_cons in Ht as [->|Ht]; [congruence|].
        rewrite (proj1 Hp eq_refl) in Hk'; done.
Qed.

(** The replacement boundary is exclusive and last: while a replacement is queued
    or running every ordinary turn that is not a redelivery is refused with the
    pending error and changes nothing, and a queued boundary is the end of the
    queue, so that everything accepted before it runs first. *)
Theorem replacement_is_exclusive ctxErr ctx task d qp sid l r :
  reachable d → lanes d !! qp = Some (sid, l) → sessions d !! sid = Some qp →
  stopping d = false → replacement (l_queue l) = Some r →
  TrimSpace (tk_SessionID task) = sid → sid ≠ "" → tk_Run task = true →
  turnDedupeKey (tk_SessionTurn task) = "" ∨ ¬ live_batch l (turnDedupeKey (tk_SessionTurn task)) →
  Enqueue ctxErr ctx task d = (d, Err ErrTurnReplacementPending) ∧
  (r ∈ pending (l_queue l) → ∃ earlier, pending (l_queue l) = earlier ++ [r]) ∧
  (r ∉ pending (l_queue l) → active (l_phase l) = [r]).
Proof.
  intros Hd%reachable_disp_inv Hl Hs Hst Hr Hsid Hne Hrun Hkey.
  pose proof (di_lane d Hd _ _ _ Hl) as Hi. split; [|split].
  - rewrite (Enqueue_live _ _ _ _ _ _ _ Hl Hs Hst Hsid Hne Hrun).
    assert (Hle : lane_enqueue ctxErr (default context_Background ctx) task l =
      (l, Err ErrTurnReplacementPending)).
    { unfold lane_enqueue. set (tn := mkTurn _ _ _ _ _).
      rewrite (surjective_pairing (alloc tn l)). change (alloc tn l).2 with (l_next l).
      change (l_queue (alloc tn l).1) with (l_queue l).
      assert (Hno : (if bool_decide (turnDedupeKey (tk_SessionTurn task) = "") then None
        else attach_duplicate (alloc tn l).1 (l_next l) (turnDedupeKey (tk_SessionTurn task))) = None).
      { case_bool_decide; [done|]. apply attach_duplicate_None; [done|]. tauto. }
      rewrite Hno, bool_decide_true by (by rewrite Hr). done. }
    rewrite Hle. cbn [fst snd]. by rewrite (set_lane_id _ _ _ _ Hl).
  - intros Hin. pose proof (inv_repl_last l Hi r Hr Hin) as Hlast.
    by apply last_Some in Hlast.
  - intros Hin. apply (inv_repl l Hi) in Hr as [Hx _]. destruct (l_phase l); cbn in *; set_solver.
Qed.

(** A redelivery never queues a second run: a turn whose dedupe key is held by the
    running or a queued batch is attached to such a batch and shares its answer,
    even when the queue is full or a replacement is pending, and the queue itself
    is unchanged. *)
Theorem duplicate_turn_joins_batch ctxErr ctx task d qp sid l :
  reachable d → lanes d !! qp = Some (sid, l) → sessions d !! sid = Some qp →
  stopping d = false → TrimSpace (tk_SessionID task) = sid → sid ≠ "" → tk_Run task = true →
  turnDedupeKey (tk_SessionTurn task) ≠ "" → live_batch l (turnDedupeKey (tk_SessionTurn task)) →
  ∃ l' b pos,
    Enqueue ctxErr ctx task d = (set_lane qp sid l' d, Ok (qp, ChTurn (l_next l), pos)) ∧
    l_queue l' = l_queue l ∧ l_phase l' = l_phase l ∧ l_results l' = l_results l ∧
    b ∈ active (l_phase l) ++ pending (l_queue l) ∧
    constituents_of l' b = constituents_of l b ++ [l_next l].
Proof.
  intros Hd%reachable_disp_inv Hl Hs Hst Hsid Hne Hrun Hkey Hlive.
  pose proof (di_lane d Hd _ _ _ Hl) as Hi.
  rewrite (Enqueue_live _ _ _ _ _ _ _ Hl Hs Hst Hsid Hne Hrun).
  set (c := default context_Background ctx).
  set (tn := mkTurn c (tk_SessionTurn task) true [] None).
  destruct (attach_duplicate (alloc tn l).1 (l_next l) (turnDedupeKey (tk_SessionTurn task)))
    as [[l' pos]|] eqn:Ha; [|by apply attach_duplicate_None in Ha].
  assert (Hle : lane_enqueue ctxErr c task l = (l', Ok (ChTurn (l_next l), pos))).
  { unfold lane_enqueue. fold tn. rewrite (surjective_pairing (alloc tn l)).
    change (alloc tn l).2 with (l_next l). rewrite bool_decide_false by done. by rewrite Ha. }
  rewrite Hle. apply attach_duplicate_joined in Ha as (b & Hb & Hj); try done.
  exists l', b, pos. destruct Hj as [Hq Hp Hn Hres _ (tb & tb' & Htb & Htb' & _ & Hbc & _) _].
  do 5 (split; [done|]). unfold constituents_of. by rewrite Htb, Htb'.
Qed.

(** What the replay memory holds after the boundary has run. *)
Lemma finish_remembers l t turn tk err :
  l_turns l !! t = Some turn → t_replacement turn = Some tk → replacement (l_queue l) = Some t →
  terminalReplacements (l_queue (lane_finish t err l)) !! rt_OperationID tk =
    Some (mkReplacementResult (rt_InputHash tk) (boundedReplacementError err)).
Proof.
  intros Ht Htk Hr. unfold lane_finish, finishReplacement. cbn. rewrite Ht, Htk. cbn.
  rewrite bool_decide_true by done. cbn. unfold rememberReplacementResult. cbn.
  destruct (terminalReplacements (l_queue l) !! rt_OperationID tk); cbn; [by rewrite lookup_insert_eq|].
  destruct (terminalOrder (l_queue l)); cbn; [by rewrite lookup_insert_eq|].
  destruct (_ =? _); cbn; by rewrite lookup_insert_eq.
Qed.

(** A finished replacement is replayed, not rerun: once its callback has returned or
    panicked, the same operation with the same input is answered at once with
    the bounded error, the same operation with another input is a conflict, and
    neither changes the dispatcher. *)
Theorem replacement_replay ctxErr ctx o task d d' qp sid l t parent c turn tk :
  reachable d → stopping d = false → lanes d !! qp = Some (sid, l) →
  l_phase l = Running t parent c → l_turns l !! t = Some turn → t_replacement turn = Some tk →
  worker_step ctxErr qp (EvReturn o) d = Some d' →
  TrimSpace (rt_SessionID task) = sid → sid ≠ "" → rt_Run task = true →
  TrimSpace (rt_OperationID task) = rt_OperationID tk → rt_OperationID tk ≠ "" →
  TrimSpace (rt_InputHash task) ≠ "" →
  EnqueueReplacement ctx task d' =
    (d', if bool_decide (TrimSpace (rt_InputHash task) = rt_InputHash tk)
         then Ok (qp, ChDone (match o with
                              | Returned err => boundedReplacementError err
                              | Panicked => Some ErrTurnReplacementFailed
                              end), 0)
         else Err ErrTurnReplacementConflict).
Proof.
  intros Hr Hst Hl Hp Ht Htk Hs Hsid Hne Hrun Hop Hopne Hh.
  pose proof (reachable_disp_inv d Hr) as Hd. pose proof (di_lane d Hd _ _ _ Hl) as Hi.
  assert (Hrep : replacement (l_queue l) = Some t).
  { apply (inv_repl l Hi). rewrite Hp. split; [set_solver|]. unfold replacement_of. rewrite Ht. cbn. eauto. }
  assert (Hsess : sessions d !! sid = Some qp) by (eapply (di_live d Hd); [done | by rewrite Hp]).
  unfold worker_step in Hs. rewrite Hl in Hs. cbn -[set_lane] in Hs. rewrite Hp, Ht in Hs.
  cbn -[set_lane] in Hs. unfold run_turn in Hs. rewrite Htk in Hs.
  set (err := match o with Returned err => boundedReplacementError err
              | Panicked => Some ErrTurnReplacementFailed end).
  assert (Hd' : d' = set_lane qp sid (lane_finish t err l) d) by (by destruct o; injection Hs as <-).
  assert (Hbb : boundedReplacementError err = err).
  { subst err. destruct o as [[e|]|]; cbn; [|done|done]. by repeat case_match. }
  rewrite (EnqueueReplacement_live ctx task d' qp sid (lane_finish t err l)); try done.
  2: { rewrite Hd'. apply lane_lookup. }
  2: { by rewrite Hd'. }
  2: { by rewrite Hd'. }
  2: { by rewrite Hop. }
  unfold lane_enqueue_replacement. cbn [trim_replacement rt_OperationID rt_InputHash]. rewrite Hop.
  rewrite (finish_remembers l t turn tk err Ht Htk Hrep). cbn [rr_inputHash rr_err]. rewrite Hbb.
  rewrite (bool_decide_ext (TrimSpace (rt_InputHash task) = rt_InputHash tk)
    (rt_InputHash tk = TrimSpace (rt_InputHash task))) by done.
  assert (Hsame : set_lane qp sid (lane_finish t err l) d' = d') by (rewrite Hd'; apply set_lane_set_lane).
  case_bool_decide; by rewrite Hsame.
Qed.

Definition remember_all (rs : list (string * replacementResult)) (q : sessionTurnQueue) : sessionTurnQueue :=
  fold_left (λ q '(op, r), rememberReplacementResult op r q) rs q.

(** The entry survives while fewer than the limit of newer entries follow it. *)
Definition recent (op : string) (r : replacementResult) (n : nat) (q : sessionTurnQueue) : Prop :=
  terminal_ok q ∧ terminalReplacements q !! op = Some r ∧
  ∃ older newer, terminalOrder q = older ++ op :: newer ∧ (length newer ≤ n)%nat.

Lemma recent_remember op r n q op' r' :
  recent op r n q → op' ≠ op → (n < 31)%nat → recent op r (S n) (rememberReplacementResult op' r' q).
Proof.
  intros (Hok & Hlk & older & newer & Ho & Hlen) Hne Hn.
  split; [by apply remember_ok|]. unfold rememberReplacementResult.
  destruct (terminalReplacements q !! op') eqn:Hop'.
  { cbn. rewrite lookup_insert_ne by done. split; [done|]. exists older, newer. split; [done | lia]. }
  rewrite Ho. destruct older as [|o1 older]; cbn [app].
  - assert (Hfull : Zlength (op :: newer) =? terminalReplacementLimit = false).
    { apply Z.eqb_neq. unfold Zlength, terminalReplacementLimit. cbn. lia. }
    rewrite Hfull. cbn. rewrite lookup_insert_ne by done. split; [done|].
    exists [], (newer ++ [op']). split; [done|]. rewrite length_app. cbn. lia.
  - assert (Ho1 : o1 ≠ op).
    { destruct Hok as (Hnd & _). rewrite Ho in Hnd. intros ->. apply NoDup_cons in Hnd. set_solver. }
    destruct (_ =? _); cbn; rewrite lookup_insert_ne by done.
    + rewrite lookup_delete_ne by done. split; [done|]. exists older, (newer ++ [op']).
      rewrite <-app_assoc. split; [done|]. rewrite length_app. cbn. lia.
    + split; [done|]. exists (o1 :: older), (newer ++ [op']). cbn. rewrite <-app_assoc.
      split; [done|]. rewrite length_app. cbn. lia.
Qed.

(** The replay window: the result of a replacement remembered for the first time
    stays available until at least thirty-one other operations have finished, and
    the memory never holds more than thirty-two. *)
Theorem replay_window op r rs q :
  terminal_ok q → terminalReplacements q !! op = None → op ∉ rs.*1 → (length rs ≤ 31)%nat →
  let q' := remember_all rs (rememberReplacementResult op r q) in
  terminalReplacements q' !! op = Some r ∧ Zlength (terminalOrder q') ≤ terminalReplacementLimit.
Proof.
  intros Hok Hnew Hni Hlen.
  assert (Hstart : recent op r 0 (rememberReplacementResult op r q)).
  { split; [by apply remember_ok|]. unfold rememberReplacementResult. rewrite Hnew.
    destruct (terminalOrder q) as [|o1 rest] eqn:Ho; cbn.
    - rewrite lookup_insert_eq. split; [done|]. by exists [], [].
    - destruct (_ =? _); cbn; rewrite lookup_insert_eq; (split; [done|]);
        [exists rest, [] | exists (o1 :: rest), []]; split; (done || cbn; lia). }
  assert (Hall : ∀ rs n q0, recent op r n q0 → op ∉ rs.*1 → (n + length rs ≤ 31)%nat →
    recent op r (n + length rs) (remember_all rs q0)).
  { clear. unfold remember_all. induction rs as [|[op' r'] rs IH]; intros n q0 Hq0 Hni Hlen; cbn.
    - by rewrite Nat.add_0_r.
    - replace (n + S (length rs))%nat with (S n + length rs)%nat by lia. cbn in Hni, Hlen.
      apply IH; [|set_solver|lia]. apply recent_remember; [done | set_solver | lia]. }
  destruct (Hall rs 0%nat _ Hstart Hni) as ((_ & Hle & _) & Hlk & _); [lia|]. done.
Qed.

(** ** What one call leaves alone *)
Definition call_session (c : call) (d : TurnDispatcher) : option string :=
  match c with
  | CEnqueue _ task => Some (TrimSpace (tk_SessionID task))
  | CReplace _ task => Some (TrimSpace (rt_SessionID task))
  | CCancel sid _ => Some (TrimSpace sid)
  | CShutdown => None
  | CWorker qp _ => fst <$> lanes d !! qp
  end.

(** [d'] agrees with [d] on every other session than [sid0]. *)
Definition agree_elsewhere (sid0 : string) (d d' : TurnDispatcher) : Prop :=
  ∀ qp sid l, sid ≠ sid0 → lanes d !! qp = Some (sid, l) →
    lanes d' !! qp = Some (sid, l) ∧ sessions d' !! sid = sessions d !! sid.

Lemma agree_refl sid0 d : agree_elsewhere sid0 d d.
Proof. done. Qed.

Lemma agree_trans sid0 d1 d2 d3 :
  agree_elsewhere sid0 d1 d2 → agree_elsewhere sid0 d2 d3 → agree_elsewhere sid0 d1 d3.
Proof.
  intros H1 H2 qp sid l Hne Hl. destruct (H1 qp sid l Hne Hl) as [Ha Hb].
  destruct (H2 qp sid l Hne Ha) as [Hc Hd]. by rewrite Hd.
Qed.

Lemma agree_set_lane sid0 d qp0 l0 :
  (∀ sid l, lanes d !! qp0 = Some (sid, l) → sid = sid0) →
  agree_elsewhere sid0 d (set_lane qp0 sid0 l0 d).
Proof.
  intros H qp sid l Hne Hl. cbn. split; [|done]. rewrite lookup_insert_ne; [done|].
  intros ->. by apply H in Hl.
Qed.

Lemma agree_remove sid0 d : agree_elsewhere sid0 d (remove_session sid0 d).
Proof. intros qp sid l Hne Hl. cbn. split; [done|]. by rewrite lookup_delete_ne. Qed.

Lemma agree_ensure sid0 d : disp_inv d → agree_elsewhere sid0 d (ensure_lane sid0 d).1.
Proof.
  intros Hd qp sid l Hne Hl. unfold ensure_lane. destruct (sessions d !! sid0); [done|]. cbn.
  rewrite !lookup_insert_ne; [done | done |]. intros <-.
  assert (next_lane d < next_lane d)%nat by (apply (di_alloc d Hd); eauto). lia.
Qed.

Lemma worker_step_agree ctxErr qp e d d' sid0 l0 :
  lanes d !! qp = Some (sid0, l0) → worker_step ctxErr qp e d = Some d' → agree_elsewhere sid0 d d'.
Proof.
  intros Hl. unfold worker_step. rewrite Hl. cbn -[set_lane exit_worker].
  assert (Hset : ∀ l1, agree_elsewhere sid0 d (set_lane qp sid0 l1 d)).
  { intros l1. apply agree_set_lane. rewrite Hl. by intros ? ? [= <- <-]. }
  assert (Hset2 : ∀ l1, agree_elsewhere sid0 d (set_lane qp sid0 l1 (remove_session sid0 d))).
  { intros l1. eapply agree_trans; [apply agree_remove|]. apply agree_set_lane. cbn. rewrite Hl.
    by intros ? ? [= <- <-]. }
  unfold evictIdleSession, exit_worker. intros Hs.
  destruct (l_phase l0), e; try done.
  - destruct (stopping d); injection Hs as <-; auto.
  - destruct (wakeCh _); [|done]. injection Hs as <-. auto.
  - destruct (stopping d); [|done]. injection Hs as <-. auto.
  - destruct (_ || _); injection Hs as <-; auto.
  - destruct (run_ctx_err _ _ _ _); injection Hs as <-; auto.
  - destruct (l_turns l0 !! t); [|done]. cbn -[set_lane] in Hs.
    destruct (run_turn _ _); [|done]. injection Hs as <-. auto.
  - injection Hs as <-. auto.
Qed.

(** Sessions do not interfere: a call or worker step for one session leaves every
    other session's queue, turns, answers and table entry as they were. *)
Theorem sessions_are_isolated ctxErr c d d' qp sid l :
  reachable d → run_call ctxErr c d = Some d' → c ≠ CShutdown →
  lanes d !! qp = Some (sid, l) → call_session c d ≠ Some sid →
  lanes d' !! qp = Some (sid, l) ∧ sessions d' !! sid = sessions d !! sid.
Proof.
  intros Hd%reachable_disp_inv Hc Hsh Hl Hne.
  assert (Hlane : ∀ d1 sid0 qp0, sessions d1 !! sid0 = Some qp0 → disp_inv d1 →
    ∀ s0 l0, lanes d1 !! qp0 = Some (s0, l0) → s0 = sid0).
  { intros d1 sid0 qp0 Hs Hd1 s0 l0 H0. destruct (di_session d1 Hd1 _ _ Hs) as (l1 & H1 & _). congruence. }
  assert (Hens : ∀ sid0 qp0 d1 l1, stopping d = false → ensure_lane sid0 d = (d1, qp0) →
    agree_elsewhere sid0 d (set_lane qp0 sid0 l1 d1)).
  { intros sid0 qp0 d1 l1 Hst He. pose proof (agree_ensure sid0 d Hd) as Ha. rewrite He in Ha.
    destruct (ensure_lane_inv d sid0 d1 qp0 Hd Hst He) as (Hd1 & _ & Hs1 & _).
    eapply agree_trans; [exact Ha|]. apply agree_set_lane. eauto. }
  destruct c as [ctx task|ctx task|s clear| |qp0 e]; cbn in Hc, Hne; [| | | done |].
  - injection Hc as <-. unfold Enqueue. case_bool_decide; [done|].
    destruct (negb _); [done|]. destruct (stopping d) eqn:Hst; [done|].
    destruct (ensure_lane _ d) as [d1 qp0] eqn:He. destruct (lane_enqueue _ _ _ _) as [l1 r].
    eapply (Hens _ qp0 d1 l1 eq_refl He); [congruence | done].
  - injection Hc as <-. unfold EnqueueReplacement. do 3 (case_bool_decide; [done|]).
    destruct (negb _); [done|]. destruct (stopping d) eqn:Hst; [done|].
    destruct (ensure_lane _ d) as [d1 qp0] eqn:He. destruct (lane_enqueue_replacement _ _ _) as [l1 r].
    eapply (Hens _ qp0 d1 l1 eq_refl He); [cbn; congruence | done].
  - injection Hc as <-. unfold CancelSession. case_bool_decide; [done|].
    destruct (sessions d !! TrimSpace s) as [qp0|] eqn:Hs; [|done].
    destruct (lane_cancel clear _) as [l1 r].
    eapply (agree_set_lane (TrimSpace s) d qp0 l1); [eauto | congruence | done].
  - destruct (lanes d !! qp0) as [[sid0 l0]|] eqn:H0.
    + eapply (worker_step_agree _ _ _ _ _ _ _ H0 Hc); [|done]. cbn in Hne. congruence.
    + unfold worker_step in Hc. by rewrite H0 in Hc.
Qed.

(** Cancelling a session with its queue answers every queued batch, and only those,
    with the canceled error in queue order, reports their number and whether a
    turn was in flight, empties the queue, and makes the in-flight turn's context
    canceled; the in-flight turn itself stays unanswered until its callback ends. *)
Theorem cancel_session_drops_queue d qp sid l s :
  reachable d → sid = TrimSpace s → sid ≠ "" → sessions d !! sid = Some qp →
  lanes d !! qp = Some (sid, l) →
  ∃ l', CancelSession s true d =
      (set_lane qp sid l' d, Ok (negb (bool_decide (active (l_phase l) = [])), Zlength (pending (l_queue l)))) ∧
    pending (l_queue l') = [] ∧
    l_results l' = l_results l ++ answers (Some context_Canceled) (tracked_of l (pending (l_queue l))) ∧
    active (l_phase l') = active (l_phase l) ∧
    (∀ t parent c, l_phase l' = Starting t parent c ∨ l_phase l' = Running t parent c →
      ∀ ctxErr, run_ctx_err ctxErr parent c true = Some context_Canceled).
Proof.
  intros Hd%reachable_disp_inv -> Hne Hs Hl. pose proof (di_lane d Hd _ _ _ Hl) as Hi.
  destruct (drop_pending_spec l Hi) as (_ & Hpe & Hph & Hres & Hcan & _).
  exists (lane_cancel true l).1. unfold CancelSession. rewrite bool_decide_false by done.
  rewrite Hs. unfold lane_at. rewrite Hl. rewrite (surjective_pairing (lane_cancel true l)).
  assert (Hin : inFlightCancel (l_queue l) = negb (bool_decide (active (l_phase l) = []))).
  { pose proof (inv_phase l Hi) as Hp. unfold phase_ok in Hp.
    destruct (l_phase l); cbn; by destruct Hp as (_ & _ & ->). }
  assert (Hcr : ∀ l0, active (l_phase (cancel_run l0)) = active (l_phase l0) ∧
    l_results (cancel_run l0) = l_results l0 ∧ l_queue (cancel_run l0) = l_queue l0).
  { intros l0. unfold cancel_run. destruct (l_phase l0) eqn:E; cbn; rewrite ?E; done. }
  split; [by unfold lane_cancel; rewrite Hin|]. unfold lane_cancel. cbn [fst].
  destruct (inFlightCancel (l_queue l)) eqn:Hf.
  - destruct (Hcr (drop_pending l)) as (-> & -> & ->). rewrite Hph, Hres. do 3 (split; [done|]).
    intros t parent c Hp ctxErr. unfold cancel_run in Hp.
    destruct (l_phase (drop_pending l)) eqn:E; cbn in Hp; rewrite ?E in Hp; destruct Hp as [Hp|Hp];
      try done; by injection Hp as <- <- <-.
  - rewrite Hph, Hres. do 3 (split; [done|]). intros t parent c Hp ctxErr.
    symmetry in Hin. apply negb_false_iff, bool_decide_eq_true in Hin.
    destruct Hp as [Hp|Hp]; rewrite Hp in Hin; done.
Qed.

(** Admission of an ordinary turn that is no redelivery: with no replacement pending
    and no steering, the twenty-first queued batch is refused and changes nothing;
    otherwise the turn goes to the end of the queue with its own unanswered
    channel, the worker is signalled and the position is the number of batches
    ahead of it, the one in flight included. *)
Theorem fresh_turn_admission ctxErr ctx task d qp sid l :
  reachable d → lanes d !! qp = Some (sid, l) → sessions d !! sid = Some qp →
  stopping d = false → TrimSpace (tk_SessionID task) = sid → sid ≠ "" → tk_Run task = true →
  turnDedupeKey (tk_SessionTurn task) = "" ∨ ¬ live_batch l (turnDedupeKey (tk_SessionTurn task)) →
  replacement (l_queue l) = None →
  (∀ p, tk_SessionTurn task = Some p → isSteeringCandidate p = false) →
  if perSessionQueueLimit <=? Zlength (pending (l_queue l))
  then Enqueue ctxErr ctx task d = (d, Err ErrTurnQueueFull)
  else ∃ l', Enqueue ctxErr ctx task d =
        (set_lane qp sid l' d,
         Ok (qp, ChTurn (l_next l), Zlength (active (l_phase l) ++ pending (l_queue l)))) ∧
      pending (l_queue l') = pending (l_queue l) ++ [l_next l] ∧ wakeCh (l_queue l') = true ∧
      l_turns l' !! l_next l =
        Some (mkTurn (default context_Background ctx) (tk_SessionTurn task) true [] None) ∧
      l_results l' = l_results l ∧ l_phase l' = l_phase l.
Proof.
  intros Hd%reachable_disp_inv Hl Hs Hst Hsid Hne Hrun Hkey Hr Hsteer.
  pose proof (di_lane d Hd _ _ _ Hl) as Hi.
  rewrite (Enqueue_live _ _ _ _ _ _ _ Hl Hs Hst Hsid Hne Hrun).
  set (c := default context_Background ctx). set (tn := mkTurn c (tk_SessionTurn task) true [] None).
  assert (Hno : (if bool_decide (turnDedupeKey (tk_SessionTurn task) = "") then None
    else attach_duplicate (alloc tn l).1 (l_next l) (turnDedupeKey (tk_SessionTurn task))) = None).
  { case_bool_decide; [done|]. apply attach_duplicate_None; [done|]. tauto. }
  unfold lane_enqueue. fold tn. rewrite (surjective_pairing (alloc tn l)).
  change (alloc tn l).2 with (l_next l). change (l_queue (alloc tn l).1) with (l_queue l).
  rewrite Hno, bool_decide_false by (rewrite Hr; tauto).
  destruct (perSessionQueueLimit <=? Zlength (pending (l_queue l)));
    [cbn [fst snd]; by rewrite (set_lane_id _ _ _ _ Hl)|].
  assert (Hmerge : tryMergeSteeringTurn ctxErr (alloc tn l).1 (l_next l) = (false, (alloc tn l).1)).
  { unfold tryMergeSteeringTurn. cbn [alloc fst l_turns]. rewrite lookup_insert_eq.
    cbv beta iota delta [tn]. destruct (tk_SessionTurn task) as [p|]; [|done].
    by rewrite (Hsteer p eq_refl). }
  rewrite Hmerge. replace (if running (l_queue l) then _ else _) with (false, (alloc tn l).1)
    by (by destruct (running (l_queue l))).
  cbv iota beta zeta.
  exists (with_queue (λ q, set_wake true (set_pending (pending q ++ [l_next l]) q)) (alloc tn l).1).
  split; [|cbn; rewrite lookup_insert_eq; done].
  f_equal. cbn -[Zlength Z.ltb]. do 2 f_equal.
  pose proof (inv_phase l Hi) as Hph. unfold phase_ok in Hph. unfold Zlength.
  rewrite length_app. destruct (l_phase l); destruct Hph as (-> & _); cbn [active length]; try lia;
    destruct (Z.ltb_spec 0 (Z.of_nat (length (pending (l_queue l))))); lia.
Qed.

(** ** Steering batches *)

(** Every message of a batch comes from the batch's archive and requester. *)
Definition steering_ok (p : SessionTurnPayload) : Prop :=
  Forall (λ m, sm_ArchiveID m = st_ArchiveID p ∧ sm_UserID m = TrimSpace (st_RequesterUserID p))
    (st_SteeringMessages p).
Definition payloads_ok (l : lane) : Prop :=
  ∀ t turn p, l_turns l !! t = Some turn → t_turn turn = Some p → steering_ok p.

Lemma payloads_ok_set l t turn :
  payloads_ok l → (∀ p, t_turn turn = Some p → steering_ok p) → payloads_ok (set_turn t turn l).
Proof.
  intros Hl Ht t' turn' p. cbn. rewrite lookup_insert_Some. intros [[<- <-]|[_ ?]]; [auto | by eapply Hl].
Qed.

Lemma merge_payloads_ok ctxErr l b i l' :
  payloads_ok l → mergeIntoSteeringBatch ctxErr l b i = Some l' → payloads_ok l'.
Proof.
  intros Hl. unfold mergeIntoSteeringBatch.
  destruct (l_turns l !! b) as [tb|] eqn:Htb; [|done]. cbn.
  destruct (l_turns l !! i) as [ti|] eqn:Hti; [|done]. cbn.
  destruct (t_turn tb) as [pb|] eqn:Hpb; [|done]. cbn.
  destruct (t_turn ti) as [pi|] eqn:Hpi; [|done]. cbn.
  destruct (negb _ || negb _) eqn:Hsame; [done|]. inv_ok.
  destruct (negb _ && negb _ && negb _); [done|]. intros [= <-].
  pose proof (Hl _ _ _ Htb Hpb) as Hok.
  apply payloads_ok_set; [done|]. intros p.
  destruct (negb _ && _), (ctxErr (t_ctx tb)), (ctxErr (t_ctx ti)); cbn; rewrite ?Hpb;
    intros [= <-]; try exact Hok.
  all: unfold steering_ok, extend_batch; cbn -[TrimSpace]; rewrite Forall_app, Forall_singleton;
    split; [exact Hok|]; cbn -[TrimSpace]; split; congruence.
Qed.

(** Steering never mixes users or conversations: merging or starting a batch keeps
    every queued payload's messages to the payload's own archive and requester. *)
Theorem steering_keeps_identity ctxErr ctx task l :
  payloads_ok l → (∀ p, tk_SessionTurn task = Some p → steering_ok p) →
  payloads_ok (lane_enqueue ctxErr ctx task l).1.
Proof.
  intros Hl Hp. unfold lane_enqueue. set (tn := mkTurn ctx (tk_SessionTurn task) true [] None).
  rewrite (surjective_pairing (alloc tn l)). set (l1 := (alloc tn l).1). set (n := (alloc tn l).2).
  assert (Hl1 : payloads_ok l1) by exact (payloads_ok_set l (l_next l) tn Hl Hp).
  assert (Hn : l_turns l1 !! n = Some tn) by apply lookup_insert_eq.
  assert (Hat : ∀ b, payloads_ok (attach b n l1)).
  { intros b. unfold attach. destruct (l_turns l1 !! b) eqn:Hb; [|done].
    apply payloads_ok_set; [done|]. cbn. intros p. by apply (Hl1 b). }
  clearbody l1 n.
  destruct (if bool_decide _ then None else attach_duplicate _ _ _) as [[l2 pos]|] eqn:Hdup.
  { destruct (bool_decide _); [done|]. unfold attach_duplicate in Hdup.
    destruct (mbind _ _); [injection Hdup as <- _; apply Hat|].
    destruct (find_index _ _ _) as [[i t]|]; [injection Hdup as <- _; apply Hat | done]. }
  clear Hdup. destruct (bool_decide _); [done|]. destruct (_ <=? _); [done|].
  assert (Hmerge : payloads_ok (tryMergeSteeringTurn ctxErr l1 n).2).
  { unfold tryMergeSteeringTurn. rewrite Hn. subst tn. destruct (tk_SessionTurn task) as [inc|]; [|done].
    destruct (negb (isSteeringCandidate inc)); [done|].
    destruct (merge_scan _ _ _ _) as [l2|] eqn:Hm.
    - cbn. clear -Hl1 Hm. induction (rev _) as [|b bs IH]; cbn in Hm; [done|].
      destruct (mergeIntoSteeringBatch ctxErr l1 b n) as [l3|] eqn:Hb; [|auto].
      injection Hm as <-. by eapply merge_payloads_ok.
    - destruct (negb _); [done|]. apply payloads_ok_set; [done|]. cbn. intros p [= <-].
      unfold steering_ok, initializeSteeringBatch. cbn -[TrimSpace]. by rewrite Forall_singleton. }
  destruct (running (l_queue l1)); [destruct (tryMergeSteeringTurn _ _ _) as [[] l2]|]; done.
Qed.

(** Replacement errors are bounded: whatever the callback returns, the error that
    leaves the dispatcher is nil or one of five fixed values that keep the
    cancellation, deadline, pending and conflict classes, and bounding twice
    changes nothing. *)
Theorem replacement_error_bounded err :
  boundedReplacementError err ∈
    [None; Some context_Canceled; Some context_DeadlineExceeded; Some ErrTurnReplacementPending;
     Some ErrTurnReplacementConflict; Some ErrTurnReplacementFailed] ∧
  (boundedReplacementError err = None ↔ err = None) ∧
  boundedReplacementError (boundedReplacementError err) = boundedReplacementError err ∧
  (∀ e, err = Some e →
     (errors_Is e context_Canceled = true → boundedReplacementError err = Some context_Canceled) ∧
     (boundedReplacementError err = Some ErrTurnReplacementFailed →
        errors_Is e context_Canceled = false ∧ errors_Is e context_DeadlineExceeded = false ∧
        errors_Is e ErrTurnReplacementPending = false ∧ errors_Is e ErrTurnReplacementConflict = false)).
Proof.
  destruct err as [e|]; cbn; [|set_solver].
  split; [|split; [done|split]].
  - repeat case_match; set_solver.
  - by repeat case_match.
  - intros e' [= <-]. repeat case_match; done.
Qed.

(** ** Witnesses: each property applied to the run [demo] *)
Lemma demo_lookup : lanes demo !! 0%nat = Some ("s", demo_lane).
Proof. vm_compute. reflexivity. Qed.
Lemma demo_session : sessions demo !! "s" = Some 0%nat.
Proof. vm_compute. reflexivity. Qed.
Lemma demo_not_stopping : stopping demo = false.
Proof. vm_compute. reflexivity. Qed.
Lemma demo_live : l_phase demo_lane ≠ Exited.
Proof. vm_compute. discriminate. Qed.

(** The dispatcher after [Shutdown], and after the boundary has started. *)
Definition demo_stopped : TurnDispatcher := Shutdown demo.
Definition boundary_calls : list call :=
  [CWorker 0 (EvReturn (Returned None)); CWorker 0 EvComplete; CWorker 0 (EvNext 6);
   CWorker 0 (EvCheck false); CWorker 0 (EvReturn (Returned None)); CWorker 0 EvComplete;
   CWorker 0 (EvNext 7); CWorker 0 (EvCheck false)].
Definition demo_boundary : TurnDispatcher := default demo (run_calls no_ctx_err boundary_calls demo).
Definition demo_replayed : TurnDispatcher :=
  default demo (worker_step no_ctx_err 0 (EvReturn Panicked) demo_boundary).

Lemma demo_boundary_reachable : reachable demo_boundary.
Proof.
  apply (run_calls_reachable no_ctx_err boundary_calls demo); [apply demo_reachable|]. vm_compute. reflexivity.
Qed.
Lemma demo_stopped_reachable : reachable demo_stopped.
Proof. eapply rtc_r; [apply demo_reachable|]. by exists no_ctx_err, CShutdown. Qed.

Lemma dispatcher_invariant_witness : disp_inv demo.
Proof. apply dispatcher_invariant. apply demo_reachable. Defined.

Lemma turn_answered_once_witness :
  (2%nat ∈ tracked demo_lane ∧ NoDup (tracked demo_lane) ∧ 2%nat ∉ (l_results demo_lane).*1) ∨
  (2%nat ∉ tracked demo_lane ∧ ∃ err, filter (λ r, r.1 = 2%nat) (l_results demo_lane) = [(2%nat, err)]).
Proof.
  apply (turn_answered_once demo 0 "s" demo_lane 2 demo_reachable demo_lookup). vm_compute. lia.
Defined.

Lemma queue_drains_witness :
  ∃ es l', worker_run no_ctx_err 0 es demo = Some (set_lane 0 "s" l' demo) ∧
    (length es ≤ 4 * length (pending (l_queue demo_lane)) + 4)%nat ∧
    tracked l' = [] ∧ ∀ t, (t < l_next l')%nat → t ∈ (l_results l').*1.
Proof. exact (queue_drains no_ctx_err demo 0 "s" demo_lane demo_reachable demo_not_stopping demo_lookup demo_live). Defined.

Lemma shutdown_drains_witness :
  ∃ es d' l', worker_run no_ctx_err 0 es demo_stopped = Some d' ∧ (length es ≤ 4)%nat ∧
    lanes d' !! 0%nat = Some ("s", l') ∧ l_phase l' = Exited ∧ sessions d' !! "s" = None ∧
    ∀ t, (t < l_next l')%nat → t ∈ (l_results l').*1.
Proof.
  apply (shutdown_drains no_ctx_err demo_stopped 0 "s" (lane_at demo_stopped 0) demo_stopped_reachable).
  - vm_compute. reflexivity.
  - vm_compute. reflexivity.
  - vm_compute. discriminate.
Defined.

Lemma one_worker_per_session_witness : 0%nat = 0%nat.
Proof.
  exact (one_worker_per_session demo 0 0 "s" demo_lane demo_lane demo_reachable demo_lookup demo_lookup
    demo_live demo_live).
Defined.

(** A second dispatcher state: one turn waiting, the worker at the top of its loop. *)
Definition queued1 : TurnDispatcher :=
  default NewTurnDispatcher (run_calls no_ctx_err [CEnqueue None (task1 1 0 "first")] NewTurnDispatcher).
Lemma queued1_reachable : reachable queued1.
Proof. apply (reachable_run [CEnqueue None (task1 1 0 "first")]). vm_compute. reflexivity. Qed.
Definition started1 : TurnDispatcher := default queued1 (worker_step no_ctx_err 0 (EvNext 5) queued1).

Lemma turns_run_in_order_witness :
  pending (l_queue (lane_at queued1 0)) = 0%nat :: pending (l_queue (lane_at started1 0)) ∧
  Forall (λ t', (0 < t')%nat) (pending (l_queue (lane_at started1 0))) ∧
  held (l_phase (lane_at queued1 0)) = [] ∧ running (l_queue (lane_at started1 0)) = true ∧
  runningTurn (l_queue (lane_at started1 0)) = Some 0%nat ∧ false = false.
Proof.
  apply (turns_run_in_order no_ctx_err 5 queued1 started1 0 "s" (lane_at queued1 0) (lane_at started1 0)
    0 0 false queued1_reachable); vm_compute; reflexivity.
Defined.

Lemma demo_no_key9 : ¬ live_batch demo_lane (turnDedupeKey (tk_SessionTurn (task1 9 1 "late"))).
Proof.
  intros (r & Hr & Hk). assert (r = 0%nat ∨ r = 1%nat ∨ r = 3%nat) as [->|[->| ->]].
  { vm_compute in Hr. repeat (apply elem_of_cons in Hr as [->|Hr]; [tauto|]). exfalso. exact (not_elem_of_nil _ Hr). }
  all: vm_compute in Hk; discriminate.
Qed.

Lemma replacement_is_exclusive_witness :
  Enqueue no_ctx_err None (task1 9 1 "late") demo = (demo, Err ErrTurnReplacementPending) ∧
  (3%nat ∈ pending (l_queue demo_lane) → ∃ earlier, pending (l_queue demo_lane) = earlier ++ [3%nat]) ∧
  (3%nat ∉ pending (l_queue demo_lane) → active (l_phase demo_lane) = [3%nat]).
Proof.
  apply (replacement_is_exclusive no_ctx_err None (task1 9 1 "late") demo 0 "s" demo_lane 3
    demo_reachable demo_lookup demo_session demo_not_stopping).
  - vm_compute. reflexivity.
  - vm_compute. reflexivity.
  - discriminate.
  - reflexivity.
  - right. apply demo_no_key9.
Defined.

Lemma duplicate_turn_joins_batch_witness :
  ∃ l' b pos,
    Enqueue no_ctx_err None (task1 3 1 "third") demo =
      (set_lane 0 "s" l' demo, Ok (0%nat, ChTurn (l_next demo_lane), pos)) ∧
    l_queue l' = l_queue demo_lane ∧ l_phase l' = l_phase demo_lane ∧
    l_results l' = l_results demo_lane ∧
    b ∈ active (l_phase demo_lane) ++ pending (l_queue demo_lane) ∧
    constituents_of l' b = constituents_of demo_lane b ++ [l_next demo_lane].
Proof.
  apply (duplicate_turn_joins_batch no_ctx_err None (task1 3 1 "third") demo 0 "s" demo_lane
    demo_reachable demo_lookup demo_session demo_not_stopping).
  - vm_compute. reflexivity.
  - discriminate.
  - reflexivity.
  - vm_compute. discriminate.
  - exists 1%nat. split; [vm_compute; set_solver | vm_compute; reflexivity].
Defined.

Lemma replacement_replay_witness :
  EnqueueReplacement None (replace1 " op" "h") demo_replayed =
    (demo_replayed, Ok (0%nat, ChDone (Some ErrTurnReplacementFailed), 0)).
Proof.
  apply (replacement_replay no_ctx_err None Panicked (replace1 " op" "h") demo_boundary demo_replayed
    0 "s" (lane_at demo_boundary 0) 3 0 false
    (mkTurn 0 None true [] (Some (replace1 "op" "h"))) (replace1 "op" "h") demo_boundary_reachable).
  all: try (vm_compute; reflexivity).
  all: vm_compute; discriminate.
Defined.

Lemma replay_window_witness :
  let q' := remember_all [("b", mkReplacementResult "h" None)]
    (rememberReplacementResult "a" (mkReplacementResult "h" (Some ErrTurnReplacementFailed)) newQueue) in
  terminalReplacements q' !! "a" = Some (mkReplacementResult "h" (Some ErrTurnReplacementFailed)) ∧
  Zlength (terminalOrder q') ≤ terminalReplacementLimit.
Proof.
  apply (replay_window "a" (mkReplacementResult "h" (Some ErrTurnReplacementFailed))
    [("b", mkReplacementResult "h" None)] newQueue).
  - apply (inv_terminal newLane newLane_inv).
  - reflexivity.
  - set_solver.
  - cbn. lia.
Defined.

Lemma sessions_are_isolated_witness :
  lanes (CancelSession "other" true demo).1 !! 0%nat = Some ("s", demo_lane) ∧
  sessions (CancelSession "other" true demo).1 !! "s" = sessions demo !! "s".
Proof.
  apply (sessions_are_isolated no_ctx_err (CCancel "other" true) demo _ 0 "s" demo_lane demo_reachable);
    [vm_compute; reflexivity | discriminate | apply demo_lookup | vm_compute; discriminate].
Defined.

Lemma cancel_session_drops_queue_witness :
  ∃ l', CancelSession " s " true demo =
      (set_lane 0 "s" l' demo, Ok (negb (bool_decide (active (l_phase demo_lane) = [])),
        Zlength (pending (l_queue demo_lane)))) ∧
    pending (l_queue l') = [] ∧
    l_results l' = l_results demo_lane ++
      answers (Some context_Canceled) (tracked_of demo_lane (pending (l_queue demo_lane))) ∧
    active (l_phase l') = active (l_phase demo_lane) ∧
    (∀ t parent c, l_phase l' = Starting t parent c ∨ l_phase l' = Running t parent c →
      ∀ ctxErr, run_ctx_err ctxErr parent c true = Some context_Canceled).
Proof.
  apply (cancel_session_drops_queue demo 0 "s" demo_lane " s " demo_reachable);
    [reflexivity | discriminate | apply demo_session | apply demo_lookup].
Defined.

Definition started1_lane : lane := lane_at started1 0.
Lemma started1_reachable : reachable started1.
Proof. eapply (run_calls_reachable no_ctx_err [CWorker 0 (EvNext 5)] queued1); [apply queued1_reachable|]. vm_compute. reflexivity. Qed.

Lemma fresh_turn_admission_witness :
  ∃ l', Enqueue no_ctx_err None (task1 7 0 "later") started1 =
      (set_lane 0 "s" l' started1, Ok (0%nat, ChTurn (l_next started1_lane),
        Zlength (active (l_phase started1_lane) ++ pending (l_queue started1_lane)))) ∧
    pending (l_queue l') = pending (l_queue started1_lane) ++ [l_next started1_lane] ∧
    wakeCh (l_queue l') = true ∧
    l_turns l' !! l_next started1_lane =
      Some (mkTurn (default context_Background None) (tk_SessionTurn (task1 7 0 "later")) true [] None) ∧
    l_results l' = l_results started1_lane ∧ l_phase l' = l_phase started1_lane.
Proof.
  apply (fresh_turn_admission no_ctx_err None (task1 7 0 "later") started1 0 "s" started1_lane
    started1_reachable).
  - vm_compute. reflexivity.
  - vm_compute. reflexivity.
  - vm_compute. reflexivity.
  - vm_compute. reflexivity.
  - discriminate.
  - reflexivity.
  - right. intros (r & Hr & Hk). vm_compute in Hr.
    apply elem_of_cons in Hr as [->|Hr]; [vm_compute in Hk; discriminate | exact (not_elem_of_nil _ Hr)].
  - vm_compute. reflexivity.
  - intros p [= <-]. reflexivity.
Defined.

Lemma steering_keeps_identity_witness :
  payloads_ok (lane_enqueue no_ctx_err 0 (task1 4 1 "more") started1_lane).1.
Proof.
  apply steering_keeps_identity.
  - intros t turn p Ht Hp.
    assert (l_turns started1_lane = {[0%nat := mkTurn 0 (Some (user_turn 1 0 "first")) true [] None]})
      as Heq by (vm_compute; reflexivity).
    rewrite Heq in Ht. apply lookup_singleton_Some in Ht as [_ <-]. injection Hp as <-. constructor.
  - intros p [= <-]. constructor.
Defined.
