(* ===== verification/MemoryTypes.v ===== *)
(** * MemoryTypes: scopes, sessions, turns and boundaries of session memory

    Models src/sessionmemory/errors.go, types.go and validation.go: the stable
    error values, the exported turn and boundary records, their derived
    identities and their validation.  A [time.Time] is the number of nanoseconds
    since Go's zero time, so the zero time is 0. *)

From Stdlib Require Import ZArith Lia Ascii String.
From stdpp Require Import base numbers list gmap strings.
From S2P Require Import Prelude.
From S2P Require Import GoStrings.
From S2P Require Import Sha256.

Local Open Scope string_scope.
Local Open Scope list_scope.
Local Open Scope Z_scope.

(** ** Errors *)
Definition CodeDisabled : string := "disabled".
Definition CodeInvalidScope : string := "invalid_scope".
Definition CodeUnsupportedScope : string := "unsupported_scope".
Definition CodeInvalidSession : string := "invalid_session".
Definition CodeInvalidQuery : string := "invalid_query".
Definition CodeScopeViolation : string := "scope_violation".
Definition CodeUnavailable : string := "unavailable".
Definition CodeTimeout : string := "timeout".
Definition CodePermanent : string := "permanent".
Definition CodeShuttingDown : string := "shutting_down".
Definition CodeInvalidDerived : string := "invalid_derived".
Definition CodeConflict : string := "conflict".
Definition CodeNotFound : string := "not_found".
Definition CodeForgotten : string := "forgotten".
Definition CodeLimitExceeded : string := "limit_exceeded".
Definition CodeStoreFailure : string := "store_failure".
Definition CodeModelFailure : string := "model_failure".

Definition ErrorClassRetryable : string := "retryable".
Definition ErrorClassPermanent : string := "permanent".

Definition newError (code class message : string) (cause : option error) : error :=
  ErrMemory code class (TrimSpace message) cause.
Definition RetryableError (code message : string) (cause : option error) : error :=
  newError code ErrorClassRetryable message cause.
Definition PermanentError (code message : string) (cause : option error) : error :=
  newError code ErrorClassPermanent message cause.

(** [errors.As(err, &target)]: the first memory error of the chain. *)
Fixpoint first_memory_error (err : error) : option (string * string) :=
  match err with
  | ErrSentinel _ | ErrText _ => None
  | ErrWrap _ inner => first_memory_error inner
  | ErrMemory code class _ _ => Some (code, class)
  end.

Definition ClassifyError (err : error) : option (string * string) :=
  '(code, class) ← first_memory_error err;
  if bool_decide (code = "") || bool_decide (class = "") then None else Some (code, class).

Definition IsRetryable (err : error) : bool :=
  match ClassifyError err with
  | Some (_, class) => bool_decide (class = ErrorClassRetryable)
  | None => false
  end.

Definition invalidDerived (message : string) : error := PermanentError CodeInvalidDerived message None.
Definition limitExceeded (message : string) : error := PermanentError CodeLimitExceeded message None.

(** ** Records *)
Definition SchemaVersionV1 : string := "session-memory/v1".
Definition maxTurnToolMessages : Z := 16.

Definition ScopeKindPersonal : string := "personal".
Definition ScopeKindGroup : string := "group".

Record Scope := mkScope { sc_Key : string; sc_Kind : string }.
#[export] Instance Scope_eq_dec : EqDecision Scope.
Proof. solve_decision. Defined.

Record SessionRef := mkSessionRef {
  ss_SessionID : string; ss_AgentSessionID : string; ss_LineageID : string;
  ss_PreviousSessionID : string }.
#[export] Instance SessionRef_eq_dec : EqDecision SessionRef.
Proof. solve_decision. Defined.

Definition MessageRoleUser : string := "user".
Definition MessageRoleAssistant : string := "assistant".
Definition MessageRoleTool : string := "tool".

Definition TurnTerminalStatusSuccess : string := "success".
Definition TurnTerminalStatusFailed : string := "failed".
Definition TurnTerminalStatusInterrupted : string := "interrupted".

Record Message := mkMessage {
  ms_MessageID : string; ms_Role : string; ms_Text : string; ms_ToolName : string;
  ms_ToolCallID : string }.
#[export] Instance Message_eq_dec : EqDecision Message.
Proof. solve_decision. Defined.

Record Turn := mkTurnExport {
  tn_SchemaVersion : string; tn_ExportID : string; tn_Scope : Scope; tn_Session : SessionRef;
  tn_SourceTurnID : string; tn_SourceID : string; tn_CompletedAt : Z; tn_TerminalStatus : string;
  tn_Messages : list Message }.
#[export] Instance Turn_eq_dec : EqDecision Turn.
Proof. solve_decision. Defined.

Definition BoundaryReasonReset : string := "reset".
Definition BoundaryReasonClose : string := "close".
Definition BoundaryReasonRotation : string := "rotation".
Definition BoundaryReasonShutdown : string := "shutdown".

Record Boundary := mkBoundary {
  bd_SchemaVersion : string; bd_ExportID : string; bd_Scope : Scope; bd_Session : SessionRef;
  bd_TransitionID : string; bd_Reason : string; bd_OccurredAt : Z }.

(** ** Identities *)
Definition writeHashPart (value : string) : string := framed 8 value.

(** What [stableExportID] hashes. *)
Definition export_preimage (kind : string) (parts : list string) : string :=
  SchemaVersionV1 +:+ framed_all 8 (kind :: parts).

Definition stableExportID (kind : string) (parts : list string) : string :=
  "session-memory:v1:" +:+ kind +:+ ":" +:+ sha256_hex (export_preimage kind parts).

Definition TurnSourceID (exportID : string) : string :=
  stableExportID "source" [TrimSpace exportID].
Definition TurnMessageID (exportID role : string) : string :=
  stableExportID "message" [TrimSpace exportID; role].
Definition TurnToolMessageID (exportID toolName toolCallID : string) : string :=
  stableExportID "tool-message" [TrimSpace exportID; TrimSpace toolName; TrimSpace toolCallID].

(** ** Validation *)
Definition isCanonicalID (value : string) : bool :=
  negb (bool_decide (value = "")) && bool_decide (TrimSpace value = value) &&
  negb (ContainsAny value [CR; LF; TAB]).

Definition Scope_Validate (s : Scope) : result unit :=
  _ ← reject_if (negb (bool_decide (TrimSpace (sc_Key s) = sc_Key s)) || bool_decide (sc_Key s = ""))
        (PermanentError CodeInvalidScope "canonical scope key is required" None);
  let '(channel, address, ok) := Cut (sc_Key s) ":"%char in
  _ ← reject_if (negb ok || bool_decide (channel = "") || bool_decide (address = "") ||
        negb (bool_decide (address = TrimSpace address)) ||
        negb (bool_decide (channel = ToLower channel)) ||
        ContainsAny channel [" "%char; TAB; CR; LF])
        (PermanentError CodeInvalidScope
          "scope key must be canonical <channel_type>:<address_key>" None);
  reject_if (negb (bool_decide (sc_Kind s = ScopeKindPersonal) || bool_decide (sc_Kind s = ScopeKindGroup)))
    (PermanentError CodeUnsupportedScope "scope kind must be personal or group" None).

Definition SessionRef_Validate (s : SessionRef) : result unit :=
  _ ← reject_if (negb (isCanonicalID (ss_SessionID s)))
        (PermanentError CodeInvalidSession "session id is required" None);
  _ ← reject_if (negb (isCanonicalID (ss_AgentSessionID s)))
        (PermanentError CodeInvalidSession "agent session id is required" None);
  _ ← reject_if (negb (bool_decide (ss_LineageID s = "")) && negb (isCanonicalID (ss_LineageID s)))
        (PermanentError CodeInvalidSession "lineage id must be canonical" None);
  reject_if (negb (bool_decide (ss_PreviousSessionID s = "")) &&
             negb (isCanonicalID (ss_PreviousSessionID s)))
    (PermanentError CodeInvalidSession "previous session id must be canonical" None).

Definition TurnExportID (scope : Scope) (session : SessionRef) (sourceTurnID : string) : result string :=
  _ ← Scope_Validate scope;
  _ ← SessionRef_Validate session;
  let sourceTurnID := TrimSpace sourceTurnID in
  _ ← reject_if (bool_decide (sourceTurnID = ""))
        (PermanentError CodeInvalidSession "source turn id is required" None);
  Ok (stableExportID "turn" [sc_Key scope; ss_SessionID session; sourceTurnID]).

Definition BoundaryExportID (scope : Scope) (session : SessionRef) (transitionID : string) :
    result string :=
  _ ← Scope_Validate scope;
  _ ← SessionRef_Validate session;
  let transitionID := TrimSpace transitionID in
  _ ← reject_if (bool_decide (transitionID = ""))
        (PermanentError CodeInvalidSession "transition id is required" None);
  Ok (stableExportID "boundary" [sc_Key scope; ss_SessionID session; transitionID]).

Definition validateMessage (message : Message) (exportID role : string) : result unit :=
  _ ← reject_if (negb (bool_decide (ms_Role message = role)))
        (PermanentError CodePermanent ("turn message role must be " +:+ role) None);
  _ ← reject_if (bool_decide (TrimSpace (ms_Text message) = ""))
        (PermanentError CodePermanent (role +:+ " message text is required") None);
  _ ← reject_if (negb (bool_decide (ms_MessageID message = "")) &&
        negb (bool_decide (ms_MessageID message = TurnMessageID exportID role)))
        (PermanentError CodePermanent (role +:+ " message id does not match turn identity") None);
  reject_if (negb (bool_decide (ms_ToolName message = "")) || negb (bool_decide (ms_ToolCallID message = "")))
    (PermanentError CodePermanent "non-tool message contains tool identity" None).

Definition validateToolMessage (exportID : string) (message : Message) : result unit :=
  _ ← reject_if (negb (bool_decide (ms_Role message = MessageRoleTool)) ||
        bool_decide (TrimSpace (ms_Text message) = "") ||
        negb (isCanonicalID (ms_ToolName message)) || negb (isCanonicalID (ms_ToolCallID message)))
        (PermanentError CodePermanent "turn tool message is invalid" None);
  reject_if (negb (bool_decide
      (ms_MessageID message = TurnToolMessageID exportID (ms_ToolName message) (ms_ToolCallID message))))
    (PermanentError CodePermanent "tool message id does not match turn identity" None).

(** The loop over the tool messages, with the identities seen so far. *)
Fixpoint validateToolMessages (exportID : string) (seen : list string) (messages : list Message) :
    result unit :=
  match messages with
  | [] => Ok tt
  | message :: messages =>
      _ ← validateToolMessage exportID message;
      _ ← reject_if (bool_decide (ms_MessageID message ∈ seen))
            (PermanentError CodePermanent "turn tool message identity is duplicated" None);
      validateToolMessages exportID (ms_MessageID message :: seen) messages
  end.

Definition known_status (status : string) : bool :=
  bool_decide (status = TurnTerminalStatusSuccess) ||
  bool_decide (status = TurnTerminalStatusFailed) ||
  bool_decide (status = TurnTerminalStatusInterrupted).

(** The message part of [Turn.Validate]: user text, assistant text unless the turn
    failed, then tool evidence. *)
Definition validateTurnMessages (exportID status : string) (messages : list Message) : result unit :=
  match messages with
  | [] => Err (PermanentError CodePermanent "turn requires a user message" None)
  | user :: rest =>
      _ ← validateMessage user exportID MessageRoleUser;
      tools ←
        match rest with
        | reply :: tools =>
            if bool_decide (ms_Role reply = MessageRoleAssistant)
            then _ ← validateMessage reply exportID MessageRoleAssistant; Ok tools
            else _ ← reject_if (bool_decide (status = TurnTerminalStatusSuccess))
                       (PermanentError CodePermanent "successful turn requires assistant text" None);
                 Ok rest
        | [] => _ ← reject_if (bool_decide (status = TurnTerminalStatusSuccess))
                      (PermanentError CodePermanent "successful turn requires assistant text" None);
                Ok []
        end;
      _ ← reject_if (maxTurnToolMessages <? Zlength tools)
            (PermanentError CodePermanent "turn tool message count exceeds the limit" None);
      validateToolMessages exportID [] tools
  end.

Definition Turn_Validate (t : Turn) : result unit :=
  _ ← reject_if (negb (bool_decide (tn_SchemaVersion t = SchemaVersionV1)))
        (PermanentError CodePermanent "unsupported turn schema version" None);
  _ ← Scope_Validate (tn_Scope t);
  _ ← SessionRef_Validate (tn_Session t);
  expectedID ← TurnExportID (tn_Scope t) (tn_Session t) (tn_SourceTurnID t);
  _ ← reject_if (negb (bool_decide (tn_ExportID t = expectedID)))
        (PermanentError CodePermanent "turn export id does not match its stable identity" None);
  _ ← reject_if (negb (bool_decide (tn_SourceID t = "")) &&
        negb (bool_decide (tn_SourceID t = TurnSourceID (tn_ExportID t))))
        (PermanentError CodePermanent "turn source id does not match turn identity" None);
  _ ← reject_if (tn_CompletedAt t =? 0)
        (PermanentError CodePermanent "turn completion time is required" None);
  let status := if bool_decide (tn_TerminalStatus t = "") then TurnTerminalStatusSuccess
                else tn_TerminalStatus t in
  _ ← reject_if (negb (known_status status))
        (PermanentError CodePermanent "turn terminal status is invalid" None);
  validateTurnMessages (tn_ExportID t) status (tn_Messages t).

Definition known_reason (reason : string) : bool :=
  bool_decide (reason = BoundaryReasonReset) || bool_decide (reason = BoundaryReasonClose) ||
  bool_decide (reason = BoundaryReasonRotation) || bool_decide (reason = BoundaryReasonShutdown).

Definition Boundary_Validate (b : Boundary) : result unit :=
  _ ← reject_if (negb (bool_decide (bd_SchemaVersion b = SchemaVersionV1)))
        (PermanentError CodePermanent "unsupported boundary schema version" None);
  _ ← Scope_Validate (bd_Scope b);
  _ ← SessionRef_Validate (bd_Session b);
  expectedID ← BoundaryExportID (bd_Scope b) (bd_Session b) (bd_TransitionID b);
  _ ← reject_if (negb (bool_decide (bd_ExportID b = expectedID)))
        (PermanentError CodePermanent "boundary export id does not match its stable identity" None);
  _ ← reject_if (negb (known_reason (bd_Reason b)))
        (PermanentError CodePermanent "unsupported boundary reason" None);
  reject_if (bd_OccurredAt b =? 0)
    (PermanentError CodePermanent "boundary occurrence time is required" None).

(** ** Construction *)
Definition tool_message (exportID : string) (tool : Message) : Message :=
  mkMessage (TurnToolMessageID exportID (ms_ToolName tool) (ms_ToolCallID tool)) MessageRoleTool
    (TrimSpace (ms_Text tool)) (TrimSpace (ms_ToolName tool)) (TrimSpace (ms_ToolCallID tool)).

Definition NewTerminalTurnWithTools (scope : Scope) (session : SessionRef) (sourceTurnID : string)
    (completedAt : Z) (userText assistantText : string) (tools : list Message)
    (terminalStatus : string) : result Turn :=
  exportID ← TurnExportID scope session sourceTurnID;
  let assistantText := TrimSpace assistantText in
  let messages :=
    [mkMessage (TurnMessageID exportID MessageRoleUser) MessageRoleUser (TrimSpace userText) "" ""] ++
    (if bool_decide (assistantText = "") then []
     else [mkMessage (TurnMessageID exportID MessageRoleAssistant) MessageRoleAssistant assistantText "" ""]) ++
    map (tool_message exportID) tools in
  let turn := mkTurnExport SchemaVersionV1 exportID scope session (TrimSpace sourceTurnID)
                (TurnSourceID exportID) completedAt terminalStatus messages in
  _ ← Turn_Validate turn;
  Ok turn.

Definition NewTerminalTurn (scope : Scope) (session : SessionRef) (sourceTurnID : string)
    (completedAt : Z) (userText assistantText terminalStatus : string) : result Turn :=
  NewTerminalTurnWithTools scope session sourceTurnID completedAt userText assistantText [] terminalStatus.

Definition NewTurn (scope : Scope) (session : SessionRef) (sourceTurnID : string)
    (completedAt : Z) (userText assistantText : string) : result Turn :=
  NewTerminalTurn scope session sourceTurnID completedAt userText assistantText TurnTerminalStatusSuccess.

Definition NewBoundary (scope : Scope) (session : SessionRef) (transitionID reason : string)
    (occurredAt : Z) : result Boundary :=
  exportID ← BoundaryExportID scope session transitionID;
  let boundary := mkBoundary SchemaVersionV1 exportID scope session (TrimSpace transitionID) reason occurredAt in
  _ ← Boundary_Validate boundary;
  Ok boundary.

(** ** Identities tell their parts apart *)

(** A prefix, a kind, a colon and a digest determine the kind and the digest. *)
Lemma tagged_digest_inj prefix k1 k2 m1 m2 :
  prefix +:+ k1 +:+ ":" +:+ sha256_hex m1 = prefix +:+ k2 +:+ ":" +:+ sha256_hex m2 →
  k1 = k2 ∧ (m1 = m2 ∨ sha256_collision m1 m2).
Proof.
  intros H. apply append_inj_l in H.
  apply append_inj_suffix in H as [-> H];
    [|rewrite !length_append, !length_sha256_hex; done].
  apply append_inj_l, sha256_hex_eq in H. split; [done|].
  destruct (decide (m1 = m2)); [by left | by right].
Qed.

Lemma stableExportID_inj k1 ps1 k2 ps2 :
  Forall (fits 8) (k1 :: ps1) → Forall (fits 8) (k2 :: ps2) →
  stableExportID k1 ps1 = stableExportID k2 ps2 →
  k1 = k2 ∧ (ps1 = ps2 ∨ sha256_collision (export_preimage k1 ps1) (export_preimage k2 ps2)).
Proof.
  intros H1 H2 H. apply tagged_digest_inj in H as [-> [H|H]]; [|auto].
  unfold export_preimage in H. apply append_inj_l, framed_all_inj in H; [|lia|done|done].
  injection H as ->. auto.
Qed.

Lemma TurnExportID_Ok scope session id x :
  TurnExportID scope session id = Ok x ↔
  Scope_Validate scope = Ok tt ∧ SessionRef_Validate session = Ok tt ∧ TrimSpace id ≠ "" ∧
  x = stableExportID "turn" [sc_Key scope; ss_SessionID session; TrimSpace id].
Proof.
  unfold TurnExportID. split.
  - intros H. inv_ok. done.
  - intros (-> & -> & H & ->). cbn -[TrimSpace stableExportID]. by rewrite bool_decide_false.
Qed.

Lemma BoundaryExportID_Ok scope session id x :
  BoundaryExportID scope session id = Ok x ↔
  Scope_Validate scope = Ok tt ∧ SessionRef_Validate session = Ok tt ∧ TrimSpace id ≠ "" ∧
  x = stableExportID "boundary" [sc_Key scope; ss_SessionID session; TrimSpace id].
Proof.
  unfold BoundaryExportID. split.
  - intros H. inv_ok. done.
  - intros (-> & -> & H & ->). cbn -[TrimSpace stableExportID]. by rewrite bool_decide_false.
Qed.

Lemma isCanonicalID_true v :
  isCanonicalID v = true ↔ v ≠ "" ∧ TrimSpace v = v ∧ ContainsAny v [CR; LF; TAB] = false.
Proof.
  unfold isCanonicalID. rewrite !andb_true_iff, !negb_true_iff, bool_decide_eq_false,
    bool_decide_eq_true. tauto.
Qed.

Lemma reject_if_true c e u : reject_if c e = Ok u ↔ c = false.
Proof. apply reject_if_Ok. Qed.

Lemma reject_bind {A} c e (f : unit → result A) a :
  mbind f (reject_if c e) = Ok a ↔ c = false ∧ f tt = Ok a.
Proof. destruct c; cbn; naive_solver. Qed.

Lemma validateToolMessages_Ok exportID seen messages :
  validateToolMessages exportID seen messages = Ok tt ↔
  Forall (λ m, validateToolMessage exportID m = Ok tt) messages ∧
  NoDup (map ms_MessageID messages) ∧ (∀ m, m ∈ messages → ms_MessageID m ∉ seen).
Proof.
  revert seen. induction messages as [|m ms IH]; intros seen; cbn -[validateToolMessage].
  - split; [|done]. intros _. split; [constructor|]. split; [constructor | set_solver].
  - rewrite Forall_cons, NoDup_cons.
    destruct (validateToolMessage exportID m) as [[]|e]; cbn; [|naive_solver].
    assert (Hin : ∀ x, x ∈ map ms_MessageID ms ↔ ∃ m0, m0 ∈ ms ∧ ms_MessageID m0 = x).
    { intros x. rewrite list_elem_of_fmap. naive_solver. }
    rewrite Hin. case_bool_decide as Hs; cbn.
    + split; [done|]. intros (_ & _ & H). exfalso. apply (H m); set_solver.
    + rewrite IH. split.
      * intros (H1 & H2 & H3). split; [done|]. split.
        -- split; [|done]. intros (m0 & Hm0 & He). apply (H3 m0 Hm0). rewrite He. set_solver.
        -- intros m0 [->|Hm0]%elem_of_cons; [done|]. specialize (H3 m0 Hm0). set_solver.
      * intros ([_ H1] & (H2 & H2') & H3). split; [done|]. split; [done|].
        intros m0 Hm0 [He|He]%elem_of_cons; [apply H2; eauto | apply (H3 m0); set_solver].
Qed.

(** A tool message built by the constructor passes validation exactly when its
    text is not blank and its trimmed identities are canonical. *)
Lemma tool_message_ok exportID tool :
  validateToolMessage exportID (tool_message exportID tool) = Ok tt ↔
  TrimSpace (ms_Text tool) ≠ "" ∧ isCanonicalID (TrimSpace (ms_ToolName tool)) = true ∧
  isCanonicalID (TrimSpace (ms_ToolCallID tool)) = true.
Proof.
  unfold validateToolMessage, tool_message. cbn [ms_Role ms_Text ms_ToolName ms_ToolCallID ms_MessageID].
  rewrite reject_bind, reject_if_Ok, !orb_false_iff, !negb_false_iff, !bool_decide_eq_true,
    bool_decide_eq_false, TrimSpace_idemp.
  unfold TurnToolMessageID. rewrite !TrimSpace_idemp. naive_solver.
Qed.

Lemma validateMessage_text_ok exportID role text :
  validateMessage (mkMessage (TurnMessageID exportID role) role (TrimSpace text) "" "") exportID role = Ok tt ↔
  TrimSpace text ≠ "".
Proof.
  unfold validateMessage. cbn [ms_Role ms_Text ms_ToolName ms_ToolCallID ms_MessageID].
  rewrite !reject_bind, reject_if_Ok, !andb_false_iff, !orb_false_iff, !negb_false_iff, !bool_decide_eq_true,
    !bool_decide_eq_false, TrimSpace_idemp. naive_solver.
Qed.

Lemma bind_unit {A} (m : result unit) (f : unit → result A) a :
  mbind f m = Ok a ↔ m = Ok tt ∧ f tt = Ok a.
Proof. destruct m as [[]|]; cbn; naive_solver. Qed.

Lemma validate_with_reply x status user reply tools :
  ms_Role reply = MessageRoleAssistant →
  validateTurnMessages x status (user :: reply :: tools) = Ok tt ↔
  validateMessage user x MessageRoleUser = Ok tt ∧
  validateMessage reply x MessageRoleAssistant = Ok tt ∧
  Zlength tools ≤ maxTurnToolMessages ∧ validateToolMessages x [] tools = Ok tt.
Proof.
  intros Hr. cbn [validateTurnMessages]. rewrite bind_unit, bool_decide_true by done.
  destruct (validateMessage reply x MessageRoleAssistant) as [[]|]; cbn [mbind result_bind].
  - rewrite reject_bind, Z.ltb_ge. tauto.
  - naive_solver.
Qed.

Lemma validate_without_reply x status user tools :
  (∀ m, head tools = Some m → ms_Role m ≠ MessageRoleAssistant) →
  validateTurnMessages x status (user :: tools) = Ok tt ↔
  validateMessage user x MessageRoleUser = Ok tt ∧ status ≠ TurnTerminalStatusSuccess ∧
  Zlength tools ≤ maxTurnToolMessages ∧ validateToolMessages x [] tools = Ok tt.
Proof.
  intros Hr. cbn [validateTurnMessages]. rewrite bind_unit.
  assert (Htl : ∀ (f : list Message → result unit),
    mbind f (match tools with
      | [] => _ ← reject_if (bool_decide (status = TurnTerminalStatusSuccess))
            (PermanentError CodePermanent "successful turn requires assistant text" None); Ok []
      | reply :: rest =>
          if bool_decide (ms_Role reply = MessageRoleAssistant)
          then _ ← validateMessage reply x MessageRoleAssistant; Ok rest
          else _ ← reject_if (bool_decide (status = TurnTerminalStatusSuccess))
            (PermanentError CodePermanent "successful turn requires assistant text" None); Ok tools
      end) = Ok tt ↔ status ≠ TurnTerminalStatusSuccess ∧ f tools = Ok tt).
  { intros f. destruct tools as [|m ms]; [|rewrite bool_decide_false by auto];
      case_bool_decide; cbn [reject_if mbind result_bind]; naive_solver. }
  rewrite Htl, reject_bind, Z.ltb_ge. tauto.
Qed.

(** The messages the constructor builds. *)
Definition built_messages (x userText assistantText : string) (tools : list Message) : list Message :=
  [mkMessage (TurnMessageID x MessageRoleUser) MessageRoleUser (TrimSpace userText) "" ""] ++
  (if bool_decide (TrimSpace assistantText = "") then []
   else [mkMessage (TurnMessageID x MessageRoleAssistant) MessageRoleAssistant
           (TrimSpace assistantText) "" ""]) ++
  map (tool_message x) tools.

Definition tool_input_ok (tool : Message) : Prop :=
  TrimSpace (ms_Text tool) ≠ "" ∧ isCanonicalID (TrimSpace (ms_ToolName tool)) = true ∧
  isCanonicalID (TrimSpace (ms_ToolCallID tool)) = true.

Lemma built_tools_ok x tools :
  validateToolMessages x [] (map (tool_message x) tools) = Ok tt ↔
  Forall tool_input_ok tools ∧
  NoDup (map (λ tool, TurnToolMessageID x (ms_ToolName tool) (ms_ToolCallID tool)) tools).
Proof.
  rewrite validateToolMessages_Ok, Forall_map, map_map. cbn [tool_message ms_MessageID].
  assert (Hf : Forall (λ tool, validateToolMessage x (tool_message x tool) = Ok tt) tools ↔
    Forall tool_input_ok tools).
  { apply Forall_iff. intros tool. apply tool_message_ok. }
  unfold compose. rewrite Hf. split; [tauto|]. intros [H1 H2]. split; [done|]. split; [done|].
  intros m _. apply not_elem_of_nil.
Qed.

Lemma built_messages_ok x status userText assistantText tools :
  validateTurnMessages x status (built_messages x userText assistantText tools) = Ok tt ↔
  TrimSpace userText ≠ "" ∧
  (TrimSpace assistantText = "" → status ≠ TurnTerminalStatusSuccess) ∧
  Zlength tools ≤ maxTurnToolMessages ∧ Forall tool_input_ok tools ∧
  NoDup (map (λ tool, TurnToolMessageID x (ms_ToolName tool) (ms_ToolCallID tool)) tools).
Proof.
  assert (Hlen : Zlength (map (tool_message x) tools) = Zlength tools)
    by (unfold Zlength; by rewrite length_map).
  unfold built_messages. case_bool_decide as Ha; cbn [app].
  - rewrite validate_without_reply, validateMessage_text_ok, built_tools_ok, Hlen; [tauto|].
    destruct tools; [done|]. by intros m0 [= <-].
  - rewrite validate_with_reply, !validateMessage_text_ok, built_tools_ok, Hlen by done. tauto.
Qed.

Definition normal_status (status : string) : string :=
  if bool_decide (status = "") then TurnTerminalStatusSuccess else status.

Lemma Turn_Validate_Ok t :
  Turn_Validate t = Ok tt ↔
  tn_SchemaVersion t = SchemaVersionV1 ∧
  TurnExportID (tn_Scope t) (tn_Session t) (tn_SourceTurnID t) = Ok (tn_ExportID t) ∧
  (tn_SourceID t = "" ∨ tn_SourceID t = TurnSourceID (tn_ExportID t)) ∧
  tn_CompletedAt t ≠ 0 ∧ known_status (normal_status (tn_TerminalStatus t)) = true ∧
  validateTurnMessages (tn_ExportID t) (normal_status (tn_TerminalStatus t)) (tn_Messages t) = Ok tt.
Proof.
  unfold Turn_Validate. fold (normal_status (tn_TerminalStatus t)).
  rewrite reject_bind, !bind_unit, bind_Ok, negb_false_iff, bool_decide_eq_true.
  assert (Hrest : ∀ x, (
    _ ← reject_if (negb (bool_decide (tn_ExportID t = x)))
          (PermanentError CodePermanent "turn export id does not match its stable identity" None);
    _ ← reject_if (negb (bool_decide (tn_SourceID t = "")) &&
          negb (bool_decide (tn_SourceID t = TurnSourceID (tn_ExportID t))))
          (PermanentError CodePermanent "turn source id does not match turn identity" None);
    _ ← reject_if (tn_CompletedAt t =? 0)
          (PermanentError CodePermanent "turn completion time is required" None);
    _ ← reject_if (negb (known_status (normal_status (tn_TerminalStatus t))))
          (PermanentError CodePermanent "turn terminal status is invalid" None);
    validateTurnMessages (tn_ExportID t) (normal_status (tn_TerminalStatus t)) (tn_Messages t)) = Ok tt ↔
    tn_ExportID t = x ∧ (tn_SourceID t = "" ∨ tn_SourceID t = TurnSourceID (tn_ExportID t)) ∧
    tn_CompletedAt t ≠ 0 ∧ known_status (normal_status (tn_TerminalStatus t)) = true ∧
    validateTurnMessages (tn_ExportID t) (normal_status (tn_TerminalStatus t)) (tn_Messages t) = Ok tt).
  { intros x. rewrite !reject_bind, andb_false_iff, !negb_false_iff, !bool_decide_eq_true, Z.eqb_neq. done. }
  split.
  - intros (H1 & _ & _ & x & Hx & (<- & H2)%Hrest). tauto.
  - intros (H1 & Hx & H2). pose proof Hx as (Hs & Hse & _)%TurnExportID_Ok.
    do 3 (split; [done|]). exists (tn_ExportID t). split; [exact Hx|]. apply Hrest. tauto.
Qed.

Lemma NewTerminalTurn_spec scope session id at_ user assistant tools status t :
  NewTerminalTurnWithTools scope session id at_ user assistant tools status = Ok t ↔
  ∃ x, TurnExportID scope session id = Ok x ∧
    t = mkTurnExport SchemaVersionV1 x scope session (TrimSpace id) (TurnSourceID x) at_ status
          (built_messages x user assistant tools) ∧ Turn_Validate t = Ok tt.
Proof.
  unfold NewTerminalTurnWithTools. rewrite bind_Ok. split.
  - intros (x & Hx & H). apply bind_unit in H as [H1 [= <-]]. eauto.
  - intros (x & Hx & -> & H). exists x. split; [done|]. apply bind_unit. done.
Qed.

(** ** Properties *)

(** Turn export identities are injective: two accepted turns get the same
    export id only for the same scope key, session and trimmed source turn id,
    or else the two hashed messages are a SHA-256 collision. *)
Theorem turn_export_id_injective sc1 se1 id1 sc2 se2 id2 x :
  TurnExportID sc1 se1 id1 = Ok x → TurnExportID sc2 se2 id2 = Ok x →
  Forall (fits 8) [sc_Key sc1; ss_SessionID se1; TrimSpace id1] →
  Forall (fits 8) [sc_Key sc2; ss_SessionID se2; TrimSpace id2] →
  (sc_Key sc1 = sc_Key sc2 ∧ ss_SessionID se1 = ss_SessionID se2 ∧ TrimSpace id1 = TrimSpace id2) ∨
  sha256_collision (export_preimage "turn" [sc_Key sc1; ss_SessionID se1; TrimSpace id1])
    (export_preimage "turn" [sc_Key sc2; ss_SessionID se2; TrimSpace id2]).
Proof.
  intros H1 H2 F1 F2. apply TurnExportID_Ok in H1 as (_ & _ & _ & ->).
  apply TurnExportID_Ok in H2 as (_ & _ & _ & H2).
  apply stableExportID_inj in H2 as [_ [H2|H2]];
    [injection H2; tauto | by right | constructor; [done | exact F1] | constructor; [done | exact F2]].
Qed.

(** The turn constructor accepts exactly the well-formed inputs: a valid scope and
    session, a non-blank turn id and user text, a set time, a known status,
    assistant text unless the turn failed or was interrupted, and at most sixteen
    tool messages with text, canonical names and distinct identities. *)
Theorem new_turn_accepts scope session sourceTurnID completedAt userText assistantText tools status :
  is_ok (NewTerminalTurnWithTools scope session sourceTurnID completedAt userText assistantText tools status) = true ↔
  Scope_Validate scope = Ok tt ∧ SessionRef_Validate session = Ok tt ∧
  TrimSpace sourceTurnID ≠ "" ∧ completedAt ≠ 0 ∧ (status = "" ∨ known_status status = true) ∧
  TrimSpace userText ≠ "" ∧
  (TrimSpace assistantText = "" → status ≠ "" ∧ status ≠ TurnTerminalStatusSuccess) ∧
  Zlength tools ≤ maxTurnToolMessages ∧
  Forall (λ tool, TrimSpace (ms_Text tool) ≠ "" ∧ isCanonicalID (TrimSpace (ms_ToolName tool)) = true ∧
    isCanonicalID (TrimSpace (ms_ToolCallID tool)) = true) tools ∧
  NoDup (map (λ tool, TurnToolMessageID
    (stableExportID "turn" [sc_Key scope; ss_SessionID session; TrimSpace sourceTurnID])
    (ms_ToolName tool) (ms_ToolCallID tool)) tools).
Proof.
  set (x := stableExportID "turn" [sc_Key scope; ss_SessionID session; TrimSpace sourceTurnID]).
  assert (Hkn : known_status (normal_status status) = true ↔ status = "" ∨ known_status status = true).
  { unfold normal_status. case_bool_decide; [|naive_solver]. split; auto. }
  assert (Hst : (TrimSpace assistantText = "" → normal_status status ≠ TurnTerminalStatusSuccess) ↔
    (TrimSpace assistantText = "" → status ≠ "" ∧ status ≠ TurnTerminalStatusSuccess)).
  { unfold normal_status. case_bool_decide; naive_solver. }
  assert (Hid2 : TurnExportID scope session (TrimSpace sourceTurnID) = TurnExportID scope session sourceTurnID).
  { unfold TurnExportID. by rewrite TrimSpace_idemp. }
  rewrite is_ok_true.
  assert (Hmsg := built_messages_ok x (normal_status status) userText assistantText tools).
  unfold tool_input_ok in Hmsg. rewrite Hst in Hmsg. split.
  - intros (t & (x' & HT & -> & Hv%Turn_Validate_Ok)%NewTerminalTurn_spec).
    pose proof HT as (Hs & Hse & Hid & ->)%TurnExportID_Ok.
    cbn [tn_SchemaVersion tn_ExportID tn_Scope tn_Session tn_SourceTurnID tn_SourceID tn_CompletedAt
      tn_TerminalStatus tn_Messages] in Hv. fold x in Hv. tauto.
  - intros (Hs & Hse & Hid & Hrest).
    assert (HT : TurnExportID scope session sourceTurnID = Ok x) by (apply TurnExportID_Ok; done).
    eexists. apply NewTerminalTurn_spec. exists x. split; [done|]. split; [reflexivity|].
    apply Turn_Validate_Ok.
    cbn [tn_SchemaVersion tn_ExportID tn_Scope tn_Session tn_SourceTurnID tn_SourceID tn_CompletedAt
      tn_TerminalStatus tn_Messages]. rewrite Hid2. tauto.
Qed.

(** ** Witnesses *)
Definition demo_scope : Scope := mkScope "telegram:42" ScopeKindPersonal.
Definition demo_session : SessionRef := mkSessionRef "tg-42" "agent-1" "" "".

Lemma turn_export_id_injective_witness :
  (sc_Key demo_scope = sc_Key demo_scope ∧ ss_SessionID demo_session = ss_SessionID demo_session ∧
   TrimSpace "7" = TrimSpace " 7 ") ∨
  sha256_collision
    (export_preimage "turn" [sc_Key demo_scope; ss_SessionID demo_session; TrimSpace "7"])
    (export_preimage "turn" [sc_Key demo_scope; ss_SessionID demo_session; TrimSpace " 7 "]).
Proof.
  apply (turn_export_id_injective demo_scope demo_session "7" demo_scope demo_session " 7 "
    (stableExportID "turn" ["telegram:42"; "tg-42"; "7"])).
  - vm_compute. reflexivity.
  - vm_compute. reflexivity.
  - repeat constructor.
  - repeat constructor.
Defined.

Lemma first_memory_error_permanent code message cause :
  first_memory_error (PermanentError code message cause) = Some (code, ErrorClassPermanent).
Proof. reflexivity. Qed.

(** Messages are compared as written, never by trimming them in a proof. *)
#[global] Opaque RetryableError PermanentError TrimSpace.
