(* ===== verification/MemoryRecords.v ===== *)
(** * MemoryRecords: the portable v2 records and their encodings

    Models src/sessionmemory/v2.go: memory kinds, temporal data, evidence spans,
    items, revisions, lifecycle events and candidates with their validation, the
    protobuf-wire record envelope and the tuple keys of the canonical store.
    Byte slices are strings; a [uint32] or [uint64] field is a [Z]. *)

From Stdlib Require Import ZArith Lia Ascii String.
From stdpp Require Import base numbers list gmap strings.
From S2P Require Import Prelude.
From S2P Require Import GoStrings.
From S2P Require Import Sha256.
From S2P Require Import MemoryTypes.

Local Open Scope string_scope.
Local Open Scope list_scope.
Local Open Scope Z_scope.

Definition MemorySchemaVersionV2 : string := "session-memory/v2".
Definition maxMemoryTextBytes : Z := 32 * 1024.
Definition MaxSourcesPerRevision : Z := 256.

Definition MemoryKindState : string := "state".
Definition MemoryKindEvent : string := "event".
Definition AssertionModeUser : string := "user".
Definition AssertionModeTrustedTool : string := "trusted_tool".
Definition SensitivityStandard : string := "standard".
Definition SensitivitySensitive : string := "sensitive".
Definition RetentionClassStandard : string := "standard".
Definition RetentionClassEphemeral : string := "ephemeral".
Definition LifecycleEventActivate : string := "activate".
Definition LifecycleEventSupersede : string := "supersede".
Definition LifecycleEventInvalidate : string := "invalidate".
Definition LifecycleEventForget : string := "forget".

(** ** Records *)
Record Temporal := mkTemporal {
  tp_ObservedAt : Z; tp_ValidFrom : option Z; tp_ValidUntil : option Z; tp_EventAt : option Z;
  tp_ExpiresAt : option Z; tp_TemporalText : string; tp_TemporalPrecision : string;
  tp_Timezone : string }.
#[export] Instance Temporal_eq_dec : EqDecision Temporal.
Proof. solve_decision. Defined.

Record EvidenceRef := mkEvidenceRef {
  ev_SourceID : string; ev_MessageID : string; ev_Role : string; ev_StartByte : Z; ev_EndByte : Z;
  ev_AssertionMode : string; ev_TextDigest : string }.
#[export] Instance EvidenceRef_eq_dec : EqDecision EvidenceRef.
Proof. solve_decision. Defined.

Record PayloadRef := mkPayloadRef { pr_ID : string; pr_Digest : string; pr_ByteSize : Z }.
#[export] Instance PayloadRef_eq_dec : EqDecision PayloadRef.
Proof. solve_decision. Defined.

Record SourceRecordV2 := mkSourceRecordV2 {
  sr_SourceID : string; sr_Scope : Scope; sr_Sensitivity : string; sr_Retention : string;
  sr_Payload : PayloadRef }.
#[export] Instance SourceRecordV2_eq_dec : EqDecision SourceRecordV2.
Proof. solve_decision. Defined.

Record MessageRecord := mkMessageRecord {
  mr_MessageID : string; mr_SourceID : string; mr_Role : string; mr_Payload : PayloadRef }.
#[export] Instance MessageRecord_eq_dec : EqDecision MessageRecord.
Proof. solve_decision. Defined.

Record LifecycleEvent := mkLifecycleEvent {
  le_EventID : string; le_RevisionID : string; le_Type : string; le_OccurredAt : Z }.
#[export] Instance LifecycleEvent_eq_dec : EqDecision LifecycleEvent.
Proof. solve_decision. Defined.

Record MemoryCandidate := mkMemoryCandidate {
  mc_Kind : string; mc_Statement : string; mc_Temporal : Temporal; mc_Evidence : list EvidenceRef;
  mc_Sensitivity : string; mc_Retention : string }.

Record RecordEnvelope := mkRecordEnvelope {
  re_SchemaVersion : string; re_RecordType : string; re_PayloadSHA256 : string; re_Payload : string }.

Record MemoryItem := mkMemoryItem {
  mi_ItemID : string; mi_Scope : Scope; mi_Kind : string; mi_MemoryKey : string }.
#[export] Instance MemoryItem_eq_dec : EqDecision MemoryItem.
Proof. solve_decision. Defined.

Record MemoryRevision := mkMemoryRevision {
  rv_SchemaVersion : string; rv_RevisionID : string; rv_ItemID : string; rv_Revision : Z;
  rv_Parents : list string; rv_Temporal : Temporal; rv_Evidence : list EvidenceRef;
  rv_Sensitivity : string; rv_Retention : string; rv_Payload : PayloadRef }.
#[export] Instance MemoryRevision_eq_dec : EqDecision MemoryRevision.
Proof. solve_decision. Defined.

(** ** Validation *)
Definition MemoryItem_Validate (i : MemoryItem) : result unit :=
  _ ← reject_if (negb (isCanonicalID (mi_ItemID i))) (invalidDerived "memory item id is required");
  _ ← Scope_Validate (mi_Scope i);
  if bool_decide (mi_Kind i = MemoryKindState) then
    reject_if (negb (isCanonicalID (mi_MemoryKey i))) (invalidDerived "state memory key is required")
  else if bool_decide (mi_Kind i = MemoryKindEvent) then
    reject_if (negb (bool_decide (mi_MemoryKey i = "")))
      (invalidDerived "event memory cannot have a stable memory key")
  else Err (invalidDerived "unsupported memory kind").

Definition Temporal_Validate (t : Temporal) : result unit :=
  _ ← reject_if (tp_ObservedAt t =? 0) (invalidDerived "observed time is required");
  _ ← reject_if (match tp_ValidFrom t, tp_ValidUntil t with
                 | Some from, Some until => until <? from
                 | _, _ => false
                 end) (invalidDerived "valid interval is inverted");
  reject_if ((maxMemoryTextBytes <? len (tp_TemporalText t)) ||
             negb (bool_decide (TrimSpace (tp_TemporalText t) = tp_TemporalText t)))
    (invalidDerived "temporal text is invalid").

(** The lower-case hexadecimal text of thirty-two bytes. *)
Definition isSHA256Digest (value : string) : bool :=
  (len value =? 64) && hex_decodes value && bool_decide (ToLower value = value).

Definition EvidenceRef_Validate (e : EvidenceRef) : result unit :=
  _ ← reject_if (negb (isCanonicalID (ev_SourceID e)) || negb (isCanonicalID (ev_MessageID e)) ||
                 (ev_EndByte e <=? ev_StartByte e))
        (invalidDerived "evidence reference is invalid");
  _ ← reject_if (bool_decide (ev_AssertionMode e = AssertionModeUser) &&
                 negb (bool_decide (ev_Role e = MessageRoleUser)))
        (invalidDerived "user evidence must have user role");
  _ ← reject_if (bool_decide (ev_AssertionMode e = AssertionModeTrustedTool) &&
                 negb (bool_decide (ev_Role e = MessageRoleTool)))
        (invalidDerived "trusted tool evidence role is invalid");
  _ ← reject_if (negb (bool_decide (ev_AssertionMode e = AssertionModeUser)) &&
                 negb (bool_decide (ev_AssertionMode e = AssertionModeTrustedTool)))
        (invalidDerived "unsupported evidence assertion mode");
  reject_if (negb (bool_decide (ev_TextDigest e = "")) && negb (isSHA256Digest (ev_TextDigest e)))
    (invalidDerived "evidence text digest is invalid").

Definition byte_at (text : string) (offset : Z) : option ascii :=
  String.get (Z.to_nat offset) text.

Definition utf8Boundary (text : string) (offset : Z) : bool :=
  if (offset =? 0) || (offset =? len text) then true else
  (offset <? len text) &&
  match byte_at text offset with Some c => RuneStart c | None => false end.

(** [uint32(len(text))] wraps. *)
Definition NewEvidenceRef (sourceID messageID role text : string) (startByte endByte : Z)
    (assertionMode : string) : result EvidenceRef :=
  _ ← reject_if (negb (isCanonicalID sourceID) || negb (isCanonicalID messageID))
        (invalidDerived "evidence source or message id is invalid");
  _ ← reject_if (negb (ValidString text) || (endByte <=? startByte) || (u32 (len text) <? endByte) ||
                 negb (utf8Boundary text startByte) || negb (utf8Boundary text endByte))
        (invalidDerived "evidence byte span is invalid");
  let evidence := mkEvidenceRef sourceID messageID role startByte endByte assertionMode (sha256_hex text) in
  _ ← EvidenceRef_Validate evidence;
  Ok evidence.

Definition PayloadRef_Validate (p : PayloadRef) : result unit :=
  reject_if (negb (isCanonicalID (pr_ID p)) || negb (isCanonicalID (pr_Digest p)) || (pr_ByteSize p =? 0))
    (invalidDerived "memory payload reference is invalid").

Definition validateSensitivityRetention (sensitivity retention : string) : result unit :=
  _ ← reject_if (negb (bool_decide (sensitivity = SensitivityStandard)) &&
                 negb (bool_decide (sensitivity = SensitivitySensitive)))
        (invalidDerived "unsupported memory sensitivity");
  reject_if (negb (bool_decide (retention = RetentionClassStandard)) &&
             negb (bool_decide (retention = RetentionClassEphemeral)))
    (invalidDerived "unsupported memory retention").

Definition SourceRecordV2_Validate (s : SourceRecordV2) : result unit :=
  _ ← reject_if (negb (isCanonicalID (sr_SourceID s))) (invalidDerived "source id is required");
  _ ← Scope_Validate (sr_Scope s);
  _ ← validateSensitivityRetention (sr_Sensitivity s) (sr_Retention s);
  PayloadRef_Validate (sr_Payload s).

Definition known_role (role : string) : bool :=
  bool_decide (role = MessageRoleUser) || bool_decide (role = MessageRoleAssistant) ||
  bool_decide (role = MessageRoleTool).

Definition MessageRecord_Validate (m : MessageRecord) : result unit :=
  _ ← reject_if (negb (isCanonicalID (mr_MessageID m)) || negb (isCanonicalID (mr_SourceID m)))
        (invalidDerived "message identity is invalid");
  _ ← reject_if (negb (known_role (mr_Role m))) (invalidDerived "message role is invalid");
  PayloadRef_Validate (mr_Payload m).

Definition known_lifecycle (t : string) : bool :=
  bool_decide (t = LifecycleEventActivate) || bool_decide (t = LifecycleEventSupersede) ||
  bool_decide (t = LifecycleEventInvalidate) || bool_decide (t = LifecycleEventForget).

Definition LifecycleEvent_Validate (l : LifecycleEvent) : result unit :=
  _ ← reject_if (negb (isCanonicalID (le_EventID l)) || negb (isCanonicalID (le_RevisionID l)) ||
                 (le_OccurredAt l =? 0))
        (invalidDerived "lifecycle event identity is invalid");
  reject_if (negb (known_lifecycle (le_Type l))) (invalidDerived "unsupported lifecycle event").

Definition validateEvidenceRefs (evidence : list EvidenceRef) : result unit :=
  check_unique EvidenceRef_Validate
    (invalidDerived "memory evidence contains a duplicate reference") [] evidence.

(** [validateUniqueMemoryIDs], with the two messages of its [name]. *)
Definition validateUniqueMemoryIDs (ids : list string) (name : string) : result unit :=
  check_unique (λ id, reject_if (negb (isCanonicalID id)) (invalidDerived (name +:+ " is invalid")))
    (invalidDerived (name +:+ " is duplicated")) [] ids.

Definition MemoryCandidate_Validate (c : MemoryCandidate) : result unit :=
  _ ← reject_if (negb (bool_decide (mc_Kind c = MemoryKindState)) &&
                 negb (bool_decide (mc_Kind c = MemoryKindEvent)))
        (invalidDerived "unsupported memory candidate kind");
  _ ← reject_if (negb (bool_decide (TrimSpace (mc_Statement c) = mc_Statement c)) ||
                 bool_decide (mc_Statement c = "") || (maxMemoryTextBytes <? len (mc_Statement c)))
        (invalidDerived "memory candidate statement is invalid");
  _ ← Temporal_Validate (mc_Temporal c);
  _ ← reject_if ((Zlength (mc_Evidence c) =? 0) || (MaxSourcesPerRevision <? Zlength (mc_Evidence c)))
        (invalidDerived "memory candidate evidence is invalid");
  _ ← validateEvidenceRefs (mc_Evidence c);
  validateSensitivityRetention (mc_Sensitivity c) (mc_Retention c).

Definition MemoryRevision_Validate (r : MemoryRevision) : result unit :=
  _ ← reject_if (negb (bool_decide (rv_SchemaVersion r = MemorySchemaVersionV2)) ||
                 negb (isCanonicalID (rv_RevisionID r)) || negb (isCanonicalID (rv_ItemID r)) ||
                 (rv_Revision r =? 0))
        (invalidDerived "memory revision identity is invalid");
  _ ← Temporal_Validate (rv_Temporal r);
  _ ← reject_if ((Zlength (rv_Evidence r) =? 0) || (MaxSourcesPerRevision <? Zlength (rv_Evidence r)))
        (invalidDerived "memory revision evidence is invalid");
  _ ← validateEvidenceRefs (rv_Evidence r);
  _ ← validateUniqueMemoryIDs (rv_Parents r) "memory revision parent";
  _ ← for_each (λ parent, reject_if (bool_decide (parent = rv_RevisionID r))
        (invalidDerived "memory revision cannot parent itself")) (rv_Parents r);
  _ ← validateSensitivityRetention (rv_Sensitivity r) (rv_Retention r);
  PayloadRef_Validate (rv_Payload r).

(** ** The record envelope *)

(** The length varint of [appendProtoBytes]; ten groups of seven bits hold a
    [uint64]. *)
Fixpoint append_varint (fuel : nat) (length : Z) : string :=
  match fuel with
  | O => ""
  | S fuel =>
      let part := Z.land length 0x7f in
      if length <? 0x80 then String (char_of part) ""
      else String (char_of (Z.lor part 0x80)) (append_varint fuel (Z.shiftr length 7))
  end.

Definition appendProtoBytes (field : Z) (value : string) : string :=
  String (char_of (Z.lor (Z.shiftl field 3) 2)) (append_varint 10 (u64 (len value)) +:+ value).

Definition marshalEnvelope (e : RecordEnvelope) : string :=
  appendProtoBytes 1 (re_SchemaVersion e) +:+ appendProtoBytes 2 (re_RecordType e) +:+
  appendProtoBytes 3 (re_PayloadSHA256 e) +:+ appendProtoBytes 4 (re_Payload e).

Definition MarshalRecordEnvelope (recordType payload : string) : result string :=
  _ ← reject_if (negb (isCanonicalID recordType) || bool_decide (payload = ""))
        (invalidDerived "record envelope is invalid");
  Ok (marshalEnvelope (mkRecordEnvelope MemorySchemaVersionV2 recordType (sha256_hex payload) payload)).

(** [readProtoVarint] on the bytes from the offset; the offset after it is the
    remaining text.  [rounds] counts the shifts below 64. *)
Fixpoint read_varint (rounds : nat) (shift value : Z) (encoded : string) : option (Z * string) :=
  match rounds, encoded with
  | S rounds, String c rest =>
      let part := byte_of c in
      let value := Z.lor value (u64 (Z.shiftl (Z.land part 0x7f) shift)) in
      if part <? 0x80 then Some (value, rest) else read_varint rounds (shift + 7) value rest
  | _, _ => None
  end.
Definition readProtoVarint (encoded : string) : option (Z * string) := read_varint 10 0 0 encoded.

(** The field loop of [UnmarshalRecordEnvelope]; each round consumes a byte, so
    the length of the text is enough fuel. *)
Fixpoint read_fields (fuel : nat) (fields : gmap Z string) (encoded : string) :
    result (gmap Z string) :=
  match fuel, encoded with
  | _, EmptyString => Ok fields
  | O, _ => Err (invalidDerived "record envelope is malformed")
  | S fuel, _ =>
      match readProtoVarint encoded with
      | None => Err (invalidDerived "record envelope is malformed")
      | Some (tag, next) =>
          if (Z.shiftr tag 3 <? 1) || (4 <? Z.shiftr tag 3) || negb (Z.land tag 7 =? 2)
          then Err (invalidDerived "record envelope is malformed") else
          match readProtoVarint next with
          | None => Err (invalidDerived "record envelope payload is malformed")
          | Some (length, value) =>
              if len value <? length
              then Err (invalidDerived "record envelope payload is malformed") else
              let field := Z.shiftr tag 3 in
              if bool_decide (is_Some (fields !! field))
              then Err (invalidDerived "record envelope contains duplicate field") else
              read_fields fuel (<[field := take_bytes (Z.to_nat length) value]> fields)
                (drop_bytes (Z.to_nat length) value)
          end
      end
  end.

Definition UnmarshalRecordEnvelope (encoded : string) : result RecordEnvelope :=
  fields ← read_fields (String.length encoded) ∅ encoded;
  let get n := default "" (fields !! n) in
  let envelope := mkRecordEnvelope (get 1) (get 2) (get 3) (get 4) in
  _ ← reject_if (negb (bool_decide (re_SchemaVersion envelope = MemorySchemaVersionV2)) ||
                 negb (isCanonicalID (re_RecordType envelope)) || bool_decide (re_Payload envelope = ""))
        (invalidDerived "record envelope is invalid");
  _ ← reject_if (negb (bool_decide (re_PayloadSHA256 envelope = sha256_hex (re_Payload envelope))))
        (invalidDerived "record envelope checksum does not match payload");
  Ok envelope.

(** ** Tuple keys *)
Fixpoint tuple_components (components : list string) : result string :=
  match components with
  | [] => Ok ""
  | c :: components =>
      _ ← reject_if (negb (isCanonicalID c)) (invalidDerived "tuple key component is invalid");
      _ ← reject_if (65535 <? len c) (limitExceeded "tuple key component is too large");
      rest ← tuple_components components;
      Ok (framed 2 c +:+ rest)
  end.

Definition TupleKey (namespace version : Z) (components : list string) : result string :=
  rest ← tuple_components components;
  Ok (String (char_of namespace) (String (char_of version) rest)).

(** ** Varints *)
Lemma land_127 n : Z.land n 127 = n mod 2 ^ 7.
Proof. change 127 with (Z.ones 7). by apply Z.land_ones. Qed.

Lemma byte_of_small b : 0 ≤ b < 256 → byte_of (char_of b) = b.
Proof. intros H. rewrite byte_of_char_of. unfold u8. by apply Z.mod_small. Qed.

(** The low group and the rest of a number are its parts. *)
Lemma split_groups n s :
  0 ≤ s → 0 ≤ n →
  Z.lor (Z.shiftl (n mod 2 ^ 7) s) (Z.shiftl (Z.shiftr n 7) (s + 7)) = Z.shiftl n s.
Proof.
  intros Hs Hn. apply Z.bits_inj'. intros k Hk. rewrite Z.lor_spec, !Z.shiftl_spec by lia.
  destruct (Z_lt_le_dec (k - s) 0).
  - rewrite !Z.testbit_neg_r by lia. done.
  - replace (k - (s + 7)) with (k - s - 7) by lia. destruct (Z_lt_le_dec (k - s) 7).
    + rewrite Z.mod_pow2_bits_low by lia. rewrite (Z.testbit_neg_r _ (k - s - 7)) by lia.
      by rewrite orb_false_r.
    + rewrite Z.mod_pow2_bits_high by lia. rewrite Z.shiftr_spec by lia. cbn. f_equal. lia.
Qed.

Lemma lor_128 p : 0 ≤ p < 128 → Z.lor p 128 = p + 128.
Proof.
  intros H. rewrite Z.add_nocarry_lxor, Z.lxor_lor; [done|..]; apply Z.bits_inj'; intros k Hk;
    rewrite Z.land_spec, Z.bits_0; change 128 with (2 ^ 7); rewrite Z.pow2_bits_eqb by lia;
    destruct (Z.eqb_spec 7 k) as [<-|]; rewrite ?andb_false_r; try done;
    rewrite andb_true_r; apply Z.bits_above_log2; try lia;
    (destruct (decide (p = 0)) as [->|]; [cbn; lia | apply Z.log2_lt_pow2; lia]).
Qed.

Lemma read_append_varint fuel n shift v rest :
  (0 < fuel)%nat → 0 ≤ shift → 0 ≤ n < 2 ^ (7 * Z.of_nat fuel) → Z.shiftl n shift < 2 ^ 64 →
  read_varint fuel shift v (append_varint fuel n +:+ rest) = Some (Z.lor v (Z.shiftl n shift), rest).
Proof.
  revert n shift v. induction fuel as [|fuel IH]; intros n shift v Hf Hs Hn Hb.
  - lia.
  - assert (Hlow : 0 ≤ n mod 2 ^ 7 < 128) by (apply Z.mod_pos_bound; lia).
    assert (Hsh : Z.shiftl (n mod 2 ^ 7) shift ≤ Z.shiftl n shift).
    { rewrite !Z.shiftl_mul_pow2 by done. apply Z.mul_le_mono_nonneg_r; [lia|]. apply Z.mod_le; lia. }
    assert (Hu : u64 (Z.shiftl (n mod 2 ^ 7) shift) = Z.shiftl (n mod 2 ^ 7) shift).
    { apply u64_small. split; [apply Z.shiftl_nonneg; lia | lia]. }
    cbn [append_varint]. rewrite land_127. destruct (Z.ltb_spec n 0x80) as [Hlt|Hge].
    + assert (Hm : n mod 2 ^ 7 = n) by (apply Z.mod_small; lia). rewrite Hm in *.
      rewrite append_cons. cbn [read_varint]. rewrite byte_of_small by lia.
      rewrite land_127, Hm, Hu. rewrite (proj2 (Z.ltb_lt _ _) Hlt). done.
    + rewrite lor_128 by done. rewrite append_cons. cbn [read_varint].
      rewrite byte_of_small by lia.
      rewrite (proj2 (Z.ltb_ge (n mod 2 ^ 7 + 128) 128)) by lia.
      assert (Hmm : (n mod 2 ^ 7 + 128) mod 2 ^ 7 = n mod 2 ^ 7).
      { replace (n mod 2 ^ 7 + 128) with (n mod 2 ^ 7 + 1 * 2 ^ 7) by lia.
        rewrite Z.mod_add by lia. by rewrite Z.mod_mod by lia. }
      rewrite land_127, Hmm, Hu, IH.
      * f_equal. f_equal. rewrite <-Z.lor_assoc. f_equal. by apply split_groups; lia.
      * destruct fuel; [cbn in Hn; lia | lia].
      * lia.
      * rewrite Z.shiftr_div_pow2 by lia. split; [apply Z.div_pos; lia|].
        apply Z.div_lt_upper_bound; [lia|]. rewrite <-Z.pow_add_r by lia.
        replace (7 + 7 * Z.of_nat fuel) with (7 * Z.of_nat (S fuel)) by lia. lia.
      * apply Z.le_lt_trans with (Z.shiftl n shift); [|done].
        rewrite Z.shiftr_div_pow2, !Z.shiftl_mul_pow2, Z.pow_add_r, (Z.mul_comm (2 ^ shift)), Z.mul_assoc by lia.
        apply Z.mul_le_mono_nonneg_r; [lia|].
        pose proof (Z.mul_div_le n (2 ^ 7) ltac:(lia)). lia.
Qed.

Lemma read_append n rest :
  0 ≤ n < 2 ^ 64 → readProtoVarint (append_varint 10 n +:+ rest) = Some (n, rest).
Proof.
  intros Hn. unfold readProtoVarint. rewrite read_append_varint; [|lia|lia|cbn; lia|].
  - rewrite Z.lor_0_l, Z.shiftl_0_r. done.
  - rewrite Z.shiftl_0_r. lia.
Qed.

(** A tag is one byte below 128. *)
Lemma read_tag field rest :
  1 ≤ field ≤ 4 →
  readProtoVarint (String (char_of (Z.lor (Z.shiftl field 3) 2)) rest) = Some (field * 8 + 2, rest).
Proof.
  intros Hf. assert (field = 1 ∨ field = 2 ∨ field = 3 ∨ field = 4) as [->|[->|[->| ->]]] by lia; done.
Qed.

Lemma take_append v rest : take_bytes (String.length v) (v +:+ rest) = v.
Proof. induction v as [|c v IH]; [by destruct rest|]. rewrite append_cons. simpl. by rewrite IH. Qed.

Lemma drop_append v rest : drop_bytes (String.length v) (v +:+ rest) = rest.
Proof. induction v as [|c v IH]; [by destruct rest|]. rewrite append_cons. simpl. exact IH. Qed.

Lemma read_field fuel fields field value rest :
  1 ≤ field ≤ 4 → fields !! field = None → fits 8 value →
  read_fields (S fuel) fields (appendProtoBytes field value +:+ rest) =
  read_fields fuel (<[field := value]> fields) rest.
Proof.
  intros Hf Hnew Hfit. unfold appendProtoBytes. rewrite append_cons, append_assoc. cbn [read_fields].
  rewrite read_tag by done.
  assert (Hs : Z.shiftr (field * 8 + 2) 3 = field).
  { rewrite Z.shiftr_div_pow2 by lia. change (2 ^ 3) with 8. symmetry.
    apply Z.div_unique with 2; lia. }
  assert (Ht : Z.land (field * 8 + 2) 7 = 2).
  { change 7 with (Z.ones 3). rewrite Z.land_ones by lia. change (2 ^ 3) with 8.
    symmetry. apply Z.mod_unique with field; lia. }
  rewrite Hs, Ht. rewrite (proj2 (Z.ltb_ge field 1)), (proj2 (Z.ltb_ge 4 field)) by lia.
  cbn [orb negb Z.eqb]. change (2 =? 2) with true. cbn [negb].
  unfold fits in Hfit. pose proof (len_nonneg value).
  rewrite u64_small by (split; [done|]; exact Hfit).
  rewrite read_append by (split; [done|]; exact Hfit).
  rewrite (proj2 (Z.ltb_ge _ _)) by (rewrite len_append; pose proof (len_nonneg rest); lia).
  rewrite bool_decide_false by (rewrite Hnew; by intros [? ?]).
  assert (Hn : Z.to_nat (len value) = String.length value) by (unfold len; lia).
  by rewrite Hn, take_append, drop_append.
Qed.

Lemma UnmarshalRecordEnvelope_Ok encoded e :
  UnmarshalRecordEnvelope encoded = Ok e →
  re_SchemaVersion e = MemorySchemaVersionV2 ∧ isCanonicalID (re_RecordType e) = true ∧
  re_Payload e ≠ "" ∧ re_PayloadSHA256 e = sha256_hex (re_Payload e).
Proof. unfold UnmarshalRecordEnvelope. intros H. inv_ok. subst. done. Qed.

(** ** Tuple keys *)
Lemma tuple_components_Ok cs x :
  tuple_components cs = Ok x ↔
  Forall (λ c, isCanonicalID c = true ∧ len c ≤ 65535) cs ∧ x = framed_all 2 cs.
Proof.
  revert x. induction cs as [|c cs IH]; intros x; cbn [tuple_components framed_all].
  - split; [|by intros [_ ->]]. intros [= <-]. split; [constructor | done].
  - rewrite !reject_bind, bind_Ok, negb_false_iff, Z.ltb_ge, Forall_cons. setoid_rewrite IH. split.
    + intros (H1 & H2 & y & [H3 ->] & [= <-]). done.
    + intros [((H1 & H2) & H3) ->]. eauto 10.
Qed.

Lemma TupleKey_Ok ns v cs k :
  TupleKey ns v cs = Ok k ↔
  Forall (λ c, isCanonicalID c = true ∧ len c ≤ 65535) cs ∧
  k = String (char_of ns) (String (char_of v) (framed_all 2 cs)).
Proof.
  unfold TupleKey. rewrite bind_Ok. setoid_rewrite tuple_components_Ok. split.
  - intros (x & [H ->] & [= <-]). done.
  - intros [H ->]. eauto.
Qed.

Lemma tuple_fits cs : Forall (λ c, isCanonicalID c = true ∧ len c ≤ 65535) cs → Forall (fits 2) cs.
Proof. intros H. eapply Forall_impl; [exact H|]. intros c [_ Hc]. unfold fits. cbn. lia. Qed.

Lemma char_of_inj a b : 0 ≤ a < 256 → 0 ≤ b < 256 → char_of a = char_of b → a = b.
Proof. intros Ha Hb H. rewrite <-(byte_of_small a), <-(byte_of_small b), H by done. done. Qed.

(** A framed sequence followed by anything starts with the components of every
    framed sequence it has as a prefix. *)
Lemma framed_prefix cs ds t :
  Forall (fits 2) cs → Forall (fits 2) ds →
  framed_all 2 ds = framed_all 2 cs +:+ t → ∃ es, ds = cs ++ es ∧ t = framed_all 2 es.
Proof.
  revert ds. induction cs as [|c cs IH]; intros ds Hc Hd; cbn [framed_all].
  - intros H. exists ds. by rewrite H.
  - apply Forall_cons in Hc as [Hc Hcs]. rewrite append_assoc. destruct ds as [|d ds]; cbn [framed_all].
    + intros H. symmetry in H. by apply framed_nonempty in H; [|lia].
    + apply Forall_cons in Hd as [Hd Hds]. intros H. apply framed_inj in H as [-> H]; [|done..].
      destruct (IH ds Hcs Hds H) as (es & -> & ->). by exists es.
Qed.

(** ** Properties *)

(** C35. Records survive their envelope: unmarshalling what was marshalled gives back
    the schema version, the record type, the payload and its digest. *)
Theorem envelope_round_trip recordType payload encoded :
  MarshalRecordEnvelope recordType payload = Ok encoded → fits 8 recordType → fits 8 payload →
  UnmarshalRecordEnvelope encoded =
    Ok (mkRecordEnvelope MemorySchemaVersionV2 recordType (sha256_hex payload) payload).
Proof.
  unfold MarshalRecordEnvelope. rewrite reject_bind, orb_false_iff, negb_false_iff, bool_decide_eq_false.
  intros [[Hty Hne] [= <-]] Hft Hfp. unfold UnmarshalRecordEnvelope, marshalEnvelope.
  cbn [re_SchemaVersion re_RecordType re_PayloadSHA256 re_Payload].
  set (e4 := appendProtoBytes 4 payload). set (e3 := appendProtoBytes 3 (sha256_hex payload)).
  assert (Hlong : ∃ f, String.length (appendProtoBytes 1 MemorySchemaVersionV2 +:+
    appendProtoBytes 2 recordType +:+ e3 +:+ e4) = S (S (S (S f)))).
  { subst e3 e4. unfold appendProtoBytes. rewrite !length_append. cbn [String.length].
    rewrite !length_append. eexists. rewrite !Nat.add_succ_r, !Nat.add_succ_l. reflexivity. }
  destruct Hlong as [f Hlong]. rewrite Hlong. subst e3 e4.
  assert (Hsha : fits 8 (sha256_hex payload)) by (unfold fits, len; rewrite length_sha256_hex; cbn; lia).
  rewrite !read_field; try done; try (unfold fits; cbn; lia).
  rewrite <-(append_nil_r (appendProtoBytes 4 payload)), read_field; try done.
  assert (Hnil : ∀ m, read_fields f m "" = Ok m) by (intros m; by destruct f).
  rewrite Hnil. cbn [mbind result_bind].
  assert (H1 : ∀ m1 m2 m3 m4 : string, let m := <[4:=m4]> (<[3:=m3]> (<[2:=m2]> (<[1:=m1]> (∅ : gmap Z string)))) in
    m !! 1 = Some m1 ∧ m !! 2 = Some m2 ∧ m !! 3 = Some m3 ∧ m !! 4 = Some m4).
  { intros m1 m2 m3 m4. cbv zeta. repeat split; by simplify_map_eq. }
  destruct (H1 MemorySchemaVersionV2 recordType (sha256_hex payload) payload) as (-> & -> & -> & ->).
  unfold default, id. apply reject_bind. cbn [re_SchemaVersion re_RecordType re_PayloadSHA256 re_Payload].
  rewrite Hty, bool_decide_true, bool_decide_false by done. split; [done|]. apply reject_bind.
  by rewrite bool_decide_true.
Qed.

(** Tuple keys isolate scopes: a key determines its namespace, version and
    components, and a key that starts with another key's bytes continues that
    key's components, so a prefix scan over one scope never meets another. *)
Theorem tuple_key_prefix_free ns v cs k ns' v' ds k' t :
  TupleKey ns v cs = Ok k → TupleKey ns' v' ds = Ok k' → k' = k +:+ t →
  0 ≤ ns < 256 → 0 ≤ v < 256 → 0 ≤ ns' < 256 → 0 ≤ v' < 256 →
  ns' = ns ∧ v' = v ∧ ∃ es, ds = cs ++ es ∧ (t = "" → es = []).
Proof.
  intros (Hc & ->)%TupleKey_Ok (Hd & ->)%TupleKey_Ok H ? ? ? ?.
  rewrite !append_cons in H. injection H as Hns Hv H.
  apply char_of_inj in Hns as ->; [|done|done]. apply char_of_inj in Hv as ->; [|done|done].
  destruct (framed_prefix cs ds t (tuple_fits _ Hc) (tuple_fits _ Hd) H) as (es & -> & ->).
  split; [done|]. split; [done|]. exists es. split; [done|]. intros He.
  destruct es as [|e es]; [done|]. exfalso. cbn [framed_all] in He. by apply framed_nonempty in He; [|lia].
Qed.

(** Every string is a valid tuple-key component exactly when it is a canonical id of
    at most 65535 bytes; a scope key with a tab inside its address passes scope
    validation and is refused as a component. *)
Theorem scope_key_not_a_component :
  (∀ c, is_ok (TupleKey 1 1 [c]) = isCanonicalID c && (len c <=? 65535)) ∧
  Scope_Validate (mkScope (String "t" (String ":" (String "a" (String TAB "b")))) ScopeKindPersonal) = Ok tt ∧
  isCanonicalID (String "t" (String ":" (String "a" (String TAB "b")))) = false.
Proof.
  split; [|split; vm_compute; reflexivity]. intros c. apply eq_bool_prop_intro.
  rewrite !Is_true_true, is_ok_true. setoid_rewrite TupleKey_Ok. rewrite andb_true_iff, Z.leb_le. split.
  - intros (k & H & _). rewrite Forall_singleton in H. exact H.
  - intros H. eexists. split; [|reflexivity]. rewrite Forall_singleton. exact H.
Qed.

(** ** Evidence spans *)
Definition text_span (text : string) (startByte endByte : Z) : string :=
  take_bytes (Z.to_nat (endByte - startByte)) (drop_bytes (Z.to_nat startByte) text).

Lemma utf8Boundary_boundary text offset :
  0 ≤ offset → utf8Boundary text offset = true → boundary text (Z.to_nat offset).
Proof.
  intros H0. unfold utf8Boundary, boundary.
  destruct (Z.eqb_spec offset 0) as [->|]; [by left|].
  destruct (Z.eqb_spec offset (len text)) as [->|]; cbn [orb].
  { intros _. right. left. unfold len. lia. }
  rewrite andb_true_iff. intros [_ H]. right. right. unfold byte_at in H.
  destruct (String.get (Z.to_nat offset) text) as [c|]; [eauto | done].
Qed.

Lemma get_drop_bytes text n m : String.get n (drop_bytes m text) = String.get (m + n) text.
Proof.
  revert m. induction text as [|c text IH]; intros [|m]; simpl; try done.
Qed.

Lemma length_drop text n : String.length (drop_bytes n text) = (String.length text - n)%nat.
Proof. revert n. induction text as [|c text IH]; intros [|n]; simpl; try done. Qed.

Lemma NewEvidenceRef_Ok sourceID messageID role text a b mode e :
  NewEvidenceRef sourceID messageID role text a b mode = Ok e ↔
  isCanonicalID sourceID = true ∧ isCanonicalID messageID = true ∧ ValidString text = true ∧
  a < b ∧ b ≤ u32 (len text) ∧ utf8Boundary text a = true ∧ utf8Boundary text b = true ∧
  e = mkEvidenceRef sourceID messageID role a b mode (sha256_hex text) ∧ EvidenceRef_Validate e = Ok tt.
Proof.
  unfold NewEvidenceRef. rewrite !reject_bind, bind_unit, !orb_false_iff, !negb_false_iff, Z.leb_gt, Z.ltb_ge.
  split; [intros (? & ? & ? & [= <-]); tauto | intros (? & ? & ? & ? & ? & ? & ? & -> & ?); tauto].
Qed.

(** An evidence span is a non-empty piece of valid UTF-8 text: what the accepted
    byte range of the message cuts out is itself valid UTF-8, lies inside the
    text, and the digest binds it to the whole text. *)
Theorem evidence_span_is_text sourceID messageID role text a b mode e :
  NewEvidenceRef sourceID messageID role text a b mode = Ok e → 0 ≤ a → len text < 2 ^ 32 →
  ev_StartByte e = a ∧ ev_EndByte e = b ∧ a < b ≤ len text ∧
  len (text_span text a b) = b - a ∧ ValidString (text_span text a b) = true ∧
  ev_TextDigest e = sha256_hex text.
Proof.
  intros (_ & _ & Hv & Hab & Hb & Hba & Hbb & -> & _)%NewEvidenceRef_Ok H0 Hlen.
  rewrite u32_small in Hb by (split; [apply len_nonneg | done]).
  apply ValidString_valid in Hv. apply utf8Boundary_boundary in Hba, Hbb; [|lia|lia].
  destruct (utf8_split text _ Hv Hba) as [_ Hd].
  assert (Hn : Z.to_nat b = (Z.to_nat a + Z.to_nat (b - a))%nat) by lia.
  assert (Hcut : boundary (drop_bytes (Z.to_nat a) text) (Z.to_nat (b - a))).
  { unfold boundary. rewrite length_drop, get_drop_bytes, <-Hn. unfold len in Hb.
    destruct Hbb as [Hz|[Hz|Hz]]; [lia | right; left; lia | right; by right]. }
  destruct (utf8_split _ _ Hd Hcut) as [Ht _]. cbn [ev_StartByte ev_EndByte ev_TextDigest].
  do 3 (split; [done|]). unfold text_span. split; [|split; [by apply ValidString_valid | done]].
  unfold len in *.
  assert (Htake : ∀ n s, (n ≤ String.length s)%nat → String.length (take_bytes n s) = n).
  { clear. intros n s. revert n. induction s as [|c s IH]; intros [|n]; simpl; try lia.
    intros H. by rewrite IH by lia. }
  rewrite Htake by (rewrite length_drop; lia). lia.
Qed.

(** ** Witnesses *)
Lemma envelope_round_trip_witness :
  UnmarshalRecordEnvelope (default "" (match MarshalRecordEnvelope "item" "payload" with
                                       | Ok x => Some x | Err _ => None end)) =
    Ok (mkRecordEnvelope MemorySchemaVersionV2 "item" (sha256_hex "payload") "payload").
Proof.
  apply (envelope_round_trip "item" "payload").
  - vm_compute. reflexivity.
  - vm_compute. reflexivity.
  - vm_compute. reflexivity.
Defined.

Definition key_of_components (cs : list string) : string :=
  match TupleKey 7 1 cs with Ok k => k | Err _ => "" end.

Lemma tuple_key_prefix_free_witness :
  7 = 7 ∧ 1 = 1 ∧ ∃ es, ["scope"; "item"] = ["scope"] ++ es ∧
    (drop_bytes 9 (key_of_components ["scope"; "item"]) = "" → es = []).
Proof.
  apply (tuple_key_prefix_free 7 1 ["scope"] (key_of_components ["scope"]) 7 1 ["scope"; "item"]
    (key_of_components ["scope"; "item"]) (drop_bytes 9 (key_of_components ["scope"; "item"])));
    try lia; vm_compute; reflexivity.
Defined.

Lemma evidence_span_is_text_witness :
  let e := mkEvidenceRef "src" "msg" "user" 2 4 "user" (sha256_hex "h é") in
  ev_StartByte e = 2 ∧ ev_EndByte e = 4 ∧ 2 < 4 ≤ len "h é" ∧
  len (text_span "h é" 2 4) = 4 - 2 ∧ ValidString (text_span "h é" 2 4) = true ∧
  ev_TextDigest e = sha256_hex "h é".
Proof.
  apply (evidence_span_is_text "src" "msg" "user" "h é" 2 4 "user").
  - vm_compute. reflexivity.
  - lia.
  - vm_compute. reflexivity.
Defined.
