(* ===== verification/MemoryDerived.v ===== *)
(** * MemoryDerived: derived memory, its identities and its lifecycle

    Models src/sessionmemory/derived.go, derived_id.go and derived_validation.go:
    atoms, scenarios and profiles with their provenance, the identities derived
    from content and provenance, the validation of complete revisions and of
    model candidates, and the revision and source lifecycles. *)

From Stdlib Require Import ZArith Lia Ascii String.
From stdpp Require Import base numbers list gmap strings sorting relations.
From S2P Require Import Prelude.
From S2P Require Import GoStrings.
From S2P Require Import Sha256.
From S2P Require Import MemoryTypes.
From S2P Require Import MemoryRecords.

Local Open Scope string_scope.
Local Open Scope list_scope.
Local Open Scope Z_scope.

Definition DerivedSchemaVersionV1 : string := "session-memory-derived/v1".
Definition MaxDerivedTurnTextBytes : Z := 256 * 1024.
Definition MaxCandidateCount : Z := 32.
Definition MaxDerivedTextBytes : Z := 32 * 1024.
Definition MaxSnapshotItems : Z := 2048.
Definition MaxSearchQueryBytes : Z := 4096.

(** ** Closed vocabularies: the value must be one of a list. *)
Definition one_of (values : list string) (v : string) (message : string) : result unit :=
  reject_if (negb (bool_decide (v ∈ values))) (invalidDerived message).

Definition DerivedKindAtom : string := "atom".
Definition DerivedKindScenario : string := "scenario".
Definition DerivedKindProfile : string := "profile".
Definition DerivedKind_Validate (k : string) : result unit :=
  one_of [DerivedKindAtom; DerivedKindScenario; DerivedKindProfile] k "unsupported derived kind".

Definition AtomCategory_Validate (c : string) : result unit :=
  one_of ["fact"; "preference"; "constraint"; "decision"; "event"] c "unsupported atom category".

Definition RevisionStateActive : string := "active".
Definition RevisionStateSuperseded : string := "superseded".
Definition RevisionStateInvalidated : string := "invalidated".
Definition RevisionState_Validate (s : string) : result unit :=
  one_of [RevisionStateActive; RevisionStateSuperseded; RevisionStateInvalidated] s
    "unsupported revision state".

Definition SourceStateActive : string := "active".
Definition SourceStateForgotten : string := "forgotten".
Definition SourceState_Validate (s : string) : result unit :=
  one_of [SourceStateActive; SourceStateForgotten] s "unsupported source state".

Definition CandidateRelationNew : string := "new".
Definition CandidateRelationCoexist : string := "coexist".
Definition CandidateRelationSupersede : string := "supersede".
Definition CandidateRelation_Validate (r : string) : result unit :=
  one_of [CandidateRelationNew; CandidateRelationCoexist; CandidateRelationSupersede] r
    "unsupported candidate relation".

Definition OperationStageAtoms : string := "atoms".
Definition OperationStageScenarios : string := "scenarios".
Definition OperationStageProfile : string := "profile".
Definition OperationStage_Validate (s : string) : result unit :=
  one_of [OperationStageAtoms; OperationStageScenarios; OperationStageProfile] s
    "unsupported operation stage".

Definition ProfileDispositionSkip : string := "skip".
Definition ProfileDispositionUpsert : string := "upsert".
Definition ProfileDisposition_Validate (d : string) : result unit :=
  one_of [ProfileDispositionSkip; ProfileDispositionUpsert] d
    "unsupported profile candidate disposition".

(** ** Records *)
Record DerivationRef := mkDerivationRef {
  dr_Pipeline : string; dr_Policy : string; dr_Prompt : string; dr_Model : string }.
#[export] Instance DerivationRef_eq_dec : EqDecision DerivationRef.
Proof. solve_decision. Defined.

Definition LegacyDerivationRef : DerivationRef :=
  mkDerivationRef "legacy-v1" "legacy-v1" "legacy-v1" "legacy-v1".

Record SourceRef := mkSourceRef {
  so_Scope : Scope; so_ExportID : string; so_SessionID : string; so_SourceTurnID : string }.
#[export] Instance SourceRef_eq_dec : EqDecision SourceRef.
Proof. solve_decision. Defined.

Record RevisionRef := mkRevisionRef { rr_ItemID : string; rr_RevisionID : string }.
#[export] Instance RevisionRef_eq_dec : EqDecision RevisionRef.
Proof. solve_decision. Defined.

Record Provenance := mkProvenance {
  pv_RawSources : list SourceRef; pv_ParentRevisions : list RevisionRef }.

Record RevisionMeta := mkRevisionMeta {
  rm_SchemaVersion : string; rm_Kind : string; rm_ItemID : string; rm_RevisionID : string;
  rm_Revision : Z; rm_OperationID : string; rm_Scope : Scope; rm_State : string;
  rm_Provenance : Provenance; rm_CreatedAt : Z; rm_Supersedes : option RevisionRef }.

Record Atom := mkAtom {
  at_Meta : RevisionMeta; at_Category : string; at_Text : string; at_Relation : string;
  at_RelatedRevision : option RevisionRef }.
Record Scenario := mkScenario {
  sn_Meta : RevisionMeta; sn_TopicKey : string; sn_Title : string; sn_Summary : string }.
Record Profile := mkProfile { pf_Meta : RevisionMeta; pf_Summary : string }.

Record AtomCandidate := mkAtomCandidate {
  ac_Category : string; ac_Text : string; ac_Relation : string; ac_Target : option RevisionRef }.
Record ScenarioCandidate := mkScenarioCandidate {
  scc_TopicKey : string; scc_Title : string; scc_Summary : string; scc_Atoms : list RevisionRef;
  scc_Supersedes : option RevisionRef }.
Record ProfileCandidate := mkProfileCandidate {
  pc_Disposition : string; pc_Summary : string; pc_Atoms : list RevisionRef;
  pc_Scenarios : list RevisionRef; pc_Supersedes : option RevisionRef }.

Record OperationOutcome := mkOperationOutcome {
  oo_SchemaVersion : string; oo_OperationID : string; oo_Stage : string; oo_Scope : Scope;
  oo_ScopeVersion : Z; oo_Revisions : list RevisionRef }.
Record BoundaryOutcome := mkBoundaryOutcome {
  bo_SchemaVersion : string; bo_Scope : Scope; bo_Scenarios : OperationOutcome;
  bo_Profile : OperationOutcome }.

(** ** Reference validation *)
Definition DerivationRef_Validate (r : DerivationRef) : result unit :=
  for_each (λ field, reject_if (negb (isCanonicalID field))
      (invalidDerived "derivation fingerprint is required"))
    [dr_Pipeline r; dr_Policy r; dr_Prompt r; dr_Model r].

Definition SourceRef_Validate (r : SourceRef) : result unit :=
  _ ← Scope_Validate (so_Scope r);
  _ ← reject_if (negb (isCanonicalID (so_ExportID r))) (invalidDerived "source export id is required");
  _ ← reject_if (negb (isCanonicalID (so_SessionID r))) (invalidDerived "source session id is required");
  reject_if (negb (isCanonicalID (so_SourceTurnID r))) (invalidDerived "source turn id is required").

Definition RevisionRef_Validate (r : RevisionRef) : result unit :=
  _ ← reject_if (negb (isCanonicalID (rr_ItemID r))) (invalidDerived "derived item id is required");
  reject_if (negb (isCanonicalID (rr_RevisionID r))) (invalidDerived "derived revision id is required").

(** The raw-source loop of [Provenance.Validate]; [seen] holds the keys. *)
Fixpoint check_raw_sources (scope : Scope) (seen : list string) (sources : list SourceRef) :
    result unit :=
  match sources with
  | [] => Ok tt
  | source :: sources =>
      _ ← SourceRef_Validate source;
      _ ← reject_if (negb (bool_decide (so_Scope source = scope)))
            (PermanentError CodeScopeViolation "raw source scope does not match the derived scope" None);
      let key := sc_Key (so_Scope source) +:+ String "000"%char (so_ExportID source) in
      _ ← reject_if (bool_decide (key ∈ seen)) (invalidDerived "duplicate raw source reference");
      check_raw_sources scope (key :: seen) sources
  end.

Definition Provenance_Validate (scope : Scope) (p : Provenance) : result unit :=
  _ ← Scope_Validate scope;
  let total := Zlength (pv_RawSources p) + Zlength (pv_ParentRevisions p) in
  _ ← reject_if (total =? 0) (invalidDerived "derived provenance is required");
  _ ← reject_if (MaxSourcesPerRevision <? total)
        (limitExceeded "derived provenance exceeds the reference limit");
  _ ← check_raw_sources scope [] (pv_RawSources p);
  check_unique RevisionRef_Validate (invalidDerived "duplicate parent revision reference") []
    (pv_ParentRevisions p).

Definition validateRevisionRefs (refs : list RevisionRef) : result unit :=
  _ ← reject_if (MaxSourcesPerRevision <? Zlength refs)
        (limitExceeded "derived parent references exceed the limit");
  check_unique RevisionRef_Validate (invalidDerived "duplicate derived revision reference") [] refs.

(** ** Text *)
Definition normalizeDerivedText (value : string) : string := strings_Join (Fields value) " ".

Definition validateDerivedBounded (limit : Z) (name value : string) : result string :=
  _ ← reject_if (limit <? len value) (limitExceeded (name +:+ " exceeds the size limit"));
  let normalized := normalizeDerivedText value in
  _ ← reject_if (bool_decide (normalized = "")) (invalidDerived (name +:+ " is required"));
  Ok normalized.
Definition validateDerivedKey : string → string → result string :=
  validateDerivedBounded MaxSearchQueryBytes.
Definition validateDerivedText : string → string → result string :=
  validateDerivedBounded MaxDerivedTextBytes.

(** A text field that must already be normalized. *)
Definition require_normalized (check : string → string → result string) (name value : string) :
    result unit :=
  normalized ← check name value;
  reject_if (negb (bool_decide (normalized = value))) (invalidDerived (name +:+ " must be normalized")).

(** ** Identities *)
Definition derivedIDPrefix : string := "session-memory-derived:v1:".
Definition derived_preimage (kind : string) (parts : list string) : string :=
  framed_all 8 (DerivedSchemaVersionV1 :: kind :: parts).
Definition derivedStableID (kind : string) (parts : list string) : string :=
  derivedIDPrefix +:+ kind +:+ ":" +:+ sha256_hex (derived_preimage kind parts).

Definition AtomItemID (scope : Scope) (category text : string) : result string :=
  _ ← Scope_Validate scope;
  _ ← AtomCategory_Validate category;
  normalized ← validateDerivedText "atom text" text;
  Ok (derivedStableID "atom" [sc_Key scope; sc_Kind scope; category; normalized]).

Definition ScenarioItemID (scope : Scope) (topicKey : string) : result string :=
  _ ← Scope_Validate scope;
  normalized ← validateDerivedKey "scenario topic key" topicKey;
  Ok (derivedStableID "scenario" [sc_Key scope; sc_Kind scope; normalized]).

Definition ProfileItemID (scope : Scope) : result string :=
  _ ← Scope_Validate scope;
  Ok (derivedStableID "profile" [sc_Key scope; sc_Kind scope]).

Definition source_parts (r : SourceRef) : list string :=
  [sc_Key (so_Scope r); sc_Kind (so_Scope r); so_ExportID r; so_SessionID r; so_SourceTurnID r].
Definition revision_parts (r : RevisionRef) : list string := [rr_ItemID r; rr_RevisionID r].

(** [cmp.Compare] field by field: the first difference decides. *)
Fixpoint lex_leb (ps qs : list string) : bool :=
  match ps, qs with
  | [], _ => true
  | _ :: _, [] => false
  | p :: ps, q :: qs => if bool_decide (p = q) then lex_leb ps qs else string_leb p q
  end.
Definition parts_le {A} (parts : A → list string) (x y : A) : Prop :=
  lex_leb (parts x) (parts y) = true.
#[export] Instance parts_le_dec {A} (parts : A → list string) : RelDecision (parts_le parts).
Proof. intros x y. unfold parts_le. apply _. Defined.

(** [slices.SortFunc] with a comparison under which only equal references tie. *)
Definition canonicalProvenanceParts (p : Provenance) : list string :=
  (merge_sort (parts_le source_parts) (pv_RawSources p) ≫= λ s, "raw" :: source_parts s) ++
  (merge_sort (parts_le revision_parts) (pv_ParentRevisions p) ≫= λ r, "parent" :: revision_parts r).

Fixpoint map_check (f : string → result string) (l : list string) : result (list string) :=
  match l with
  | [] => Ok []
  | x :: l => y ← f x; ys ← map_check f l; Ok (y :: ys)
  end.

Definition validate_optional_ref (r : option RevisionRef) : result unit :=
  match r with Some r => RevisionRef_Validate r | None => Ok tt end.

Definition DerivedRevisionID (scope : Scope) (itemID operationID : string)
    (contentParts : list string) (provenance : Provenance) (supersedes : option RevisionRef) :
    result string :=
  _ ← Scope_Validate scope;
  _ ← reject_if (negb (isCanonicalID itemID)) (invalidDerived "derived item id is required");
  _ ← reject_if (negb (isCanonicalID operationID)) (invalidDerived "derived operation id is required");
  _ ← reject_if (bool_decide (contentParts = [])) (invalidDerived "derived revision content is required");
  normalizedParts ← map_check (validateDerivedText "derived revision content") contentParts;
  _ ← Provenance_Validate scope provenance;
  _ ← validate_optional_ref supersedes;
  Ok (derivedStableID "revision"
    ([sc_Key scope; sc_Kind scope; itemID; operationID] ++ normalizedParts ++
     canonicalProvenanceParts provenance ++
     match supersedes with
     | Some r => ["supersedes"; rr_ItemID r; rr_RevisionID r]
     | None => []
     end)).

(** ** Complete revisions *)
Definition validateRevisionMeta (meta : RevisionMeta) (kind itemID : string)
    (contentParts : list string) (allowCrossItemSupersession : bool) : result unit :=
  _ ← reject_if (negb (bool_decide (rm_SchemaVersion meta = DerivedSchemaVersionV1)))
        (invalidDerived "unsupported derived revision schema version");
  _ ← reject_if (negb (bool_decide (rm_Kind meta = kind)))
        (invalidDerived "derived revision kind does not match its value");
  _ ← reject_if (negb (bool_decide (rm_ItemID meta = itemID)))
        (invalidDerived "derived item id does not match its stable identity");
  _ ← reject_if (rm_Revision meta =? 0) (invalidDerived "derived revision number is required");
  _ ← reject_if (negb (isCanonicalID (rm_OperationID meta)))
        (invalidDerived "derived operation id is required");
  _ ← Scope_Validate (rm_Scope meta);
  _ ← RevisionState_Validate (rm_State meta);
  _ ← Provenance_Validate (rm_Scope meta) (rm_Provenance meta);
  _ ← reject_if (rm_CreatedAt meta =? 0) (invalidDerived "derived creation time is required");
  _ ← match rm_Supersedes meta with
      | None => Ok tt
      | Some s =>
          _ ← RevisionRef_Validate s;
          let sameItem := bool_decide (rr_ItemID s = rm_ItemID meta) in
          _ ← reject_if (sameItem && (rm_Revision meta <? 2))
                (invalidDerived "superseding revision number must be greater than one");
          reject_if (negb sameItem && negb allowCrossItemSupersession)
            (invalidDerived "superseded revision must belong to the same item")
      end;
  wantRevisionID ← DerivedRevisionID (rm_Scope meta) (rm_ItemID meta) (rm_OperationID meta)
    contentParts (rm_Provenance meta) (rm_Supersedes meta);
  reject_if (negb (bool_decide (rm_RevisionID meta = wantRevisionID)))
    (invalidDerived "derived revision id does not match its stable identity").

Definition containsRevisionRef (refs : list RevisionRef) (want : RevisionRef) : bool :=
  existsb (λ ref, bool_decide (ref = want)) refs.

Definition validateAtomRelation (a : Atom) : result unit :=
  let related := at_RelatedRevision a in
  let supersedes := rm_Supersedes (at_Meta a) in
  _ ← (if bool_decide (at_Relation a = CandidateRelationNew) then
         reject_if (negb (bool_decide (related = None)) || negb (bool_decide (supersedes = None)))
           (invalidDerived "new atom cannot relate to a prior revision")
       else if bool_decide (at_Relation a = CandidateRelationCoexist) then
         _ ← reject_if (bool_decide (related = None))
               (invalidDerived "coexisting atom requires a related revision");
         reject_if (negb (bool_decide (supersedes = None)))
           (invalidDerived "coexisting atom cannot supersede a revision")
       else if bool_decide (at_Relation a = CandidateRelationSupersede) then
         _ ← reject_if (bool_decide (related = None) || bool_decide (supersedes = None))
               (invalidDerived "superseding atom requires a related revision");
         reject_if (negb (bool_decide (related = supersedes)))
           (invalidDerived "superseding atom relation does not match revision metadata")
       else Ok tt);
  match related with
  | None => Ok tt
  | Some r =>
      _ ← RevisionRef_Validate r;
      reject_if (negb (containsRevisionRef (pv_ParentRevisions (rm_Provenance (at_Meta a))) r))
        (invalidDerived "related atom revision must be retained in provenance")
  end.

Definition atom_content (a : Atom) : list string :=
  [at_Category a; at_Text a; at_Relation a] ++
  match at_RelatedRevision a with Some r => revision_parts r | None => [] end.

Definition Atom_Validate (a : Atom) : result unit :=
  _ ← AtomCategory_Validate (at_Category a);
  _ ← require_normalized validateDerivedText "atom text" (at_Text a);
  _ ← CandidateRelation_Validate (at_Relation a);
  _ ← validateAtomRelation a;
  itemID ← AtomItemID (rm_Scope (at_Meta a)) (at_Category a) (at_Text a);
  validateRevisionMeta (at_Meta a) DerivedKindAtom itemID (atom_content a) true.

Definition Scenario_Validate (s : Scenario) : result unit :=
  _ ← require_normalized validateDerivedKey "scenario topic key" (sn_TopicKey s);
  _ ← require_normalized validateDerivedText "scenario title" (sn_Title s);
  _ ← require_normalized validateDerivedText "scenario summary" (sn_Summary s);
  itemID ← ScenarioItemID (rm_Scope (sn_Meta s)) (sn_TopicKey s);
  validateRevisionMeta (sn_Meta s) DerivedKindScenario itemID
    [sn_TopicKey s; sn_Title s; sn_Summary s] false.

Definition Profile_Validate (p : Profile) : result unit :=
  _ ← require_normalized validateDerivedText "profile summary" (pf_Summary p);
  itemID ← ProfileItemID (rm_Scope (pf_Meta p));
  validateRevisionMeta (pf_Meta p) DerivedKindProfile itemID [pf_Summary p] false.

(** ** Model candidates *)
Definition AtomCandidate_Validate (c : AtomCandidate) : result unit :=
  _ ← AtomCategory_Validate (ac_Category c);
  _ ← validateDerivedText "atom candidate text" (ac_Text c);
  _ ← CandidateRelation_Validate (ac_Relation c);
  if bool_decide (ac_Relation c = CandidateRelationNew) then
    reject_if (negb (bool_decide (ac_Target c = None)))
      (invalidDerived "new atom candidate cannot have a target")
  else match ac_Target c with
       | None => Err (invalidDerived "related atom candidate requires a target")
       | Some target => RevisionRef_Validate target
       end.

Definition ScenarioCandidate_Validate (c : ScenarioCandidate) : result unit :=
  _ ← validateDerivedKey "scenario candidate topic key" (scc_TopicKey c);
  _ ← validateDerivedText "scenario candidate title" (scc_Title c);
  _ ← validateDerivedText "scenario candidate summary" (scc_Summary c);
  _ ← reject_if (Zlength (scc_Atoms c) =? 0)
        (invalidDerived "scenario candidate requires an atom reference");
  _ ← validateRevisionRefs (scc_Atoms c);
  validate_optional_ref (scc_Supersedes c).

Definition ProfileCandidate_Validate (c : ProfileCandidate) : result unit :=
  _ ← ProfileDisposition_Validate (pc_Disposition c);
  if bool_decide (pc_Disposition c = ProfileDispositionSkip) then
    reject_if (negb (bool_decide (pc_Summary c = "")) || negb (Zlength (pc_Atoms c) =? 0) ||
               negb (Zlength (pc_Scenarios c) =? 0) || negb (bool_decide (pc_Supersedes c = None)))
      (invalidDerived "skipped profile candidate cannot contain a revision")
  else
    _ ← validateDerivedText "profile candidate summary" (pc_Summary c);
    let total := Zlength (pc_Atoms c) + Zlength (pc_Scenarios c) in
    _ ← reject_if (total =? 0) (invalidDerived "profile candidate requires a parent revision");
    _ ← reject_if (MaxSourcesPerRevision <? total)
          (limitExceeded "profile candidate exceeds the parent reference limit");
    _ ← validateRevisionRefs (pc_Atoms c);
    _ ← validateRevisionRefs (pc_Scenarios c);
    validate_optional_ref (pc_Supersedes c).

Definition OperationOutcome_Validate (o : OperationOutcome) : result unit :=
  _ ← reject_if (negb (bool_decide (oo_SchemaVersion o = DerivedSchemaVersionV1)))
        (invalidDerived "unsupported operation outcome schema version");
  _ ← reject_if (negb (isCanonicalID (oo_OperationID o))) (invalidDerived "operation id is required");
  _ ← OperationStage_Validate (oo_Stage o);
  _ ← Scope_Validate (oo_Scope o);
  _ ← reject_if (oo_ScopeVersion o =? 0) (invalidDerived "scope version is required");
  _ ← reject_if (MaxCandidateCount <? Zlength (oo_Revisions o))
        (limitExceeded "operation outcome exceeds the revision limit");
  validateRevisionRefs (oo_Revisions o).

Definition BoundaryOutcome_Validate (o : BoundaryOutcome) : result unit :=
  _ ← reject_if (negb (bool_decide (bo_SchemaVersion o = DerivedSchemaVersionV1)))
        (invalidDerived "unsupported boundary outcome schema version");
  _ ← Scope_Validate (bo_Scope o);
  _ ← OperationOutcome_Validate (bo_Scenarios o);
  _ ← OperationOutcome_Validate (bo_Profile o);
  _ ← reject_if (negb (bool_decide (oo_Scope (bo_Scenarios o) = bo_Scope o)) ||
                 negb (bool_decide (oo_Scope (bo_Profile o) = bo_Scope o)))
        (PermanentError CodeScopeViolation
          "boundary outcome stage scope does not match the boundary" None);
  _ ← reject_if (negb (bool_decide (oo_Stage (bo_Scenarios o) = OperationStageScenarios)) ||
                 negb (bool_decide (oo_Stage (bo_Profile o) = OperationStageProfile)))
        (invalidDerived "boundary outcome contains the wrong processing stages");
  reject_if (oo_ScopeVersion (bo_Profile o) <=? oo_ScopeVersion (bo_Scenarios o))
    (invalidDerived "profile stage must commit after the scenario stage").

(** ** Lifecycles: the empty state is that of a revision or source not yet stored *)
Definition ValidateRevisionStateTransition (from to : string) : result unit :=
  _ ← or_else (RevisionState_Validate to) (invalidDerived "unsupported target revision state");
  if bool_decide (from = "") && bool_decide (to = RevisionStateActive) then Ok tt else
  _ ← RevisionState_Validate from;
  if bool_decide (from = RevisionStateActive) &&
     (bool_decide (to = RevisionStateSuperseded) || bool_decide (to = RevisionStateInvalidated))
  then Ok tt
  else if bool_decide (from = RevisionStateSuperseded) && bool_decide (to = RevisionStateInvalidated)
  then Ok tt
  else Err (invalidDerived "revision state transition is not allowed").

Definition ValidateSourceStateTransition (from to : string) : result unit :=
  _ ← or_else (SourceState_Validate to) (invalidDerived "unsupported target source state");
  if bool_decide (from = "") && bool_decide (to = SourceStateActive) then Ok tt else
  _ ← SourceState_Validate from;
  if bool_decide (from = SourceStateActive) && bool_decide (to = SourceStateForgotten) then Ok tt
  else Err (invalidDerived "source state transition is not allowed").

(** ** The order of references *)
Lemma lex_leb_total ps qs : lex_leb ps qs = true ∨ lex_leb qs ps = true.
Proof.
  revert qs. induction ps as [|p ps IH]; intros [|q qs]; cbn -[string_leb]; auto.
  rewrite (bool_decide_ext (q = p) (p = q)) by done. case_bool_decide; [apply IH | apply string_leb_total].
Qed.

Lemma lex_leb_trans ps qs rs : lex_leb ps qs = true → lex_leb qs rs = true → lex_leb ps rs = true.
Proof.
  revert qs rs. induction ps as [|p ps IH]; intros [|q qs] [|r rs]; cbn -[string_leb]; try done.
  destruct (decide (p = q)) as [->|Hpq].
  - rewrite bool_decide_true by done. case_bool_decide; [apply IH | done].
  - rewrite (bool_decide_false (p = q)) by done. intros H1.
    destruct (decide (q = r)) as [->|Hqr]; [intros _; by rewrite bool_decide_false|].
    rewrite (bool_decide_false (q = r)) by done. intros H2. case_bool_decide as Hpr.
    + subst. by destruct Hpq; apply string_leb_antisym.
    + by apply (string_leb_trans p q r).
Qed.

Lemma lex_leb_antisym ps qs : lex_leb ps qs = true → lex_leb qs ps = true → ps = qs.
Proof.
  revert qs. induction ps as [|p ps IH]; intros [|q qs]; cbn -[string_leb]; try done.
  rewrite (bool_decide_ext (q = p) (p = q)) by done. case_bool_decide as Hpq.
  - intros H1 H2. subst. f_equal. auto.
  - intros H1 H2. by destruct Hpq; apply string_leb_antisym.
Qed.

#[export] Instance parts_le_total {A} (parts : A → list string) : Total (parts_le parts).
Proof. intros x y. apply lex_leb_total. Qed.
#[export] Instance parts_le_trans {A} (parts : A → list string) : Transitive (parts_le parts).
Proof. intros x y z. apply lex_leb_trans. Qed.

(** Sorting by an injective key forgets the order of the input. *)
Lemma merge_sort_canonical {A} (parts : A → list string) (l1 l2 : list A) :
  (∀ x y, parts x = parts y → x = y) → l1 ≡ₚ l2 →
  merge_sort (parts_le parts) l1 = merge_sort (parts_le parts) l2.
Proof.
  intros Hinj Hp. apply (StronglySorted_unique_strong (parts_le parts)).
  - intros x y _ _ H1 H2. apply Hinj. by apply lex_leb_antisym.
  - apply StronglySorted_merge_sort; apply _.
  - apply StronglySorted_merge_sort; apply _.
  - rewrite !merge_sort_Permutation. done.
Qed.

Lemma source_parts_inj r s : source_parts r = source_parts s → r = s.
Proof. destruct r as [[k kd] e se st], s as [[k' kd'] e' se' st']. unfold source_parts. cbn. congruence. Qed.
Lemma revision_parts_inj r s : revision_parts r = revision_parts s → r = s.
Proof. destruct r, s. unfold revision_parts. cbn. congruence. Qed.

(** ** Provenance *)
Definition source_key (s : SourceRef) : string :=
  sc_Key (so_Scope s) +:+ String "000"%char (so_ExportID s).

Lemma check_raw_sources_Ok scope seen sources :
  check_raw_sources scope seen sources = Ok tt ↔
  Forall (λ s, SourceRef_Validate s = Ok tt ∧ so_Scope s = scope) sources ∧
  NoDup (map source_key sources) ∧ (∀ s, s ∈ sources → source_key s ∉ seen).
Proof.
  revert seen. induction sources as [|s ss IH]; intros seen; cbn [check_raw_sources map].
  - split; [|done]. intros _. split; [constructor|]. split; [constructor|]. intros s Hs. by apply elem_of_nil in Hs.
  - rewrite bind_unit, !reject_bind, negb_false_iff, bool_decide_eq_true, bool_decide_eq_false, IH,
      Forall_cons, NoDup_cons, list_elem_of_fmap. fold (source_key s).
    split.
    + intros (H1 & H2 & H3 & H4 & H5 & H6). repeat split; try done.
      * intros (s0 & He & Hs0). apply (H6 s0 Hs0). rewrite He. set_solver.
      * intros s0 [->|Hs0]%elem_of_cons; [done|]. specialize (H6 s0 Hs0). set_solver.
    + intros (((H1 & H2) & H3) & (H4 & H5) & H6). repeat split; try done.
      * apply H6. set_solver.
      * intros s0 Hs0 [He|He]%elem_of_cons; [apply H4; eauto | apply (H6 s0); set_solver].
Qed.

Lemma Provenance_Validate_perm scope p p' :
  pv_RawSources p ≡ₚ pv_RawSources p' → pv_ParentRevisions p ≡ₚ pv_ParentRevisions p' →
  Provenance_Validate scope p = Ok tt → Provenance_Validate scope p' = Ok tt.
Proof.
  intros Hr Hp. unfold Provenance_Validate, Zlength. rewrite !bind_unit, !reject_if_Ok,
    !check_raw_sources_Ok, !check_unique_Ok.
  assert (Hl1 : length (pv_RawSources p') = length (pv_RawSources p)) by (by rewrite Hr).
  assert (Hl2 : length (pv_ParentRevisions p') = length (pv_ParentRevisions p)) by (by rewrite Hp).
  rewrite Hl1, Hl2. intros (H1 & H2 & H3 & (H4 & H5 & _) & (H6 & H7 & _)).
  do 3 (split; [done|]). split; split.
  - by rewrite <-Hr.
  - split; [|intros ? _; apply not_elem_of_nil].
    assert (Hm : map source_key (pv_RawSources p) ≡ₚ map source_key (pv_RawSources p'))
      by by apply Permutation_map. by rewrite <-Hm.
  - by rewrite <-Hp.
  - split; [by rewrite <-Hp | intros ? _; apply not_elem_of_nil].
Qed.

Lemma canonicalProvenanceParts_perm p p' :
  pv_RawSources p ≡ₚ pv_RawSources p' → pv_ParentRevisions p ≡ₚ pv_ParentRevisions p' →
  canonicalProvenanceParts p = canonicalProvenanceParts p'.
Proof.
  intros Hr Hp. unfold canonicalProvenanceParts.
  rewrite (merge_sort_canonical source_parts _ _ source_parts_inj Hr).
  by rewrite (merge_sort_canonical revision_parts _ _ revision_parts_inj Hp).
Qed.

Lemma DerivedRevisionID_Ok scope itemID operationID content p sup x :
  DerivedRevisionID scope itemID operationID content p sup = Ok x ↔
  Scope_Validate scope = Ok tt ∧ isCanonicalID itemID = true ∧ isCanonicalID operationID = true ∧
  content ≠ [] ∧ Provenance_Validate scope p = Ok tt ∧ validate_optional_ref sup = Ok tt ∧
  ∃ parts, map_check (validateDerivedText "derived revision content") content = Ok parts ∧
    x = derivedStableID "revision"
      ([sc_Key scope; sc_Kind scope; itemID; operationID] ++ parts ++ canonicalProvenanceParts p ++
       match sup with Some r => ["supersedes"; rr_ItemID r; rr_RevisionID r] | None => [] end).
Proof.
  unfold DerivedRevisionID. rewrite bind_unit, !reject_bind, bind_Ok, !negb_false_iff, bool_decide_eq_false.
  split.
  - intros (H1 & H2 & H3 & H4 & parts & H5 & H6). apply bind_unit in H6 as [H6 H7].
    apply bind_unit in H7 as [H7 [= <-]]. eauto 10.
  - intros (H1 & H2 & H3 & H4 & H5 & H6 & parts & H7 & ->). do 4 (split; [done|]).
    exists parts. split; [done|]. rewrite H5, H6. done.
Qed.

Lemma derivedStableID_inj k1 ps1 k2 ps2 :
  Forall (fits 8) (k1 :: ps1) → Forall (fits 8) (k2 :: ps2) →
  derivedStableID k1 ps1 = derivedStableID k2 ps2 →
  k1 = k2 ∧ (ps1 = ps2 ∨ sha256_collision (derived_preimage k1 ps1) (derived_preimage k2 ps2)).
Proof.
  intros H1 H2 H. apply tagged_digest_inj in H as [-> [H|H]]; [|auto].
  apply framed_all_inj in H; [|lia| |]; [injection H as ->; auto|..]; (constructor; [done|done]).
Qed.

(** ** Properties *)

(** The order in which provenance is listed does not matter: permuting the raw
    sources and the parent revisions gives the same revision identity. *)
Theorem revision_id_order_independent scope itemID operationID content p p' sup x :
  pv_RawSources p ≡ₚ pv_RawSources p' → pv_ParentRevisions p ≡ₚ pv_ParentRevisions p' →
  DerivedRevisionID scope itemID operationID content p sup = Ok x →
  DerivedRevisionID scope itemID operationID content p' sup = Ok x.
Proof.
  intros Hr Hp. rewrite !DerivedRevisionID_Ok. rewrite (canonicalProvenanceParts_perm p p' Hr Hp).
  pose proof (Provenance_Validate_perm scope p p' Hr Hp). tauto.
Qed.

(** The transitions of stored revisions and sources. *)
Definition revision_transition (from to : string) : Prop :=
  ValidateRevisionStateTransition from to = Ok tt.
Definition source_transition (from to : string) : Prop :=
  ValidateSourceStateTransition from to = Ok tt.

Definition state_rank (s : string) : Z :=
  if bool_decide (s = "") then 0 else if bool_decide (s = RevisionStateActive) then 1
  else if bool_decide (s = RevisionStateSuperseded) then 2 else 3.

Lemma revision_transition_table a b :
  revision_transition a b ↔
  (a = "" ∧ b = RevisionStateActive) ∨
  (a = RevisionStateActive ∧ b = RevisionStateSuperseded) ∨
  (a = RevisionStateActive ∧ b = RevisionStateInvalidated) ∨
  (a = RevisionStateSuperseded ∧ b = RevisionStateInvalidated).
Proof.
  unfold revision_transition, ValidateRevisionStateTransition, RevisionState_Validate, one_of.
  split; [|intros [[-> ->]|[[-> ->]|[[-> ->]|[-> ->]]]]; vm_compute; reflexivity].
  rewrite bind_unit, or_else_Ok, reject_if_Ok, negb_false_iff, bool_decide_eq_true. intros [Hb H].
  destruct (decide (a = "" ∧ b = RevisionStateActive)) as [|Hne]; [auto|].
  rewrite (proj2 (andb_false_iff _ _)) in H.
  2: { rewrite !bool_decide_eq_false. destruct (decide (a = "")); [right; tauto | by left]. }
  apply bind_unit in H as [_ H].
  destruct (decide (a = RevisionStateActive)) as [->|Ha]; [rewrite bool_decide_true in H by done|
    rewrite bool_decide_false in H by done]; cbn [andb] in H.
  - destruct (decide (b = RevisionStateSuperseded)); [tauto|].
    destruct (decide (b = RevisionStateInvalidated)); [tauto|].
    rewrite !bool_decide_false in H by done. done.
  - destruct (decide (a = RevisionStateSuperseded)), (decide (b = RevisionStateInvalidated)); try tauto;
      rewrite ?(bool_decide_false (a = RevisionStateSuperseded)) in H by done;
      rewrite ?(bool_decide_false (b = RevisionStateInvalidated)), ?andb_false_r in H by done; done.
Qed.

Lemma source_transition_table a b :
  source_transition a b ↔
  (a = "" ∧ b = SourceStateActive) ∨ (a = SourceStateActive ∧ b = SourceStateForgotten).
Proof.
  unfold source_transition, ValidateSourceStateTransition, SourceState_Validate, one_of.
  split; [|intros [[-> ->]|[-> ->]]; vm_compute; reflexivity].
  rewrite bind_unit. intros [_ H].
  destruct (bool_decide (a = "") && bool_decide (b = SourceStateActive)) eqn:E1.
  { apply andb_true_iff in E1 as [?%bool_decide_eq_true ?%bool_decide_eq_true]. auto. }
  apply bind_unit in H as [_ H].
  destruct (bool_decide (a = SourceStateActive) && bool_decide (b = SourceStateForgotten)) eqn:E2; [|done].
  apply andb_true_iff in E2 as [?%bool_decide_eq_true ?%bool_decide_eq_true]. auto.
Qed.

(** The lifecycles only move forward: along any chain of allowed transitions of a
    revision the rank new, active, superseded, invalidated strictly grows, so no
    state is ever entered twice and an invalidated revision stays invalidated; a
    forgotten source is never read again and was active before. *)
Theorem lifecycles_move_forward :
  (∀ a b, tc revision_transition a b → state_rank a < state_rank b ∧ b ≠ "") ∧
  (∀ b, ¬ revision_transition RevisionStateInvalidated b) ∧
  (∀ b, ¬ source_transition SourceStateForgotten b) ∧
  (∀ a, source_transition a SourceStateForgotten → a = SourceStateActive).
Proof.
  assert (Hstep : ∀ a b, revision_transition a b → state_rank a < state_rank b ∧ b ≠ "").
  { intros a b [[-> ->]|[[-> ->]|[[-> ->]|[-> ->]]]]%revision_transition_table; by vm_compute. }
  split; [|split; [|split]].
  - intros a b. induction 1 as [a b H|a b c H _ [IH1 IH2]]; [by apply Hstep|].
    apply Hstep in H as [H _]. split; [lia | done].
  - intros b [[H ?]|[[H ?]|[[H ?]|[H ?]]]]%revision_transition_table; discriminate H.
  - intros b [[H ?]|[H ?]]%source_transition_table; discriminate H.
  - intros a [[_ H]|[H _]]%source_transition_table; [discriminate H | done].
Qed.

(** The parts that name a revision. *)
Definition revision_id_parts (scope : Scope) (itemID operationID : string) (parts : list string)
    (p : Provenance) (sup : option RevisionRef) : list string :=
  [sc_Key scope; sc_Kind scope; itemID; operationID] ++ parts ++ canonicalProvenanceParts p ++
  match sup with Some r => ["supersedes"; rr_ItemID r; rr_RevisionID r] | None => [] end.

(** A revision identity binds its scope, item and operation: two revisions with the
    same identity agree on them, or the hashed messages are a SHA-256 collision. *)
Theorem revision_id_binds_scope sc1 i1 o1 c1 p1 s1 n1 sc2 i2 o2 c2 p2 s2 n2 x :
  DerivedRevisionID sc1 i1 o1 c1 p1 s1 = Ok x → DerivedRevisionID sc2 i2 o2 c2 p2 s2 = Ok x →
  map_check (validateDerivedText "derived revision content") c1 = Ok n1 →
  map_check (validateDerivedText "derived revision content") c2 = Ok n2 →
  Forall (fits 8) (revision_id_parts sc1 i1 o1 n1 p1 s1) →
  Forall (fits 8) (revision_id_parts sc2 i2 o2 n2 p2 s2) →
  (sc1 = sc2 ∧ i1 = i2 ∧ o1 = o2) ∨
  sha256_collision (derived_preimage "revision" (revision_id_parts sc1 i1 o1 n1 p1 s1))
    (derived_preimage "revision" (revision_id_parts sc2 i2 o2 n2 p2 s2)).
Proof.
  rewrite !DerivedRevisionID_Ok. intros (_ & _ & _ & _ & _ & _ & m1 & Hm1 & ->).
  intros (_ & _ & _ & _ & _ & _ & m2 & Hm2 & H) Hn1 Hn2 F1 F2.
  assert (m1 = n1) as -> by congruence. assert (m2 = n2) as -> by congruence.
  apply derivedStableID_inj in H as [_ [H|H]]; [left|by right|by constructor|by constructor].
  destruct sc1, sc2. cbn in H. injection H as -> -> -> ->. done.
Qed.

(** ** Witnesses *)
Definition demo_source (id : string) : SourceRef := mkSourceRef demo_scope id "tg-42" "7".
Definition demo_provenance (ids : list string) : Provenance :=
  mkProvenance (map demo_source ids) [mkRevisionRef "item" "rev"].
Definition demo_revision_id (ids : list string) : string :=
  match DerivedRevisionID demo_scope "item" "op" ["text"] (demo_provenance ids) None with
  | Ok x => x
  | Err _ => ""
  end.

Lemma revision_id_order_independent_witness :
  DerivedRevisionID demo_scope "item" "op" ["text"] (demo_provenance ["b"; "a"]) None =
    Ok (demo_revision_id ["a"; "b"]).
Proof.
  apply (revision_id_order_independent demo_scope "item" "op" ["text"] (demo_provenance ["a"; "b"])
    (demo_provenance ["b"; "a"]) None).
  - apply perm_swap.
  - reflexivity.
  - vm_compute. reflexivity.
Defined.

Lemma revision_id_binds_scope_witness :
  (demo_scope = demo_scope ∧ "item" = "item" ∧ "op" = "op") ∨
  sha256_collision
    (derived_preimage "revision" (revision_id_parts demo_scope "item" "op" ["text"] (demo_provenance ["a"; "b"]) None))
    (derived_preimage "revision" (revision_id_parts demo_scope "item" "op" ["text"] (demo_provenance ["b"; "a"]) None)).
Proof.
  apply (revision_id_binds_scope demo_scope "item" "op" ["text"] (demo_provenance ["a"; "b"]) None ["text"]
    demo_scope "item" "op" ["text"] (demo_provenance ["b"; "a"]) None ["text"] (demo_revision_id ["a"; "b"])).
  - vm_compute. reflexivity.
  - vm_compute. reflexivity.
  - vm_compute. reflexivity.
  - vm_compute. reflexivity.
  - apply fits_forallb. vm_compute. reflexivity.
  - apply fits_forallb. vm_compute. reflexivity.
Defined.
