(* ===== verification/MemoryCanonical.v ===== *)
(** * MemoryCanonical: the canonical mutation and the store's requests

    Models src/sessionmemory/canonical.go: the small mutable records (scope state,
    item heads, delivery claims), the append-only records, the atomic mutation
    unit and every request of the storage-neutral store port, with validation. *)

From Stdlib Require Import ZArith Lia Ascii String.
From stdpp Require Import base numbers list gmap strings.
From S2P Require Import Prelude.
From S2P Require Import GoStrings.
From S2P Require Import Sha256.
From S2P Require Import MemoryTypes.
From S2P Require Import MemoryRecords.

Local Open Scope string_scope.
Local Open Scope list_scope.
Local Open Scope Z_scope.

Definition CanonicalSchemaVersionV1 : string := "session-memory-canonical/v1".
Definition maxCanonicalMutationRecords : Z := 512.
Definition maxCanonicalDeliveryClaims : Z := 128.
Definition maxCanonicalReadRecords : Z := 256.

(** ** Records *)
Record ScopeState := mkScopeState {
  sst_SchemaVersion : string; sst_Scope : Scope; sst_Version : Z; sst_ChangeSeq : Z }.
#[export] Instance ScopeState_eq_dec : EqDecision ScopeState.
Proof. solve_decision. Defined.

Record ItemHead := mkItemHead { ih_ItemID : string; ih_RevisionID : string }.
#[export] Instance ItemHead_eq_dec : EqDecision ItemHead.
Proof. solve_decision. Defined.

Record OperationRecord := mkOperationRecord {
  or_OperationID : string; or_Fingerprint : string; or_Outcome : list string; or_CommittedAt : Z }.

Record ScopeChange := mkScopeChange {
  ch_Sequence : Z; ch_OperationID : string; ch_OccurredAt : Z; ch_RevisionIDs : list string }.
#[export] Instance ScopeChange_eq_dec : EqDecision ScopeChange.
Proof. solve_decision. Defined.

Record DeliveryOutboxRecord := mkDeliveryOutboxRecord {
  do_DeliveryID : string; do_OperationID : string; do_PayloadRef : PayloadRef; do_CreatedAt : Z }.
#[export] Instance DeliveryOutboxRecord_eq_dec : EqDecision DeliveryOutboxRecord.
Proof. solve_decision. Defined.

Definition DeliveryStatusPending : string := "pending".
Definition DeliveryStatusLeased : string := "leased".
Definition DeliveryStatusDelivered : string := "delivered".
Definition DeliveryStatusTerminal : string := "terminal".

Record DeliveryClaim := mkDeliveryClaim {
  dc_DeliveryID : string; dc_Status : string; dc_LeaseOwner : string; dc_LeaseUntil : option Z;
  dc_Attempts : Z }.
#[export] Instance DeliveryClaim_eq_dec : EqDecision DeliveryClaim.
Proof. solve_decision. Defined.

Record DeliveryClaimRequest := mkDeliveryClaimRequest {
  dcr_Scope : Scope; dcr_LeaseOwner : string; dcr_Now : Z; dcr_LeaseUntil : Z; dcr_Limit : Z }.

Record DeliverySettlementRequest := mkDeliverySettlementRequest {
  ds_Scope : Scope; ds_DeliveryID : string; ds_LeaseOwner : string; ds_Status : string;
  ds_CompletedAt : Z }.

Record ClaimedDelivery := mkClaimedDelivery {
  cd_Record : DeliveryOutboxRecord; cd_Claim : DeliveryClaim }.

Record CanonicalPayload := mkCanonicalPayload { cp_Ref : PayloadRef; cp_Data : string }.
#[export] Instance CanonicalPayload_eq_dec : EqDecision CanonicalPayload.
Proof. solve_decision. Defined.

Record CanonicalMutation := mkCanonicalMutation {
  cm_SchemaVersion : string; cm_Scope : Scope; cm_ExpectedScopeVersion : Z;
  cm_Operation : OperationRecord; cm_Sources : list SourceRecordV2;
  cm_Messages : list MessageRecord; cm_Items : list MemoryItem;
  cm_Revisions : list MemoryRevision; cm_Lifecycle : list LifecycleEvent;
  cm_Heads : list ItemHead; cm_Delivery : list DeliveryOutboxRecord;
  cm_Payloads : list CanonicalPayload }.

Record CanonicalMutationOutcome := mkOutcome {
  co_ScopeVersion : Z; co_ChangeSeq : Z; co_RevisionIDs : list string }.
#[export] Instance CanonicalMutationOutcome_eq_dec : EqDecision CanonicalMutationOutcome.
Proof. solve_decision. Defined.

Record CanonicalOperationRecord := mkCanonicalOperationRecord {
  cor_Fingerprint : string; cor_Outcome : CanonicalMutationOutcome }.
#[export] Instance CanonicalOperationRecord_eq_dec : EqDecision CanonicalOperationRecord.
Proof. solve_decision. Defined.

Record CanonicalOperationCommitRequest := mkOperationCommit {
  oc_Scope : Scope; oc_ExpectedScopeVersion : Z; oc_OperationID : string;
  oc_Fingerprint : string; oc_CommittedAt : Z }.

Record CanonicalRevisionReadRequest := mkRevisionRead {
  rq_Scope : Scope; rq_RevisionIDs : list string }.

Record ActiveHeadScanRequest := mkActiveHeadScan {
  ah_Scope : Scope; ah_AfterItemID : string; ah_Limit : Z }.

Record ActiveCanonicalMemory := mkActiveMemory {
  am_Item : MemoryItem; am_RevisionID : string; am_Revision : Z; am_Evidence : list EvidenceRef }.

(** ** Validation *)
Definition ItemHead_Validate (h : ItemHead) : result unit :=
  reject_if (negb (isCanonicalID (ih_ItemID h)) || negb (isCanonicalID (ih_RevisionID h)))
    (invalidDerived "canonical item head is invalid").

Definition validateUniqueCanonicalIDs (ids : list string) (name : string) : result unit :=
  check_unique (λ id, reject_if (negb (isCanonicalID id))
      (invalidDerived (name +:+ " identity is invalid")))
    (invalidDerived (name +:+ " identity is duplicated")) [] ids.

Definition CanonicalMutationOutcome_Validate (o : CanonicalMutationOutcome) : result unit :=
  _ ← reject_if ((co_ScopeVersion o =? 0) || (co_ChangeSeq o =? 0))
        (invalidDerived "canonical mutation outcome is invalid");
  for_each (λ id, reject_if (negb (isCanonicalID id))
    (invalidDerived "canonical mutation outcome revision is invalid")) (co_RevisionIDs o).

Definition CanonicalOperationRecord_Validate (r : CanonicalOperationRecord) : result unit :=
  _ ← reject_if (negb (isCanonicalID (cor_Fingerprint r)))
        (invalidDerived "canonical operation fingerprint is invalid");
  CanonicalMutationOutcome_Validate (cor_Outcome r).

Definition CanonicalOperationCommitRequest_Validate (r : CanonicalOperationCommitRequest) : result unit :=
  _ ← Scope_Validate (oc_Scope r);
  reject_if (negb (isCanonicalID (oc_OperationID r)) || negb (isCanonicalID (oc_Fingerprint r)) ||
             (oc_ExpectedScopeVersion r =? max_u64) || (oc_CommittedAt r =? 0))
    (invalidDerived "canonical operation commit identity is invalid").

Definition CanonicalRevisionReadRequest_Validate (r : CanonicalRevisionReadRequest) : result unit :=
  _ ← Scope_Validate (rq_Scope r);
  _ ← reject_if ((Zlength (rq_RevisionIDs r) =? 0) || (maxCanonicalReadRecords <? Zlength (rq_RevisionIDs r)))
        (limitExceeded "canonical revision read size is invalid");
  check_unique (λ id, reject_if (negb (isCanonicalID id))
      (invalidDerived "canonical revision id is invalid"))
    (invalidDerived "canonical revision read contains duplicates") [] (rq_RevisionIDs r).

Definition ActiveHeadScanRequest_Validate (r : ActiveHeadScanRequest) : result unit :=
  _ ← Scope_Validate (ah_Scope r);
  _ ← reject_if (negb (bool_decide (ah_AfterItemID r = "")) && negb (isCanonicalID (ah_AfterItemID r)))
        (invalidDerived "canonical active-head cursor is invalid");
  reject_if ((ah_Limit r =? 0) || (maxCanonicalReadRecords <? ah_Limit r))
    (limitExceeded "canonical active-head scan limit is invalid").

(** [ActiveMemoryScanRequest] has the same fields and checks. *)
Definition ActiveMemoryScanRequest_Validate (r : ActiveHeadScanRequest) : result unit :=
  ActiveHeadScanRequest_Validate r.

Definition DeliveryClaim_Validate (c : DeliveryClaim) : result unit :=
  _ ← reject_if (negb (isCanonicalID (dc_DeliveryID c))) (invalidDerived "delivery claim is invalid");
  if bool_decide (dc_Status c = DeliveryStatusPending) ||
     bool_decide (dc_Status c = DeliveryStatusDelivered) ||
     bool_decide (dc_Status c = DeliveryStatusTerminal) then
    reject_if (negb (bool_decide (dc_LeaseOwner c = "")) || negb (bool_decide (dc_LeaseUntil c = None)))
      (invalidDerived "settled delivery claim has a lease")
  else if bool_decide (dc_Status c = DeliveryStatusLeased) then
    reject_if (negb (isCanonicalID (dc_LeaseOwner c)) ||
               match dc_LeaseUntil c with None => true | Some until => until =? 0 end)
      (invalidDerived "leased delivery claim is invalid")
  else Err (invalidDerived "delivery claim status is invalid").

Definition DeliveryClaimRequest_Validate (r : DeliveryClaimRequest) : result unit :=
  _ ← Scope_Validate (dcr_Scope r);
  reject_if (negb (isCanonicalID (dcr_LeaseOwner r)) || (dcr_Now r =? 0) ||
             negb (dcr_Now r <? dcr_LeaseUntil r) || (dcr_Limit r =? 0) ||
             (maxCanonicalDeliveryClaims <? dcr_Limit r))
    (invalidDerived "delivery claim request is invalid").

Definition DeliverySettlementRequest_Validate (r : DeliverySettlementRequest) : result unit :=
  _ ← Scope_Validate (ds_Scope r);
  _ ← reject_if (negb (isCanonicalID (ds_DeliveryID r)) || negb (isCanonicalID (ds_LeaseOwner r)) ||
                 (ds_CompletedAt r =? 0))
        (invalidDerived "delivery settlement request is invalid");
  reject_if (negb (bool_decide (ds_Status r = DeliveryStatusDelivered)) &&
             negb (bool_decide (ds_Status r = DeliveryStatusTerminal)))
    (invalidDerived "delivery settlement status is invalid").

Definition ScopeState_Validate (s : ScopeState) : result unit :=
  _ ← reject_if (negb (bool_decide (sst_SchemaVersion s = CanonicalSchemaVersionV1)))
        (invalidDerived "canonical scope state schema version is invalid");
  Scope_Validate (sst_Scope s).

Definition ScopeChange_Validate (c : ScopeChange) : result unit :=
  _ ← reject_if ((ch_Sequence c =? 0) || negb (isCanonicalID (ch_OperationID c)) || (ch_OccurredAt c =? 0))
        (invalidDerived "scope change is invalid");
  for_each (λ id, reject_if (negb (isCanonicalID id))
    (invalidDerived "scope change revision is invalid")) (ch_RevisionIDs c).

Definition DeliveryOutboxRecord_Validate (d : DeliveryOutboxRecord) : result unit :=
  _ ← reject_if (negb (isCanonicalID (do_DeliveryID d)) || negb (isCanonicalID (do_OperationID d)) ||
                 (do_CreatedAt d =? 0))
        (invalidDerived "delivery outbox record is invalid");
  PayloadRef_Validate (do_PayloadRef d).

Definition CanonicalPayload_Validate (p : CanonicalPayload) : result unit :=
  _ ← PayloadRef_Validate (cp_Ref p);
  _ ← reject_if (bool_decide (cp_Data p = "") || negb (len (cp_Data p) =? pr_ByteSize (cp_Ref p)))
        (invalidDerived "canonical payload bytes are invalid");
  reject_if (negb (bool_decide (sha256_hex (cp_Data p) = pr_Digest (cp_Ref p))))
    (invalidDerived "canonical payload digest does not match bytes").

(** One of the record loops of [CanonicalMutation.Validate]: check each record, then
    the uniqueness of the collected identities. *)
Definition validate_records {A} (check : A → result unit) (id_of : A → string) (name : string)
    (records : list A) : result unit :=
  _ ← for_each check records;
  validateUniqueCanonicalIDs (map id_of records) name.

Definition mutation_record_count (m : CanonicalMutation) : Z :=
  Zlength (cm_Sources m) + Zlength (cm_Messages m) + Zlength (cm_Items m) +
  Zlength (cm_Revisions m) + Zlength (cm_Lifecycle m) + Zlength (cm_Heads m) +
  Zlength (cm_Delivery m) + Zlength (cm_Payloads m).

Definition CanonicalMutation_Validate (m : CanonicalMutation) : result unit :=
  _ ← reject_if (negb (bool_decide (cm_SchemaVersion m = CanonicalSchemaVersionV1)))
        (invalidDerived "canonical mutation schema version is invalid");
  _ ← Scope_Validate (cm_Scope m);
  let op := cm_Operation m in
  _ ← reject_if (negb (isCanonicalID (or_OperationID op)) || negb (isCanonicalID (or_Fingerprint op)) ||
                 (or_CommittedAt op =? 0))
        (invalidDerived "canonical mutation operation is invalid");
  _ ← validateUniqueCanonicalIDs (or_Outcome op) "canonical operation outcome";
  _ ← reject_if ((mutation_record_count m =? 0) || (maxCanonicalMutationRecords <? mutation_record_count m))
        (invalidDerived "canonical mutation record count is invalid");
  _ ← validate_records (λ s,
        _ ← SourceRecordV2_Validate s;
        reject_if (negb (bool_decide (sr_Scope s = cm_Scope m)))
          (invalidDerived "canonical source scope does not match mutation"))
      sr_SourceID "canonical source" (cm_Sources m);
  _ ← validate_records MessageRecord_Validate mr_MessageID "canonical message" (cm_Messages m);
  _ ← validate_records (λ i,
        _ ← MemoryItem_Validate i;
        reject_if (negb (bool_decide (mi_Scope i = cm_Scope m)))
          (invalidDerived "canonical item scope does not match mutation"))
      mi_ItemID "canonical item" (cm_Items m);
  _ ← validate_records MemoryRevision_Validate rv_RevisionID "canonical revision" (cm_Revisions m);
  _ ← validate_records LifecycleEvent_Validate le_EventID "canonical lifecycle event" (cm_Lifecycle m);
  _ ← validate_records ItemHead_Validate ih_ItemID "canonical item head" (cm_Heads m);
  _ ← validate_records DeliveryOutboxRecord_Validate do_DeliveryID "canonical delivery outbox" (cm_Delivery m);
  validate_records CanonicalPayload_Validate (λ p, pr_ID (cp_Ref p)) "canonical payload" (cm_Payloads m).

(** ** What acceptance means *)
Lemma validateUniqueCanonicalIDs_Ok ids name :
  validateUniqueCanonicalIDs ids name = Ok tt ↔ Forall (λ id, isCanonicalID id = true) ids ∧ NoDup ids.
Proof.
  unfold validateUniqueCanonicalIDs. rewrite check_unique_Ok.
  assert (Hf : Forall (λ id, reject_if (negb (isCanonicalID id))
      (invalidDerived (name +:+ " identity is invalid")) = Ok tt) ids ↔
    Forall (λ id, isCanonicalID id = true) ids).
  { apply Forall_iff. intros id. by rewrite reject_if_Ok, negb_false_iff. }
  rewrite Hf. split; [tauto|]. intros [? ?]. do 2 (split; [done|]). intros x _. apply not_elem_of_nil.
Qed.

Lemma validate_records_Ok {A} (check : A → result unit) (id_of : A → string) name (records : list A) :
  validate_records check id_of name records = Ok tt ↔
  Forall (λ r, check r = Ok tt) records ∧
  Forall (λ r, isCanonicalID (id_of r) = true) records ∧ NoDup (map id_of records).
Proof.
  unfold validate_records. rewrite bind_unit, for_each_Ok, validateUniqueCanonicalIDs_Ok, Forall_map. done.
Qed.

(** An accepted list of records: each valid, identities canonical and distinct. *)
Definition records_ok {A} (ok : A → Prop) (id_of : A → string) (records : list A) : Prop :=
  Forall ok records ∧ Forall (λ r, isCanonicalID (id_of r) = true) records ∧ NoDup (map id_of records).

Lemma bind_scope_Ok (m : result unit) (c : bool) e :
  mbind (λ _ : unit, reject_if (negb c) e) m = Ok tt ↔ m = Ok tt ∧ c = true.
Proof. by rewrite bind_unit, reject_if_Ok, negb_false_iff. Qed.

Lemma CanonicalPayload_Validate_Ok p :
  CanonicalPayload_Validate p = Ok tt ↔
  PayloadRef_Validate (cp_Ref p) = Ok tt ∧ cp_Data p ≠ "" ∧ len (cp_Data p) = pr_ByteSize (cp_Ref p) ∧
  pr_Digest (cp_Ref p) = sha256_hex (cp_Data p).
Proof.
  unfold CanonicalPayload_Validate.
  rewrite !bind_unit, !reject_if_Ok, orb_false_iff, !negb_false_iff, bool_decide_eq_false,
    bool_decide_eq_true, Z.eqb_eq. naive_solver.
Qed.

(** ** Properties *)

(** A mutation is accepted exactly when it is well formed: known schema, valid
    scope and operation, between one and 512 records, every record valid with
    canonical identities that do not repeat within their kind, sources and items
    in the mutation's own scope, and every payload's bytes matching its size and
    digest. *)
Theorem mutation_accepted m :
  CanonicalMutation_Validate m = Ok tt ↔
  cm_SchemaVersion m = CanonicalSchemaVersionV1 ∧ Scope_Validate (cm_Scope m) = Ok tt ∧
  (isCanonicalID (or_OperationID (cm_Operation m)) = true ∧
   isCanonicalID (or_Fingerprint (cm_Operation m)) = true ∧ or_CommittedAt (cm_Operation m) ≠ 0) ∧
  (Forall (λ id, isCanonicalID id = true) (or_Outcome (cm_Operation m)) ∧
   NoDup (or_Outcome (cm_Operation m))) ∧
  0 < mutation_record_count m ≤ maxCanonicalMutationRecords ∧
  records_ok (λ s, SourceRecordV2_Validate s = Ok tt ∧ sr_Scope s = cm_Scope m) sr_SourceID (cm_Sources m) ∧
  records_ok (λ r, MessageRecord_Validate r = Ok tt) mr_MessageID (cm_Messages m) ∧
  records_ok (λ i, MemoryItem_Validate i = Ok tt ∧ mi_Scope i = cm_Scope m) mi_ItemID (cm_Items m) ∧
  records_ok (λ r, MemoryRevision_Validate r = Ok tt) rv_RevisionID (cm_Revisions m) ∧
  records_ok (λ l, LifecycleEvent_Validate l = Ok tt) le_EventID (cm_Lifecycle m) ∧
  records_ok (λ h, ItemHead_Validate h = Ok tt) ih_ItemID (cm_Heads m) ∧
  records_ok (λ d, DeliveryOutboxRecord_Validate d = Ok tt) do_DeliveryID (cm_Delivery m) ∧
  records_ok (λ p, PayloadRef_Validate (cp_Ref p) = Ok tt ∧ cp_Data p ≠ "" ∧
    len (cp_Data p) = pr_ByteSize (cp_Ref p) ∧ pr_Digest (cp_Ref p) = sha256_hex (cp_Data p))
    (λ p, pr_ID (cp_Ref p)) (cm_Payloads m).
Proof.
  unfold CanonicalMutation_Validate, records_ok. rewrite !bind_unit, !reject_if_Ok, !validate_records_Ok,
    validateUniqueCanonicalIDs_Ok, !orb_false_iff, !negb_false_iff, bool_decide_eq_true, !Z.eqb_neq, Z.ltb_ge.
  assert (Hs : ∀ l, Forall (λ s, (_ ← SourceRecordV2_Validate s;
        reject_if (negb (bool_decide (sr_Scope s = cm_Scope m)))
          (invalidDerived "canonical source scope does not match mutation")) = Ok tt) l ↔
      Forall (λ s, SourceRecordV2_Validate s = Ok tt ∧ sr_Scope s = cm_Scope m) l).
  { intros l. apply Forall_iff. intros s. by rewrite bind_scope_Ok, bool_decide_eq_true. }
  assert (Hi : ∀ l, Forall (λ i, (_ ← MemoryItem_Validate i;
        reject_if (negb (bool_decide (mi_Scope i = cm_Scope m)))
          (invalidDerived "canonical item scope does not match mutation")) = Ok tt) l ↔
      Forall (λ i, MemoryItem_Validate i = Ok tt ∧ mi_Scope i = cm_Scope m) l).
  { intros l. apply Forall_iff. intros i. by rewrite bind_scope_Ok, bool_decide_eq_true. }
  assert (Hp : ∀ l, Forall (λ p, CanonicalPayload_Validate p = Ok tt) l ↔
      Forall (λ p, PayloadRef_Validate (cp_Ref p) = Ok tt ∧ cp_Data p ≠ "" ∧
        len (cp_Data p) = pr_ByteSize (cp_Ref p) ∧ pr_Digest (cp_Ref p) = sha256_hex (cp_Data p)) l).
  { intros l. apply Forall_iff. apply CanonicalPayload_Validate_Ok. }
  rewrite Hs, Hi, Hp.
  assert (Hc : 0 ≤ mutation_record_count m) by (unfold mutation_record_count, Zlength; lia).
  assert (Hcount : (mutation_record_count m ≠ 0 ∧ mutation_record_count m ≤ maxCanonicalMutationRecords) ↔
    0 < mutation_record_count m ≤ maxCanonicalMutationRecords) by lia.
  rewrite Hcount. tauto.
Qed.
