(* ===== verification/GoTimeJson.v ===== *)
(** * GoTimeJson: the parts of Go's [time] and [encoding/json] the memory core uses

    A time is the number of nanoseconds since January 1 of year 1, UTC.
    [Format_RFC3339Nano] is [t.UTC().Format(time.RFC3339Nano)]; [json_string] is
    [json.Marshal] of a string and [json_time] of a time in UTC. *)

From Stdlib Require Import ZArith Lia Ascii String.
From stdpp Require Import base numbers list strings pretty.
From S2P Require Import Prelude.
From S2P Require Import GoStrings.

Local Open Scope string_scope.
Local Open Scope list_scope.
Local Open Scope Z_scope.

(** ** The civil calendar *)
Definition is_leap (y : Z) : bool :=
  (y mod 4 =? 0) && (negb (y mod 100 =? 0) || (y mod 400 =? 0)).

Definition month_lengths (y : Z) : list Z :=
  [31; if is_leap y then 29 else 28; 31; 30; 31; 30; 31; 31; 30; 31; 30; 31].

(** (month, day) of a day of the year counted from 0. *)
Fixpoint month_day (lengths : list Z) (month day : Z) : Z * Z :=
  match lengths with
  | [] => (month, day + 1)
  | n :: lengths => if day <? n then (month, day + 1) else month_day lengths (month + 1) (day - n)
  end.

(** (year, month, day) of a day counted from January 1 of year 1: four-hundred-year
    cycles, then centuries, four-year cycles and years, the last of each one day
    longer. *)
Definition civil (days : Z) : Z * Z * Z :=
  let n400 := days / 146097 in
  let d := days mod 146097 in
  let n100 := Z.min (d / 36524) 3 in
  let d := d - n100 * 36524 in
  let n4 := d / 1461 in
  let d := d mod 1461 in
  let n1 := Z.min (d / 365) 3 in
  let d := d - n1 * 365 in
  let year := 400 * n400 + 100 * n100 + 4 * n4 + n1 + 1 in
  let '(month, day) := month_day (month_lengths year) 1 d in
  (year, month, day).

(** ** Printing *)
Definition digit (d : Z) : ascii := char_of (48 + d).

(** The last [width] decimal digits. *)
Fixpoint digits (width : nat) (n : Z) : string :=
  match width with
  | O => ""
  | S width => digits width (n / 10) +:+ String (digit (n mod 10)) ""
  end.

(** Zero padding to at least [width] digits, with a sign for negative numbers. *)
Definition pad_int (width : nat) (n : Z) : string :=
  let body := if Z.abs n <? 10 ^ Z.of_nat width then digits width (Z.abs n) else pretty (Z.abs n) in
  if n <? 0 then "-" +:+ body else body.

Fixpoint trim_zeros (s : string) : string :=
  match s with
  | EmptyString => EmptyString
  | String c s =>
      match trim_zeros s with
      | EmptyString => if Ascii.eqb c "0"%char then EmptyString else String c EmptyString
      | t => String c t
      end
  end.

Definition fraction (nanos : Z) : string :=
  if nanos =? 0 then "" else "." +:+ trim_zeros (digits 9 nanos).

Definition Format_RFC3339Nano (t : Z) : string :=
  let seconds := t / 1000000000 in
  let nanos := t mod 1000000000 in
  let '(year, month, day) := civil (seconds / 86400) in
  let s := seconds mod 86400 in
  pad_int 4 year +:+ "-" +:+ pad_int 2 month +:+ "-" +:+ pad_int 2 day +:+ "T" +:+
  pad_int 2 (s / 3600) +:+ ":" +:+ pad_int 2 (s / 60 mod 60) +:+ ":" +:+ pad_int 2 (s mod 60) +:+
  fraction nanos +:+ "Z".

(** ** JSON *)
Definition hex4 (r : Z) : string :=
  String (hex_digit (r / 4096)) (String (hex_digit (r / 256 mod 16))
    (String (hex_digit (r / 16 mod 16)) (String (hex_digit (r mod 16)) ""))).
Definition backslash : ascii := "092"%char.
Definition escaped (c : ascii) : string := String backslash (String c "").
Definition unicode_escape (r : Z) : string := String backslash (String "u" (hex4 r)).

(** One rune of a JSON string with HTML escaping; an invalid byte is U+FFFD,
    written as an escape. *)
Definition json_rune (rw : Z * nat) : string :=
  let r := rw.1 in
  if (r =? RuneError) && (rw.2 =? 1)%nat then unicode_escape RuneError
  else if (r =? 34) || (r =? 92) then escaped (char_of r)
  else if r =? 8 then escaped "b"
  else if r =? 12 then escaped "f"
  else if r =? 10 then escaped "n"
  else if r =? 13 then escaped "r"
  else if r =? 9 then escaped "t"
  else if (r <? 32) || (r =? 60) || (r =? 62) || (r =? 38) || (r =? 8232) || (r =? 8233)
  then unicode_escape r
  else encode_rune r.

Definition quote : ascii := "034"%char.
Definition json_string (s : string) : string :=
  String quote (foldr (λ rw acc, json_rune rw +:+ acc) (String quote "") (runes s)).

(** [Time.MarshalJSON] refuses a year outside 0 to 9999. *)
Definition json_time (t : Z) : result string :=
  let '(year, _, _) := civil (t / 1000000000 / 86400) in
  _ ← reject_if ((year <? 0) || (9999 <? year))
        (ErrText "Time.MarshalJSON: year outside of range [0,9999]");
  Ok (String quote (Format_RFC3339Nano t +:+ String quote "")).

(** A stored time is text with a four-digit year. *)
Definition storable (t : Z) : bool := is_ok (json_time t).
(** An object from its encoded members. *)
Definition json_object (members : list (string * string)) : string :=
  "{" +:+ strings_Join (map (λ '(k, v), json_string k +:+ ":" +:+ v) members) "," +:+ "}".

Example format_epoch : Format_RFC3339Nano 0 = "0001-01-01T00:00:00Z".
Proof. vm_compute. reflexivity. Qed.
(** 2024-02-29 12:34:56.789 *)
Example format_leap_day :
  Format_RFC3339Nano ((738944 * 86400 + 12 * 3600 + 34 * 60 + 56) * 1000000000 + 789000000) =
    "2024-02-29T12:34:56.789Z".
Proof. vm_compute. reflexivity. Qed.
Example json_escapes :
  json_string (String "a" (String quote (String "<" (String LF "é")))) =
    String quote ("a" +:+ escaped quote +:+ unicode_escape 60 +:+ escaped "n" +:+ "é" +:+ String quote "").
Proof. vm_compute. reflexivity. Qed.
