(* ===== verification/MemoryReconciler.v ===== *)
(** * MemoryReconciler: from untrusted candidates to application-owned identities

    Models src/sessionmemory/reconciler.go: the policy that turns one semantic
    candidate and a bounded view of the active memory into an item, a revision
    identity and a lifecycle event. *)

From Stdlib Require Import ZArith Lia Ascii String.
From stdpp Require Import base numbers list gmap strings.
From S2P Require Import Prelude.
From S2P Require Import GoStrings.
From S2P Require Import Sha256.
From S2P Require Import GoTimeJson.
From S2P Require Import MemoryTypes.
From S2P Require Import MemoryRecords.
From S2P Require Import MemoryDerived.

Local Open Scope string_scope.
Local Open Scope list_scope.
Local Open Scope Z_scope.

Definition ReconciliationActionCreate : string := "create".
Definition ReconciliationActionSupersede : string := "supersede".

Record SemanticCandidate := mkSemanticCandidate {
  sem_Kind : string; sem_Subject : string; sem_Predicate : string; sem_Qualifiers : list string;
  sem_Memory : MemoryCandidate }.

Record PolicyRegistry := mkPolicy { pol_Version : string }.

Record Reconciliation := mkReconciliation {
  rc_Action : string; rc_Item : MemoryItem; rc_Supersedes : option MemoryItem;
  rc_RevisionID : string; rc_Provenance : list EvidenceRef; rc_Lifecycle : LifecycleEvent }.

Record ActiveMemoryItem := mkActiveMemoryItem {
  ai_Item : MemoryItem; ai_Evidence : list EvidenceRef }.

(** ** Identities *)
Definition reconciliation_preimage (kind : string) (parts : list string) : string :=
  framed_all 8 (MemorySchemaVersionV2 :: kind :: parts).
Definition reconciliationID (kind : string) (parts : list string) : string :=
  "session-memory:v2:" +:+ kind +:+ ":" +:+ sha256_hex (reconciliation_preimage kind parts).

Definition canonicalSemanticPart (value : string) : result string :=
  let value := ToLower (strings_Join (Fields value) " ") in
  _ ← reject_if (bool_decide (value = "") || (maxMemoryTextBytes <? len value))
        (invalidDerived "semantic candidate part is invalid");
  Ok value.

Definition sameEventEvidence (left right : list EvidenceRef) : bool :=
  existsb (λ a, existsb (λ b, bool_decide (ev_SourceID a = ev_SourceID b) &&
                              bool_decide (ev_MessageID a = ev_MessageID b)) right) left.

Definition NUL : string := String "000"%char "".

Definition state_key (version scopeKey subject predicate : string) (qualifiers : list string) : string :=
  reconciliationID "key" [version; scopeKey; subject; predicate; strings_Join qualifiers NUL].
Definition state_item_id (scopeKey memoryKey : string) : string :=
  reconciliationID "item" [scopeKey; memoryKey].
Definition event_item_id (scopeKey sourceID messageID eventAt subject predicate : string)
    (qualifiers : list string) : string :=
  reconciliationID "event"
    [scopeKey; sourceID; messageID; eventAt; subject; predicate; strings_Join qualifiers NUL].

(** The item a candidate names before the active view is consulted; [first] is its
    first evidence reference. *)
Definition candidate_item (version : string) (scope : Scope) (candidate : SemanticCandidate)
    (first : EvidenceRef) (subject predicate : string) (qualifiers : list string) : MemoryItem :=
  if bool_decide (sem_Kind candidate = MemoryKindState) then
    let key := state_key version (sc_Key scope) subject predicate qualifiers in
    mkMemoryItem (state_item_id (sc_Key scope) key) scope (sem_Kind candidate) key
  else
    let eventAt := match tp_EventAt (mc_Temporal (sem_Memory candidate)) with
                   | Some t => Format_RFC3339Nano t
                   | None => ""
                   end in
    mkMemoryItem
      (event_item_id (sc_Key scope) (ev_SourceID first) (ev_MessageID first) eventAt subject predicate
        qualifiers) scope (sem_Kind candidate) "".

(** The loop over the active view: (the item, its match). *)
Fixpoint match_active (scope : Scope) (candidate : SemanticCandidate) (item : MemoryItem)
    (matched : option MemoryItem) (active : list ActiveMemoryItem) :
    result (MemoryItem * option MemoryItem) :=
  match active with
  | [] => Ok (item, matched)
  | existing :: active =>
      let e := ai_Item existing in
      _ ← reject_if (negb (is_ok (MemoryItem_Validate e)) || negb (bool_decide (mi_Scope e = scope)))
            (PermanentError CodeScopeViolation "reconciliation active item is invalid or foreign" None);
      '(item, matched) ←
        (if bool_decide (sem_Kind candidate = MemoryKindState) &&
            bool_decide (mi_MemoryKey e = mi_MemoryKey item) then
           _ ← reject_if (negb (bool_decide (matched = None)))
                 (invalidDerived "reconciliation has ambiguous active state matches");
           Ok (item, Some e)
         else Ok (item, matched));
      '(item, matched) ←
        (if bool_decide (sem_Kind candidate = MemoryKindEvent) &&
            sameEventEvidence (ai_Evidence existing) (mc_Evidence (sem_Memory candidate)) then
           _ ← reject_if (negb (bool_decide (matched = None)))
                 (invalidDerived "reconciliation has ambiguous active event matches");
           Ok (mkMemoryItem (mi_ItemID e) (mi_Scope item) (mi_Kind item) (mi_MemoryKey item), Some e)
         else Ok (item, matched));
      match_active scope candidate item matched active
  end.

Definition ReconcileActive (p : PolicyRegistry) (scope : Scope) (candidate : SemanticCandidate)
    (active : list ActiveMemoryItem) : result Reconciliation :=
  _ ← Scope_Validate scope;
  _ ← reject_if (negb (isCanonicalID (pol_Version p)))
        (invalidDerived "reconciliation policy version is required");
  _ ← MemoryCandidate_Validate (sem_Memory candidate);
  _ ← reject_if (negb (bool_decide (sem_Kind candidate = mc_Kind (sem_Memory candidate))))
        (invalidDerived "semantic candidate kind does not match memory candidate");
  subject ← canonicalSemanticPart (sem_Subject candidate);
  predicate ← canonicalSemanticPart (sem_Predicate candidate);
  qualifiers ← map_check canonicalSemanticPart (sem_Qualifiers candidate);
  _ ← reject_if (MaxSnapshotItems <? Zlength active)
        (limitExceeded "reconciliation active view exceeds the limit");
  match mc_Evidence (sem_Memory candidate) with
  | [] => Err (invalidDerived "memory candidate evidence is invalid")  (* refused above *)
  | first :: _ =>
      let item := candidate_item (pol_Version p) scope candidate first subject predicate qualifiers in
      _ ← MemoryItem_Validate item;
      '(item, matched) ← match_active scope candidate item None active;
      let revisionID := reconciliationID "revision"
        [mi_ItemID item; ev_SourceID first; ev_MessageID first; mc_Statement (sem_Memory candidate)] in
      let action := match matched with
                    | None => ReconciliationActionCreate
                    | Some _ => ReconciliationActionSupersede
                    end in
      let lifecycle := mkLifecycleEvent (reconciliationID "lifecycle" [revisionID; action]) revisionID
        (match matched with None => LifecycleEventActivate | Some _ => LifecycleEventSupersede end)
        (tp_ObservedAt (mc_Temporal (sem_Memory candidate))) in
      _ ← LifecycleEvent_Validate lifecycle;
      Ok (mkReconciliation action item matched revisionID (mc_Evidence (sem_Memory candidate)) lifecycle)
  end.

(** [Reconcile]: an active view without evidence. *)
Definition Reconcile (p : PolicyRegistry) (scope : Scope) (candidate : SemanticCandidate)
    (active : list MemoryItem) : result Reconciliation :=
  ReconcileActive p scope candidate (map (λ item, mkActiveMemoryItem item []) active).

(** ** The active view *)

(** Whether an active entry is the one the candidate refers to. *)
Definition hit (candidate : SemanticCandidate) (key : string) (existing : ActiveMemoryItem) : bool :=
  (bool_decide (sem_Kind candidate = MemoryKindState) && bool_decide (mi_MemoryKey (ai_Item existing) = key)) ||
  (bool_decide (sem_Kind candidate = MemoryKindEvent) &&
   sameEventEvidence (ai_Evidence existing) (mc_Evidence (sem_Memory candidate))).

(** The item after a match: an event takes over the identity of what it edits. *)
Definition adopt (candidate : SemanticCandidate) (item e : MemoryItem) : MemoryItem :=
  if bool_decide (sem_Kind candidate = MemoryKindEvent)
  then mkMemoryItem (mi_ItemID e) (mi_Scope item) (mi_Kind item) (mi_MemoryKey item) else item.

Definition settled (candidate : SemanticCandidate) (item : MemoryItem) (hits : list ActiveMemoryItem)
    (res : MemoryItem * option MemoryItem) : Prop :=
  match hits with
  | [] => res = (item, None)
  | [x] => res = (adopt candidate item (ai_Item x), Some (ai_Item x))
  | _ => False
  end.

Definition active_ok (scope : Scope) (x : ActiveMemoryItem) : Prop :=
  MemoryItem_Validate (ai_Item x) = Ok tt ∧ mi_Scope (ai_Item x) = scope.

(** One round of the loop. *)
Lemma match_active_step scope candidate item matched x active :
  match_active scope candidate item matched (x :: active) =
    _ ← reject_if (negb (is_ok (MemoryItem_Validate (ai_Item x))) || negb (bool_decide (mi_Scope (ai_Item x) = scope)))
          (PermanentError CodeScopeViolation "reconciliation active item is invalid or foreign" None);
    if hit candidate (mi_MemoryKey item) x then
      _ ← reject_if (negb (bool_decide (matched = None)))
            (invalidDerived (if bool_decide (sem_Kind candidate = MemoryKindState)
              then "reconciliation has ambiguous active state matches"
              else "reconciliation has ambiguous active event matches"));
      match_active scope candidate (adopt candidate item (ai_Item x)) (Some (ai_Item x)) active
    else match_active scope candidate item matched active.
Proof.
  cbn [match_active]. apply reject_cong. unfold hit, adopt.
  destruct (decide (sem_Kind candidate = MemoryKindState)) as [Hk|Hk].
  - rewrite Hk. change (bool_decide (MemoryKindState = MemoryKindState)) with true.
    change (bool_decide (MemoryKindState = MemoryKindEvent)) with false. rewrite andb_true_l, andb_false_l, orb_false_r.
    destruct (bool_decide (mi_MemoryKey (ai_Item x) = mi_MemoryKey item)).
    + rewrite bind_assoc_result. apply reject_cong. rewrite !bind_ok. reflexivity.
    + rewrite !bind_ok. reflexivity.
  - rewrite (bool_decide_false (sem_Kind candidate = MemoryKindState)) by done.
    rewrite andb_false_l, orb_false_l, bind_ok. cbv iota beta.
    destruct (bool_decide (sem_Kind candidate = MemoryKindEvent)); cycle 1.
    { rewrite andb_false_l, bind_ok. reflexivity. }
    rewrite andb_true_l. destruct (sameEventEvidence _ _).
    + rewrite bind_assoc_result. apply reject_cong. rewrite bind_ok. reflexivity.
    + rewrite bind_ok. reflexivity.
Qed.

Lemma adopt_key candidate item e : mi_MemoryKey (adopt candidate item e) = mi_MemoryKey item.
Proof. unfold adopt. by case_bool_decide. Qed.

Lemma match_active_checked scope candidate item matched active res :
  match_active scope candidate item matched active = Ok res → Forall (active_ok scope) active.
Proof.
  revert item matched. induction active as [|x active IH]; intros item matched; [constructor|].
  rewrite match_active_step, reject_bind, orb_false_iff, !negb_false_iff, is_ok_unit, bool_decide_eq_true.
  intros [[H1 H2] H]. constructor; [done|].
  destruct (hit _ _ _); [|by eapply IH]. apply reject_bind in H as [_ H]. by eapply IH.
Qed.

(** After a match a second one is refused. *)
Lemma match_active_taken scope candidate item e active res :
  match_active scope candidate item (Some e) active = Ok res →
  res = (item, Some e) ∧ filter (λ x, hit candidate (mi_MemoryKey item) x = true) active = [].
Proof.
  revert item. induction active as [|x active IH]; intros item; [by intros [= <-]|].
  rewrite match_active_step, reject_bind. intros [_ H]. destruct (hit candidate _ x) eqn:Hh.
  - by apply reject_bind in H as [H _].
  - rewrite filter_cons_False by (by rewrite Hh). by apply IH.
Qed.

Lemma match_active_settled scope candidate item active res :
  match_active scope candidate item None active = Ok res →
  settled candidate item (filter (λ x, hit candidate (mi_MemoryKey item) x = true) active) res.
Proof.
  induction active as [|x active IH]; [by intros [= <-]|].
  rewrite match_active_step, reject_bind. intros [_ H]. destruct (hit candidate _ x) eqn:Hh.
  - rewrite filter_cons_True by done. apply reject_bind in H as [_ H].
    apply match_active_taken in H as [-> Hf]. rewrite adopt_key in Hf. by rewrite Hf.
  - rewrite filter_cons_False by (by rewrite Hh). by apply IH.
Qed.

Lemma ReconcileActive_Ok p scope candidate active r :
  ReconcileActive p scope candidate active = Ok r →
  ∃ first rest subject predicate qualifiers item matched,
    mc_Evidence (sem_Memory candidate) = first :: rest ∧
    canonicalSemanticPart (sem_Subject candidate) = Ok subject ∧
    canonicalSemanticPart (sem_Predicate candidate) = Ok predicate ∧
    map_check canonicalSemanticPart (sem_Qualifiers candidate) = Ok qualifiers ∧
    match_active scope candidate
      (candidate_item (pol_Version p) scope candidate first subject predicate qualifiers) None active =
      Ok (item, matched) ∧
    MemoryItem_Validate (candidate_item (pol_Version p) scope candidate first subject predicate qualifiers) = Ok tt ∧
    MemoryCandidate_Validate (sem_Memory candidate) = Ok tt ∧
    LifecycleEvent_Validate (rc_Lifecycle r) = Ok tt ∧ le_RevisionID (rc_Lifecycle r) = rc_RevisionID r ∧
    r = mkReconciliation
      (match matched with None => ReconciliationActionCreate | Some _ => ReconciliationActionSupersede end)
      item matched
      (reconciliationID "revision"
        [mi_ItemID item; ev_SourceID first; ev_MessageID first; mc_Statement (sem_Memory candidate)])
      (mc_Evidence (sem_Memory candidate)) (rc_Lifecycle r).
Proof.
  unfold ReconcileActive.
  intros (_ & (_ & (Hc & (_ & (subject & Hs & (predicate & Hp & (qualifiers & Hq & (_ & H)%bind_unit)%bind_Ok)%bind_Ok)%bind_Ok)%bind_unit)%bind_unit)%bind_unit)%bind_unit.
  destruct (mc_Evidence (sem_Memory candidate)) as [|first rest] eqn:He; [done|].
  apply bind_unit in H as (Hi & H). apply bind_Ok in H as ([item matched] & Hm & H).
  apply bind_unit in H as (Hl & [= <-]).
  exists first, rest, subject, predicate, qualifiers, item, matched. do 9 (split; [done|]). done.
Qed.

(** Equal identities name the same parts, up to a hash collision. *)
Lemma reconciliationID_inj k1 ps1 k2 ps2 :
  Forall (fits 8) (k1 :: ps1) → Forall (fits 8) (k2 :: ps2) →
  reconciliationID k1 ps1 = reconciliationID k2 ps2 →
  k1 = k2 ∧ (ps1 = ps2 ∨ sha256_collision (reconciliation_preimage k1 ps1) (reconciliation_preimage k2 ps2)).
Proof.
  intros H1 H2 H. apply tagged_digest_inj in H as [-> [H|H]]; [|split; [reflexivity | right; exact H]].
  unfold reconciliation_preimage in H.
  assert (Hv : fits 8 MemorySchemaVersionV2) by done.
  apply framed_all_inj in H; [|lia|by constructor|by constructor].
  injection H as ->. split; [reflexivity | left; reflexivity].
Qed.

Lemma reconciliationID_nonempty kind parts : reconciliationID kind parts ≠ "".
Proof. unfold reconciliationID. intros H. discriminate H. Qed.

Lemma candidate_item_fields version scope c first subject predicate qualifiers :
  let item := candidate_item version scope c first subject predicate qualifiers in
  mi_Scope item = scope ∧ mi_Kind item = sem_Kind c ∧
  (sem_Kind c = MemoryKindState →
   mi_ItemID item = state_item_id (sc_Key scope) (mi_MemoryKey item) ∧ mi_MemoryKey item ≠ "").
Proof.
  intros item. subst item. unfold candidate_item. case_bool_decide as Hk; cbv zeta; cbn [mi_Scope mi_Kind mi_ItemID mi_MemoryKey].
  - split; [reflexivity|]. split; [reflexivity|]. intros _. split; [reflexivity | apply reconciliationID_nonempty].
  - split; [reflexivity|]. split; [reflexivity|]. intros H. contradiction.
Qed.

(** What an accepted reconciliation returns, for its callers. *)
Lemma reconciled_item p scope c view r :
  ReconcileActive p scope c view = Ok r →
  mi_Scope (rc_Item r) = scope ∧ mi_Kind (rc_Item r) = sem_Kind c ∧
  rc_Provenance r = mc_Evidence (sem_Memory c) ∧ le_RevisionID (rc_Lifecycle r) = rc_RevisionID r ∧
  (sem_Kind c = MemoryKindState →
   mi_ItemID (rc_Item r) = state_item_id (sc_Key scope) (mi_MemoryKey (rc_Item r)) ∧
   mi_MemoryKey (rc_Item r) ≠ "") ∧
  match rc_Supersedes r with
  | None => rc_Action r = ReconciliationActionCreate
  | Some e => rc_Action r = ReconciliationActionSupersede ∧ e ∈ map ai_Item view ∧
      (mi_ItemID (rc_Item r) = mi_ItemID e ∨
       sem_Kind c = MemoryKindState ∧ mi_MemoryKey e = mi_MemoryKey (rc_Item r))
  end.
Proof.
  intros (first & rest & s & pr & q & item & matched & _ & _ & _ & _ & Hm & _ & _ & _ & Hl & Hr)%ReconcileActive_Ok.
  pose proof (candidate_item_fields (pol_Version p) scope c first s pr q) as (Hs & Hk & Hid).
  set (item0 := candidate_item _ _ _ _ _ _ _) in *.
  rewrite Hr. cbn [rc_Item rc_Provenance rc_Action rc_Supersedes rc_Lifecycle rc_RevisionID].
  rewrite Hl, Hr. cbn [rc_RevisionID]. apply match_active_settled in Hm. unfold settled in Hm.
  assert (Hin : ∀ x, x ∈ filter (λ x, hit c (mi_MemoryKey item0) x = true) view →
    hit c (mi_MemoryKey item0) x = true ∧ ai_Item x ∈ map ai_Item view).
  { intros x [Hh Hx]%list_elem_of_filter. split; [done|]. apply list_elem_of_fmap. by exists x. }
  destruct (filter _ view) as [|x [|]]; [|destruct (Hin x) as [Hh Hv]; [apply list_elem_of_here|]|done].
  { injection Hm as -> ->. done. }
  injection Hm as -> ->. unfold adopt. unfold hit in Hh.
  destruct (decide (sem_Kind c = MemoryKindEvent)) as [He|He].
  - rewrite bool_decide_true by done. cbn. do 4 (split; [done|]). split; [|by auto].
    intros Hst. rewrite Hst in He. discriminate He.
  - rewrite (bool_decide_false (_ = MemoryKindEvent)) in Hh |- * by done. cbn [andb] in Hh. rewrite orb_false_r in Hh.
    apply andb_true_iff in Hh as [Hkind%bool_decide_eq_true Hkey%bool_decide_eq_true].
    do 4 (split; [done|]). split; [done|]. split; [done|]. split; [done|]. right. done.
Qed.

(** The entry an accepted candidate supersedes is the only one it refers to. *)
Lemma reconciled_hits p scope candidate active r :
  ReconcileActive p scope candidate active = Ok r →
  Forall (active_ok scope) active ∧
  match filter (λ x, hit candidate (mi_MemoryKey (rc_Item r)) x = true) active with
  | [] => rc_Action r = ReconciliationActionCreate ∧ rc_Supersedes r = None
  | [x] => rc_Action r = ReconciliationActionSupersede ∧ rc_Supersedes r = Some (ai_Item x) ∧
           (sem_Kind candidate = MemoryKindEvent → mi_ItemID (rc_Item r) = mi_ItemID (ai_Item x))
  | _ => False
  end.
Proof.
  intros (first & rest & subject & predicate & qualifiers & item & matched & _ & _ & _ & _ & Hm & _ & _ & _ & _ & ->)%ReconcileActive_Ok.
  cbn [rc_Item rc_Action rc_Supersedes]. split; [by eapply match_active_checked|].
  set (item0 := candidate_item _ _ _ _ _ _ _) in *.
  apply match_active_settled in Hm. unfold settled in Hm.
  assert (Hk : mi_MemoryKey item = mi_MemoryKey item0).
  { destruct (filter _ active) as [|x [|]]; [by injection Hm as -> _| |done].
    injection Hm as -> _. apply adopt_key. }
  rewrite Hk.
  destruct (filter _ active) as [|x [|]]; [by injection Hm as _ ->| |done].
  injection Hm as -> ->. split; [reflexivity|]. split; [reflexivity|]. intros He. unfold adopt.
  rewrite bool_decide_true by exact He. reflexivity.
Qed.

(** ** Properties *)

(** Reconciliation is deterministic and scoped: an accepted candidate stays in the
    requested scope and kind, keeps exactly its evidence, every active entry was
    valid and in scope, and it supersedes the one active entry it refers to (same
    memory key for a state, shared evidence message for an event) or creates a new
    item when there is none; two matches are never accepted. *)
Theorem reconcile_sound p scope candidate active r :
  ReconcileActive p scope candidate active = Ok r →
  mi_Scope (rc_Item r) = scope ∧ mi_Kind (rc_Item r) = sem_Kind candidate ∧
  rc_Provenance r = mc_Evidence (sem_Memory candidate) ∧ Forall (active_ok scope) active ∧
  match filter (λ x, hit candidate (mi_MemoryKey (rc_Item r)) x = true) active with
  | [] => rc_Action r = ReconciliationActionCreate ∧ rc_Supersedes r = None
  | [x] => rc_Action r = ReconciliationActionSupersede ∧ rc_Supersedes r = Some (ai_Item x) ∧
           (sem_Kind candidate = MemoryKindEvent → mi_ItemID (rc_Item r) = mi_ItemID (ai_Item x))
  | _ => False
  end.
Proof.
  intros H. pose proof (reconciled_item _ _ _ _ _ H) as (Hs & Hk & Hp & _).
  pose proof (reconciled_hits _ _ _ _ _ H) as [Ha Hh].
  split; [exact Hs|]. split; [exact Hk|]. split; [exact Hp|]. split; [exact Ha | exact Hh].
Qed.

(** The identity of a state memory depends only on the policy version, the scope key
    and the normalized subject, predicate and qualifiers: letter case, spacing,
    evidence, statement and the active view do not change it. *)
Theorem state_identity_stable p scope c1 c2 active1 active2 r1 r2 :
  ReconcileActive p scope c1 active1 = Ok r1 → ReconcileActive p scope c2 active2 = Ok r2 →
  sem_Kind c1 = MemoryKindState → sem_Kind c2 = MemoryKindState →
  canonicalSemanticPart (sem_Subject c1) = canonicalSemanticPart (sem_Subject c2) →
  canonicalSemanticPart (sem_Predicate c1) = canonicalSemanticPart (sem_Predicate c2) →
  map_check canonicalSemanticPart (sem_Qualifiers c1) = map_check canonicalSemanticPart (sem_Qualifiers c2) →
  rc_Item r1 = rc_Item r2.
Proof.
  assert (Hstate : ∀ c active r, ReconcileActive p scope c active = Ok r → sem_Kind c = MemoryKindState →
    ∃ subject predicate qualifiers,
      canonicalSemanticPart (sem_Subject c) = Ok subject ∧
      canonicalSemanticPart (sem_Predicate c) = Ok predicate ∧
      map_check canonicalSemanticPart (sem_Qualifiers c) = Ok qualifiers ∧
      rc_Item r =
        (let key := state_key (pol_Version p) (sc_Key scope) subject predicate qualifiers in
         mkMemoryItem (state_item_id (sc_Key scope) key) scope MemoryKindState key)).
  { intros c active r (first & rest & s & pr & q & item & m & _ & Hs & Hp & Hq & Hm & _ & _ & _ & _ & ->)%ReconcileActive_Ok Hk.
    exists s, pr, q. do 3 (split; [done|]). cbn [rc_Item].
    apply match_active_settled in Hm. unfold candidate_item in Hm. rewrite Hk in Hm.
    change (bool_decide (MemoryKindState = MemoryKindState)) with true in Hm. cbv iota zeta in Hm.
    unfold settled, adopt in Hm. rewrite Hk in Hm.
    change (bool_decide (MemoryKindState = MemoryKindEvent)) with false in Hm. cbv iota in Hm.
    destruct (filter _ active) as [|x [|]]; [by injection Hm as -> _|by injection Hm as -> _|done]. }
  intros H1 H2 Hk1 Hk2 Es Ep Eq.
  destruct (Hstate _ _ _ H1 Hk1) as (s1 & p1 & q1 & Hs1 & Hp1 & Hq1 & ->).
  destruct (Hstate _ _ _ H2 Hk2) as (s2 & p2 & q2 & Hs2 & Hp2 & Hq2 & ->).
  assert (s1 = s2) as -> by congruence. assert (p1 = p2) as -> by congruence.
  assert (q1 = q2) as -> by congruence. done.
Qed.

(** A finding: an event that quotes a message behind an active state memory takes
    that state over. The match on evidence does not look at the entry's kind, so an
    accepted event candidate supersedes the state item and continues its identity
    as an event. *)
Theorem event_supersedes_state p scope candidate active x r :
  ReconcileActive p scope candidate active = Ok r → sem_Kind candidate = MemoryKindEvent →
  x ∈ active → mi_Kind (ai_Item x) = MemoryKindState →
  sameEventEvidence (ai_Evidence x) (mc_Evidence (sem_Memory candidate)) = true →
  rc_Action r = ReconciliationActionSupersede ∧ rc_Supersedes r = Some (ai_Item x) ∧
  mi_ItemID (rc_Item r) = mi_ItemID (ai_Item x) ∧ mi_Kind (rc_Item r) ≠ mi_Kind (ai_Item x).
Proof.
  intros H He Hx Hst Hev. pose proof (reconciled_item _ _ _ _ _ H) as (_ & Hk & _).
  pose proof (reconciled_hits _ _ _ _ _ H) as [_ Hh].
  assert (Hin : x ∈ filter (λ y, hit candidate (mi_MemoryKey (rc_Item r)) y = true) active).
  { apply list_elem_of_filter. split; [|exact Hx]. unfold hit. apply orb_true_iff. right.
    rewrite bool_decide_true by exact He. exact Hev. }
  destruct (filter _ active) as [|y [|]]; [by apply not_elem_of_nil in Hin| |done].
  apply list_elem_of_singleton in Hin as <-. destruct Hh as (Ha & Hs & Hi).
  split; [exact Ha|]. split; [exact Hs|]. split; [exact (Hi He)|].
  rewrite Hk, He, Hst. intros E. discriminate E.
Qed.

(** ** Witnesses *)
Definition demo_evidence (message : string) : EvidenceRef :=
  mkEvidenceRef "src" message MessageRoleUser 0 4 AssertionModeUser "".
Definition demo_temporal : Temporal := mkTemporal 1000 None None None None "" "" "".
Definition demo_candidate (kind subject : string) (qualifiers : list string) (statement message : string) :
    SemanticCandidate :=
  mkSemanticCandidate kind subject "lives in" qualifiers
    (mkMemoryCandidate kind statement demo_temporal [demo_evidence message]
      SensitivityStandard RetentionClassStandard).
Definition demo_policy : PolicyRegistry := mkPolicy "policy-v1".
Definition demo_reconciled (c : SemanticCandidate) (active : list ActiveMemoryItem) : Reconciliation :=
  ok_or (mkReconciliation "" (mkMemoryItem "" demo_scope "" "") None "" [] (mkLifecycleEvent "" "" "" 0))
    (ReconcileActive demo_policy demo_scope c active).
Definition demo_home : SemanticCandidate := demo_candidate MemoryKindState "User" [] "lives in Oslo" "m1".
Definition demo_move : SemanticCandidate := demo_candidate MemoryKindState " the  USER" [] "lives in Rome" "m2".
Definition demo_active : list ActiveMemoryItem :=
  [mkActiveMemoryItem (rc_Item (demo_reconciled demo_home [])) [demo_evidence "m1"]].

(** The same subject supersedes the home already known. *)
Lemma reconcile_sound_witness :
  mi_Scope (rc_Item (demo_reconciled demo_home demo_active)) = demo_scope ∧
  length (filter (λ x, hit demo_home (mi_MemoryKey (rc_Item (demo_reconciled demo_home demo_active))) x = true)
    demo_active) = 1%nat.
Proof.
  split; [|vm_compute; reflexivity].
  refine (proj1 (reconcile_sound demo_policy demo_scope demo_home demo_active
    (demo_reconciled demo_home demo_active) _)). apply is_ok_run. vm_compute. reflexivity.
Defined.

Lemma state_identity_stable_witness :
  rc_Item (demo_reconciled (demo_candidate MemoryKindState "USER " [] "x" "m1") []) =
  rc_Item (demo_reconciled demo_home demo_active).
Proof.
  apply (state_identity_stable demo_policy demo_scope (demo_candidate MemoryKindState "USER " [] "x" "m1")
    demo_home [] demo_active (demo_reconciled (demo_candidate MemoryKindState "USER " [] "x" "m1") [])
    (demo_reconciled demo_home demo_active)); try (apply is_ok_run; vm_compute; reflexivity); reflexivity.
Defined.

Definition demo_trip : SemanticCandidate := demo_candidate MemoryKindEvent "trip" [] "moved to Rome" "m1".
Lemma event_supersedes_state_witness :
  rc_Action (demo_reconciled demo_trip demo_active) = ReconciliationActionSupersede.
Proof.
  refine (proj1 (event_supersedes_state demo_policy demo_scope demo_trip demo_active
    (mkActiveMemoryItem (rc_Item (demo_reconciled demo_home [])) [demo_evidence "m1"])
    (demo_reconciled demo_trip demo_active) _ _ _ _ _)).
  - apply is_ok_run. vm_compute. reflexivity.
  - reflexivity.
  - apply list_elem_of_here.
  - vm_compute. reflexivity.
  - vm_compute. reflexivity.
Defined.

(** Qualifiers are joined with a NUL byte they may contain themselves, so different
    qualifier lists can name one memory. *)
Example qualifier_lists_collide :
  rc_Item (demo_reconciled (demo_candidate MemoryKindState "u" ["a" +:+ NUL +:+ "b"] "x" "m1") []) =
  rc_Item (demo_reconciled (demo_candidate MemoryKindState "u" ["a"; "b"] "x" "m1") []) ∧
  is_ok (ReconcileActive demo_policy demo_scope
    (demo_candidate MemoryKindState "u" ["a" +:+ NUL +:+ "b"] "x" "m1") []) = true.
Proof. split; vm_compute; reflexivity. Qed.
