(* ===== verification/MemoryProcessor.v ===== *)
(** * MemoryProcessor: one terminal turn becomes one canonical mutation

    Models src/sessionmemory/canonical_processor.go and canonical_extraction.go,
    with the helpers of processing_helpers.go and clone.go they use.  The store and
    the semantic extractor are interfaces of the source; they are parameters
    here.  [cloneTurn] copies a slice, which values do not need. *)

From Stdlib Require Import ZArith Lia Ascii String.
From stdpp Require Import base numbers list gmap strings.
From S2P Require Import Prelude.
From S2P Require Import GoStrings.
From S2P Require Import Sha256.
From S2P Require Import GoTimeJson.
From S2P Require Import MemoryTypes.
From S2P Require Import MemoryRecords.
From S2P Require Import MemoryDerived.
From S2P Require Import MemoryCanonical.
From S2P Require Import MemoryReconciler.

Local Open Scope string_scope.
Local Open Scope list_scope.
Local Open Scope Z_scope.

(** ** Helpers *)

(** A context: its [Err()], if any; the outer option is the nil interface. *)
Definition Context : Type := option (option error).

Definition checkContext (ctx : Context) : result unit :=
  match ctx with
  | None => Err (invalidDerived "context is required")
  | Some None => Ok tt
  | Some (Some err) =>
      if errors_Is err context_DeadlineExceeded
      then Err (RetryableError CodeTimeout "derived memory operation timed out" None)
      else Err (RetryableError CodeTimeout "derived memory operation was canceled" None)
  end.

Fixpoint text_exceeds (messages : list Message) (remaining : Z) : bool :=
  match messages with
  | [] => false
  | message :: messages =>
      if remaining <? len (ms_Text message) then true
      else text_exceeds messages (remaining - len (ms_Text message))
  end.
Definition turnTextExceeds (turn : Turn) (limit : Z) : bool := text_exceeds (tn_Messages turn) limit.

(** ** Identities *)
Definition derivation_parts (d : DerivationRef) : list string :=
  [dr_Pipeline d; dr_Policy d; dr_Prompt d; dr_Model d].

Definition CanonicalSemanticOperationID (exportID : string) (derivation : DerivationRef) : result string :=
  _ ← reject_if (negb (isCanonicalID exportID))
        (invalidDerived "canonical extraction export id is required");
  _ ← DerivationRef_Validate derivation;
  Ok (reconciliationID "operation" ("canonical-semantics" :: exportID :: derivation_parts derivation)).

Definition mustCanonicalFingerprint (exportID : string) (derivation : DerivationRef) : string :=
  reconciliationID "fingerprint" (exportID :: derivation_parts derivation).

Definition canonicalPayloadID (kind identity : string) : string := reconciliationID "payload" [kind; identity].

(** [ProcessingOperationID]; the variadic derivation is a list. *)
Definition ProcessingOperationID (stage exportID : string) (derivations : list DerivationRef) : result string :=
  _ ← OperationStage_Validate stage;
  _ ← reject_if (negb (isCanonicalID exportID)) (invalidDerived "processing export id is required");
  _ ← reject_if (1 <? Zlength derivations) (invalidDerived "one derivation reference is allowed");
  let derivation := match derivations with [d] => d | _ => LegacyDerivationRef end in
  _ ← DerivationRef_Validate derivation;
  if bool_decide (derivation = LegacyDerivationRef)
  then Ok (derivedStableID "operation" [stage; exportID])
  else Ok (derivedStableID "operation" (stage :: exportID :: derivation_parts derivation)).

(** ** Extraction *)
Record CanonicalExtractionRequest := mkExtractionRequest {
  er_SchemaVersion : string; er_Derivation : DerivationRef; er_Turn : Turn }.

Definition CanonicalExtractionRequest_Validate (r : CanonicalExtractionRequest) : result unit :=
  _ ← reject_if (negb (bool_decide (er_SchemaVersion r = CanonicalSchemaVersionV1)))
        (invalidDerived "canonical extraction schema version is invalid");
  _ ← DerivationRef_Validate (er_Derivation r);
  Turn_Validate (er_Turn r).

Definition CanonicalSemanticExtractor : Type := CanonicalExtractionRequest → result (list SemanticCandidate).

(** ** The store's interface: two reads and one atomic write *)
Class CanonicalStore (St : Type) := {
  LoadScopeState : St → Scope → result ScopeState;
  ScanActiveMemory : St → ActiveHeadScanRequest → result (list ActiveCanonicalMemory);
  ApplyCanonicalMutation : CanonicalMutation → St → St * result CanonicalMutationOutcome }.

(** ** Building one mutation *)
Definition payload (payloadID plaintext : string) : result (CanonicalPayload * PayloadRef) :=
  _ ← reject_if (len plaintext =? 0) (invalidDerived "canonical payload is empty");
  let ref := mkPayloadRef payloadID (sha256_hex plaintext) (u32 (len plaintext)) in
  let p := mkCanonicalPayload ref plaintext in
  _ ← CanonicalPayload_Validate p;
  Ok (p, ref).

(** One claimed reference, re-derived from the captured message. *)
Definition ground_evidence (sourceID : string) (messages : gmap string Message) (claimed : EvidenceRef) :
    result EvidenceRef :=
  let refused := PermanentError CodeScopeViolation "canonical evidence is not grounded in the captured turn" None in
  match messages !! ev_MessageID claimed with
  | None => Err refused
  | Some message =>
      _ ← reject_if (negb (bool_decide (ev_SourceID claimed = sourceID)) ||
                     negb (bool_decide (ev_Role claimed = ms_Role message))) refused;
      ref ← NewEvidenceRef sourceID (ms_MessageID message) (ms_Role message) (ms_Text message)
              (ev_StartByte claimed) (ev_EndByte claimed) (ev_AssertionMode claimed);
      _ ← reject_if (negb (bool_decide (ev_TextDigest claimed = "")) &&
                     negb (bool_decide (ev_TextDigest claimed = ev_TextDigest ref)))
            (invalidDerived "canonical evidence text digest does not match captured message");
      Ok ref
  end.

Fixpoint ground_all (sourceID : string) (messages : gmap string Message) (claims : list EvidenceRef) :
    result (list EvidenceRef) :=
  match claims with
  | [] => Ok []
  | c :: claims => e ← ground_evidence sourceID messages c;
                   es ← ground_all sourceID messages claims;
                   Ok (e :: es)
  end.

Definition canonicalizeCandidate (sourceID : string) (messages : gmap string Message)
    (candidate : SemanticCandidate) : result SemanticCandidate :=
  let memory := sem_Memory candidate in
  _ ← MemoryCandidate_Validate memory;
  _ ← reject_if (Zlength (mc_Evidence memory) =? 0) (invalidDerived "canonical candidate evidence is required");
  evidence ← ground_all sourceID messages (mc_Evidence memory);
  Ok (mkSemanticCandidate (sem_Kind candidate) (sem_Subject candidate) (sem_Predicate candidate)
        (sem_Qualifiers candidate)
        (mkMemoryCandidate (mc_Kind memory) (mc_Statement memory) (mc_Temporal memory) evidence
          (mc_Sensitivity memory) (mc_Retention memory))).

Definition validateActiveCanonicalMemory (scope : Scope) (active : ActiveCanonicalMemory) : result unit :=
  _ ← match MemoryItem_Validate (am_Item active) with
      | Err err => Err (PermanentError CodeStoreFailure "stored active canonical item is invalid" (Some err))
      | Ok _ => Ok tt
      end;
  _ ← reject_if (negb (bool_decide (mi_Scope (am_Item active) = scope)) ||
                 negb (isCanonicalID (am_RevisionID active)) || (am_Revision active =? 0))
        (PermanentError CodeStoreFailure "stored active canonical revision is invalid" None);
  match validateEvidenceRefs (am_Evidence active) with
  | Err err => Err (PermanentError CodeStoreFailure "stored active canonical evidence is invalid" (Some err))
  | Ok _ => Ok tt
  end.

(** The revision to supersede (its identity) and the next revision number. *)
Fixpoint find_active (active : list ActiveCanonicalMemory) (item : MemoryItem) : result (option string * Z) :=
  match active with
  | [] => Err (PermanentError CodeStoreFailure "reconciler selected an unobserved active item" None)
  | existing :: active =>
      if bool_decide (mi_ItemID (am_Item existing) = mi_ItemID item)
      then Ok (Some (am_RevisionID existing), u64 (am_Revision existing + 1))
      else find_active active item
  end.
Definition activeRevision (active : list ActiveCanonicalMemory) (item : option MemoryItem) :
    result (option string * Z) :=
  match item with
  | None => Ok (None, 1)
  | Some item => find_active active item
  end.

Definition normalizedTerminalStatus (turn : Turn) : string :=
  if bool_decide (TrimSpace (tn_TerminalStatus turn) = "") then TurnTerminalStatusSuccess
  else tn_TerminalStatus turn.

(** [json.Marshal] of [canonicalTurnSourcePayload]. *)
Definition canonicalTurnSourcePayload (turn : Turn) : result string :=
  match json_time (tn_CompletedAt turn) with
  | Err err => Err (PermanentError CodeInvalidDerived "encode canonical source payload"
                      (Some (ErrWrap "json: error calling MarshalJSON for type time.Time: " err)))
  | Ok completed =>
      Ok (json_object
        [("export_id", json_string (tn_ExportID turn));
         ("session_id", json_string (ss_SessionID (tn_Session turn)));
         ("agent_session_id", json_string (ss_AgentSessionID (tn_Session turn)));
         ("source_turn_id", json_string (tn_SourceTurnID turn));
         ("completed_at", completed);
         ("terminal_status", json_string (normalizedTerminalStatus turn))])
  end.

Definition add_message (m : CanonicalMutation) (r : MessageRecord) (p : CanonicalPayload) : CanonicalMutation :=
  mkCanonicalMutation (cm_SchemaVersion m) (cm_Scope m) (cm_ExpectedScopeVersion m) (cm_Operation m)
    (cm_Sources m) (cm_Messages m ++ [r]) (cm_Items m) (cm_Revisions m) (cm_Lifecycle m) (cm_Heads m)
    (cm_Delivery m) (cm_Payloads m ++ [p]).

Definition add_revision (m : CanonicalMutation) (rc : Reconciliation) (revision : MemoryRevision)
    (p : CanonicalPayload) : CanonicalMutation :=
  let op := cm_Operation m in
  mkCanonicalMutation (cm_SchemaVersion m) (cm_Scope m) (cm_ExpectedScopeVersion m)
    (mkOperationRecord (or_OperationID op) (or_Fingerprint op) (or_Outcome op ++ [rc_RevisionID rc])
      (or_CommittedAt op))
    (cm_Sources m) (cm_Messages m)
    (if bool_decide (rc_Action rc = ReconciliationActionCreate) then cm_Items m ++ [rc_Item rc] else cm_Items m)
    (cm_Revisions m ++ [revision]) (cm_Lifecycle m ++ [rc_Lifecycle rc])
    (cm_Heads m ++ [mkItemHead (mi_ItemID (rc_Item rc)) (rc_RevisionID rc)])
    (cm_Delivery m) (cm_Payloads m ++ [p]).

(** The message loop: its state is [messageByID] and the mutation. *)
Definition build_message (sourceID : string) (st : gmap string Message * CanonicalMutation) (message : Message) :
    result (gmap string Message * CanonicalMutation) :=
  let '(messageByID, m) := st in
  _ ← reject_if (bool_decide (ms_MessageID message = ""))
        (invalidDerived "canonical turn message identity is required");
  _ ← reject_if (bool_decide (is_Some (messageByID !! ms_MessageID message)))
        (invalidDerived "canonical turn message identity is duplicated");
  '(p, ref) ← payload (canonicalPayloadID "message" (ms_MessageID message)) (ms_Text message);
  Ok (<[ms_MessageID message := message]> messageByID,
      add_message m (mkMessageRecord (ms_MessageID message) sourceID (ms_Role message) ref) p).

Record BuildState := mkBuildState {
  bs_seenItems : list string; bs_seenRevisions : list string; bs_mutation : CanonicalMutation }.

(** One candidate of the candidate loop. *)
Definition build_candidate (policy : PolicyRegistry) (turn : Turn) (active : list ActiveCanonicalMemory)
    (activeView : list ActiveMemoryItem) (messageByID : gmap string Message) (st : BuildState)
    (candidate : SemanticCandidate) : result BuildState :=
  canonical ← canonicalizeCandidate (tn_SourceID turn) messageByID candidate;
  rc ← ReconcileActive policy (tn_Scope turn) canonical activeView;
  _ ← reject_if (bool_decide (mi_ItemID (rc_Item rc) ∈ bs_seenItems st))
        (invalidDerived "canonical semantic candidates resolve to one item more than once");
  _ ← reject_if (bool_decide (rc_RevisionID rc ∈ bs_seenRevisions st))
        (invalidDerived "canonical semantic candidates contain duplicate revisions");
  '(parent, number) ← activeRevision active (rc_Supersedes rc);
  '(p, ref) ← payload (canonicalPayloadID "revision" (rc_RevisionID rc)) (mc_Statement (sem_Memory canonical));
  let memory := sem_Memory canonical in
  let revision := mkMemoryRevision MemorySchemaVersionV2 (rc_RevisionID rc) (mi_ItemID (rc_Item rc)) number
    (match parent with Some r => [r] | None => [] end) (mc_Temporal memory) (rc_Provenance rc)
    (mc_Sensitivity memory) (mc_Retention memory) ref in
  Ok (mkBuildState (mi_ItemID (rc_Item rc) :: bs_seenItems st) (rc_RevisionID rc :: bs_seenRevisions st)
        (add_revision (bs_mutation st) rc revision p)).

Definition buildCanonicalMutation (policy : PolicyRegistry) (turn : Turn) (derivation : DerivationRef)
    (scopeState : ScopeState) (active : list ActiveCanonicalMemory) (activeView : list ActiveMemoryItem)
    (candidates : list SemanticCandidate) : result CanonicalMutation :=
  let sourceID := tn_SourceID turn in
  _ ← reject_if (negb (isCanonicalID sourceID)) (invalidDerived "canonical turn source identity is invalid");
  sourcePayload ← canonicalTurnSourcePayload turn;
  operationID ← CanonicalSemanticOperationID (tn_ExportID turn) derivation;
  '(p, ref) ← payload (canonicalPayloadID "source" sourceID) sourcePayload;
  let m := mkCanonicalMutation CanonicalSchemaVersionV1 (tn_Scope turn) (sst_Version scopeState)
    (mkOperationRecord operationID (mustCanonicalFingerprint (tn_ExportID turn) derivation) []
      (tn_CompletedAt turn))
    [mkSourceRecordV2 sourceID (tn_Scope turn) SensitivityStandard RetentionClassStandard ref]
    [] [] [] [] [] [] [p] in
  '(messageByID, m) ← for_fold (build_message sourceID) (∅, m) (tn_Messages turn);
  st ← for_fold (build_candidate policy turn active activeView messageByID) (mkBuildState [] [] m) candidates;
  _ ← CanonicalMutation_Validate (bs_mutation st);
  Ok (bs_mutation st).

(** The bounded view the reconciler sees. *)
Definition active_view (active : list ActiveCanonicalMemory) : list ActiveMemoryItem :=
  map (λ a, mkActiveMemoryItem (am_Item a) (am_Evidence a)) active.

(** ** The processor *)
Section processor.
  Context {St : Type}.

Record CanonicalTurnProcessor := mkProcessor {
  tp_store : option (CanonicalStore St); tp_extractor : option CanonicalSemanticExtractor;
  tp_policy : PolicyRegistry }.

Definition NewCanonicalTurnProcessor (store : option (CanonicalStore St))
    (extractor : option CanonicalSemanticExtractor) (policy : PolicyRegistry) : result CanonicalTurnProcessor :=
  match store, extractor with
  | Some _, Some _ =>
      _ ← reject_if (negb (isCanonicalID (pol_Version policy)))
            (invalidDerived "canonical reconciliation policy version is required");
      Ok (mkProcessor store extractor policy)
  | _, _ => Err (PermanentError CodeStoreFailure "canonical processor dependencies are required" None)
  end.

Definition with_message_id (exportID : string) (message : Message) : Message :=
  if negb (bool_decide (ms_MessageID message = "")) then message else
  let id := if bool_decide (ms_Role message = MessageRoleTool)
            then TurnToolMessageID exportID (ms_ToolName message) (ms_ToolCallID message)
            else TurnMessageID exportID (ms_Role message) in
  mkMessage id (ms_Role message) (ms_Text message) (ms_ToolName message) (ms_ToolCallID message).

(** The turn with its source and message identities filled in. *)
Definition identified (turn : Turn) : Turn :=
  mkTurnExport (tn_SchemaVersion turn) (tn_ExportID turn) (tn_Scope turn) (tn_Session turn)
    (tn_SourceTurnID turn) (TurnSourceID (tn_ExportID turn)) (tn_CompletedAt turn) (tn_TerminalStatus turn)
    (map (with_message_id (tn_ExportID turn)) (tn_Messages turn)).

(** Everything [ProcessTurn] does before its write: the mutation it would apply.
    [loaded] and [scanned] are the states of the store its two reads see. *)
Definition prepare (store : CanonicalStore St) (extract : CanonicalSemanticExtractor) (policy : PolicyRegistry)
    (ctx : Context) (turn : Turn) (derivation : DerivationRef) (loaded scanned : St) : result CanonicalMutation :=
  _ ← reject_if (bool_decide (ctx = None)) (invalidDerived "canonical turn processing context is required");
  _ ← Turn_Validate turn;
  _ ← reject_if (negb (bool_decide (tn_SourceID turn = "")) &&
                 negb (bool_decide (tn_SourceID turn = TurnSourceID (tn_ExportID turn))))
        (PermanentError CodePermanent "canonical turn source identity does not match export" None);
  let turn := identified turn in
  _ ← DerivationRef_Validate derivation;
  _ ← reject_if (turnTextExceeds turn MaxDerivedTurnTextBytes)
        (limitExceeded "canonical turn text exceeds the derived processing limit");
  _ ← checkContext ctx;
  scopeState ← LoadScopeState loaded (tn_Scope turn);
  _ ← reject_if (negb (bool_decide (sst_Scope scopeState = tn_Scope turn)))
        (PermanentError CodeScopeViolation "canonical scope state does not match turn" None);
  active ← ScanActiveMemory scanned (mkActiveHeadScan (tn_Scope turn) "" maxCanonicalReadRecords);
  _ ← for_each (validateActiveCanonicalMemory (tn_Scope turn)) active;
  candidates ← extract (mkExtractionRequest CanonicalSchemaVersionV1 derivation turn);
  _ ← reject_if (MaxCandidateCount <? Zlength candidates)
        (limitExceeded "canonical semantic candidate count exceeds the limit");
  buildCanonicalMutation policy turn derivation scopeState active (active_view active) candidates.

(** [ProcessTurn]: [current] is the store its write finds. Other writers may have run
    between the two reads and the write, so the three states are unrelated. *)
Definition ProcessTurn (p : option CanonicalTurnProcessor) (ctx : Context) (turn : Turn)
    (derivation : DerivationRef) (loaded scanned current : St) : St * result CanonicalMutationOutcome :=
  match p with
  | Some (mkProcessor (Some store) (Some extract) policy) =>
      match prepare store extract policy ctx turn derivation loaded scanned with
      | Err err => (current, Err err)
      | Ok mutation =>
          let '(current, applied) := ApplyCanonicalMutation mutation current in
          (current, outcome ← applied; _ ← CanonicalMutationOutcome_Validate outcome; Ok outcome)
      end
  | _ => (current, Err (PermanentError CodeDisabled "canonical turn processor is unavailable" None))
  end.
End processor.
Arguments CanonicalTurnProcessor : clear implicits.

(** ** What a successful build contains *)
Lemma payload_Ok id text p ref :
  payload id text = Ok (p, ref) →
  p = mkCanonicalPayload ref text ∧ ref = mkPayloadRef id (sha256_hex text) (u32 (len text)).
Proof.
  unfold payload. rewrite reject_bind, bind_unit. intros (_ & _ & [= <- <-]). done.
Qed.

(** An evidence reference that quotes a captured message of the source. *)
Definition grounded (sourceID : string) (messages : gmap string Message) (e : EvidenceRef) : Prop :=
  ∃ msg, messages !! ev_MessageID e = Some msg ∧ ms_MessageID msg = ev_MessageID e ∧
    NewEvidenceRef sourceID (ms_MessageID msg) (ms_Role msg) (ms_Text msg)
      (ev_StartByte e) (ev_EndByte e) (ev_AssertionMode e) = Ok e.

Definition keyed (messages : gmap string Message) : Prop :=
  ∀ id msg, messages !! id = Some msg → ms_MessageID msg = id.

Lemma ground_evidence_Ok sourceID messages claimed e :
  keyed messages → ground_evidence sourceID messages claimed = Ok e → grounded sourceID messages e.
Proof.
  unfold ground_evidence. intros Hk H.
  destruct (messages !! ev_MessageID claimed) as [msg|] eqn:Hm; [|done].
  apply reject_bind in H as (_ & H). apply bind_Ok in H as (ref & Href & H).
  apply reject_bind in H as (_ & [= <-]). pose proof (Hk _ _ Hm) as Hid.
  pose proof Href as Heq. apply NewEvidenceRef_Ok in Heq as (_ & _ & _ & _ & _ & _ & _ & Heq & _).
  exists msg. rewrite Heq at 1 2. cbn [ev_MessageID]. rewrite Hid. split; [done|]. split; [done|].
  rewrite <-Hid. rewrite Heq at 1 2 3. cbn [ev_StartByte ev_EndByte ev_AssertionMode]. exact Href.
Qed.

Lemma ground_all_Ok sourceID messages claims es :
  keyed messages → ground_all sourceID messages claims = Ok es → Forall (grounded sourceID messages) es.
Proof.
  intros Hk. revert es. induction claims as [|c claims IH]; intros es; cbn [ground_all]; [by intros [= <-]|].
  intros (e & He & (es' & Hes & [= <-])%bind_Ok)%bind_Ok. constructor; [|by apply IH].
  by apply ground_evidence_Ok in He.
Qed.

Lemma canonicalizeCandidate_Ok sourceID messages c c' :
  keyed messages → canonicalizeCandidate sourceID messages c = Ok c' →
  Forall (grounded sourceID messages) (mc_Evidence (sem_Memory c')) ∧ sem_Kind c' = sem_Kind c ∧
  mc_Statement (sem_Memory c') = mc_Statement (sem_Memory c).
Proof.
  unfold canonicalizeCandidate. intros Hk (_ & (_ & (es & Hes & [= <-])%bind_Ok)%reject_bind)%bind_unit.
  split; [by eapply ground_all_Ok | done].
Qed.


(** After the message loop: every message of the map is a captured one, under its own
    identity, and the mutation differs from the initial one in messages and payloads. *)
Definition captured (turn : Turn) (messages : gmap string Message) : Prop :=
  keyed messages ∧ ∀ id msg, messages !! id = Some msg → msg ∈ tn_Messages turn.

Definition same_but_messages (m m' : CanonicalMutation) : Prop :=
  cm_Scope m' = cm_Scope m ∧ cm_ExpectedScopeVersion m' = cm_ExpectedScopeVersion m ∧
  cm_Operation m' = cm_Operation m ∧ cm_Sources m' = cm_Sources m ∧ cm_Items m' = cm_Items m ∧
  cm_Revisions m' = cm_Revisions m ∧ cm_Lifecycle m' = cm_Lifecycle m ∧ cm_Heads m' = cm_Heads m.

Lemma build_messages_Ok turn sourceID m0 messages m :
  for_fold (build_message sourceID) (∅, m0) (tn_Messages turn) = Ok (messages, m) →
  captured turn messages ∧ same_but_messages m0 m.
Proof.
  intros H. change (captured turn (messages, m).1 ∧ same_but_messages m0 (messages, m).2).
  refine (for_fold_inv _ (λ st, captured turn st.1 ∧ same_but_messages m0 st.2) _ _ _ H _ _).
  { split; [|by repeat (split; [reflexivity|])]. split; intros id msg Hl; cbn [fst] in Hl; rewrite lookup_empty in Hl; discriminate. }
  intros [ms m1] msg [ms' m1'] Hin [[Hk Hc] Hm] Hb. unfold build_message in Hb.
  apply reject_bind in Hb as (_ & Hb). apply reject_bind in Hb as (_ & Hb).
  apply bind_Ok in Hb as ([p ref] & _ & [= <- <-]). cbn [fst snd] in *. split; [split|].
  - intros id x. rewrite lookup_insert_Some. intros [[<- <-]|[_ Hx]]; [done | by apply Hk].
  - intros id x. rewrite lookup_insert_Some. intros [[_ <-]|[_ Hx]]; [done | by eapply Hc].
  - exact Hm.
Qed.

(** What the candidate loop adds for one revision. *)
Definition extends_item (active : list ActiveCanonicalMemory) (items : list MemoryItem) (r : MemoryRevision) : Prop :=
  (rv_Parents r = [] ∧ rv_Revision r = 1 ∧ ∃ i, i ∈ items ∧ mi_ItemID i = rv_ItemID r) ∨
  (∃ a, a ∈ active ∧ rv_Parents r = [am_RevisionID a] ∧ rv_Revision r = u64 (am_Revision a + 1) ∧
        mi_ItemID (am_Item a) = rv_ItemID r).

(** The identity convention of the active memory: a state item is named by its key. *)
Definition state_ids_derived (scope : Scope) (active : list ActiveCanonicalMemory) : Prop :=
  Forall (λ a, mi_MemoryKey (am_Item a) ≠ "" →
    mi_ItemID (am_Item a) = state_item_id (sc_Key scope) (mi_MemoryKey (am_Item a))) active.

Record built (turn : Turn) (active : list ActiveCanonicalMemory) (messages : gmap string Message)
    (m0 : CanonicalMutation) (st : BuildState) : Prop := mkBuilt {
  b_scope : cm_Scope (bs_mutation st) = cm_Scope m0;
  b_version : cm_ExpectedScopeVersion (bs_mutation st) = cm_ExpectedScopeVersion m0;
  b_sources : cm_Sources (bs_mutation st) = cm_Sources m0;
  b_operation : or_OperationID (cm_Operation (bs_mutation st)) = or_OperationID (cm_Operation m0) ∧
                or_Fingerprint (cm_Operation (bs_mutation st)) = or_Fingerprint (cm_Operation m0);
  b_evidence : Forall (λ r, Forall (grounded (tn_SourceID turn) messages) (rv_Evidence r))
                 (cm_Revisions (bs_mutation st));
  b_extends : state_ids_derived (tn_Scope turn) active → Forall (extends_item active (cm_Items (bs_mutation st))) (cm_Revisions (bs_mutation st));
  b_items : Forall (λ i, mi_Scope i = tn_Scope turn ∧
      (mi_Kind i = MemoryKindState → mi_ItemID i = state_item_id (sc_Key (tn_Scope turn)) (mi_MemoryKey i)))
      (cm_Items (bs_mutation st));
  b_outcome : or_Outcome (cm_Operation (bs_mutation st)) = map rv_RevisionID (cm_Revisions (bs_mutation st));
  b_heads : map (λ h, (ih_ItemID h, ih_RevisionID h)) (cm_Heads (bs_mutation st)) =
            map (λ r, (rv_ItemID r, rv_RevisionID r)) (cm_Revisions (bs_mutation st));
  b_lifecycle : map le_RevisionID (cm_Lifecycle (bs_mutation st)) = map rv_RevisionID (cm_Revisions (bs_mutation st)) }.

Lemma find_active_Ok active item parent n :
  find_active active item = Ok (parent, n) →
  ∃ a, a ∈ active ∧ mi_ItemID (am_Item a) = mi_ItemID item ∧ parent = Some (am_RevisionID a) ∧
       n = u64 (am_Revision a + 1).
Proof.
  induction active as [|a active IH]; cbn [find_active]; [done|]. case_bool_decide as Heq.
  - intros [= <- <-]. exists a. split; [apply list_elem_of_here | done].
  - intros (b & Hb & H)%IH. exists b. split; [by apply list_elem_of_further | done].
Qed.

(** The item a revision belongs to is the one its parent belongs to. *)
Lemma superseded_item policy turn c active rc e :
  state_ids_derived (tn_Scope turn) active →
  ReconcileActive policy (tn_Scope turn) c
    (map (λ a, mkActiveMemoryItem (am_Item a) (am_Evidence a)) active) = Ok rc →
  rc_Supersedes rc = Some e →
  mi_ItemID (rc_Item rc) = mi_ItemID e.
Proof.
  intros Hids (_ & _ & _ & _ & Hst & Hsup)%reconciled_item He. rewrite He in Hsup.
  destruct Hsup as (_ & Hin & [Hi|[Hk Hkey]]); [exact Hi|].
  destruct (Hst Hk) as [Hid Hne]. rewrite Hid, <-Hkey.
  rewrite map_map in Hin. apply list_elem_of_fmap in Hin as (a & -> & Ha). symmetry.
  unfold state_ids_derived in Hids. rewrite Forall_forall in Hids. cbn [ai_Item] in Hkey |- *.
  apply (Hids a Ha). rewrite Hkey. exact Hne.
Qed.

Lemma extends_more active items items' r :
  (∀ i, i ∈ items → i ∈ items') → extends_item active items r → extends_item active items' r.
Proof.
  intros Hi [(? & ? & i & Hin & ?)|(a & ?)]; [left | right; by exists a].
  do 2 (split; [done|]). exists i. split; [by apply Hi | done].
Qed.

(** The revision added for one candidate continues its item's chain. *)
Lemma candidate_extends policy turn active c rc parent number revision items :
  state_ids_derived (tn_Scope turn) active →
  ReconcileActive policy (tn_Scope turn) c (active_view active) = Ok rc →
  activeRevision active (rc_Supersedes rc) = Ok (parent, number) →
  rv_ItemID revision = mi_ItemID (rc_Item rc) → rv_Revision revision = number →
  rv_Parents revision = match parent with Some r => [r] | None => [] end →
  (rc_Action rc = ReconciliationActionCreate → rc_Item rc ∈ items) →
  extends_item active items revision.
Proof.
  intros Hids Hrc Hact Hi Hn Hp Hin. pose proof Hrc as (_ & _ & _ & _ & _ & Hs)%reconciled_item.
  destruct (rc_Supersedes rc) as [e|] eqn:He; cbn [activeRevision] in Hact.
  - apply find_active_Ok in Hact as (a & Ha & Heq & -> & ->). right. exists a.
    rewrite Heq, Hi. split; [exact Ha|]. split; [exact Hp|]. split; [exact Hn|].
    symmetry. by apply (superseded_item policy turn c active).
  - injection Hact as <- <-. left. split; [exact Hp|]. split; [exact Hn|].
    exists (rc_Item rc). split; [by apply Hin | by symmetry].
Qed.

Lemma Forall_snoc_intro {A} (P : A → Prop) l x : Forall P l → P x → Forall P (l ++ [x]).
Proof. intros ? ?. apply Forall_app. split; [done|]. by constructor. Qed.

Lemma build_candidate_built policy turn active messages m0 st c st' :
  captured turn messages → built turn active messages m0 st →
  build_candidate policy turn active (active_view active) messages st c = Ok st' →
  built turn active messages m0 st'.
Proof.
  intros [Hk _] [] H. unfold build_candidate in H.
  apply bind_Ok in H as (c' & Hc & H). apply bind_Ok in H as (rc & Hrc & H).
  apply reject_bind in H as (_ & H). apply reject_bind in H as (_ & H).
  apply bind_Ok in H as ([parent number] & Hact & H). apply bind_Ok in H as ([p ref] & Hp & H).
  cbv zeta in H. injection H as <-. apply (canonicalizeCandidate_Ok _ _ _ _ Hk) in Hc as (Hev & _ & _).
  pose proof (reconciled_item _ _ _ _ _ Hrc) as (Hscope & Hkind & Hprov & Hlife & Hst & _).
  set (items' := if bool_decide (rc_Action rc = ReconciliationActionCreate)
                 then cm_Items (bs_mutation st) ++ [rc_Item rc] else cm_Items (bs_mutation st)).
  assert (Hmore : ∀ i, i ∈ cm_Items (bs_mutation st) → i ∈ items').
  { intros i Hi. unfold items'. case_bool_decide; [|exact Hi]. apply elem_of_app. by left. }
  assert (Hnew : rc_Action rc = ReconciliationActionCreate → rc_Item rc ∈ items').
  { intros Ha. unfold items'. rewrite bool_decide_true by exact Ha. apply elem_of_app. right. apply list_elem_of_here. }
  constructor; cbn [bs_mutation add_revision cm_Scope cm_ExpectedScopeVersion cm_Sources cm_Operation cm_Items
    cm_Revisions cm_Lifecycle cm_Heads or_OperationID or_Fingerprint or_Outcome];
    [exact b_scope0|exact b_version0|exact b_sources0|exact b_operation0| | | | | |].
  - apply Forall_snoc_intro; [exact b_evidence0|]. cbn [rv_Evidence]. rewrite Hprov. exact Hev.
  - intros Hids. apply Forall_snoc_intro.
    + eapply Forall_impl; [exact (b_extends0 Hids)|]. intros r. apply extends_more. exact Hmore.
    + eapply candidate_extends; [exact Hids|exact Hrc|exact Hact|reflexivity|reflexivity|reflexivity|exact Hnew].
  - case_bool_decide; [|exact b_items0]. apply Forall_snoc_intro; [exact b_items0|].
    split; [exact Hscope|]. rewrite Hkind. intros Hs. exact (proj1 (Hst Hs)).
  - rewrite b_outcome0, map_app. reflexivity.
  - rewrite !map_app, b_heads0. reflexivity.
  - rewrite !map_app, b_lifecycle0. cbn [map rv_RevisionID]. rewrite Hlife. reflexivity.
Qed.

(** The whole build. *)
Lemma buildCanonicalMutation_Ok policy turn d ss active candidates m :
  buildCanonicalMutation policy turn d ss active (active_view active) candidates = Ok m →
  ∃ messages m0 st, captured turn messages ∧ built turn active messages m0 st ∧ m = bs_mutation st ∧
    CanonicalMutation_Validate m = Ok tt ∧
    cm_Scope m0 = tn_Scope turn ∧ cm_ExpectedScopeVersion m0 = sst_Version ss ∧
    CanonicalSemanticOperationID (tn_ExportID turn) d = Ok (or_OperationID (cm_Operation m0)) ∧
    or_Fingerprint (cm_Operation m0) = mustCanonicalFingerprint (tn_ExportID turn) d ∧
    map sr_SourceID (cm_Sources m0) = [tn_SourceID turn].
Proof.
  intros H. unfold buildCanonicalMutation in H. cbv zeta in H.
  apply reject_bind in H as (_ & H). apply bind_Ok in H as (sp & _ & H). apply bind_Ok in H as (op & Hop & H).
  apply bind_Ok in H as ([p ref] & _ & H). apply bind_Ok in H as ([messages m1] & Hm & H).
  apply bind_Ok in H as (st & Hst & H). apply bind_unit in H as (Hv & [= <-]).
  apply build_messages_Ok in Hm as (Hcap & Hs1 & Hs2 & Hs3 & Hs4 & Hs5 & Hs6 & Hs7 & Hs8).
  exists messages, m1, st. split; [exact Hcap|]. split.
  - refine (for_fold_inv _ (built turn active messages m1) _ _ _ Hst _ _).
    + constructor; cbn [bs_mutation]; rewrite ?Hs5, ?Hs6, ?Hs7, ?Hs8, ?Hs3; try reflexivity; try (intros _);
        try constructor; reflexivity.
    + intros s c s' _ Hb. eapply build_candidate_built; [exact Hcap|exact Hb].
  - rewrite Hs1, Hs2, Hs3, Hs4. cbn [cm_Scope cm_ExpectedScopeVersion cm_Operation or_OperationID or_Fingerprint
      cm_Sources map sr_SourceID]. do 6 (split; [first [reflexivity | exact Hv | exact Hop]|]). reflexivity.
Qed.

Lemma prepare_Ok {St} (store : CanonicalStore St) extract policy ctx turn d loaded scanned m :
  prepare store extract policy ctx turn d loaded scanned = Ok m →
  ∃ ss active candidates,
    Turn_Validate turn = Ok tt ∧
    LoadScopeState loaded (tn_Scope turn) = Ok ss ∧ sst_Scope ss = tn_Scope turn ∧
    ScanActiveMemory scanned (mkActiveHeadScan (tn_Scope turn) "" maxCanonicalReadRecords) = Ok active ∧
    Forall (λ a, validateActiveCanonicalMemory (tn_Scope turn) a = Ok tt) active ∧
    extract (mkExtractionRequest CanonicalSchemaVersionV1 d (identified turn)) = Ok candidates ∧
    Zlength candidates ≤ MaxCandidateCount ∧
    buildCanonicalMutation policy (identified turn) d ss active (active_view active) candidates = Ok m.
Proof.
  unfold prepare. intros H. apply reject_bind in H as (_ & H). apply bind_unit in H as (Ht & H).
  apply reject_bind in H as (_ & H). cbv zeta in H. apply bind_unit in H as (_ & H).
  apply reject_bind in H as (_ & H). apply bind_unit in H as (_ & H).
  apply bind_Ok in H as (ss & Hss & H). apply reject_bind in H as (Hsc & H).
  apply bind_Ok in H as (active & Ha & H). apply bind_unit in H as (Hact & H).
  apply bind_Ok in H as (candidates & Hc & H). apply reject_bind in H as (Hn & H).
  apply negb_false_iff, bool_decide_eq_true in Hsc. apply for_each_Ok in Hact. apply Z.ltb_ge in Hn.
  exists ss, active, candidates. split; [exact Ht|]. split; [exact Hss|]. split; [exact Hsc|].
  split; [exact Ha|]. split; [exact Hact|]. split; [exact Hc|]. split; [exact Hn|]. exact H.
Qed.

(** What an accepted reference says about the message it quotes. *)
Lemma grounded_facts sourceID messages e :
  grounded sourceID messages e →
  ∃ msg, messages !! ev_MessageID e = Some msg ∧ ms_MessageID msg = ev_MessageID e ∧
    ev_SourceID e = sourceID ∧ ev_Role e = ms_Role msg ∧ ev_TextDigest e = sha256_hex (ms_Text msg) ∧
    ValidString (ms_Text msg) = true ∧ ev_StartByte e < ev_EndByte e ≤ u32 (len (ms_Text msg)) ∧
    (ms_Role msg = MessageRoleUser ∨ ms_Role msg = MessageRoleTool).
Proof.
  intros (msg & Hm & Hid & He). exists msg. split; [exact Hm|]. split; [exact Hid|].
  apply NewEvidenceRef_Ok in He as (_ & _ & Hv & Hab & Hb & _ & _ & Heq & Hval).
  apply (f_equal ev_SourceID) in Heq as Hs. apply (f_equal ev_Role) in Heq as Hr.
  apply (f_equal ev_TextDigest) in Heq as Hd. cbn [ev_SourceID ev_Role ev_TextDigest] in Hs, Hr, Hd.
  split; [exact Hs|]. split; [exact Hr|]. split; [exact Hd|]. split; [exact Hv|]. split; [lia|].
  unfold EvidenceRef_Validate in Hval. rewrite !reject_bind, !andb_false_iff, !negb_false_iff in Hval.
  destruct Hval as (_ & Hu & Ht & Hmode & _). rewrite Hr, !bool_decide_eq_true, !bool_decide_eq_false in *.
  destruct Hmode as [Hmode|Hmode]; [left; by destruct Hu | right; by destruct Ht].
Qed.

Lemma process_turn_cases {St} (p : option (CanonicalTurnProcessor St)) ctx turn d loaded scanned current :
  let '(after, r) := ProcessTurn p ctx turn d loaded scanned current in
  (after = current ∧ is_ok r = false) ∨
  ∃ store extract policy m ss,
    p = Some (mkProcessor (Some store) (Some extract) policy) ∧
    prepare store extract policy ctx turn d loaded scanned = Ok m ∧
    CanonicalMutation_Validate m = Ok tt ∧ cm_Scope m = tn_Scope turn ∧
    LoadScopeState loaded (tn_Scope turn) = Ok ss ∧ cm_ExpectedScopeVersion m = sst_Version ss ∧
    after = (ApplyCanonicalMutation m current).1 ∧
    ∀ o, r = Ok o → (ApplyCanonicalMutation m current).2 = Ok o ∧ CanonicalMutationOutcome_Validate o = Ok tt.
Proof.
  destruct p as [[[store|] [extract|] policy]|]; cbn [ProcessTurn]; try (left; split; reflexivity).
  destruct (prepare _ _ _ _ _ _ _ _) as [m|e] eqn:Hp; [|left; split; reflexivity].
  destruct (ApplyCanonicalMutation m current) as [after applied] eqn:Ha. right.
  pose proof Hp as (ss & active & candidates & _ & Hss & _ & _ & _ & _ & _ & Hb)%prepare_Ok.
  apply buildCanonicalMutation_Ok in Hb as (ms & m0 & st & _ & [Bs Bv _ _ _ _ _ _ _ _] & -> & Hv & Hsc & Hver & _).
  exists store, extract, policy, (bs_mutation st), ss. split; [reflexivity|]. split; [exact Hp|].
  split; [exact Hv|]. split; [rewrite Bs; exact Hsc|]. split; [exact Hss|]. split; [rewrite Bv; exact Hver|].
  rewrite Ha. split; [reflexivity|]. intros o Ho. apply bind_Ok in Ho as (o' & -> & Ho).
  apply bind_unit in Ho as (Hv' & [= ->]). split; [reflexivity | exact Hv'].
Qed.

(** ** Properties *)

(** One write, of a validated mutation: processing a turn either fails leaving the
    store as it is, or hands the store exactly one mutation - well formed, in the
    turn's own scope, expecting the version the turn was prepared against - and
    reports success only when the store did, with a usable outcome. *)
Theorem process_turn_writes_once {St} (p : option (CanonicalTurnProcessor St)) ctx turn d loaded scanned current :
  let '(after, r) := ProcessTurn p ctx turn d loaded scanned current in
  (after = current ∧ is_ok r = false) ∨
  ∃ store extract policy m ss,
    p = Some (mkProcessor (Some store) (Some extract) policy) ∧
    prepare store extract policy ctx turn d loaded scanned = Ok m ∧
    CanonicalMutation_Validate m = Ok tt ∧ cm_Scope m = tn_Scope turn ∧
    LoadScopeState loaded (tn_Scope turn) = Ok ss ∧ cm_ExpectedScopeVersion m = sst_Version ss ∧
    after = (ApplyCanonicalMutation m current).1 ∧
    ∀ o, r = Ok o → (ApplyCanonicalMutation m current).2 = Ok o ∧ CanonicalMutationOutcome_Validate o = Ok tt.
Proof. apply process_turn_cases. Qed.

(** C18. The model cannot invent evidence: every evidence reference of every prepared
    revision quotes a message of this very turn, by its identity, role and text
    digest, over a range inside valid UTF-8 text, and that message was spoken by
    the user or a tool, never by the assistant. *)
Theorem memory_is_grounded {St} (store : CanonicalStore St) extract policy ctx turn d loaded scanned m :
  prepare store extract policy ctx turn d loaded scanned = Ok m →
  map sr_SourceID (cm_Sources m) = [TurnSourceID (tn_ExportID turn)] ∧
  Forall (λ r, Forall (λ e, ∃ msg, msg ∈ tn_Messages (identified turn) ∧
      ev_MessageID e = ms_MessageID msg ∧ ev_SourceID e = TurnSourceID (tn_ExportID turn) ∧
      ev_Role e = ms_Role msg ∧ ev_TextDigest e = sha256_hex (ms_Text msg) ∧
      ValidString (ms_Text msg) = true ∧ ev_StartByte e < ev_EndByte e ≤ u32 (len (ms_Text msg)) ∧
      (ms_Role msg = MessageRoleUser ∨ ms_Role msg = MessageRoleTool)) (rv_Evidence r)) (cm_Revisions m).
Proof.
  intros (ss & active & candidates & _ & _ & _ & _ & _ & _ & _ & Hb)%prepare_Ok.
  apply buildCanonicalMutation_Ok in Hb as (ms & m0 & st & Hcap & [_ _ Hsrc _ Hev _ _ _ _ _] & -> & _ & _ & _ & _ & _ & Hs).
  split; [rewrite Hsrc; exact Hs|].
  eapply Forall_impl; [exact Hev|]. intros r Hr. eapply Forall_impl; [exact Hr|].
  intros e (msg & Hm & Hid & H1 & H2 & H3 & H4 & H5 & H6)%grounded_facts. exists msg.
  destruct Hcap as [_ Hcap]. split; [exact (Hcap _ _ Hm)|]. split; [symmetry; exact Hid|].
  split; [exact H1|]. split; [exact H2|]. split; [exact H3|]. split; [exact H4|]. split; [exact H5|exact H6].
Qed.

(** Revision chains stay inside their item: when state items of the active memory
    are named by their memory key, every prepared revision is either number one of
    an item the same mutation creates, or names as its only parent the active
    revision of its own item and carries the next number; the created state items
    keep the naming; heads, lifecycle events and the operation outcome list
    exactly the prepared revisions, in order. *)
Theorem revisions_extend_their_items {St} (store : CanonicalStore St) extract policy ctx turn d loaded scanned active m :
  prepare store extract policy ctx turn d loaded scanned = Ok m →
  ScanActiveMemory scanned (mkActiveHeadScan (tn_Scope turn) "" maxCanonicalReadRecords) = Ok active →
  state_ids_derived (tn_Scope turn) active →
  Forall (extends_item active (cm_Items m)) (cm_Revisions m) ∧
  Forall (λ i, mi_Kind i = MemoryKindState →
    mi_ItemID i = state_item_id (sc_Key (tn_Scope turn)) (mi_MemoryKey i)) (cm_Items m) ∧
  map (λ h, (ih_ItemID h, ih_RevisionID h)) (cm_Heads m) =
    map (λ r, (rv_ItemID r, rv_RevisionID r)) (cm_Revisions m) ∧
  map le_RevisionID (cm_Lifecycle m) = map rv_RevisionID (cm_Revisions m) ∧
  or_Outcome (cm_Operation m) = map rv_RevisionID (cm_Revisions m).
Proof.
  intros (ss & active' & candidates & _ & _ & _ & Ha & _ & _ & _ & Hb)%prepare_Ok Hscan Hids.
  rewrite Hscan in Ha. injection Ha as <-.
  apply buildCanonicalMutation_Ok in Hb as (ms & m0 & st & _ & [_ _ _ _ _ Hext Hit Hout Hh Hl] & -> & _).
  split; [exact (Hext Hids)|]. split; [|split; [exact Hh|split; [exact Hl|exact Hout]]].
  eapply Forall_impl; [exact Hit|]. intros i [_ Hi]. exact Hi.
Qed.

Lemma operation_id_value x d op :
  CanonicalSemanticOperationID x d = Ok op →
  op = reconciliationID "operation" ("canonical-semantics" :: x :: derivation_parts d).
Proof.
  unfold CanonicalSemanticOperationID. intros H. apply reject_bind in H as (_ & H).
  apply bind_unit in H as (_ & H). apply Ok_inj in H. symmetry. exact H.
Qed.

(** Idempotency keys tell runs apart: two extractions get one operation identity
    only for the same turn export and the same derivation, or else their hashed
    messages are a SHA-256 collision. *)
Theorem operation_id_injective x1 d1 x2 d2 op :
  CanonicalSemanticOperationID x1 d1 = Ok op → CanonicalSemanticOperationID x2 d2 = Ok op →
  Forall (fits 8) (x1 :: derivation_parts d1) → Forall (fits 8) (x2 :: derivation_parts d2) →
  (x1 = x2 ∧ d1 = d2) ∨
  sha256_collision
    (reconciliation_preimage "operation" ("canonical-semantics" :: x1 :: derivation_parts d1))
    (reconciliation_preimage "operation" ("canonical-semantics" :: x2 :: derivation_parts d2)).
Proof.
  intros H1%operation_id_value H2%operation_id_value F1 F2. rewrite H1 in H2. rename H2 into H.
  assert (Hk : fits 8 "operation") by done. assert (Hc : fits 8 "canonical-semantics") by done.
  apply reconciliationID_inj in H as [_ [H|H]].
  - left. destruct d1, d2. unfold derivation_parts in H. cbn in H.
    injection H as -> -> -> -> ->. split; reflexivity.
  - right. exact H.
  - constructor; [exact Hk|]. constructor; [exact Hc|exact F1].
  - constructor; [exact Hk|]. constructor; [exact Hc|exact F2].
Qed.

(** ** Witnesses *)
#[local] Definition demo_store : CanonicalStore Z := {|
  LoadScopeState v scope := Ok (mkScopeState CanonicalSchemaVersionV1 scope v v);
  ScanActiveMemory _ _ := Ok [];
  ApplyCanonicalMutation m v :=
    if cm_ExpectedScopeVersion m =? v
    then (v + 1, Ok (mkOutcome (v + 1) (v + 1) (or_Outcome (cm_Operation m))))
    else (v, Err (PermanentError CodeConflict "stale scope version" None)) |}.

Definition demo_turn : Turn :=
  ok_or (mkTurnExport "" "" demo_scope demo_session "" "" 0 "" [])
    (NewTurn demo_scope demo_session "7" 1000000000 "I live in Oslo" "Noted").
Definition demo_derivation : DerivationRef := mkDerivationRef "pipe" "policy" "prompt" "model".

(** An extractor that quotes the user's whole message. *)
Definition demo_extract : CanonicalSemanticExtractor := λ r,
  match tn_Messages (er_Turn r) with
  | user :: _ =>
      Ok [mkSemanticCandidate MemoryKindState "user" "lives in" []
        (mkMemoryCandidate MemoryKindState "lives in Oslo" demo_temporal
          [mkEvidenceRef (tn_SourceID (er_Turn r)) (ms_MessageID user) MessageRoleUser 0 14 AssertionModeUser ""]
          SensitivityStandard RetentionClassStandard)]
  | [] => Ok []
  end.
Definition demo_prepared : CanonicalMutation :=
  ok_or (mkCanonicalMutation "" demo_scope 0 (mkOperationRecord "" "" [] 0) [] [] [] [] [] [] [] [])
    (prepare demo_store demo_extract demo_policy (Some None) demo_turn demo_derivation 1 1).

Example demo_prepared_size : mutation_record_count demo_prepared = 11.
Proof. vm_compute. reflexivity. Qed.

Lemma memory_is_grounded_witness :
  map sr_SourceID (cm_Sources demo_prepared) = [TurnSourceID (tn_ExportID demo_turn)].
Proof.
  refine (proj1 (memory_is_grounded demo_store demo_extract demo_policy (Some None) demo_turn demo_derivation
    1 1 demo_prepared _)). apply is_ok_run. vm_compute. reflexivity.
Defined.

Lemma revisions_extend_their_items_witness :
  Forall (extends_item [] (cm_Items demo_prepared)) (cm_Revisions demo_prepared) ∧
  length (cm_Revisions demo_prepared) = 1%nat.
Proof.
  split; [|vm_compute; reflexivity].
  refine (proj1 (revisions_extend_their_items demo_store demo_extract demo_policy (Some None) demo_turn
    demo_derivation 1 1 [] demo_prepared _ _ _)).
  - apply is_ok_run. vm_compute. reflexivity.
  - reflexivity.
  - constructor.
Defined.

Definition demo_operation_id : string :=
  reconciliationID "operation" ("canonical-semantics" :: "export" :: derivation_parts demo_derivation).
Lemma operation_id_injective_witness :
  ("export" = "export" ∧ demo_derivation = demo_derivation) ∨
  sha256_collision
    (reconciliation_preimage "operation" ("canonical-semantics" :: "export" :: derivation_parts demo_derivation))
    (reconciliation_preimage "operation" ("canonical-semantics" :: "export" :: derivation_parts demo_derivation)).
Proof.
  apply (operation_id_injective "export" demo_derivation "export" demo_derivation demo_operation_id).
  - vm_compute. reflexivity.
  - vm_compute. reflexivity.
  - apply fits_forallb. vm_compute. reflexivity.
  - apply fits_forallb. vm_compute. reflexivity.
Defined.
