(* ===== verification/MemoryForget.v ===== *)
(** * MemoryForget: forgetting, from request to fail-closed denial

    Models src/sessionmemory/forget.go, forget_validation.go and
    canonical_forget.go: the public commands and outcomes, the timestamp-free
    identities of a forget, and one bounded denial step against the persistence
    port, an interface of the source and a class here. *)

From Stdlib Require Import ZArith Lia Ascii String.
From stdpp Require Import base numbers list gmap strings.
From S2P Require Import Prelude.
From S2P Require Import GoStrings.
From S2P Require Import Sha256.
From S2P Require Import MemoryTypes.
From S2P Require Import MemoryRecords.
From S2P Require Import MemoryDerived.
From S2P Require Import MemoryReconciler.

Local Open Scope string_scope.
Local Open Scope list_scope.
Local Open Scope Z_scope.

Definition maxCanonicalForgetBatch : Z := 512.

Definition ForgetKindSource : string := "source".
Definition ForgetKindScope : string := "scope".
Definition ForgetKind_Validate (k : string) : result unit :=
  one_of [ForgetKindSource; ForgetKindScope] k "unsupported forget kind".

(** ** Records *)
Record ForgetSourceCommand := mkForgetSource {
  fs_SchemaVersion : string; fs_Source : SourceRef; fs_ForgottenAt : Z }.
Record ForgetScopeCommand := mkForgetScope {
  fc_SchemaVersion : string; fc_Scope : Scope; fc_RequestID : string; fc_ForgottenAt : Z }.
Record ForgetOutcome := mkForgetOutcome {
  fo_SchemaVersion : string; fo_OperationID : string; fo_Kind : string; fo_Scope : Scope;
  fo_ScopeVersion : Z; fo_Sources : list SourceRef; fo_Revisions : list RevisionRef }.
#[export] Instance ForgetOutcome_eq_dec : EqDecision ForgetOutcome.
Proof. solve_decision. Defined.
Record CanonicalForgetCommitRequest := mkForgetCommit {
  fr_Scope : Scope; fr_OperationID : string; fr_Kind : string; fr_Fingerprint : string;
  fr_ExpectedScopeVersion : Z; fr_Sources : list SourceRef; fr_Revisions : list RevisionRef;
  fr_ForgottenAt : Z }.
Record CanonicalSourceForgetBatchRequest := mkForgetBatch {
  fb_Scope : Scope; fb_SourceID : string; fb_AfterRevisionID : string; fb_Limit : Z; fb_DeniedAt : Z }.
Record CanonicalSourceForgetBatchResult := mkForgetBatchResult {
  fbr_RevisionIDs : list string; fbr_NextCursor : string }.

(** ** Validation *)
Definition ForgetSourceCommand_Validate (c : ForgetSourceCommand) : result unit :=
  _ ← reject_if (negb (bool_decide (fs_SchemaVersion c = DerivedSchemaVersionV1)))
        (invalidDerived "unsupported forget command schema version");
  _ ← SourceRef_Validate (fs_Source c);
  reject_if (fs_ForgottenAt c =? 0) (invalidDerived "forget command timestamp is required").

Definition ForgetScopeCommand_Validate (c : ForgetScopeCommand) : result unit :=
  _ ← reject_if (negb (bool_decide (fc_SchemaVersion c = DerivedSchemaVersionV1)))
        (invalidDerived "unsupported forget command schema version");
  _ ← Scope_Validate (fc_Scope c);
  _ ← reject_if (negb (isCanonicalID (fc_RequestID c)))
        (invalidDerived "scope forget request id is required");
  reject_if (fc_ForgottenAt c =? 0) (invalidDerived "forget command timestamp is required").

Definition validateUniqueRevisionRefs (refs : list RevisionRef) (subject : string) : result unit :=
  _ ← reject_if (MaxSnapshotItems <? Zlength refs) (limitExceeded (subject +:+ " exceeds the revision limit"));
  check_unique RevisionRef_Validate (invalidDerived (subject +:+ " contains a duplicate revision")) [] refs.

(** The source loop of [ForgetOutcome.Validate]; [seen] holds the export identities. *)
Fixpoint check_outcome_sources (scope : Scope) (seen : list string) (sources : list SourceRef) : result unit :=
  match sources with
  | [] => Ok tt
  | source :: sources =>
      _ ← SourceRef_Validate source;
      _ ← reject_if (negb (bool_decide (so_Scope source = scope)))
            (PermanentError CodeScopeViolation "forget outcome contains a foreign source" None);
      _ ← reject_if (bool_decide (so_ExportID source ∈ seen))
            (invalidDerived "forget outcome contains a duplicate source");
      check_outcome_sources scope (so_ExportID source :: seen) sources
  end.

Definition ForgetOutcome_Validate (o : ForgetOutcome) : result unit :=
  _ ← reject_if (negb (bool_decide (fo_SchemaVersion o = DerivedSchemaVersionV1)))
        (invalidDerived "unsupported forget outcome schema version");
  _ ← reject_if (negb (isCanonicalID (fo_OperationID o)))
        (invalidDerived "forget outcome operation id is required");
  _ ← ForgetKind_Validate (fo_Kind o);
  _ ← Scope_Validate (fo_Scope o);
  _ ← reject_if (fo_ScopeVersion o =? 0) (invalidDerived "forget outcome scope version is required");
  _ ← reject_if (MaxSnapshotItems <? Zlength (fo_Sources o) + Zlength (fo_Revisions o))
        (limitExceeded "forget outcome exceeds the item limit");
  _ ← reject_if (bool_decide (fo_Kind o = ForgetKindSource) && negb (Zlength (fo_Sources o) =? 1))
        (invalidDerived "source forget outcome requires exactly one source");
  _ ← check_outcome_sources (fo_Scope o) [] (fo_Sources o);
  validateUniqueRevisionRefs (fo_Revisions o) "forget outcome".

Definition CanonicalForgetCommitRequest_Validate (r : CanonicalForgetCommitRequest) : result unit :=
  _ ← Scope_Validate (fr_Scope r);
  _ ← ForgetKind_Validate (fr_Kind r);
  _ ← reject_if (negb (isCanonicalID (fr_OperationID r)) || negb (isCanonicalID (fr_Fingerprint r)) ||
                 (fr_ExpectedScopeVersion r =? max_u64) || (fr_ForgottenAt r =? 0))
        (invalidDerived "canonical forget commit identity or timestamp is invalid");
  _ ← for_each (λ source,
        _ ← SourceRef_Validate source;
        reject_if (negb (bool_decide (so_Scope source = fr_Scope r)))
          (PermanentError CodeScopeViolation "canonical forget source scope does not match" None))
        (fr_Sources r);
  for_each RevisionRef_Validate (fr_Revisions r).

Definition CanonicalSourceForgetBatchRequest_Validate (r : CanonicalSourceForgetBatchRequest) : result unit :=
  _ ← Scope_Validate (fb_Scope r);
  reject_if (negb (isCanonicalID (fb_SourceID r)) ||
             (negb (bool_decide (fb_AfterRevisionID r = "")) && negb (isCanonicalID (fb_AfterRevisionID r))) ||
             (fb_Limit r =? 0) || (maxCanonicalForgetBatch <? fb_Limit r) || (fb_DeniedAt r =? 0))
    (invalidDerived "canonical source forget batch request is invalid").

(** ** Identities *)

(** What names the target, after the kind and the scope. *)
Definition forget_target (kind : string) (source : SourceRef) (requestID : string) : list string :=
  if bool_decide (kind = ForgetKindSource)
  then [so_ExportID source; so_SessionID source; so_SourceTurnID source]
  else [TrimSpace requestID].
Definition forget_parts (kind : string) (scope : Scope) (source : SourceRef) (requestID : string) : list string :=
  [kind; sc_Kind scope; sc_Key scope] ++ forget_target kind source requestID.

Definition CanonicalForgetOperationID (kind : string) (scope : Scope) (source : SourceRef) (requestID : string) :
    result string :=
  _ ← ForgetKind_Validate kind;
  _ ← Scope_Validate scope;
  _ ← (if bool_decide (kind = ForgetKindSource) then
         _ ← SourceRef_Validate source;
         reject_if (negb (bool_decide (so_Scope source = scope)))
           (PermanentError CodeScopeViolation "canonical forget source scope does not match" None)
       else
         reject_if (negb (isCanonicalID (TrimSpace requestID)))
           (invalidDerived "canonical scope forget request id is required"));
  Ok (reconciliationID "canonical-forget" (forget_parts kind scope source requestID)).

Definition CanonicalForgetFingerprint (operationID : string) (scope : Scope) (kind : string)
    (source : SourceRef) (requestID : string) : string :=
  reconciliationID "canonical-forget-fingerprint"
    [operationID; kind; sc_Key scope; sc_Kind scope; so_ExportID source; so_SessionID source;
     so_SourceTurnID source; TrimSpace requestID].

(** ** One denial step *)

(** [CanonicalSourceForgetStore]: two writes, which may fail after any effect, and one
    bounded read (revision identities, next cursor). *)
Class CanonicalSourceForgetStore (St : Type) := {
  DenySource : Scope → string → Z → St → St * result unit;
  SourceRevisionBatch : St → Scope → string → string → Z → result (list string * string);
  DenyRevision : Scope → string → Z → St → St * result unit }.

Section denial.
  Context {St : Type} `{Store : CanonicalSourceForgetStore St}.

(** The loop over the scanned revisions. *)
Fixpoint deny_revisions (scope : Scope) (deniedAt : Z) (ids : list string) (st : St) : St * result unit :=
  match ids with
  | [] => (st, Ok tt)
  | id :: ids =>
      if negb (isCanonicalID id) then
        (st, Err (PermanentError CodeStoreFailure
          "canonical source forget store returned an invalid revision identity" None))
      else
        match DenyRevision scope id deniedAt st with
        | (st, Err err) => (st, Err err)
        | (st, Ok _) => deny_revisions scope deniedAt ids st
        end
  end.

(** The nil checks of the context and the store have no counterpart: both are given. *)
Definition DenyCanonicalSourceBatch (request : CanonicalSourceForgetBatchRequest) (st : St) :
    St * result CanonicalSourceForgetBatchResult :=
  match CanonicalSourceForgetBatchRequest_Validate request with
  | Err err => (st, Err err)
  | Ok _ =>
      match DenySource (fb_Scope request) (fb_SourceID request) (fb_DeniedAt request) st with
      | (st, Err err) => (st, Err err)
      | (st, Ok _) =>
          match SourceRevisionBatch st (fb_Scope request) (fb_SourceID request)
                  (fb_AfterRevisionID request) (fb_Limit request) with
          | Err err => (st, Err err)
          | Ok (revisionIDs, nextCursor) =>
              match deny_revisions (fb_Scope request) (fb_DeniedAt request) revisionIDs st with
              | (st, Err err) => (st, Err err)
              | (st, Ok _) =>
                  if negb (bool_decide (nextCursor = "")) && negb (isCanonicalID nextCursor)
                  then (st, Err (PermanentError CodeStoreFailure
                              "canonical source forget store returned an invalid cursor" None))
                  else (st, Ok (mkForgetBatchResult revisionIDs nextCursor))
              end
          end
      end
  end.

(** What the port promises: a denial that reports success holds, and no later denial,
    successful or not, takes one back. *)
Class CanonicalSourceForgetLaws := {
  source_denied : St → Scope → string → Prop;
  revision_denied : St → Scope → string → Prop;
  deny_source_holds scope id t st : (DenySource scope id t st).2 = Ok tt →
    source_denied (DenySource scope id t st).1 scope id;
  deny_revision_holds scope id t st : (DenyRevision scope id t st).2 = Ok tt →
    revision_denied (DenyRevision scope id t st).1 scope id;
  deny_revision_keeps scope id t st scope' id' :
    (source_denied st scope' id' → source_denied (DenyRevision scope id t st).1 scope' id') ∧
    (revision_denied st scope' id' → revision_denied (DenyRevision scope id t st).1 scope' id') }.
End denial.
Arguments CanonicalSourceForgetLaws St {Store}.

Section denial_facts.
  Context {St : Type} `{Store : CanonicalSourceForgetStore St} `{Laws : !CanonicalSourceForgetLaws St}.

Lemma deny_revisions_keeps scope t ids st scope' id' :
  (source_denied st scope' id' → source_denied (deny_revisions scope t ids st).1 scope' id') ∧
  (revision_denied st scope' id' → revision_denied (deny_revisions scope t ids st).1 scope' id').
Proof.
  revert st. induction ids as [|id ids IH]; intros st; cbn [deny_revisions]; [done|].
  destruct (negb (isCanonicalID id)); [done|].
  pose proof (deny_revision_keeps scope id t st scope' id') as [Hs Hr].
  destruct (DenyRevision scope id t st) as [st' [u|e]]; cbn [fst] in *; [|done].
  destruct (IH st') as [IHs IHr]. split; auto.
Qed.

Lemma deny_revisions_Ok scope t ids st :
  (deny_revisions scope t ids st).2 = Ok tt →
  Forall (λ id, isCanonicalID id = true ∧ revision_denied (deny_revisions scope t ids st).1 scope id) ids.
Proof.
  revert st. induction ids as [|id ids IH]; intros st; cbn [deny_revisions]; [constructor|].
  destruct (isCanonicalID id) eqn:Hid; cbn [negb]; [|discriminate].
  pose proof (deny_revision_holds scope id t st) as Hd.
  destruct (DenyRevision scope id t st) as [st' [[]|e]] eqn:E; cbn [fst snd] in *; [|discriminate].
  intros H. constructor; [|exact (IH st' H)]. split; [exact Hid|].
  apply deny_revisions_keeps. apply Hd. reflexivity.
Qed.
End denial_facts.

(** ** Lemmas *)
Lemma check_outcome_sources_Ok scope seen sources :
  check_outcome_sources scope seen sources = Ok tt ↔
  Forall (λ s, SourceRef_Validate s = Ok tt ∧ so_Scope s = scope) sources ∧
  NoDup (map so_ExportID sources) ∧ ∀ s, s ∈ sources → so_ExportID s ∉ seen.
Proof.
  revert seen. induction sources as [|s sources IH]; intros seen; cbn [check_outcome_sources map].
  - split; [|done]. intros _. split; [constructor|]. split; [constructor|]. intros s Hs. by apply not_elem_of_nil in Hs.
  - rewrite bind_unit, !reject_bind, negb_false_iff, bool_decide_eq_true, bool_decide_eq_false, IH, Forall_cons, NoDup_cons.
    split.
    + intros (H1 & H2 & H3 & H4 & H5 & H6). split; [done|]. split; [split; [|done]|].
      * intros (y & Hy & Hin)%list_elem_of_fmap. apply (H6 y Hin). rewrite <-Hy. apply list_elem_of_here.
      * intros y [->|Hy]%elem_of_cons; [done|]. intros Hin. apply (H6 y Hy). by apply list_elem_of_further.
    + intros (((H1 & H2) & H4) & (H5 & H6) & H7). split; [done|]. split; [done|].
      split; [apply H7, list_elem_of_here|]. split; [done|]. split; [done|].
      intros y Hy [Heq|Hin]%elem_of_cons; [|by apply (H7 y); [apply list_elem_of_further|]].
      apply H5. apply list_elem_of_fmap. by exists y.
Qed.

Lemma validateUniqueRevisionRefs_Ok refs subject :
  validateUniqueRevisionRefs refs subject = Ok tt ↔
  Zlength refs ≤ MaxSnapshotItems ∧ Forall (λ r, RevisionRef_Validate r = Ok tt) refs ∧ NoDup refs.
Proof.
  unfold validateUniqueRevisionRefs. rewrite reject_bind, check_unique_Ok, Z.ltb_ge.
  split; [tauto|]. intros (? & ? & ?). do 3 (split; [done|]). intros x _. apply not_elem_of_nil.
Qed.

Lemma forget_operation_id_value kind scope source requestID op :
  CanonicalForgetOperationID kind scope source requestID = Ok op →
  op = reconciliationID "canonical-forget" (forget_parts kind scope source requestID) ∧
  (kind = ForgetKindSource → so_Scope source = scope).
Proof.
  unfold CanonicalForgetOperationID. intros H. apply bind_unit in H as (_ & H). apply bind_unit in H as (_ & H).
  apply bind_unit in H as (Hs & H). apply Ok_inj in H. split; [symmetry; exact H|]. intros Hk.
  rewrite bool_decide_true in Hs by exact Hk. apply bind_unit in Hs as (_ & Hs).
  by apply reject_if_Ok, negb_false_iff, bool_decide_eq_true in Hs.
Qed.

Lemma forget_batch_denies {St} `{Store : CanonicalSourceForgetStore St}
    `{Laws : !CanonicalSourceForgetLaws St} request st :
  let denied := DenySource (fb_Scope request) (fb_SourceID request) (fb_DeniedAt request) st in
  let after := (DenyCanonicalSourceBatch request st).1 in
  let r := (DenyCanonicalSourceBatch request st).2 in
  (CanonicalSourceForgetBatchRequest_Validate request = Ok tt → denied.2 = Ok tt →
   source_denied after (fb_Scope request) (fb_SourceID request)) ∧
  ∀ res, r = Ok res →
    source_denied after (fb_Scope request) (fb_SourceID request) ∧
    SourceRevisionBatch denied.1 (fb_Scope request) (fb_SourceID request)
      (fb_AfterRevisionID request) (fb_Limit request) = Ok (fbr_RevisionIDs res, fbr_NextCursor res) ∧
    Forall (λ id, isCanonicalID id = true ∧ revision_denied after (fb_Scope request) id) (fbr_RevisionIDs res) ∧
    (fbr_NextCursor res = "" ∨ isCanonicalID (fbr_NextCursor res) = true).
Proof.
  cbv zeta. unfold DenyCanonicalSourceBatch.
  destruct (CanonicalSourceForgetBatchRequest_Validate request) as [[]|e]; [|split; intros; discriminate].
  pose proof (deny_source_holds (fb_Scope request) (fb_SourceID request) (fb_DeniedAt request) st) as Hd.
  destruct (DenySource _ _ _ _) as [st1 [[]|e]]; cbn [fst snd] in *; [|split; intros; discriminate].
  specialize (Hd eq_refl).
  destruct (SourceRevisionBatch _ _ _ _ _) as [[ids cursor]|e]; [|split; [done | intros; discriminate]].
  destruct (deny_revisions_keeps (fb_Scope request) (fb_DeniedAt request) ids st1
    (fb_Scope request) (fb_SourceID request)) as [Hkeep _]. specialize (Hkeep Hd).
  pose proof (deny_revisions_Ok (fb_Scope request) (fb_DeniedAt request) ids st1) as Hall.
  destruct (deny_revisions _ _ _ _) as [st2 [[]|e]]; cbn [fst snd] in *; [|split; [done | intros; discriminate]].
  destruct (negb (bool_decide (cursor = "")) && negb (isCanonicalID cursor)) eqn:Hc;
    (split; [done|]); intros res Hres; [discriminate|]. apply Ok_inj in Hres as <-.
  split; [exact Hkeep|]. split; [reflexivity|]. split; [exact (Hall eq_refl)|].
  apply andb_false_iff in Hc as [Hc|Hc]; apply negb_false_iff in Hc; [left | right; exact Hc].
  by apply bool_decide_eq_true in Hc.
Qed.

(** ** Properties *)

(** Forgetting fails closed: once the source denial of a valid request succeeded the
    source stays denied whatever fails later in the step, and a successful step
    returns exactly the scanned identities, all canonical and all denied, with an
    empty or canonical cursor. *)
Theorem forget_batch_fails_closed {St} `{Store : CanonicalSourceForgetStore St}
    `{Laws : !CanonicalSourceForgetLaws St} request st :
  let denied := DenySource (fb_Scope request) (fb_SourceID request) (fb_DeniedAt request) st in
  let after := (DenyCanonicalSourceBatch request st).1 in
  let r := (DenyCanonicalSourceBatch request st).2 in
  (CanonicalSourceForgetBatchRequest_Validate request = Ok tt → denied.2 = Ok tt →
   source_denied after (fb_Scope request) (fb_SourceID request)) ∧
  ∀ res, r = Ok res →
    source_denied after (fb_Scope request) (fb_SourceID request) ∧
    SourceRevisionBatch denied.1 (fb_Scope request) (fb_SourceID request)
      (fb_AfterRevisionID request) (fb_Limit request) = Ok (fbr_RevisionIDs res, fbr_NextCursor res) ∧
    Forall (λ id, isCanonicalID id = true ∧ revision_denied after (fb_Scope request) id) (fbr_RevisionIDs res) ∧
    (fbr_NextCursor res = "" ∨ isCanonicalID (fbr_NextCursor res) = true).
Proof. apply forget_batch_denies. Qed.

(** A forget is named by its target: two requests share an operation identity only
    when they have the same kind and scope and name the same turn (by export,
    session and turn identity) or, for a scope, the same trimmed request id, or
    else their hashed messages are a SHA-256 collision. *)
Theorem forget_operation_id_injective k1 sc1 so1 r1 k2 sc2 so2 r2 op :
  CanonicalForgetOperationID k1 sc1 so1 r1 = Ok op → CanonicalForgetOperationID k2 sc2 so2 r2 = Ok op →
  Forall (fits 8) (forget_parts k1 sc1 so1 r1) → Forall (fits 8) (forget_parts k2 sc2 so2 r2) →
  (k1 = k2 ∧ sc1 = sc2 ∧
   (k1 = ForgetKindSource → so1 = so2) ∧ (k1 ≠ ForgetKindSource → TrimSpace r1 = TrimSpace r2)) ∨
  sha256_collision (reconciliation_preimage "canonical-forget" (forget_parts k1 sc1 so1 r1))
    (reconciliation_preimage "canonical-forget" (forget_parts k2 sc2 so2 r2)).
Proof.
  intros [H1 S1]%forget_operation_id_value [H2 S2]%forget_operation_id_value F1 F2. rewrite H1 in H2.
  assert (Hk : fits 8 "canonical-forget") by done.
  apply reconciliationID_inj in H2 as [_ [H|H]];
    [left | right; exact H | by constructor | by constructor].
  unfold forget_parts, forget_target in H. cbn [app] in H. injection H as -> Hkind Hkey H.
  assert (sc1 = sc2) as -> by (destruct sc1, sc2; cbn in *; congruence).
  split; [reflexivity|]. split; [reflexivity|]. case_bool_decide as Hs.
  - injection H as Hx Hses Ht. split; [|intros Hn; by destruct Hn]. intros _.
    specialize (S1 Hs). specialize (S2 Hs). destruct so1, so2. cbn in *. congruence.
  - injection H as H. split; [intros Hs'; by destruct Hs | intros _; exact H].
Qed.

(** An outcome a forget may report: known kind, valid scope, a version, at most 2048
    references, exactly one source when one source was asked for, every source in
    the outcome's own scope and listed once, every revision listed once. *)
Theorem forget_outcome_accepted o :
  ForgetOutcome_Validate o = Ok tt ↔
  fo_SchemaVersion o = DerivedSchemaVersionV1 ∧ isCanonicalID (fo_OperationID o) = true ∧
  (fo_Kind o = ForgetKindSource ∨ fo_Kind o = ForgetKindScope) ∧ Scope_Validate (fo_Scope o) = Ok tt ∧
  fo_ScopeVersion o ≠ 0 ∧ Zlength (fo_Sources o) + Zlength (fo_Revisions o) ≤ MaxSnapshotItems ∧
  (fo_Kind o = ForgetKindSource → Zlength (fo_Sources o) = 1) ∧
  Forall (λ s, SourceRef_Validate s = Ok tt ∧ so_Scope s = fo_Scope o) (fo_Sources o) ∧
  NoDup (map so_ExportID (fo_Sources o)) ∧
  Forall (λ r, RevisionRef_Validate r = Ok tt) (fo_Revisions o) ∧ NoDup (fo_Revisions o).
Proof.
  assert (Hkind : ForgetKind_Validate (fo_Kind o) = Ok tt ↔
    fo_Kind o = ForgetKindSource ∨ fo_Kind o = ForgetKindScope).
  { unfold ForgetKind_Validate, one_of. rewrite reject_if_Ok, negb_false_iff, bool_decide_eq_true.
    rewrite !elem_of_cons, elem_of_nil. tauto. }
  unfold ForgetOutcome_Validate.
  rewrite !bind_unit, !reject_if_Ok, check_outcome_sources_Ok, validateUniqueRevisionRefs_Ok,
    Hkind, andb_false_iff, !negb_false_iff, bool_decide_eq_true, bool_decide_eq_false, !Z.eqb_neq, Z.eqb_eq, Z.ltb_ge.
  assert (Hnone : ∀ s, s ∈ fo_Sources o → so_ExportID s ∉ []) by (intros s _; apply not_elem_of_nil).
  assert (Hlen : Zlength (fo_Sources o) + Zlength (fo_Revisions o) ≤ MaxSnapshotItems →
    Zlength (fo_Revisions o) ≤ MaxSnapshotItems) by (unfold Zlength; lia).
  assert (Hone : (fo_Kind o ≠ ForgetKindSource ∨ Zlength (fo_Sources o) = 1) ↔
    (fo_Kind o = ForgetKindSource → Zlength (fo_Sources o) = 1))
    by (destruct (decide (fo_Kind o = ForgetKindSource)); tauto).
  tauto.
Qed.

(** ** Witnesses *)

(** A port that keeps the denied identities in two lists. *)
#[local] Instance demo_forget_store : CanonicalSourceForgetStore (list (Scope * string) * list (Scope * string)) := {|
  DenySource scope id _ st := (((scope, id) :: st.1, st.2), Ok tt);
  SourceRevisionBatch _ _ _ after _ := if bool_decide (after = "") then Ok (["r1"; "r2"], "r2") else Ok ([], "");
  DenyRevision scope id _ st := ((st.1, (scope, id) :: st.2), Ok tt) |}.
#[local] Instance demo_forget_laws : CanonicalSourceForgetLaws (list (Scope * string) * list (Scope * string)).
Proof.
  refine {| source_denied st scope id := (scope, id) ∈ st.1; revision_denied st scope id := (scope, id) ∈ st.2 |}.
  - intros scope id t st _. apply list_elem_of_here.
  - intros scope id t st _. apply list_elem_of_here.
  - intros scope id t st scope' id'. split; [done|]. intros H. by apply list_elem_of_further.
Defined.
Definition demo_batch : CanonicalSourceForgetBatchRequest := mkForgetBatch demo_scope "src" "" 10 1000.

Lemma forget_batch_fails_closed_witness :
  source_denied (DenyCanonicalSourceBatch demo_batch ([], [])).1 demo_scope "src".
Proof.
  refine (proj1 (forget_batch_fails_closed demo_batch ([], [])) _ _); vm_compute; reflexivity.
Defined.

Definition demo_forget_source : SourceRef := mkSourceRef demo_scope "export" "tg-42" "7".
Lemma forget_operation_id_injective_witness :
  (ForgetKindSource = ForgetKindSource ∧ demo_scope = demo_scope ∧
   (ForgetKindSource = ForgetKindSource → demo_forget_source = demo_forget_source) ∧
   (ForgetKindSource ≠ ForgetKindSource → TrimSpace "" = TrimSpace "ignored")) ∨
  sha256_collision
    (reconciliation_preimage "canonical-forget" (forget_parts ForgetKindSource demo_scope demo_forget_source ""))
    (reconciliation_preimage "canonical-forget" (forget_parts ForgetKindSource demo_scope demo_forget_source "ignored")).
Proof.
  apply (forget_operation_id_injective ForgetKindSource demo_scope demo_forget_source "" ForgetKindSource demo_scope
    demo_forget_source "ignored"
    (reconciliationID "canonical-forget" (forget_parts ForgetKindSource demo_scope demo_forget_source ""))).
  - vm_compute. reflexivity.
  - vm_compute. reflexivity.
  - apply fits_forallb. vm_compute. reflexivity.
  - apply fits_forallb. vm_compute. reflexivity.
Defined.
