(* ===== verification/MemoryProjection.v ===== *)
(** * MemoryProjection: projection generations and scope checkpoints

    Models the durable records of src/sessionmemory/projection.go and
    projection_views.go: the manifest of one projection generation and the latest
    cursor of a scope per trigger kind, with their validation. *)

From Stdlib Require Import ZArith Lia String.
From stdpp Require Import base numbers list strings.
From S2P Require Import Prelude.
From S2P Require Import GoStrings.
From S2P Require Import MemoryTypes.
From S2P Require Import MemoryDerived.
From S2P Require Import MemoryCanonical.

Local Open Scope string_scope.
Local Open Scope list_scope.
Local Open Scope Z_scope.

Definition ProjectionGenerationBuilding : string := "building".
Definition ProjectionGenerationDirty : string := "dirty".
Definition ProjectionGenerationActive : string := "active".
Definition ProjectionGenerationSuperseded : string := "superseded".

Record ProjectionManifest := mkManifest {
  pm_Scope : Scope; pm_ProjectionID : string; pm_GenerationID : string; pm_Status : string;
  pm_Watermark : Z; pm_UpdatedAt : Z }.
#[export] Instance ProjectionManifest_eq_dec : EqDecision ProjectionManifest.
Proof. solve_decision. Defined.

Definition ProjectionManifest_Validate (m : ProjectionManifest) : result unit :=
  _ ← Scope_Validate (pm_Scope m);
  _ ← reject_if (negb (isCanonicalID (pm_ProjectionID m)) || negb (isCanonicalID (pm_GenerationID m)) ||
                 (pm_UpdatedAt m =? 0))
        (invalidDerived "projection manifest identity is invalid");
  one_of [ProjectionGenerationBuilding; ProjectionGenerationDirty; ProjectionGenerationActive;
          ProjectionGenerationSuperseded] (pm_Status m) "projection manifest status is invalid".

Definition with_status (m : ProjectionManifest) (status : string) : ProjectionManifest :=
  mkManifest (pm_Scope m) (pm_ProjectionID m) (pm_GenerationID m) status (pm_Watermark m) (pm_UpdatedAt m).
Definition with_updated (m : ProjectionManifest) (at_ : Z) : ProjectionManifest :=
  mkManifest (pm_Scope m) (pm_ProjectionID m) (pm_GenerationID m) (pm_Status m) (pm_Watermark m) at_.
Definition with_watermark (m : ProjectionManifest) (w : Z) : ProjectionManifest :=
  mkManifest (pm_Scope m) (pm_ProjectionID m) (pm_GenerationID m) (pm_Status m) w (pm_UpdatedAt m).

Definition ScopeCheckpointSchemaVersion : string := "session-memory-scope-checkpoint/v1".
Definition ScopeCheckpointTurn : string := "turn".
Definition ScopeCheckpointToken : string := "token".
Definition ScopeCheckpointTime : string := "time".
Definition ScopeCheckpointBoundary : string := "boundary".
Definition ScopeCheckpointKind_Validate (k : string) : result unit :=
  one_of [ScopeCheckpointTurn; ScopeCheckpointToken; ScopeCheckpointTime; ScopeCheckpointBoundary] k
    "unsupported scope checkpoint kind".

Record ScopeCheckpoint := mkCheckpoint {
  ck_SchemaVersion : string; ck_Scope : Scope; ck_Kind : string; ck_CheckpointID : string;
  ck_ScopeVersion : Z; ck_ChangeSeq : Z; ck_TokenCount : Z; ck_OccurredAt : Z; ck_UpdatedAt : Z }.
#[export] Instance ScopeCheckpoint_eq_dec : EqDecision ScopeCheckpoint.
Proof. solve_decision. Defined.

Definition ScopeCheckpoint_Validate (c : ScopeCheckpoint) : result unit :=
  _ ← reject_if (negb (bool_decide (ck_SchemaVersion c = ScopeCheckpointSchemaVersion)))
        (invalidDerived "scope checkpoint schema version is invalid");
  _ ← Scope_Validate (ck_Scope c);
  _ ← ScopeCheckpointKind_Validate (ck_Kind c);
  _ ← reject_if (negb (isCanonicalID (ck_CheckpointID c)) || (ck_OccurredAt c =? 0) || (ck_UpdatedAt c =? 0))
        (invalidDerived "scope checkpoint identity or timestamp is invalid");
  reject_if (negb (bool_decide (ck_Kind c = ScopeCheckpointToken)) && negb (ck_TokenCount c =? 0))
    (invalidDerived "non-token checkpoint contains a token count").
