(* ===== verification/MemoryRecall.v ===== *)
(** * MemoryRecall: bounded recall of one scope

    src/sessionmemory/recall.go and src/sessionmemory/app/recall.go: the request, its
    normalisation, the validation of hydrated records, ranking, and the service that
    hydrates the hits of a disposable projection from canonical state.  The reader
    of canonical state is an interface; [BadgerReader] implements it. *)

From Stdlib Require Import ZArith Lia Ascii String SpecFloat.
From stdpp Require Import base numbers list gmap strings sorting.
From S2P Require Import Prelude.
From S2P Require Import GoStrings.
From S2P Require Import GoNumeric.
From S2P Require Import MemoryTypes.
From S2P Require Import MemoryRecords.
From S2P Require Import MemoryDerived.
From S2P Require Import MemoryProcessor.

Local Open Scope string_scope.
Local Open Scope list_scope.
Local Open Scope Z_scope.

Definition RecallSchemaVersionV1 : string := "session-memory-recall/v1".
Definition MaxRecallCandidates : Z := 256.
Definition MaxRecallEvidence : Z := 16.
Definition DefaultSearchLimit : Z := 10.
Definition MaxSearchLimit : Z := 100.
Definition ReferenceTrustUntrusted : string := "untrusted_reference".

(** ** Data *)
Record RecallRequest := mkRecallRequest {
  rc_SchemaVersion : string; rc_Scope : Scope; rc_Query : string; rc_Limit : Z; rc_Kind : option string;
  rc_Category : option string; rc_AsOf : option Z; rc_SourceID : string; rc_SessionID : string;
  rc_MemoryKey : string; rc_MinScopeChangeSeq : Z }.

Record RecallProjectionDocument := mkProjectionDocument {
  pd_Scope : Scope; pd_ItemID : string; pd_RevisionID : string; pd_Revision : Z; pd_Kind : string;
  pd_Category : option string; pd_MemoryKey : string; pd_Text : string; pd_CreatedAt : Z; pd_Temporal : Temporal;
  pd_Sensitivity : string; pd_Retention : string; pd_SourceIDs : list string; pd_SessionIDs : list string;
  pd_ScopeChangeSeq : Z }.

Record RecallProjectionHit := mkProjectionHit {
  ph_Scope : Scope; ph_ItemID : string; ph_RevisionID : string; ph_Revision : Z; ph_Score : float64;
  ph_ScopeChangeSeq : Z }.

Record RecallRecord := mkRecallRecord {
  rec_Scope : Scope; rec_ItemID : string; rec_RevisionID : string; rec_Revision : Z; rec_Kind : string;
  rec_Category : option string; rec_LegacyKind : option string; rec_LegacyItemID : string;
  rec_LegacyRevisionID : string; rec_LegacyOperationID : string; rec_LegacySupersedes : option RevisionRef;
  rec_LegacyParents : list RevisionRef; rec_TopicKey : string; rec_Title : string; rec_MemoryKey : string;
  rec_Text : string; rec_State : string; rec_CreatedAt : Z; rec_Temporal : Temporal; rec_Sensitivity : string;
  rec_Retention : string; rec_Evidence : list EvidenceRef; rec_SourceIDs : list string;
  rec_SourceRefs : list SourceRef; rec_SessionIDs : list string; rec_ScopeChangeSeq : Z }.

Record RecallScore := mkRecallScore {
  rs_Lexical : float64; rs_Freshness : float64; rs_ExactScope : float64; rs_Total : float64 }.

Record RecallReference := mkRecallReference {
  rf_SchemaVersion : string; rf_Trust : string; rf_Scope : Scope; rf_ItemID : string; rf_RevisionID : string;
  rf_Revision : Z; rf_Kind : string; rf_State : string; rf_Category : option string; rf_MemoryKey : string;
  rf_Text : string; rf_CreatedAt : Z; rf_Score : float64; rf_Explain : RecallScore;
  rf_Evidence : list EvidenceRef; rf_ScopeChangeSeq : Z }.

Record RecallResponse := mkRecallResponse {
  rp_SchemaVersion : string; rp_Trust : string; rp_Scope : Scope; rp_ScopeChangeSeq : Z;
  rp_Results : list RecallReference }.

(** ** Validation *)
Definition check_option (check : string → result unit) (o : option string) : result unit :=
  match o with None => Ok tt | Some v => check v end.

Definition known_kind (k : string) : bool := bool_decide (k = MemoryKindState) || bool_decide (k = MemoryKindEvent).

Definition recall_filters (source session memory_key : string) : list (string * string) :=
  [("source", source); ("session", session); ("memory key", memory_key)].

(** [range] is the iteration order of a Go map, which the language leaves open: which
    of several bad filters the error names depends on it. *)
Definition check_filters (range : list (string * string) → list (string * string)) (filters : list (string * string)) :
    result unit :=
  for_each (λ '(name, value),
    reject_if (negb (bool_decide (value = "")) && negb (isCanonicalID value))
      (PermanentError CodeInvalidQuery (name +:+ " filter is invalid") None)) (range filters).

Definition RecallRequest_Validate (range : list (string * string) → list (string * string)) (r : RecallRequest) :
    result unit :=
  let invalid message := PermanentError CodeInvalidQuery message None in
  _ ← reject_if (negb (bool_decide (rc_SchemaVersion r = RecallSchemaVersionV1)))
        (invalid "unsupported recall schema version");
  _ ← Scope_Validate (rc_Scope r);
  _ ← reject_if (bool_decide (rc_Query r = "") || negb (bool_decide (TrimSpace (rc_Query r) = rc_Query r)) ||
                 (MaxSearchQueryBytes <? len (rc_Query r))) (invalid "recall query is invalid");
  _ ← reject_if ((rc_Limit r <? 1) || (MaxSearchLimit <? rc_Limit r)) (invalid "recall limit is outside the allowed range");
  _ ← check_option (λ k, reject_if (negb (known_kind k)) (invalid "recall kind is invalid")) (rc_Kind r);
  _ ← check_option (λ c, or_else (AtomCategory_Validate c) (invalid "recall category is invalid")) (rc_Category r);
  _ ← check_filters range (recall_filters (rc_SourceID r) (rc_SessionID r) (rc_MemoryKey r));
  reject_if (bool_decide (rc_AsOf r = Some 0)) (invalid "recall as_of is invalid").

Definition NormalizeRecallRequest (range : list (string * string) → list (string * string)) (r : RecallRequest) :
    result RecallRequest :=
  let r := mkRecallRequest
    (if bool_decide (rc_SchemaVersion r = "") then RecallSchemaVersionV1 else rc_SchemaVersion r) (rc_Scope r)
    (TrimSpace (rc_Query r)) (if rc_Limit r =? 0 then DefaultSearchLimit else rc_Limit r) (rc_Kind r)
    (rc_Category r) (rc_AsOf r) (rc_SourceID r) (rc_SessionID r) (rc_MemoryKey r) (rc_MinScopeChangeSeq r) in
  _ ← RecallRequest_Validate range r;
  Ok r.

Definition RecallProjectionDocument_Validate (d : RecallProjectionDocument) : result unit :=
  _ ← Scope_Validate (pd_Scope d);
  _ ← reject_if (negb (isCanonicalID (pd_ItemID d)) || negb (isCanonicalID (pd_RevisionID d)) || (pd_Revision d =? 0) ||
                 bool_decide (TrimSpace (pd_Text d) = "") || (MaxDerivedTextBytes <? len (pd_Text d)) ||
                 (pd_CreatedAt d =? 0))
        (invalidDerived "recall projection document identity or text is invalid");
  _ ← reject_if (negb (known_kind (pd_Kind d))) (invalidDerived "recall projection document kind is invalid");
  _ ← check_option AtomCategory_Validate (pd_Category d);
  _ ← Temporal_Validate (pd_Temporal d);
  _ ← validateSensitivityRetention (pd_Sensitivity d) (pd_Retention d);
  _ ← for_each (λ id, reject_if (negb (isCanonicalID id))
        (invalidDerived "recall projection source identity is invalid")) (pd_SourceIDs d);
  _ ← for_each (λ id, reject_if (negb (isCanonicalID id))
        (invalidDerived "recall projection session identity is invalid")) (pd_SessionIDs d);
  reject_if (pd_ScopeChangeSeq d =? 0) (invalidDerived "recall projection change sequence is required").

Definition containsString (values : list string) (want : string) : bool := bool_decide (want ∈ values).

(** The compatibility fields of a record. *)
Definition check_legacy (r : RecallRecord) : result unit :=
  match rec_LegacyKind r with
  | None => Ok tt
  | Some kind =>
      _ ← DerivedKind_Validate kind;
      _ ← reject_if (negb (isCanonicalID (rec_LegacyItemID r)) || negb (isCanonicalID (rec_LegacyRevisionID r)) ||
                     negb (isCanonicalID (rec_LegacyOperationID r)))
            (invalidDerived "recall compatibility identity is invalid");
      _ ← validate_optional_ref (rec_LegacySupersedes r);
      _ ← reject_if (MaxSourcesPerRevision <? Zlength (rec_LegacyParents r))
            (limitExceeded "recall compatibility parent bound exceeded");
      for_each RevisionRef_Validate (rec_LegacyParents r)
  end.

(** Validity at the requested time, or expiry by now. *)
Definition check_validity (t : Temporal) (as_of : option Z) (now : Z) : result unit :=
  let refused message := PermanentError CodeNotFound message None in
  match as_of with
  | Some asOf =>
      _ ← reject_if (match tp_ValidFrom t with Some from => asOf <? from | None => false end)
            (refused "recall record is not valid at as_of");
      _ ← reject_if (match tp_ValidUntil t with Some until => until <? asOf | None => false end)
            (refused "recall record expired at as_of");
      reject_if (match tp_ExpiresAt t with Some expires => negb (asOf <? expires) | None => false end)
        (refused "recall record expired at as_of")
  | None =>
      reject_if (match tp_ExpiresAt t with Some expires => expires <? now | None => false end)
        (refused "recall record has expired")
  end.

Definition RecallRecord_Validate (r : RecallRecord) (request : RecallRequest) (now : Z) : result unit :=
  let mismatch message := PermanentError CodeNotFound message None in
  _ ← reject_if (negb (bool_decide (rec_Scope r = rc_Scope request)))
        (PermanentError CodeScopeViolation "recall record scope does not match request" None);
  _ ← reject_if (negb (isCanonicalID (rec_ItemID r)) || negb (isCanonicalID (rec_RevisionID r)) ||
                 (rec_Revision r =? 0) || negb (bool_decide (rec_State r = RevisionStateActive)))
        (PermanentError CodeForgotten "recall record is not active" None);
  _ ← check_legacy r;
  _ ← reject_if (negb (known_kind (rec_Kind r))) (invalidDerived "recall record kind is invalid");
  _ ← check_option AtomCategory_Validate (rec_Category r);
  _ ← reject_if (match rc_Kind request with Some k => negb (bool_decide (rec_Kind r = k)) | None => false end)
        (mismatch "recall record does not match kind filter");
  _ ← reject_if (match rc_Category request with Some c => negb (bool_decide (rec_Category r = Some c)) | None => false end)
        (mismatch "recall record does not match category filter");
  _ ← reject_if (negb (bool_decide (rc_MemoryKey request = "")) &&
                 negb (bool_decide (rec_MemoryKey r = rc_MemoryKey request)))
        (mismatch "recall record does not match memory filter");
  _ ← reject_if (bool_decide (TrimSpace (rec_Text r) = "") || (MaxDerivedTextBytes <? len (rec_Text r)) ||
                 (rec_CreatedAt r =? 0)) (invalidDerived "recall record text or timestamp is invalid");
  _ ← Temporal_Validate (rec_Temporal r);
  _ ← reject_if (negb (bool_decide (rec_Sensitivity r = SensitivityStandard)))
        (PermanentError CodeForgotten "recall record sensitivity is not allowed" None);
  _ ← reject_if (negb (bool_decide (rec_Retention r = RetentionClassStandard)) &&
                 negb (bool_decide (rec_Retention r = RetentionClassEphemeral)))
        (PermanentError CodeForgotten "recall record retention is not allowed" None);
  _ ← reject_if ((rec_ScopeChangeSeq r =? 0) || (rec_ScopeChangeSeq r <? rc_MinScopeChangeSeq request))
        (PermanentError CodeConflict "recall record is behind the requested scope consistency" None);
  _ ← for_each (λ id, reject_if (negb (isCanonicalID id)) (invalidDerived "recall source identity is invalid"))
        (rec_SourceIDs r);
  _ ← for_each (λ source,
        _ ← SourceRef_Validate source;
        reject_if (negb (bool_decide (so_Scope source = rec_Scope r)))
          (PermanentError CodeScopeViolation "recall source reference scope does not match" None)) (rec_SourceRefs r);
  _ ← for_each (λ id, reject_if (negb (isCanonicalID id)) (invalidDerived "recall session identity is invalid"))
        (rec_SessionIDs r);
  _ ← reject_if (negb (bool_decide (rc_SourceID request = "")) &&
                 negb (containsString (rec_SourceIDs r) (rc_SourceID request)))
        (mismatch "recall record does not match source filter");
  _ ← reject_if (negb (bool_decide (rc_SessionID request = "")) &&
                 negb (containsString (rec_SessionIDs r) (rc_SessionID request)))
        (mismatch "recall record does not match session filter");
  _ ← reject_if (bool_decide (rec_SourceIDs r = []) || bool_decide (rec_Evidence r = []))
        (invalidDerived "recall record provenance is required");
  _ ← reject_if (MaxRecallEvidence <? Zlength (rec_Evidence r))
        (limitExceeded "recall evidence exceeds the compact bound");
  _ ← for_each (λ e,
        _ ← EvidenceRef_Validate e;
        reject_if (bool_decide (ev_SourceID e = "") || negb (containsString (rec_SourceIDs r) (ev_SourceID e)))
          (PermanentError CodeScopeViolation "recall evidence is not grounded in the record" None)) (rec_Evidence r);
  check_validity (rec_Temporal r) (rc_AsOf request) now.

Definition check_reference (request : RecallRequest) (f : RecallReference) : result unit :=
  reject_if (negb (bool_decide (rf_SchemaVersion f = RecallSchemaVersionV1)) ||
             negb (bool_decide (rf_Trust f = ReferenceTrustUntrusted)) ||
             negb (bool_decide (rf_Scope f = rc_Scope request)) ||
             negb (bool_decide (rf_State f = RevisionStateActive)) || bool_decide (rf_Text f = ""))
    (invalidDerived "recall response contains an invalid reference").

Fixpoint check_references (request : RecallRequest) (seen : list string) (results : list RecallReference) : result unit :=
  match results with
  | [] => Ok tt
  | f :: results =>
      _ ← check_reference request f;
      _ ← reject_if (bool_decide (rf_RevisionID f ∈ seen)) (invalidDerived "recall response contains duplicate revisions");
      check_references request (rf_RevisionID f :: seen) results
  end.

Definition RecallResponse_Validate (r : RecallResponse) (request : RecallRequest) : result unit :=
  _ ← reject_if (negb (bool_decide (rp_SchemaVersion r = RecallSchemaVersionV1)) ||
                 negb (bool_decide (rp_Trust r = ReferenceTrustUntrusted)) ||
                 negb (bool_decide (rp_Scope r = rc_Scope request)))
        (PermanentError CodeScopeViolation "recall response scope or trust marker is invalid" None);
  _ ← reject_if (rc_Limit request <? Zlength (rp_Results r)) (limitExceeded "recall response exceeds the requested limit");
  check_references request [] (rp_Results r).

(** ** Ranking *)
Definition RankRecall (score : float64) (createdAt now : Z) : RecallScore :=
  let score := if IsNaN score || IsInf score || f64_ltb score f64_zero then f64_zero else score in
  let freshness :=
    if negb (createdAt =? 0) && negb (now <? createdAt) then
      let age := Duration_Hours (time_Sub now createdAt) in
      f64_div f64_one (f64_add f64_one (f64_div age (f64_of_Z 24)))
    else f64_zero in
  mkRecallScore score freshness f64_one (f64_add (f64_add score freshness) f64_one).

(** The [less] of [SortRecallReferences]: score, then freshness, then identity. *)
Definition reference_less (x y : RecallReference) : bool :=
  if negb (f64_eqb (rf_Score x) (rf_Score y)) then f64_ltb (rf_Score y) (rf_Score x)
  else if negb (rf_CreatedAt x =? rf_CreatedAt y) then rf_CreatedAt y <? rf_CreatedAt x
  else string_ltb (rf_RevisionID x) (rf_RevisionID y).
Definition SortRecallReferences (values : list RecallReference) : list RecallReference :=
  SliceStable reference_less values.

(** ** The service *)

(** The bounded canonical reader. *)
Class RecallCanonicalReader (St : Type) := {
  LoadRecallRecords : St → Scope → list string → result (list RecallRecord);
  SearchRecallTail : St → RecallRequest → Z → result (list RecallRecord);
  CurrentScopeChangeSeq : St → Scope → result Z }.

(** The rebuildable lexical projection. *)
Definition RecallProjection : Type := RecallRequest → result (list RecallProjectionHit).

Definition skipStaleRecallError (err : error) : bool :=
  match ClassifyError err with
  | Some (code, _) => bool_decide (code = CodeNotFound) || bool_decide (code = CodeForgotten)
  | None => false
  end.

Definition recallTailLimit (limit : Z) : Z :=
  if limit <? 1 then 1 else Z.min (Z.max (limit * 4) limit) MaxRecallCandidates.

Definition recallReference (r : RecallRecord) (score : RecallScore) : RecallReference :=
  mkRecallReference RecallSchemaVersionV1 ReferenceTrustUntrusted (rec_Scope r) (rec_ItemID r) (rec_RevisionID r)
    (rec_Revision r) (rec_Kind r) (rec_State r) (rec_Category r) (rec_MemoryKey r) (rec_Text r) (rec_CreatedAt r)
    (rs_Total score) score (take (Z.to_nat MaxRecallEvidence) (rec_Evidence r)) (rec_ScopeChangeSeq r).

Definition recallResponse (scope : Scope) (sequence : Z) (results : list RecallReference) : RecallResponse :=
  mkRecallResponse RecallSchemaVersionV1 ReferenceTrustUntrusted scope sequence results.

(** The loop both branches share: skip what was seen or went stale, take what [score]
    accepts, stop at the limit. *)
Fixpoint collect_references (request : RecallRequest) (now : Z) (score : RecallRecord → result (option float64))
    (known : RecallRecord → bool) (seen : list string) (results : list RecallReference) (records : list RecallRecord) :
    result (list RecallReference) :=
  match records with
  | [] => Ok results
  | r :: records =>
      if negb (known r) || bool_decide (rec_RevisionID r ∈ seen)
      then collect_references request now score known seen results records
      else match RecallRecord_Validate r request now with
           | Err err => if skipStaleRecallError err then collect_references request now score known seen results records
                        else Err err
           | Ok _ =>
               s ← score r;
               match s with
               | None => collect_references request now score known seen results records
               | Some s =>
                   let results := results ++ [recallReference r (RankRecall s (rec_CreatedAt r) now)] in
                   if Zlength results =? rc_Limit request then Ok results
                   else collect_references request now score known (rec_RevisionID r :: seen) results records
               end
           end
  end.

Definition hit_score (hits : gmap string RecallProjectionHit) (currentSeq : Z) (r : RecallRecord) : result (option float64) :=
  match hits !! rec_RevisionID r with
  | None => Ok None
  | Some hit =>
      _ ← reject_if (negb (ph_ScopeChangeSeq hit =? 0) && (currentSeq <? ph_ScopeChangeSeq hit))
            (PermanentError CodeConflict "recall projection is ahead of canonical state" None);
      Ok (Some (ph_Score hit))
  end.

Definition responseFromProjection (request : RecallRequest) (records : list RecallRecord)
    (hits : gmap string RecallProjectionHit) (currentSeq now : Z) : result RecallResponse :=
  results ← collect_references request now (hit_score hits currentSeq)
    (λ r, bool_decide (is_Some (hits !! rec_RevisionID r))) [] [] records;
  Ok (recallResponse (rc_Scope request) currentSeq (SortRecallReferences results)).

(** The share of the query's words found in the text. *)
Definition text_score (query : string) (r : RecallRecord) : option float64 :=
  let tokens := Fields (ToLower query) in
  let lowerText := ToLower (rec_Text r) in
  let matched := Zlength (filter (λ token, Contains lowerText token = true) tokens) in
  if matched =? 0 then None else Some (f64_div (f64_of_Z matched) (f64_of_Z (Zlength tokens))).

Definition responseFromRecords (request : RecallRequest) (records : list RecallRecord) (currentSeq now : Z) :
    result RecallResponse :=
  results ← collect_references request now (λ r, Ok (text_score (rc_Query request) r)) (λ _, true) [] [] records;
  Ok (recallResponse (rc_Scope request) currentSeq (SortRecallReferences results)).

(** The distinct hits in order, by revision. *)
Fixpoint index_hits (scope : Scope) (ids : list string) (byID : gmap string RecallProjectionHit)
    (hits : list RecallProjectionHit) : result (list string * gmap string RecallProjectionHit) :=
  match hits with
  | [] => Ok (ids, byID)
  | hit :: hits =>
      _ ← reject_if (negb (bool_decide (ph_Scope hit = scope)))
            (PermanentError CodeScopeViolation "recall projection returned a foreign scope" None);
      _ ← reject_if (bool_decide (ph_RevisionID hit = ""))
            (PermanentError CodeInvalidDerived "recall projection returned an empty revision" None);
      if bool_decide (is_Some (byID !! ph_RevisionID hit)) then index_hits scope ids byID hits
      else index_hits scope (ids ++ [ph_RevisionID hit]) (<[ph_RevisionID hit := hit]> byID) hits
  end.

Section service.
  Context {St : Type}.

Record RecallService := mkRecallService {
  rcs_canonical : option (RecallCanonicalReader St); rcs_projection : option RecallProjection }.

Definition NewRecallService (canonical : option (RecallCanonicalReader St)) (projection : option RecallProjection) :
    result RecallService :=
  match canonical with
  | None => Err (PermanentError CodeStoreFailure "recall canonical reader is required" None)
  | Some _ => Ok (mkRecallService canonical projection)
  end.

(** [loaded] is the state the watermark is read from, [hydrated] the later one the
    records come from. *)
Definition Search (s : option RecallService) (range : list (string * string) → list (string * string)) (ctx : Context)
    (request : RecallRequest) (now : Z) (loaded hydrated : St) : result RecallResponse :=
  match s with
  | Some (mkRecallService (Some canonical) projection) =>
      _ ← reject_if (bool_decide (ctx = None)) (PermanentError CodeInvalidQuery "recall context is required" None);
      request ← NormalizeRecallRequest range request;
      currentSeq ← CurrentScopeChangeSeq loaded (rc_Scope request);
      _ ← reject_if (currentSeq <? rc_MinScopeChangeSeq request)
            (RetryableError CodeConflict "recall consistency watermark has not caught up" None);
      let from_tail :=
        records ← SearchRecallTail hydrated request (recallTailLimit (rc_Limit request));
        responseFromRecords request records currentSeq now in
      match projection with
      | None => from_tail
      | Some search =>
          hits ← search request;
          _ ← reject_if (MaxRecallCandidates <? Zlength hits)
                (PermanentError CodeLimitExceeded "recall projection candidate bound exceeded" None);
          if bool_decide (hits = []) then from_tail
          else
            '(ids, byID) ← index_hits (rc_Scope request) [] ∅ hits;
            if bool_decide (ids = []) then Ok (recallResponse (rc_Scope request) currentSeq [])
            else
              records ← LoadRecallRecords hydrated (rc_Scope request) ids;
              responseFromProjection request records byID currentSeq now
      end
  | _ => Err (PermanentError CodeDisabled "recall service is unavailable" None)
  end.
End service.
Arguments RecallService : clear implicits.

(** ** Ranking is a strict weak order *)
Definition scored (f : RecallReference) : Prop := IsNaN (rf_Score f) = false.

Lemma reference_less_false x y :
  scored x → scored y →
  reference_less x y = false ↔
  rank_lt (float_rank (rf_Score x)) (float_rank (rf_Score y)) ∨
  (float_rank (rf_Score x) = float_rank (rf_Score y) ∧
   (rf_CreatedAt x < rf_CreatedAt y ∨
    (rf_CreatedAt x = rf_CreatedAt y ∧ string_leb (rf_RevisionID y) (rf_RevisionID x) = true))).
Proof.
  intros Hx Hy. unfold reference_less. rewrite string_ltb_leb.
  pose proof (SFcompare_rank _ _ Hx Hy) as Hc. pose proof (f64_eqb_rank _ _ Hx Hy) as He.
  pose proof (f64_ltb_rank _ _ Hy Hx) as Hl.
  destruct (f64_eqb (rf_Score x) (rf_Score y)) eqn:E; cbn [negb].
  - pose proof (proj1 He eq_refl) as Er. rewrite <-Er. unfold rank_lt. destruct (Z.eqb_spec (rf_CreatedAt x) (rf_CreatedAt y)) as [Hc'|Hc']; cbn [negb].
    + rewrite negb_false_iff. split; [intros ?; right; auto|]. intros [?|[_ [?|[_ ?]]]]; [lia|lia|done].
    + rewrite Z.ltb_ge. split; [intros ?; right; split; [done|]; left; lia|]. intros [?|[_ [?|[? _]]]]; lia.
  - assert (Hne : float_rank (rf_Score x) ≠ float_rank (rf_Score y)) by (intros H; apply He in H; congruence).
    rewrite <-not_true_iff_false, Hl. destruct (SFcompare (rf_Score x) (rf_Score y)) as [[]|]; [done| | |done].
    + split; [by left|]. intros _. unfold rank_lt in *. lia.
    + unfold rank_lt in *. split; [done|]. intros [?|[? _]]; [lia|done].
Qed.

Lemma reference_less_asym x y : scored x → scored y → reference_less x y = true → reference_less y x = false.
Proof.
  intros Hx Hy H. apply reference_less_false; [done|done|]. apply not_false_iff_true in H.
  rewrite (reference_less_false x y Hx Hy) in H. pose proof (SFcompare_rank _ _ Hx Hy) as Hc.
  destruct (SFcompare (rf_Score x) (rf_Score y)) as [[]|]; [| | |done].
  - right. split; [done|]. destruct (Z.lt_trichotomy (rf_CreatedAt x) (rf_CreatedAt y)) as [?|[?|?]].
    + exfalso. apply H. right. split; [done|by left].
    + right. split; [done|]. destruct (string_leb_total (rf_RevisionID x) (rf_RevisionID y)) as [?|Hle]; [done|].
      exfalso. apply H. right. split; [done|by right].
    + by left.
  - exfalso. apply H. by left.
  - by left.
Qed.

Lemma reference_less_trans x y z :
  scored x → scored y → scored z → reference_less y x = false → reference_less z y = false → reference_less z x = false.
Proof.
  intros Hx Hy Hz. rewrite (reference_less_false y x Hy Hx), (reference_less_false z y Hz Hy), (reference_less_false z x Hz Hx).
  unfold rank_lt. intros [H1|[E1 H1]] [H2|[E2 H2]].
  - left. lia.
  - left. rewrite E2. lia.
  - left. rewrite <-E1. lia.
  - right. split; [congruence|]. destruct H1 as [?|[? S1]], H2 as [?|[? S2]]; [left; lia|left; lia|left; lia|].
    right. split; [lia|]. by apply (string_leb_trans _ (rf_RevisionID y)).
Qed.

(** The results in order: best score first, then freshest, then by identity. *)
Definition ranked (results : list RecallReference) : Prop := StronglySorted (not_after reference_less) results.

Lemma sorted_ranked results : Forall scored results → ranked (SortRecallReferences results).
Proof.
  intros H. apply (SliceStable_sorted reference_less scored); [|apply reference_less_trans|exact H]. apply reference_less_asym.
Qed.

Lemma rank_scored s created now : IsNaN (rs_Total (RankRecall s created now)) = false.
Proof.
  unfold RankRecall. cbv zeta. cbn [rs_Total]. set (fresh := if negb _ && _ then _ else _).
  assert (Hf : f64_nonneg fresh = true).
  { unfold fresh. destruct (negb (created =? 0) && negb (now <? created)) eqn:E; [|done].
    apply andb_prop in E as [_ E]. apply negb_true_iff, Z.ltb_ge in E.
    apply f64_div_nonneg; [done| |by left]. apply f64_add_nonneg; [done|]. apply f64_div_nonneg; [|done|by right].
    apply Duration_Hours_nonneg. unfold time_Sub, min_i64, max_i64. lia. }
  set (sc := if _ || _ then f64_zero else s).
  assert (Hs : f64_nonneg sc = true ∨ sc = S754_zero true).
  { unfold sc. destruct (IsNaN s || IsInf s || f64_ltb s f64_zero) eqn:E; [by left|].
    rewrite !orb_false_iff in E. destruct E as [[Hn Hi] Hl]. destruct s as [[]|[]| |[] m e]; try discriminate; auto. }
  apply nonneg_number, f64_add_nonneg; [|done]. destruct Hs as [Hs| ->]; [by apply f64_add_nonneg|].
  revert Hf. by destruct fresh as [[]|[]| |[] m e].
Qed.

(** ** What the loop collects *)
Definition from_record (request : RecallRequest) (now : Z) (records : list RecallRecord) (f : RecallReference) : Prop :=
  ∃ r s, r ∈ records ∧ RecallRecord_Validate r request now = Ok tt ∧
    f = recallReference r (RankRecall s (rec_CreatedAt r) now).

Lemma from_record_more request now r records f :
  from_record request now records f → from_record request now (r :: records) f.
Proof. intros (x & s & Hx & Hrest). exists x, s. split; [by apply list_elem_of_further | exact Hrest]. Qed.

Lemma collect_references_spec request now score known records seen results out :
  collect_references request now score known seen results records = Ok out →
  Zlength results < rc_Limit request → NoDup (map rf_RevisionID results) →
  (∀ f, f ∈ results → rf_RevisionID f ∈ seen) →
  Zlength out ≤ rc_Limit request ∧ NoDup (map rf_RevisionID out) ∧
  ∃ new, out = results ++ new ∧ Forall (from_record request now records) new.
Proof.
  revert seen results. induction records as [|r records IH]; intros seen results; cbn [collect_references].
  { intros <-%Ok_inj Hlen Hnd _. split; [lia|]. split; [done|]. exists []. rewrite app_nil_r. split; [done|constructor]. }
  assert (Hskip : collect_references request now score known seen results records = Ok out →
    Zlength results < rc_Limit request → NoDup (map rf_RevisionID results) → (∀ f, f ∈ results → rf_RevisionID f ∈ seen) →
    Zlength out ≤ rc_Limit request ∧ NoDup (map rf_RevisionID out) ∧
    ∃ new, out = results ++ new ∧ Forall (from_record request now (r :: records)) new).
  { intros H Hlen Hnd Hseen. destruct (IH _ _ H Hlen Hnd Hseen) as (Hl & Hn & new & -> & Hall).
    split; [done|]. split; [done|]. exists new. split; [done|]. eapply Forall_impl; [exact Hall|]. apply from_record_more. }
  destruct (negb (known r) || bool_decide (rec_RevisionID r ∈ seen)) eqn:Hk; [exact Hskip|].
  apply orb_false_elim in Hk as [_ Hk]. apply bool_decide_eq_false in Hk.
  destruct (RecallRecord_Validate r request now) as [[]|err] eqn:Hv; [|destruct (skipStaleRecallError err); [exact Hskip|done]].
  intros (s & _ & H)%bind_Ok. destruct s as [s|]; [|by apply Hskip]. cbv zeta in H.
  set (f := recallReference r (RankRecall s (rec_CreatedAt r) now)) in *. intros Hlen Hnd Hseen.
  assert (Hf : from_record request now (r :: records) f) by (exists r, s; split; [apply list_elem_of_here | done]).
  assert (Hnd' : NoDup (map rf_RevisionID (results ++ [f]))).
  { rewrite map_app. apply NoDup_app. split; [done|]. split; [|apply NoDup_singleton].
    intros id (g & -> & Hg)%list_elem_of_fmap Hin. apply list_elem_of_singleton in Hin. apply Hk.
    change (rec_RevisionID r) with (rf_RevisionID f). rewrite <-Hin. by apply Hseen. }
  assert (Hlen' : Zlength (results ++ [f]) = Zlength results + 1) by (unfold Zlength; rewrite length_app; cbn; lia).
  destruct (Zlength (results ++ [f]) =? rc_Limit request) eqn:E.
  - apply Ok_inj in H as <-. apply Z.eqb_eq in E. split; [lia|]. split; [done|]. exists [f]. split; [done|]. by constructor.
  - apply Z.eqb_neq in E. destruct (IH _ _ H) as (Hl & Hn & new & -> & Hall); [lia|done| |].
    + intros g [Hg| ->%list_elem_of_singleton]%elem_of_app; [by apply list_elem_of_further, Hseen | apply list_elem_of_here].
    + split; [done|]. split; [done|]. exists (f :: new). rewrite <-app_assoc. split; [done|]. constructor; [exact Hf|].
      eapply Forall_impl; [exact Hall|]. apply from_record_more.
Qed.

(** ** What a recalled record satisfies *)
Definition valid_at (t : Temporal) (as_of : option Z) (now : Z) : Prop :=
  match as_of with
  | Some asOf => (∀ from, tp_ValidFrom t = Some from → from ≤ asOf) ∧ (∀ upto, tp_ValidUntil t = Some upto → asOf ≤ upto) ∧
      ∀ expires, tp_ExpiresAt t = Some expires → asOf < expires
  | None => ∀ expires, tp_ExpiresAt t = Some expires → now ≤ expires
  end.

Record recallable (request : RecallRequest) (now : Z) (r : RecallRecord) : Prop := {
  rca_scope : rec_Scope r = rc_Scope request;
  rca_active : rec_State r = RevisionStateActive;
  rca_kind k : rc_Kind request = Some k → rec_Kind r = k;
  rca_category c : rc_Category request = Some c → rec_Category r = Some c;
  rca_key : rc_MemoryKey request = "" ∨ rec_MemoryKey r = rc_MemoryKey request;
  rca_source : rc_SourceID request = "" ∨ rc_SourceID request ∈ rec_SourceIDs r;
  rca_session : rc_SessionID request = "" ∨ rc_SessionID request ∈ rec_SessionIDs r;
  rca_text : TrimSpace (rec_Text r) ≠ "";
  rca_standard : rec_Sensitivity r = SensitivityStandard;
  rca_seq : rc_MinScopeChangeSeq request ≤ rec_ScopeChangeSeq r;
  rca_evidence : rec_Evidence r ≠ [] ∧ Zlength (rec_Evidence r) ≤ MaxRecallEvidence ∧
    Forall (λ e, ev_SourceID e ∈ rec_SourceIDs r) (rec_Evidence r);
  rca_valid : valid_at (rec_Temporal r) (rc_AsOf request) now }.

Lemma check_validity_Ok t as_of now : check_validity t as_of now = Ok tt → valid_at t as_of now.
Proof.
  unfold check_validity, valid_at. cbv zeta. destruct as_of as [asOf|].
  - rewrite !bind_unit, !reject_if_Ok. intros (H1 & H2 & H3). split; [|split].
    + intros from E. rewrite E in H1. by apply Z.ltb_ge.
    + intros upto E. rewrite E in H2. by apply Z.ltb_ge.
    + intros expires E. rewrite E in H3. by apply negb_false_iff, Z.ltb_lt in H3.
  - rewrite reject_if_Ok. intros H expires E. rewrite E in H. by apply Z.ltb_ge.
Qed.

Lemma filter_passed (wanted : string) (b : bool) : negb (bool_decide (wanted = "")) && negb b = false → wanted = "" ∨ b = true.
Proof. destruct (decide (wanted = "")) as [->|Hne]; [by left|]. rewrite bool_decide_false by done. destruct b; [by right|done]. Qed.

Lemma RecallRecord_Validate_Ok r request now : RecallRecord_Validate r request now = Ok tt → recallable request now r.
Proof.
  unfold RecallRecord_Validate. cbv zeta. rewrite !bind_unit, !reject_if_Ok.
  intros (Hscope & Hid & _ & _ & _ & Hkind & Hcat & Hkey & Htext & _ & Hsens & _ & Hseq & _ & _ & _ & Hsource & Hsession & Hprov & Hlen & Hev & Hval).
  rewrite !orb_false_iff in Hid. rewrite !orb_false_iff in Htext. rewrite orb_false_iff in Hseq. rewrite orb_false_iff in Hprov.
  rewrite !negb_false_iff in Hid. apply negb_false_iff, bool_decide_eq_true in Hscope, Hsens.
  destruct Hid as [[[_ _] _] Hactive%bool_decide_eq_true]. destruct Htext as [[Htext%bool_decide_eq_false _] _].
  destruct Hseq as [_ Hseq%Z.ltb_ge]. destruct Hprov as [_ Hne%bool_decide_eq_false]. apply Z.ltb_ge in Hlen.
  apply filter_passed in Hkey, Hsource, Hsession. unfold containsString in *. rewrite bool_decide_eq_true in Hkey, Hsource, Hsession.
  split; try done.
  - intros k E. rewrite E in Hkind. by apply negb_false_iff, bool_decide_eq_true in Hkind.
  - intros c E. rewrite E in Hcat. by apply negb_false_iff, bool_decide_eq_true in Hcat.
  - split; [exact Hne|]. split; [exact Hlen|]. apply for_each_Ok in Hev. eapply Forall_impl; [exact Hev|].
    intros e (_ & He)%bind_unit. rewrite reject_if_Ok, orb_false_iff, negb_false_iff, !bool_decide_eq_true in He. apply He.
  - by apply check_validity_Ok.
Qed.

Lemma check_references_Ok request results seen :
  Forall (λ f, check_reference request f = Ok tt) results → NoDup (map rf_RevisionID results) →
  (∀ f, f ∈ results → rf_RevisionID f ∉ seen) → check_references request seen results = Ok tt.
Proof.
  revert seen. induction results as [|f results IH]; intros seen Hall Hnd Hseen; cbn [check_references]; [done|].
  apply Forall_cons in Hall as [Hf Hall]. cbn [map] in Hnd. apply NoDup_cons in Hnd as [Hnew Hnd].
  rewrite Hf, bind_ok, bool_decide_false by (apply Hseen, list_elem_of_here). rewrite reject_false.
  apply IH; [exact Hall|exact Hnd|]. intros g Hg [E|Hin]%elem_of_cons.
  - apply Hnew. rewrite <-E. apply list_elem_of_fmap. by exists g.
  - revert Hin. by apply Hseen, list_elem_of_further.
Qed.

Lemma from_record_reference request now records f : from_record request now records f → check_reference request f = Ok tt.
Proof.
  intros (r & s & _ & Hv%RecallRecord_Validate_Ok & ->). destruct Hv. unfold check_reference. apply reject_if_Ok.
  cbn [recallReference rf_SchemaVersion rf_Trust rf_Scope rf_State rf_Text]. rewrite !orb_false_iff, !negb_false_iff, !bool_decide_eq_true.
  repeat split; try done. apply bool_decide_eq_false. intros E. rewrite E in rca_text0. done.
Qed.

Lemma from_record_scored request now records f : from_record request now records f → scored f.
Proof. intros (r & s & _ & _ & ->). apply rank_scored. Qed.

(** A response built from hydrated records. *)
Definition answers (request : RecallRequest) (now : Z) (records : list RecallRecord) (rp : RecallResponse) : Prop :=
  RecallResponse_Validate rp request = Ok tt ∧ ranked (rp_Results rp) ∧
  Forall (λ f, ∃ r s, r ∈ records ∧ recallable request now r ∧ f = recallReference r (RankRecall s (rec_CreatedAt r) now))
    (rp_Results rp).

Lemma collected_answers request now score known records results currentSeq :
  1 ≤ rc_Limit request → collect_references request now score known [] [] records = Ok results →
  answers request now records (recallResponse (rc_Scope request) currentSeq (SortRecallReferences results)).
Proof.
  intros Hlim H. destruct (collect_references_spec _ _ _ _ _ _ _ _ H) as (Hlen & Hnd & new & Hnew & Hall).
  { unfold Zlength. cbn. lia. }
  { constructor. }
  { intros f Hf. by apply elem_of_nil in Hf. }
  cbn [app] in Hnew. subst new. pose proof (SliceStable_perm reference_less results) as Hperm.
  assert (Hall' : Forall (from_record request now records) (SortRecallReferences results)) by (by rewrite Hperm).
  split; [|split].
  - unfold RecallResponse_Validate. cbn [recallResponse rp_SchemaVersion rp_Trust rp_Scope rp_Results].
    rewrite !bool_decide_true by done. cbn [negb orb]. rewrite reject_false.
    assert (Hle : rc_Limit request <? Zlength (SortRecallReferences results) = false).
    { apply Z.ltb_ge. unfold Zlength in *. unfold SortRecallReferences. by rewrite (Permutation_length Hperm). }
    rewrite Hle, reject_false. apply check_references_Ok.
    + eapply Forall_impl; [exact Hall'|]. apply from_record_reference.
    + unfold SortRecallReferences. by rewrite Hperm.
    + intros f _. by apply not_elem_of_nil.
  - apply sorted_ranked. eapply Forall_impl; [exact Hall|]. apply from_record_scored.
  - eapply Forall_impl; [exact Hall'|]. intros f (r & s & Hr & Hv & ->). exists r, s. split; [exact Hr|].
    split; [by apply RecallRecord_Validate_Ok | reflexivity].
Qed.

Lemma normalized_limit range r r' : NormalizeRecallRequest range r = Ok r' → 1 ≤ rc_Limit r'.
Proof.
  unfold NormalizeRecallRequest. cbv zeta. intros (Hv & <-%Ok_inj)%bind_unit. unfold RecallRequest_Validate in Hv. cbv zeta in Hv.
  rewrite !bind_unit, !reject_if_Ok in Hv. destruct Hv as (_ & _ & _ & Hl & _). apply orb_false_elim in Hl as [Hl _].
  by apply Z.ltb_ge.
Qed.

(** ** Properties *)
Section recall.
  Context {St : Type}.

(** What a successful search did. *)
Lemma search_answers (s : option (RecallService St)) range ctx request now loaded hydrated rp :
    Search s range ctx request now loaded hydrated = Ok rp →
    ∃ canonical projection request' records,
      s = Some (mkRecallService (Some canonical) projection) ∧ NormalizeRecallRequest range request = Ok request' ∧
      CurrentScopeChangeSeq loaded (rc_Scope request') = Ok (rp_ScopeChangeSeq rp) ∧
      rc_MinScopeChangeSeq request' ≤ rp_ScopeChangeSeq rp ∧
      (records = [] ∨ SearchRecallTail hydrated request' (recallTailLimit (rc_Limit request')) = Ok records ∨
       ∃ ids, LoadRecallRecords hydrated (rc_Scope request') ids = Ok records) ∧
      answers request' now records rp.
  Proof using.
    destruct s as [[[canonical|] projection]|]; [|done..]. unfold Search. intros (_ & H)%reject_bind.
    apply bind_Ok in H as (request' & Hr & H). apply bind_Ok in H as (currentSeq & Hc & H).
    apply reject_bind in H as (Hmin%Z.ltb_ge & H). cbv zeta in H. pose proof (normalized_limit _ _ _ Hr) as Hlim.
    assert (Htail : (records ← SearchRecallTail hydrated request' (recallTailLimit (rc_Limit request'));
                     responseFromRecords request' records currentSeq now) = Ok rp →
      ∃ canonical0 projection0 request'0 records,
      Some (mkRecallService (Some canonical) projection) = Some (mkRecallService (Some canonical0) projection0) ∧
      Ok request' = Ok request'0 ∧ CurrentScopeChangeSeq loaded (rc_Scope request'0) = Ok (rp_ScopeChangeSeq rp) ∧
      rc_MinScopeChangeSeq request'0 ≤ rp_ScopeChangeSeq rp ∧
      (records = [] ∨ SearchRecallTail hydrated request'0 (recallTailLimit (rc_Limit request'0)) = Ok records ∨
       ∃ ids, LoadRecallRecords hydrated (rc_Scope request'0) ids = Ok records) ∧ answers request'0 now records rp).
    { intros (records & Hrec & Hb)%bind_Ok. unfold responseFromRecords in Hb. apply bind_Ok in Hb as (results & Hres & <-%Ok_inj).
      exists canonical, projection, request', records. do 3 (split; [done|]). split; [exact Hmin|].
      split; [right; by left|]. by apply (collected_answers _ _ _ _ _ _ _ Hlim Hres). }
    rewrite Hr. destruct projection as [search|]; [|by apply Htail].
    apply bind_Ok in H as (hits & _ & H). apply reject_bind in H as (_ & H).
    destruct (bool_decide (hits = [])); [by apply Htail|]. apply bind_Ok in H as ([ids byID] & _ & H).
    destruct (bool_decide (ids = [])).
    - apply Ok_inj in H as <-. exists canonical, (Some search), request', []. do 3 (split; [done|]). split; [exact Hmin|].
      split; [by left|]. change (recallResponse (rc_Scope request') currentSeq []) with
        (recallResponse (rc_Scope request') currentSeq (SortRecallReferences [])).
      by apply (collected_answers request' now (λ _, Ok None) (λ _, true) [] []).
    - apply bind_Ok in H as (records & Hrec & Hb). unfold responseFromProjection in Hb.
      apply bind_Ok in Hb as (results & Hres & <-%Ok_inj).
      exists canonical, (Some search), request', records. do 3 (split; [done|]). split; [exact Hmin|].
      split; [right; right; by exists ids|]. by apply (collected_answers _ _ _ _ _ _ _ Hlim Hres).
  Qed.

(** Recall answers the request from canonical records only: a response passes its own
    validation (scope, trust marker, limit, distinct revisions), is in rank order, is
    at the requested watermark, and each result is a record the canonical reader
    returned that is active, grounded, not sensitive, valid at the requested time
    and matches every filter. *)
Theorem recall_answers_request (s : option (RecallService St)) range ctx request now loaded hydrated rp :
    Search s range ctx request now loaded hydrated = Ok rp →
    ∃ canonical projection request' records,
      s = Some (mkRecallService (Some canonical) projection) ∧ NormalizeRecallRequest range request = Ok request' ∧
      CurrentScopeChangeSeq loaded (rc_Scope request') = Ok (rp_ScopeChangeSeq rp) ∧
      rc_MinScopeChangeSeq request' ≤ rp_ScopeChangeSeq rp ∧
      (records = [] ∨ SearchRecallTail hydrated request' (recallTailLimit (rc_Limit request')) = Ok records ∨
       ∃ ids, LoadRecallRecords hydrated (rc_Scope request') ids = Ok records) ∧
      answers request' now records rp.
Proof using. apply search_answers. Qed.
End recall.

(** ** Witness *)
Definition demo_recall_record : RecallRecord :=
  mkRecallRecord demo_scope "item1" "rev1" 1 MemoryKindState (Some "fact") None "" "" "" None [] "" "" "key1" "lives in Oslo"
    RevisionStateActive 1000000000 (mkTemporal 1000000000 None None None None "" "" "") SensitivityStandard RetentionClassStandard
    [mkEvidenceRef "src1" "msg1" MessageRoleUser 0 13 AssertionModeUser ""] ["src1"] [] [] 1.
Definition demo_fixed_reader : RecallCanonicalReader unit :=
  {| LoadRecallRecords _ _ _ := Ok [demo_recall_record];
     SearchRecallTail _ _ _ := Ok [demo_recall_record];
     CurrentScopeChangeSeq _ _ := Ok 1 |}.
Definition demo_recalling : RecallRequest := mkRecallRequest "" demo_scope " oslo " 0 None None None "" "" "" 1.
Definition demo_response : RecallResponse :=
  ok_or (mkRecallResponse "" "" demo_scope 0 [])
    (Search (Some (mkRecallService (Some demo_fixed_reader) None)) id (Some None) demo_recalling 2000000000 tt tt).

Lemma recall_answers_request_witness :
  map rf_Text (rp_Results demo_response) = ["lives in Oslo"] ∧
  ∃ request', NormalizeRecallRequest id demo_recalling = Ok request' ∧ RecallResponse_Validate demo_response request' = Ok tt.
Proof.
  split; [vm_compute; reflexivity|].
  destruct (recall_answers_request (Some (mkRecallService (Some demo_fixed_reader) None)) id (Some None) demo_recalling 2000000000
    tt tt demo_response) as (canonical & projection & request' & records & _ & Hr & _ & _ & _ & Hv & _).
  - apply is_ok_run. vm_compute. reflexivity.
  - by exists request'.
Defined.
