(* ===== verification/MemoryViews.v ===== *)
(** * MemoryViews: source records and compatibility metadata

    src/sessionmemory/ports.go and ports_validation.go (the source record) and
    canonical_compatibility.go (the payload of migrated memory). *)

From Stdlib Require Import ZArith Lia Ascii String.
From stdpp Require Import base numbers list gmap strings.
From S2P Require Import Prelude.
From S2P Require Import GoStrings.
From S2P Require Import GoNumeric.
From S2P Require Import MemoryTypes.
From S2P Require Import MemoryRecords.
From S2P Require Import MemoryDerived.
From S2P Require Import MemoryForget.
From S2P Require Import MemoryRecall.

Local Open Scope string_scope.
Local Open Scope list_scope.
Local Open Scope Z_scope.

(** ** Source records *)
Record SourceRecord := mkSourceRecord {
  src_SchemaVersion : string; src_Ref : SourceRef; src_State : string; src_Turn : option Turn;
  src_ForgottenAt : option Z }.

Definition sourceRefFromTurn (t : Turn) : SourceRef :=
  mkSourceRef (tn_Scope t) (tn_ExportID t) (ss_SessionID (tn_Session t)) (tn_SourceTurnID t).

Definition SourceRecord_Validate (s : SourceRecord) : result unit :=
  _ ← reject_if (negb (bool_decide (src_SchemaVersion s = DerivedSchemaVersionV1)))
        (invalidDerived "unsupported source record schema version");
  _ ← SourceRef_Validate (src_Ref s);
  _ ← SourceState_Validate (src_State s);
  if bool_decide (src_State s = SourceStateActive) then
    match src_Turn s with
    | None => Err (invalidDerived "active source requires its raw turn")
    | Some turn =>
        _ ← reject_if (bool_decide (is_Some (src_ForgottenAt s)))
              (invalidDerived "active source cannot have a forgotten timestamp");
        _ ← Turn_Validate turn;
        reject_if (negb (bool_decide (sourceRefFromTurn turn = src_Ref s)))
          (invalidDerived "source reference does not match its raw turn")
    end
  else if bool_decide (src_State s = SourceStateForgotten) then
    _ ← reject_if (bool_decide (is_Some (src_Turn s)))
          (invalidDerived "forgotten source cannot retain raw turn content");
    reject_if (match src_ForgottenAt s with None => true | Some at_ => at_ =? 0 end)
      (invalidDerived "forgotten source requires its forgotten timestamp")
  else Ok tt.

(** ** Compatibility metadata *)
Definition CanonicalCompatibilitySchemaVersion : string := "session-memory-canonical-compatibility/v1".

Record CanonicalCompatibilityPayload := mkCompatibility {
  cy_SchemaVersion : string; cy_Kind : string; cy_Category : option string; cy_TopicKey : string; cy_Title : string;
  cy_Text : string; cy_LegacyItemID : string; cy_LegacyRevisionID : string; cy_LegacyOperationID : string;
  cy_LegacyParents : list RevisionRef; cy_Supersedes : option RevisionRef }.

Definition CanonicalCompatibilityPayload_Validate (scope : Scope) (p : CanonicalCompatibilityPayload) : result unit :=
  _ ← reject_if (negb (bool_decide (cy_SchemaVersion p = CanonicalCompatibilitySchemaVersion)))
        (invalidDerived "canonical compatibility payload schema version is invalid");
  _ ← DerivedKind_Validate (cy_Kind p);
  _ ← Scope_Validate scope;
  _ ← reject_if (negb (isCanonicalID (cy_LegacyItemID p)) || negb (isCanonicalID (cy_LegacyRevisionID p)) ||
                 negb (isCanonicalID (cy_LegacyOperationID p)))
        (invalidDerived "canonical compatibility identity is invalid");
  _ ← validate_optional_ref (cy_Supersedes p);
  _ ← reject_if (MaxSourcesPerRevision <? Zlength (cy_LegacyParents p))
        (limitExceeded "canonical compatibility parent bound exceeded");
  _ ← for_each RevisionRef_Validate (cy_LegacyParents p);
  _ ← reject_if (bool_decide (cy_Text p = "")) (invalidDerived "canonical compatibility text is required");
  if bool_decide (cy_Kind p = DerivedKindAtom) then
    match cy_Category p with
    | None => Err (invalidDerived "canonical atom compatibility category is required")
    | Some c => AtomCategory_Validate c
    end
  else if bool_decide (cy_Kind p = DerivedKindScenario) then
    reject_if (bool_decide (is_Some (cy_Category p)) || bool_decide (cy_TopicKey p = "") || bool_decide (cy_Title p = ""))
      (invalidDerived "canonical scenario compatibility fields are invalid")
  else
    reject_if (bool_decide (is_Some (cy_Category p)) || negb (bool_decide (cy_TopicKey p = "")) ||
               negb (bool_decide (cy_Title p = "")))
      (invalidDerived "canonical profile compatibility fields are invalid").
