(* ===== verification/Actions.v ===== *)
(** * Actions: calls on a state that others change too

    A Go function that calls its ports one after the other, each of which may fail
    and may change the state behind the port, is an [action]: a function from a
    state to the state it leaves and its result.  A failed call keeps the state it
    left.  [spec] states what a run establishes; its rules follow the program. *)

From Stdlib Require Import ZArith Lia String.
From stdpp Require Import base numbers list.
From S2P Require Import Prelude.

Local Open Scope list_scope.

Definition action (W A : Type) : Type := W → W * result A.

#[export] Instance action_ret {W} : MRet (action W) := λ A a w, (w, Ok a).
#[export] Instance action_bind {W} : MBind (action W) := λ A B k m w,
  match m w with
  | (w, Ok a) => k a w
  | (w, Err e) => (w, Err e)
  end.

(** A computation that does not touch the state. *)
Definition lift {W A} (r : result A) : action W A := λ w, (w, r).

(** [v, err := m(); if err != nil { return failed }]: the caller's own answer to an error. *)
Definition attempt {W A B} (m : action W A) (failed : error → B) (k : A → W → W * B) (w : W) : W * B :=
  match m w with
  | (w, Ok a) => k a w
  | (w, Err e) => (w, failed e)
  end.

(** The loops of the prelude, over actions. *)
Fixpoint fold_action {W A S} (f : S → A → action W S) (s : S) (l : list A) : action W S :=
  match l with
  | [] => mret s
  | x :: l => s ← f s x; fold_action f s l
  end.

(** ** Specifications *)
Definition spec {W A} (P : W → Prop) (m : W → W * A) (Q : A → W → Prop) : Prop :=
  ∀ w, P w → Q (m w).2 (m w).1.

Section rules.
  Context {W A B : Type}.
  Implicit Types (P : W → Prop).

Lemma spec_weaken P P' (m : W → W * A) (Q Q' : A → W → Prop) :
    spec P m Q → (∀ w, P' w → P w) → (∀ a w, Q a w → Q' a w) → spec P' m Q'.
  Proof. intros H HP HQ w Hw. by apply HQ, H, HP. Qed.

Lemma spec_bind P (m : action W A) (k : A → action W B) (Q : result A → W → Prop) (R : result B → W → Prop) :
    spec P m Q → (∀ a, spec (Q (Ok a)) (k a) R) → (∀ e w, Q (Err e) w → R (Err e) w) → spec P (m ≫= k) R.
  Proof.
    intros Hm Hk He w Hw. specialize (Hm w Hw). unfold mbind, action_bind. destruct (m w) as [w' [a|e]]; [by apply Hk | by apply He].
  Qed.

Lemma spec_attempt P (m : action W A) (failed : error → B) (k : A → W → W * B) (Q : result A → W → Prop) (R : B → W → Prop) :
    spec P m Q → (∀ a, spec (Q (Ok a)) (k a) R) → (∀ e w, Q (Err e) w → R (failed e) w) → spec P (attempt m failed k) R.
  Proof.
    intros Hm Hk He w Hw. specialize (Hm w Hw). unfold attempt. destruct (m w) as [w' [a|e]]; [by apply Hk | by apply He].
  Qed.

Lemma spec_lift P (r : result A) (Q : result A → W → Prop) : (∀ w, P w → Q r w) → spec P (lift r) Q.
  Proof. intros H w Hw. by apply H. Qed.

(** A run from [w] that ends well went well step by step. *)
Lemma bind_run (m : action W A) (k : A → action W B) w w' b :
    (m ≫= k) w = (w', Ok b) ↔ ∃ w1 a, m w = (w1, Ok a) ∧ k a w1 = (w', Ok b).
  Proof.
    unfold mbind, action_bind. split.
    - destruct (m w) as [w1 [a|e]]; [|done]. intros H. by exists w1, a.
    - by intros (w1 & a & -> & H).
  Qed.

Lemma lift_run (r : result A) (w w' : W) a : lift r w = (w', Ok a) ↔ w' = w ∧ r = Ok a.
  Proof. unfold lift. split; [by intros [= -> ->] | by intros [-> ->]]. Qed.
End rules.
