(* ===== verification/ProjectionViews.v ===== *)
(** * ProjectionViews: bounded views of canonical state

    src/sessionmemory/projection_views.go: the request and view a materialised
    projection is rebuilt from, the builder that reads them page by page, and the
    recorder of scope checkpoints, against the ports they are written for.

    The state of the store behind a port is [St]; between two calls other writers
    may change it: [env n] is what they do before the [n]th call. *)

From Stdlib Require Import ZArith Lia String.
From stdpp Require Import base numbers list gmap strings.
From S2P Require Import Prelude.
From S2P Require Import GoStrings.
From S2P Require Import MemoryTypes.
From S2P Require Import MemoryRecords.
From S2P Require Import MemoryDerived.
From S2P Require Import MemoryCanonical.
From S2P Require Import MemoryProjection.
From S2P Require Import Actions.

Local Open Scope string_scope.
Local Open Scope list_scope.
Local Open Scope Z_scope.

Definition ProjectionViewSchemaVersion : string := "session-memory-projection-view/v1".
Definition defaultProjectionActiveLimit : Z := 128.
Definition defaultProjectionRecentLimit : Z := 64.
Definition defaultProjectionChangedLimit : Z := 64.

(** ** Data *)
Record ProjectionViewRequest := mkViewRequest {
  pv_Scope : Scope; pv_ActiveAfterItemID : string; pv_ActiveLimit : Z; pv_RecentAfter : Z; pv_RecentLimit : Z;
  pv_ChangedAfter : Z; pv_ChangedLimit : Z; pv_ActiveOnly : bool }.

Definition normalized (r : ProjectionViewRequest) : result ProjectionViewRequest :=
  _ ← Scope_Validate (pv_Scope r);
  _ ← reject_if (negb (bool_decide (pv_ActiveAfterItemID r = "")) && negb (isCanonicalID (pv_ActiveAfterItemID r)))
        (invalidDerived "projection active cursor is invalid");
  let active := if pv_ActiveLimit r =? 0 then defaultProjectionActiveLimit else pv_ActiveLimit r in
  let recent := if pv_ActiveOnly r then 0
                else if pv_RecentLimit r =? 0 then defaultProjectionRecentLimit else pv_RecentLimit r in
  let changed := if pv_ActiveOnly r then 0
                 else if pv_ChangedLimit r =? 0 then defaultProjectionChangedLimit else pv_ChangedLimit r in
  _ ← for_each (λ limit, reject_if (maxCanonicalReadRecords <? limit)
        (limitExceeded "projection view limit exceeds the canonical read bound")) [active; recent; changed];
  Ok (mkViewRequest (pv_Scope r) (pv_ActiveAfterItemID r) active (pv_RecentAfter r) recent (pv_ChangedAfter r) changed
        (pv_ActiveOnly r)).

Record ActiveProjectionRevision := mkActiveRevision { ar_Item : MemoryItem; ar_Revision : MemoryRevision }.

Record BoundedProjectionView := mkBoundedView {
  bv_SchemaVersion : string; bv_State : ScopeState; bv_Active : list ActiveProjectionRevision;
  bv_ActiveTruncated : bool; bv_Recent : list MemoryRevision; bv_Changed : list MemoryRevision }.

Definition check_active (scope : Scope) (a : ActiveProjectionRevision) : result unit :=
  _ ← MemoryItem_Validate (ar_Item a);
  _ ← reject_if (negb (bool_decide (mi_Scope (ar_Item a) = scope)) ||
                 negb (bool_decide (rv_ItemID (ar_Revision a) = mi_ItemID (ar_Item a))) ||
                 bool_decide (rv_RevisionID (ar_Revision a) = ""))
        (PermanentError CodeScopeViolation "projection active revision does not match the scope" None);
  MemoryRevision_Validate (ar_Revision a).

Fixpoint check_actives (scope : Scope) (seen : list string) (l : list ActiveProjectionRevision) : result unit :=
  match l with
  | [] => Ok tt
  | a :: l =>
      _ ← check_active scope a;
      _ ← reject_if (bool_decide (mi_ItemID (ar_Item a) ∈ seen))
            (invalidDerived "projection view contains duplicate active items");
      check_actives scope (mi_ItemID (ar_Item a) :: seen) l
  end.

Definition BoundedProjectionView_Validate (v : BoundedProjectionView) : result unit :=
  _ ← reject_if (negb (bool_decide (bv_SchemaVersion v = ProjectionViewSchemaVersion)))
        (invalidDerived "projection view schema version is invalid");
  _ ← ScopeState_Validate (bv_State v);
  _ ← reject_if ((maxCanonicalReadRecords <? Zlength (bv_Active v)) || (maxCanonicalReadRecords <? Zlength (bv_Recent v)) ||
                 (maxCanonicalReadRecords <? Zlength (bv_Changed v)))
        (limitExceeded "projection view exceeds the canonical read bound");
  _ ← check_actives (sst_Scope (bv_State v)) [] (bv_Active v);
  for_each MemoryRevision_Validate (bv_Recent v ++ bv_Changed v).

(** The distinct revisions of the changes, in the order of their first mention. *)
Definition uniqueRevisionIDs (changes : list ScopeChange) : list string :=
  fold_left (λ ids id, if bool_decide (id ∈ ids) then ids else ids ++ [id]) (concat (map ch_RevisionIDs changes)) [].

(** The slices of at most [maxCanonicalReadRecords] a read of many revisions is cut into. *)
Definition read_bound : nat := Z.to_nat maxCanonicalReadRecords.
Fixpoint batches (fuel : nat) (ids : list string) : list (list string) :=
  match fuel, ids with
  | _, [] | O, _ => []
  | S fuel, _ => take read_bound ids :: batches fuel (drop read_bound ids)
  end.

(** The slices are the list again. *)
Lemma concat_batches fuel ids : (length ids ≤ fuel)%nat → concat (batches fuel ids) = ids.
Proof.
  revert ids. induction fuel as [|fuel IH]; intros [|id ids] H; try done; [cbn in H; lia|].
  change (batches (S fuel) (id :: ids)) with (take read_bound (id :: ids) :: batches fuel (drop read_bound (id :: ids))).
  cbn [concat]. rewrite IH; [apply firstn_skipn|]. rewrite length_skipn. unfold read_bound, maxCanonicalReadRecords. cbn [length] in *. lia.
Qed.

(** ** The builder *)

(** What a loop reports when the bound of the model is used up. *)
Definition exhausted : error := ErrSentinel "loop bound exhausted".

(** The reading side of the canonical store; the retention floor is optional. *)
Record ProjectionSource (St : Type) := mkSource {
  pj_LoadScopeState : Scope → St → result ScopeState;
  pj_ScanActiveMemory : ActiveHeadScanRequest → St → result (list ActiveCanonicalMemory);
  pj_ScanScopeChanges : Scope → Z → Z → St → result (list ScopeChange);
  pj_LoadCanonicalRevisions : CanonicalRevisionReadRequest → St → result (list MemoryRevision);
  pj_LoadProjectionRetentionFloor : option (Scope → string → St → result Z) }.
Arguments pj_LoadScopeState {St}.
Arguments pj_ScanActiveMemory {St}.
Arguments pj_ScanScopeChanges {St}.
Arguments pj_LoadCanonicalRevisions {St}.
Arguments pj_LoadProjectionRetentionFloor {St}.

Section builder.
  Context {St W : Type} (canonical : ProjectionSource St) (read : ∀ A, (St → result A) → action W A).

Definition loadRevisionIDs (scope : Scope) (ids : list string) : action W (list MemoryRevision) :=
  fold_action (λ revisions batch,
    more ← read _ (pj_LoadCanonicalRevisions canonical (mkRevisionRead scope batch));
    mret (revisions ++ more)) [] (batches (length ids) ids).

Definition loadChanges (scope : Scope) (after limit : Z) : action W (list MemoryRevision) :=
  if limit =? 0 then mret []
  else
    changes ← read _ (pj_ScanScopeChanges canonical scope after limit);
    loadRevisionIDs scope (uniqueRevisionIDs changes).

(** A page joined with its revisions. *)
Definition join_page (page : list ActiveCanonicalMemory) (revisions : list MemoryRevision) :
    result (list ActiveProjectionRevision) :=
  let byID : gmap string MemoryRevision := foldl (λ m r, <[rv_RevisionID r := r]> m) ∅ revisions in
  for_fold (λ active item,
    match byID !! am_RevisionID item with
    | Some revision =>
        _ ← reject_if (negb (bool_decide (rv_ItemID revision = mi_ItemID (am_Item item))))
              (PermanentError CodeStoreFailure "canonical active revision is missing" None);
        Ok (active ++ [mkActiveRevision (am_Item item) revision])
    | None => Err (PermanentError CodeStoreFailure "canonical active revision is missing" None)
    end) [] page.

Definition check_page (scope : Scope) (page : list ActiveCanonicalMemory) : result unit :=
  for_each (λ item, reject_if (negb (bool_decide (mi_Scope (am_Item item) = scope)) || bool_decide (am_RevisionID item = ""))
    (PermanentError CodeScopeViolation "canonical active memory has the wrong scope" None)) page.

Definition last_item (page : list ActiveCanonicalMemory) (after : string) : string :=
  match last page with Some item => mi_ItemID (am_Item item) | None => after end.

(** The pages of [loadActive]. *)
Fixpoint active_pages (fuel : nat) (scope : Scope) (after : string) (limit : Z) (active : list ActiveProjectionRevision) :
    action W (list ActiveProjectionRevision) :=
  match fuel with
  | O => lift (Err exhausted)
  | S fuel =>
      if Zlength active <? limit then
        let pageLimit := Z.min (limit - Zlength active) maxCanonicalReadRecords in
        page ← read _ (pj_ScanActiveMemory canonical (mkActiveHeadScan scope after pageLimit));
        if bool_decide (page = []) then mret active
        else
          _ ← lift (check_page scope page);
          revisions ← loadRevisionIDs scope (map am_RevisionID page);
          more ← lift (join_page page revisions);
          let active := active ++ more in
          if Zlength page <? pageLimit then mret active
          else active_pages fuel scope (last_item page after) limit active
      else mret active
  end.

(** Two rounds are enough: after the first page the limit is reached or the page was short. *)
Definition loadActive (scope : Scope) (after : string) (limit : Z) : action W (list ActiveProjectionRevision * bool) :=
  active ← active_pages 2 scope after limit [];
  match last active with
  | None => mret (active, false)
  | Some final =>
      if Zlength active <? limit then mret (active, false)
      else
        probe ← read _ (pj_ScanActiveMemory canonical (mkActiveHeadScan scope (mi_ItemID (ar_Item final)) 1));
        mret (active, negb (bool_decide (probe = [])))
  end.

Definition Build (request : ProjectionViewRequest) : action W BoundedProjectionView :=
  request ← lift (normalized request);
  let scope := pv_Scope request in
  state ← read _ (pj_LoadScopeState canonical scope);
  _ ← lift (reject_if (negb (bool_decide (sst_Scope state = scope)))
        (PermanentError CodeScopeViolation "canonical scope state does not match the projection view" None));
  '(active, truncated) ← loadActive scope (pv_ActiveAfterItemID request) (pv_ActiveLimit request);
  let recentAfter :=
    if (pv_RecentAfter request =? 0) && (pv_RecentLimit request <? sst_ChangeSeq state)
    then sst_ChangeSeq state - pv_RecentLimit request else pv_RecentAfter request in
  recent ← loadChanges scope recentAfter (pv_RecentLimit request);
  changed ← loadChanges scope (pv_ChangedAfter request) (pv_ChangedLimit request);
  let view := mkBoundedView ProjectionViewSchemaVersion state active truncated recent changed in
  _ ← lift (BoundedProjectionView_Validate view);
  mret view.
End builder.

(** ** Scope checkpoints *)
Record ScopeCheckpointStore (St : Type) := mkCheckpointStore {
  cs_LoadScopeCheckpoint : Scope → string → St → result (option ScopeCheckpoint);
  cs_SaveScopeCheckpoint : ScopeCheckpoint → St → St * result unit }.
Arguments cs_LoadScopeCheckpoint {St}.
Arguments cs_SaveScopeCheckpoint {St}.

Section recorder.
  Context {St W : Type} (read : ∀ A, (St → result A) → action W A) (write : (St → St * result unit) → action W unit).

Definition NewScopeCheckpointRecorder (store : option (ScopeCheckpointStore St)) : result (ScopeCheckpointStore St) :=
  match store with Some s => Ok s | None => Err (ErrText "scope checkpoint store is required") end.

(** [None] is a nil recorder or store. *)
Definition Record_ (store : option (ScopeCheckpointStore St)) (checkpoint : ScopeCheckpoint) : action W unit :=
  match store with
  | None => lift (Err (ErrText "scope checkpoint recorder is required"))
  | Some store =>
      _ ← lift (ScopeCheckpoint_Validate checkpoint);
      found ← read _ (cs_LoadScopeCheckpoint store (ck_Scope checkpoint) (ck_Kind checkpoint));
      match found with
      | None => write (cs_SaveScopeCheckpoint store checkpoint)
      | Some prior =>
          _ ← lift (ScopeCheckpoint_Validate prior);
          _ ← lift (reject_if (negb (bool_decide (ck_Scope prior = ck_Scope checkpoint)) ||
                               negb (bool_decide (ck_Kind prior = ck_Kind checkpoint)))
                (PermanentError CodeScopeViolation "scope checkpoint ownership changed" None));
          _ ← lift (reject_if ((ck_ScopeVersion checkpoint <? ck_ScopeVersion prior) ||
                               (ck_ChangeSeq checkpoint <? ck_ChangeSeq prior) ||
                               (ck_OccurredAt checkpoint <? ck_OccurredAt prior))
                (PermanentError CodeConflict "scope checkpoint moved backwards" None));
          if (ck_ScopeVersion checkpoint =? ck_ScopeVersion prior) && (ck_ChangeSeq checkpoint =? ck_ChangeSeq prior) &&
             bool_decide (ck_CheckpointID checkpoint = ck_CheckpointID prior)
          then mret tt
          else write (cs_SaveScopeCheckpoint store checkpoint)
      end
  end.
End recorder.
