(* ===== verification/ProjectionSync.v ===== *)
(** * ProjectionSync: replaying canonical changes into a projection

    src/sessionmemory/projection.go and app/projection.go: the coordinator that
    rebuilds or advances one generation of a disposable projection.  The ports are
    records of functions; a [world] holds the store, the projection engine, the
    number of store calls made so far, and a history of the calls that succeeded,
    which no definition reads. *)

From Stdlib Require Import ZArith Lia String.
From stdpp Require Import base numbers list gmap strings.
From S2P Require Import Prelude.
From S2P Require Import GoStrings.
From S2P Require Import Sha256.
From S2P Require Import MemoryTypes.
From S2P Require Import MemoryRecords.
From S2P Require Import MemoryDerived.
From S2P Require Import MemoryCanonical.
From S2P Require Import MemoryProjection.
From S2P Require Import Actions.
From S2P Require Import ProjectionViews.

Local Open Scope string_scope.
Local Open Scope list_scope.
Local Open Scope Z_scope.

(** ** Ports *)
Record ProjectionCheckpointStore (St : Type) := mkManifestStore {
  ms_LoadProjectionManifest : Scope → string → string → St → result (option ProjectionManifest);
  ms_MarkProjectionDirty : ProjectionManifest → St → St * result unit;
  ms_AdvanceProjectionWatermark : ProjectionManifest → Z → Z → St → St * result unit;
  ms_ActivateProjectionGeneration : ProjectionManifest → Z → St → St * result unit }.
Arguments ms_LoadProjectionManifest {St}.
Arguments ms_MarkProjectionDirty {St}.
Arguments ms_AdvanceProjectionWatermark {St}.
Arguments ms_ActivateProjectionGeneration {St}.

Record ProjectionBatchRebuildApplier (Ap : Type) := mkBatchApplier {
  ba_BeginProjectionRebuild : Scope → string → Ap → Ap * result unit;
  ba_ApplyProjectionRebuildBatch : Scope → string → BoundedProjectionView → Ap → Ap * result unit;
  ba_EndProjectionRebuild : Scope → string → Ap → Ap * result unit }.
Arguments ba_BeginProjectionRebuild {Ap}.
Arguments ba_ApplyProjectionRebuildBatch {Ap}.
Arguments ba_EndProjectionRebuild {Ap}.

(** The projection engine; the last three fields are its optional extensions. *)
Record ProjectionApplier (Ap : Type) := mkApplier {
  ap_Apply : Scope → string → list ScopeChange → list MemoryRevision → Ap → Ap * result unit;
  ap_Commit : Scope → string → Ap → Ap * result unit;
  ap_Activate : option (Scope → string → Ap → Ap * result unit);
  ap_Rebuild : option (Scope → string → BoundedProjectionView → Ap → Ap * result unit);
  ap_Batch : option (ProjectionBatchRebuildApplier Ap) }.
Arguments ap_Apply {Ap}.
Arguments ap_Commit {Ap}.
Arguments ap_Activate {Ap}.
Arguments ap_Rebuild {Ap}.
Arguments ap_Batch {Ap}.

(** ** The world of one call *)
Inductive sync_event :=
  | Dirtied
  | Rebuilding
  | Rebuilt (view : BoundedProjectionView)
  | RebuildEnded
  | Applied (changes : list ScopeChange) (revisions : list MemoryRevision)
  | Committed
  | Advanced (watermark : Z)
  | Activated
  | Switched.

Record world (St Ap : Type) := mkWorld {
  w_store : St; w_applier : Ap; w_calls : nat; w_history : list sync_event }.
Arguments mkWorld {St Ap}.
Arguments w_store {St Ap}.
Arguments w_applier {St Ap}.
Arguments w_calls {St Ap}.
Arguments w_history {St Ap}.

Record ProjectionCoordinator (St Ap : Type) := mkCoordinator {
  pc_canonical : ProjectionSource St; pc_checkpoints : ProjectionCheckpointStore St;
  pc_applier : ProjectionApplier Ap; pc_batchSize : Z }.
Arguments mkCoordinator {St Ap}.
Arguments pc_canonical {St Ap}.
Arguments pc_checkpoints {St Ap}.
Arguments pc_applier {St Ap}.
Arguments pc_batchSize {St Ap}.

Definition NewProjectionCoordinator {St Ap} (canonical : option (ProjectionSource St))
    (checkpoints : option (ProjectionCheckpointStore St)) (applier : option (ProjectionApplier Ap)) (batchSize : Z) :
    result (ProjectionCoordinator St Ap) :=
  match canonical, checkpoints, applier with
  | Some canonical, Some checkpoints, Some applier =>
      _ ← reject_if ((batchSize =? 0) || (maxCanonicalReadRecords <? batchSize))
            (ErrText "projection batch size must be between 1 and 256");
      Ok (mkCoordinator canonical checkpoints applier batchSize)
  | _, _, _ => Err (ErrText "canonical store, projection checkpoints, and applier are required")
  end.

Section coordinator.
  Context {St Ap : Type}.

  (** [env n] is what other writers do before the [n]th store call, [clock n] the time of it. *)
  Context (env : nat → St → St) (clock : nat → Z).
  Context (c : ProjectionCoordinator St Ap).
  Notation W := (world St Ap).

Definition log (event : option sync_event) (r : result unit) (history : list sync_event) : list sync_event :=
  match event, r with Some e, Ok _ => history ++ [e] | _, _ => history end.

Definition read A (f : St → result A) : action W A := λ w,
  let st := env (w_calls w) (w_store w) in
  (mkWorld st (w_applier w) (S (w_calls w)) (w_history w), f st).

Definition write (event : option sync_event) (f : St → St * result unit) : action W unit := λ w,
  let st := env (w_calls w) (w_store w) in
  let '(st, r) := f st in
  (mkWorld st (w_applier w) (S (w_calls w)) (log event r (w_history w)), r).

Definition engine (event : option sync_event) (f : Ap → Ap * result unit) : action W unit := λ w,
  let '(ap, r) := f (w_applier w) in
  (mkWorld (w_store w) ap (w_calls w) (log event r (w_history w)), r).

Definition currentTime : action W Z := λ w, (w, Ok (clock (w_calls w))).

(** *** Rebuilding *)
Fixpoint rebuild_batches (fuel : nat) (scope : Scope) (generationID after : string)
    (rebuilder : ProjectionBatchRebuildApplier Ap) : action W Z :=
  match fuel with
  | O => lift (Err exhausted)
  | S fuel =>
      view ← Build (pc_canonical c) read (mkViewRequest scope after (pc_batchSize c) 0 0 0 0 true);
      _ ← engine (Some (Rebuilt view)) (ba_ApplyProjectionRebuildBatch rebuilder scope generationID view);
      match last (bv_Active view) with
      | None => mret (sst_ChangeSeq (bv_State view))
      | Some final =>
          if bv_ActiveTruncated view
          then rebuild_batches fuel scope generationID (mi_ItemID (ar_Item final)) rebuilder
          else mret (sst_ChangeSeq (bv_State view))
      end
  end.

Definition rebuildFromCanonical (fuel : nat) (scope : Scope) (generationID : string) : action W Z :=
  match ap_Batch (pc_applier c) with
  | Some rebuilder =>
      _ ← engine (Some Rebuilding) (ba_BeginProjectionRebuild rebuilder scope generationID);
      watermark ← rebuild_batches fuel scope generationID "" rebuilder;
      _ ← engine (Some RebuildEnded) (ba_EndProjectionRebuild rebuilder scope generationID);
      mret watermark
  | None =>
      match ap_Rebuild (pc_applier c) with
      | None => lift (Err (PermanentError CodeConflict
                  "projection watermark is below the retention floor and requires a rebuild" None))
      | Some rebuild =>
          view ← Build (pc_canonical c) read (mkViewRequest scope "" maxCanonicalReadRecords 0 0 0 0 false);
          _ ← lift (reject_if (bv_ActiveTruncated view)
                (PermanentError CodeLimitExceeded "projection rebuild requires a batch-capable applier" None));
          _ ← engine (Some (Rebuilt view)) (rebuild scope generationID view);
          mret (sst_ChangeSeq (bv_State view))
      end
  end.

(** *** Sync *)
Definition commit_to (scope : Scope) (generationID : string) (manifest : ProjectionManifest) (watermark : Z) : action W unit :=
  _ ← engine (Some Committed) (ap_Commit (pc_applier c) scope generationID);
  now ← currentTime;
  write (Some (Advanced watermark)) (ms_AdvanceProjectionWatermark (pc_checkpoints c) manifest watermark now).

(** The rebuild a retention floor above the watermark asks for; the new watermark. *)
Definition raise_to_floor (fuel : nat) (scope : Scope) (projectionID generationID : string) (manifest : ProjectionManifest) :
    action W ProjectionManifest :=
  match pj_LoadProjectionRetentionFloor (pc_canonical c) with
  | None => mret manifest
  | Some load_floor =>
      floor ← read _ (load_floor scope projectionID);
      if pm_Watermark manifest <? floor then
        watermark ← rebuildFromCanonical fuel scope generationID;
        _ ← lift (reject_if (watermark <? floor)
              (PermanentError CodeStoreFailure "projection retention floor is ahead of canonical state" None));
        _ ← commit_to scope generationID manifest watermark;
        mret (with_watermark manifest watermark)
      else mret manifest
  end.

(** The loop: the manifest it ends with, whether anything was applied, and how it ended. *)
Fixpoint replay (fuel : nat) (scope : Scope) (generationID : string) (manifest : ProjectionManifest) (applied : bool) (w : W) :
    W * (ProjectionManifest * result bool) :=
  match fuel with
  | O => (w, (manifest, Err exhausted))
  | S fuel =>
      attempt (read _ (pj_ScanScopeChanges (pc_canonical c) scope (pm_Watermark manifest) (pc_batchSize c)))
        (λ err, (manifest, Err err)) (λ changes,
      match last changes with
      | None => λ w, (w, (manifest, Ok applied))
      | Some final =>
          attempt
            (revisions ← loadRevisionIDs (pc_canonical c) read scope (uniqueRevisionIDs changes);
             _ ← engine (Some (Applied changes revisions)) (ap_Apply (pc_applier c) scope generationID changes revisions);
             commit_to scope generationID manifest (ch_Sequence final))
            (λ err, (manifest, Err err)) (λ _,
          replay fuel scope generationID (with_watermark manifest (ch_Sequence final)) true)
      end) w
  end.

Definition manifest0 : ProjectionManifest := mkManifest (mkScope "" "") "" "" "" 0 0.

(** Commit when the loop did not, then activate. *)
Definition finish (scope : Scope) (generationID : string) (manifest : ProjectionManifest) (applied : bool) :
    action W unit :=
  _ ← (if applied then mret tt else engine (Some Committed) (ap_Commit (pc_applier c) scope generationID));
  now ← currentTime;
  _ ← write (Some Activated) (ms_ActivateProjectionGeneration (pc_checkpoints c) manifest now);
  match ap_Activate (pc_applier c) with
  | None => mret tt
  | Some activate => engine (Some Switched) (activate scope generationID)
  end.

Definition prepare_manifest (scope : Scope) (projectionID generationID : string) : action W ProjectionManifest :=
  _ ← lift (match Scope_Validate scope with
            | Err err => Err (PermanentError CodePermanent "projection sync scope is invalid" (Some err))
            | Ok _ => Ok tt
            end);
  _ ← lift (reject_if (negb (isCanonicalID projectionID) || negb (isCanonicalID generationID))
        (PermanentError CodePermanent "projection sync identity is invalid" None));
  found ← read _ (ms_LoadProjectionManifest (pc_checkpoints c) scope projectionID generationID);
  now ← currentTime;
  let fresh := mkManifest scope projectionID generationID ProjectionGenerationBuilding 0 now in
  let manifest := match found with
                  | Some m => if bool_decide (pm_GenerationID m = generationID) then m else fresh
                  | None => fresh
                  end in
  _ ← write (Some Dirtied) (ms_MarkProjectionDirty (pc_checkpoints c) manifest);
  mret (with_status manifest ProjectionGenerationDirty).

(** [fuel] bounds the two loops. *)
Definition Sync (fuel : nat) (scope : Scope) (projectionID generationID : string) (w : W) :
    W * (ProjectionManifest * result unit) :=
  attempt (prepare_manifest scope projectionID generationID) (λ err, (manifest0, Err err)) (λ manifest,
  attempt (raise_to_floor fuel scope projectionID generationID manifest) (λ err, (manifest, Err err)) (λ manifest w,
    let '(w, (manifest, r)) := replay fuel scope generationID manifest false w in
    match r with
    | Err err => (w, (manifest, Err err))
    | Ok applied =>
        attempt (finish scope generationID manifest applied) (λ err, (manifest, Err err))
          (λ _ w, (w, (with_status manifest ProjectionGenerationActive, Ok tt))) w
    end)) w.
End coordinator.
