(* ===== verification/BadgerKeys.v ===== *)
(** * BadgerKeys: the key space of the canonical store

    Models src/sessionmemory/store/badger/badger_session_memory_keys.go and the key
    part of badger_session_memory_logical.go: every record lives under a tuple key
    of its record type, its exact scope and its identities; a logical export
    takes keys apart again. *)

From Stdlib Require Import ZArith Lia Ascii String.
From stdpp Require Import base numbers list strings.
From S2P Require Import Prelude.
From S2P Require Import GoStrings.
From S2P Require Import MemoryTypes.
From S2P Require Import MemoryRecords.

Local Open Scope string_scope.
Local Open Scope list_scope.
Local Open Scope Z_scope.

Definition badgerSessionMemoryNamespace : Z := 0x53.
Definition badgerSessionMemoryVersion : Z := 1.

Definition badgerRecordScope : string := "scope".
Definition badgerRecordOperation : string := "operation".
Definition badgerRecordSource : string := "source".
Definition badgerRecordMessage : string := "message".
Definition badgerRecordItem : string := "item".
Definition badgerRecordRevision : string := "revision".
Definition badgerRecordLifecycle : string := "lifecycle".
Definition badgerRecordHead : string := "head".
Definition badgerRecordChange : string := "change".
Definition badgerRecordDelivery : string := "delivery".
Definition badgerRecordDeliveryClaim : string := "delivery-claim".
Definition badgerRecordPayload : string := "payload".
Definition badgerRecordProvenanceForward : string := "provenance-forward".
Definition badgerRecordProvenanceReverse : string := "provenance-reverse".
Definition badgerRecordSourceRevision : string := "source-revision".
Definition badgerRecordDeniedSource : string := "denied-source".
Definition badgerRecordDeniedRevision : string := "denied-revision".
Definition badgerRecordProjectionManifest : string := "projection-manifest".
Definition badgerRecordProjectionActive : string := "projection-active".
Definition badgerRecordProjectionRetention : string := "projection-retention".
Definition badgerRecordProjectionCheckpoint : string := "projection-checkpoint".
Definition badgerRecordForgetOutcome : string := "forget-outcome".

Definition NUL_byte : ascii := "000"%char.

(** The common shape: the scope is validated, then the tuple is built. *)
Definition scoped_key (scope : Scope) (recordType : string) (ids : list string) : result string :=
  _ ← Scope_Validate scope;
  TupleKey badgerSessionMemoryNamespace badgerSessionMemoryVersion
    (recordType :: sc_Key scope :: sc_Kind scope :: ids).

Definition badgerScopeKey (scope : Scope) : result string := scoped_key scope badgerRecordScope [].
Definition badgerProvenanceKey (scope : Scope) (recordType revisionID relatedRevisionID : string) : result string :=
  scoped_key scope recordType [revisionID; relatedRevisionID].
Definition badgerProvenancePrefix (scope : Scope) (recordType revisionID : string) : result string :=
  scoped_key scope recordType [revisionID].
Definition badgerSessionMemoryKey (scope : Scope) (recordType id : string) : result string :=
  scoped_key scope recordType [id].
Definition badgerOperationKey (scope : Scope) (operationID : string) : result string :=
  _ ← Scope_Validate scope;
  badgerSessionMemoryKey scope badgerRecordOperation operationID.
Definition badgerForgetOutcomeKey (scope : Scope) (kind operationID : string) : result string :=
  badgerSessionMemoryKey scope badgerRecordForgetOutcome (kind +:+ String NUL_byte operationID).
Definition badgerProjectionManifestKey (scope : Scope) (projectionID generationID : string) : result string :=
  scoped_key scope badgerRecordProjectionManifest [projectionID; generationID].
Definition badgerProjectionRetentionKey (scope : Scope) (projectionID : string) : result string :=
  badgerSessionMemoryKey scope badgerRecordProjectionRetention projectionID.
Definition badgerProjectionCheckpointKey (scope : Scope) (kind : string) : result string :=
  badgerSessionMemoryKey scope badgerRecordProjectionCheckpoint kind.
Definition badgerSessionMemoryPrefix (scope : Scope) (recordType : string) : result string :=
  scoped_key scope recordType [].
Definition badgerScopeChangePrefix (scope : Scope) : result string := scoped_key scope badgerRecordChange [].
(** Eight big-endian bytes after the prefix. *)
Definition badgerScopeChangeKey (scope : Scope) (sequence : Z) : result string :=
  prefix ← badgerScopeChangePrefix scope;
  Ok (prefix +:+ be_bytes 8 sequence).

(** [payloadScope()] of canonical_reader.go, written out in the store. *)
Definition payloadScope : Scope := mkScope "internal:payload" ScopeKindPersonal.

(** ** Logical keys *)
Definition isExportableCanonicalRecordType (recordType : string) : bool :=
  negb (bool_decide (recordType = badgerRecordProjectionManifest)) &&
  negb (bool_decide (recordType = badgerRecordProjectionActive)) &&
  negb (bool_decide (recordType = badgerRecordProjectionRetention)) &&
  negb (bool_decide (recordType = badgerRecordProjectionCheckpoint)).

(** (number of components, whether a suffix follows) *)
Definition canonicalLogicalComponentCount (recordType : string) : nat * bool :=
  if bool_decide (recordType ∈ [badgerRecordScope; badgerRecordChange])
  then (3%nat, bool_decide (recordType = badgerRecordChange))
  else if bool_decide (recordType ∈ [badgerRecordProvenanceForward; badgerRecordProvenanceReverse;
         badgerRecordSourceRevision; badgerRecordProjectionManifest])
  then (5%nat, false)
  else if bool_decide (recordType ∈ [badgerRecordOperation; badgerRecordSource; badgerRecordMessage;
         badgerRecordItem; badgerRecordRevision; badgerRecordLifecycle; badgerRecordHead;
         badgerRecordDelivery; badgerRecordDeliveryClaim; badgerRecordPayload; badgerRecordDeniedSource;
         badgerRecordDeniedRevision; badgerRecordProjectionActive; badgerRecordProjectionRetention;
         badgerRecordProjectionCheckpoint])
  then (4%nat, false)
  else (0%nat, false).

Definition malformed_tuple : error := PermanentError CodeStoreFailure "canonical tuple key is malformed" None.

(** The loop of [decodeCanonicalTupleComponents] over at most five components;
    it returns the bytes after the components instead of their offset. *)
Fixpoint decode_components (rounds : nat) (components : list string) (encoded : string) :
    result (list string * string) :=
  match rounds with
  | O => Err malformed_tuple
  | S rounds =>
      _ ← reject_if (len encoded <? 2) malformed_tuple;
      let length := be_value (take_bytes 2 encoded) in
      let rest := drop_bytes 2 encoded in
      _ ← reject_if (len rest <? length) malformed_tuple;
      let components := components ++ [take_bytes (Z.to_nat length) rest] in
      let rest := drop_bytes (Z.to_nat length) rest in
      let want := (canonicalLogicalComponentCount (List.hd "" components)).1 in
      if (0 <? want)%nat && (List.length components =? want)%nat then Ok (components, rest)
      else decode_components rounds components rest
  end.
Definition decodeCanonicalTupleComponents (encoded : string) : result (list string * string) :=
  decode_components 5 [] encoded.

Definition decodeCanonicalLogicalKey (key : string) : result (list string * string) :=
  match key with
  | String ns (String v encoded) =>
      _ ← reject_if (negb (byte_of ns =? badgerSessionMemoryNamespace) ||
                     negb (byte_of v =? badgerSessionMemoryVersion))
            (PermanentError CodeStoreFailure "canonical key namespace is invalid" None);
      '(components, suffix) ← decodeCanonicalTupleComponents encoded;
      let recordType := List.hd "" components in
      let '(want, _) := canonicalLogicalComponentCount recordType in
      _ ← reject_if (negb (List.length components =? want)%nat)
            (PermanentError CodeStoreFailure "canonical key component count is invalid" None);
      _ ← (if bool_decide (recordType = badgerRecordChange)
           then reject_if (negb (len suffix =? 8))
                  (PermanentError CodeStoreFailure "canonical change key suffix is invalid" None)
           else reject_if (negb (len suffix =? 0))
                  (PermanentError CodeStoreFailure "canonical key has an unexpected suffix" None));
      Ok (components, suffix)
  | _ => Err (PermanentError CodeStoreFailure "canonical key namespace is invalid" None)
  end.

Definition encodeCanonicalLogicalKey (components : list string) (suffix : string) : result string :=
  _ ← reject_if ((List.length components =? 0)%nat ||
                 negb (isExportableCanonicalRecordType (List.hd "" components)))
        (PermanentError CodeInvalidDerived "canonical logical key record type is invalid" None);
  let '(want, hasSuffix) := canonicalLogicalComponentCount (List.hd "" components) in
  _ ← reject_if (negb (List.length components =? want)%nat || (hasSuffix && negb (len suffix =? 8)) ||
                 (negb hasSuffix && negb (len suffix =? 0)))
        (PermanentError CodeInvalidDerived "canonical logical key components are invalid" None);
  key ← TupleKey badgerSessionMemoryNamespace badgerSessionMemoryVersion components;
  Ok (key +:+ suffix).

(** ** Keys determine what they name *)
Lemma scoped_key_Ok scope ty ids k :
  scoped_key scope ty ids = Ok k ↔
  Scope_Validate scope = Ok tt ∧
  Forall (λ c, isCanonicalID c = true ∧ len c ≤ 65535) (ty :: sc_Key scope :: sc_Kind scope :: ids) ∧
  k = String (char_of badgerSessionMemoryNamespace) (String (char_of badgerSessionMemoryVersion)
        (framed_all 2 (ty :: sc_Key scope :: sc_Kind scope :: ids))).
Proof. unfold scoped_key. rewrite bind_unit, TupleKey_Ok. tauto. Qed.

Lemma String_tail a b s t : String a s = String b t → s = t.
Proof. by intros [= _ ->]. Qed.

Lemma scoped_key_prefix scope ty ids k scope' ty' ids' k' t :
  scoped_key scope ty ids = Ok k → scoped_key scope' ty' ids' = Ok k' → k' = k +:+ t →
  scope' = scope ∧ ty' = ty ∧ ∃ es, ids' = ids ++ es ∧ t = framed_all 2 es.
Proof.
  intros (_ & H1 & ->)%scoped_key_Ok (_ & H2 & ->)%scoped_key_Ok H.
  rewrite !append_cons in H. apply String_tail, String_tail in H.
  apply framed_prefix in H as (es & Heq & ->); [|by apply tuple_fits|by apply tuple_fits].
  cbn [app] in Heq. injection Heq as -> Hk Hkind ->. destruct scope, scope'. cbn in Hk, Hkind. subst.
  split; [done|]. split; [done|]. by exists es.
Qed.

Lemma scoped_key_inj scope ty ids scope' ty' ids' k :
  scoped_key scope ty ids = Ok k → scoped_key scope' ty' ids' = Ok k →
  scope' = scope ∧ ty' = ty ∧ ids' = ids.
Proof.
  intros H1 H2. destruct (scoped_key_prefix _ _ _ _ _ _ _ _ "" H1 H2) as (-> & -> & es & -> & He).
  { by rewrite append_nil_r. }
  split; [done|]. split; [done|]. destruct es as [|e es]; [by rewrite app_nil_r|].
  cbn [framed_all] in He. symmetry in He. by apply framed_nonempty in He; [|lia].
Qed.

(** The record of a scope at a change sequence number; change keys carry eight raw
    bytes after their tuple. *)
Lemma badgerScopeChangeKey_Ok scope n k :
  badgerScopeChangeKey scope n = Ok k ↔
  ∃ prefix, badgerScopeChangePrefix scope = Ok prefix ∧ k = prefix +:+ be_bytes 8 n.
Proof.
  unfold badgerScopeChangeKey. rewrite bind_Ok. split.
  - intros (p & Hp & H%Ok_inj). exists p. by subst.
  - intros (p & Hp & ->). exists p. by split.
Qed.

Lemma change_key_inj scope n scope' n' k :
  badgerScopeChangeKey scope n = Ok k → badgerScopeChangeKey scope' n' = Ok k →
  is_u64 n → is_u64 n' → scope' = scope ∧ n' = n.
Proof.
  rewrite !badgerScopeChangeKey_Ok. intros (p & Hp & ->) (p' & Hp' & Heq) Hn Hn'.
  assert (Hpp : p = p' ∧ be_bytes 8 n = be_bytes 8 n').
  { unfold badgerScopeChangePrefix in *.
    apply scoped_key_Ok in Hp as (_ & H1 & ->). apply scoped_key_Ok in Hp' as (_ & H2 & ->).
    rewrite !append_cons in Heq. apply String_tail, String_tail in Heq.
    apply framed_all_app_inj in Heq as [-> ->]; [done|done|by apply tuple_fits|by apply tuple_fits]. }
  destruct Hpp as [-> Hb]. destruct (scoped_key_inj _ _ _ _ _ _ _ Hp Hp') as (-> & _).
  split; [done|]. apply be_bytes_inj in Hb; [done|..]; unfold is_u64 in *; cbn; lia.
Qed.

(** A change key is no other record's key. *)
Lemma change_key_not_scoped scope n scope' ty ids k :
  badgerScopeChangeKey scope n = Ok k → scoped_key scope' ty ids = Ok k → ty = badgerRecordChange.
Proof.
  rewrite badgerScopeChangeKey_Ok. intros (p & Hp & ->) H. unfold badgerScopeChangePrefix in Hp.
  by destruct (scoped_key_prefix _ _ _ _ _ _ _ _ (be_bytes 8 n) Hp H) as (_ & -> & _).
Qed.

(** ** Logical keys *)
Lemma decode_one rounds components c t :
  len c ≤ 65535 →
  decode_components (S rounds) components (framed 2 c +:+ t) =
    let components := components ++ [c] in
    let want := (canonicalLogicalComponentCount (List.hd "" components)).1 in
    if (0 <? want)%nat && (List.length components =? want)%nat then Ok (components, t)
    else decode_components rounds components t.
Proof.
  intros Hc. unfold framed. cbn [decode_components]. rewrite append_assoc.
  assert (Htake : take_bytes 2 (be_bytes 2 (len c) +:+ (c +:+ t)) = be_bytes 2 (len c)).
  { rewrite <-(length_be_bytes 2 (len c)) at 1. apply take_append. }
  assert (Hdrop : drop_bytes 2 (be_bytes 2 (len c) +:+ (c +:+ t)) = c +:+ t).
  { rewrite <-(length_be_bytes 2 (len c)) at 1. apply drop_append. }
  assert (Hval : be_value (be_bytes 2 (len c)) = len c).
  { rewrite be_value_be_bytes. apply Z.mod_small. pose proof (len_nonneg c). cbn. lia. }
  assert (H2 : (len (be_bytes 2 (len c) +:+ (c +:+ t)) <? 2) = false).
  { apply Z.ltb_ge. unfold len. rewrite length_append, length_be_bytes. lia. }
  assert (H3 : (len (c +:+ t) <? len c) = false).
  { apply Z.ltb_ge. unfold len. rewrite length_append. lia. }
  rewrite H2, Htake, Hdrop, Hval, H3.
  assert (Hn : Z.to_nat (len c) = String.length c) by (unfold len; lia).
  rewrite Hn, take_append, drop_append. reflexivity.
Qed.

Lemma decode_components_framed rounds acc cs t :
  cs ≠ [] → (length cs ≤ rounds)%nat →
  (canonicalLogicalComponentCount (List.hd "" (acc ++ cs))).1 = length (acc ++ cs) →
  Forall (λ c, len c ≤ 65535) cs →
  decode_components rounds acc (framed_all 2 cs +:+ t) = Ok (acc ++ cs, t).
Proof.
  revert rounds acc. induction cs as [|c cs IH]; [done|]. intros [|rounds] acc _ Hr Hw Hl; cbn [length] in Hr; [lia|].
  apply Forall_cons in Hl as [Hc Hl]. cbn [framed_all]. rewrite append_assoc, decode_one by exact Hc. cbv zeta.
  assert (Hhd : List.hd "" (acc ++ [c]) = List.hd "" (acc ++ c :: cs)) by (by destruct acc).
  rewrite Hhd, Hw. destruct cs as [|c' cs].
  - assert (Ht : ((0 <? length (acc ++ [c])) && (length (acc ++ [c]) =? length (acc ++ [c])))%nat = true).
    { rewrite Nat.eqb_refl, andb_true_r, length_app. apply Nat.ltb_lt. cbn. lia. }
    rewrite Ht. reflexivity.
  - assert (Hf : (length (acc ++ [c]) =? length (acc ++ c :: c' :: cs))%nat = false).
    { apply Nat.eqb_neq. rewrite !length_app. cbn. lia. }
    rewrite Hf, andb_false_r.
    assert (Happ : acc ++ c :: c' :: cs = (acc ++ [c]) ++ c' :: cs) by (rewrite <-app_assoc; reflexivity).
    rewrite Happ in Hw |- *. apply IH; [done | cbn in *; lia | exact Hw | exact Hl].
Qed.

Lemma count_bounds ty : ((canonicalLogicalComponentCount ty).1 ≤ 5)%nat.
Proof. unfold canonicalLogicalComponentCount. repeat case_bool_decide; cbn; lia. Qed.

Lemma count_suffix ty : (canonicalLogicalComponentCount ty).2 = bool_decide (ty = badgerRecordChange).
Proof.
  unfold canonicalLogicalComponentCount. case_bool_decide as H1; [reflexivity|].
  rewrite (bool_decide_false (ty = badgerRecordChange)) by (intros ->; apply H1, list_elem_of_further, list_elem_of_here).
  by repeat case_bool_decide.
Qed.

(** ** Properties *)

(** A logical export reads back the keys it can build: taking apart the key built
    from exportable components and a suffix gives exactly these components and
    this suffix. *)
Theorem logical_key_round_trip components suffix key :
  encodeCanonicalLogicalKey components suffix = Ok key →
  decodeCanonicalLogicalKey key = Ok (components, suffix).
Proof.
  unfold encodeCanonicalLogicalKey. intros (H0 & H)%reject_bind.
  apply orb_false_iff in H0 as [Hne _]. apply Nat.eqb_neq in Hne.
  destruct (canonicalLogicalComponentCount (List.hd "" components)) as [want hasSuffix] eqn:Hc.
  apply reject_bind in H as (H1 & H). apply bind_Ok in H as (k & Hk & H%Ok_inj). subst key.
  rewrite !orb_false_iff, negb_false_iff, Nat.eqb_eq in H1. destruct H1 as [[Hw Hs1] Hs2].
  apply TupleKey_Ok in Hk as (Hall & ->).
  rewrite !append_cons. cbn [decodeCanonicalLogicalKey]. unfold decodeCanonicalTupleComponents.
  change (negb (byte_of (char_of badgerSessionMemoryNamespace) =? badgerSessionMemoryNamespace) ||
    negb (byte_of (char_of badgerSessionMemoryVersion) =? badgerSessionMemoryVersion)) with false.
  rewrite reject_false.
  assert (Hdec : decode_components 5 [] (framed_all 2 components +:+ suffix) = Ok (components, suffix)).
  { apply (decode_components_framed 5 []); [by destruct components| | |].
    - rewrite Hw. pose proof (count_bounds (List.hd "" components)) as Hb. rewrite Hc in Hb. exact Hb.
    - cbn [app]. rewrite Hc. by symmetry.
    - eapply Forall_impl; [exact Hall|]. intros c [_ Hl]. exact Hl. }
  rewrite Hdec, bind_ok. cbv beta iota. rewrite Hc, Hw, Nat.eqb_refl.
  pose proof (count_suffix (List.hd "" components)) as Hsuf. rewrite Hc in Hsuf. cbn [snd] in Hsuf. rewrite <-Hsuf.
  destruct hasSuffix; cbn [negb andb] in Hs1, Hs2 |- *.
  - apply negb_false_iff in Hs1. rewrite Hs1. reflexivity.
  - apply negb_false_iff in Hs2. rewrite Hs2. reflexivity.
Qed.

(** A finding: the logical export cannot read the key of a forget outcome. Such
    records are written by every committed forget, but their record type has no
    component count, so taking their key apart fails, and with it the export of
    the whole store. *)
Theorem forget_outcome_key_unreadable scope kind operationID key :
  badgerForgetOutcomeKey scope kind operationID = Ok key → is_ok (decodeCanonicalLogicalKey key) = false.
Proof.
  unfold badgerForgetOutcomeKey, badgerSessionMemoryKey. intros (_ & Hall & ->)%scoped_key_Ok.
  set (id := kind +:+ String NUL_byte operationID) in *.
  assert (Hl : Forall (λ c, len c ≤ 65535) [badgerRecordForgetOutcome; sc_Key scope; sc_Kind scope; id]).
  { eapply Forall_impl; [exact Hall|]. intros c [_ Hc]. exact Hc. }
  assert (Hz : ∀ cs, (canonicalLogicalComponentCount (List.hd "" (badgerRecordForgetOutcome :: cs))).1 = 0%nat)
    by reflexivity.
  rewrite !Forall_cons in Hl. destruct Hl as (L1 & L2 & L3 & L4 & _).
  cbn [decodeCanonicalLogicalKey]. unfold decodeCanonicalTupleComponents. cbn [framed_all].
  rewrite decode_one by exact L1. cbv zeta. cbn [app]. rewrite Hz. cbn [Nat.ltb Nat.leb andb].
  rewrite decode_one by exact L2. cbv zeta. cbn [app]. rewrite Hz. cbn [Nat.ltb Nat.leb andb].
  rewrite decode_one by exact L3. cbv zeta. cbn [app]. rewrite Hz. cbn [Nat.ltb Nat.leb andb].
  rewrite decode_one by exact L4. cbv zeta. cbn [app]. rewrite Hz. cbn [Nat.ltb Nat.leb andb].
  reflexivity.
Qed.

(** ** Witnesses *)
Definition demo_key : result string :=
  encodeCanonicalLogicalKey [badgerRecordHead; "telegram:42"; ScopeKindPersonal; "item:1"] "".

Lemma logical_key_round_trip_witness :
  decodeCanonicalLogicalKey (ok_or "" demo_key) =
    Ok ([badgerRecordHead; "telegram:42"; ScopeKindPersonal; "item:1"], "").
Proof. apply (logical_key_round_trip _ _ (ok_or "" demo_key)). vm_compute. reflexivity. Defined.

Definition demo_forget_key : result string := badgerForgetOutcomeKey demo_scope "source" "op:1".

Lemma forget_outcome_key_unreadable_witness :
  is_ok (decodeCanonicalLogicalKey (ok_or "" demo_forget_key)) = false.
Proof.
  apply (forget_outcome_key_unreadable demo_scope "source" "op:1" (ok_or "" demo_forget_key)).
  vm_compute. reflexivity.
Defined.
