(* ===== verification/BadgerTxn.v ===== *)
(** * BadgerTxn: records, transactions and scans of the key-value database

    Models the record helpers of
    src/sessionmemory/store/badger/badger_session_memory.go over the embedded
    database.  The database maps key bytes to stored records: a record type and
    the Go value whose JSON the envelope carries (MemoryRecords has the envelope;
    the JSON text is represented by the value it encodes, which fails to encode
    exactly when one of its times has no four-digit year).  A transaction runs on
    the current contents and takes effect as a whole or not at all; [fault] is
    what the database reports instead of committing (a conflict, a transaction
    that is too big, an I/O error), if anything. *)

From Stdlib Require Import ZArith Lia Ascii String.
From stdpp Require Import base numbers list gmap strings sorting.
From S2P Require Import Prelude.
From S2P Require Import GoStrings.
From S2P Require Import Sha256.
From S2P Require Import GoTimeJson.
From S2P Require Import MemoryTypes.
From S2P Require Import MemoryRecords.
From S2P Require Import MemoryDerived.
From S2P Require Import MemoryCanonical.
From S2P Require Import MemoryForget.
From S2P Require Import MemoryProjection.
From S2P Require Import BadgerKeys.

Local Open Scope string_scope.
Local Open Scope list_scope.
Local Open Scope Z_scope.

(** ** Stored values *)
Record badgerCanonicalOperation := mkBadgerOperation {
  bo_Fingerprint : string; bo_Outcome : CanonicalMutationOutcome }.
#[export] Instance badgerCanonicalOperation_eq_dec : EqDecision badgerCanonicalOperation.
Proof. solve_decision. Defined.
Record badgerProvenanceEdge := mkEdge { pe_ChildRevisionID : string; pe_ParentRevisionID : string }.
#[export] Instance badgerProvenanceEdge_eq_dec : EqDecision badgerProvenanceEdge.
Proof. solve_decision. Defined.
Record badgerDeniedSource := mkDeniedSource { dns_SourceID : string; dns_DeniedAt : Z }.
#[export] Instance badgerDeniedSource_eq_dec : EqDecision badgerDeniedSource.
Proof. solve_decision. Defined.
Record badgerDeniedRevision := mkDeniedRevision { dnr_RevisionID : string; dnr_DeniedAt : Z }.
#[export] Instance badgerDeniedRevision_eq_dec : EqDecision badgerDeniedRevision.
Proof. solve_decision. Defined.
Record badgerProjectionActive := mkProjectionActive { pa_GenerationID : string }.
#[export] Instance badgerProjectionActive_eq_dec : EqDecision badgerProjectionActive.
Proof. solve_decision. Defined.
Record badgerProjectionRetention := mkProjectionRetention { rt_Floor : Z }.
#[export] Instance badgerProjectionRetention_eq_dec : EqDecision badgerProjectionRetention.
Proof. solve_decision. Defined.
Record badgerCanonicalForgetOutcome := mkBadgerForget {
  bf_Fingerprint : string; bf_Outcome : ForgetOutcome }.
#[export] Instance badgerCanonicalForgetOutcome_eq_dec : EqDecision badgerCanonicalForgetOutcome.
Proof. solve_decision. Defined.

Inductive Value :=
  | VScope (v : ScopeState) | VOperation (v : badgerCanonicalOperation) | VSource (v : SourceRecordV2)
  | VMessage (v : MessageRecord) | VItem (v : MemoryItem) | VRevision (v : MemoryRevision)
  | VLifecycle (v : LifecycleEvent) | VHead (v : ItemHead) | VChange (v : ScopeChange)
  | VDelivery (v : DeliveryOutboxRecord) | VClaim (v : DeliveryClaim) | VPayload (v : string)
  | VEdge (v : badgerProvenanceEdge) | VDeniedSource (v : badgerDeniedSource)
  | VDeniedRevision (v : badgerDeniedRevision) | VManifest (v : ProjectionManifest)
  | VActive (v : badgerProjectionActive) | VRetention (v : badgerProjectionRetention)
  | VCheckpoint (v : ScopeCheckpoint) | VForget (v : badgerCanonicalForgetOutcome).
#[export] Instance Value_eq_dec : EqDecision Value.
Proof. solve_decision. Defined.

(** What [Get] of a Go type reads and [Put] of it writes. *)
Class Stored (A : Type) := { inject : A → Value; project : Value → option A;
  project_inject a : project (inject a) = Some a;
  inject_project v a : project v = Some a → v = inject a }.

Ltac one_shape := intros [] ? [= ->]; reflexivity.

#[export] Instance stored_scope : Stored ScopeState :=
  {| inject := VScope; project v := match v with VScope a => Some a | _ => None end; project_inject a := eq_refl; inject_project := ltac:(one_shape) |}.
#[export] Instance stored_operation : Stored badgerCanonicalOperation :=
  {| inject := VOperation; project v := match v with VOperation a => Some a | _ => None end; project_inject a := eq_refl; inject_project := ltac:(one_shape) |}.
#[export] Instance stored_source : Stored SourceRecordV2 :=
  {| inject := VSource; project v := match v with VSource a => Some a | _ => None end; project_inject a := eq_refl; inject_project := ltac:(one_shape) |}.
#[export] Instance stored_message : Stored MessageRecord :=
  {| inject := VMessage; project v := match v with VMessage a => Some a | _ => None end; project_inject a := eq_refl; inject_project := ltac:(one_shape) |}.
#[export] Instance stored_item : Stored MemoryItem :=
  {| inject := VItem; project v := match v with VItem a => Some a | _ => None end; project_inject a := eq_refl; inject_project := ltac:(one_shape) |}.
#[export] Instance stored_revision : Stored MemoryRevision :=
  {| inject := VRevision; project v := match v with VRevision a => Some a | _ => None end; project_inject a := eq_refl; inject_project := ltac:(one_shape) |}.
#[export] Instance stored_lifecycle : Stored LifecycleEvent :=
  {| inject := VLifecycle; project v := match v with VLifecycle a => Some a | _ => None end; project_inject a := eq_refl; inject_project := ltac:(one_shape) |}.
#[export] Instance stored_head : Stored ItemHead :=
  {| inject := VHead; project v := match v with VHead a => Some a | _ => None end; project_inject a := eq_refl; inject_project := ltac:(one_shape) |}.
#[export] Instance stored_change : Stored ScopeChange :=
  {| inject := VChange; project v := match v with VChange a => Some a | _ => None end; project_inject a := eq_refl; inject_project := ltac:(one_shape) |}.
#[export] Instance stored_delivery : Stored DeliveryOutboxRecord :=
  {| inject := VDelivery; project v := match v with VDelivery a => Some a | _ => None end; project_inject a := eq_refl; inject_project := ltac:(one_shape) |}.
#[export] Instance stored_claim : Stored DeliveryClaim :=
  {| inject := VClaim; project v := match v with VClaim a => Some a | _ => None end; project_inject a := eq_refl; inject_project := ltac:(one_shape) |}.
#[export] Instance stored_payload : Stored string :=
  {| inject := VPayload; project v := match v with VPayload a => Some a | _ => None end; project_inject a := eq_refl; inject_project := ltac:(one_shape) |}.
#[export] Instance stored_edge : Stored badgerProvenanceEdge :=
  {| inject := VEdge; project v := match v with VEdge a => Some a | _ => None end; project_inject a := eq_refl; inject_project := ltac:(one_shape) |}.
#[export] Instance stored_denied_source : Stored badgerDeniedSource :=
  {| inject := VDeniedSource; project v := match v with VDeniedSource a => Some a | _ => None end; project_inject a := eq_refl; inject_project := ltac:(one_shape) |}.
#[export] Instance stored_denied_revision : Stored badgerDeniedRevision :=
  {| inject := VDeniedRevision; project v := match v with VDeniedRevision a => Some a | _ => None end; project_inject a := eq_refl; inject_project := ltac:(one_shape) |}.
#[export] Instance stored_manifest : Stored ProjectionManifest :=
  {| inject := VManifest; project v := match v with VManifest a => Some a | _ => None end; project_inject a := eq_refl; inject_project := ltac:(one_shape) |}.
#[export] Instance stored_active : Stored badgerProjectionActive :=
  {| inject := VActive; project v := match v with VActive a => Some a | _ => None end; project_inject a := eq_refl; inject_project := ltac:(one_shape) |}.
#[export] Instance stored_retention : Stored badgerProjectionRetention :=
  {| inject := VRetention; project v := match v with VRetention a => Some a | _ => None end; project_inject a := eq_refl; inject_project := ltac:(one_shape) |}.
#[export] Instance stored_checkpoint : Stored ScopeCheckpoint :=
  {| inject := VCheckpoint; project v := match v with VCheckpoint a => Some a | _ => None end; project_inject a := eq_refl; inject_project := ltac:(one_shape) |}.
#[export] Instance stored_forget : Stored badgerCanonicalForgetOutcome :=
  {| inject := VForget; project v := match v with VForget a => Some a | _ => None end; project_inject a := eq_refl; inject_project := ltac:(one_shape) |}.

Definition option_times (t : option Z) : list Z := match t with Some t => [t] | None => [] end.
Definition temporal_times (t : Temporal) : list Z :=
  tp_ObservedAt t :: option_times (tp_ValidFrom t) ++ option_times (tp_ValidUntil t) ++
  option_times (tp_EventAt t) ++ option_times (tp_ExpiresAt t).
(** The times of a value: [json.Marshal] fails on a year outside 0 to 9999. *)
Definition value_times (v : Value) : list Z :=
  match v with
  | VRevision r => temporal_times (rv_Temporal r)
  | VLifecycle l => [le_OccurredAt l]
  | VChange c => [ch_OccurredAt c]
  | VDelivery d => [do_CreatedAt d]
  | VClaim c => option_times (dc_LeaseUntil c)
  | VDeniedSource d => [dns_DeniedAt d]
  | VDeniedRevision d => [dnr_DeniedAt d]
  | VManifest m => [pm_UpdatedAt m]
  | VCheckpoint c => [ck_OccurredAt c; ck_UpdatedAt c]
  | _ => []
  end.
Definition marshals (v : Value) : bool := forallb (λ t, is_ok (json_time t)) (value_times v).

Record stored := mkStored { st_RecordType : string; st_Value : Value }.
#[export] Instance stored_eq_dec : EqDecision stored.
Proof. solve_decision. Defined.

Abbreviation database := (gmap string stored).

(** ** The database's errors *)
Definition badger_ErrKeyNotFound : error := ErrSentinel "Key not found".
Definition badger_ErrTxnTooBig : error := ErrSentinel "Txn is too big to fit into one request".
Definition badger_ErrConflict : error := ErrSentinel "Transaction Conflict. Please retry".

(** [badgerSessionMemoryError] *)
Definition badgerSessionMemoryError (operation : string) (err : error) : error :=
  if errors_Is err badger_ErrTxnTooBig then PermanentError CodeLimitExceeded operation (Some err)
  else if errors_Is err badger_ErrConflict then RetryableError CodeConflict operation (Some err)
  else match first_memory_error err with
       | Some _ => err
       | None => RetryableError CodeStoreFailure operation (Some err)
       end.

Definition wrap_error {A} (operation : string) (r : result A) : result A :=
  match r with Ok a => Ok a | Err err => Err (badgerSessionMemoryError operation err) end.

(** ** Records *)
Definition marshal_error : error := ErrText "json: error calling MarshalJSON for type time.Time".

Definition putBadgerSessionMemoryRecord {A} `{Stored A} (txn : database) (key recordType : string) (value : A) :
    result database :=
  _ ← reject_if (negb (marshals (inject value)))
        (ErrWrap ("marshal " +:+ recordType +:+ " record: ") marshal_error);
  Ok (<[key := mkStored recordType (inject value)]> txn).

Definition getBadgerSessionMemoryRecord {A} `{Stored A} (txn : database) (key recordType : string) : result A :=
  match txn !! key with
  | None => Err badger_ErrKeyNotFound
  | Some s =>
      _ ← reject_if (negb (bool_decide (st_RecordType s = recordType)))
            (ErrText ("unexpected Badger record type " +:+ st_RecordType s));
      match project (st_Value s) with
      | Some a => Ok a
      | None => Err (ErrText ("unmarshal " +:+ recordType +:+ " record"))
      end
  end.

(** An absent record leaves the caller's default. *)
Definition get_or {A} (default : A) (r : result A) : result A :=
  match r with
  | Ok a => Ok a
  | Err err => if errors_Is err badger_ErrKeyNotFound then Ok default else Err err
  end.

Definition putBadgerSessionMemoryImmutableRecord {A} `{Stored A} (txn : database) (key recordType : string)
    (value : A) : result database :=
  _ ← reject_if (negb (marshals (inject value)))
        (ErrWrap ("marshal immutable " +:+ recordType +:+ " record: ") marshal_error);
  match txn !! key with
  | Some s =>
      _ ← reject_if (negb (bool_decide (s = mkStored recordType (inject value))))
            (PermanentError CodeConflict "canonical immutable record identity was reused" None);
      Ok txn
  | None => putBadgerSessionMemoryRecord txn key recordType value
  end.

Definition putBadgerDenyRecord {A} `{Stored A} (txn : database) (key recordType : string) (value : A) :
    result database :=
  match txn !! key with
  | Some _ => Ok txn
  | None => putBadgerSessionMemoryRecord txn key recordType value
  end.

(** ** Transactions *)

(** [s.db.Update], its error wrapped with the operation's name. *)
Definition Update {A} (fault : option error) (operation : string) (body : database → result (database * A))
    (db : database) : database * result A :=
  match body db with
  | Err err => (db, Err (badgerSessionMemoryError operation err))
  | Ok (db', a) =>
      match fault with
      | Some err => (db, Err (badgerSessionMemoryError operation err))
      | None => (db', Ok a)
      end
  end.

(** [s.db.View] *)
Definition View {A} (operation : string) (body : database → result A) (db : database) : result A :=
  wrap_error operation (body db).

(** ** Scans *)

(** The iterator from [Seek(start)] while the key has the prefix: keys in byte order. *)
Definition key_le (x y : string * stored) : Prop := string_leb x.1 y.1 = true.
#[export] Instance key_le_dec : RelDecision key_le.
Proof. intros x y. unfold key_le. apply _. Defined.

Definition scan (db : database) (prefix start : string) : list (string * stored) :=
  filter (λ kv, HasPrefix kv.1 prefix = true ∧ string_leb start kv.1 = true)
    (merge_sort key_le (map_to_list db)).

(** A bounded loop over an iterator: each entry yields a result, or is skipped. *)
Fixpoint collect {A} (limit : Z) (f : string * stored → result (option A)) (acc : list A)
    (entries : list (string * stored)) : result (list A) :=
  match entries with
  | [] => Ok acc
  | kv :: entries =>
      if Zlength acc <? limit then
        r ← f kv;
        collect limit f (acc ++ match r with Some a => [a] | None => [] end) entries
      else Ok acc
  end.

(** [getBadgerSessionMemoryRecord] of the iterator's own item. *)
Definition decode_entry {A} `{Stored A} (kv : string * stored) (recordType : string) : result A :=
  getBadgerSessionMemoryRecord {[ kv.1 := kv.2 ]} kv.1 recordType.
