(* ===== verification/BadgerStore.v ===== *)
(** * BadgerStore: the canonical store over the embedded database

    Models src/sessionmemory/store/badger/badger_session_memory.go: scope state,
    the atomic mutation with its replay, compare-and-set, reference and provenance
    checks, the revision-less operation commit, bounded scans, payloads and denial
    markers.  A store is its open database; opening, closing, locks that only
    exclude maintenance, and the test seam [beforeCanonicalMutationCommit] are not
    modelled.  Go ranges over the map of new revisions in no fixed order; here the
    order is that of the mutation, which decides nothing but which error comes
    first. *)

From Stdlib Require Import ZArith Lia Ascii String.
From stdpp Require Import base numbers list gmap strings.
From S2P Require Import Prelude.
From S2P Require Import GoStrings.
From S2P Require Import Sha256.
From S2P Require Import MemoryTypes.
From S2P Require Import MemoryRecords.
From S2P Require Import MemoryDerived.
From S2P Require Import MemoryCanonical.
From S2P Require Import MemoryProcessor.
From S2P Require Import MemoryForget.
From S2P Require Import BadgerKeys.
From S2P Require Import BadgerTxn.

Local Open Scope string_scope.
Local Open Scope list_scope.
Local Open Scope Z_scope.

Definition sessionMemoryContextError (ctx : Context) : result unit :=
  match ctx with
  | None => Err (PermanentError CodeInvalidDerived "context is required" None)
  | Some None => Ok tt
  | Some (Some err) => Err (RetryableError CodeTimeout "session-memory operation canceled" (Some err))
  end.

(** ** Scope state *)
Definition initial_state (scope : Scope) : ScopeState := mkScopeState CanonicalSchemaVersionV1 scope 0 0.

Definition invalid_state (cause : option error) : error :=
  PermanentError CodeStoreFailure "stored canonical scope state is invalid" cause.
Definition check_state (scope : Scope) (state : ScopeState) : result unit :=
  match ScopeState_Validate state with
  | Err err => Err (invalid_state (Some err))
  | Ok _ => reject_if (negb (bool_decide (sst_Scope state = scope))) (invalid_state None)
  end.

Definition read_state (txn : database) (scope : Scope) (scopeKey : string) : result ScopeState :=
  get_or (initial_state scope) (getBadgerSessionMemoryRecord txn scopeKey badgerRecordScope).

Definition Badger_LoadScopeState (ctx : Context) (scope : Scope) (db : database) : result ScopeState :=
  _ ← sessionMemoryContextError ctx;
  _ ← Scope_Validate scope;
  key ← badgerScopeKey scope;
  state ← View "load canonical scope state" (λ txn, read_state txn scope key) db;
  _ ← check_state scope state;
  Ok state.

(** [state.Version++; state.ChangeSeq++] *)
Definition advance (state : ScopeState) : ScopeState :=
  mkScopeState (sst_SchemaVersion state) (sst_Scope state) (u64 (sst_Version state + 1))
    (u64 (sst_ChangeSeq state + 1)).

(** ** References of a mutation *)
Definition badgerCanonicalRecordExists (txn : database) (scope : Scope) (recordType id : string) : result unit :=
  key ← badgerSessionMemoryKey scope recordType id;
  reject_if (bool_decide (txn !! key = None))
    (PermanentError CodeConflict "canonical record reference does not exist" None).

(** [fmt.Errorf("...: %w", err)] *)
Definition wrapped {A} (message : string) (r : result A) : result A :=
  match r with Ok a => Ok a | Err err => Err (ErrWrap message err) end.

Definition validateBadgerMutationReferences (txn : database) (m : CanonicalMutation) : result unit :=
  let items := map mi_ItemID (cm_Items m) in
  let revisions := map rv_RevisionID (cm_Revisions m) in
  let known (ids : list string) (recordType id message : string) :=
    if bool_decide (id ∈ ids) then Ok tt
    else wrapped message (badgerCanonicalRecordExists txn (cm_Scope m) recordType id) in
  _ ← for_each (λ r, known items badgerRecordItem (rv_ItemID r) "revision item reference: ") (cm_Revisions m);
  _ ← for_each (λ l, known revisions badgerRecordRevision (le_RevisionID l) "lifecycle revision reference: ")
        (cm_Lifecycle m);
  for_each (λ h, known revisions badgerRecordRevision (ih_RevisionID h) "head revision reference: ") (cm_Heads m).

(** ** Provenance *)
Definition provenance_cycle : error := PermanentError CodeInvalidDerived "canonical provenance cycle" None.

Definition revision_map (m : CanonicalMutation) : gmap string MemoryRevision :=
  foldl (λ revisions r, <[rv_RevisionID r := r]> revisions) ∅ (cm_Revisions m).

Definition GREY : Z := 1.
Definition BLACK : Z := 2.

(** The recursive [visit], with its colors; [fuel] bounds the recursion depth. *)
Fixpoint visit (revisions : gmap string MemoryRevision) (fuel : nat) (colors : gmap string Z) (id : string) :
    result (gmap string Z) :=
  match fuel with
  | O => Err (ErrText "out of fuel")
  | S fuel =>
      if bool_decide (colors !! id = Some GREY) then Err provenance_cycle
      else if bool_decide (colors !! id = Some BLACK) then Ok colors
      else match revisions !! id with
           | None => Ok colors
           | Some r =>
               colors ← for_fold (visit revisions fuel) (<[id := GREY]> colors) (rv_Parents r);
               Ok (<[id := BLACK]> colors)
           end
  end.

Definition validateBadgerMutationProvenance (txn : database) (m : CanonicalMutation) : result unit :=
  let revisions := revision_map m in
  _ ← for_each (λ r, for_each (λ parentID,
        if bool_decide (is_Some (revisions !! parentID)) then Ok tt
        else
          key ← badgerSessionMemoryKey (cm_Scope m) badgerRecordRevision parentID;
          reject_if (bool_decide (txn !! key = None))
            (PermanentError CodeConflict "canonical provenance parent does not exist" None))
        (rv_Parents r)) (cm_Revisions m);
  _ ← for_fold (visit revisions (S (length (cm_Revisions m)))) ∅ (map rv_RevisionID (cm_Revisions m));
  Ok tt.

(** ** Writing a mutation *)
Definition putBadgerCanonicalRecord {A} `{Stored A} (txn : database) (scope : Scope) (recordType id : string)
    (value : A) : result database :=
  key ← badgerSessionMemoryKey scope recordType id;
  putBadgerSessionMemoryImmutableRecord txn key recordType value.

Definition put_payload (txn : database) (p : CanonicalPayload) : result database :=
  key ← badgerSessionMemoryKey payloadScope badgerRecordPayload (pr_ID (cp_Ref p));
  putBadgerSessionMemoryImmutableRecord txn key badgerRecordPayload (cp_Data p).

Definition put_edge (txn : database) (scope : Scope) (recordType from to : string) (edge : badgerProvenanceEdge) :
    result database :=
  key ← badgerProvenanceKey scope recordType from to;
  putBadgerSessionMemoryImmutableRecord txn key recordType edge.

Definition put_revision (scope : Scope) (txn : database) (r : MemoryRevision) : result database :=
  txn ← putBadgerCanonicalRecord txn scope badgerRecordRevision (rv_RevisionID r) r;
  txn ← for_fold (λ txn parentID,
          let edge := mkEdge (rv_RevisionID r) parentID in
          txn ← put_edge txn scope badgerRecordProvenanceForward (rv_RevisionID r) parentID edge;
          put_edge txn scope badgerRecordProvenanceReverse parentID (rv_RevisionID r) edge)
          txn (rv_Parents r);
  for_fold (λ txn e,
    put_edge txn scope badgerRecordSourceRevision (ev_SourceID e) (rv_RevisionID r)
      (mkEdge (rv_RevisionID r) (ev_SourceID e))) txn (rv_Evidence r).

Definition put_head (scope : Scope) (txn : database) (h : ItemHead) : result database :=
  key ← badgerSessionMemoryKey scope badgerRecordHead (ih_ItemID h);
  putBadgerSessionMemoryRecord txn key badgerRecordHead h.

Definition putCanonicalMutationRecords (txn : database) (m : CanonicalMutation) : result database :=
  let scope := cm_Scope m in
  _ ← validateBadgerMutationReferences txn m;
  _ ← validateBadgerMutationProvenance txn m;
  txn ← for_fold put_payload txn (cm_Payloads m);
  txn ← for_fold (λ txn s, putBadgerCanonicalRecord txn scope badgerRecordSource (sr_SourceID s) s) txn (cm_Sources m);
  txn ← for_fold (λ txn r, putBadgerCanonicalRecord txn scope badgerRecordMessage (mr_MessageID r) r) txn (cm_Messages m);
  txn ← for_fold (λ txn i, putBadgerCanonicalRecord txn scope badgerRecordItem (mi_ItemID i) i) txn (cm_Items m);
  txn ← for_fold (put_revision scope) txn (cm_Revisions m);
  txn ← for_fold (λ txn l, putBadgerCanonicalRecord txn scope badgerRecordLifecycle (le_EventID l) l) txn (cm_Lifecycle m);
  txn ← for_fold (put_head scope) txn (cm_Heads m);
  for_fold (λ txn d, putBadgerCanonicalRecord txn scope badgerRecordDelivery (do_DeliveryID d) d) txn (cm_Delivery m).

(** ** The commits *)
Definition operation_reused : error := PermanentError CodeConflict "canonical operation identity was reused" None.
Definition version_changed : error := PermanentError CodeConflict "canonical scope version changed" None.

(** The replay check: [Some] outcome when the operation already committed. *)
Definition replayed (txn : database) (operationKey fingerprint : string) :
    result (option CanonicalMutationOutcome) :=
  match getBadgerSessionMemoryRecord txn operationKey badgerRecordOperation with
  | Ok operation =>
      _ ← reject_if (negb (bool_decide (bo_Fingerprint operation = fingerprint))) operation_reused;
      _ ← CanonicalMutationOutcome_Validate (bo_Outcome operation);
      Ok (Some (bo_Outcome operation))
  | Err err => if errors_Is err badger_ErrKeyNotFound then Ok None else Err err
  end.

(** The last three writes of a commit: change record, scope state, operation record. *)
Definition put_commit (txn : database) (scope : Scope) (scopeKey operationKey : string) (state : ScopeState)
    (change : ScopeChange) (operation : badgerCanonicalOperation) : result database :=
  changeKey ← badgerScopeChangeKey scope (ch_Sequence change);
  txn ← putBadgerSessionMemoryRecord txn changeKey badgerRecordChange change;
  txn ← putBadgerSessionMemoryRecord txn scopeKey badgerRecordScope state;
  putBadgerSessionMemoryRecord txn operationKey badgerRecordOperation operation.

(** The transaction of [ApplyCanonicalMutation]. *)
Definition apply_body (m : CanonicalMutation) (scopeKey operationKey : string) (txn : database) :
    result (database * CanonicalMutationOutcome) :=
  let op := cm_Operation m in
  prior ← replayed txn operationKey (or_Fingerprint op);
  match prior with
  | Some outcome => Ok (txn, outcome)
  | None =>
      state ← read_state txn (cm_Scope m) scopeKey;
      _ ← check_state (cm_Scope m) state;
      _ ← reject_if (negb (sst_Version state =? cm_ExpectedScopeVersion m)) version_changed;
      txn ← putCanonicalMutationRecords txn m;
      let state := advance state in
      let outcome := mkOutcome (sst_Version state) (sst_ChangeSeq state) (map rv_RevisionID (cm_Revisions m)) in
      _ ← CanonicalMutationOutcome_Validate outcome;
      txn ← put_commit txn (cm_Scope m) scopeKey operationKey state
        (mkScopeChange (sst_ChangeSeq state) (or_OperationID op) (or_CommittedAt op) (co_RevisionIDs outcome))
        (mkBadgerOperation (or_Fingerprint op) outcome);
      Ok (txn, outcome)
  end.

(** Keys computed before the transaction starts. *)
Definition run_with {A} (db : database) (r : result A)
    {B} (k : A → database * result B) : database * result B :=
  match r with Err err => (db, Err err) | Ok a => k a end.

Definition Badger_ApplyCanonicalMutation (fault : option error) (ctx : Context) (m : CanonicalMutation)
    (db : database) : database * result CanonicalMutationOutcome :=
  run_with db
    (_ ← sessionMemoryContextError ctx;
     _ ← CanonicalMutation_Validate m;
     scopeKey ← badgerScopeKey (cm_Scope m);
     operationKey ← badgerOperationKey (cm_Scope m) (or_OperationID (cm_Operation m));
     Ok (scopeKey, operationKey))
    (λ '(scopeKey, operationKey),
      Update fault "apply canonical mutation" (apply_body m scopeKey operationKey) db).

(** The transaction of [CommitCanonicalOperation]. *)
Definition commit_body (request : CanonicalOperationCommitRequest) (scopeKey operationKey : string)
    (txn : database) : result (database * CanonicalMutationOutcome) :=
  prior ← replayed txn operationKey (oc_Fingerprint request);
  match prior with
  | Some outcome => Ok (txn, outcome)
  | None =>
      state ← read_state txn (oc_Scope request) scopeKey;
      _ ← check_state (oc_Scope request) state;
      _ ← reject_if (negb (sst_Version state =? oc_ExpectedScopeVersion request)) version_changed;
      let state := advance state in
      let outcome := mkOutcome (sst_Version state) (sst_ChangeSeq state) [] in
      _ ← CanonicalMutationOutcome_Validate outcome;
      txn ← put_commit txn (oc_Scope request) scopeKey operationKey state
        (mkScopeChange (sst_ChangeSeq state) (oc_OperationID request) (oc_CommittedAt request) [])
        (mkBadgerOperation (oc_Fingerprint request) outcome);
      Ok (txn, outcome)
  end.

Definition CommitCanonicalOperation (fault : option error) (ctx : Context)
    (request : CanonicalOperationCommitRequest) (db : database) : database * result CanonicalMutationOutcome :=
  run_with db
    (_ ← sessionMemoryContextError ctx;
     _ ← CanonicalOperationCommitRequest_Validate request;
     operationKey ← badgerOperationKey (oc_Scope request) (oc_OperationID request);
     scopeKey ← badgerScopeKey (oc_Scope request);
     Ok (scopeKey, operationKey))
    (λ '(scopeKey, operationKey),
      Update fault "commit canonical operation" (commit_body request scopeKey operationKey) db).

(** ** Reads *)

(** Found, or not: an absent record is no error. *)
Definition optional {A} (r : result A) : result (option A) :=
  match r with
  | Ok a => Ok (Some a)
  | Err err => if errors_Is err badger_ErrKeyNotFound then Ok None else Err err
  end.

Definition LoadCanonicalOperation (ctx : Context) (scope : Scope) (operationID : string) (db : database) :
    result (option CanonicalOperationRecord) :=
  _ ← sessionMemoryContextError ctx;
  _ ← Scope_Validate scope;
  _ ← or_else (RevisionRef_Validate (mkRevisionRef operationID operationID))
        (PermanentError CodeInvalidDerived "canonical operation id is invalid" None);
  key ← badgerOperationKey scope operationID;
  found ← wrap_error "load canonical operation"
            (optional (getBadgerSessionMemoryRecord db key badgerRecordOperation));
  match found with
  | None => Ok None
  | Some operation =>
      let record := mkCanonicalOperationRecord (bo_Fingerprint operation) (bo_Outcome operation) in
      match CanonicalOperationRecord_Validate record with
      | Err err => Err (PermanentError CodeStoreFailure "stored canonical operation outcome is invalid" (Some err))
      | Ok _ => Ok (Some record)
      end
  end.

Definition ScanScopeChanges (ctx : Context) (scope : Scope) (after limit : Z) (db : database) :
    result (list ScopeChange) :=
  _ ← sessionMemoryContextError ctx;
  _ ← Scope_Validate scope;
  _ ← reject_if ((limit =? 0) || (512 <? limit))
        (PermanentError CodeLimitExceeded "canonical change scan limit is invalid" None);
  prefix ← badgerScopeChangePrefix scope;
  View "scan canonical scope changes" (λ txn,
    start ← badgerScopeChangeKey scope after;
    collect limit (λ kv,
      change ← decode_entry kv badgerRecordChange;
      _ ← ScopeChange_Validate change;
      Ok (if ch_Sequence change <=? after then None else Some change))
      [] (scan txn prefix start)) db.

Definition LoadCanonicalRevisions (ctx : Context) (request : CanonicalRevisionReadRequest) (db : database) :
    result (list MemoryRevision) :=
  _ ← sessionMemoryContextError ctx;
  _ ← CanonicalRevisionReadRequest_Validate request;
  View "load canonical revisions" (λ txn,
    for_fold (λ revisions revisionID,
      key ← badgerSessionMemoryKey (rq_Scope request) badgerRecordRevision revisionID;
      found ← optional (getBadgerSessionMemoryRecord txn key badgerRecordRevision);
      match found with
      | None => Err (PermanentError CodeNotFound "canonical revision is missing" None)
      | Some revision => _ ← MemoryRevision_Validate revision; Ok (revisions ++ [revision])
      end) [] (rq_RevisionIDs request)) db.

Definition scan_heads (request : ActiveHeadScanRequest) (prefix : string) (txn : database) : result (list ItemHead) :=
  start ← (if bool_decide (ah_AfterItemID request = "") then Ok prefix
           else badgerSessionMemoryKey (ah_Scope request) badgerRecordHead (ah_AfterItemID request));
  collect (ah_Limit request) (λ kv,
    head ← decode_entry kv badgerRecordHead;
    if negb (bool_decide (ah_AfterItemID request = "")) && string_leb (ih_ItemID head) (ah_AfterItemID request)
    then Ok None
    else _ ← ItemHead_Validate head; Ok (Some head)) [] (scan txn prefix start).

Definition ScanActiveHeads (ctx : Context) (request : ActiveHeadScanRequest) (db : database) :
    result (list ItemHead) :=
  _ ← sessionMemoryContextError ctx;
  _ ← ActiveHeadScanRequest_Validate request;
  prefix ← badgerSessionMemoryPrefix (ah_Scope request) badgerRecordHead;
  View "scan canonical active heads" (scan_heads request prefix) db.

(** One head joined with its item and revision. *)
Definition join_head (scope : Scope) (txn : database) (head : ItemHead) : result ActiveCanonicalMemory :=
  itemKey ← badgerSessionMemoryKey scope badgerRecordItem (ih_ItemID head);
  revisionKey ← badgerSessionMemoryKey scope badgerRecordRevision (ih_RevisionID head);
  item ← getBadgerSessionMemoryRecord txn itemKey badgerRecordItem;
  revision ← getBadgerSessionMemoryRecord txn revisionKey badgerRecordRevision;
  _ ← match MemoryItem_Validate item with
      | Err err => Err (PermanentError CodeStoreFailure "stored active canonical item is invalid" (Some err))
      | Ok _ => Ok tt
      end;
  _ ← reject_if (negb (bool_decide (mi_Scope item = scope)) ||
                 negb (bool_decide (rv_ItemID revision = mi_ItemID item)))
        (PermanentError CodeStoreFailure "stored active canonical memory is invalid" None);
  Ok (mkActiveMemory item (rv_RevisionID revision) (rv_Revision revision) (rv_Evidence revision)).

(** Two transactions: the heads are read in one and joined in another, over what may
    be a later database. *)
Definition Badger_ScanActiveMemory (ctx : Context) (request : ActiveHeadScanRequest) (db later : database) :
    result (list ActiveCanonicalMemory) :=
  _ ← sessionMemoryContextError ctx;
  _ ← ActiveMemoryScanRequest_Validate request;
  heads ← ScanActiveHeads ctx request db;
  View "scan active canonical memory" (λ txn,
    for_fold (λ active head, memory ← join_head (ah_Scope request) txn head; Ok (active ++ [memory])) [] heads) later.

(** ** Payloads *)
Definition isBadgerPayloadValid (data : string) (ref : PayloadRef) : bool :=
  is_ok (PayloadRef_Validate ref) && negb (len data =? 0) && (len data =? pr_ByteSize ref) &&
  bool_decide (sha256_hex data = pr_Digest ref).

Definition payload_key (id : string) : result string :=
  badgerSessionMemoryKey payloadScope badgerRecordPayload id.

Definition PutPayload (fault : option error) (ctx : Context) (data : string) (ref : PayloadRef) (db : database) :
    database * result unit :=
  run_with db
    (_ ← sessionMemoryContextError ctx;
     _ ← reject_if (negb (isBadgerPayloadValid data ref))
           (PermanentError CodeInvalidDerived "payload is invalid" None);
     payload_key (pr_ID ref))
    (λ key, Update fault "store payload" (λ txn,
      txn ← putBadgerSessionMemoryImmutableRecord txn key badgerRecordPayload data; Ok (txn, tt)) db).

Definition LoadPayload (ctx : Context) (ref : PayloadRef) (db : database) : result string :=
  _ ← sessionMemoryContextError ctx;
  _ ← PayloadRef_Validate ref;
  key ← payload_key (pr_ID ref);
  data ← View "load payload" (λ txn, getBadgerSessionMemoryRecord txn key badgerRecordPayload) db;
  _ ← reject_if (negb (isBadgerPayloadValid data ref))
        (PermanentError CodeStoreFailure "stored payload is invalid" None);
  Ok data.

Definition DeletePayload (fault : option error) (ctx : Context) (ref : PayloadRef) (db : database) :
    database * result unit :=
  run_with db
    (_ ← sessionMemoryContextError ctx;
     _ ← PayloadRef_Validate ref;
     payload_key (pr_ID ref))
    (λ key, Update fault "delete payload" (λ txn, Ok (delete key txn, tt)) db).

(** ** Denial *)
Definition Badger_DenySource (fault : option error) (ctx : Context) (scope : Scope) (sourceID : string)
    (deniedAt : Z) (db : database) : database * result unit :=
  run_with db
    (_ ← sessionMemoryContextError ctx;
     _ ← Scope_Validate scope;
     _ ← reject_if (negb (bool_decide (TrimSpace sourceID = sourceID)) || bool_decide (sourceID = "") ||
                    (deniedAt =? 0))
           (PermanentError CodeInvalidDerived "source deny request is invalid" None);
     badgerSessionMemoryKey scope badgerRecordDeniedSource sourceID)
    (λ key, Update fault "deny canonical source" (λ txn,
      txn ← putBadgerDenyRecord txn key badgerRecordDeniedSource (mkDeniedSource sourceID deniedAt);
      Ok (txn, tt)) db).

Definition Badger_DenyRevision (fault : option error) (ctx : Context) (scope : Scope) (revisionID : string)
    (deniedAt : Z) (db : database) : database * result unit :=
  run_with db
    (_ ← sessionMemoryContextError ctx;
     _ ← Scope_Validate scope;
     _ ← reject_if (bool_decide (revisionID = "") || (deniedAt =? 0))
           (PermanentError CodeInvalidDerived "revision deny request is invalid" None);
     badgerSessionMemoryKey scope badgerRecordDeniedRevision revisionID)
    (λ key, Update fault "deny canonical revision" (λ txn,
      txn ← putBadgerDenyRecord txn key badgerRecordDeniedRevision (mkDeniedRevision revisionID deniedAt);
      Ok (txn, tt)) db).

Definition isDenied (A : Type) `{Stored A} (ctx : Context) (scope : Scope)
    (id recordType operation : string) (db : database) : result bool :=
  _ ← sessionMemoryContextError ctx;
  key ← badgerSessionMemoryKey scope recordType id;
  found ← wrap_error operation
            (optional (getBadgerSessionMemoryRecord (A := A) db key recordType));
  Ok (bool_decide (is_Some found)).

Definition IsSourceDenied (ctx : Context) (scope : Scope) (sourceID : string) (db : database) : result bool :=
  isDenied badgerDeniedSource ctx scope sourceID badgerRecordDeniedSource "read canonical source deny" db.
Definition IsRevisionDenied (ctx : Context) (scope : Scope) (revisionID : string) (db : database) : result bool :=
  isDenied badgerDeniedRevision ctx scope revisionID badgerRecordDeniedRevision "read canonical revision deny" db.

(** One entry of the source-revision index, past the cursor. *)
Definition after_cursor (afterRevisionID : string) (kv : string * stored) : result (option string) :=
  edge ← decode_entry kv badgerRecordSourceRevision;
  Ok (if string_ltb afterRevisionID (pe_ChildRevisionID edge) then Some (pe_ChildRevisionID edge) else None).

Definition Badger_SourceRevisionBatch (ctx : Context) (scope : Scope) (sourceID afterRevisionID : string)
    (limit : Z) (db : database) : result (list string * string) :=
  _ ← sessionMemoryContextError ctx;
  _ ← Scope_Validate scope;
  _ ← reject_if (bool_decide (sourceID = "") || (limit =? 0) || (512 <? limit))
        (PermanentError CodeLimitExceeded "source provenance batch limit is invalid" None);
  prefix ← badgerProvenancePrefix scope badgerRecordSourceRevision sourceID;
  results ← View "scan source provenance" (λ txn,
    collect limit (after_cursor afterRevisionID) [] (scan txn prefix prefix)) db;
  Ok (results, List.last results "").

(** ** An example: one commit of one delivery *)
Definition demo_delivery : DeliveryOutboxRecord :=
  mkDeliveryOutboxRecord "d1" "op1" (mkPayloadRef "p1" "digest" 1) 1000000000.
Definition demo_mutation : CanonicalMutation :=
  mkCanonicalMutation CanonicalSchemaVersionV1 demo_scope 0 (mkOperationRecord "op1" "print" [] 1000000000)
    [] [] [] [] [] [] [demo_delivery] [].
Definition demo_commit : database * result CanonicalMutationOutcome :=
  Badger_ApplyCanonicalMutation None (Some None) demo_mutation ∅.
Definition demo_db : database := demo_commit.1.

Example demo_commit_succeeds : demo_commit.2 = Ok (mkOutcome 1 1 []).
Proof. vm_compute. reflexivity. Qed.
Lemma demo_commit_run : Badger_ApplyCanonicalMutation None (Some None) demo_mutation ∅ = (demo_db, Ok (mkOutcome 1 1 [])).
Proof. rewrite <-demo_commit_succeeds. apply surjective_pairing. Qed.
