(* ===== verification/BadgerLedgers.v ===== *)
(** * BadgerLedgers: deliveries, projections, checkpoints and forget outcomes

    Models the remaining state-changing operations of the canonical store in
    src/sessionmemory/store/badger/badger_session_memory.go (delivery claims,
    projection generations, retention floors, scope checkpoints) and
    badger_session_memory_forget.go (committed forget outcomes, payload scrub). *)

From Stdlib Require Import ZArith Lia Ascii String.
From stdpp Require Import base numbers list gmap strings.
From S2P Require Import Prelude.
From S2P Require Import GoStrings.
From S2P Require Import MemoryTypes.
From S2P Require Import MemoryRecords.
From S2P Require Import MemoryDerived.
From S2P Require Import MemoryCanonical.
From S2P Require Import MemoryProcessor.
From S2P Require Import MemoryForget.
From S2P Require Import MemoryProjection.
From S2P Require Import BadgerKeys.
From S2P Require Import BadgerTxn.
From S2P Require Import BadgerStore.

Local Open Scope string_scope.
Local Open Scope list_scope.
Local Open Scope Z_scope.

(** ** Deliveries *)
Definition pending_claim (id : string) : DeliveryClaim := mkDeliveryClaim id DeliveryStatusPending "" None 0.

(** Not to be claimed now: settled, or leased past [now]. *)
Definition claim_held (claim : DeliveryClaim) (now : Z) : bool :=
  bool_decide (dc_Status claim = DeliveryStatusDelivered) ||
  bool_decide (dc_Status claim = DeliveryStatusTerminal) ||
  (bool_decide (dc_Status claim = DeliveryStatusLeased) &&
   match dc_LeaseUntil claim with Some until => now <? until | None => false end).

(** The loop of [ClaimDeliveryOutbox] over the outbox, writing claims as it goes. *)
Fixpoint claim_loop (request : DeliveryClaimRequest) (entries : list (string * stored)) (txn : database)
    (claimed : list ClaimedDelivery) : result (database * list ClaimedDelivery) :=
  match entries with
  | [] => Ok (txn, claimed)
  | kv :: entries =>
      if Zlength claimed <? dcr_Limit request then
        record ← decode_entry kv badgerRecordDelivery;
        claimKey ← badgerSessionMemoryKey (dcr_Scope request) badgerRecordDeliveryClaim (do_DeliveryID record);
        claim ← get_or (pending_claim (do_DeliveryID record))
                  (getBadgerSessionMemoryRecord txn claimKey badgerRecordDeliveryClaim);
        if claim_held claim (dcr_Now request) then claim_loop request entries txn claimed
        else
          let claim := mkDeliveryClaim (do_DeliveryID record) DeliveryStatusLeased (dcr_LeaseOwner request)
                         (Some (dcr_LeaseUntil request)) (u32 (dc_Attempts claim + 1)) in
          txn ← putBadgerSessionMemoryRecord txn claimKey badgerRecordDeliveryClaim claim;
          claim_loop request entries txn (claimed ++ [mkClaimedDelivery record claim])
      else Ok (txn, claimed)
  end.

Definition ClaimDeliveryOutbox (fault : option error) (ctx : Context) (request : DeliveryClaimRequest)
    (db : database) : database * result (list ClaimedDelivery) :=
  run_with db
    (_ ← sessionMemoryContextError ctx;
     _ ← DeliveryClaimRequest_Validate request;
     badgerSessionMemoryPrefix (dcr_Scope request) badgerRecordDelivery)
    (λ prefix, Update fault "claim canonical delivery outbox"
      (λ txn, claim_loop request (scan txn prefix prefix) txn []) db).

(** The transaction of [SettleDeliveryOutbox]. *)
Definition settle_body (request : DeliverySettlementRequest) (claimKey : string) (txn : database) :
    result (database * unit) :=
  found ← optional (getBadgerSessionMemoryRecord txn claimKey badgerRecordDeliveryClaim);
  match found with
  | None => Err (PermanentError CodeNotFound "canonical delivery claim does not exist" None)
  | Some claim =>
      _ ← reject_if (negb (bool_decide (dc_Status claim = DeliveryStatusLeased)) ||
                     negb (bool_decide (dc_LeaseOwner claim = ds_LeaseOwner request)))
            (PermanentError CodeConflict "canonical delivery lease is not owned by this worker" None);
      txn ← putBadgerSessionMemoryRecord txn claimKey badgerRecordDeliveryClaim
              (mkDeliveryClaim (dc_DeliveryID claim) (ds_Status request) "" None (dc_Attempts claim));
      Ok (txn, tt)
  end.

Definition SettleDeliveryOutbox (fault : option error) (ctx : Context) (request : DeliverySettlementRequest)
    (db : database) : database * result unit :=
  run_with db
    (_ ← sessionMemoryContextError ctx;
     _ ← DeliverySettlementRequest_Validate request;
     badgerSessionMemoryKey (ds_Scope request) badgerRecordDeliveryClaim (ds_DeliveryID request))
    (λ claimKey, Update fault "settle canonical delivery outbox" (settle_body request claimKey) db).

(** ** Projection generations *)
Definition manifest_key (m : ProjectionManifest) : result string :=
  badgerProjectionManifestKey (pm_Scope m) (pm_ProjectionID m) (pm_GenerationID m).

Definition blank (s : string) : bool := bool_decide (TrimSpace s = "").

(** [PermanentError(code, message, err)] where the cause is a failed validation, if any. *)
Definition reject_with_cause (check : result unit) (cond : bool) (code message : string) : result unit :=
  match check with
  | Err err => Err (PermanentError code message (Some err))
  | Ok _ => reject_if cond (PermanentError code message None)
  end.

Definition LoadProjectionManifest (ctx : Context) (scope : Scope) (projectionID generationID : string)
    (db : database) : result (option ProjectionManifest) :=
  _ ← sessionMemoryContextError ctx;
  _ ← reject_with_cause (Scope_Validate scope) (blank projectionID || blank generationID)
        CodeInvalidScope "projection manifest lookup is invalid";
  key ← badgerProjectionManifestKey scope projectionID generationID;
  found ← wrap_error "load projection manifest"
            (optional (getBadgerSessionMemoryRecord db key badgerRecordProjectionManifest));
  match found with
  | None => Ok None
  | Some manifest =>
      _ ← reject_with_cause (ProjectionManifest_Validate manifest)
            (negb (bool_decide (pm_Scope manifest = scope)) ||
             negb (bool_decide (pm_ProjectionID manifest = projectionID)) ||
             negb (bool_decide (pm_GenerationID manifest = generationID)))
            CodeStoreFailure "stored projection manifest is invalid";
      Ok (Some manifest)
  end.

Definition LoadActiveProjectionManifest (ctx : Context) (scope : Scope) (projectionID : string) (db : database) :
    result (option ProjectionManifest) :=
  _ ← sessionMemoryContextError ctx;
  _ ← reject_with_cause (Scope_Validate scope) (blank projectionID)
        CodeInvalidScope "active projection lookup is invalid";
  activeKey ← badgerSessionMemoryKey scope badgerRecordProjectionActive projectionID;
  found ← wrap_error "load active projection"
            (optional (getBadgerSessionMemoryRecord db activeKey badgerRecordProjectionActive));
  match found with
  | None => Ok None
  | Some active =>
      let invalid cause := Err (PermanentError CodeStoreFailure "active projection manifest is invalid" cause) in
      match LoadProjectionManifest ctx scope projectionID (pa_GenerationID active) db with
      | Err err => invalid (Some err)
      | Ok None => invalid None
      | Ok (Some manifest) =>
          if bool_decide (pm_Status manifest = ProjectionGenerationActive) then Ok (Some manifest)
          else invalid None
      end
  end.

Definition MarkProjectionDirty (fault : option error) (ctx : Context) (manifest : ProjectionManifest)
    (db : database) : database * result unit :=
  run_with db
    (_ ← sessionMemoryContextError ctx;
     _ ← ProjectionManifest_Validate manifest;
     manifest_key manifest)
    (λ key, Update fault "mark projection generation dirty" (λ txn,
      txn ← putBadgerSessionMemoryRecord txn key badgerRecordProjectionManifest
              (with_status manifest ProjectionGenerationDirty);
      Ok (txn, tt)) db).

(** [updateProjectionManifest] *)
Definition update_body (manifest : ProjectionManifest) (updatedAt : Z)
    (update : ProjectionManifest → result ProjectionManifest) (key : string) (txn : database) :
    result (database * unit) :=
  stored ← getBadgerSessionMemoryRecord txn key badgerRecordProjectionManifest;
  _ ← reject_if (negb (bool_decide (pm_Scope stored = pm_Scope manifest)) ||
                 negb (bool_decide (pm_ProjectionID stored = pm_ProjectionID manifest)) ||
                 negb (bool_decide (pm_GenerationID stored = pm_GenerationID manifest)))
        (PermanentError CodeConflict "projection generation changed" None);
  stored ← update stored;
  txn ← putBadgerSessionMemoryRecord txn key badgerRecordProjectionManifest (with_updated stored updatedAt);
  Ok (txn, tt).

Definition AdvanceProjectionWatermark (fault : option error) (ctx : Context) (manifest : ProjectionManifest)
    (watermark updatedAt : Z) (db : database) : database * result unit :=
  run_with db
    (_ ← sessionMemoryContextError ctx;
     _ ← reject_with_cause (ProjectionManifest_Validate manifest) (updatedAt =? 0)
           CodePermanent "projection manifest update is invalid";
     manifest_key manifest)
    (λ key, Update fault "update projection manifest" (update_body manifest updatedAt (λ stored,
      _ ← reject_if (negb (bool_decide (pm_Status stored = ProjectionGenerationDirty)) ||
                     (watermark <? pm_Watermark stored))
            (PermanentError CodeConflict "projection watermark cannot advance" None);
      Ok (with_watermark stored watermark)) key) db).

(** The transaction of [ActivateProjectionGeneration]: supersede the generation that was
    active, then activate this one. *)
Definition activate_body (manifest : ProjectionManifest) (updatedAt : Z) (manifestKey activeKey : string)
    (txn : database) : result (database * unit) :=
  stored ← getBadgerSessionMemoryRecord txn manifestKey badgerRecordProjectionManifest;
  _ ← reject_if (negb (bool_decide (pm_Status stored = ProjectionGenerationDirty)))
        (PermanentError CodeConflict "projection generation is not dirty" None);
  previous ← optional (getBadgerSessionMemoryRecord txn activeKey badgerRecordProjectionActive);
  txn ← match previous with
        | None => Ok txn
        | Some previous =>
            if bool_decide (pa_GenerationID previous = pm_GenerationID stored) then Ok txn
            else
              previousKey ← badgerProjectionManifestKey (pm_Scope manifest) (pm_ProjectionID manifest)
                              (pa_GenerationID previous);
              old ← getBadgerSessionMemoryRecord txn previousKey badgerRecordProjectionManifest;
              putBadgerSessionMemoryRecord txn previousKey badgerRecordProjectionManifest
                (with_updated (with_status old ProjectionGenerationSuperseded) updatedAt)
        end;
  txn ← putBadgerSessionMemoryRecord txn manifestKey badgerRecordProjectionManifest
          (with_updated (with_status stored ProjectionGenerationActive) updatedAt);
  txn ← putBadgerSessionMemoryRecord txn activeKey badgerRecordProjectionActive
          (mkProjectionActive (pm_GenerationID stored));
  Ok (txn, tt).

Definition ActivateProjectionGeneration (fault : option error) (ctx : Context) (manifest : ProjectionManifest)
    (updatedAt : Z) (db : database) : database * result unit :=
  run_with db
    (_ ← sessionMemoryContextError ctx;
     _ ← reject_with_cause (ProjectionManifest_Validate manifest) (updatedAt =? 0)
           CodePermanent "projection activation is invalid";
     manifestKey ← manifest_key manifest;
     activeKey ← badgerSessionMemoryKey (pm_Scope manifest) badgerRecordProjectionActive (pm_ProjectionID manifest);
     Ok (manifestKey, activeKey))
    (λ '(manifestKey, activeKey), Update fault "activate projection generation"
      (activate_body manifest updatedAt manifestKey activeKey) db).

(** ** Retention floors *)
Definition LoadProjectionRetentionFloor (ctx : Context) (scope : Scope) (projectionID : string) (db : database) :
    result Z :=
  _ ← sessionMemoryContextError ctx;
  _ ← reject_with_cause (Scope_Validate scope) (blank projectionID)
        CodeInvalidScope "projection retention lookup is invalid";
  key ← badgerProjectionRetentionKey scope projectionID;
  retention ← wrap_error "load projection retention floor"
    (get_or (mkProjectionRetention 0) (getBadgerSessionMemoryRecord db key badgerRecordProjectionRetention));
  Ok (rt_Floor retention).

Definition floor_body (floor : Z) (key : string) (txn : database) : result (database * unit) :=
  current ← optional (getBadgerSessionMemoryRecord txn key badgerRecordProjectionRetention);
  _ ← reject_if (match current with Some current => floor <? rt_Floor current | None => false end)
        (PermanentError CodeConflict "projection retention floor moved backwards" None);
  txn ← putBadgerSessionMemoryRecord txn key badgerRecordProjectionRetention (mkProjectionRetention floor);
  Ok (txn, tt).

Definition SetProjectionRetentionFloor (fault : option error) (ctx : Context) (scope : Scope)
    (projectionID : string) (floor : Z) (db : database) : database * result unit :=
  run_with db
    (_ ← sessionMemoryContextError ctx;
     _ ← reject_with_cause (Scope_Validate scope) (blank projectionID)
           CodeInvalidScope "projection retention update is invalid";
     badgerProjectionRetentionKey scope projectionID)
    (λ key, Update fault "set projection retention floor" (floor_body floor key) db).

(** ** Scope checkpoints *)
Definition LoadScopeCheckpoint (ctx : Context) (scope : Scope) (kind : string) (db : database) :
    result (option ScopeCheckpoint) :=
  _ ← sessionMemoryContextError ctx;
  _ ← Scope_Validate scope;
  _ ← ScopeCheckpointKind_Validate kind;
  key ← badgerProjectionCheckpointKey scope kind;
  found ← wrap_error "load scope checkpoint"
            (optional (getBadgerSessionMemoryRecord db key badgerRecordProjectionCheckpoint));
  match found with
  | None => Ok None
  | Some checkpoint =>
      _ ← reject_with_cause (ScopeCheckpoint_Validate checkpoint)
            (negb (bool_decide (ck_Scope checkpoint = scope)) || negb (bool_decide (ck_Kind checkpoint = kind)))
            CodeStoreFailure "stored scope checkpoint is invalid";
      Ok (Some checkpoint)
  end.

Definition checkpoint_body (checkpoint : ScopeCheckpoint) (key : string) (txn : database) :
    result (database * unit) :=
  current ← optional (getBadgerSessionMemoryRecord txn key badgerRecordProjectionCheckpoint);
  let write :=
    txn ← putBadgerSessionMemoryRecord txn key badgerRecordProjectionCheckpoint checkpoint;
    Ok (txn, tt) in
  match current with
  | None => write
  | Some current =>
      _ ← reject_if ((ck_ScopeVersion checkpoint <? ck_ScopeVersion current) ||
                     (ck_ChangeSeq checkpoint <? ck_ChangeSeq current) ||
                     (ck_OccurredAt checkpoint <? ck_OccurredAt current))
            (PermanentError CodeConflict "scope checkpoint moved backwards" None);
      if (ck_ScopeVersion current =? ck_ScopeVersion checkpoint) &&
         (ck_ChangeSeq current =? ck_ChangeSeq checkpoint) &&
         bool_decide (ck_CheckpointID current = ck_CheckpointID checkpoint)
      then Ok (txn, tt)
      else write
  end.

Definition SaveScopeCheckpoint (fault : option error) (ctx : Context) (checkpoint : ScopeCheckpoint)
    (db : database) : database * result unit :=
  run_with db
    (_ ← sessionMemoryContextError ctx;
     _ ← ScopeCheckpoint_Validate checkpoint;
     badgerProjectionCheckpointKey (ck_Scope checkpoint) (ck_Kind checkpoint))
    (λ key, Update fault "save scope checkpoint" (checkpoint_body checkpoint key) db).

(** ** Forget outcomes *)
Definition check_forget_outcome (scope : Scope) (operationID kind : string) (o : ForgetOutcome) : result unit :=
  reject_with_cause (ForgetOutcome_Validate o)
    (negb (bool_decide (fo_Scope o = scope)) || negb (bool_decide (fo_OperationID o = operationID)) ||
     negb (bool_decide (fo_Kind o = kind)))
    CodeStoreFailure "stored canonical forget outcome is invalid".

Definition LoadCanonicalForgetOutcome (ctx : Context) (scope : Scope) (operationID kind : string) (db : database) :
    result (option ForgetOutcome) :=
  _ ← sessionMemoryContextError ctx;
  _ ← Scope_Validate scope;
  _ ← reject_with_cause (ForgetKind_Validate kind)
        (blank operationID || negb (bool_decide (TrimSpace operationID = operationID)))
        CodeInvalidDerived "canonical forget outcome lookup is invalid";
  key ← badgerForgetOutcomeKey scope kind operationID;
  found ← wrap_error "load canonical forget outcome"
            (optional (getBadgerSessionMemoryRecord db key badgerRecordForgetOutcome));
  match found with
  | None => Ok None
  | Some stored => _ ← check_forget_outcome scope operationID kind (bf_Outcome stored); Ok (Some (bf_Outcome stored))
  end.

(** The transaction of [CommitCanonicalForget]. *)
Definition forget_body (r : CanonicalForgetCommitRequest) (scopeKey key : string) (txn : database) :
    result (database * ForgetOutcome) :=
  prior ← optional (getBadgerSessionMemoryRecord txn key badgerRecordForgetOutcome);
  match prior with
  | Some existing =>
      _ ← reject_if (negb (bool_decide (bf_Fingerprint existing = fr_Fingerprint r)))
            (PermanentError CodeConflict "canonical forget operation identity was reused" None);
      _ ← check_forget_outcome (fr_Scope r) (fr_OperationID r) (fr_Kind r) (bf_Outcome existing);
      Ok (txn, bf_Outcome existing)
  | None =>
      state ← read_state txn (fr_Scope r) scopeKey;
      _ ← ScopeState_Validate state;
      _ ← reject_if (negb (sst_Version state =? fr_ExpectedScopeVersion r))
            (RetryableError CodeConflict "canonical forget scope version changed" None);
      let state := advance state in
      let outcome := mkForgetOutcome DerivedSchemaVersionV1 (fr_OperationID r) (fr_Kind r) (fr_Scope r)
        (sst_Version state) (fr_Sources r) (fr_Revisions r) in
      _ ← ForgetOutcome_Validate outcome;
      changeKey ← badgerScopeChangeKey (fr_Scope r) (sst_ChangeSeq state);
      txn ← putBadgerSessionMemoryRecord txn changeKey badgerRecordChange
              (mkScopeChange (sst_ChangeSeq state) (fr_OperationID r) (fr_ForgottenAt r)
                (map rr_RevisionID (fr_Revisions r)));
      txn ← putBadgerSessionMemoryRecord txn scopeKey badgerRecordScope state;
      txn ← putBadgerSessionMemoryRecord txn key badgerRecordForgetOutcome (mkBadgerForget (fr_Fingerprint r) outcome);
      Ok (txn, outcome)
  end.

Definition CommitCanonicalForget (fault : option error) (ctx : Context) (r : CanonicalForgetCommitRequest)
    (db : database) : database * result ForgetOutcome :=
  run_with db
    (_ ← sessionMemoryContextError ctx;
     _ ← CanonicalForgetCommitRequest_Validate r;
     key ← badgerForgetOutcomeKey (fr_Scope r) (fr_Kind r) (fr_OperationID r);
     scopeKey ← badgerScopeKey (fr_Scope r);
     Ok (scopeKey, key))
    (λ '(scopeKey, key), Update fault "commit canonical forget outcome" (forget_body r scopeKey key) db).

(** Enumeration of the revisions still to be denied, with the next cursor. *)
Definition list_revision (scope : Scope) (txn : database) (afterRevisionID : string) (kv : string * stored) :
    result (option RevisionRef) :=
  revision ← decode_entry kv badgerRecordRevision;
  if string_leb (rv_RevisionID revision) afterRevisionID then Ok None
  else
    deniedKey ← badgerSessionMemoryKey scope badgerRecordDeniedRevision (rv_RevisionID revision);
    denied ← optional (getBadgerSessionMemoryRecord (A := badgerDeniedRevision) txn deniedKey badgerRecordDeniedRevision);
    Ok (match denied with
        | Some _ => None
        | None => Some (mkRevisionRef (rv_ItemID revision) (rv_RevisionID revision))
        end).

Definition ListCanonicalRevisionRefs (ctx : Context) (scope : Scope) (afterRevisionID : string) (limit : Z)
    (db : database) : result (list RevisionRef * string) :=
  _ ← sessionMemoryContextError ctx;
  _ ← Scope_Validate scope;
  _ ← reject_if ((limit =? 0) || (512 <? limit) ||
                 (negb (bool_decide (afterRevisionID = "")) &&
                  negb (bool_decide (TrimSpace afterRevisionID = afterRevisionID))))
        (PermanentError CodeLimitExceeded "canonical revision enumeration limit is invalid" None);
  prefix ← badgerSessionMemoryPrefix scope badgerRecordRevision;
  refs ← View "list canonical revision refs" (λ txn,
    collect limit (list_revision scope txn afterRevisionID) [] (scan txn prefix prefix)) db;
  Ok (refs, if Zlength refs <? limit then "" else List.last (map rr_RevisionID refs) "").

(** ** Scrubbing payloads of forgotten records *)
Definition maxCanonicalScrubPayloads : Z := 4096.

(** [appendPayload], with its overflow flag. *)
Definition append_payload (acc : list PayloadRef * bool) (ref : PayloadRef) : list PayloadRef * bool :=
  let '(refs, overflow) := acc in
  if bool_decide (pr_ID ref = "") then acc
  else if bool_decide (pr_ID ref ∈ map pr_ID refs) then acc
  else if maxCanonicalScrubPayloads <=? Zlength refs then (refs, true)
  else (refs ++ [ref], overflow).

(** One of the three scans: the payloads of the records whose key field is wanted. *)
Definition scrub_scan {A} `{Stored A} (scope : Scope) (recordType : string) (id_of : A → string)
    (payload_of : A → PayloadRef) (wanted : list string) (txn : database) (acc : list PayloadRef * bool) :
    result (list PayloadRef * bool) :=
  prefix ← badgerSessionMemoryPrefix scope recordType;
  for_fold (λ acc kv,
    record ← decode_entry kv recordType;
    Ok (if bool_decide (id_of record ∈ wanted) then append_payload acc (payload_of record) else acc))
    acc (scan txn prefix prefix).

Definition scrub_refs (scope : Scope) (sourceIDs revisionIDs : list string) (txn : database) :
    result (list PayloadRef * bool) :=
  acc ← scrub_scan scope badgerRecordSource sr_SourceID sr_Payload sourceIDs txn ([], false);
  acc ← scrub_scan scope badgerRecordRevision rv_RevisionID rv_Payload revisionIDs txn acc;
  if bool_decide (sourceIDs = []) then Ok acc
  else scrub_scan scope badgerRecordMessage mr_SourceID mr_Payload sourceIDs txn acc.

Fixpoint delete_payloads (fault : PayloadRef → option error) (ctx : Context) (refs : list PayloadRef)
    (db : database) : database * result unit :=
  match refs with
  | [] => (db, Ok tt)
  | ref :: refs =>
      match DeletePayload (fault ref) ctx ref db with
      | (db, Err err) => (db, Err err)
      | (db, Ok _) => delete_payloads fault ctx refs db
      end
  end.

Definition valid_scrub_id (what id : string) : result unit :=
  reject_if (negb (bool_decide (TrimSpace id = id)) || bool_decide (id = ""))
    (PermanentError CodeInvalidDerived ("canonical forget " +:+ what +:+ " identity is invalid") None).

(** The scan sees [db]; the deletions, one transaction each, start from [current]. *)
Definition ScrubCanonicalForget (fault : PayloadRef → option error) (ctx : Context) (scope : Scope)
    (sourceIDs revisionIDs : list string) (db current : database) : database * result unit :=
  run_with current
    (_ ← sessionMemoryContextError ctx;
     _ ← Scope_Validate scope;
     _ ← reject_if ((4096 <? Zlength sourceIDs) || (4096 <? Zlength revisionIDs))
           (PermanentError CodeLimitExceeded "canonical forget scrub bound exceeded" None);
     _ ← for_each (valid_scrub_id "source") sourceIDs;
     _ ← for_each (valid_scrub_id "revision") revisionIDs;
     '(refs, overflow) ← View "scan canonical forget payloads" (scrub_refs scope sourceIDs revisionIDs) db;
     _ ← reject_if overflow
           (PermanentError CodeLimitExceeded "canonical forget scrub payload bound exceeded" None);
     Ok refs)
    (λ refs, delete_payloads fault ctx refs current).
