(* ===== verification/BadgerWrites.v ===== *)
(** * BadgerWrites: every transaction of the store is a list of writes

    The common shape of the store's transactions: the records of a mutation, of a
    commit and of the smaller operations are put one after another, each under a
    key, of a record type, and either immutable (an equal record may already be
    there) or overwriting.  The lemmas here say once what a list of such writes
    keeps, adds and overwrites; BadgerSpec applies them to the operations. *)

From Stdlib Require Import ZArith Lia Ascii String.
From stdpp Require Import base numbers list gmap strings.
From S2P Require Import Prelude.
From S2P Require Import GoStrings.
From S2P Require Import MemoryTypes.
From S2P Require Import MemoryRecords.
From S2P Require Import MemoryDerived.
From S2P Require Import MemoryCanonical.
From S2P Require Import BadgerKeys.
From S2P Require Import BadgerTxn.
From S2P Require Import BadgerStore.

Local Open Scope string_scope.
Local Open Scope list_scope.
Local Open Scope Z_scope.

(** ** Folds *)
Lemma for_fold_app {A S} (f : S → A → result S) s l1 l2 :
  for_fold f s (l1 ++ l2) = (s' ← for_fold f s l1; for_fold f s' l2).
Proof.
  revert s. induction l1 as [|x l1 IH]; intros s; [reflexivity|]. cbn [app for_fold].
  destruct (f s x) as [s1|e]; [|reflexivity]. rewrite !bind_ok. apply IH.
Qed.

Lemma for_fold_map {A B S} (f : S → A → result S) (h : B → A) s l :
  for_fold f s (map h l) = for_fold (λ s x, f s (h x)) s l.
Proof.
  revert s. induction l as [|x l IH]; intros s; [reflexivity|]. cbn [map for_fold].
  destruct (f s (h x)) as [s1|e]; [|reflexivity]. rewrite !bind_ok. apply IH.
Qed.

Lemma for_fold_flat {A B S} (f : S → A → result S) (h : B → list A) s l :
  for_fold f s (l ≫= h) = for_fold (λ s x, for_fold f s (h x)) s l.
Proof.
  revert s. induction l as [|x l IH]; intros s; [reflexivity|].
  change ((x :: l) ≫= h) with (h x ++ (l ≫= h)). rewrite for_fold_app. cbn [for_fold].
  destruct (for_fold f s (h x)) as [s1|e]; [|reflexivity]. rewrite !bind_ok. apply IH.
Qed.

Lemma for_fold_ext {A S} (f g : S → A → result S) s l :
  (∀ s x, f s x = g s x) → for_fold f s l = for_fold g s l.
Proof.
  intros H. revert s. induction l as [|x l IH]; intros s; [reflexivity|]. cbn [for_fold].
  rewrite H. destruct (g s x) as [s1|e]; [|reflexivity]. rewrite !bind_ok. apply IH.
Qed.

(** ** Writes *)
#[export] Instance stored_value : Stored Value :=
  {| inject v := v; project v := Some v; project_inject v := eq_refl; inject_project v w H := f_equal (default v) H |}.

Record entry := mkEntry { en_key : result string; en_type : string; en_value : Value; en_over : bool }.

Definition en_stored (e : entry) : stored := mkStored (en_type e) (en_value e).

Definition put_entry (txn : database) (e : entry) : result database :=
  key ← en_key e;
  if en_over e then putBadgerSessionMemoryRecord txn key (en_type e) (en_value e)
  else putBadgerSessionMemoryImmutableRecord txn key (en_type e) (en_value e).

(** A successful list of writes. *)
Definition effect (es : list entry) (db db' : database) : Prop := for_fold put_entry db es = Ok db'.

Lemma put_entry_Ok txn e txn' :
  put_entry txn e = Ok txn' ↔
  ∃ k, en_key e = Ok k ∧ marshals (en_value e) = true ∧
    ((txn' = <[k := en_stored e]> txn ∧ (en_over e = false → txn !! k = None)) ∨
     (txn' = txn ∧ en_over e = false ∧ txn !! k = Some (en_stored e))).
Proof.
  unfold put_entry. rewrite bind_Ok. unfold putBadgerSessionMemoryImmutableRecord, putBadgerSessionMemoryRecord.
  cbn [inject stored_value]. fold (en_stored e).
  destruct (marshals (en_value e)) eqn:Hm; cbn [negb].
  2: { split; [|naive_solver]. intros (k & _ & H). exfalso. by destruct (en_over e). }
  split; intros (k & Hk & H); exists k; (split; [exact Hk|]); revert H; rewrite !reject_false.
  - intros H. split; [done|]. destruct (en_over e); [apply Ok_inj in H as <-; by left|].
    destruct (txn !! k) as [st|] eqn:Hl; [|apply Ok_inj in H as <-; by left].
    apply reject_bind in H as (Hs & H%Ok_inj). apply negb_false_iff, bool_decide_eq_true in Hs. right. by subst.
  - intros (_ & [[-> Hn]|[-> [-> Hl]]]).
    + destruct (en_over e); [done|]. by rewrite Hn.
    + rewrite Hl. apply reject_bind. by rewrite bool_decide_true.
Qed.

Lemma effect_nil db : effect [] db db.
Proof. reflexivity. Qed.

Lemma effect_cons e es db db' : effect (e :: es) db db' ↔ ∃ db1, put_entry db e = Ok db1 ∧ effect es db1 db'.
Proof. unfold effect. cbn [for_fold]. apply bind_Ok. Qed.

Lemma effect_app es1 es2 db db' : effect (es1 ++ es2) db db' ↔ ∃ db1, effect es1 db db1 ∧ effect es2 db1 db'.
Proof. unfold effect. rewrite for_fold_app. apply bind_Ok. Qed.

(** Every key was built. *)
Lemma effect_keys es db db' e : effect es db db' → e ∈ es → ∃ k, en_key e = Ok k.
Proof.
  revert db. induction es as [|x es IH]; intros db; [by intros _ ?%not_elem_of_nil|].
  intros (db1 & (k & Hk & _)%put_entry_Ok & H)%effect_cons [->|Hin]%elem_of_cons; [by exists k | by eapply IH].
Qed.

(** Nothing disappears; what is there afterwards was there or was written. *)
Lemma effect_origin es db db' k st :
  effect es db db' → db' !! k = Some st →
  db !! k = Some st ∨ ∃ e, e ∈ es ∧ en_key e = Ok k ∧ st = en_stored e.
Proof.
  revert db. induction es as [|x es IH]; intros db; [intros H Hk; apply Ok_inj in H; subst; by left|].
  intros (db1 & Hx & H)%effect_cons Hk. destruct (IH _ H Hk) as [H1|(e & He & Hek & ->)].
  - apply put_entry_Ok in Hx as (k' & Hk' & _ & [[-> _]|[-> _]]); [|by left].
    destruct (decide (k' = k)) as [->|Hne].
    + rewrite lookup_insert_eq in H1. injection H1 as <-. right. exists x. split; [apply list_elem_of_here | done].
    + rewrite lookup_insert_ne in H1 by done. by left.
  - right. exists e. split; [by apply list_elem_of_further | done].
Qed.

(** A record survives unless an overwriting write has its key. *)
Lemma effect_keeps es db db' k st :
  effect es db db' → db !! k = Some st → (∀ e, e ∈ es → en_over e = true → en_key e ≠ Ok k) →
  db' !! k = Some st.
Proof.
  revert db. induction es as [|x es IH]; intros db; [by intros ->%Ok_inj|].
  intros (db1 & Hx & H)%effect_cons Hk Hes. apply (IH db1 H); [|intros e He; apply Hes; by apply list_elem_of_further].
  apply put_entry_Ok in Hx as (k' & Hk' & _ & [[-> Ho]|[-> _]]); [|done].
  destruct (decide (k' = k)) as [->|Hne]; [|by rewrite lookup_insert_ne].
  destruct (en_over x) eqn:E; [exfalso; by apply (Hes x); [apply list_elem_of_here|..]|].
  rewrite Ho in Hk by done. discriminate.
Qed.

(** A key no write has is untouched. *)
Lemma effect_frame es db db' k :
  effect es db db' → (∀ e, e ∈ es → en_key e ≠ Ok k) → db' !! k = db !! k.
Proof.
  intros H Hes. destruct (db !! k) as [st|] eqn:E.
  - apply (effect_keeps es db db' k st H E). intros e He _. by apply Hes.
  - destruct (db' !! k) as [st|] eqn:E'; [|done]. exfalso.
    destruct (effect_origin _ _ _ _ _ H E') as [?|(e & He & Hk & _)]; [congruence | by apply (Hes e)].
Qed.

(** What is written is there, when the writes of a key agree. *)
Lemma effect_written es db db' e k :
  effect es db db' → e ∈ es → en_key e = Ok k →
  (∀ e', e' ∈ es → en_over e' = true → en_key e' = Ok k → en_stored e' = en_stored e) →
  db' !! k = Some (en_stored e).
Proof.
  revert db e. induction es as [|x es IH]; intros db e; [by intros _ ?%not_elem_of_nil|].
  intros (db1 & Hx & H)%effect_cons Hin Hk Hagree.
  assert (Hagree' : ∀ e', e' ∈ es → en_over e' = true → en_key e' = Ok k → en_stored e' = en_stored e)
    by (intros e' He'; apply Hagree; by apply list_elem_of_further).
  apply elem_of_cons in Hin as [->|Hin]; [|by apply (IH db1 e)].
  assert (H1 : db1 !! k = Some (en_stored x)).
  { apply put_entry_Ok in Hx as (k' & Hk' & _ & [[-> _]|(-> & _ & Hl)]); rewrite Hk in Hk'; apply Ok_inj in Hk' as <-;
      [apply lookup_insert_eq | exact Hl]. }
  destruct (decide (Exists (λ e', en_over e' = true ∧ en_key e' = Ok k) es)) as [Hex|Hno].
  - apply Exists_exists in Hex as (e' & He' & Ho & Hk'). rewrite <-(Hagree' e') by done.
    apply (IH db1 e' H He' Hk'). intros e2 He2 Ho2 Hk2. rewrite (Hagree' e2), (Hagree' e') by done. done.
  - apply (effect_keeps es db1 db' k _ H H1). intros e' He' Ho Hk'. apply Hno. apply Exists_exists. by exists e'.
Qed.

(** A write that succeeds finds its key free or holding the same record, unless it overwrites. *)
Lemma effect_immutable es db db' e k :
  effect es db db' → e ∈ es → en_key e = Ok k → en_over e = false →
  (∀ e', e' ∈ es → en_over e' = true → en_key e' ≠ Ok k) →
  db' !! k = Some (en_stored e) ∧ (db !! k = None ∨ db !! k = Some (en_stored e)).
Proof.
  intros H Hin Hk Ho Hno.
  assert (H' : db' !! k = Some (en_stored e)).
  { apply (effect_written es db db' e k H Hin Hk). intros e' He' Ho' Hk'. exfalso. by apply (Hno e'). }
  split; [exact H'|]. destruct (db !! k) as [st|] eqn:E; [right | by left].
  rewrite (effect_keeps es db db' k st H E Hno) in H'. exact H'.
Qed.
