(* ===== verification/BadgerProvenance.v ===== *)
(** * BadgerProvenance: the provenance check is exact

    The depth-first search of [validateBadgerMutationProvenance]
    (src/sessionmemory/store/badger/badger_session_memory.go) against its
    specification: the new revisions of a mutation and their parents form no
    cycle, and every parent is new or stored.  The colors are those of the source;
    the fuel of [visit] bounds the depth of its recursion, and the length of the
    grey path bounds what is needed. *)

From Stdlib Require Import ZArith Lia Ascii String.
From stdpp Require Import base numbers list gmap strings relations.
From S2P Require Import Prelude.
From S2P Require Import GoStrings.
From S2P Require Import MemoryTypes.
From S2P Require Import MemoryRecords.
From S2P Require Import MemoryDerived.
From S2P Require Import MemoryCanonical.
From S2P Require Import BadgerKeys.
From S2P Require Import BadgerTxn.
From S2P Require Import BadgerStore.

Local Open Scope string_scope.
Local Open Scope list_scope.
Local Open Scope Z_scope.

(** ** The graph of a mutation *)
Definition parent_edge (revisions : list MemoryRevision) (child parent : string) : Prop :=
  ∃ r, r ∈ revisions ∧ rv_RevisionID r = child ∧ parent ∈ rv_Parents r.

Definition acyclic (revisions : list MemoryRevision) : Prop := ∀ id, ¬ tc (parent_edge revisions) id id.

(** ** The map of new revisions *)
Lemma revision_map_lookup revisions id r :
  NoDup (map rv_RevisionID revisions) →
  foldl (λ acc r, <[rv_RevisionID r := r]> acc) (∅ : gmap string MemoryRevision) revisions !! id = Some r ↔
  r ∈ revisions ∧ rv_RevisionID r = id.
Proof.
  intros Hnd. assert (Hgen : ∀ l (acc : gmap string MemoryRevision), NoDup (map rv_RevisionID l) →
    foldl (λ acc r, <[rv_RevisionID r := r]> acc) acc l !! id = Some r ↔
    (r ∈ l ∧ rv_RevisionID r = id) ∨ (acc !! id = Some r ∧ id ∉ map rv_RevisionID l)).
  { intros l. induction l as [|x l IH]; intros acc Hl; cbn [foldl map].
    - rewrite elem_of_nil. set_solver.
    - apply NoDup_cons in Hl as [Hx Hl]. rewrite IH by done. rewrite elem_of_cons.
      destruct (decide (rv_RevisionID x = id)) as [<-|Hne].
      + rewrite lookup_insert_eq. split.
        * intros [[Hr Hid]|[[= <-] _]]; left; [split; [by right | done] | split; [by left | done]].
        * intros [[[->|Hr] Hid]|[_ Hn]]; [right; by split | left; by split | exfalso; apply Hn; by left].
      + rewrite lookup_insert_ne by done. split.
        * intros [[Hr Hid]|[Ha Hn]]; [left; split; [by right | done]|].
          right. split; [done|]. rewrite not_elem_of_cons. by split; [apply not_eq_sym|].
        * intros [[[->|Hr] Hid]|[Ha Hn]]; [done | left; by split|].
          right. split; [done|]. by apply not_elem_of_cons in Hn as [_ Hn]. }
  rewrite Hgen by done. rewrite lookup_empty. naive_solver.
Qed.

Section search.
  Context (revisions : list MemoryRevision) (ids_distinct : NoDup (map rv_RevisionID revisions)).
Let new : gmap string MemoryRevision := foldl (λ acc r, <[rv_RevisionID r := r]> acc) ∅ revisions.

Lemma new_lookup id r : new !! id = Some r ↔ r ∈ revisions ∧ rv_RevisionID r = id.
  Proof using ids_distinct. by apply revision_map_lookup. Qed.

Lemma edge_new id r p : new !! id = Some r → parent_edge revisions id p ↔ p ∈ rv_Parents r.
  Proof using ids_distinct.
    intros Hr. split.
    - intros (r' & Hin & Hid & Hp). assert (new !! id = Some r') by (by apply new_lookup). congruence.
    - apply new_lookup in Hr as [Hin Hid]. intros Hp. by exists r.
  Qed.

  (** A revision from which every chain of parents is finite. *)
Definition grounded (id : string) : Prop := Acc (λ p c, parent_edge revisions c p) id.

Lemma leaf_grounded id : new !! id = None → grounded id.
  Proof using ids_distinct.
    intros Hn. constructor. intros p (r & Hin & Hid & _).
    assert (new !! id = Some r) by (by apply new_lookup). congruence.
  Qed.

Lemma grounded_no_cycle id : grounded id → ¬ tc (parent_edge revisions) id id.
  Proof using.
    intros Hg. assert (Hgen : ∀ x, grounded x → ¬ tc (parent_edge revisions) x x).
    { intros x Hx. induction Hx as [x _ IH]. intros Hc. inversion Hc as [? ? He|? y ? He Ht]; subst.
      - by apply (IH x He).
      - apply (IH y He). eapply tc_r; [exact Ht | exact He]. }
    by apply Hgen.
  Qed.

  (** *** Whatever the search accepts is grounded *)
Definition black_grounded (colors : gmap string Z) : Prop := ∀ x, colors !! x = Some BLACK → grounded x.

Lemma visits_sound fuel l colors colors' :
    (∀ id colors colors', black_grounded colors → visit new fuel colors id = Ok colors' →
      black_grounded colors' ∧ grounded id) →
    black_grounded colors → for_fold (visit new fuel) colors l = Ok colors' →
    black_grounded colors' ∧ ∀ id, id ∈ l → grounded id.
  Proof using.
    intros Hv. revert colors. induction l as [|x l IH]; intros colors Hb; cbn [for_fold].
    - intros ->%Ok_inj. split; [done|]. by intros id ?%not_elem_of_nil.
    - intros (c1 & H1 & H)%bind_Ok. destruct (Hv _ _ _ Hb H1) as [Hb1 Hx].
      destruct (IH _ Hb1 H) as [Hb' Hl]. split; [done|]. intros id [->|Hin]%elem_of_cons; [done | by apply Hl].
  Qed.

Lemma visit_sound fuel : ∀ id colors colors',
    black_grounded colors → visit new fuel colors id = Ok colors' → black_grounded colors' ∧ grounded id.
  Proof using ids_distinct.
    induction fuel as [|fuel IH]; intros id colors colors' Hb H; [done|]. cbn [visit] in H.
    case_bool_decide as Hg; [done|]. case_bool_decide as Hbl.
    { apply Ok_inj in H as <-. split; [done | by apply Hb]. }
    destruct (new !! id) as [r|] eqn:Hr.
    - apply bind_Ok in H as (c1 & H1 & H%Ok_inj). subst colors'.
      apply (visits_sound fuel _ _ _ IH) in H1 as [Hb1 Hp].
      + assert (Hid : grounded id). { constructor. intros p Hp'%(edge_new id r p Hr). by apply Hp. }
        split; [|done]. intros x. destruct (decide (id = x)) as [->|Hne]; [done|].
        rewrite lookup_insert_ne by done. apply Hb1.
      + intros x. destruct (decide (id = x)) as [->|Hne]; [by rewrite lookup_insert_eq|].
        rewrite lookup_insert_ne by done. apply Hb.
    - apply Ok_inj in H as <-. split; [done | by apply leaf_grounded].
  Qed.

  (** *** A graph without cycles is accepted *)

  (** The grey revisions are the path of the recursion; each leads to the last one. *)
Definition on_path (path : list string) (colors : gmap string Z) : Prop :=
    NoDup path ∧ (∀ x, x ∈ path → is_Some (new !! x)) ∧ ∀ x, colors !! x = Some GREY ↔ x ∈ path.

Lemma path_short path colors : on_path path colors → (length path ≤ size new)%nat.
  Proof using.
    intros (Hnd & Hin & _). rewrite <-size_dom, <-(size_list_to_set (C := gset string) path) by done.
    apply subseteq_size. intros x Hx%elem_of_list_to_set. apply elem_of_dom. by apply Hin.
  Qed.

Lemma path_full path colors id :
    on_path path colors → is_Some (new !! id) → id ∉ path → (S (length path) ≤ size new)%nat.
  Proof using.
    intros (Hnd & Hin & _) Hid Hn.
    assert (Hl : length (id :: path) = S (length path)) by done. rewrite <-Hl.
    rewrite <-size_dom, <-(size_list_to_set (C := gset string) (id :: path)) by (by constructor).
    apply subseteq_size. intros x [->|Hx]%elem_of_list_to_set%elem_of_cons; apply elem_of_dom; [done | by apply Hin].
  Qed.

Lemma visit_complete fuel : acyclic revisions → ∀ path id colors,
    on_path path colors → (∀ x, x ∈ path → tc (parent_edge revisions) x id) →
    (S (size new) ≤ fuel + length path)%nat →
    ∃ colors', visit new fuel colors id = Ok colors' ∧ on_path path colors'.
  Proof using ids_distinct.
    intros Ha. induction fuel as [|fuel IH]; intros path id colors Hp Hlast Hfuel.
    { pose proof (path_short _ _ Hp). lia. }
    cbn [visit]. case_bool_decide as Hg.
    { exfalso. apply (Ha id), Hlast. by apply Hp. }
    case_bool_decide as Hb; [by exists colors|]. destruct (new !! id) as [r|] eqn:Hr; [|by exists colors].
    assert (Hn : id ∉ path). { intros Hin. apply Hg. by apply Hp. }
    assert (Hp1 : on_path (path ++ [id]) (<[id := GREY]> colors)).
    { destruct Hp as (Hnd & Hin & Hc). split; [|split].
      - apply NoDup_app. split; [done|]. split; [|apply NoDup_singleton].
        intros x Hx ->%list_elem_of_singleton. done.
      - intros x [Hx| ->%list_elem_of_singleton]%elem_of_app; [by apply Hin | by rewrite Hr].
      - intros x. rewrite elem_of_app, list_elem_of_singleton. destruct (decide (id = x)) as [->|Hne].
        + rewrite lookup_insert_eq. naive_solver.
        + rewrite lookup_insert_ne, Hc by done. naive_solver. }
    assert (Hfold : ∀ l c, on_path (path ++ [id]) c → (∀ p, p ∈ l → parent_edge revisions id p) →
      ∃ c', for_fold (visit new fuel) c l = Ok c' ∧ on_path (path ++ [id]) c').
    { intros l. induction l as [|p l IHl]; intros c Hc Hl; [by exists c|]. cbn [for_fold].
      assert (Hedge : parent_edge revisions id p) by (apply Hl, list_elem_of_here).
      destruct (IH (path ++ [id]) p c Hc) as (c1 & H1 & Hc1).
      - intros x [Hx| ->%list_elem_of_singleton]%elem_of_app; [|by apply tc_once].
        eapply tc_r; [by apply Hlast | exact Hedge].
      - rewrite length_app. cbn [length]. lia.
      - rewrite H1, bind_ok. apply IHl; [done|]. intros q Hq. apply Hl. by apply list_elem_of_further. }
    destruct (Hfold (rv_Parents r) _ Hp1) as (c' & Hc' & Hp').
    { intros p Hpp. by apply (edge_new id r p Hr). }
    rewrite Hc', bind_ok. eexists. split; [reflexivity|]. destruct Hp as (Hnd & Hin & Hc), Hp' as (_ & _ & Hc2).
    split; [done|]. split; [done|]. intros x. destruct (decide (id = x)) as [->|Hne].
    - rewrite lookup_insert_eq. split; [by intros [=] | done].
    - rewrite lookup_insert_ne, Hc2, elem_of_app, list_elem_of_singleton by done. naive_solver.
  Qed.

Lemma visits_complete fuel l : acyclic revisions → (S (size new) ≤ fuel)%nat → ∀ colors,
    on_path [] colors → ∃ colors', for_fold (visit new fuel) colors l = Ok colors' ∧ on_path [] colors'.
  Proof using ids_distinct.
    intros Ha Hf. induction l as [|x l IH]; intros colors Hp; [by exists colors|]. cbn [for_fold].
    destruct (visit_complete fuel Ha [] x colors Hp) as (c1 & H1 & Hc1).
    - by intros y ?%not_elem_of_nil.
    - cbn [length]. lia.
    - rewrite H1, bind_ok. by apply IH.
  Qed.

Lemma cycle_is_new id : tc (parent_edge revisions) id id → id ∈ map rv_RevisionID revisions.
  Proof using.
    intros Hc. assert (∃ p, parent_edge revisions id p) as (p & r & Hin & <- & _).
    { inversion Hc; subst; by eexists. }
    by apply list_elem_of_fmap_2.
  Qed.

Lemma search_exact :
    is_ok (for_fold (visit new (S (length revisions))) ∅ (map rv_RevisionID revisions)) = true ↔
    acyclic revisions.
  Proof using ids_distinct.
    rewrite is_ok_true. split.
    - intros (c & H) id Hc. apply (visits_sound (S (length revisions))) in H as [_ Hall].
      + apply (grounded_no_cycle id); [|exact Hc]. apply Hall. by apply cycle_is_new.
      + intros x cs cs'. apply visit_sound.
      + intros x Hx. by rewrite lookup_empty in Hx.
    - intros Ha. destruct (visits_complete (S (length revisions)) (map rv_RevisionID revisions) Ha) with (colors := ∅ : gmap string Z)
        as (c & Hc & _).
      + assert (Hs : (size new ≤ length revisions)%nat); [|lia].
        rewrite <-(length_map rv_RevisionID revisions), <-(size_list_to_set (C := gset string)) by done.
        rewrite <-size_dom. apply subseteq_size. intros x [r Hr]%elem_of_dom.
        apply new_lookup in Hr as [Hin <-]. apply elem_of_list_to_set. by apply list_elem_of_fmap_2.
      + split; [constructor|]. split; [by intros x ?%not_elem_of_nil|]. intros x.
        rewrite lookup_empty, elem_of_nil. naive_solver.
      + by exists c.
  Qed.
End search.

(** ** The whole check *)

(** A parent that is new, or stored as a revision of the scope. *)
Definition parent_known (txn : database) (m : CanonicalMutation) (parentID : string) : Prop :=
  parentID ∈ map rv_RevisionID (cm_Revisions m) ∨
  ∃ k, badgerSessionMemoryKey (cm_Scope m) badgerRecordRevision parentID = Ok k ∧ is_Some (txn !! k).

Lemma new_is_Some m id :
  NoDup (map rv_RevisionID (cm_Revisions m)) →
  is_Some (revision_map m !! id) ↔ id ∈ map rv_RevisionID (cm_Revisions m).
Proof.
  intros Hnd. unfold revision_map. split.
  - intros [r [Hin <-]%revision_map_lookup]; [|done]. by apply list_elem_of_fmap_2.
  - intros (r & -> & Hin)%list_elem_of_fmap. exists r. by apply revision_map_lookup.
Qed.

Lemma provenance_exact txn m :
  NoDup (map rv_RevisionID (cm_Revisions m)) →
  validateBadgerMutationProvenance txn m = Ok tt ↔
  (∀ r p, r ∈ cm_Revisions m → p ∈ rv_Parents r → parent_known txn m p) ∧ acyclic (cm_Revisions m).
Proof.
  intros Hnd. unfold validateBadgerMutationProvenance.
  rewrite bind_unit, for_each_Ok, <-search_exact by done. fold (revision_map m).
  apply Morphisms_Prop.and_iff_morphism.
  - rewrite Forall_forall. split; intros H r.
    + intros p Hr Hp. specialize (H r Hr). rewrite for_each_Ok, Forall_forall in H. specialize (H p Hp).
      cbn beta in H. case_bool_decide as Hn; [left; by apply new_is_Some|]. right.
      apply bind_Ok in H as (k & Hk & H). exists k. split; [done|].
      apply reject_if_Ok, bool_decide_eq_false in H. by apply not_eq_None_Some.
    + intros Hr. apply for_each_Ok, Forall_forall. intros p Hp. case_bool_decide as Hn; [done|].
      destruct (H r p Hr Hp) as [Hin|(k & Hk & Hs)]; [by apply new_is_Some in Hin|].
      rewrite Hk, bind_ok. apply reject_if_Ok, bool_decide_eq_false. by apply not_eq_None_Some.
  - rewrite is_ok_true, bind_Ok. split; intros (c & Hc); exists c; [by destruct Hc | by split].
Qed.

(** ** Properties *)

(** C33. The provenance check is exact: with distinct revision identities a mutation
    passes it if and only if the parents of its revisions are new or stored and
    the new revisions form no cycle through their parents.  In particular the
    search always ends within its fuel. *)
Theorem provenance_check_exact txn m :
  NoDup (map rv_RevisionID (cm_Revisions m)) →
  validateBadgerMutationProvenance txn m = Ok tt ↔
  (∀ r p, r ∈ cm_Revisions m → p ∈ rv_Parents r → parent_known txn m p) ∧ acyclic (cm_Revisions m).
Proof. apply provenance_exact. Qed.

(** ** Witness: a revision and its parent, both new *)
Definition demo_chain : list MemoryRevision :=
  let revision id parents := mkMemoryRevision CanonicalSchemaVersionV1 id "item" 1 parents
    (mkTemporal 1000000000 None None None None "" "" "") [] "" "" (mkPayloadRef "p1" "digest" 1) in
  [revision "r2" ["r1"]; revision "r1" []].
Definition demo_chain_mutation : CanonicalMutation :=
  mkCanonicalMutation CanonicalSchemaVersionV1 demo_scope 0 (mkOperationRecord "op1" "print" [] 1000000000)
    [] [] [] demo_chain [] [] [] [].

Lemma provenance_check_exact_witness :
  (∀ r p, r ∈ demo_chain → p ∈ rv_Parents r → parent_known ∅ demo_chain_mutation p) ∧ acyclic demo_chain.
Proof.
  refine (proj1 (provenance_check_exact ∅ demo_chain_mutation _) _).
  - apply (bool_decide_unpack _). vm_compute. exact I.
  - vm_compute. reflexivity.
Defined.
