(* ===== verification/BadgerEntries.v ===== *)
(** * BadgerEntries: what the commits write

    The three committing transactions of the store (a mutation, an operation
    without records, a forget outcome) as lists of writes: which keys, of which
    record types, immutable or overwriting.  BadgerRefinement relates these lists
    to the abstract ledger. *)

From Stdlib Require Import ZArith Lia Ascii String.
From stdpp Require Import base numbers list gmap strings.
From S2P Require Import Prelude.
From S2P Require Import GoStrings.
From S2P Require Import MemoryTypes.
From S2P Require Import MemoryRecords.
From S2P Require Import MemoryDerived.
From S2P Require Import MemoryCanonical.
From S2P Require Import MemoryForget.
From S2P Require Import BadgerKeys.
From S2P Require Import BadgerTxn.
From S2P Require Import BadgerStore.
From S2P Require Import BadgerLedgers.
From S2P Require Import BadgerWrites.

Local Open Scope string_scope.
Local Open Scope list_scope.
Local Open Scope Z_scope.

(** ** The writes of a mutation *)
Definition record_entry {A} `{Stored A} (scope : Scope) (recordType : string) (id_of : A → string) (a : A) : entry :=
  mkEntry (badgerSessionMemoryKey scope recordType (id_of a)) recordType (inject a) false.

Definition payload_entry (p : CanonicalPayload) : entry :=
  mkEntry (payload_key (pr_ID (cp_Ref p))) badgerRecordPayload (VPayload (cp_Data p)) false.

Definition edge_entry (scope : Scope) (recordType from to : string) (edge : badgerProvenanceEdge) : entry :=
  mkEntry (badgerProvenanceKey scope recordType from to) recordType (VEdge edge) false.

Definition parent_entries (scope : Scope) (child parent : string) : list entry :=
  [edge_entry scope badgerRecordProvenanceForward child parent (mkEdge child parent);
   edge_entry scope badgerRecordProvenanceReverse parent child (mkEdge child parent)].

Definition source_entry (scope : Scope) (child : string) (e : EvidenceRef) : entry :=
  edge_entry scope badgerRecordSourceRevision (ev_SourceID e) child (mkEdge child (ev_SourceID e)).

Definition revision_entries (scope : Scope) (r : MemoryRevision) : list entry :=
  record_entry scope badgerRecordRevision rv_RevisionID r ::
  (rv_Parents r ≫= parent_entries scope (rv_RevisionID r)) ++
  map (source_entry scope (rv_RevisionID r)) (rv_Evidence r).

Definition head_entry (scope : Scope) (h : ItemHead) : entry :=
  mkEntry (badgerSessionMemoryKey scope badgerRecordHead (ih_ItemID h)) badgerRecordHead (VHead h) true.

Definition mutation_entries (m : CanonicalMutation) : list entry :=
  let s := cm_Scope m in
  map payload_entry (cm_Payloads m) ++
  map (record_entry s badgerRecordSource sr_SourceID) (cm_Sources m) ++
  map (record_entry s badgerRecordMessage mr_MessageID) (cm_Messages m) ++
  map (record_entry s badgerRecordItem mi_ItemID) (cm_Items m) ++
  (cm_Revisions m ≫= revision_entries s) ++
  map (record_entry s badgerRecordLifecycle le_EventID) (cm_Lifecycle m) ++
  map (head_entry s) (cm_Heads m) ++
  map (record_entry s badgerRecordDelivery do_DeliveryID) (cm_Delivery m).

(** ** The writes of a commit *)
Definition change_entry (scope : Scope) (c : ScopeChange) : entry :=
  mkEntry (badgerScopeChangeKey scope (ch_Sequence c)) badgerRecordChange (VChange c) true.
Definition state_entry (scope : Scope) (st : ScopeState) : entry :=
  mkEntry (badgerScopeKey scope) badgerRecordScope (VScope st) true.
Definition operation_entry (scope : Scope) (id : string) (o : badgerCanonicalOperation) : entry :=
  mkEntry (badgerOperationKey scope id) badgerRecordOperation (VOperation o) true.
Definition forget_entry (scope : Scope) (kind id : string) (o : badgerCanonicalForgetOutcome) : entry :=
  mkEntry (badgerForgetOutcomeKey scope kind id) badgerRecordForgetOutcome (VForget o) true.

(** ** Equations *)
Lemma bind_Ok_id {A} (r : result A) : (r ≫= λ a, Ok a) = r.
Proof. by destruct r. Qed.

Lemma bind_step {A B} (m1 m2 : result A) (k1 k2 : A → result B) :
  m1 = m2 → (∀ a, k1 a = k2 a) → (m1 ≫= k1) = (m2 ≫= k2).
Proof. intros -> H. destruct m2; [apply H | reflexivity]. Qed.

Lemma put_records_map {A} `{Stored A} scope ty (id_of : A → string) txn l :
  for_fold (λ txn a, putBadgerCanonicalRecord txn scope ty (id_of a) a) txn l =
  for_fold put_entry txn (map (record_entry scope ty id_of) l).
Proof. rewrite for_fold_map. apply for_fold_ext. reflexivity. Qed.

Lemma put_revision_entries scope txn r :
  put_revision scope txn r = for_fold put_entry txn (revision_entries scope r).
Proof.
  unfold put_revision, revision_entries. cbn [for_fold].
  apply bind_step; [reflexivity|]. intros t1. rewrite for_fold_app, for_fold_flat. apply bind_step.
  - apply for_fold_ext. intros t p. cbn [for_fold parent_entries]. apply bind_step; [reflexivity|].
    intros t2. by rewrite bind_Ok_id.
  - intros t2. rewrite for_fold_map. apply for_fold_ext. reflexivity.
Qed.

Lemma put_mutation_entries txn m :
  putCanonicalMutationRecords txn m =
    (_ ← validateBadgerMutationReferences txn m;
     _ ← validateBadgerMutationProvenance txn m;
     for_fold put_entry txn (mutation_entries m)).
Proof.
  unfold putCanonicalMutationRecords, mutation_entries.
  destruct (validateBadgerMutationReferences txn m) as [[]|]; [|reflexivity].
  destruct (validateBadgerMutationProvenance txn m) as [[]|]; [|reflexivity].
  rewrite !bind_ok. cbv zeta.
  rewrite for_fold_app. apply bind_step; [by rewrite for_fold_map|]. intros t1.
  rewrite for_fold_app. apply bind_step; [apply put_records_map|]. intros t2.
  rewrite for_fold_app. apply bind_step; [apply put_records_map|]. intros t3.
  rewrite for_fold_app. apply bind_step; [apply put_records_map|]. intros t4.
  rewrite for_fold_app. apply bind_step.
  { rewrite for_fold_flat. apply for_fold_ext. intros s x. apply put_revision_entries. }
  intros t5. rewrite for_fold_app. apply bind_step; [apply put_records_map|]. intros t6.
  rewrite for_fold_app. apply bind_step; [by rewrite for_fold_map|]. intros t7. apply put_records_map.
Qed.

(** Whatever the transaction's last record is, its writes are the change, the state and
    the record. *)
Lemma effect_three e1 e2 e3 db db' :
  effect [e1; e2; e3] db db' ↔
  (t1 ← put_entry db e1; t2 ← put_entry t1 e2; put_entry t2 e3) = Ok db'.
Proof.
  unfold effect. cbn [for_fold]. destruct (put_entry db e1) as [t1|]; [|done]. rewrite !bind_ok.
  destruct (put_entry t1 e2) as [t2|]; [|done]. by rewrite !bind_ok, bind_Ok_id.
Qed.

Lemma put_commit_effect scope scopeKey id operationKey st change o txn txn' :
  badgerScopeKey scope = Ok scopeKey → badgerOperationKey scope id = Ok operationKey →
  put_commit txn scope scopeKey operationKey st change o = Ok txn' ↔
  effect [change_entry scope change; state_entry scope st; operation_entry scope id o] txn txn'.
Proof.
  intros Hs Ho. rewrite effect_three. unfold put_commit, put_entry. cbn [en_key en_over en_type en_value change_entry state_entry operation_entry].
  rewrite Hs, Ho. destruct (badgerScopeChangeKey scope (ch_Sequence change)) as [k|]; [|done]. rewrite !bind_ok. done.
Qed.

(** ** Reading back *)
Lemma get_record_Ok {A} `{Stored A} (txn : database) key ty (a : A) :
  getBadgerSessionMemoryRecord txn key ty = Ok a ↔ txn !! key = Some (mkStored ty (inject a)).
Proof.
  unfold getBadgerSessionMemoryRecord. destruct (txn !! key) as [[t v]|]; [|done]. cbn [st_RecordType st_Value].
  rewrite reject_bind, negb_false_iff, bool_decide_eq_true. split.
  - intros [-> Hv]. destruct (project v) as [a'|] eqn:E; [|done]. apply Ok_inj in Hv as <-.
    by rewrite (inject_project _ _ E).
  - intros Hst. assert (t = ty) as -> by congruence. assert (v = inject a) as -> by congruence.
    by rewrite project_inject.
Qed.

Lemma get_record_not_found {A} `{Stored A} (txn : database) key ty err :
  getBadgerSessionMemoryRecord (A := A) txn key ty = Err err → errors_Is err badger_ErrKeyNotFound = true →
  txn !! key = None.
Proof.
  unfold getBadgerSessionMemoryRecord. destruct (txn !! key) as [[t v]|]; [|done]. unfold reject_if.
  destruct (negb _); cbn [mbind result_bind]; [by intros [= <-]|]. destruct (project _); [done|]. by intros [= <-].
Qed.

Lemma get_record_absent {A} `{Stored A} (txn : database) key ty :
  txn !! key = None → getBadgerSessionMemoryRecord (A := A) txn key ty = Err badger_ErrKeyNotFound.
Proof. unfold getBadgerSessionMemoryRecord. by intros ->. Qed.

Lemma optional_Ok {A} `{Stored A} (txn : database) key ty (o : option A) :
  optional (getBadgerSessionMemoryRecord txn key ty) = Ok o ↔
  txn !! key = (λ a, mkStored ty (inject a)) <$> o.
Proof.
  split.
  - unfold optional. destruct (getBadgerSessionMemoryRecord txn key ty) as [a|err] eqn:E.
    + intros <-%Ok_inj. by apply get_record_Ok in E.
    + destruct (errors_Is err badger_ErrKeyNotFound) eqn:Hn; [|done]. intros <-%Ok_inj.
      by apply get_record_not_found in E.
  - destruct o as [a|]; cbn [fmap option_fmap option_map]; intros Hl.
    + apply get_record_Ok in Hl. unfold optional. by rewrite Hl.
    + unfold optional. rewrite (get_record_absent _ _ _ Hl). reflexivity.
Qed.

Lemma get_or_Ok {A} `{Stored A} (d : A) (txn : database) key ty a :
  get_or d (getBadgerSessionMemoryRecord txn key ty) = Ok a ↔
  txn !! key = Some (mkStored ty (inject a)) ∨ (txn !! key = None ∧ a = d).
Proof.
  split.
  - unfold get_or. destruct (getBadgerSessionMemoryRecord txn key ty) as [a'|err] eqn:E.
    + intros <-%Ok_inj. left. by apply get_record_Ok.
    + destruct (errors_Is err badger_ErrKeyNotFound) eqn:Hn; [|done]. intros <-%Ok_inj. right.
      split; [|done]. by eapply get_record_not_found.
  - intros [Hl|[Hl ->]].
    + apply get_record_Ok in Hl. unfold get_or. by rewrite Hl.
    + unfold get_or. rewrite (get_record_absent _ _ _ Hl). reflexivity.
Qed.

Lemma replayed_Ok txn key fp prior :
  replayed txn key fp = Ok prior ↔
  match prior with
  | Some o => txn !! key = Some (mkStored badgerRecordOperation (VOperation (mkBadgerOperation fp o))) ∧
      CanonicalMutationOutcome_Validate o = Ok tt
  | None => txn !! key = None
  end.
Proof.
  unfold replayed. destruct (txn !! key) as [st|] eqn:Hk.
  - destruct (getBadgerSessionMemoryRecord txn key badgerRecordOperation) as [op|err] eqn:E.
    + apply get_record_Ok in E. rewrite Hk in E. injection E as ->. cbn [inject stored_operation].
      rewrite reject_bind, negb_false_iff, bool_decide_eq_true, bind_unit. destruct prior as [o|].
      * destruct op as [f o']. cbn [bo_Fingerprint bo_Outcome]. split.
        -- intros (-> & Hv & [= <-]%Ok_inj). done.
        -- intros ([= -> ->] & Hv). done.
      * split; [by intros (_ & _ & [=]) | done].
    + destruct (errors_Is err badger_ErrKeyNotFound) eqn:Hn.
      * exfalso. apply get_record_not_found in E; [congruence | done].
      * split; [done|]. destruct prior as [o|]; [|done]. intros [[= ->] _].
        unfold getBadgerSessionMemoryRecord in E. rewrite Hk in E. done.
  - rewrite (get_record_absent _ _ _ Hk). destruct prior as [o|].
    + split; [done | by intros []].
    + split; [done|]. reflexivity.
Qed.
