(* ===== verification/LedgerSpec.v ===== *)
(** * LedgerSpec: what the canonical store promises

    The abstract specification of one scope of the canonical store
    (the CanonicalStore port of src/sessionmemory/canonical.go): a ledger with a
    log of numbered changes, the operations that committed with their outcomes,
    and tables of records that only grow, except for the heads.  The version of a
    scope is the length of its log.  The step relation has one transition per
    committing request; the theorems here are about the specification alone, and
    BadgerRefinement shows that the store refines it. *)

From Stdlib Require Import ZArith Lia Ascii String.
From stdpp Require Import base numbers list gmap strings relations.
From S2P Require Import Prelude.
From S2P Require Import GoStrings.
From S2P Require Import MemoryTypes.
From S2P Require Import MemoryRecords.
From S2P Require Import MemoryDerived.
From S2P Require Import MemoryCanonical.
From S2P Require Import MemoryForget.
From S2P Require Import BadgerKeys.
From S2P Require Import BadgerTxn.
From S2P Require Import BadgerStore.
From S2P Require Import BadgerProvenance.

Local Open Scope string_scope.
Local Open Scope list_scope.
Local Open Scope Z_scope.

(** ** Tables *)
Definition record_all {A} (id_of : A → string) (l : list A) (t : gmap string A) : gmap string A :=
  foldl (λ t a, <[id_of a := a]> t) t l.

(** A record that is already there under its identity is the same record. *)
Definition agrees {A} (id_of : A → string) (l : list A) (t : gmap string A) : Prop :=
  ∀ a b, a ∈ l → t !! id_of a = Some b → b = a.

Lemma record_all_old {A} (id_of : A → string) l t id :
  id ∉ map id_of l → record_all id_of l t !! id = t !! id.
Proof.
  unfold record_all. revert t. induction l as [|x l IH]; intros t Hn; [reflexivity|].
  cbn [map] in Hn. apply not_elem_of_cons in Hn as [Hne Hn]. cbn [foldl].
  rewrite IH, lookup_insert_ne by done. done.
Qed.

Lemma record_all_new {A} (id_of : A → string) l t a :
  NoDup (map id_of l) → a ∈ l → record_all id_of l t !! id_of a = Some a.
Proof.
  unfold record_all. revert t. induction l as [|x l IH]; intros t Hnd Hin; [by apply not_elem_of_nil in Hin|].
  cbn [map] in Hnd. apply NoDup_cons in Hnd as [Hx Hnd]. cbn [foldl]. apply elem_of_cons in Hin as [->|Hin].
  - fold (record_all id_of l (<[id_of x := x]> t)). rewrite record_all_old by done. apply lookup_insert_eq.
  - by apply IH.
Qed.

Lemma record_all_lookup {A} (id_of : A → string) l t id a :
  NoDup (map id_of l) →
  record_all id_of l t !! id = Some a ↔ (a ∈ l ∧ id_of a = id) ∨ (id ∉ map id_of l ∧ t !! id = Some a).
Proof.
  intros Hnd. destruct (decide (id ∈ map id_of l)) as [Hin|Hn].
  - apply list_elem_of_fmap in Hin as (x & -> & Hx). rewrite (record_all_new id_of l t x Hnd Hx). split.
    + intros [= <-]. by left.
    + intros [[Ha Hid]|[Hn _]]; [|exfalso; apply Hn; by apply list_elem_of_fmap_2].
      rewrite <-(record_all_new id_of l t x Hnd Hx), <-Hid. by apply record_all_new.
  - rewrite record_all_old by done. split; [by right|]. intros [[Ha <-]|[_ ?]]; [|done].
    exfalso. apply Hn. by apply list_elem_of_fmap_2.
Qed.

Lemma record_all_is_Some {A} (id_of : A → string) l t id :
  NoDup (map id_of l) → is_Some (record_all id_of l t !! id) ↔ id ∈ map id_of l ∨ is_Some (t !! id).
Proof.
  intros Hnd. split.
  - intros [a [[Ha <-]|[_ Ha]]%record_all_lookup]; [left; by apply list_elem_of_fmap_2 | right; by exists a | done].
  - destruct (decide (id ∈ map id_of l)) as [Hin|Hn].
    + intros _. apply list_elem_of_fmap in Hin as (x & -> & Hx). exists x. by apply record_all_new.
    + intros [?|?]; [done|]. by rewrite record_all_old.
Qed.

Lemma record_all_grows {A} (id_of : A → string) l t :
  NoDup (map id_of l) → agrees id_of l t → t ⊆ record_all id_of l t.
Proof.
  intros Hnd Ha. apply map_subseteq_spec. intros id b Hb. apply record_all_lookup; [done|].
  destruct (decide (id ∈ map id_of l)) as [Hin|Hn]; [|by right].
  apply list_elem_of_fmap in Hin as (x & -> & Hx). left. by rewrite (Ha x b Hx Hb).
Qed.

(** ** Ledgers *)
Record Ledger := mkLedger {
  lg_Log : list ScopeChange;
  lg_Operations : gmap string badgerCanonicalOperation;
  lg_Forgets : gmap string badgerCanonicalForgetOutcome;
  lg_Sources : gmap string SourceRecordV2; lg_Messages : gmap string MessageRecord;
  lg_Items : gmap string MemoryItem; lg_Revisions : gmap string MemoryRevision;
  lg_Lifecycle : gmap string LifecycleEvent; lg_Heads : gmap string ItemHead;
  lg_Delivery : gmap string DeliveryOutboxRecord }.

Definition empty_ledger : Ledger := mkLedger [] ∅ ∅ ∅ ∅ ∅ ∅ ∅ ∅ ∅.

Definition version (L : Ledger) : Z := Zlength (lg_Log L).

(** The log with one more change. *)
Definition next_change (L : Ledger) (id : string) (at_ : Z) (revisions : list string) : ScopeChange :=
  mkScopeChange (version L + 1) id at_ revisions.
Definition next_outcome (L : Ledger) (revisions : list string) : CanonicalMutationOutcome :=
  mkOutcome (version L + 1) (version L + 1) revisions.

Definition change_at (L : Ledger) (n : Z) : option ScopeChange :=
  if 1 <=? n then lg_Log L !! Z.to_nat (n - 1) else None.

(** A mutation whose references are all its own or already recorded. *)
Record references_known (m : CanonicalMutation) (L : Ledger) : Prop := {
  items_known r : r ∈ cm_Revisions m →
    rv_ItemID r ∈ map mi_ItemID (cm_Items m) ∨ is_Some (lg_Items L !! rv_ItemID r);
  lifecycle_known l : l ∈ cm_Lifecycle m →
    le_RevisionID l ∈ map rv_RevisionID (cm_Revisions m) ∨ is_Some (lg_Revisions L !! le_RevisionID l);
  heads_known h : h ∈ cm_Heads m →
    ih_RevisionID h ∈ map rv_RevisionID (cm_Revisions m) ∨ is_Some (lg_Revisions L !! ih_RevisionID h);
  parents_known r p : r ∈ cm_Revisions m → p ∈ rv_Parents r →
    p ∈ map rv_RevisionID (cm_Revisions m) ∨ is_Some (lg_Revisions L !! p) }.

Record records_agree (m : CanonicalMutation) (L : Ledger) : Prop := {
  sources_agree : agrees sr_SourceID (cm_Sources m) (lg_Sources L);
  messages_agree : agrees mr_MessageID (cm_Messages m) (lg_Messages L);
  items_agree : agrees mi_ItemID (cm_Items m) (lg_Items L);
  revisions_agree : agrees rv_RevisionID (cm_Revisions m) (lg_Revisions L);
  lifecycle_agree : agrees le_EventID (cm_Lifecycle m) (lg_Lifecycle L);
  delivery_agree : agrees do_DeliveryID (cm_Delivery m) (lg_Delivery L) }.

Definition applied (m : CanonicalMutation) (L : Ledger) : Ledger :=
  let op := cm_Operation m in
  let revisions := map rv_RevisionID (cm_Revisions m) in
  mkLedger (lg_Log L ++ [next_change L (or_OperationID op) (or_CommittedAt op) revisions])
    (<[or_OperationID op := mkBadgerOperation (or_Fingerprint op) (next_outcome L revisions)]> (lg_Operations L))
    (lg_Forgets L)
    (record_all sr_SourceID (cm_Sources m) (lg_Sources L)) (record_all mr_MessageID (cm_Messages m) (lg_Messages L))
    (record_all mi_ItemID (cm_Items m) (lg_Items L)) (record_all rv_RevisionID (cm_Revisions m) (lg_Revisions L))
    (record_all le_EventID (cm_Lifecycle m) (lg_Lifecycle L)) (record_all ih_ItemID (cm_Heads m) (lg_Heads L))
    (record_all do_DeliveryID (cm_Delivery m) (lg_Delivery L)).

(** The same log entry without records. *)
Definition committed (r : CanonicalOperationCommitRequest) (L : Ledger) : Ledger :=
  mkLedger (lg_Log L ++ [next_change L (oc_OperationID r) (oc_CommittedAt r) []])
    (<[oc_OperationID r := mkBadgerOperation (oc_Fingerprint r) (next_outcome L [])]> (lg_Operations L))
    (lg_Forgets L) (lg_Sources L) (lg_Messages L) (lg_Items L) (lg_Revisions L) (lg_Lifecycle L) (lg_Heads L)
    (lg_Delivery L).

Definition forget_id (r : CanonicalForgetCommitRequest) : string :=
  fr_Kind r +:+ String NUL_byte (fr_OperationID r).
Definition next_forget (L : Ledger) (r : CanonicalForgetCommitRequest) : ForgetOutcome :=
  mkForgetOutcome DerivedSchemaVersionV1 (fr_OperationID r) (fr_Kind r) (fr_Scope r) (version L + 1) (fr_Sources r)
    (fr_Revisions r).
Definition forgotten (r : CanonicalForgetCommitRequest) (L : Ledger) : Ledger :=
  mkLedger
    (lg_Log L ++ [next_change L (fr_OperationID r) (fr_ForgottenAt r) (map rr_RevisionID (fr_Revisions r))])
    (lg_Operations L) (<[forget_id r := mkBadgerForget (fr_Fingerprint r) (next_forget L r)]> (lg_Forgets L))
    (lg_Sources L) (lg_Messages L) (lg_Items L) (lg_Revisions L) (lg_Lifecycle L) (lg_Heads L) (lg_Delivery L).

(** ** Transitions *)
Inductive ledger_apply (m : CanonicalMutation) (L : Ledger) : Ledger → CanonicalMutationOutcome → Prop :=
  | apply_replays o :
      lg_Operations L !! or_OperationID (cm_Operation m) =
        Some (mkBadgerOperation (or_Fingerprint (cm_Operation m)) o) →
      ledger_apply m L L o
  | apply_commits :
      lg_Operations L !! or_OperationID (cm_Operation m) = None →
      version L = cm_ExpectedScopeVersion m → version L < max_u64 →
      references_known m L → acyclic (cm_Revisions m) → records_agree m L →
      ledger_apply m L (applied m L) (next_outcome L (map rv_RevisionID (cm_Revisions m))).

Inductive ledger_commit (r : CanonicalOperationCommitRequest) (L : Ledger) :
    Ledger → CanonicalMutationOutcome → Prop :=
  | commit_replays o :
      lg_Operations L !! oc_OperationID r = Some (mkBadgerOperation (oc_Fingerprint r) o) → ledger_commit r L L o
  | commit_commits :
      lg_Operations L !! oc_OperationID r = None →
      version L = oc_ExpectedScopeVersion r → version L < max_u64 →
      ledger_commit r L (committed r L) (next_outcome L []).

Inductive ledger_forget (r : CanonicalForgetCommitRequest) (L : Ledger) : Ledger → ForgetOutcome → Prop :=
  | forget_replays o :
      lg_Forgets L !! forget_id r = Some (mkBadgerForget (fr_Fingerprint r) o) → ledger_forget r L L o
  | forget_commits :
      lg_Forgets L !! forget_id r = None →
      version L = fr_ExpectedScopeVersion r → version L < max_u64 →
      ledger_forget r L (forgotten r L) (next_forget L r).

(** One transition of a scope. *)
Inductive ledger_step (L L' : Ledger) : Prop :=
  | step_apply m o : CanonicalMutation_Validate m = Ok tt → ledger_apply m L L' o → ledger_step L L'
  | step_commit r o : CanonicalOperationCommitRequest_Validate r = Ok tt → ledger_commit r L L' o → ledger_step L L'
  | step_forget r o : CanonicalForgetCommitRequest_Validate r = Ok tt → ledger_forget r L L' o → ledger_step L L'.

Definition ledger_reachable (L : Ledger) : Prop := rtc ledger_step empty_ledger L.

(** ** The invariant of a ledger *)

(** Provenance over all recorded revisions. *)
Definition stored_edge (t : gmap string MemoryRevision) (child parent : string) : Prop :=
  ∃ r, t !! child = Some r ∧ parent ∈ rv_Parents r.

Record ledger_ok (L : Ledger) : Prop := {
  ok_version : version L ≤ max_u64;
  ok_numbered i c : lg_Log L !! i = Some c → ch_Sequence c = Z.of_nat i + 1;
  ok_changes i c : lg_Log L !! i = Some c → ScopeChange_Validate c = Ok tt;
  ok_operations id o : lg_Operations L !! id = Some o →
    ∃ c, change_at L (co_ChangeSeq (bo_Outcome o)) = Some c ∧ ch_OperationID c = id ∧
      ch_RevisionIDs c = co_RevisionIDs (bo_Outcome o) ∧
      co_ScopeVersion (bo_Outcome o) = co_ChangeSeq (bo_Outcome o);
  ok_outcomes id o : lg_Operations L !! id = Some o → CanonicalMutationOutcome_Validate (bo_Outcome o) = Ok tt;
  ok_revisions id r : lg_Revisions L !! id = Some r →
    rv_RevisionID r = id ∧ is_Some (lg_Items L !! rv_ItemID r) ∧
    ∀ p, p ∈ rv_Parents r → is_Some (lg_Revisions L !! p);
  ok_lifecycle id l : lg_Lifecycle L !! id = Some l → is_Some (lg_Revisions L !! le_RevisionID l);
  ok_heads id h : lg_Heads L !! id = Some h → ih_ItemID h = id ∧ is_Some (lg_Revisions L !! ih_RevisionID h);
  ok_provenance id : ¬ tc (stored_edge (lg_Revisions L)) id id }.

Lemma version_nonneg L : 0 ≤ version L.
Proof. unfold version, Zlength. lia. Qed.

Lemma version_u64 L : ledger_ok L → is_u64 (version L).
Proof. intros [H _ _ _ _ _ _ _ _]. pose proof (version_nonneg L). unfold is_u64, max_u64 in *. lia. Qed.

Lemma empty_ledger_ok : ledger_ok empty_ledger.
Proof.
  split; cbn [empty_ledger lg_Log lg_Operations lg_Revisions lg_Lifecycle lg_Heads]; try (intros ? ?; rewrite ?lookup_nil, ?lookup_empty; done).
  - done.
  - intros id Hc. assert (∃ p, stored_edge ∅ id p) as (p & r & Hr & _) by (inversion Hc; subst; by eexists).
    by rewrite lookup_empty in Hr.
Qed.

(** A log entry more. *)
Definition extends_log (L L' : Ledger) (c : ScopeChange) : Prop :=
  lg_Log L' = lg_Log L ++ [c] ∧ ch_Sequence c = version L + 1.

Lemma extends_version L L' c : extends_log L L' c → version L' = version L + 1.
Proof. intros [H _]. unfold version, Zlength. rewrite H, length_app. cbn [length]. lia. Qed.

Lemma extends_numbered L L' c i c' :
  extends_log L L' c → (∀ i c, lg_Log L !! i = Some c → ch_Sequence c = Z.of_nat i + 1) →
  lg_Log L' !! i = Some c' → ch_Sequence c' = Z.of_nat i + 1.
Proof.
  intros [H Hc] Hold. rewrite H. intros [Hl|[Hlen Hl]]%lookup_app_Some; [by apply Hold|].
  apply list_lookup_singleton_Some in Hl as [Hi <-]. rewrite Hc. unfold version, Zlength. lia.
Qed.

Lemma change_at_app L L' c n c' :
  extends_log L L' c → change_at L n = Some c' → change_at L' n = Some c'.
Proof.
  intros [H _]. unfold change_at. destruct (1 <=? n); [|done]. rewrite H. intros Hl. by apply lookup_app_l_Some.
Qed.

Lemma change_at_last L L' c : extends_log L L' c → change_at L' (version L + 1) = Some c.
Proof.
  intros [H _]. unfold change_at. pose proof (version_nonneg L) as Hv.
  rewrite (proj2 (Z.leb_le _ _)) by lia. rewrite H. unfold version, Zlength.
  rewrite lookup_app_r by lia. replace (Z.to_nat (Z.of_nat (length (lg_Log L)) + 1 - 1) - length (lg_Log L))%nat with 0%nat by lia.
  reflexivity.
Qed.

(** A valid change from valid identities. *)
Lemma change_valid n id at_ revisions :
  0 < n → isCanonicalID id = true → at_ ≠ 0 → Forall (λ id, isCanonicalID id = true) revisions →
  ScopeChange_Validate (mkScopeChange n id at_ revisions) = Ok tt.
Proof.
  intros Hn Hid Ht Hr. unfold ScopeChange_Validate. cbn [ch_Sequence ch_OperationID ch_OccurredAt ch_RevisionIDs].
  rewrite (proj2 (Z.eqb_neq n 0)), Hid, (proj2 (Z.eqb_neq at_ 0)) by lia. cbn [negb orb].
  rewrite reject_false, for_each_Ok. eapply Forall_impl; [exact Hr|]. intros r Hc. by rewrite Hc.
Qed.

Lemma extends_changes L L' c i c' :
  extends_log L L' c → ScopeChange_Validate c = Ok tt →
  (∀ i c, lg_Log L !! i = Some c → ScopeChange_Validate c = Ok tt) →
  lg_Log L' !! i = Some c' → ScopeChange_Validate c' = Ok tt.
Proof.
  intros [H _] Hc Hold. rewrite H. intros [Hl|[_ Hl]]%lookup_app_Some; [by apply (Hold i)|].
  by apply list_lookup_singleton_Some in Hl as [_ <-].
Qed.

(** Recording one more operation together with its change. *)
Lemma ok_operations_insert L L' c id o :
  ledger_ok L → extends_log L L' c → lg_Operations L' = <[id := o]> (lg_Operations L) →
  ch_OperationID c = id → bo_Outcome o = next_outcome L (ch_RevisionIDs c) →
  ∀ id' o', lg_Operations L' !! id' = Some o' →
    ∃ c, change_at L' (co_ChangeSeq (bo_Outcome o')) = Some c ∧ ch_OperationID c = id' ∧
      ch_RevisionIDs c = co_RevisionIDs (bo_Outcome o') ∧
      co_ScopeVersion (bo_Outcome o') = co_ChangeSeq (bo_Outcome o').
Proof.
  intros Hok Hext Hops Hid Ho id' o'. rewrite Hops. intros [[<- <-]|[Hne Hl]]%lookup_insert_Some.
  - exists c. rewrite Ho. cbn [next_outcome co_ChangeSeq co_RevisionIDs co_ScopeVersion].
    split; [by apply change_at_last|]. done.
  - destruct (ok_operations L Hok id' o' Hl) as (c' & Hc & Hrest). exists c'. split; [|exact Hrest].
    by eapply change_at_app.
Qed.

(** Old revisions reach old revisions only, so a cycle after a mutation would be a cycle
    before it or one of the mutation's own. *)
Lemma applied_acyclic m L :
  ledger_ok L → NoDup (map rv_RevisionID (cm_Revisions m)) → acyclic (cm_Revisions m) →
  agrees rv_RevisionID (cm_Revisions m) (lg_Revisions L) →
  ∀ id, ¬ tc (stored_edge (record_all rv_RevisionID (cm_Revisions m) (lg_Revisions L))) id id.
Proof.
  intros Hok Hnd Hac Hag. set (T := record_all _ _ _).
  assert (Hold : ∀ id p, is_Some (lg_Revisions L !! id) → stored_edge T id p →
    stored_edge (lg_Revisions L) id p ∧ is_Some (lg_Revisions L !! p)).
  { intros id p [r Hr] (r' & Hr' & Hp).
    assert (Heq : r' = r).
    { assert (T !! id = Some r) as Ht; [|congruence].
      eapply lookup_weaken; [exact Hr | by apply record_all_grows]. }
    subst r'. split; [by exists r|]. by apply (ok_revisions L Hok id r Hr). }
  assert (Hold_tc : ∀ x y, tc (stored_edge T) x y → is_Some (lg_Revisions L !! x) →
    tc (stored_edge (lg_Revisions L)) x y).
  { intros x y Hc. induction Hc as [x y He|x y z He Hc IH]; intros Hx; apply Hold in He as [He Hy]; [|done| |done].
    - by apply tc_once.
    - eapply tc_l; [exact He | by apply IH]. }
  assert (Hback : ∀ x y, tc (stored_edge T) x y → ¬ is_Some (lg_Revisions L !! y) → tc (parent_edge (cm_Revisions m)) x y).
  { intros x y Hc. induction Hc as [x y He|x y z He Hc IH]; intros Hy.
    - apply tc_once. destruct He as (r & Hr & Hp). apply record_all_lookup in Hr as [[Hr Hid]|[_ Hr]]; [by exists r| |done].
      exfalso. apply Hy. by apply (ok_revisions L Hok x r Hr).
    - assert (Hxn : ¬ is_Some (lg_Revisions L !! x)).
      { intros Hx. apply Hy. assert (Htc : tc (stored_edge T) x z) by (by eapply tc_l).
        assert (Hreach : ∀ a b, tc (stored_edge T) a b → is_Some (lg_Revisions L !! a) → is_Some (lg_Revisions L !! b)).
        { intros a b Hab. induction Hab as [a b Hab|a b c Hab _ IHab]; intros Ha; [by apply (Hold a b)|].
          apply IHab. by apply (Hold a b). }
        by apply (Hreach x z). }
      eapply tc_l; [|by apply IH]. destruct He as (r & Hr & Hp).
      apply record_all_lookup in Hr as [[Hr Hid]|[_ Hr]]; [by exists r| |done]. exfalso. apply Hxn. by exists r. }
  intros id Hc. destruct (lg_Revisions L !! id) as [r|] eqn:Hr.
  - apply (ok_provenance L Hok id). apply Hold_tc; [exact Hc | by exists r].
  - apply (Hac id). apply Hback; [exact Hc|]. rewrite Hr. by intros [].
Qed.

(** ** Steps keep the invariant and only add *)
Record grows (L L' : Ledger) : Prop := {
  log_grows : lg_Log L `prefix_of` lg_Log L';
  operations_grow : lg_Operations L ⊆ lg_Operations L';
  forgets_grow : lg_Forgets L ⊆ lg_Forgets L';
  sources_grow : lg_Sources L ⊆ lg_Sources L';
  messages_grow : lg_Messages L ⊆ lg_Messages L';
  items_grow : lg_Items L ⊆ lg_Items L';
  revisions_grow : lg_Revisions L ⊆ lg_Revisions L';
  lifecycle_grows : lg_Lifecycle L ⊆ lg_Lifecycle L';
  delivery_grows : lg_Delivery L ⊆ lg_Delivery L' }.

#[export] Instance grows_refl : Reflexive grows.
Proof. intros L. by split. Qed.
#[export] Instance grows_trans : Transitive grows.
Proof. intros L1 L2 L3 [] []. split; by etrans. Qed.

(** The identities of an accepted mutation are distinct within their kind. *)
Lemma accepted_distinct m :
  CanonicalMutation_Validate m = Ok tt →
  NoDup (map sr_SourceID (cm_Sources m)) ∧ NoDup (map mr_MessageID (cm_Messages m)) ∧
  NoDup (map mi_ItemID (cm_Items m)) ∧ NoDup (map rv_RevisionID (cm_Revisions m)) ∧
  NoDup (map le_EventID (cm_Lifecycle m)) ∧ NoDup (map ih_ItemID (cm_Heads m)) ∧
  NoDup (map do_DeliveryID (cm_Delivery m)) ∧ NoDup (map (λ p, pr_ID (cp_Ref p)) (cm_Payloads m)).
Proof.
  unfold CanonicalMutation_Validate. rewrite !bind_unit, !validate_records_Ok. tauto.
Qed.

Lemma step_grows L L' : ledger_step L L' → grows L L'.
Proof.
  intros [m o Hv [o' _|Ho _ _ _ _ Hag]|r o _ [o' _|Ho _ _]|r o _ [o' _|Ho _ _]]; try reflexivity.
  - destruct (accepted_distinct m Hv) as (D1 & D2 & D3 & D4 & D5 & _ & D7 & _). destruct Hag.
    split; cbn [applied lg_Log lg_Operations lg_Forgets lg_Sources lg_Messages lg_Items lg_Revisions lg_Lifecycle lg_Delivery];
      try (by apply record_all_grows); [by eexists | by apply insert_subseteq | done].
  - split; cbn [committed lg_Log lg_Operations lg_Forgets lg_Sources lg_Messages lg_Items lg_Revisions lg_Lifecycle lg_Delivery];
      try done; [by eexists | by apply insert_subseteq].
  - split; cbn [forgotten lg_Log lg_Operations lg_Forgets lg_Sources lg_Messages lg_Items lg_Revisions lg_Lifecycle lg_Delivery];
      try done; [by eexists | by apply insert_subseteq].
Qed.

Lemma accepted_canonical m :
  CanonicalMutation_Validate m = Ok tt →
  Forall (λ id, isCanonicalID id = true) (map rv_RevisionID (cm_Revisions m)).
Proof.
  unfold CanonicalMutation_Validate. rewrite !bind_unit, !validate_records_Ok, Forall_map. tauto.
Qed.

Lemma accepted_operation m :
  CanonicalMutation_Validate m = Ok tt →
  isCanonicalID (or_OperationID (cm_Operation m)) = true ∧ or_CommittedAt (cm_Operation m) ≠ 0.
Proof.
  unfold CanonicalMutation_Validate.
  rewrite !bind_unit, !reject_if_Ok, !orb_false_iff, !negb_false_iff, !Z.eqb_neq. tauto.
Qed.

Lemma next_outcome_valid L revisions :
  Forall (λ id, isCanonicalID id = true) revisions → CanonicalMutationOutcome_Validate (next_outcome L revisions) = Ok tt.
Proof.
  intros Hc. unfold CanonicalMutationOutcome_Validate, next_outcome. cbn [co_ScopeVersion co_ChangeSeq co_RevisionIDs].
  pose proof (version_nonneg L). rewrite (proj2 (Z.eqb_neq (version L + 1) 0)) by lia. cbn [orb].
  rewrite reject_false, for_each_Ok. eapply Forall_impl; [exact Hc|]. intros id Hid. by rewrite Hid.
Qed.

Lemma applied_ok m L :
  ledger_ok L → CanonicalMutation_Validate m = Ok tt → version L < max_u64 →
  references_known m L → acyclic (cm_Revisions m) → records_agree m L → ledger_ok (applied m L).
Proof.
  intros Hok Hv Hlt [Hki Hkl Hkh Hkp] Hac Hag.
  destruct (accepted_distinct m Hv) as (_ & _ & D3 & D4 & D5 & D6 & _).
  assert (Hext : extends_log L (applied m L)
    (next_change L (or_OperationID (cm_Operation m)) (or_CommittedAt (cm_Operation m)) (map rv_RevisionID (cm_Revisions m))))
    by (by split).
  split; cbn [applied lg_Revisions lg_Items lg_Lifecycle lg_Heads].
  - rewrite (extends_version _ _ _ Hext). lia.
  - intros i c. apply (extends_numbered _ _ _ _ _ Hext). intros j d. by apply ok_numbered.
  - intros i c. apply (extends_changes _ _ _ _ _ Hext); [|apply Hok]. pose proof (version_nonneg L) as Hn.
    destruct (accepted_operation m Hv) as [Hid Hat]. apply change_valid; [lia|done|done|by apply accepted_canonical].
  - by apply (ok_operations_insert L _ _ _ _ Hok Hext eq_refl).
  - cbn [applied lg_Operations]. intros id o [[_ <-]|[_ Ho]]%lookup_insert_Some; [|by apply (ok_outcomes L Hok id)].
    apply next_outcome_valid. by apply accepted_canonical.
  - intros id r Hr. setoid_rewrite record_all_is_Some; [|done|done].
    apply record_all_lookup in Hr as [[Hr Hid]|[_ Hr]]; [|destruct (ok_revisions L Hok id r Hr) as (? & ? & Hp)|done].
    + split; [done|]. split; [by apply Hki|]. intros p Hp. by apply (Hkp r).
    + split; [done|]. split; [by right|]. intros p Hpp. right. by apply Hp.
  - intros id l [[Hl _]|[_ Hl]]%record_all_lookup; [| |done]; apply record_all_is_Some; [done|by apply Hkl|done|].
    right. by apply (ok_lifecycle L Hok id).
  - intros id h [[Hh Hid]|[_ Hh]]%record_all_lookup; [| |done]; rewrite record_all_is_Some by done.
    + split; [done | by apply Hkh].
    + destruct (ok_heads L Hok id h Hh) as [? ?]. split; [done | by right].
  - apply applied_acyclic; [done..|by apply revisions_agree].
Qed.

(** Transitions without records keep the tables. *)
Lemma commit_ok L L' c :
  ledger_ok L → extends_log L L' c → version L < max_u64 → ScopeChange_Validate c = Ok tt →
  lg_Items L' = lg_Items L → lg_Revisions L' = lg_Revisions L → lg_Lifecycle L' = lg_Lifecycle L →
  lg_Heads L' = lg_Heads L →
  (∀ id o, lg_Operations L' !! id = Some o →
    ∃ c, change_at L' (co_ChangeSeq (bo_Outcome o)) = Some c ∧ ch_OperationID c = id ∧
      ch_RevisionIDs c = co_RevisionIDs (bo_Outcome o) ∧
      co_ScopeVersion (bo_Outcome o) = co_ChangeSeq (bo_Outcome o)) →
  (∀ id o, lg_Operations L' !! id = Some o → CanonicalMutationOutcome_Validate (bo_Outcome o) = Ok tt) → ledger_ok L'.
Proof.
  intros Hok Hext Hlt Hc Hi Hr Hl Hh Hops Hout. split; [| | |exact Hops|exact Hout|..]; rewrite ?Hi, ?Hr, ?Hl, ?Hh; try apply Hok.
  - rewrite (extends_version _ _ _ Hext). lia.
  - intros i c'. apply (extends_numbered _ _ _ _ _ Hext). apply Hok.
  - intros i c'. apply (extends_changes _ _ _ _ _ Hext Hc). apply Hok.
Qed.

Lemma step_ok L L' : ledger_step L L' → ledger_ok L → ledger_ok L'.
Proof.
  intros [m o Hv [o' _|Ho He Hlt Hk Hac Hag]|r o Hv [o' _|Ho He Hlt]|r o Hv [o' _|Ho He Hlt]] Hok; try exact Hok;
    pose proof (version_nonneg L) as Hn.
  - by apply applied_ok.
  - assert (Hext : extends_log L (committed r L) (next_change L (oc_OperationID r) (oc_CommittedAt r) [])) by (by split).
    apply (commit_ok L _ _ Hok Hext Hlt); try reflexivity.
    + unfold CanonicalOperationCommitRequest_Validate in Hv. apply bind_unit in Hv as [_ Hv].
      rewrite reject_if_Ok, !orb_false_iff, !negb_false_iff, !Z.eqb_neq in Hv.
      apply change_valid; [lia|tauto|tauto|constructor].
    + by apply (ok_operations_insert L _ _ _ _ Hok Hext eq_refl).
    + cbn [committed lg_Operations]. intros id o' [[_ <-]|[_ Ho']]%lookup_insert_Some; [|by apply (ok_outcomes L Hok id)].
      apply next_outcome_valid. constructor.
  - assert (Hext : extends_log L (forgotten r L)
      (next_change L (fr_OperationID r) (fr_ForgottenAt r) (map rr_RevisionID (fr_Revisions r)))) by (by split).
    apply (commit_ok L _ _ Hok Hext Hlt); try reflexivity; [| |apply Hok].
    + unfold CanonicalForgetCommitRequest_Validate in Hv. rewrite !bind_unit, !for_each_Ok, reject_if_Ok in Hv.
      rewrite !orb_false_iff, !negb_false_iff, !Z.eqb_neq in Hv. destruct Hv as (_ & _ & Hids & _ & Hr).
      apply change_valid; [lia|tauto|tauto|]. apply Forall_map. eapply Forall_impl; [exact Hr|].
      intros ref Href. unfold RevisionRef_Validate in Href.
      apply bind_unit in Href as [_ Href]. by apply reject_if_Ok, negb_false_iff in Href.
    + intros id o' Ho'. destruct (ok_operations L Hok id o' Ho') as (c & Hc & Hrest). exists c. split; [|exact Hrest].
      by eapply change_at_app.
Qed.

Lemma steps_ok L L' : rtc ledger_step L L' → ledger_ok L → ledger_ok L'.
Proof. induction 1 as [|L1 L2 L3 Hs _ IH]; [done|]. intros H1. by apply IH, (step_ok L1). Qed.

Lemma steps_grow L L' : rtc ledger_step L L' → grows L L'.
Proof. induction 1 as [|L1 L2 L3 Hs _ IH]; [done|]. etrans; [by apply step_grows | exact IH]. Qed.

Lemma reachable_ok L : ledger_reachable L → ledger_ok L.
Proof. intros H. by apply (steps_ok empty_ledger), empty_ledger_ok. Qed.
