(* ===== verification/BadgerRefinement.v ===== *)
(** * BadgerRefinement: the store refines the ledger

    Relates the database of src/sessionmemory/store/badger to the abstract ledger
    of every scope (LedgerSpec): which records represent a ledger, that the three
    committing requests simulate the ledger's transitions, and that every other
    operation of the store leaves all ledgers alone. *)

From Stdlib Require Import ZArith Lia Ascii String.
From stdpp Require Import base numbers list gmap strings relations.
From S2P Require Import Prelude.
From S2P Require Import GoStrings.
From S2P Require Import MemoryTypes.
From S2P Require Import MemoryRecords.
From S2P Require Import MemoryDerived.
From S2P Require Import MemoryCanonical.
From S2P Require Import MemoryForget.
From S2P Require Import BadgerKeys.
From S2P Require Import BadgerTxn.
From S2P Require Import BadgerStore.
From S2P Require Import BadgerLedgers.
From S2P Require Import BadgerWrites.
From S2P Require Import BadgerProvenance.
From S2P Require Import BadgerEntries.
From S2P Require Import LedgerSpec.

Local Open Scope string_scope.
Local Open Scope list_scope.
Local Open Scope Z_scope.

(** ** The representation of a ledger *)
Definition state_of (s : Scope) (L : Ledger) : ScopeState :=
  mkScopeState CanonicalSchemaVersionV1 s (version L) (version L).

(** The records of a type in a scope are exactly the rows of the table. *)
Definition table {A} `{Stored A} (db : database) (s : Scope) (ty : string) (t : gmap string A) : Prop :=
  (∀ id k, badgerSessionMemoryKey s ty id = Ok k → db !! k = (λ a, mkStored ty (inject a)) <$> t !! id) ∧
  ∀ id, is_Some (t !! id) → ∃ k, badgerSessionMemoryKey s ty id = Ok k.

Lemma table_row {A} `{Stored A} db s ty (t : gmap string A) id k :
  table db s ty t → badgerSessionMemoryKey s ty id = Ok k → db !! k = (λ a, mkStored ty (inject a)) <$> t !! id.
Proof. intros [Ht _]. apply Ht. Qed.

Record represents (db : database) (s : Scope) (L : Ledger) : Prop := {
  rep_state k : badgerScopeKey s = Ok k →
    db !! k = if bool_decide (lg_Log L = []) then None else Some (mkStored badgerRecordScope (VScope (state_of s L)));
  rep_change n k : is_u64 n → badgerScopeChangeKey s n = Ok k →
    db !! k = (λ c, mkStored badgerRecordChange (VChange c)) <$> change_at L n;
  rep_operations : table db s badgerRecordOperation (lg_Operations L);
  rep_forgets : table db s badgerRecordForgetOutcome (lg_Forgets L);
  rep_sources : table db s badgerRecordSource (lg_Sources L);
  rep_messages : table db s badgerRecordMessage (lg_Messages L);
  rep_items : table db s badgerRecordItem (lg_Items L);
  rep_revisions : table db s badgerRecordRevision (lg_Revisions L);
  rep_lifecycle : table db s badgerRecordLifecycle (lg_Lifecycle L);
  rep_heads : table db s badgerRecordHead (lg_Heads L);
  rep_delivery : table db s badgerRecordDelivery (lg_Delivery L) }.

Lemma table_empty {A} `{Stored A} s ty : table ∅ s ty (∅ : gmap string A).
Proof.
  split; [intros id k _; by rewrite !lookup_empty|]. intros id. rewrite lookup_empty. by intros [].
Qed.

Lemma empty_represents s : represents ∅ s empty_ledger.
Proof.
  split; [| |exact (table_empty _ _)..].
  - intros k _. by rewrite lookup_empty.
  - intros n k _ _. rewrite lookup_empty. unfold change_at. cbn [lg_Log empty_ledger]. rewrite lookup_nil.
    by destruct (1 <=? n).
Qed.

(** ** The keys of a scope's ledger *)
Definition ledger_types : list string :=
  [badgerRecordScope; badgerRecordOperation; badgerRecordForgetOutcome; badgerRecordSource; badgerRecordMessage;
   badgerRecordItem; badgerRecordRevision; badgerRecordLifecycle; badgerRecordHead; badgerRecordDelivery].

Definition ledger_key (s : Scope) (k : string) : Prop :=
  (∃ ty ids, ty ∈ ledger_types ∧ scoped_key s ty ids = Ok k) ∨ ∃ n, is_u64 n ∧ badgerScopeChangeKey s n = Ok k.

Ltac in_list := first [apply list_elem_of_here | apply list_elem_of_further; in_list].

Lemma not_in_list (x : string) (l : list string) : bool_decide (x ∈ l) = false → x ∉ l.
Proof. apply bool_decide_eq_false. Qed.

Lemma table_frame {A} `{Stored A} db db' s ty (t : gmap string A) :
  ty ∈ ledger_types → (∀ k, ledger_key s k → db' !! k = db !! k) → table db s ty t → table db' s ty t.
Proof.
  intros Hty Hf [Ht Hkeys]. split; [|exact Hkeys]. intros id k Hk. rewrite Hf; [by apply Ht|]. left. by exists ty, [id].
Qed.

Lemma represents_frame db db' s L :
  (∀ k, ledger_key s k → db' !! k = db !! k) → represents db s L → represents db' s L.
Proof.
  intros Hf []. split; [| |eapply table_frame; [in_list|exact Hf|eassumption]..].
  - intros k Hk. rewrite Hf; [auto|]. left. exists badgerRecordScope, []. split; [in_list | exact Hk].
  - intros n k Hn Hk. rewrite Hf; [auto|]. right. by exists n.
Qed.

(** The number of identities in the key of a record type, after type and scope. *)
Definition id_count (ty : string) : nat :=
  if bool_decide (ty = badgerRecordScope) then 0
  else if bool_decide (ty ∈ [badgerRecordProvenanceForward; badgerRecordProvenanceReverse; badgerRecordSourceRevision;
                             badgerRecordProjectionManifest]) then 2 else 1.

(** ** The shape of a write *)
Inductive entry_shape (s : Scope) (e : entry) : Prop :=
  | shape_scoped ids : en_key e = scoped_key s (en_type e) ids → length ids = id_count (en_type e) →
      en_type e ≠ badgerRecordChange → entry_shape s e
  | shape_payload ids : en_key e = scoped_key payloadScope (en_type e) ids → length ids = id_count (en_type e) →
      en_type e = badgerRecordPayload → entry_shape s e
  | shape_change n : en_key e = badgerScopeChangeKey s n → is_u64 n → en_type e = badgerRecordChange → entry_shape s e.

Lemma shape_key s e k s' ty ids :
  entry_shape s e → en_key e = Ok k → scoped_key s' ty ids = Ok k → ty ≠ badgerRecordChange →
  ty = en_type e ∧ (ty = badgerRecordPayload ∨ s' = s).
Proof.
  intros [ids' He _ Ht|ids' He _ Ht|n He Hn Ht] Hk Hk' Hne; rewrite He in Hk.
  - destruct (scoped_key_inj _ _ _ _ _ _ _ Hk Hk') as (-> & -> & _). split; [done | by right].
  - destruct (scoped_key_inj _ _ _ _ _ _ _ Hk Hk') as (-> & -> & _). split; [done | by left].
  - exfalso. apply Hne. eapply change_key_not_scoped; [exact Hk | exact Hk'].
Qed.

Lemma shape_change_key s e k s' n :
  entry_shape s e → en_key e = Ok k → badgerScopeChangeKey s' n = Ok k → is_u64 n →
  s' = s ∧ en_type e = badgerRecordChange ∧ en_key e = badgerScopeChangeKey s n.
Proof.
  intros [ids' He _ Ht|ids' He _ Ht|n' He Hn' Ht] Hk Hk' Hn; pose proof Hk as Hk0; rewrite He in Hk.
  - exfalso. apply Ht. eapply change_key_not_scoped; [exact Hk' | exact Hk].
  - exfalso. pose proof (change_key_not_scoped _ _ _ _ _ _ Hk' Hk) as Hc. rewrite Ht in Hc. discriminate Hc.
  - destruct (change_key_inj _ _ _ _ _ Hk Hk' Hn' Hn) as [-> ->]. done.
Qed.

Lemma ledger_type_ne ty : ty ∈ ledger_types → ty ≠ badgerRecordChange ∧ ty ≠ badgerRecordPayload.
Proof.
  assert (Hall : Forall (λ ty, ty ≠ badgerRecordChange ∧ ty ≠ badgerRecordPayload) ledger_types)
    by (repeat constructor; discriminate).
  rewrite Forall_forall in Hall. apply Hall.
Qed.

(** Writes of one scope leave the ledgers of the others alone. *)
Lemma effect_other_scope es s s' L db db' :
  effect es db db' → (∀ e, e ∈ es → entry_shape s e) → s' ≠ s → represents db s' L → represents db' s' L.
Proof.
  intros Heff Hsh Hne. apply represents_frame. intros k Hk. apply (effect_frame es db db' k Heff).
  intros e He Hek. destruct Hk as [(ty & ids & Hty & Hk)|(n & Hn & Hk)].
  - apply ledger_type_ne in Hty as [Hc Hp].
    by destruct (shape_key s e k s' ty ids (Hsh e He) Hek Hk Hc) as [_ [?|?]].
  - by destruct (shape_change_key s e k s' n (Hsh e He) Hek Hk Hn) as [? _].
Qed.

(** ** Types *)

(** The record types a value is stored under. *)
Definition types_of (v : Value) : list string :=
  match v with
  | VScope _ => [badgerRecordScope] | VOperation _ => [badgerRecordOperation] | VSource _ => [badgerRecordSource]
  | VMessage _ => [badgerRecordMessage] | VItem _ => [badgerRecordItem] | VRevision _ => [badgerRecordRevision]
  | VLifecycle _ => [badgerRecordLifecycle] | VHead _ => [badgerRecordHead] | VChange _ => [badgerRecordChange]
  | VDelivery _ => [badgerRecordDelivery] | VClaim _ => [badgerRecordDeliveryClaim]
  | VPayload _ => [badgerRecordPayload]
  | VEdge _ => [badgerRecordProvenanceForward; badgerRecordProvenanceReverse; badgerRecordSourceRevision]
  | VDeniedSource _ => [badgerRecordDeniedSource] | VDeniedRevision _ => [badgerRecordDeniedRevision]
  | VManifest _ => [badgerRecordProjectionManifest] | VActive _ => [badgerRecordProjectionActive]
  | VRetention _ => [badgerRecordProjectionRetention] | VCheckpoint _ => [badgerRecordProjectionCheckpoint]
  | VForget _ => [badgerRecordForgetOutcome]
  end.
Definition has_type (ty : string) (v : Value) : bool := bool_decide (ty ∈ types_of v).

(** A record under its key: the record type is the key's, the value is of that type. *)
Definition well_typed (k : string) (st : stored) : Prop :=
  has_type (st_RecordType st) (st_Value st) = true ∧
  ((st_RecordType st ≠ badgerRecordChange ∧ ∃ s ids, length ids = id_count (st_RecordType st) ∧
     scoped_key s (st_RecordType st) ids = Ok k) ∨
   (st_RecordType st = badgerRecordChange ∧ ∃ s n, is_u64 n ∧ badgerScopeChangeKey s n = Ok k)).

Lemma shape_well_typed s e k :
  entry_shape s e → has_type (en_type e) (en_value e) = true → en_key e = Ok k → well_typed k (en_stored e).
Proof.
  intros Hsh Hty Hk. split; [exact Hty|]. cbn [en_stored st_RecordType].
  destruct Hsh as [ids He Hc Ht|ids He Hc Ht|n He Hn Ht]; rewrite He in Hk.
  - left. split; [done|]. by exists s, ids.
  - left. split; [by rewrite Ht|]. by exists payloadScope, ids.
  - right. split; [done|]. by exists s, n.
Qed.

(** Whatever changed is a typed record now. *)
Definition writes_records (db db' : database) : Prop :=
  ∀ k, db' !! k = db !! k ∨ ∃ st, db' !! k = Some st ∧ well_typed k st.

Lemma effect_writes_records es s db db' :
  effect es db db' → (∀ e, e ∈ es → entry_shape s e) →
  (∀ e, e ∈ es → has_type (en_type e) (en_value e) = true) → writes_records db db'.
Proof.
  intros Heff Hsh Hty k. destruct (decide (Exists (λ e, en_key e = Ok k) es)) as [Hex|Hno].
  - assert (is_Some (db' !! k)) as [st Hst].
    { clear Hsh Hty. revert db Heff. induction es as [|x es IH]; intros db Heff; [by apply Exists_nil in Hex|].
      apply effect_cons in Heff as (db1 & Hx & Heff). destruct (decide (Exists (λ e, en_key e = Ok k) es)) as [Hin|Hout].
      - by apply (IH Hin db1).
      - apply Exists_cons in Hex as [Hk|?]; [|done]. exists (en_stored x). 
        rewrite (effect_frame es db1 db' k Heff).
        + apply put_entry_Ok in Hx as (k' & Hk' & _ & Hc). rewrite Hk in Hk'. apply Ok_inj in Hk' as <-.
          destruct Hc as [[-> _]|(-> & _ & ?)]; [apply lookup_insert_eq | done].
        + intros e He Hek. apply Hout, Exists_exists. by exists e. }
    destruct (effect_origin es db db' k st Heff Hst) as [H1|(e & He & Hk & ->)].
    + left. by rewrite Hst, H1.
    + right. exists (en_stored e). split; [done|]. eapply shape_well_typed; [by apply Hsh|by apply Hty|exact Hk].
  - left. apply (effect_frame es db db' k Heff). intros e He Hk. apply Hno, Exists_exists. by exists e.
Qed.

(** *** Records no commit writes *)
Definition private_types : list string :=
  [badgerRecordDeliveryClaim; badgerRecordDeniedSource; badgerRecordDeniedRevision; badgerRecordProjectionManifest;
   badgerRecordProjectionActive; badgerRecordProjectionRetention; badgerRecordProjectionCheckpoint].

Definition keeps_private (db db' : database) : Prop :=
  ∀ s ty ids k, ty ∈ private_types → scoped_key s ty ids = Ok k → db' !! k = db !! k.

Lemma effect_keeps_private es s db db' :
  effect es db db' → (∀ e, e ∈ es → entry_shape s e) → (∀ e, e ∈ es → en_type e ∉ private_types) →
  keeps_private db db'.
Proof.
  intros Heff Hsh Hno s' ty ids k Hty Hk. apply (effect_frame es db db' k Heff). intros e He Hek.
  assert (Hc : ty ≠ badgerRecordChange).
  { intros ->. revert Hty. by apply not_in_list. }
  destruct (shape_key s e k s' ty ids (Hsh e He) Hek Hk Hc) as [-> _]. by apply (Hno e).
Qed.

(** ** Writing a table *)
Lemma distinct_eq {A} (f : A → string) l a b : NoDup (map f l) → a ∈ l → b ∈ l → f a = f b → a = b.
Proof.
  induction l as [|x l IH]; [by intros _ ?%not_elem_of_nil|]. cbn [map]. intros [Hx Hnd]%NoDup_cons Ha Hb He.
  apply elem_of_cons in Ha as [->|Ha], Hb as [->|Hb]; [done|..|by apply IH]; exfalso; apply Hx.
  - rewrite He. by apply list_elem_of_fmap_2.
  - rewrite <-He. by apply list_elem_of_fmap_2.
Qed.

Lemma memory_key_inj s ty id id' k :
  badgerSessionMemoryKey s ty id = Ok k → badgerSessionMemoryKey s ty id' = Ok k → id' = id.
Proof. intros H1 H2. destruct (scoped_key_inj _ _ _ _ _ _ _ H1 H2) as (_ & _ & [= ->]). done. Qed.

Lemma table_write {A} `{Stored A} es s ty (id_of : A → string) l t db db' :
  effect es db db' → (∀ e, e ∈ es → entry_shape s e) → ty ≠ badgerRecordChange →
  (∀ e, e ∈ es → en_type e = ty → ∃ a, a ∈ l ∧ en_key e = badgerSessionMemoryKey s ty (id_of a) ∧ en_value e = inject a) →
  (∀ a, a ∈ l → ∃ e, e ∈ es ∧ en_type e = ty ∧ en_key e = badgerSessionMemoryKey s ty (id_of a) ∧ en_value e = inject a) →
  NoDup (map id_of l) → table db s ty t → table db' s ty (record_all id_of l t).
Proof.
  intros Heff Hsh Hty Hfrom Hto Hnd [Ht Hkeys]. split.
  2: { intros id [Hin|?]%record_all_is_Some; [|by apply Hkeys|done].
       apply list_elem_of_fmap in Hin as (a & -> & Ha). destruct (Hto a Ha) as (e & He & _ & <- & _).
       by apply (effect_keys es db db'). }
  intros id k Hk. assert (Hown : ∀ e, e ∈ es → en_key e = Ok k → ∃ a, a ∈ l ∧ id_of a = id ∧ en_stored e = mkStored ty (inject a)).
  { intros e He Hek. destruct (shape_key s e k s ty [id] (Hsh e He) Hek Hk Hty) as [Hte _].
    destruct (Hfrom e He (eq_sym Hte)) as (a & Ha & Hka & Hv). exists a. split; [done|]. split.
    - symmetry. apply (memory_key_inj s ty (id_of a) id k); congruence.
    - unfold en_stored. by rewrite <-Hte, Hv. }
  destruct (decide (id ∈ map id_of l)) as [Hin|Hn].
  - apply list_elem_of_fmap in Hin as (a & -> & Ha). destruct (Hto a Ha) as (e & He & Hte & Hke & Hv).
    rewrite record_all_new by done. cbn [fmap option_fmap option_map].
    assert (Hse : en_stored e = mkStored ty (inject a)) by (unfold en_stored; by rewrite Hte, Hv).
    rewrite <-Hse. apply (effect_written es db db' e k Heff He); [congruence|].
    intros e' He' _ Hk'. destruct (Hown e' He' Hk') as (a' & Ha' & Hid & ->). rewrite Hse.
    by rewrite (distinct_eq id_of l a' a Hnd Ha' Ha Hid).
  - rewrite record_all_old by done. rewrite <-(Ht id k Hk). apply (effect_frame es db db' k Heff).
    intros e He Hek. destruct (Hown e He Hek) as (a & Ha & <- & _). apply Hn. by apply list_elem_of_fmap_2.
Qed.

Lemma table_keep {A} `{Stored A} es s ty (t : gmap string A) db db' :
  effect es db db' → (∀ e, e ∈ es → entry_shape s e) → ty ≠ badgerRecordChange →
  (∀ e, e ∈ es → en_type e ≠ ty) → table db s ty t → table db' s ty t.
Proof.
  intros Heff Hsh Hty Hno. apply (table_write es s ty (λ _ : A, "") [] t db db' Heff Hsh Hty).
  - intros e He Hte. exfalso. by apply (Hno e).
  - by intros a ?%not_elem_of_nil.
  - constructor.
Qed.

(** Immutable writes find their own record or nothing. *)
Lemma table_agrees {A} `{Stored A} es s ty (id_of : A → string) l t db db' :
  effect es db db' → (∀ e, e ∈ es → entry_shape s e) → ty ≠ badgerRecordChange →
  (∀ e, e ∈ es → en_type e = ty → en_over e = false) →
  (∀ a, a ∈ l → ∃ e, e ∈ es ∧ en_type e = ty ∧ en_key e = badgerSessionMemoryKey s ty (id_of a) ∧ en_value e = inject a) →
  table db s ty t → agrees id_of l t.
Proof.
  intros Heff Hsh Hty Hover Hto Ht a b Ha Hb. destruct (Hto a Ha) as (e & He & Hte & Hke & Hv).
  destruct (effect_keys es db db' e Heff He) as [k Hk].
  destruct (effect_immutable es db db' e k Heff He Hk (Hover e He Hte)) as [_ Hdb].
  { intros e' He' Ho' Hk'. rewrite Hke in Hk. destruct (shape_key s e' k s ty _ (Hsh e' He') Hk' Hk Hty) as [Hte' _].
    rewrite (Hover e' He' (eq_sym Hte')) in Ho'. discriminate Ho'. }
  rewrite Hke in Hk. rewrite (table_row _ _ _ _ _ _ Ht Hk), Hb in Hdb. cbn [fmap option_fmap option_map] in Hdb.
  destruct Hdb as [?|Hdb]; [done|]. unfold en_stored in Hdb. rewrite Hv in Hdb.
  assert (Hi : inject b = inject a) by congruence.
  pose proof (project_inject b) as Hpb. rewrite Hi, project_inject in Hpb. congruence.
Qed.

(** ** The writes of a mutation, one by one *)
Inductive mutation_entry (m : CanonicalMutation) : entry → Prop :=
  | me_payload p : p ∈ cm_Payloads m → mutation_entry m (payload_entry p)
  | me_source a : a ∈ cm_Sources m → mutation_entry m (record_entry (cm_Scope m) badgerRecordSource sr_SourceID a)
  | me_message a : a ∈ cm_Messages m → mutation_entry m (record_entry (cm_Scope m) badgerRecordMessage mr_MessageID a)
  | me_item a : a ∈ cm_Items m → mutation_entry m (record_entry (cm_Scope m) badgerRecordItem mi_ItemID a)
  | me_revision a : a ∈ cm_Revisions m →
      mutation_entry m (record_entry (cm_Scope m) badgerRecordRevision rv_RevisionID a)
  | me_forward a p : a ∈ cm_Revisions m → p ∈ rv_Parents a →
      mutation_entry m (edge_entry (cm_Scope m) badgerRecordProvenanceForward (rv_RevisionID a) p (mkEdge (rv_RevisionID a) p))
  | me_reverse a p : a ∈ cm_Revisions m → p ∈ rv_Parents a →
      mutation_entry m (edge_entry (cm_Scope m) badgerRecordProvenanceReverse p (rv_RevisionID a) (mkEdge (rv_RevisionID a) p))
  | me_evidence a ev : a ∈ cm_Revisions m → ev ∈ rv_Evidence a →
      mutation_entry m (source_entry (cm_Scope m) (rv_RevisionID a) ev)
  | me_lifecycle a : a ∈ cm_Lifecycle m →
      mutation_entry m (record_entry (cm_Scope m) badgerRecordLifecycle le_EventID a)
  | me_head a : a ∈ cm_Heads m → mutation_entry m (head_entry (cm_Scope m) a)
  | me_delivery a : a ∈ cm_Delivery m →
      mutation_entry m (record_entry (cm_Scope m) badgerRecordDelivery do_DeliveryID a).

Lemma elem_of_mutation_entries m e : e ∈ mutation_entries m ↔ mutation_entry m e.
Proof.
  unfold mutation_entries. cbv zeta. rewrite !elem_of_app, !list_elem_of_fmap, list_elem_of_bind. split.
  - intros [(a & -> & Ha)|[(a & -> & Ha)|[(a & -> & Ha)|[(a & -> & Ha)|[(a & He & Ha)|[(a & -> & Ha)|[(a & -> & Ha)|(a & -> & Ha)]]]]]]].
    + exact (me_payload m a Ha).
    + exact (me_source m a Ha).
    + exact (me_message m a Ha).
    + exact (me_item m a Ha).
    + unfold revision_entries in He.
      rewrite elem_of_cons, elem_of_app, list_elem_of_bind, list_elem_of_fmap in He.
      destruct He as [->|[(p & He & Hp)|(ev & -> & Hev)]];
        [exact (me_revision m a Ha) | | exact (me_evidence m a ev Ha Hev)].
      unfold parent_entries in He. rewrite !elem_of_cons, elem_of_nil in He.
      destruct He as [->|[->|[]]]; [exact (me_forward m a p Ha Hp) | exact (me_reverse m a p Ha Hp)].
    + exact (me_lifecycle m a Ha).
    + exact (me_head m a Ha).
    + exact (me_delivery m a Ha).
  - intros [a Ha|a Ha|a Ha|a Ha|a Ha|a p Ha Hp|a p Ha Hp|a ev Ha Hev|a Ha|a Ha|a Ha].
    1: left; by exists a.
    1: right; left; by exists a.
    1: do 2 right; left; by exists a.
    1: do 3 right; left; by exists a.
    5: do 5 right; left; by exists a.
    5: do 6 right; left; by exists a.
    5: do 7 right; by exists a.
    all: do 4 right; left; exists a; split; [|exact Ha]; unfold revision_entries;
      rewrite elem_of_cons, elem_of_app, list_elem_of_bind, list_elem_of_fmap.
    + by left.
    + right; left. exists p. split; [|exact Hp]. unfold parent_entries. in_list.
    + right; left. exists p. split; [|exact Hp]. unfold parent_entries. in_list.
    + right; right. by exists ev.
Qed.

Lemma mutation_entry_shape m e : mutation_entry m e → entry_shape (cm_Scope m) e.
Proof.
  intros [a Ha|a Ha|a Ha|a Ha|a Ha|a p Ha Hp|a p Ha Hp|a ev Ha Hev|a Ha|a Ha|a Ha];
    [eapply shape_payload; reflexivity|eapply shape_scoped; [reflexivity|reflexivity|discriminate]..].
Qed.

(** The writes of one commit: those of the mutation, then change, state and operation. *)
Definition commit_entries (s : Scope) (c : ScopeChange) (st : ScopeState) (last : entry) : list entry :=
  [change_entry s c; state_entry s st; last].

Definition apply_entries (m : CanonicalMutation) (L : Ledger) : list entry :=
  let op := cm_Operation m in
  let revisions := map rv_RevisionID (cm_Revisions m) in
  mutation_entries m ++
  commit_entries (cm_Scope m) (next_change L (or_OperationID op) (or_CommittedAt op) revisions)
    (mkScopeState CanonicalSchemaVersionV1 (cm_Scope m) (version L + 1) (version L + 1))
    (operation_entry (cm_Scope m) (or_OperationID op) (mkBadgerOperation (or_Fingerprint op) (next_outcome L revisions))).

Lemma operation_key s id : badgerOperationKey s id = badgerSessionMemoryKey s badgerRecordOperation id.
Proof.
  unfold badgerOperationKey, badgerSessionMemoryKey, scoped_key. by destruct (Scope_Validate s) as [[]|].
Qed.

Lemma commit_entries_shape s c st last :
  is_u64 (ch_Sequence c) → entry_shape s last → ∀ e, e ∈ commit_entries s c st last → entry_shape s e.
Proof.
  intros Hn Hl e. unfold commit_entries. rewrite !elem_of_cons, elem_of_nil. intros [->|[->|[->|[]]]]; [| |done].
  - eapply shape_change; [reflexivity|exact Hn|reflexivity].
  - eapply shape_scoped; [reflexivity|reflexivity|discriminate].
Qed.

Lemma commit_entries_typed s c st last :
  has_type (en_type last) (en_value last) = true →
  ∀ e, e ∈ commit_entries s c st last → has_type (en_type e) (en_value e) = true.
Proof.
  intros Hl e. unfold commit_entries. rewrite !elem_of_cons, elem_of_nil. by intros [->|[->|[->|[]]]].
Qed.

Lemma commit_entries_public s c st last :
  en_type last ∉ private_types → ∀ e, e ∈ commit_entries s c st last → en_type e ∉ private_types.
Proof.
  intros Hl e. unfold commit_entries. rewrite !elem_of_cons, elem_of_nil.
  intros [->|[->|[->|[]]]]; [by apply not_in_list..|done].
Qed.

Lemma apply_public m L e : e ∈ apply_entries m L → en_type e ∉ private_types.
Proof.
  unfold apply_entries. cbv zeta. intros [He|He]%elem_of_app.
  - apply elem_of_mutation_entries in He. destruct He; apply not_in_list; reflexivity.
  - eapply commit_entries_public; [|exact He]. apply not_in_list; reflexivity.
Qed.

Lemma apply_typed m L e : e ∈ apply_entries m L → has_type (en_type e) (en_value e) = true.
Proof.
  unfold apply_entries. cbv zeta. intros [He|He]%elem_of_app; [|by eapply commit_entries_typed; [|exact He]].
  apply elem_of_mutation_entries in He. by destruct He.
Qed.

(** What a commit does to the log, the state and the change records. *)
Section commit.
  Context (es : list entry) (s : Scope) (c : ScopeChange) (last : entry) (L L' : Ledger) (db db' : database).
  Context (Hext : extends_log L L' c) (Hlt : version L < max_u64).
  Context (Heff : effect (es ++ commit_entries s c (mkScopeState CanonicalSchemaVersionV1 s (version L + 1) (version L + 1)) last) db db').
  Context (Hes : ∀ e, e ∈ es → entry_shape s e ∧ en_type e ≠ badgerRecordChange ∧ en_type e ≠ badgerRecordScope).
  Context (Hlast : entry_shape s last ∧ en_type last ≠ badgerRecordChange ∧ en_type last ≠ badgerRecordScope).

Lemma commit_next_u64 : is_u64 (ch_Sequence c).
  Proof using Hext Hlt.
    destruct Hext as [_ ->]. pose proof (version_nonneg L). unfold is_u64, max_u64 in *. lia.
  Qed.

Lemma commit_shape e :
    e ∈ es ++ commit_entries s c (mkScopeState CanonicalSchemaVersionV1 s (version L + 1) (version L + 1)) last →
    entry_shape s e.
  Proof using Hext Hlt Hes Hlast.
    intros [He|He]%elem_of_app; [by apply Hes|]. by eapply commit_entries_shape; [apply commit_next_u64|apply Hlast|exact He].
  Qed.

Lemma commit_entry_type e ty :
    e ∈ es ++ commit_entries s c (mkScopeState CanonicalSchemaVersionV1 s (version L + 1) (version L + 1)) last →
    en_type e = ty → ty = badgerRecordChange ∨ ty = badgerRecordScope →
    e = change_entry s c ∧ ty = badgerRecordChange ∨
    e = state_entry s (mkScopeState CanonicalSchemaVersionV1 s (version L + 1) (version L + 1)) ∧ ty = badgerRecordScope.
  Proof using Hes Hlast.
    intros [He|He]%elem_of_app <- Hty; [destruct (Hes e He) as (_ & ? & ?); naive_solver|].
    unfold commit_entries in He. rewrite !elem_of_cons, elem_of_nil in He.
    destruct He as [->|[->|[->|[]]]]; [by left|by right|]. destruct Hlast as (_ & ? & ?). naive_solver.
  Qed.

Lemma commit_state_record k :
    badgerScopeKey s = Ok k → db' !! k = Some (mkStored badgerRecordScope (VScope (state_of s L'))).
  Proof using Hext Hlt Heff Hes Hlast.
    intros Hk. unfold state_of. rewrite (extends_version _ _ _ Hext).
    set (st := mkScopeState CanonicalSchemaVersionV1 s (version L + 1) (version L + 1)).
    change (mkStored badgerRecordScope (VScope st)) with (en_stored (state_entry s st)).
    apply (effect_written _ db db' (state_entry s st) k Heff); [|exact Hk|].
    - apply elem_of_app. right. unfold commit_entries. in_list.
    - intros e He _ Hek. destruct (shape_key s e k s badgerRecordScope [] (commit_shape e He) Hek Hk) as [Hte _]; [discriminate|].
      destruct (commit_entry_type e _ He (eq_sym Hte) (or_intror eq_refl)) as [[_ [=]]|[-> _]]. reflexivity.
  Qed.

Lemma commit_change_record n k :
    (∀ n k, is_u64 n → badgerScopeChangeKey s n = Ok k →
      db !! k = (λ c, mkStored badgerRecordChange (VChange c)) <$> change_at L n) →
    is_u64 n → badgerScopeChangeKey s n = Ok k →
    db' !! k = (λ c, mkStored badgerRecordChange (VChange c)) <$> change_at L' n.
  Proof using Hext Hlt Heff Hes Hlast.
    intros Hold Hn Hk. destruct (decide (n = version L + 1)) as [->|Hne].
    - rewrite (change_at_last _ _ _ Hext). cbn [fmap option_fmap option_map].
      change (mkStored badgerRecordChange (VChange c)) with (en_stored (change_entry s c)).
      assert (Hkc : en_key (change_entry s c) = Ok k) by (cbn [change_entry en_key]; by rewrite (proj2 Hext)).
      apply (effect_written _ db db' (change_entry s c) k Heff); [|exact Hkc|].
      + apply elem_of_app. right. unfold commit_entries. in_list.
      + intros e He _ Hek. destruct (shape_change_key s e k s _ (commit_shape e He) Hek Hk Hn) as (_ & Hte & _).
        destruct (commit_entry_type e _ He Hte (or_introl eq_refl)) as [[-> _]|[_ [=]]]. reflexivity.
    - assert (Hat : change_at L' n = change_at L n).
      { unfold change_at. rewrite (proj1 Hext). destruct (1 <=? n) eqn:E; [|done]. apply Z.leb_le in E.
        destruct (decide (Z.to_nat (n - 1) < length (lg_Log L))%nat) as [Hl|Hl]; [by rewrite lookup_app_l|].
        rewrite lookup_app_r by lia. rewrite (lookup_ge_None_2 (lg_Log L)) by lia.
        apply lookup_ge_None_2. unfold version, Zlength in Hne. cbn [length]. lia. }
      rewrite Hat, <-(Hold n k Hn Hk). apply (effect_frame _ db db' k Heff). intros e He Hek.
      destruct (shape_change_key s e k s n (commit_shape e He) Hek Hk Hn) as (_ & Hte & _).
      destruct (commit_entry_type e _ He Hte (or_introl eq_refl)) as [[-> _]|[_ [=]]].
      cbn [change_entry en_key] in Hek. destruct (change_key_inj _ _ _ _ _ Hk Hek Hn commit_next_u64) as [_ Hs].
      apply Hne. rewrite <-Hs. apply Hext.
  Qed.
End commit.

(** ** A committed mutation *)
Lemma operation_entry_ok s id o :
  entry_shape s (operation_entry s id o) ∧ en_type (operation_entry s id o) ≠ badgerRecordChange ∧
  en_type (operation_entry s id o) ≠ badgerRecordScope.
Proof.
  split; [|split; discriminate]. apply (shape_scoped _ _ [id]); [|reflexivity|discriminate].
  cbn [operation_entry en_key en_type]. rewrite operation_key. reflexivity.
Qed.

Lemma forget_entry_ok s kind id o :
  entry_shape s (forget_entry s kind id o) ∧ en_type (forget_entry s kind id o) ≠ badgerRecordChange ∧
  en_type (forget_entry s kind id o) ≠ badgerRecordScope.
Proof.
  split; [|split; discriminate]. eapply shape_scoped; [reflexivity|reflexivity|discriminate].
Qed.

Lemma mutation_entries_ok m e :
  e ∈ mutation_entries m →
  entry_shape (cm_Scope m) e ∧ en_type e ≠ badgerRecordChange ∧ en_type e ≠ badgerRecordScope.
Proof.
  intros He%elem_of_mutation_entries. split; [by apply mutation_entry_shape|]. by destruct He; split.
Qed.

(** The writes of a mutation with one record type are its records of that kind. *)
Ltac of_kind a :=
  let e := fresh "e" in let He := fresh "He" in let Ht := fresh "Ht" in
  intros e He Ht; apply elem_of_app in He as [He|He];
  [apply elem_of_mutation_entries in He; destruct He; try discriminate Ht;
     exists a; split; [assumption | split; reflexivity]
  |unfold commit_entries in He; rewrite !elem_of_cons, elem_of_nil in He;
     destruct He as [->|[->|[->|[]]]]; discriminate Ht].
Ltac has_kind c :=
  let a := fresh "a" in let Ha := fresh "Ha" in
  intros a Ha; eexists; split; [apply elem_of_app; left; apply elem_of_mutation_entries; exact (c a Ha)|];
  split; [reflexivity | split; reflexivity].

Section applied.
  Context (m : CanonicalMutation) (L : Ledger) (db db' : database).
  Context (Hv : CanonicalMutation_Validate m = Ok tt) (Hlt : version L < max_u64).
  Context (Hrep : represents db (cm_Scope m) L) (Heff : effect (apply_entries m L) db db').

Lemma apply_shape e : e ∈ apply_entries m L → entry_shape (cm_Scope m) e.
  Proof using Hlt.
    apply (commit_shape _ _ _ _ L (applied m L)); [by split|done|apply mutation_entries_ok|apply operation_entry_ok].
  Qed.

Lemma applied_represents : represents db' (cm_Scope m) (applied m L).
  Proof using Hv Hlt Hrep Heff.
    destruct (accepted_distinct m Hv) as (D1 & D2 & D3 & D4 & D5 & D6 & D7 & _).
    assert (Hext : extends_log L (applied m L) (next_change L (or_OperationID (cm_Operation m))
      (or_CommittedAt (cm_Operation m)) (map rv_RevisionID (cm_Revisions m)))) by (by split).
    pose proof apply_shape as Hsh.
    split; cbn [applied lg_Operations lg_Forgets lg_Sources lg_Messages lg_Items lg_Revisions lg_Lifecycle lg_Heads lg_Delivery].
    - intros k Hk. rewrite bool_decide_false by (intros []%app_eq_nil; done).
      apply (commit_state_record _ _ _ _ L (applied m L) db db' Hext Hlt Heff); [apply mutation_entries_ok|apply operation_entry_ok|done].
    - intros n k. apply (commit_change_record _ _ _ _ L (applied m L) db db' Hext Hlt Heff);
        [apply mutation_entries_ok|apply operation_entry_ok|apply (rep_change _ _ _ Hrep)].
    - set (o := mkBadgerOperation _ _). set (id := or_OperationID (cm_Operation m)).
      change (<[id:=o]> (lg_Operations L)) with (record_all (λ _, id) [o] (lg_Operations L)).
      apply (table_write _ _ _ _ _ _ db db' Heff Hsh); [discriminate| | |apply NoDup_singleton|by apply rep_operations].
      + intros e [He|He]%elem_of_app Ht; [apply elem_of_mutation_entries in He; by destruct He|].
        unfold commit_entries in He. rewrite !elem_of_cons, elem_of_nil in He.
        destruct He as [->|[->|[->|[]]]]; [discriminate Ht..|]. exists o. split; [apply list_elem_of_here|].
        split; [apply operation_key|reflexivity].
      + intros a ->%list_elem_of_singleton. exists (operation_entry (cm_Scope m) id o). split; [apply elem_of_app; right; unfold commit_entries; in_list|].
        split; [reflexivity|]. split; [apply operation_key|reflexivity].
    - apply (table_keep _ _ _ _ db db' Heff Hsh); [discriminate| |by apply rep_forgets].
      intros e [He|He]%elem_of_app Ht; [apply elem_of_mutation_entries in He; by destruct He|].
      unfold commit_entries in He. rewrite !elem_of_cons, elem_of_nil in He. by destruct He as [->|[->|[->|[]]]].
    - apply (table_write _ _ _ _ _ _ db db' Heff Hsh); [discriminate|of_kind a|has_kind (me_source m)|done|by apply rep_sources].
    - apply (table_write _ _ _ _ _ _ db db' Heff Hsh); [discriminate|of_kind a|has_kind (me_message m)|done|by apply rep_messages].
    - apply (table_write _ _ _ _ _ _ db db' Heff Hsh); [discriminate|of_kind a|has_kind (me_item m)|done|by apply rep_items].
    - apply (table_write _ _ _ _ _ _ db db' Heff Hsh); [discriminate|of_kind a|has_kind (me_revision m)|done|by apply rep_revisions].
    - apply (table_write _ _ _ _ _ _ db db' Heff Hsh); [discriminate|of_kind a|has_kind (me_lifecycle m)|done|by apply rep_lifecycle].
    - apply (table_write _ _ _ _ _ _ db db' Heff Hsh); [discriminate|of_kind a|has_kind (me_head m)|done|by apply rep_heads].
    - apply (table_write _ _ _ _ _ _ db db' Heff Hsh); [discriminate|of_kind a|has_kind (me_delivery m)|done|by apply rep_delivery].
  Qed.

Lemma applied_agrees : records_agree m L.
  Proof using Hlt Hrep Heff.
    pose proof apply_shape as Hsh.
    assert (Hover : ∀ ty, ty ∉ [badgerRecordHead; badgerRecordChange; badgerRecordScope; badgerRecordOperation] →
      ∀ e, e ∈ apply_entries m L → en_type e = ty → en_over e = false).
    { intros ty Hty e [He|He]%elem_of_app <-.
      - apply elem_of_mutation_entries in He. destruct He; try reflexivity. exfalso. apply Hty. in_list.
      - exfalso. apply Hty. unfold commit_entries in He. rewrite !elem_of_cons, elem_of_nil in He.
        destruct He as [->|[->|[->|[]]]]; in_list. }
    assert (Hno : ∀ ty, bool_decide (ty ∈ [badgerRecordHead; badgerRecordChange; badgerRecordScope; badgerRecordOperation]) = false →
      ty ∉ [badgerRecordHead; badgerRecordChange; badgerRecordScope; badgerRecordOperation])
      by (intros ty; apply bool_decide_eq_false).
    split.
    - eapply (table_agrees _ _ badgerRecordSource _ _ _ db db' Heff Hsh); [discriminate|by apply Hover, Hno|has_kind (me_source m)|by apply rep_sources].
    - eapply (table_agrees _ _ badgerRecordMessage _ _ _ db db' Heff Hsh); [discriminate|by apply Hover, Hno|has_kind (me_message m)|by apply rep_messages].
    - eapply (table_agrees _ _ badgerRecordItem _ _ _ db db' Heff Hsh); [discriminate|by apply Hover, Hno|has_kind (me_item m)|by apply rep_items].
    - eapply (table_agrees _ _ badgerRecordRevision _ _ _ db db' Heff Hsh); [discriminate|by apply Hover, Hno|has_kind (me_revision m)|by apply rep_revisions].
    - eapply (table_agrees _ _ badgerRecordLifecycle _ _ _ db db' Heff Hsh); [discriminate|by apply Hover, Hno|has_kind (me_lifecycle m)|by apply rep_lifecycle].
    - eapply (table_agrees _ _ badgerRecordDelivery _ _ _ db db' Heff Hsh); [discriminate|by apply Hover, Hno|has_kind (me_delivery m)|by apply rep_delivery].
  Qed.
End applied.

(** ** A commit without records *)
Definition bare_entries (s : Scope) (L : Ledger) (c : ScopeChange) (last : entry) : list entry :=
  commit_entries s c (mkScopeState CanonicalSchemaVersionV1 s (version L + 1) (version L + 1)) last.

Section bare.
  Context (s : Scope) (c : ScopeChange) (last : entry) (L L' : Ledger) (db db' : database).
  Context (Hext : extends_log L L' c) (Hlt : version L < max_u64).
  Context (Hlast : entry_shape s last ∧ en_type last ≠ badgerRecordChange ∧ en_type last ≠ badgerRecordScope).
  Context (Heff : effect (bare_entries s L c last) db db').

Lemma bare_none e : e ∈ @nil entry → entry_shape s e ∧ en_type e ≠ badgerRecordChange ∧ en_type e ≠ badgerRecordScope.
  Proof using. by intros ?%not_elem_of_nil. Qed.

Lemma bare_shape e : e ∈ bare_entries s L c last → entry_shape s e.
  Proof using Hext Hlt Hlast. exact (commit_shape [] s c last L L' Hext Hlt bare_none Hlast e). Qed.

Lemma bare_table {A} `{Stored A} ty (t : gmap string A) :
    ty ∈ ledger_types → ty ≠ badgerRecordScope → en_type last ≠ ty → table db s ty t → table db' s ty t.
  Proof using Hext Hlt Hlast Heff.
    intros [Hc _]%ledger_type_ne Hs Hl. apply (table_keep _ _ _ _ db db' Heff bare_shape Hc).
    intros e He <-. unfold bare_entries, commit_entries in He. rewrite !elem_of_cons, elem_of_nil in He.
    by destruct He as [->|[->|[->|[]]]].
  Qed.

Lemma bare_last {A} `{Stored A} ty id (a : A) (t : gmap string A) :
    ty ∈ ledger_types → ty ≠ badgerRecordScope → en_type last = ty →
    en_key last = badgerSessionMemoryKey s ty id → en_value last = inject a →
    table db s ty t → table db' s ty (<[id := a]> t).
  Proof using Hext Hlt Hlast Heff.
    intros [Hc _]%ledger_type_ne Hs Hty Hk Hval. change (<[id := a]> t) with (record_all (λ _, id) [a] t).
    apply (table_write _ _ _ _ _ _ db db' Heff bare_shape Hc); [| |apply NoDup_singleton].
    - intros e He Ht. unfold bare_entries, commit_entries in He. rewrite !elem_of_cons, elem_of_nil in He.
      destruct He as [->|[->|[->|[]]]]; cbn [change_entry state_entry en_type] in Ht; [by destruct Hc|by destruct Hs|].
      exists a. split; [apply list_elem_of_here|]. by split.
    - intros b ->%list_elem_of_singleton. exists last. unfold bare_entries, commit_entries. split; [in_list|]. by split.
  Qed.

Lemma bare_state k : badgerScopeKey s = Ok k → db' !! k = if bool_decide (lg_Log L' = []) then None
    else Some (mkStored badgerRecordScope (VScope (state_of s L'))).
  Proof using Hext Hlt Hlast Heff.
    intros Hk. rewrite bool_decide_false by (rewrite (proj1 Hext); by intros []%app_eq_nil).
    by apply (commit_state_record [] s c last L L' db db' Hext Hlt Heff bare_none Hlast).
  Qed.

Lemma bare_change n k : represents db s L → is_u64 n → badgerScopeChangeKey s n = Ok k →
    db' !! k = (λ c, mkStored badgerRecordChange (VChange c)) <$> change_at L' n.
  Proof using Hext Hlt Hlast Heff.
    intros Hrep. apply (commit_change_record [] s c last L L' db db' Hext Hlt Heff bare_none Hlast).
    apply (rep_change _ _ _ Hrep).
  Qed.
End bare.

Definition operation_commit_entries (r : CanonicalOperationCommitRequest) (L : Ledger) : list entry :=
  bare_entries (oc_Scope r) L (next_change L (oc_OperationID r) (oc_CommittedAt r) [])
    (operation_entry (oc_Scope r) (oc_OperationID r) (mkBadgerOperation (oc_Fingerprint r) (next_outcome L []))).

Lemma committed_represents r L db db' :
  version L < max_u64 → represents db (oc_Scope r) L → effect (operation_commit_entries r L) db db' →
  represents db' (oc_Scope r) (committed r L).
Proof.
  intros Hlt Hrep Heff. set (c := next_change L (oc_OperationID r) (oc_CommittedAt r) []).
  assert (Hext : extends_log L (committed r L) c) by (by split).
  pose proof Hrep as [].
  split; cbn [committed lg_Operations lg_Forgets lg_Sources lg_Messages lg_Items lg_Revisions lg_Lifecycle lg_Heads lg_Delivery];
    lazymatch goal with
    | |- table _ _ _ _ => try (eapply (bare_table _ _ _ _ _ _ _ Hext Hlt (operation_entry_ok _ _ _) Heff); [in_list|discriminate|discriminate|eassumption])
    | _ => idtac end.
  - intros k Hk. exact (bare_state _ _ _ _ _ _ _ Hext Hlt (operation_entry_ok _ _ _) Heff k Hk).
  - intros n k. exact (bare_change _ _ _ _ _ _ _ Hext Hlt (operation_entry_ok _ _ _) Heff n k Hrep).
  - eapply (bare_last _ _ _ _ _ _ _ Hext Hlt (operation_entry_ok _ _ _) Heff);
      [in_list|discriminate|reflexivity|apply operation_key|reflexivity|eassumption].
Qed.

Definition forget_commit_entries (r : CanonicalForgetCommitRequest) (L : Ledger) : list entry :=
  bare_entries (fr_Scope r) L
    (next_change L (fr_OperationID r) (fr_ForgottenAt r) (map rr_RevisionID (fr_Revisions r)))
    (forget_entry (fr_Scope r) (fr_Kind r) (fr_OperationID r) (mkBadgerForget (fr_Fingerprint r) (next_forget L r))).

Lemma forgotten_represents r L db db' :
  version L < max_u64 → represents db (fr_Scope r) L → effect (forget_commit_entries r L) db db' →
  represents db' (fr_Scope r) (forgotten r L).
Proof.
  intros Hlt Hrep Heff.
  set (c := next_change L (fr_OperationID r) (fr_ForgottenAt r) (map rr_RevisionID (fr_Revisions r))).
  assert (Hext : extends_log L (forgotten r L) c) by (by split).
  pose proof Hrep as [].
  split; cbn [forgotten lg_Operations lg_Forgets lg_Sources lg_Messages lg_Items lg_Revisions lg_Lifecycle lg_Heads lg_Delivery];
    lazymatch goal with
    | |- table _ _ _ _ => try (eapply (bare_table _ _ _ _ _ _ _ Hext Hlt (forget_entry_ok _ _ _ _) Heff); [in_list|discriminate|discriminate|eassumption])
    | _ => idtac end.
  - intros k Hk. exact (bare_state _ _ _ _ _ _ _ Hext Hlt (forget_entry_ok _ _ _ _) Heff k Hk).
  - intros n k. exact (bare_change _ _ _ _ _ _ _ Hext Hlt (forget_entry_ok _ _ _ _) Heff n k Hrep).
  - eapply (bare_last _ _ _ _ _ _ _ Hext Hlt (forget_entry_ok _ _ _ _) Heff);
      [in_list|discriminate|reflexivity|reflexivity|reflexivity|eassumption].
Qed.

(** ** The transactions *)
Lemma read_state_represents db s L k st :
  represents db s L → badgerScopeKey s = Ok k → read_state db s k = Ok st ↔ st = state_of s L.
Proof.
  intros Hrep Hk. unfold read_state. rewrite get_or_Ok, (rep_state _ _ _ Hrep k Hk).
  case_bool_decide as Hl; cbn [inject stored_scope].
  - assert (Hi : initial_state s = state_of s L) by (unfold state_of, version; by rewrite Hl).
    rewrite Hi. naive_solver.
  - naive_solver.
Qed.

Lemma check_state_of s L : Scope_Validate s = Ok tt → check_state s (state_of s L) = Ok tt.
Proof.
  intros Hs. unfold check_state, ScopeState_Validate, state_of. cbn [sst_SchemaVersion sst_Scope].
  rewrite bool_decide_true by done. cbn [negb]. rewrite reject_false, Hs. by rewrite bool_decide_true.
Qed.

Lemma scope_key_valid s k : badgerScopeKey s = Ok k → Scope_Validate s = Ok tt.
Proof. intros H. by apply scoped_key_Ok in H as [? _]. Qed.

(** The counters cannot wrap: an outcome at version zero is refused. *)
Lemma advance_Ok s L revisions :
  ledger_ok L → sst_Version (advance (state_of s L)) ≠ 0 → 
  version L < max_u64 ∧
  advance (state_of s L) = mkScopeState CanonicalSchemaVersionV1 s (version L + 1) (version L + 1) ∧
  mkOutcome (sst_Version (advance (state_of s L))) (sst_ChangeSeq (advance (state_of s L))) revisions =
    next_outcome L revisions.
Proof.
  intros Hok. unfold advance, state_of, next_outcome. cbn [sst_Version sst_ChangeSeq sst_SchemaVersion sst_Scope].
  pose proof (version_u64 L Hok) as Hu. intros Hne.
  pose proof (u64_succ_nonzero _ Hu Hne) as He. rewrite He. split; [|done].
  pose proof (u64_range (version L + 1)) as Hr. rewrite He in Hr. unfold is_u64, max_u64 in *. lia.
Qed.

Lemma outcome_nonzero v c l : CanonicalMutationOutcome_Validate (mkOutcome v c l) = Ok tt → v ≠ 0.
Proof.
  unfold CanonicalMutationOutcome_Validate. cbn [co_ScopeVersion]. intros (H & _)%reject_bind.
  by apply orb_false_iff in H as [H%Z.eqb_neq _].
Qed.

Lemma exists_known {A} `{Stored A} db s ty (t : gmap string A) id :
  table db s ty t → badgerCanonicalRecordExists db s ty id = Ok tt → is_Some (t !! id).
Proof.
  intros Ht (k & Hk & Hr)%bind_Ok. apply reject_if_Ok, bool_decide_eq_false in Hr. rewrite (table_row _ _ _ _ _ _ Ht Hk) in Hr.
  apply not_eq_None_Some in Hr. by apply fmap_is_Some in Hr.
Qed.

Lemma known_Ok {A} `{Stored A} db s ty (t : gmap string A) (ids : list string) id message :
  table db s ty t →
  (if bool_decide (id ∈ ids) then Ok tt else wrapped message (badgerCanonicalRecordExists db s ty id)) = Ok tt →
  id ∈ ids ∨ is_Some (t !! id).
Proof.
  intros Ht. case_bool_decide as Hin; [by left|]. intros Hw. right. eapply exists_known; [exact Ht|].
  unfold wrapped in Hw. by destruct (badgerCanonicalRecordExists db s ty id) as [[]|].
Qed.

Lemma references_sound db m L :
  represents db (cm_Scope m) L → NoDup (map rv_RevisionID (cm_Revisions m)) →
  validateBadgerMutationReferences db m = Ok tt → validateBadgerMutationProvenance db m = Ok tt →
  references_known m L ∧ acyclic (cm_Revisions m).
Proof.
  intros Hrep Hnd Href [Hpar Hac]%provenance_exact; [|done]. split; [|exact Hac].
  unfold validateBadgerMutationReferences in Href. rewrite !bind_unit, !for_each_Ok, !Forall_forall in Href.
  destruct Href as (Hi & Hl & Hh). split.
  - intros r Hr. eapply known_Ok; [by apply rep_items|exact (Hi r Hr)].
  - intros l Hll. eapply known_Ok; [by apply rep_revisions|exact (Hl l Hll)].
  - intros h Hhh. eapply known_Ok; [by apply rep_revisions|exact (Hh h Hhh)].
  - intros r p Hr Hp. destruct (Hpar r p Hr Hp) as [?|(k & Hk & Hs)]; [by left|]. right.
    rewrite (table_row _ _ _ _ _ _ (rep_revisions _ _ _ Hrep) Hk) in Hs. apply fmap_is_Some in Hs. exact Hs.
Qed.

(** A run of a transaction that refines a transition of one scope and keeps the others. *)
Definition refines_scope (s : Scope) (db db' : database) (L L' : Ledger) : Prop :=
  represents db' s L' ∧ (∀ s' Ls, s' ≠ s → represents db s' Ls → represents db' s' Ls) ∧
  writes_records db db' ∧ keeps_private db db'.

Lemma apply_body_refines m scopeKey operationKey db db' o L :
  CanonicalMutation_Validate m = Ok tt → badgerScopeKey (cm_Scope m) = Ok scopeKey →
  badgerOperationKey (cm_Scope m) (or_OperationID (cm_Operation m)) = Ok operationKey →
  ledger_ok L → represents db (cm_Scope m) L → apply_body m scopeKey operationKey db = Ok (db', o) →
  ∃ L', ledger_apply m L L' o ∧ refines_scope (cm_Scope m) db db' L L'.
Proof.
  intros Hv Hs Ho Hok Hrep H. unfold apply_body in H. cbv zeta in H. apply bind_Ok in H as (prior & Hp & H).
  pose proof Ho as Ho'. rewrite operation_key in Ho'. apply replayed_Ok in Hp. destruct prior as [o'|].
  - apply Ok_inj in H. injection H as <- <-. exists L. split; [|split; [done|split; [done|split; [by left|done]]]]. apply apply_replays.
    destruct Hp as [Hp _]. rewrite (table_row _ _ _ _ _ _ (rep_operations _ _ _ Hrep) Ho') in Hp.
    destruct (lg_Operations L !! _) as [b|]; [|done]. cbn [fmap option_fmap option_map inject stored_operation] in Hp. congruence.
  - apply bind_Ok in H as (st & Hst & H). apply (read_state_represents _ _ _ _ _ Hrep Hs) in Hst as ->.
    apply bind_unit in H as [_ H]. apply reject_bind in H as (Hver & H).
    apply negb_false_iff, Z.eqb_eq in Hver. apply bind_Ok in H as (txn & Hput & H).
    apply bind_unit in H as [Hout H].
    destruct (advance_Ok (cm_Scope m) L (map rv_RevisionID (cm_Revisions m)) Hok (outcome_nonzero _ _ _ Hout))
      as (Hlt & Hadv & Hnext). rewrite Hnext, Hadv in H. clear Hnext Hout Hadv.
    apply bind_Ok in H as (txn' & Hc & H). apply Ok_inj in H. injection H as <- <-.
    rewrite put_mutation_entries in Hput. apply bind_unit in Hput as [Href Hput].
    apply bind_unit in Hput as [Hprov Hput].
    apply (put_commit_effect _ _ _ _ _ _ _ _ _ Hs Ho) in Hc.
    assert (Heff : effect (apply_entries m L) db txn') by (apply effect_app; by exists txn).
    exists (applied m L). split; [|split; [|split; [|split]]].
    + destruct (references_sound db m L Hrep) as [Hk Hac]; [by apply accepted_distinct|done|done|].
      apply apply_commits; try done.
      * rewrite (table_row _ _ _ _ _ _ (rep_operations _ _ _ Hrep) Ho') in Hp. by destruct (lg_Operations L !! _).
      * by eapply applied_agrees.
    + by eapply applied_represents.
    + intros s' Ls Hne Hrep'. eapply effect_other_scope; [exact Heff|by apply apply_shape|exact Hne|exact Hrep'].
    + eapply effect_writes_records; [exact Heff | by apply apply_shape | apply apply_typed].
    + eapply effect_keeps_private; [exact Heff | by apply apply_shape | apply apply_public].
Qed.

Lemma commit_body_refines r scopeKey operationKey db db' o L :
  badgerScopeKey (oc_Scope r) = Ok scopeKey → badgerOperationKey (oc_Scope r) (oc_OperationID r) = Ok operationKey →
  ledger_ok L → represents db (oc_Scope r) L → commit_body r scopeKey operationKey db = Ok (db', o) →
  ∃ L', ledger_commit r L L' o ∧ refines_scope (oc_Scope r) db db' L L'.
Proof.
  intros Hs Ho Hok Hrep H. unfold commit_body in H. cbv zeta in H. apply bind_Ok in H as (prior & Hp & H).
  pose proof Ho as Ho'. rewrite operation_key in Ho'. apply replayed_Ok in Hp. destruct prior as [o'|].
  - apply Ok_inj in H. injection H as <- <-. exists L. split; [|split; [done|split; [done|split; [by left|done]]]]. apply commit_replays.
    destruct Hp as [Hp _]. rewrite (table_row _ _ _ _ _ _ (rep_operations _ _ _ Hrep) Ho') in Hp.
    destruct (lg_Operations L !! _) as [b|]; [|done]. cbn [fmap option_fmap option_map inject stored_operation] in Hp. congruence.
  - apply bind_Ok in H as (st & Hst & H). apply (read_state_represents _ _ _ _ _ Hrep Hs) in Hst as ->.
    apply bind_unit in H as [_ H]. apply reject_bind in H as (Hver & H).
    apply negb_false_iff, Z.eqb_eq in Hver.
    apply bind_unit in H as [Hout H].
    destruct (advance_Ok (oc_Scope r) L [] Hok (outcome_nonzero _ _ _ Hout)) as (Hlt & Hadv & Hnext).
    rewrite Hnext, Hadv in H. clear Hnext Hout Hadv.
    apply bind_Ok in H as (txn' & Hc & H). apply Ok_inj in H. injection H as <- <-.
    apply (put_commit_effect _ _ _ _ _ _ _ _ _ Hs Ho) in Hc.
    exists (committed r L). split; [|split; [|split; [|split]]].
    + apply commit_commits; try done. rewrite (table_row _ _ _ _ _ _ (rep_operations _ _ _ Hrep) Ho') in Hp.
      by destruct (lg_Operations L !! _).
    + by apply (committed_represents r L db).
    + intros s' Ls Hne Hrep'. eapply effect_other_scope; [exact Hc| |exact Hne|exact Hrep'].
      exact (bare_shape (oc_Scope r) _ _ L (committed r L) (conj eq_refl eq_refl) Hlt (operation_entry_ok _ _ _)).
    + eapply effect_writes_records; [exact Hc| |].
      { exact (bare_shape (oc_Scope r) _ _ L (committed r L) (conj eq_refl eq_refl) Hlt (operation_entry_ok _ _ _)). }
      by apply commit_entries_typed.
    + eapply effect_keeps_private; [exact Hc| |].
      { exact (bare_shape (oc_Scope r) _ _ L (committed r L) (conj eq_refl eq_refl) Hlt (operation_entry_ok _ _ _)). }
      apply commit_entries_public. apply not_in_list; reflexivity.
Qed.

Lemma forget_body_refines r scopeKey key db db' o L :
  badgerScopeKey (fr_Scope r) = Ok scopeKey →
  badgerForgetOutcomeKey (fr_Scope r) (fr_Kind r) (fr_OperationID r) = Ok key →
  ledger_ok L → represents db (fr_Scope r) L → forget_body r scopeKey key db = Ok (db', o) →
  ∃ L', ledger_forget r L L' o ∧ refines_scope (fr_Scope r) db db' L L'.
Proof.
  intros Hs Hk Hok Hrep H. unfold forget_body in H. apply bind_Ok in H as (prior & Hp & H).
  apply optional_Ok in Hp. rewrite (table_row _ _ _ _ (forget_id r) key (rep_forgets _ _ _ Hrep) Hk) in Hp. destruct prior as [[f o']|].
  - cbn [bf_Fingerprint bf_Outcome] in H. apply reject_bind in H as (Hf & H). apply negb_false_iff, bool_decide_eq_true in Hf as ->.
    apply bind_unit in H as [_ H]. apply Ok_inj in H. injection H as <- <-. exists L. split; [|split; [done|split; [done|split; [by left|done]]]].
    apply forget_replays. destruct (lg_Forgets L !! _) as [b|]; [|done].
    cbn [fmap option_fmap option_map inject stored_forget] in Hp. congruence.
  - apply bind_Ok in H as (st & Hst & H). apply (read_state_represents _ _ _ _ _ Hrep Hs) in Hst as ->.
    apply bind_unit in H as [_ H]. apply reject_bind in H as (Hver & H).
    apply negb_false_iff, Z.eqb_eq in Hver. cbv zeta in H.
    apply bind_unit in H as [Hout H].
    assert (Hne : sst_Version (advance (state_of (fr_Scope r) L)) ≠ 0).
    { clear -Hout. unfold ForgetOutcome_Validate in Hout. cbn [fo_ScopeVersion] in Hout. rewrite !bind_unit, !reject_if_Ok in Hout.
      by destruct Hout as (_ & _ & _ & _ & Hz%Z.eqb_neq & _). }
    clear Hout. destruct (advance_Ok (fr_Scope r) L (map rr_RevisionID (fr_Revisions r)) Hok Hne) as (Hlt & Hadv & _).
    rewrite Hadv in H. cbn [sst_Version sst_ChangeSeq] in H.
    change (mkForgetOutcome DerivedSchemaVersionV1 (fr_OperationID r) (fr_Kind r) (fr_Scope r) (version L + 1)
      (fr_Sources r) (fr_Revisions r)) with (next_forget L r) in H.
    apply bind_Ok in H as (ck & Hck & H). apply bind_Ok in H as (t1 & H1 & H). apply bind_Ok in H as (t2 & H2 & H).
    apply bind_Ok in H as (t3 & H3 & H). apply Ok_inj in H. injection H as <- <-.
    assert (Heff : effect (forget_commit_entries r L) db t3).
    { apply effect_three. apply bind_Ok. exists t1. split.
      { apply bind_Ok. exists ck. split; [exact Hck | exact H1]. }
      apply bind_Ok. exists t2. split; apply bind_Ok; [exists scopeKey; split; [exact Hs|exact H2]|].
      exists key. split; [exact Hk | exact H3]. }
    exists (forgotten r L). split; [|split; [|split; [|split]]].
    + apply forget_commits; try done. by destruct (lg_Forgets L !! _).
    + by apply (forgotten_represents r L db).
    + intros s' Ls Hne' Hrep'. eapply effect_other_scope; [exact Heff| |exact Hne'|exact Hrep'].
      exact (bare_shape (fr_Scope r) _ _ L (forgotten r L) (conj eq_refl eq_refl) Hlt (forget_entry_ok _ _ _ _)).
    + eapply effect_writes_records; [exact Heff| |].
      { exact (bare_shape (fr_Scope r) _ _ L (forgotten r L) (conj eq_refl eq_refl) Hlt (forget_entry_ok _ _ _ _)). }
      by apply commit_entries_typed.
    + eapply effect_keeps_private; [exact Heff| |].
      { exact (bare_shape (fr_Scope r) _ _ L (forgotten r L) (conj eq_refl eq_refl) Hlt (forget_entry_ok _ _ _ _)). }
      apply commit_entries_public. apply not_in_list; reflexivity.
Qed.
