(* ===== verification/BadgerSteps.v ===== *)
(** * BadgerSteps: executions of the store

    Every state-changing operation of src/sessionmemory/store/badger as a step of
    the database, and what whole executions guarantee: the database always
    represents one reachable ledger per scope, committed history is never lost or
    altered, and the three committing requests behave as the ledger says. *)

From Stdlib Require Import ZArith Lia Ascii String.
From stdpp Require Import base numbers list gmap strings relations.
From S2P Require Import Prelude.
From S2P Require Import GoStrings.
From S2P Require Import MemoryTypes.
From S2P Require Import MemoryRecords.
From S2P Require Import MemoryDerived.
From S2P Require Import MemoryCanonical.
From S2P Require Import MemoryProcessor.
From S2P Require Import MemoryForget.
From S2P Require Import MemoryProjection.
From S2P Require Import BadgerKeys.
From S2P Require Import BadgerTxn.
From S2P Require Import BadgerStore.
From S2P Require Import BadgerLedgers.
From S2P Require Import BadgerWrites.
From S2P Require Import BadgerProvenance.
From S2P Require Import BadgerEntries.
From S2P Require Import LedgerSpec.
From S2P Require Import BadgerRefinement.

Local Open Scope string_scope.
Local Open Scope list_scope.
Local Open Scope Z_scope.

(** ** How an operation ends *)
Lemma run_with_inv {A B} db (r : result A) (k : A → database * result B) db' res :
  run_with db r k = (db', res) →
  (db' = db ∧ ∃ err, res = Err err) ∨ ∃ a, r = Ok a ∧ k a = (db', res).
Proof.
  unfold run_with. destruct r as [a|err]; [right; by exists a|]. intros [= <- <-]. left. split; [done | by exists err].
Qed.

Lemma Update_inv {A} fault op (body : database → result (database * A)) db db' res :
  Update fault op body db = (db', res) →
  (db' = db ∧ ∃ err, res = Err err) ∨ ∃ a, res = Ok a ∧ body db = Ok (db', a) ∧ fault = None.
Proof.
  unfold Update. destruct (body db) as [[db1 a]|err]; [|intros [= <- <-]; left; by eauto].
  destruct fault as [err|]; intros [= <- <-]; [left; by eauto | right; by exists a].
Qed.

(** A failed operation has no effect; a successful one ran its transaction. *)
Lemma update_inv {A B} fault op db (r : result A) (body : A → database → result (database * B)) db' res :
  run_with db r (λ a, Update fault op (body a) db) = (db', res) →
  (db' = db ∧ ∃ err, res = Err err) ∨ ∃ a b, r = Ok a ∧ res = Ok b ∧ body a db = Ok (db', b) ∧ fault = None.
Proof.
  intros [?|(a & Hr & H)]%run_with_inv; [by left|].
  apply Update_inv in H as [?|(b & ? & ? & ?)]; [by left | right; by exists a, b].
Qed.

(** ** Operations that leave every ledger alone *)

(** Only records of these types change, into typed ones; only payloads disappear. *)
Definition changes (tys : list string) (db db' : database) : Prop :=
  ∀ k, db' !! k = db !! k ∨
    ∃ s ty ids, ty ∈ tys ∧ scoped_key s ty ids = Ok k ∧
      match db' !! k with Some st => well_typed k st | None => ty = badgerRecordPayload end.

#[export] Instance changes_refl tys : Reflexive (changes tys).
Proof. intros db k. by left. Qed.
#[export] Instance changes_trans tys : Transitive (changes tys).
Proof.
  intros d1 d2 d3 H1 H2 k. destruct (H2 k) as [E2|?]; [|by right].
  rewrite E2. apply H1.
Qed.

Lemma changes_weaken tys tys' db db' : (∀ ty, ty ∈ tys → ty ∈ tys') → changes tys db db' → changes tys' db db'.
Proof.
  intros Hsub H k. destruct (H k) as [?|(s & ty & ids & Hty & Hrest)]; [by left|]. right. exists s, ty, ids.
  split; [by apply Hsub | exact Hrest].
Qed.

Lemma changes_frame tys db db' s ty ids k :
  changes tys db db' → ty ∉ tys → scoped_key s ty ids = Ok k → db' !! k = db !! k.
Proof.
  intros H Hno Hk. destruct (H k) as [?|(s' & ty' & ids' & Hty & Hk' & _)]; [done|]. exfalso.
  destruct (scoped_key_inj _ _ _ _ _ _ _ Hk Hk') as (_ & -> & _). by apply Hno.
Qed.

(** Every record type that is not the ledgers'. *)
Definition side_types : list string := badgerRecordPayload :: private_types.

Lemma side_not_ledger ty : ty ∈ side_types → ty ≠ badgerRecordChange ∧ ty ∉ ledger_types.
Proof.
  assert (Hall : Forall (λ ty, ty ≠ badgerRecordChange ∧ ty ∉ ledger_types) side_types).
  { repeat constructor; first [discriminate | apply not_in_list; reflexivity]. }
  rewrite Forall_forall in Hall. apply Hall.
Qed.

Lemma changes_represents tys db db' s L :
  (∀ ty, ty ∈ tys → ty ∈ side_types) → changes tys db db' → represents db s L → represents db' s L.
Proof.
  intros Hsub H. apply represents_frame. intros k Hl.
  destruct (H k) as [?|(s' & ty & ids & [Hc Hty]%Hsub%side_not_ledger & Hk & _)]; [done|]. exfalso.
  destruct Hl as [(ty' & ids' & Hty' & Hk')|(n & Hn & Hk')].
  - destruct (scoped_key_inj _ _ _ _ _ _ _ Hk Hk') as (_ & -> & _). by apply Hty.
  - apply Hc. by apply (change_key_not_scoped _ _ _ _ _ _ Hk' Hk).
Qed.

(** Putting a record under its own key. *)
Lemma side_put {A} `{Stored A} tys s ty ids db k (a : A) db' :
  scoped_key s ty ids = Ok k → length ids = id_count ty → ty ∈ tys → ty ≠ badgerRecordChange →
  has_type ty (inject a) = true → putBadgerSessionMemoryRecord db k ty a = Ok db' → changes tys db db'.
Proof.
  intros Hk Hn Hty Hc Ha (_ & <-%Ok_inj)%reject_bind k'. destruct (decide (k' = k)) as [->|Hne].
  - right. exists s, ty, ids. split; [exact Hty|]. split; [exact Hk|]. rewrite lookup_insert_eq.
    split; [exact Ha|]. left. split; [exact Hc | by exists s, ids].
  - left. by apply lookup_insert_ne, not_eq_sym.
Qed.

Lemma side_delete s ids db k :
  scoped_key s badgerRecordPayload ids = Ok k → changes [badgerRecordPayload] db (delete k db).
Proof.
  intros Hk k'. destruct (decide (k' = k)) as [->|Hne].
  - right. exists s, badgerRecordPayload, ids. split; [apply list_elem_of_here|]. split; [exact Hk|]. by rewrite lookup_delete_eq.
  - left. by apply lookup_delete_ne, not_eq_sym.
Qed.

Ltac side Hk Hp := eapply side_put; [exact Hk|reflexivity| | | |exact Hp]; [in_list|discriminate|reflexivity].

Lemma put_payload_keeps fault ctx data ref db db' r :
  PutPayload fault ctx data ref db = (db', r) → changes [badgerRecordPayload] db db'.
Proof.
  unfold PutPayload.
  intros [[-> _]|(k & u & Hk & _ & Hb & _)]%(update_inv _ _ _ _ (λ key txn,
    txn ← putBadgerSessionMemoryImmutableRecord txn key badgerRecordPayload data; Ok (txn, tt))); [done|].
  apply bind_unit in Hk as [_ (_ & Hk)%reject_bind]. apply bind_Ok in Hb as (t & Hp & [= <-]%Ok_inj).
  unfold putBadgerSessionMemoryImmutableRecord in Hp. apply reject_bind in Hp as (_ & Hp).
  destruct (db !! k); [apply reject_bind in Hp as (_ & <-%Ok_inj); done|].
  side Hk Hp.
Qed.

Lemma delete_payload_keeps fault ctx ref db db' r :
  DeletePayload fault ctx ref db = (db', r) → changes [badgerRecordPayload] db db'.
Proof.
  unfold DeletePayload.
  intros [[-> _]|(k & u & Hk & _ & Hb & _)]%(update_inv _ _ _ _ (λ key txn, Ok (delete key txn, tt))); [done|].
  apply bind_unit in Hk as [_ Hk]. apply bind_unit in Hk as [_ Hk]. apply Ok_inj in Hb. injection Hb as <-.
  eapply side_delete. exact Hk.
Qed.

Lemma deny_keeps {A} `{Stored A} s ty id (a : A) k db db' :
  ty ≠ badgerRecordChange → id_count ty = 1%nat → has_type ty (inject a) = true →
  badgerSessionMemoryKey s ty id = Ok k → putBadgerDenyRecord db k ty a = Ok db' → changes [ty] db db'.
Proof.
  intros Hty Hn Ha Hk Hp. unfold putBadgerDenyRecord in Hp. destruct (db !! k); [by apply Ok_inj in Hp as <-|].
  eapply side_put; [exact Hk|by rewrite Hn|apply list_elem_of_here|exact Hty|exact Ha|exact Hp].
Qed.

Lemma deny_source_keeps fault ctx s id at_ db db' r :
  Badger_DenySource fault ctx s id at_ db = (db', r) → changes [badgerRecordDeniedSource] db db'.
Proof.
  unfold Badger_DenySource.
  intros [[-> _]|(k & u & Hk & _ & Hb & _)]%(update_inv _ _ _ _ (λ key txn,
    txn ← putBadgerDenyRecord txn key badgerRecordDeniedSource (mkDeniedSource id at_); Ok (txn, tt))); [done|].
  apply bind_unit in Hk as [_ Hk]. apply bind_unit in Hk as [_ (_ & Hk)%reject_bind].
  apply bind_Ok in Hb as (t & Hp & [= <-]%Ok_inj). by eapply deny_keeps; [| | |exact Hk|exact Hp].
Qed.

Lemma deny_revision_keeps fault ctx s id at_ db db' r :
  Badger_DenyRevision fault ctx s id at_ db = (db', r) → changes [badgerRecordDeniedRevision] db db'.
Proof.
  unfold Badger_DenyRevision.
  intros [[-> _]|(k & u & Hk & _ & Hb & _)]%(update_inv _ _ _ _ (λ key txn,
    txn ← putBadgerDenyRecord txn key badgerRecordDeniedRevision (mkDeniedRevision id at_); Ok (txn, tt))); [done|].
  apply bind_unit in Hk as [_ Hk]. apply bind_unit in Hk as [_ (_ & Hk)%reject_bind].
  apply bind_Ok in Hb as (t & Hp & [= <-]%Ok_inj). by eapply deny_keeps; [| | |exact Hk|exact Hp].
Qed.

Lemma claim_loop_keeps request entries txn claimed txn' claimed' :
  claim_loop request entries txn claimed = Ok (txn', claimed') → changes [badgerRecordDeliveryClaim] txn txn'.
Proof.
  revert txn claimed. induction entries as [|kv entries IH]; intros txn claimed; cbn [claim_loop].
  { by intros [= <- <-]%Ok_inj. }
  destruct (Zlength claimed <? dcr_Limit request); [|by intros [= <- <-]%Ok_inj].
  intros (record & _ & H)%bind_Ok. apply bind_Ok in H as (k & Hk & H). apply bind_Ok in H as (c & _ & H).
  destruct (claim_held c (dcr_Now request)); [by eapply IH|]. cbv zeta in H. apply bind_Ok in H as (t & Hp & H).
  etrans; [|by eapply IH]. side Hk Hp.
Qed.

Lemma claim_keeps fault ctx request db db' r :
  ClaimDeliveryOutbox fault ctx request db = (db', r) → changes [badgerRecordDeliveryClaim] db db'.
Proof.
  unfold ClaimDeliveryOutbox.
  intros [[-> _]|(p & b & _ & _ & Hb & _)]%(update_inv _ _ _ _ (λ prefix txn,
    claim_loop request (scan txn prefix prefix) txn [])); [done|]. by eapply claim_loop_keeps.
Qed.

Lemma settle_keeps fault ctx request db db' r :
  SettleDeliveryOutbox fault ctx request db = (db', r) → changes [badgerRecordDeliveryClaim] db db'.
Proof.
  unfold SettleDeliveryOutbox.
  intros [[-> _]|(k & u & Hk & _ & Hb & _)]%(update_inv _ _ _ _ (settle_body request)); [done|].
  apply bind_unit in Hk as [_ Hk]. apply bind_unit in Hk as [_ Hk].
  unfold settle_body in Hb. apply bind_Ok in Hb as (found & _ & Hb). destruct found as [c|]; [|done].
  apply reject_bind in Hb as (_ & Hb). apply bind_Ok in Hb as (t & Hp & [= <-]%Ok_inj).
  side Hk Hp.
Qed.

Lemma mark_dirty_keeps fault ctx m db db' r :
  MarkProjectionDirty fault ctx m db = (db', r) → changes [badgerRecordProjectionManifest] db db'.
Proof.
  unfold MarkProjectionDirty.
  intros [[-> _]|(k & u & Hk & _ & Hb & _)]%(update_inv _ _ _ _ (λ key txn,
    txn ← putBadgerSessionMemoryRecord txn key badgerRecordProjectionManifest
            (with_status m ProjectionGenerationDirty); Ok (txn, tt))); [done|].
  apply bind_unit in Hk as [_ Hk]. apply bind_unit in Hk as [_ Hk].
  apply bind_Ok in Hb as (t & Hp & [= <-]%Ok_inj). side Hk Hp.
Qed.

Lemma update_body_keeps m at_ f k db db' u :
  manifest_key m = Ok k → update_body m at_ f k db = Ok (db', u) → changes [badgerRecordProjectionManifest] db db'.
Proof.
  intros Hk H. unfold update_body in H. apply bind_Ok in H as (st & _ & H). apply reject_bind in H as (_ & H).
  apply bind_Ok in H as (st' & _ & H). apply bind_Ok in H as (t & Hp & H). apply Ok_inj in H. injection H as <- _.
  side Hk Hp.
Qed.

Lemma advance_watermark_keeps fault ctx m w at_ db db' r :
  AdvanceProjectionWatermark fault ctx m w at_ db = (db', r) → changes [badgerRecordProjectionManifest] db db'.
Proof.
  unfold AdvanceProjectionWatermark.
  intros [[-> _]|(k & u & Hk & _ & Hb & _)]%(update_inv _ _ _ _ (λ key, update_body m at_ _ key)); [done|].
  apply bind_unit in Hk as [_ Hk]. apply bind_unit in Hk as [_ Hk]. by eapply update_body_keeps.
Qed.

Lemma activate_keeps fault ctx m at_ db db' r :
  ActivateProjectionGeneration fault ctx m at_ db = (db', r) → changes [badgerRecordProjectionManifest; badgerRecordProjectionActive] db db'.
Proof.
  unfold ActivateProjectionGeneration. intros [[-> _]|([mk ak] & Hk & H)]%run_with_inv; [done|].
  apply Update_inv in H as [[-> _]|(u & _ & Hb & _)]; [done|].
  apply bind_unit in Hk as [_ Hk]. apply bind_unit in Hk as [_ Hk].
  apply bind_Ok in Hk as (mk' & Hm & Hk). apply bind_Ok in Hk as (ak' & Ha & Hk). apply Ok_inj in Hk. injection Hk as -> ->.
  unfold activate_body in Hb. apply bind_Ok in Hb as (st & _ & Hb). apply reject_bind in Hb as (_ & Hb).
  apply bind_Ok in Hb as (previous & _ & Hb). apply bind_Ok in Hb as (t1 & H1 & Hb).
  apply bind_Ok in Hb as (t2 & H2 & Hb). apply bind_Ok in Hb as (t3 & H3 & Hb). apply Ok_inj in Hb. injection Hb as <- _.
  etrans; [|etrans; [side Hm H2|side Ha H3]].
  destruct previous as [p|]; [|by apply Ok_inj in H1 as <-]. case_bool_decide; [by apply Ok_inj in H1 as <-|].
  apply bind_Ok in H1 as (pk & Hpk & H1). apply bind_Ok in H1 as (old & _ & H1).
  side Hpk H1.
Qed.

Lemma floor_keeps fault ctx s id floor db db' r :
  SetProjectionRetentionFloor fault ctx s id floor db = (db', r) → changes [badgerRecordProjectionRetention] db db'.
Proof.
  unfold SetProjectionRetentionFloor.
  intros [[-> _]|(k & u & Hk & _ & Hb & _)]%(update_inv _ _ _ _ (floor_body floor)); [done|].
  apply bind_unit in Hk as [_ Hk]. apply bind_unit in Hk as [_ Hk].
  unfold floor_body in Hb. apply bind_Ok in Hb as (found & _ & Hb). apply reject_bind in Hb as (_ & Hb).
  apply bind_Ok in Hb as (t & Hp & [= <-]%Ok_inj). side Hk Hp.
Qed.

Lemma checkpoint_keeps fault ctx c db db' r :
  SaveScopeCheckpoint fault ctx c db = (db', r) → changes [badgerRecordProjectionCheckpoint] db db'.
Proof.
  unfold SaveScopeCheckpoint.
  intros [[-> _]|(k & u & Hk & _ & Hb & _)]%(update_inv _ _ _ _ (checkpoint_body c)); [done|].
  apply bind_unit in Hk as [_ Hk]. apply bind_unit in Hk as [_ Hk].
  assert (Hput : ∀ t, putBadgerSessionMemoryRecord db k badgerRecordProjectionCheckpoint c = Ok t → changes [badgerRecordProjectionCheckpoint] db t).
  { intros t Hp. side Hk Hp. }
  unfold checkpoint_body in Hb. apply bind_Ok in Hb as (found & _ & Hb).
  destruct found as [old|]; cbv zeta in Hb; [apply reject_bind in Hb as (_ & Hb); destruct (_ && _)|];
    [by apply Ok_inj in Hb; injection Hb as <-|..]; apply bind_Ok in Hb as (t & Hp & [= <-]%Ok_inj); by apply Hput.
Qed.

Lemma delete_payloads_keep fault ctx refs db db' r :
  delete_payloads fault ctx refs db = (db', r) → changes [badgerRecordPayload] db db'.
Proof.
  revert db. induction refs as [|ref refs IH]; intros db; cbn [delete_payloads]; [by intros [= <- _]|].
  destruct (DeletePayload (fault ref) ctx ref db) as [db1 [u|err]] eqn:Hd; intros H;
    apply delete_payload_keeps in Hd; [by etrans; [|by apply IH]|]. by injection H as <- _.
Qed.

Lemma scrub_keeps fault ctx s sources revisions view db db' r :
  ScrubCanonicalForget fault ctx s sources revisions view db = (db', r) → changes [badgerRecordPayload] db db'.
Proof.
  unfold ScrubCanonicalForget. intros [[-> _]|(refs & _ & H)]%run_with_inv; [done|]. by eapply delete_payloads_keep.
Qed.

(** ** The committing requests *)
Lemma apply_inv fault ctx m db db' r :
  Badger_ApplyCanonicalMutation fault ctx m db = (db', r) →
  (db' = db ∧ ∃ err, r = Err err) ∨
  ∃ scopeKey operationKey o, r = Ok o ∧ CanonicalMutation_Validate m = Ok tt ∧
    badgerScopeKey (cm_Scope m) = Ok scopeKey ∧
    badgerOperationKey (cm_Scope m) (or_OperationID (cm_Operation m)) = Ok operationKey ∧
    apply_body m scopeKey operationKey db = Ok (db', o).
Proof.
  unfold Badger_ApplyCanonicalMutation. intros [?|([sk ok] & Hk & H)]%run_with_inv; [by left|].
  apply Update_inv in H as [?|(o & -> & Hb & _)]; [by left|]. right.
  apply bind_unit in Hk as [_ Hk]. apply bind_unit in Hk as [Hv Hk].
  apply bind_Ok in Hk as (sk' & Hs & Hk). apply bind_Ok in Hk as (ok' & Ho & Hk). apply Ok_inj in Hk. injection Hk as -> ->.
  by exists sk, ok, o.
Qed.

Lemma commit_inv fault ctx q db db' r :
  CommitCanonicalOperation fault ctx q db = (db', r) →
  (db' = db ∧ ∃ err, r = Err err) ∨
  ∃ scopeKey operationKey o, r = Ok o ∧ CanonicalOperationCommitRequest_Validate q = Ok tt ∧ badgerScopeKey (oc_Scope q) = Ok scopeKey ∧
    badgerOperationKey (oc_Scope q) (oc_OperationID q) = Ok operationKey ∧
    commit_body q scopeKey operationKey db = Ok (db', o).
Proof.
  unfold CommitCanonicalOperation. intros [?|([sk ok] & Hk & H)]%run_with_inv; [by left|].
  apply Update_inv in H as [?|(o & -> & Hb & _)]; [by left|]. right.
  apply bind_unit in Hk as [_ Hk]. apply bind_unit in Hk as [Hv Hk].
  apply bind_Ok in Hk as (ok' & Ho & Hk). apply bind_Ok in Hk as (sk' & Hs & Hk). apply Ok_inj in Hk. injection Hk as -> ->.
  by exists sk, ok, o.
Qed.

Lemma forget_inv fault ctx q db db' r :
  CommitCanonicalForget fault ctx q db = (db', r) →
  (db' = db ∧ ∃ err, r = Err err) ∨
  ∃ scopeKey key o, r = Ok o ∧ CanonicalForgetCommitRequest_Validate q = Ok tt ∧ badgerScopeKey (fr_Scope q) = Ok scopeKey ∧
    badgerForgetOutcomeKey (fr_Scope q) (fr_Kind q) (fr_OperationID q) = Ok key ∧
    forget_body q scopeKey key db = Ok (db', o).
Proof.
  unfold CommitCanonicalForget. intros [?|([sk ok] & Hk & H)]%run_with_inv; [by left|].
  apply Update_inv in H as [?|(o & -> & Hb & _)]; [by left|]. right.
  apply bind_unit in Hk as [_ Hk]. apply bind_unit in Hk as [Hv Hk].
  apply bind_Ok in Hk as (ok' & Ho & Hk). apply bind_Ok in Hk as (sk' & Hs & Hk). apply Ok_inj in Hk. injection Hk as -> ->.
  by exists sk, ok, o.
Qed.

(** ** Steps of the store *)
Inductive store_step (db db' : database) : Prop :=
  | st_apply fault ctx m r : Badger_ApplyCanonicalMutation fault ctx m db = (db', r) → store_step db db'
  | st_commit fault ctx q r : CommitCanonicalOperation fault ctx q db = (db', r) → store_step db db'
  | st_forget fault ctx q r : CommitCanonicalForget fault ctx q db = (db', r) → store_step db db'
  | st_put_payload fault ctx data ref r : PutPayload fault ctx data ref db = (db', r) → store_step db db'
  | st_delete_payload fault ctx ref r : DeletePayload fault ctx ref db = (db', r) → store_step db db'
  | st_deny_source fault ctx s id at_ r : Badger_DenySource fault ctx s id at_ db = (db', r) → store_step db db'
  | st_deny_revision fault ctx s id at_ r : Badger_DenyRevision fault ctx s id at_ db = (db', r) → store_step db db'
  | st_claim fault ctx q r : ClaimDeliveryOutbox fault ctx q db = (db', r) → store_step db db'
  | st_settle fault ctx q r : SettleDeliveryOutbox fault ctx q db = (db', r) → store_step db db'
  | st_mark_dirty fault ctx m r : MarkProjectionDirty fault ctx m db = (db', r) → store_step db db'
  | st_watermark fault ctx m w at_ r : AdvanceProjectionWatermark fault ctx m w at_ db = (db', r) → store_step db db'
  | st_activate fault ctx m at_ r : ActivateProjectionGeneration fault ctx m at_ db = (db', r) → store_step db db'
  | st_floor fault ctx s id floor r : SetProjectionRetentionFloor fault ctx s id floor db = (db', r) → store_step db db'
  | st_checkpoint fault ctx c r : SaveScopeCheckpoint fault ctx c db = (db', r) → store_step db db'
  | st_scrub fault ctx s sources revisions view r :
      ScrubCanonicalForget fault ctx s sources revisions view db = (db', r) → store_step db db'.

Definition store_reachable (db : database) : Prop := rtc store_step ∅ db.

(** A step commits one transition of one scope, or none. *)
Inductive step_effect (db db' : database) : Prop :=
  | effect_none tys : (∀ ty, ty ∈ tys → ty ∈ side_types) → changes tys db db' → step_effect db db'
  | effect_scope s : (∀ L, ledger_ok L → represents db s L → ∃ L', ledger_step L L' ∧ refines_scope s db db' L L') →
      step_effect db db'.

Ltac by_side :=
  intros ty Hty; repeat (apply elem_of_cons in Hty as [->|Hty]; [unfold side_types, private_types; in_list|]); by apply not_elem_of_nil in Hty.

Lemma store_step_effect db db' : store_step db db' → step_effect db db'.
Proof.
  intros [].
  - apply apply_inv in H as [[-> _]|(sk & ok & o & _ & Hv & Hs & Ho & Hb)]; [apply (effect_none _ _ []); [by intros ty ?%not_elem_of_nil | done]|].
    apply (effect_scope _ _ (cm_Scope m)). intros L Hok Hrep.
    destruct (apply_body_refines m sk ok db db' o L Hv Hs Ho Hok Hrep Hb) as (L' & Hl & Hr).
    exists L'. split; [by apply (step_apply _ _ m o)|exact Hr].
  - apply commit_inv in H as [[-> _]|(sk & ok & o & _ & Hv & Hs & Ho & Hb)]; [apply (effect_none _ _ []); [by intros ty ?%not_elem_of_nil | done]|].
    apply (effect_scope _ _ (oc_Scope q)). intros L Hok Hrep.
    destruct (commit_body_refines q sk ok db db' o L Hs Ho Hok Hrep Hb) as (L' & Hl & Hr).
    exists L'. split; [by apply (step_commit _ _ q o)|exact Hr].
  - apply forget_inv in H as [[-> _]|(sk & k & o & _ & Hv & Hs & Hk & Hb)]; [apply (effect_none _ _ []); [by intros ty ?%not_elem_of_nil | done]|].
    apply (effect_scope _ _ (fr_Scope q)). intros L Hok Hrep.
    destruct (forget_body_refines q sk k db db' o L Hs Hk Hok Hrep Hb) as (L' & Hl & Hr).
    exists L'. split; [by apply (step_forget _ _ q o)|exact Hr].
  - eapply effect_none; [|by eapply put_payload_keeps]; by_side.
  - eapply effect_none; [|by eapply delete_payload_keeps]; by_side.
  - eapply effect_none; [|by eapply deny_source_keeps]; by_side.
  - eapply effect_none; [|by eapply deny_revision_keeps]; by_side.
  - eapply effect_none; [|by eapply claim_keeps]; by_side.
  - eapply effect_none; [|by eapply settle_keeps]; by_side.
  - eapply effect_none; [|by eapply mark_dirty_keeps]; by_side.
  - eapply effect_none; [|by eapply advance_watermark_keeps]; by_side.
  - eapply effect_none; [|by eapply activate_keeps]; by_side.
  - eapply effect_none; [|by eapply floor_keeps]; by_side.
  - eapply effect_none; [|by eapply checkpoint_keeps]; by_side.
  - eapply effect_none; [|by eapply scrub_keeps]; by_side.
Qed.

(** Nothing but typed records is ever stored. *)
Definition only_records (db : database) : Prop := ∀ k st, db !! k = Some st → well_typed k st.

(** One ledger per scope. *)
Definition ledgers_of (db : database) (A : Scope → Ledger) : Prop :=
  ∀ s, ledger_reachable (A s) ∧ represents db s (A s).

Lemma store_step_simulates db db' A :
  store_step db db' → ledgers_of db A →
  ∃ A', ledgers_of db' A' ∧ (∀ s, rtc ledger_step (A s) (A' s)) ∧ (only_records db → only_records db').
Proof.
  intros [tys Hsub Hk|s Hs]%store_step_effect HA.
  - exists A. split; [|split; [by intros s|]].
    + intros s. split; [apply HA|]. apply (changes_represents tys db); [exact Hsub | exact Hk | apply HA].
    + intros Ho k st Hst. destruct (Hk k) as [He|(? & ? & ? & _ & _ & Hw)]; [apply Ho; by rewrite <-He | by rewrite Hst in Hw].
  - destruct (HA s) as [Hreach Hrep]. destruct (Hs (A s)) as (L' & Hstep & Hrep' & Hother & Hw & _);
      [by apply reachable_ok|done|].
    exists (λ s', if decide (s' = s) then L' else A s'). split; [|split].
    + intros s'. destruct (decide (s' = s)) as [->|Hne]; [|split; [apply HA|]; apply Hother; [done|apply HA]].
      split; [|done]. eapply rtc_r; [exact Hreach | exact Hstep].
    + intros s'. destruct (decide (s' = s)) as [->|Hne]; [by apply rtc_once | done].
    + intros Ho k st Hst. destruct (Hw k) as [He|(st' & Hst' & Hty)]; [apply Ho; by rewrite <-He|].
      rewrite Hst in Hst'. by injection Hst' as <-.
Qed.

Lemma store_steps_simulate db db' A :
  rtc store_step db db' → ledgers_of db A → ∃ A', ledgers_of db' A' ∧ ∀ s, rtc ledger_step (A s) (A' s).
Proof.
  intros H. revert A. induction H as [db|d1 d2 d3 Hs _ IH]; intros A HA; [by exists A|].
  destruct (store_step_simulates _ _ _ Hs HA) as (A1 & HA1 & H1 & _). destruct (IH A1 HA1) as (A2 & HA2 & H2).
  exists A2. split; [exact HA2|]. intros s. etrans; [exact (H1 s) | exact (H2 s)].
Qed.

Lemma initial_ledgers : ledgers_of ∅ (λ _, empty_ledger).
Proof. intros s. split; [unfold ledger_reachable; done | apply empty_represents]. Qed.

Lemma reachable_ledgers db : store_reachable db → ∃ A, ledgers_of db A.
Proof.
  intros H. destruct (store_steps_simulate ∅ db _ H initial_ledgers) as (A & HA & _). by exists A.
Qed.

Lemma reachable_only_records db : store_reachable db → only_records db.
Proof.
  intros H. assert (Hgen : ∀ d1 d2 A, rtc store_step d1 d2 → ledgers_of d1 A → only_records d1 → only_records d2).
  { intros d1 d2 A Hs. revert A. induction Hs as [d|d1 d2 d3 Hs _ IH]; intros A HA Ho; [done|].
    destruct (store_step_simulates _ _ _ Hs HA) as (A1 & HA1 & _ & Hw). by apply (IH A1 HA1), Hw. }
  apply (Hgen ∅ db _ H initial_ledgers). intros k st Hk. by rewrite lookup_empty in Hk.
Qed.

(** ** Properties *)

(** C1. The store refines its specification: in every execution, with failing
    transactions and any interleaving of operations, each scope's records are
    exactly a ledger reachable by the specification's transitions. *)
Theorem store_refines_ledger db db' A :
  rtc store_step db db' → ledgers_of db A →
  ∃ A', ledgers_of db' A' ∧ ∀ s, rtc ledger_step (A s) (A' s) ∧ grows (A s) (A' s).
Proof.
  intros H HA. destruct (store_steps_simulate db db' A H HA) as (A' & HA' & Hs). exists A'. split; [exact HA'|].
  intros s. split; [apply Hs | by apply steps_grow].
Qed.

(** C19. A mutation commits as one transition of its scope's ledger, or the database is
    unchanged: a success is the replay of the same operation or a new commit at
    the expected version, every other scope keeps its ledger, and a failure has
    no effect at all. *)
Theorem apply_refines_ledger fault ctx m db db' r L :
  ledger_reachable L → represents db (cm_Scope m) L →
  Badger_ApplyCanonicalMutation fault ctx m db = (db', r) →
  match r with
  | Ok o => ∃ L', ledger_apply m L L' o ∧ ledger_reachable L' ∧ represents db' (cm_Scope m) L' ∧
      ∀ s Ls, s ≠ cm_Scope m → represents db s Ls → represents db' s Ls
  | Err _ => db' = db
  end.
Proof.
  intros Hreach Hrep [[-> (err & ->)]|(sk & ok & o & -> & Hv & Hs & Ho & Hb)]%apply_inv; [done|].
  destruct (apply_body_refines m sk ok db db' o L Hv Hs Ho (reachable_ok L Hreach) Hrep Hb) as (L' & Hl & Hr & Hother & _).
  exists L'. split; [exact Hl|]. split; [|by split].
  eapply rtc_r; [exact Hreach | by apply (step_apply _ _ m o)].
Qed.

(** C32. Reachable stores are well formed: in every scope the change records are numbered
    from one to the scope's version without a gap and nothing beyond it, the
    recorded revisions belong to recorded items and have recorded parents, heads
    and lifecycle events name recorded revisions, and provenance is acyclic. *)
Theorem store_well_formed db s :
  store_reachable db →
  ∃ L, ledger_ok L ∧ represents db s L ∧
    ∀ n k, is_u64 n → badgerScopeChangeKey s n = Ok k →
      (is_Some (db !! k) ↔ 1 ≤ n ≤ version L).
Proof.
  intros [A HA]%reachable_ledgers. exists (A s). destruct (HA s) as [Hreach Hrep].
  split; [by apply reachable_ok|]. split; [exact Hrep|]. intros n k Hn Hk.
  rewrite (rep_change _ _ _ Hrep n k Hn Hk), fmap_is_Some. unfold change_at.
  destruct (1 <=? n) eqn:E; [apply Z.leb_le in E | apply Z.leb_gt in E; split; [by intros [] | lia]].
  rewrite lookup_lt_is_Some. unfold version, Zlength. lia.
Qed.

(** The record types that only committing requests write and none overwrites. *)
Definition history_types : list string :=
  [badgerRecordOperation; badgerRecordForgetOutcome; badgerRecordSource; badgerRecordMessage; badgerRecordItem;
   badgerRecordRevision; badgerRecordLifecycle; badgerRecordDelivery].

Lemma table_kept {A} `{Stored A} db db' s ty (t t' : gmap string A) id k st :
  table db s ty t → table db' s ty t' → t ⊆ t' → badgerSessionMemoryKey s ty id = Ok k →
  db !! k = Some st → db' !! k = Some st.
Proof.
  intros Ht Ht' Hsub Hk. rewrite (table_row _ _ _ _ _ _ Ht Hk), (table_row _ _ _ _ _ _ Ht' Hk).
  destruct (t !! id) as [a|] eqn:E; [|done]. by rewrite (lookup_weaken _ _ _ _ E Hsub).
Qed.

(** C31. Committed history is permanent: whatever the store does later, the change
    records, operations with their outcomes, forget outcomes, sources, messages,
    items, revisions, lifecycle events and deliveries of every scope stay under
    their keys, unaltered. *)
Theorem history_is_permanent db db' s k st :
  store_reachable db → rtc store_step db db' → db !! k = Some st →
  (∃ ty id, ty ∈ history_types ∧ badgerSessionMemoryKey s ty id = Ok k) ∨
    (∃ n, is_u64 n ∧ badgerScopeChangeKey s n = Ok k) →
  db' !! k = Some st.
Proof.
  intros [A HA]%reachable_ledgers Hsteps Hst Hk.
  destruct (store_steps_simulate db db' A Hsteps HA) as (A' & HA' & Hgrow).
  destruct (HA s) as [_ []], (HA' s) as [_ []], (steps_grow _ _ (Hgrow s)).
  destruct Hk as [(ty & id & Hty & Hk)|(n & Hn & Hk)].
  - unfold history_types in Hty. rewrite !elem_of_cons, elem_of_nil in Hty.
    destruct Hty as [->|[->|[->|[->|[->|[->|[->|[->|[]]]]]]]]];
      [exact (table_kept _ _ _ _ _ _ _ _ _ rep_operations rep_operations0 operations_grow Hk Hst)
      |exact (table_kept _ _ _ _ _ _ _ _ _ rep_forgets rep_forgets0 forgets_grow Hk Hst)
      |exact (table_kept _ _ _ _ _ _ _ _ _ rep_sources rep_sources0 sources_grow Hk Hst)
      |exact (table_kept _ _ _ _ _ _ _ _ _ rep_messages rep_messages0 messages_grow Hk Hst)
      |exact (table_kept _ _ _ _ _ _ _ _ _ rep_items rep_items0 items_grow Hk Hst)
      |exact (table_kept _ _ _ _ _ _ _ _ _ rep_revisions rep_revisions0 revisions_grow Hk Hst)
      |exact (table_kept _ _ _ _ _ _ _ _ _ rep_lifecycle rep_lifecycle0 lifecycle_grows Hk Hst)
      |exact (table_kept _ _ _ _ _ _ _ _ _ rep_delivery rep_delivery0 delivery_grows Hk Hst)].
  - rewrite (rep_change n k Hn Hk) in Hst. rewrite (rep_change0 n k Hn Hk).
    unfold change_at in *. destruct (1 <=? n); [|done].
    destruct (lg_Log (A s) !! Z.to_nat (n - 1)) as [c|] eqn:E; [|done].
    by rewrite (prefix_lookup_Some _ _ _ _ E log_grows).
Qed.

(** C34. The store is typed: in every execution a record found under the key of a record
    type carries that type, a value of the type's shape and a key with as many
    identities as the type has, so that reading it as its type always succeeds. *)
Theorem store_is_typed {A} `{Stored A} db s ty ids k st :
  store_reachable db → scoped_key s ty ids = Ok k → ty ≠ badgerRecordChange →
  (∀ v, has_type ty v = true → ∃ a : A, v = inject a) → db !! k = Some st →
  has_type ty (st_Value st) = true ∧ length ids = id_count ty ∧
  ∃ a : A, st = mkStored ty (inject a) ∧ getBadgerSessionMemoryRecord db k ty = Ok a.
Proof.
  intros Hreach Hk Hty Hval Hst. pose proof (reachable_only_records db Hreach k st Hst) as [Ht Hcase].
  assert (Htype : st_RecordType st = ty ∧ length ids = id_count ty).
  { destruct Hcase as [(_ & s' & ids' & Hn & Hk')|(_ & s' & n & _ & Hk')].
    - destruct (scoped_key_inj _ _ _ _ _ _ _ Hk Hk') as (_ & E & Ei). by rewrite <-Ei, <-E.
    - exfalso. by apply Hty, (change_key_not_scoped _ _ _ _ _ _ Hk' Hk). }
  destruct Htype as [Htype Hn]. rewrite Htype in Ht. split; [exact Ht|]. split; [exact Hn|]. destruct (Hval _ Ht) as [a Ha]. exists a.
  assert (E : st = mkStored ty (inject a)) by (destruct st; cbn in *; congruence). split; [exact E|].
  apply get_record_Ok. by rewrite Hst, E.
Qed.

(** ** Witnesses *)
Definition demo_ledger : Ledger := applied demo_mutation empty_ledger.

Lemma demo_step : store_step ∅ demo_db.
Proof. exact (st_apply _ _ _ _ _ _ demo_commit_run). Qed.
Lemma demo_db_reachable : store_reachable demo_db.
Proof. exact (rtc_once _ _ demo_step). Qed.
Lemma empty_reachable : ledger_reachable empty_ledger.
Proof. unfold ledger_reachable. reflexivity. Qed.

Lemma demo_ledger_apply : ledger_apply demo_mutation empty_ledger demo_ledger (mkOutcome 1 1 []).
Proof.
  assert (Hnil : ∀ (A : Type) (x : A), x ∈ [] → False) by (intros A x; apply not_elem_of_nil).
  apply (apply_commits demo_mutation empty_ledger).
  - reflexivity.
  - reflexivity.
  - reflexivity.
  - split; [intros r Hr|intros r Hr|intros r Hr|intros r p Hr _]; destruct (Hnil _ _ Hr).
  - intros id Hid. destruct Hid as [? ? (r & Hr & _)|? ? ? (r & Hr & _)]; destruct (Hnil _ _ Hr).
  - split; intros a b _ Hb; pose proof (eq_trans (eq_sym (lookup_empty _)) Hb) as E; discriminate E.
Qed.

Lemma demo_represents : represents demo_db demo_scope demo_ledger.
Proof.
  pose proof demo_commit_run as Hrun.
  apply apply_inv in Hrun as [[_ [err [=]]]|(sk & ok & o & [= <-] & Hv & Hs & Ho & Hb)].
  destruct (apply_body_refines demo_mutation sk ok ∅ demo_db _ empty_ledger Hv Hs Ho (reachable_ok _ empty_reachable)
    (empty_represents demo_scope) Hb) as (L' & Hl & Hrep & _).
  destruct Hl as [o Ho'|]; [discriminate (eq_trans (eq_sym (lookup_empty _)) Ho') | exact Hrep].
Qed.

(** A later step: the source of the demo turn is denied. *)
Definition demo_denied_run : database * result unit :=
  Badger_DenySource None (Some None) demo_scope "src" 1000000000 demo_db.
Definition demo_denied : database := demo_denied_run.1.
Lemma demo_denied_step : store_step demo_db demo_denied.
Proof. exact (st_deny_source _ _ None (Some None) demo_scope "src" 1000000000 demo_denied_run.2 (surjective_pairing _)). Qed.

Definition demo_delivery_key : string := ok_or "" (badgerSessionMemoryKey demo_scope badgerRecordDelivery "d1").
Lemma demo_delivery_key_run : badgerSessionMemoryKey demo_scope badgerRecordDelivery "d1" = Ok demo_delivery_key.
Proof. apply is_ok_run. vm_compute. reflexivity. Qed.

Lemma store_refines_ledger_witness :
  ∃ A', ledgers_of demo_db A' ∧ ∀ s, rtc ledger_step empty_ledger (A' s) ∧ grows empty_ledger (A' s).
Proof. exact (store_refines_ledger ∅ demo_db (λ _, empty_ledger) demo_db_reachable initial_ledgers). Defined.

Lemma apply_refines_ledger_witness :
  ∃ L', ledger_apply demo_mutation empty_ledger L' (mkOutcome 1 1 []) ∧ ledger_reachable L' ∧
    represents demo_db demo_scope L' ∧ ∀ s Ls, s ≠ demo_scope → represents ∅ s Ls → represents demo_db s Ls.
Proof.
  exact (apply_refines_ledger None (Some None) demo_mutation ∅ demo_db (Ok (mkOutcome 1 1 [])) empty_ledger
    empty_reachable (empty_represents demo_scope) demo_commit_run).
Defined.

Lemma store_well_formed_witness :
  ∃ L, ledger_ok L ∧ represents demo_db demo_scope L ∧
    ∀ n k, is_u64 n → badgerScopeChangeKey demo_scope n = Ok k → (is_Some (demo_db !! k) ↔ 1 ≤ n ≤ version L).
Proof. exact (store_well_formed demo_db demo_scope demo_db_reachable). Defined.

Lemma history_is_permanent_witness :
  demo_denied !! demo_delivery_key = Some (mkStored badgerRecordDelivery (VDelivery demo_delivery)).
Proof.
  refine (history_is_permanent demo_db demo_denied demo_scope demo_delivery_key _ demo_db_reachable
    (rtc_once _ _ demo_denied_step) _ (or_introl _)).
  - vm_compute. reflexivity.
  - exists badgerRecordDelivery, "d1". split; [unfold history_types; in_list | exact demo_delivery_key_run].
Defined.

Lemma store_is_typed_witness :
  getBadgerSessionMemoryRecord demo_db demo_delivery_key badgerRecordDelivery = Ok demo_delivery.
Proof.
  destruct (store_is_typed (A := DeliveryOutboxRecord) demo_db demo_scope badgerRecordDelivery ["d1"] demo_delivery_key
    (mkStored badgerRecordDelivery (VDelivery demo_delivery)) demo_db_reachable demo_delivery_key_run) as (_ & _ & a & E & Hr).
  - discriminate.
  - intros v Hv. destruct v; try discriminate Hv. by eexists.
  - vm_compute. reflexivity.
  - injection E as <-. exact Hr.
Defined.
