(* ===== verification/BadgerAcceptance.v ===== *)
(** * BadgerAcceptance: the store accepts what the ledger allows

    The converse of the refinement for
    [ApplyCanonicalMutation] (src/sessionmemory/store/badger/badger_session_memory.go):
    a transition the specification allows does commit when the database does not
    fail, the context is live and the records can be written. *)

From Stdlib Require Import ZArith Lia Ascii String.
From stdpp Require Import base numbers list gmap strings relations.
From S2P Require Import Prelude.
From S2P Require Import GoStrings.
From S2P Require Import Sha256.
From S2P Require Import MemoryTypes.
From S2P Require Import MemoryRecords.
From S2P Require Import MemoryDerived.
From S2P Require Import MemoryCanonical.
From S2P Require Import BadgerKeys.
From S2P Require Import BadgerTxn.
From S2P Require Import BadgerStore.
From S2P Require Import BadgerWrites.
From S2P Require Import BadgerProvenance.
From S2P Require Import BadgerEntries.
From S2P Require Import LedgerSpec.
From S2P Require Import BadgerRefinement.
From S2P Require Import BadgerSteps.

Local Open Scope string_scope.
Local Open Scope list_scope.
Local Open Scope Z_scope.

(** ** Lists of writes that go through *)
Definition entry_writable (db : database) (e : entry) : Prop :=
  ∃ k, en_key e = Ok k ∧ marshals (en_value e) = true ∧
    (en_over e = false → db !! k = None ∨ db !! k = Some (en_stored e)).

Definition entries_consistent (es : list entry) : Prop :=
  ∀ e1 e2 k, e1 ∈ es → e2 ∈ es → en_key e1 = Ok k → en_key e2 = Ok k → en_stored e1 = en_stored e2.

Lemma effect_exists es db :
  (∀ e, e ∈ es → entry_writable db e) → entries_consistent es → ∃ db', effect es db db'.
Proof.
  revert db. induction es as [|x es IH]; intros db Hw Hc; [by exists db|].
  destruct (Hw x) as (k & Hk & Hm & Hi); [apply list_elem_of_here|].
  assert (Hput : ∃ db1, put_entry db x = Ok db1 ∧ db1 !! k = Some (en_stored x) ∧ ∀ k', k' ≠ k → db1 !! k' = db !! k').
  { destruct (db !! k) as [st|] eqn:Hl; [destruct (en_over x) eqn:Ho|].
    - exists (<[k := en_stored x]> db). split; [|split; [apply lookup_insert_eq|by intros; apply lookup_insert_ne]].
      apply put_entry_Ok. exists k. split; [done|]. split; [done|]. left. split; [done|]. by rewrite Ho.
    - destruct (Hi eq_refl) as [?|[= ->]]; [done|]. exists db. split; [|by split].
      apply put_entry_Ok. exists k. split; [done|]. split; [done|]. by right.
    - exists (<[k := en_stored x]> db). split; [|split; [apply lookup_insert_eq|by intros; apply lookup_insert_ne]].
      apply put_entry_Ok. exists k. split; [done|]. split; [done|]. by left. }
  destruct Hput as (db1 & Hp & Hl1 & Hother). destruct (IH db1) as [db' H'].
  - intros e He. destruct (Hw e) as (ke & Hke & Hme & Hie); [by apply list_elem_of_further|].
    exists ke. split; [done|]. split; [done|]. intros Ho. destruct (decide (ke = k)) as [->|Hne].
    + right. rewrite Hl1. f_equal. apply (Hc x e k); [apply list_elem_of_here|by apply list_elem_of_further|done|done].
    + rewrite Hother by done. by apply Hie.
  - intros e1 e2 k' H1 H2. apply Hc; by apply list_elem_of_further.
  - exists db'. apply effect_cons. by exists db1.
Qed.

(** ** Writes of one commit agree *)
Lemma shapes_same_type s e1 e2 k :
  entry_shape s e1 → entry_shape s e2 → en_key e1 = Ok k → en_key e2 = Ok k → en_type e1 = en_type e2.
Proof.
  intros H1 H2 K1 K2. destruct H2 as [ids He _ Ht|ids He _ Ht|n He Hn Ht]; rewrite He in K2.
  - by destruct (shape_key s e1 k s (en_type e2) ids H1 K1 K2 Ht) as [<- _].
  - destruct (shape_key s e1 k payloadScope (en_type e2) ids H1 K1 K2) as [<- _]; [by rewrite Ht|done].
  - destruct (shape_change_key s e1 k s n H1 K1 K2 Hn) as (_ & -> & _). by rewrite Ht.
Qed.

Lemma record_entries_equal {A} `{Stored A} s ty (id_of : A → string) l a b k :
  NoDup (map id_of l) → a ∈ l → b ∈ l → en_key (record_entry s ty id_of a) = Ok k →
  en_key (record_entry s ty id_of b) = Ok k → record_entry s ty id_of a = record_entry s ty id_of b.
Proof.
  intros Hnd Ha Hb K1 K2. by rewrite (distinct_eq id_of l a b Hnd Ha Hb (memory_key_inj _ _ _ _ _ K2 K1)).
Qed.

Lemma mutation_entries_consistent m :
  CanonicalMutation_Validate m = Ok tt → entries_consistent (mutation_entries m).
Proof.
  intros Hv e1 e2 k H1%elem_of_mutation_entries H2%elem_of_mutation_entries K1 K2.
  pose proof (shapes_same_type _ _ _ _ (mutation_entry_shape _ _ H1) (mutation_entry_shape _ _ H2) K1 K2) as Ht.
  destruct (accepted_distinct m Hv) as (D1 & D2 & D3 & D4 & D5 & D6 & D7 & D8).
  destruct H1 as [a Ha|a Ha|a Ha|a Ha|a Ha|a p Ha Hp|a p Ha Hp|a ev Ha Hev|a Ha|a Ha|a Ha]; destruct H2; try discriminate Ht.
  - by rewrite (distinct_eq _ _ _ _ D8 Ha H (memory_key_inj _ _ _ _ _ K2 K1)).
  - by rewrite (record_entries_equal _ _ _ _ _ _ _ D1 Ha H K1 K2).
  - by rewrite (record_entries_equal _ _ _ _ _ _ _ D2 Ha H K1 K2).
  - by rewrite (record_entries_equal _ _ _ _ _ _ _ D3 Ha H K1 K2).
  - by rewrite (record_entries_equal _ _ _ _ _ _ _ D4 Ha H K1 K2).
  - destruct (scoped_key_inj _ _ _ _ _ _ _ K1 K2) as (_ & _ & E). injection E as E1 E2. by rewrite E1, E2.
  - destruct (scoped_key_inj _ _ _ _ _ _ _ K1 K2) as (_ & _ & E). injection E as E1 E2. by rewrite E1, E2.
  - destruct (scoped_key_inj _ _ _ _ _ _ _ K1 K2) as (_ & _ & E). injection E as E1 E2.
    unfold en_stored, source_entry, edge_entry. cbn [en_type en_value]. by rewrite E1, E2.
  - by rewrite (record_entries_equal _ _ _ _ _ _ _ D5 Ha H K1 K2).
  - by rewrite (distinct_eq _ _ _ _ D6 Ha H (memory_key_inj _ _ _ _ _ K2 K1)).
  - by rewrite (record_entries_equal _ _ _ _ _ _ _ D7 Ha H K1 K2).
Qed.

Lemma apply_entries_consistent m L :
  CanonicalMutation_Validate m = Ok tt → version L < max_u64 → entries_consistent (apply_entries m L).
Proof.
  intros Hv Hlt e1 e2 k H1 H2 K1 K2.
  pose proof (shapes_same_type _ _ _ _ (apply_shape m L Hlt e1 H1) (apply_shape m L Hlt e2 H2) K1 K2) as Ht.
  assert (Hcommit : ∀ e, e ∈ mutation_entries m →
    en_type e ∉ [badgerRecordChange; badgerRecordScope; badgerRecordOperation]).
  { intros e He%elem_of_mutation_entries Hin. rewrite !elem_of_cons, elem_of_nil in Hin. destruct He; by naive_solver. }
  unfold apply_entries in H1, H2. apply elem_of_app in H1 as [H1|H1], H2 as [H2|H2].
  - by apply (mutation_entries_consistent m Hv e1 e2 k).
  - exfalso. apply (Hcommit e1 H1). rewrite Ht. unfold commit_entries in H2.
    rewrite !elem_of_cons, elem_of_nil in H2. destruct H2 as [->|[->|[->|[]]]]; in_list.
  - exfalso. apply (Hcommit e2 H2). rewrite <-Ht. unfold commit_entries in H1.
    rewrite !elem_of_cons, elem_of_nil in H1. destruct H1 as [->|[->|[->|[]]]]; in_list.
  - unfold commit_entries in H1, H2. rewrite !elem_of_cons, elem_of_nil in H1, H2.
    by destruct H1 as [->|[->|[->|[]]]], H2 as [->|[->|[->|[]]]].
Qed.

(** ** References that are known pass *)
Lemma known_complete {A} `{Stored A} db s ty (t : gmap string A) (ids : list string) id message :
  table db s ty t → id ∈ ids ∨ is_Some (t !! id) →
  (if bool_decide (id ∈ ids) then Ok tt else wrapped message (badgerCanonicalRecordExists db s ty id)) = Ok tt.
Proof.
  intros [Ht Hkeys] Hk. case_bool_decide as Hin; [done|]. destruct Hk as [?|Hk]; [done|].
  destruct (Hkeys id Hk) as [k Hkey]. unfold badgerCanonicalRecordExists. rewrite Hkey, bind_ok.
  rewrite bool_decide_false; [done|]. rewrite (Ht id k Hkey). apply not_eq_None_Some. by apply fmap_is_Some.
Qed.

Lemma references_complete db m L :
  represents db (cm_Scope m) L → NoDup (map rv_RevisionID (cm_Revisions m)) →
  references_known m L → acyclic (cm_Revisions m) →
  validateBadgerMutationReferences db m = Ok tt ∧ validateBadgerMutationProvenance db m = Ok tt.
Proof.
  intros Hrep Hnd [Hi Hl Hh Hp] Hac. split.
  - unfold validateBadgerMutationReferences. rewrite !bind_unit, !for_each_Ok, !Forall_forall. split; [|split].
    + intros r Hr. apply (known_complete db (cm_Scope m) badgerRecordItem (lg_Items L)); [apply Hrep | by apply Hi].
    + intros l Hll. apply (known_complete db (cm_Scope m) badgerRecordRevision (lg_Revisions L)); [apply Hrep | by apply Hl].
    + intros h Hhh. apply (known_complete db (cm_Scope m) badgerRecordRevision (lg_Revisions L)); [apply Hrep | by apply Hh].
  - apply provenance_exact; [done|]. split; [|done]. intros r p Hr Hpar.
    destruct (Hp r p Hr Hpar) as [?|Hk]; [by left|]. right.
    destruct (rep_revisions _ _ _ Hrep) as [Ht Hkeys]. destruct (Hkeys p Hk) as [k Hkey]. exists k.
    split; [exact Hkey|]. rewrite (Ht p k Hkey). by apply fmap_is_Some.
Qed.

(** ** The transaction accepts *)
Lemma apply_body_accepts m L L' o db scopeKey operationKey :
  CanonicalMutation_Validate m = Ok tt → badgerScopeKey (cm_Scope m) = Ok scopeKey →
  badgerOperationKey (cm_Scope m) (or_OperationID (cm_Operation m)) = Ok operationKey →
  ledger_ok L → represents db (cm_Scope m) L → ledger_apply m L L' o →
  (∀ e, e ∈ apply_entries m L → entry_writable db e) →
  ∃ db', apply_body m scopeKey operationKey db = Ok (db', o).
Proof.
  intros Hv Hs Ho Hok Hrep Hstep Hw. unfold apply_body. cbv zeta.
  pose proof Ho as Ho'. rewrite operation_key in Ho'.
  destruct Hstep as [o Hop|Hop Hver Hlt Hrefs Hac Hag].
  - exists db. assert (Hre : replayed db operationKey (or_Fingerprint (cm_Operation m)) = Ok (Some o)).
    { apply replayed_Ok. rewrite (table_row _ _ _ _ _ _ (rep_operations _ _ _ Hrep) Ho'), Hop. split; [done|].
      by apply (ok_outcomes L Hok _ _ Hop). }
    by rewrite Hre, bind_ok.
  - assert (Hre : replayed db operationKey (or_Fingerprint (cm_Operation m)) = Ok None).
    { apply replayed_Ok. by rewrite (table_row _ _ _ _ _ _ (rep_operations _ _ _ Hrep) Ho'), Hop. }
    rewrite Hre, bind_ok, (proj2 (read_state_represents db _ L _ _ Hrep Hs) eq_refl), bind_ok.
    rewrite check_state_of, bind_ok by (by eapply scope_key_valid).
    assert (Hchk : negb (sst_Version (state_of (cm_Scope m) L) =? cm_ExpectedScopeVersion m) = false).
    { apply negb_false_iff, Z.eqb_eq. exact Hver. }
    rewrite Hchk, reject_false.
    destruct (effect_exists _ _ Hw (apply_entries_consistent m L Hv Hlt)) as (db' & (txn & H1 & H2)%effect_app).
    destruct (references_complete db m L Hrep) as [Hr Hp]; [by apply accepted_distinct|done|done|].
    rewrite put_mutation_entries, Hr, bind_ok, Hp, bind_ok. unfold effect in H1. rewrite H1, bind_ok.
    assert (Hne : sst_Version (advance (state_of (cm_Scope m) L)) ≠ 0).
    { unfold advance, state_of. cbn [sst_Version]. pose proof (version_u64 L Hok) as Hu.
      rewrite u64_small by (unfold is_u64, max_u64 in *; lia). unfold is_u64 in Hu. lia. }
    destruct (advance_Ok (cm_Scope m) L (map rv_RevisionID (cm_Revisions m)) Hok Hne) as (_ & Hadv & Hnext).
    rewrite Hnext, next_outcome_valid, bind_ok, Hadv by (by apply accepted_canonical).
    exists db'.
    assert (Hc : put_commit txn (cm_Scope m) scopeKey operationKey
      (mkScopeState CanonicalSchemaVersionV1 (cm_Scope m) (version L + 1) (version L + 1))
      (next_change L (or_OperationID (cm_Operation m)) (or_CommittedAt (cm_Operation m)) (map rv_RevisionID (cm_Revisions m)))
      (mkBadgerOperation (or_Fingerprint (cm_Operation m)) (next_outcome L (map rv_RevisionID (cm_Revisions m)))) = Ok db')
      by (by apply (put_commit_effect _ _ _ _ _ _ _ _ _ Hs Ho)).
    apply bind_Ok. exists db'. split; [exact Hc | done].
Qed.

(** ** Properties *)

(** C30. Nothing the specification allows is refused: for a valid mutation, a live context
    and a database that does not fail, a transition of the scope's ledger commits
    with its outcome, provided its records can be written: their keys are
    representable, their times encode and no immutable key holds another record. *)
Theorem allowed_mutation_commits m L L' o db operationKey :
  CanonicalMutation_Validate m = Ok tt → ledger_reachable L → represents db (cm_Scope m) L →
  badgerOperationKey (cm_Scope m) (or_OperationID (cm_Operation m)) = Ok operationKey →
  ledger_apply m L L' o → (∀ e, e ∈ apply_entries m L → entry_writable db e) →
  ∃ db', Badger_ApplyCanonicalMutation None (Some None) m db = (db', Ok o) ∧ represents db' (cm_Scope m) L'.
Proof.
  intros Hv Hreach Hrep Ho Hstep Hw. pose proof (reachable_ok L Hreach) as Hok.
  assert (∃ scopeKey, badgerScopeKey (cm_Scope m) = Ok scopeKey) as [scopeKey Hs].
  { rewrite operation_key in Ho. apply scoped_key_Ok in Ho as (Hsv & Hall & _). eexists. apply scoped_key_Ok.
    split; [exact Hsv|]. split; [|reflexivity].
    rewrite !Forall_cons in Hall |- *. destruct Hall as (_ & ? & ? & _). split; [split; [reflexivity|done]|].
    split; [done|]. split; [done|]. constructor. }
  destruct (apply_body_accepts m L L' o db scopeKey operationKey Hv Hs Ho Hok Hrep Hstep Hw) as [db' Hb].
  assert (Hrun : Badger_ApplyCanonicalMutation None (Some None) m db = (db', Ok o)).
  { unfold Badger_ApplyCanonicalMutation. cbn [sessionMemoryContextError]. rewrite bind_ok, Hv, bind_ok, Hs, bind_ok, Ho, bind_ok.
    cbn [run_with]. unfold Update. by rewrite Hb. }
  exists db'. split; [exact Hrun|].
  destruct (apply_body_refines m scopeKey operationKey db db' o L Hv Hs Ho Hok Hrep Hb) as (L2 & H2 & Hrep2 & _).
  assert (L2 = L') as <-; [|exact Hrep2].
  destruct Hstep as [o Hop|Hop _ _ _ _ _]; inversion H2; subst; try done; congruence.
Qed.

(** ** Witness *)
Lemma allowed_mutation_commits_witness :
  ∃ db', Badger_ApplyCanonicalMutation None (Some None) demo_mutation ∅ = (db', Ok (mkOutcome 1 1 [])) ∧
    represents db' demo_scope demo_ledger.
Proof.
  refine (allowed_mutation_commits demo_mutation empty_ledger demo_ledger (mkOutcome 1 1 []) ∅
    (ok_or "" (badgerOperationKey demo_scope "op1")) _ empty_reachable (empty_represents demo_scope) _ demo_ledger_apply _).
  - vm_compute. reflexivity.
  - apply is_ok_run. vm_compute. reflexivity.
  - intros e He. unfold entry_writable. exists (ok_or "" (en_key e)).
    assert (Hall : forallb (λ e, is_ok (en_key e) && marshals (en_value e)) (apply_entries demo_mutation empty_ledger) = true)
      by (vm_compute; reflexivity).
    rewrite forallb_forall in Hall. apply list_elem_of_In in He. apply Hall, andb_prop in He as [Hk Hm].
    split; [by apply is_ok_run|]. split; [exact Hm|]. intros _. left. apply lookup_empty.
Defined.
