(* ===== verification/BadgerScan.v ===== *)
(** * BadgerScan: bounded scans over ordered keys

    What the iterators of src/sessionmemory/store/badger return.  Keys are visited
    in byte order; the change records of a scope are keyed by eight big-endian
    bytes, so they come out in the order of their sequence numbers. *)

From Stdlib Require Import ZArith Lia Ascii String.
From stdpp Require Import base numbers list gmap strings sorting.
From S2P Require Import Prelude.
From S2P Require Import GoStrings.
From S2P Require Import MemoryTypes.
From S2P Require Import MemoryRecords.
From S2P Require Import MemoryDerived.
From S2P Require Import MemoryCanonical.
From S2P Require Import BadgerKeys.
From S2P Require Import BadgerTxn.
From S2P Require Import BadgerStore.
From S2P Require Import BadgerEntries.
From S2P Require Import LedgerSpec.
From S2P Require Import BadgerRefinement.
From S2P Require Import BadgerSteps.

Local Open Scope string_scope.
Local Open Scope list_scope.
Local Open Scope Z_scope.

(** ** Byte order *)
Lemma ascii_compare_refl c : Ascii.compare c c = Eq.
Proof. apply N.compare_refl. Qed.

Lemma string_leb_cons c s t : string_leb (String c s) (String c t) = string_leb s t.
Proof. unfold string_leb, String.leb. cbn [String.compare]. by rewrite ascii_compare_refl. Qed.

Lemma string_leb_append p s t : string_leb (p +:+ s) (p +:+ t) = string_leb s t.
Proof. induction p as [|c p IH]; [done|]. by rewrite !append_cons, string_leb_cons. Qed.

Lemma string_leb_head c d s t :
  c ≠ d → string_leb (String c s) (String d t) = (byte_of c <=? byte_of d).
Proof.
  intros Hne. unfold string_leb, String.leb. cbn [String.compare].
  assert (Hb : byte_of c ≠ byte_of d) by (intros H; by apply Hne, byte_of_inj).
  destruct (Ascii.compare c d) eqn:E.
  - by apply Ascii.compare_eq_iff in E.
  - unfold Ascii.compare in E. apply N.compare_lt_iff, N2Z.inj_lt in E. symmetry. apply Z.leb_le. unfold byte_of in *. lia.
  - unfold Ascii.compare in E. apply N.compare_gt_iff, N2Z.inj_lt in E. symmetry. apply Z.leb_gt. unfold byte_of in *. lia.
Qed.

Lemma be_bytes_truncate n m z : (m ≤ n)%nat → be_bytes m (z mod 2 ^ (8 * Z.of_nat n)) = be_bytes m z.
Proof.
  induction m as [|m IH]; intros Hm; [done|]. cbn [be_bytes]. rewrite IH by lia. f_equal.
  unfold char_of. do 2 f_equal. unfold u8. apply Z.bits_inj'. intros i Hi.
  rewrite !Z.testbit_mod_pow2, !Z.div_pow2_bits, !Z.testbit_mod_pow2 by lia.
  destruct (i <? 8) eqn:E; cbn [andb]; [|done]. apply Z.ltb_lt in E. by rewrite (proj2 (Z.ltb_lt _ _)) by lia.
Qed.

(** Big-endian bytes are ordered as the numbers are. *)
Lemma be_bytes_leb n a b :
  0 ≤ a < 2 ^ (8 * Z.of_nat n) → 0 ≤ b < 2 ^ (8 * Z.of_nat n) →
  string_leb (be_bytes n a) (be_bytes n b) = (a <=? b).
Proof.
  revert a b. induction n as [|n IH]; intros a b Ha Hb.
  { cbn in Ha, Hb. assert (a = 0) as -> by lia. assert (b = 0) as -> by lia. reflexivity. }
  cbn [be_bytes]. set (p := 2 ^ (8 * Z.of_nat n)) in *.
  assert (Hp : 0 < p) by (apply Z.pow_pos_nonneg; lia).
  assert (Hsucc : 2 ^ (8 * Z.of_nat (S n)) = p * 256).
  { unfold p. replace (8 * Z.of_nat (S n)) with (8 * Z.of_nat n + 8) by lia. rewrite Z.pow_add_r by lia. reflexivity. }
  rewrite Hsucc in Ha, Hb.
  assert (Hqa : 0 ≤ a / p < 256) by (split; [apply Z.div_pos; lia | apply Z.div_lt_upper_bound; lia]).
  assert (Hqb : 0 ≤ b / p < 256) by (split; [apply Z.div_pos; lia | apply Z.div_lt_upper_bound; lia]).
  assert (Hbyte : ∀ q, 0 ≤ q < 256 → byte_of (char_of q) = q).
  { intros q Hq. rewrite byte_of_char_of. unfold u8. apply Z.mod_small. cbn. lia. }
  pose proof (Z.div_mod a p ltac:(lia)) as Da. pose proof (Z.div_mod b p ltac:(lia)) as Db.
  pose proof (Z.mod_pos_bound a p Hp) as Ma. pose proof (Z.mod_pos_bound b p Hp) as Mb.
  destruct (decide (a / p = b / p)) as [He|Hne].
  - rewrite He, string_leb_cons.
    assert (Hmod : ∀ z, 0 ≤ z < p * 256 → be_bytes n z = be_bytes n (z mod p)).
    { intros z _. unfold p. by rewrite be_bytes_truncate by lia. }
    rewrite (Hmod a Ha), (Hmod b Hb), IH by (fold p; lia). rewrite He in Da. apply eq_true_iff_eq. rewrite !Z.leb_le. lia.
  - rewrite string_leb_head by (intros H; apply Hne; rewrite <-(Hbyte _ Hqa), <-(Hbyte _ Hqb), H; reflexivity).
    rewrite (Hbyte _ Hqa), (Hbyte _ Hqb). apply eq_true_iff_eq. rewrite !Z.leb_le. nia.
Qed.

(** ** Scans *)
#[export] Instance key_le_total : Total key_le.
Proof. intros x y. unfold key_le. apply string_leb_total. Qed.
#[export] Instance key_le_trans : Transitive key_le.
Proof. intros x y z. unfold key_le. apply string_leb_trans. Qed.

Lemma elem_of_scan db prefix start k st :
  (k, st) ∈ scan db prefix start ↔ db !! k = Some st ∧ HasPrefix k prefix = true ∧ string_leb start k = true.
Proof.
  unfold scan. rewrite list_elem_of_filter, merge_sort_Permutation, elem_of_map_to_list. tauto.
Qed.

Lemma StronglySorted_filter {A} (R : relation A) (P : A → Prop) `{!∀ x, Decision (P x)} l :
  StronglySorted R l → StronglySorted R (filter P l).
Proof.
  induction 1 as [|x l Hl IH Hx]; [constructor|]. destruct (decide (P x)) as [HP|HP].
  - rewrite filter_cons_True by done. constructor; [exact IH|]. rewrite Forall_forall in Hx |- *.
    intros y [_ Hy]%list_elem_of_filter. by apply Hx.
  - by rewrite filter_cons_False.
Qed.

Lemma filter_every {A} (P : A → Prop) `{!∀ x, Decision (P x)} l : Forall P l → filter P l = l.
Proof. induction 1 as [|x l Hx _ IH]; [done|]. by rewrite filter_cons_True, IH. Qed.

Lemma filter_none {A} (P : A → Prop) `{!∀ x, Decision (P x)} l : Forall (λ x, ¬ P x) l → filter P l = [].
Proof. induction 1 as [|x l Hx _ IH]; [done|]. by rewrite filter_cons_False. Qed.

Lemma scan_sorted db prefix start : StronglySorted key_le (scan db prefix start).
Proof. apply StronglySorted_filter. apply (StronglySorted_merge_sort key_le); apply _. Qed.

Lemma scan_NoDup db prefix start : NoDup (scan db prefix start).
Proof. apply NoDup_filter. rewrite merge_sort_Permutation. apply NoDup_map_to_list. Qed.

(** A scan is the one sorted list of its entries. *)
Lemma scan_is db prefix start l :
  StronglySorted key_le l → NoDup l → (∀ k st, (k, st) ∈ l ↔ (k, st) ∈ scan db prefix start) →
  scan db prefix start = l.
Proof.
  intros Hs Hnd Hin. apply (StronglySorted_unique_strong key_le).
  - intros [k1 v1] [k2 v2] H1 H2%Hin Hle Hge. unfold key_le in *. cbn [fst] in *.
    assert (k1 = k2) as <- by (by apply string_leb_antisym).
    apply elem_of_scan in H1 as [H1 _], H2 as [H2 _]. congruence.
  - apply scan_sorted.
  - exact Hs.
  - apply NoDup_Permutation; [apply scan_NoDup | exact Hnd|]. intros [k st]. by rewrite Hin.
Qed.

(** ** The change records of a scope *)
Definition change_record (prefix : string) (c : ScopeChange) : string * stored :=
  (prefix +:+ be_bytes 8 (ch_Sequence c), mkStored badgerRecordChange (VChange c)).

(** The keys with a scope's change prefix are its change keys. *)
Lemma change_prefix_key s prefix k st :
  badgerScopeChangePrefix s = Ok prefix → well_typed k st → HasPrefix k prefix = true →
  ∃ n, is_u64 n ∧ k = prefix +:+ be_bytes 8 n ∧ badgerScopeChangeKey s n = Ok k.
Proof.
  intros Hp Hk (t & ->)%HasPrefix_inv. destruct Hk as [_ [(Hty & s' & ids & _ & Hk)|(_ & s' & n & Hn & Hk)]].
  - exfalso. apply Hty. unfold badgerScopeChangePrefix in Hp.
    by destruct (scoped_key_prefix _ _ _ _ _ _ _ _ t Hp Hk eq_refl) as (_ & -> & _).
  - pose proof Hk as Hk0. apply badgerScopeChangeKey_Ok in Hk as (p' & Hp' & Heq).
    unfold badgerScopeChangePrefix in *.
    pose proof Hp as (_ & H1 & E1)%scoped_key_Ok. pose proof Hp' as (_ & H2 & E2)%scoped_key_Ok.
    assert (Hl : prefix = p' ∧ t = be_bytes 8 n).
    { rewrite E1, E2 in Heq |- *. rewrite !append_cons in Heq. apply String_tail, String_tail in Heq.
      apply framed_all_app_inj in Heq as [-> ->]; [done|done|by apply tuple_fits|by apply tuple_fits]. }
    destruct Hl as [-> ->]. destruct (scoped_key_inj _ _ _ _ _ _ _ Hp Hp') as (-> & _). exists n. by split.
Qed.

(** *** Consecutively numbered changes *)
Definition numbered (base : Z) (l : list ScopeChange) : Prop :=
  ∀ i c, l !! i = Some c → ch_Sequence c = base + Z.of_nat i.

Lemma numbered_cons base c l : numbered base (c :: l) → ch_Sequence c = base ∧ numbered (base + 1) l.
Proof.
  intros H. split; [rewrite (H 0%nat c eq_refl); lia|]. intros i d Hd. rewrite (H (S i) d Hd). lia.
Qed.

Lemma numbered_bounds base l c : numbered base l → c ∈ l → base ≤ ch_Sequence c < base + Zlength l.
Proof.
  intros H [i Hi]%list_elem_of_lookup. rewrite (H i c Hi). apply lookup_lt_Some in Hi. unfold Zlength. lia.
Qed.

Lemma numbered_drop n l : numbered 1 l → numbered (1 + Z.of_nat n) (drop n l).
Proof. intros H i c. rewrite lookup_drop. intros Hc. rewrite (H _ c Hc). lia. Qed.

Lemma change_records_sorted prefix base l :
  0 ≤ base → numbered base l → base + Zlength l ≤ 2 ^ 64 →
  StronglySorted key_le (map (change_record prefix) l) ∧ NoDup (map (change_record prefix) l).
Proof.
  revert base. induction l as [|c l IH]; intros base Hb Hn Hlen; [by split; constructor|].
  apply numbered_cons in Hn as [Hc Hn]. unfold Zlength in Hlen. cbn [length] in Hlen.
  destruct (IH (base + 1)) as [Hs Hnd]; [lia|done|unfold Zlength; lia|]. cbn [map].
  assert (Hall : ∀ d, d ∈ l → string_leb (be_bytes 8 (ch_Sequence c)) (be_bytes 8 (ch_Sequence d)) = true ∧
    be_bytes 8 (ch_Sequence c) ≠ be_bytes 8 (ch_Sequence d)).
  { intros d Hd. pose proof (numbered_bounds _ _ _ Hn Hd) as Hbd. unfold Zlength in Hbd. split.
    - rewrite be_bytes_leb by (cbn; lia). apply Z.leb_le. lia.
    - intros He. apply be_bytes_inj in He; [lia|cbn; lia|cbn; lia]. }
  split.
  - constructor; [exact Hs|]. apply Forall_map, Forall_forall. intros d Hd. unfold key_le, change_record. cbn [fst].
    rewrite string_leb_append. by apply Hall.
  - constructor; [|exact Hnd]. intros (d & He & Hd)%list_elem_of_fmap.
    apply (f_equal fst) in He. unfold change_record in He. cbn [fst] in He. apply append_inj_l in He.
    by destruct (Hall d Hd).
Qed.

Section change_scan.
  Context (db : database) (s : Scope) (L : Ledger) (prefix : string).
  Context (Honly : only_records db) (Hrep : represents db s L) (Hok : ledger_ok L).
  Context (Hprefix : badgerScopeChangePrefix s = Ok prefix).

Lemma log_numbered : numbered 1 (lg_Log L).
  Proof using Hok. intros i c Hc. rewrite (ok_numbered L Hok i c Hc). lia. Qed.

Lemma change_key_of n : badgerScopeChangeKey s n = Ok (prefix +:+ be_bytes 8 n).
  Proof using Hprefix. apply badgerScopeChangeKey_Ok. by exists prefix. Qed.

Lemma scan_changes after :
    is_u64 after →
    scan db prefix (prefix +:+ be_bytes 8 after) =
      map (change_record prefix) (drop (Z.to_nat (after - 1)) (lg_Log L)).
  Proof using Honly Hrep Hok Hprefix.
    intros Ha. pose proof log_numbered as Hnum. pose proof (version_u64 L Hok) as Hver. unfold is_u64 in Ha, Hver.
    pose proof (ok_version L Hok) as Hmax. unfold max_u64 in Hmax. unfold version in Hver, Hmax.
    set (d := Z.to_nat (after - 1)).
    destruct (change_records_sorted prefix (1 + Z.of_nat d) (drop d (lg_Log L))) as [Hs Hnd].
    { lia. } { by apply numbered_drop. }
    { destruct (decide (d < length (lg_Log L))%nat); unfold Zlength in *; rewrite List.length_skipn; [|unfold d in *]; lia. }
    apply (scan_is _ _ _ _ Hs Hnd). intros k st. rewrite elem_of_scan, list_elem_of_fmap. split.
    - intros (c & Heq & (i & Hi)%list_elem_of_lookup). rewrite lookup_drop in Hi.
      pose proof (Hnum _ _ Hi) as Hseq. pose proof (lookup_lt_Some _ _ _ Hi) as Hlt. unfold Zlength in Hver, Hmax.
      assert (k = prefix +:+ be_bytes 8 (ch_Sequence c)) as -> by exact (f_equal fst Heq).
      assert (st = mkStored badgerRecordChange (VChange c)) as -> by exact (f_equal snd Heq).
      assert (Hn : is_u64 (ch_Sequence c)) by (unfold is_u64; lia).
      rewrite (rep_change _ _ _ Hrep _ _ Hn (change_key_of _)). split; [|split; [apply HasPrefix_append|]].
      + assert (Hat : change_at L (ch_Sequence c) = Some c); [|by rewrite Hat].
        unfold change_at. rewrite (proj2 (Z.leb_le _ _)) by lia.
        replace (Z.to_nat (ch_Sequence c - 1)) with (d + i)%nat by lia. exact Hi.
      + rewrite string_leb_append, be_bytes_leb by (cbn; lia). apply Z.leb_le. unfold d in Hseq. lia.
    - intros (Hk & Hpre & Hle). destruct (change_prefix_key s prefix k st Hprefix (Honly k st Hk) Hpre) as (n & Hn & -> & Hkey).
      rewrite (rep_change _ _ _ Hrep _ _ Hn Hkey) in Hk.
      rewrite string_leb_append, be_bytes_leb in Hle by (unfold is_u64 in Hn; cbn; lia). apply Z.leb_le in Hle.
      destruct (change_at L n) as [c|] eqn:Hc; [|done]. cbn [fmap option_fmap option_map] in Hk. injection Hk as <-.
      unfold change_at in Hc. destruct (1 <=? n) eqn:E; [|done]. apply Z.leb_le in E.
      pose proof (Hnum _ _ Hc) as Hseq. exists c. split.
      + unfold change_record. do 3 f_equal. lia.
      + apply list_elem_of_lookup. exists (Z.to_nat (n - 1) - d)%nat. rewrite lookup_drop.
        replace (d + (Z.to_nat (n - 1) - d))%nat with (Z.to_nat (n - 1)) by (unfold d; lia). exact Hc.
  Qed.
End change_scan.

(** *** The bounded loop *)
Lemma collect_total {A} limit (f : string * stored → result (option A)) g acc entries :
  (∀ kv, kv ∈ entries → f kv = Ok (g kv)) →
  collect limit f acc entries = Ok (acc ++ take (Z.to_nat limit - length acc) (omap g entries)).
Proof.
  revert acc. induction entries as [|kv entries IH]; intros acc Hf; cbn [collect].
  { cbn [omap list_omap]. by rewrite take_nil, app_nil_r. }
  assert (Hlt : (Zlength acc <? limit) = bool_decide (length acc < Z.to_nat limit)%nat).
  { apply eq_true_iff_eq. rewrite Z.ltb_lt, bool_decide_eq_true. unfold Zlength. lia. }
  rewrite Hlt. case_bool_decide as Hl.
  - rewrite (Hf kv) by apply list_elem_of_here. rewrite bind_ok, IH by (intros x Hx; apply Hf; by apply list_elem_of_further).
    f_equal. rewrite <-app_assoc. f_equal.
    change (omap g (kv :: entries)) with (match g kv with Some a => a :: omap g entries | None => omap g entries end).
    destruct (g kv) as [a|]; rewrite length_app; cbn [app length]; [|by rewrite Nat.add_0_r].
    replace (Z.to_nat limit - length acc)%nat with (S (Z.to_nat limit - (length acc + 1))) by lia. reflexivity.
  - replace (Z.to_nat limit - length acc)%nat with 0%nat by lia. by rewrite app_nil_r.
Qed.

Lemma decode_entry_Ok {A} `{Stored A} k ty (a : A) : decode_entry (k, mkStored ty (inject a)) ty = Ok a.
Proof. unfold decode_entry. apply get_record_Ok. apply lookup_singleton_eq. Qed.

(** Skipping the change the cursor names leaves the later ones. *)
Definition later (after : Z) (kv : string * stored) : option ScopeChange :=
  match st_Value kv.2 with
  | VChange c => if ch_Sequence c <=? after then None else Some c
  | _ => None
  end.

Lemma omap_later_all prefix after base l :
  numbered base l → after < base → omap (later after) (map (change_record prefix) l) = l.
Proof.
  revert base. induction l as [|c l IH]; intros base Hn Ha; [done|]. apply numbered_cons in Hn as [Hc Hn].
  cbn [map]. change (omap (later after) (change_record prefix c :: map (change_record prefix) l))
    with (match later after (change_record prefix c) with Some a => a :: omap (later after) (map (change_record prefix) l)
          | None => omap (later after) (map (change_record prefix) l) end).
  rewrite (IH (base + 1)) by (done || lia). unfold later, change_record. cbn [snd st_Value].
  by rewrite (proj2 (Z.leb_gt _ _)) by lia.
Qed.

Lemma omap_later prefix after log :
  0 ≤ after → numbered 1 log →
  omap (later after) (map (change_record prefix) (drop (Z.to_nat (after - 1)) log)) = drop (Z.to_nat after) log.
Proof.
  intros Ha Hn. destruct (decide (after = 0)) as [->|Hne].
  { cbn. apply (omap_later_all prefix 0 1 log Hn). lia. }
  pose proof (numbered_drop (Z.to_nat (after - 1)) log Hn) as Hd.
  replace (Z.to_nat after) with (Z.to_nat (after - 1) + 1)%nat by lia. rewrite <-drop_drop.
  destruct (drop (Z.to_nat (after - 1)) log) as [|c l]; [done|]. apply numbered_cons in Hd as [Hc Hd].
  cbn [map drop]. change (omap (later after) (change_record prefix c :: map (change_record prefix) l))
    with (match later after (change_record prefix c) with Some a => a :: omap (later after) (map (change_record prefix) l)
          | None => omap (later after) (map (change_record prefix) l) end).
  rewrite (omap_later_all prefix after _ l Hd) by lia. unfold later, change_record. cbn [snd st_Value].
  by rewrite (proj2 (Z.leb_le _ _)) by lia.
Qed.

(** The window a scan of a scope's changes returns. *)
Lemma change_scan_window db s L prefix after limit :
  store_reachable db → ledger_ok L → represents db s L → badgerScopeChangePrefix s = Ok prefix →
  is_u64 after → 0 < limit ≤ 512 →
  ScanScopeChanges (Some None) s after limit db = Ok (take (Z.to_nat limit) (drop (Z.to_nat after) (lg_Log L))).
Proof.
  intros Hdb Hok Hrep Hp Ha Hl. unfold ScanScopeChanges.
  cbn [sessionMemoryContextError]. rewrite bind_ok.
  assert (Hs : Scope_Validate s = Ok tt) by (unfold badgerScopeChangePrefix in Hp; by apply scoped_key_Ok in Hp as [? _]).
  rewrite Hs, bind_ok, (proj2 (Z.eqb_neq limit 0)), (proj2 (Z.ltb_ge 512 limit)) by lia. cbn [orb].
  rewrite reject_false, Hp, bind_ok. unfold View, wrap_error. rewrite (change_key_of s prefix Hp), bind_ok.
  rewrite (scan_changes db s L prefix (reachable_only_records db Hdb) Hrep Hok Hp after Ha).
  rewrite (collect_total limit _ (later after)).
  - rewrite (omap_later prefix after (lg_Log L)); [|unfold is_u64 in Ha; lia|by apply log_numbered].
    cbn [app length]. by rewrite Nat.sub_0_r.
  - intros kv (c & -> & Hc)%list_elem_of_fmap.
    assert (Hdec : decode_entry (change_record prefix c) badgerRecordChange = Ok c)
      by exact (decode_entry_Ok (prefix +:+ be_bytes 8 (ch_Sequence c)) badgerRecordChange c).
    rewrite Hdec, bind_ok. apply list_elem_of_lookup in Hc as [i Hi]. rewrite lookup_drop in Hi.
    by rewrite (ok_changes L Hok _ c Hi), bind_ok.
Qed.

Lemma change_scan_Ok ctx db s L after limit changes :
  store_reachable db → ledger_ok L → represents db s L → is_u64 after → 0 < limit ≤ 512 →
  ScanScopeChanges ctx s after limit db = Ok changes → changes = take (Z.to_nat limit) (drop (Z.to_nat after) (lg_Log L)).
Proof.
  intros Hdb Hok Hrep Ha Hl H. pose proof H as H0. unfold ScanScopeChanges in H0. apply bind_unit in H0 as [Hctx H0].
  apply bind_unit in H0 as [_ H0]. apply reject_bind in H0 as (_ & H0). apply bind_Ok in H0 as (prefix & Hp & _).
  assert (ctx = Some None) as -> by (by destruct ctx as [[]|]).
  rewrite (change_scan_window db s L prefix after limit Hdb Hok Hrep Hp Ha Hl) in H. by apply Ok_inj in H.
Qed.

(** ** Properties *)

(** A change scan is exactly a window of the log: over any reachable store a scan of
    a scope from a cursor returns the changes after the cursor, in order and
    without a gap, up to the limit. *)
Theorem change_scan_is_log_window db s L prefix after limit :
  store_reachable db → ledger_reachable L → represents db s L → badgerScopeChangePrefix s = Ok prefix →
  is_u64 after → 0 < limit ≤ 512 →
  ScanScopeChanges (Some None) s after limit db = Ok (take (Z.to_nat limit) (drop (Z.to_nat after) (lg_Log L))).
Proof. intros Hdb HL. by apply change_scan_window; [|apply reachable_ok]. Qed.

(** ** Witness *)
Lemma change_scan_is_log_window_witness :
  ScanScopeChanges (Some None) demo_scope 0 10 demo_db = Ok [mkScopeChange 1 "op1" 1000000000 []].
Proof.
  refine (change_scan_is_log_window demo_db demo_scope demo_ledger (ok_or "" (badgerScopeChangePrefix demo_scope)) 0 10
    demo_db_reachable _ demo_represents _ _ _).
  - eapply rtc_r; [exact empty_reachable|]. apply (step_apply _ _ demo_mutation (mkOutcome 1 1 [])); [|exact demo_ledger_apply].
    vm_compute. reflexivity.
  - apply is_ok_run. vm_compute. reflexivity.
  - unfold is_u64, max_u64. lia.
  - lia.
Defined.
