(* ===== verification/BadgerPorts.v ===== *)
(** * BadgerPorts: the store behind the ports of the memory services

    The embedded store (src/sessionmemory/store/badger) as an implementation of the
    two ports its clients are verified against: the CanonicalStore of the turn
    processor and the CanonicalSourceForgetStore of the forget step.  The client
    theorems then compose with the store's: a processed turn is one transition of
    its scope's ledger, and denial outlives everything the store does later. *)

From Stdlib Require Import ZArith Lia Ascii String.
From stdpp Require Import base numbers list gmap strings relations.
From S2P Require Import Prelude.
From S2P Require Import GoStrings.
From S2P Require Import Sha256.
From S2P Require Import MemoryTypes.
From S2P Require Import MemoryRecords.
From S2P Require Import MemoryDerived.
From S2P Require Import MemoryCanonical.
From S2P Require Import MemoryReconciler.
From S2P Require Import MemoryProcessor.
From S2P Require Import MemoryForget.
From S2P Require Import BadgerKeys.
From S2P Require Import BadgerTxn.
From S2P Require Import BadgerStore.
From S2P Require Import BadgerEntries.
From S2P Require Import LedgerSpec.
From S2P Require Import BadgerRefinement.
From S2P Require Import BadgerSteps.

Local Open Scope string_scope.
Local Open Scope list_scope.
Local Open Scope Z_scope.

(** ** The ports *)

(** [fault] is what the database reports for a write; between the two transactions of
    the active-memory scan other writers may run ([later]). *)
Definition badger_store (fault : CanonicalMutation → database → option error) (ctx : Context)
    (later : database → database) : CanonicalStore database :=
  {| LoadScopeState db scope := Badger_LoadScopeState ctx scope db;
     ScanActiveMemory db request := Badger_ScanActiveMemory ctx request db (later db);
     ApplyCanonicalMutation m db := Badger_ApplyCanonicalMutation (fault m db) ctx m db |}.

Definition badger_forget_store (fault : string → database → option error) (ctx : Context) :
    CanonicalSourceForgetStore database :=
  {| DenySource scope id at_ db := Badger_DenySource (fault id db) ctx scope id at_ db;
     SourceRevisionBatch db scope id after limit := Badger_SourceRevisionBatch ctx scope id after limit db;
     DenyRevision scope id at_ db := Badger_DenyRevision (fault id db) ctx scope id at_ db |}.

(** ** Denial markers *)
Definition marked (ty : string) (db : database) (scope : Scope) (id : string) : Prop :=
  ∃ k, badgerSessionMemoryKey scope ty id = Ok k ∧ is_Some (db !! k).

Lemma put_deny_marks {A} `{Stored A} db k ty (a : A) db' :
  putBadgerDenyRecord db k ty a = Ok db' → is_Some (db' !! k) ∧ ∀ k', is_Some (db !! k') → is_Some (db' !! k').
Proof.
  unfold putBadgerDenyRecord. destruct (db !! k) as [st|] eqn:E.
  - intros <-%Ok_inj. split; [by exists st | done].
  - intros (_ & <-%Ok_inj)%reject_bind. split; [rewrite lookup_insert_eq; by eexists|].
    intros k' Hk'. destruct (decide (k = k')) as [<-|Hne]; [rewrite lookup_insert_eq; by eexists | by rewrite lookup_insert_ne].
Qed.

Lemma deny_source_inv fault ctx scope id at_ db db' :
  Badger_DenySource fault ctx scope id at_ db = (db', Ok tt) → marked badgerRecordDeniedSource db' scope id.
Proof.
  unfold Badger_DenySource.
  intros [[_ [err [=]]]|(k & u & Hk & _ & Hb & _)]%(update_inv _ _ _ _ (λ key txn,
    txn ← putBadgerDenyRecord txn key badgerRecordDeniedSource (mkDeniedSource id at_); Ok (txn, tt))).
  apply bind_unit in Hk as [_ Hk]. apply bind_unit in Hk as [_ (_ & Hk)%reject_bind].
  apply bind_Ok in Hb as (t & Hp & Hb). apply Ok_inj in Hb. injection Hb as <- _. exists k. split; [exact Hk|].
  by apply put_deny_marks in Hp as [? _].
Qed.

Lemma deny_revision_inv fault ctx scope id at_ db db' r :
  Badger_DenyRevision fault ctx scope id at_ db = (db', r) →
  (r = Ok tt → marked badgerRecordDeniedRevision db' scope id) ∧ ∀ k, is_Some (db !! k) → is_Some (db' !! k).
Proof.
  unfold Badger_DenyRevision.
  intros [[-> [err ->]]|(k & u & Hk & _ & Hb & _)]%(update_inv _ _ _ _ (λ key txn,
    txn ← putBadgerDenyRecord txn key badgerRecordDeniedRevision (mkDeniedRevision id at_); Ok (txn, tt))); [done|].
  apply bind_unit in Hk as [_ Hk]. apply bind_unit in Hk as [_ (_ & Hk)%reject_bind].
  apply bind_Ok in Hb as (t & Hp & Hb). apply Ok_inj in Hb. injection Hb as <- _.
  apply put_deny_marks in Hp as [Hm Hkeep]. split; [|exact Hkeep]. intros _. by exists k.
Qed.

(** The laws the forget step relies on. *)
Definition badger_forget_laws fault ctx : @CanonicalSourceForgetLaws database (badger_forget_store fault ctx).
Proof.
  refine {| source_denied := marked badgerRecordDeniedSource;
            revision_denied := marked badgerRecordDeniedRevision : database → Scope → string → Prop |};
    cbn [DenySource DenyRevision badger_forget_store].
  - intros scope id t st H. destruct (Badger_DenySource _ _ _ _ _ _) as [db' r] eqn:E. cbn [fst snd] in *. subst r.
    by eapply deny_source_inv.
  - intros scope id t st H. destruct (Badger_DenyRevision _ _ _ _ _ _) as [db' r] eqn:E. cbn [fst snd] in *.
    by apply (deny_revision_inv _ _ _ _ _ _ _ _ E).
  - intros scope id t st scope' id'. destruct (Badger_DenyRevision _ _ _ _ _ _) as [db' r] eqn:E. cbn [fst].
    destruct (deny_revision_inv _ _ _ _ _ _ _ _ E) as [_ Hkeep].
    split; intros (k & Hk & Hs); exists k; (split; [exact Hk | by apply Hkeep]).
Defined.

(** ** Markers and their reading *)
Definition payload_record (k : string) : Prop := ∃ s ids, scoped_key s badgerRecordPayload ids = Ok k.

Lemma store_step_present db db' k A :
  store_step db db' → ledgers_of db A → ¬ payload_record k → is_Some (db !! k) → is_Some (db' !! k).
Proof.
  intros [tys Hsub Hk|s Hs]%store_step_effect HA Hp [st Hst].
  - destruct (Hk k) as [He|(s & ty & ids & _ & Hkey & Hw)]; [rewrite He; by exists st|].
    destruct (db' !! k) as [st'|]; [by exists st'|]. subst ty. exfalso. apply Hp. by exists s, ids.
  - destruct (HA s) as [Hreach Hrep]. destruct (Hs (A s)) as (L' & _ & _ & _ & Hw & _); [by apply reachable_ok|done|].
    destruct (Hw k) as [He|(st' & Hst' & _)]; [rewrite He; by exists st | by exists st'].
Qed.

Lemma store_steps_present db db' k :
  store_reachable db → rtc store_step db db' → ¬ payload_record k → is_Some (db !! k) → is_Some (db' !! k).
Proof.
  intros Hreach Hsteps Hp. revert Hreach. induction Hsteps as [d|d1 d2 d3 Hs _ IH]; intros Hreach Hk; [done|].
  destruct (reachable_ledgers d1 Hreach) as [A HA]. apply IH; [by eapply rtc_r|]. by eapply store_step_present.
Qed.

Lemma mark_not_payload ty scope id k :
  ty ≠ badgerRecordPayload → badgerSessionMemoryKey scope ty id = Ok k → ¬ payload_record k.
Proof.
  intros Hty Hk (s & ids & Hk'). destruct (scoped_key_inj _ _ _ _ _ _ _ Hk Hk') as (_ & E & _). by apply Hty.
Qed.

(** In a typed store a marker reads as a marker. *)
Lemma marked_reads {A} `{Stored A} ty db scope id op :
  only_records db → ty ≠ badgerRecordChange → (∀ v, has_type ty v = true → ∃ a, v = inject a) →
  marked ty db scope id → isDenied A (Some None) scope id ty op db = Ok true.
Proof.
  intros Honly Hty Hval (k & Hk & [st Hst]). unfold isDenied. cbn [sessionMemoryContextError]. rewrite bind_ok, Hk, bind_ok.
  destruct (Honly k st Hst) as [Ht [(_ & s & ids & _ & Hk')|(_ & s & n & _ & Hk')]].
  - destruct (scoped_key_inj _ _ _ _ _ _ _ Hk Hk') as (_ & E & _). rewrite E in Ht.
    destruct (Hval _ Ht) as [a Ha]. destruct st as [ty' v]. cbn [st_RecordType st_Value] in *. subst ty' v.
    assert (Ho : optional (getBadgerSessionMemoryRecord db k ty) = Ok (Some a)) by (by apply optional_Ok).
    by rewrite Ho.
  - exfalso. apply Hty. by apply (change_key_not_scoped _ _ _ _ _ _ Hk' Hk).
Qed.

Lemma source_marker_read db scope id :
  only_records db → marked badgerRecordDeniedSource db scope id → IsSourceDenied (Some None) scope id db = Ok true.
Proof.
  intros Ho. apply marked_reads; [exact Ho|discriminate|].
  intros v Hv. destruct v; try discriminate Hv. by eexists.
Qed.

Lemma revision_marker_read db scope id :
  only_records db → marked badgerRecordDeniedRevision db scope id → IsRevisionDenied (Some None) scope id db = Ok true.
Proof.
  intros Ho. apply marked_reads; [exact Ho|discriminate|].
  intros v Hv. destruct v; try discriminate Hv. by eexists.
Qed.

Lemma marked_stays ty db db' scope id :
  ty ≠ badgerRecordPayload → store_reachable db → rtc store_step db db' → marked ty db scope id → marked ty db' scope id.
Proof.
  intros Hty Hreach Hsteps (k & Hk & Hs). exists k. split; [exact Hk|].
  apply (store_steps_present db db' k Hreach Hsteps); [by eapply mark_not_payload | exact Hs].
Qed.

(** ** Forgetting runs inside the store's executions *)
Section forget.
  Context (fault : string → database → option error) (ctx : Context).

Lemma deny_revisions_steps scope at_ ids db :
    rtc store_step db (@deny_revisions database (badger_forget_store fault ctx) scope at_ ids db).1.
  Proof using.
    revert db. induction ids as [|id ids IH]; intros db; cbn [deny_revisions]; [done|].
    destruct (negb (isCanonicalID id)); [done|]. cbn [DenyRevision badger_forget_store].
    destruct (Badger_DenyRevision (fault id db) ctx scope id at_ db) as [db1 [u|e]] eqn:E.
    - eapply rtc_l; [by eapply st_deny_revision | apply IH].
    - apply rtc_once. by eapply st_deny_revision.
  Qed.

Lemma forget_batch_steps request db :
    rtc store_step db (@DenyCanonicalSourceBatch database (badger_forget_store fault ctx) request db).1.
  Proof using.
    unfold DenyCanonicalSourceBatch. destruct (CanonicalSourceForgetBatchRequest_Validate request); [|done].
    cbn [DenySource badger_forget_store].
    destruct (Badger_DenySource _ _ _ _ _ db) as [db1 [u|e]] eqn:E; [|apply rtc_once; by eapply st_deny_source].
    eapply rtc_l; [by eapply st_deny_source|].
    destruct (SourceRevisionBatch db1 _ _ _ _) as [[ids cursor]|e]; [|done].
    pose proof (deny_revisions_steps (fb_Scope request) (fb_DeniedAt request) ids db1) as Hs.
    destruct (deny_revisions _ _ ids db1) as [db2 [u2|e]]; cbn [fst] in *; [|exact Hs].
    by destruct (_ && _).
  Qed.
End forget.

(** ** Processing a turn *)
Lemma load_state_version ctx db s L ss :
  represents db s L → Badger_LoadScopeState ctx s db = Ok ss → sst_Version ss = version L.
Proof.
  intros Hrep H. unfold Badger_LoadScopeState in H. apply bind_unit in H as [_ H]. apply bind_unit in H as [_ H].
  apply bind_Ok in H as (k & Hk & H). apply bind_Ok in H as (st & Hst & H). apply bind_unit in H as [_ <-%Ok_inj].
  unfold View, wrap_error in Hst. destruct (read_state db s k) as [st'|] eqn:E; [|done]. apply Ok_inj in Hst as <-.
  by apply (read_state_represents _ _ _ _ _ Hrep Hk) in E as ->.
Qed.

Lemma ledger_apply_outcome m L L' o :
  ledger_ok L → CanonicalMutation_Validate m = Ok tt → ledger_apply m L L' o → CanonicalMutationOutcome_Validate o = Ok tt.
Proof.
  intros Hok Hv [o' Ho|_ _ _ _ _ _]; [by apply (ok_outcomes L Hok _ _ Ho)|].
  apply next_outcome_valid. by apply accepted_canonical.
Qed.

Lemma apply_replay_run m o db scopeKey operationKey :
  CanonicalMutation_Validate m = Ok tt → badgerScopeKey (cm_Scope m) = Ok scopeKey →
  badgerOperationKey (cm_Scope m) (or_OperationID (cm_Operation m)) = Ok operationKey →
  CanonicalMutationOutcome_Validate o = Ok tt →
  db !! operationKey =
    Some (mkStored badgerRecordOperation (VOperation (mkBadgerOperation (or_Fingerprint (cm_Operation m)) o))) →
  Badger_ApplyCanonicalMutation None (Some None) m db = (db, Ok o).
Proof.
  intros Hv Hs Ho Hout Hk. unfold Badger_ApplyCanonicalMutation. cbn [sessionMemoryContextError].
  rewrite bind_ok, Hv, bind_ok, Hs, bind_ok, Ho, bind_ok. cbn [run_with]. unfold Update, apply_body. cbv zeta.
  assert (Hre : replayed db operationKey (or_Fingerprint (cm_Operation m)) = Ok (Some o)) by (by apply replayed_Ok).
  by rewrite Hre, bind_ok.
Qed.

(** ** Properties *)

(** C12. A processed turn is one commit on what it was prepared against: over the embedded
    store, with any writes of others between reading and writing, processing a turn
    either fails and leaves the store as it was, or replays an operation that had
    committed, or commits its mutation - and then no change was committed to the
    scope since its version was loaded, so no update is lost. *)
Theorem turn_is_one_commit fault ctx later extract policy turn d loaded scanned current after r :
  store_reachable loaded → rtc store_step loaded current →
  ProcessTurn (Some (mkProcessor (Some (badger_store fault ctx later)) (Some extract) policy)) ctx turn d
    loaded scanned current = (after, r) →
  match r with
  | Err _ => after = current
  | Ok o => ∃ m L0 L L', cm_Scope m = tn_Scope turn ∧ represents loaded (tn_Scope turn) L0 ∧
      represents current (tn_Scope turn) L ∧ represents after (tn_Scope turn) L' ∧ grows L0 L ∧
      ledger_apply m L L' o ∧ (L' = L ∨ (L' = applied m L ∧ lg_Log L = lg_Log L0))
  end.
Proof.
  intros Hreach Hsteps Hrun.
  pose proof (process_turn_cases (Some (mkProcessor (Some (badger_store fault ctx later)) (Some extract) policy)) ctx
    turn d loaded scanned current) as Hcases. rewrite Hrun in Hcases.
  destruct Hcases as [[-> Hr]|(store & extract' & policy' & m & ss & Hp & Hprep & Hv & Hscope & Hload & Hver & _ & _)];
    [by destruct r|].
  injection Hp as <- <- <-. cbn [LoadScopeState badger_store] in Hload.
  destruct (reachable_ledgers loaded Hreach) as [A HA].
  destruct (store_steps_simulate loaded current A Hsteps HA) as (A' & HA' & Hgrow).
  destruct (HA (tn_Scope turn)) as [_ Hrep0], (HA' (tn_Scope turn)) as [HL Hrep].
  pose proof (steps_grow _ _ (Hgrow (tn_Scope turn))) as Hg.
  set (L0 := A (tn_Scope turn)) in *. set (L := A' (tn_Scope turn)) in *.
  pose proof (load_state_version _ _ _ _ _ Hrep0 Hload) as Hv0. pose proof (reachable_ok L HL) as Hok.
  cbn [ProcessTurn] in Hrun. rewrite Hprep in Hrun. cbn [ApplyCanonicalMutation badger_store] in Hrun.
  destruct (Badger_ApplyCanonicalMutation (fault m current) ctx m current) as [db' applied'] eqn:Ha.
  apply apply_inv in Ha as [[-> [err ->]]|(sk & ok & o & -> & _ & Hs & Ho & Hb)]; [by injection Hrun as <- <-|].
  rewrite <-Hscope in Hrep.
  destruct (apply_body_refines m sk ok current db' o L Hv Hs Ho Hok Hrep Hb) as (L' & Hl & Hrep' & _).
  rewrite bind_ok, (ledger_apply_outcome m L L' o Hok Hv Hl), bind_ok in Hrun. injection Hrun as <- <-.
  rewrite Hscope in Hrep, Hrep'. exists m, L0, L, L'.
  split; [done|]. split; [done|]. split; [done|]. split; [done|]. split; [done|]. split; [done|].
  destruct Hl as [|_ Hexp _ _ _ _]; [by left|]. right. split; [done|]. symmetry. apply prefix_length_eq; [apply Hg|].
  assert (Heq : version L = version L0) by congruence. unfold version, Zlength in Heq. lia.
Qed.

(** Retrying is idempotent: a mutation that committed returns the same outcome, and
    changes nothing, however often it is applied again later. *)
Theorem retry_is_idempotent fault ctx m db db1 db2 o :
  store_reachable db → Badger_ApplyCanonicalMutation fault ctx m db = (db1, Ok o) → rtc store_step db1 db2 →
  Badger_ApplyCanonicalMutation None (Some None) m db2 = (db2, Ok o).
Proof.
  intros Hreach Hrun Hsteps. pose proof (st_apply _ _ fault ctx m (Ok o) Hrun) as Hstep.
  apply apply_inv in Hrun as [[_ [err [=]]]|(sk & ok & o' & [= <-] & Hv & Hs & Ho & Hb)].
  destruct (reachable_ledgers db Hreach) as [A HA]. destruct (HA (cm_Scope m)) as [HL Hrep].
  pose proof (reachable_ok _ HL) as Hok.
  destruct (apply_body_refines m sk ok db db1 o _ Hv Hs Ho Hok Hrep Hb) as (L' & Hl & Hrep' & _).
  pose proof Ho as Ho'. rewrite operation_key in Ho'.
  assert (Hop : lg_Operations L' !! or_OperationID (cm_Operation m) =
    Some (mkBadgerOperation (or_Fingerprint (cm_Operation m)) o)).
  { destruct Hl as [o'' Hrec|]; [exact Hrec|]. cbn [applied lg_Operations]. apply lookup_insert_eq. }
  destruct (store_step_simulates _ _ _ Hstep HA) as (A1 & HA1 & _ & _).
  destruct (store_steps_simulate db1 db2 A1 Hsteps HA1) as (A2 & HA2 & Hgrow).
  destruct (HA1 (cm_Scope m)) as [_ Hrep1], (HA2 (cm_Scope m)) as [_ Hrep2].
  apply (apply_replay_run m o db2 sk ok Hv Hs Ho); [by apply (ledger_apply_outcome m _ L' o Hok Hv Hl)|].
  assert (Hk1 : db1 !! ok = Some (mkStored badgerRecordOperation
    (VOperation (mkBadgerOperation (or_Fingerprint (cm_Operation m)) o)))).
  { by rewrite (table_row _ _ _ _ _ _ (rep_operations _ _ _ Hrep') Ho'), Hop. }
  by apply (table_kept _ _ _ _ _ _ _ _ _ (rep_operations _ _ _ Hrep1) (rep_operations _ _ _ Hrep2)
    (operations_grow _ _ (steps_grow _ _ (Hgrow (cm_Scope m)))) Ho').
Qed.

(** C22. Forgetting is durable: after a successful denial step over the embedded store the
    source and every revision the step returned read as denied, whatever the store
    does afterwards. *)
Theorem forget_is_durable fault ctx request db db1 db2 res :
  store_reachable db →
  @DenyCanonicalSourceBatch database (badger_forget_store fault ctx) request db = (db1, Ok res) →
  rtc store_step db1 db2 →
  IsSourceDenied (Some None) (fb_Scope request) (fb_SourceID request) db2 = Ok true ∧
  Forall (λ id, IsRevisionDenied (Some None) (fb_Scope request) id db2 = Ok true) (fbr_RevisionIDs res).
Proof.
  intros Hreach Hrun Hsteps.
  pose proof (@forget_batch_denies database (badger_forget_store fault ctx) (badger_forget_laws fault ctx) request db)
    as [_ Hd]. rewrite Hrun in Hd. cbn [fst snd] in Hd. destruct (Hd res eq_refl) as (Hsource & _ & Hrevs & _).
  pose proof (forget_batch_steps fault ctx request db) as H1. rewrite Hrun in H1. cbn [fst] in H1.
  assert (Hreach1 : store_reachable db1) by (unfold store_reachable in *; etrans; [exact Hreach|exact H1]).
  assert (Hreach2 : store_reachable db2) by (unfold store_reachable in *; etrans; [exact Hreach1|exact Hsteps]).
  pose proof (reachable_only_records db2 Hreach2) as Honly. split.
  - apply source_marker_read; [exact Honly|]. by apply (marked_stays _ db1 db2).
  - eapply Forall_impl; [exact Hrevs|]. intros id [_ Hm]. apply revision_marker_read; [exact Honly|].
    by apply (marked_stays _ db1 db2).
Qed.

(** ** Witnesses *)
Definition demo_badger : CanonicalStore database := badger_store (λ _ _, None) (Some None) id.
Definition demo_turn_run : database * result CanonicalMutationOutcome :=
  ProcessTurn (Some (mkProcessor (Some demo_badger) (Some demo_extract) demo_policy)) (Some None) demo_turn
    demo_derivation ∅ ∅ ∅.

Lemma turn_is_one_commit_witness :
  match demo_turn_run.2 with
  | Err _ => demo_turn_run.1 = ∅
  | Ok o => ∃ m L0 L L', cm_Scope m = tn_Scope demo_turn ∧ represents ∅ (tn_Scope demo_turn) L0 ∧
      represents ∅ (tn_Scope demo_turn) L ∧ represents demo_turn_run.1 (tn_Scope demo_turn) L' ∧ grows L0 L ∧
      ledger_apply m L L' o ∧ (L' = L ∨ (L' = applied m L ∧ lg_Log L = lg_Log L0))
  end.
Proof.
  exact (turn_is_one_commit (λ _ _, None) (Some None) id demo_extract demo_policy demo_turn demo_derivation ∅ ∅ ∅
    demo_turn_run.1 demo_turn_run.2 (rtc_refl _ _) (rtc_refl _ _) (surjective_pairing _)).
Defined.

Lemma retry_is_idempotent_witness :
  Badger_ApplyCanonicalMutation None (Some None) demo_mutation demo_denied = (demo_denied, Ok (mkOutcome 1 1 [])).
Proof.
  exact (retry_is_idempotent None (Some None) demo_mutation ∅ demo_db demo_denied (mkOutcome 1 1 []) (rtc_refl _ _)
    demo_commit_run (rtc_once _ _ demo_denied_step)).
Defined.

Definition demo_forget_run : database * result CanonicalSourceForgetBatchResult :=
  @DenyCanonicalSourceBatch database (badger_forget_store (λ _ _, None) (Some None)) demo_batch demo_db.

Lemma forget_is_durable_witness :
  IsSourceDenied (Some None) demo_scope "src" demo_forget_run.1 = Ok true.
Proof.
  refine (proj1 (forget_is_durable (λ _ _, None) (Some None) demo_batch demo_db demo_forget_run.1 demo_forget_run.1
    (ok_or (mkForgetBatchResult [] "") demo_forget_run.2) demo_db_reachable _ (rtc_refl _ _))).
  rewrite <-is_ok_run by (vm_compute; reflexivity). apply surjective_pairing.
Defined.
