(* ===== verification/BadgerLeases.v ===== *)
(** * BadgerLeases: who may deliver, and when it is over

    The delivery outbox of src/sessionmemory/store/badger/badger_session_memory.go
    ([ClaimDeliveryOutbox], [SettleDeliveryOutbox]): what one claiming call hands
    out, and what holds of a claim in every execution of the store. *)

From Stdlib Require Import ZArith Lia Ascii String.
From stdpp Require Import base numbers list gmap strings relations.
From S2P Require Import Prelude.
From S2P Require Import GoStrings.
From S2P Require Import MemoryTypes.
From S2P Require Import MemoryRecords.
From S2P Require Import MemoryDerived.
From S2P Require Import MemoryCanonical.
From S2P Require Import MemoryProcessor.
From S2P Require Import MemoryForget.
From S2P Require Import MemoryProjection.
From S2P Require Import BadgerKeys.
From S2P Require Import BadgerTxn.
From S2P Require Import BadgerStore.
From S2P Require Import BadgerLedgers.
From S2P Require Import BadgerEntries.
From S2P Require Import LedgerSpec.
From S2P Require Import BadgerRefinement.
From S2P Require Import BadgerSteps.

Local Open Scope string_scope.
Local Open Scope list_scope.
Local Open Scope Z_scope.

(** ** Steps by the private records they touch *)
Inductive step_class (db db' : database) : Prop :=
  | class_public : keeps_private db db' → step_class db db'
  | class_denial ty : ty ∈ [badgerRecordDeniedSource; badgerRecordDeniedRevision] → changes [ty] db db' → step_class db db'
  | class_claim fault ctx q r : ClaimDeliveryOutbox fault ctx q db = (db', r) → step_class db db'
  | class_settle fault ctx q r : SettleDeliveryOutbox fault ctx q db = (db', r) → step_class db db'
  | class_mark_dirty fault ctx m r : MarkProjectionDirty fault ctx m db = (db', r) → step_class db db'
  | class_watermark fault ctx m w at_ r : AdvanceProjectionWatermark fault ctx m w at_ db = (db', r) → step_class db db'
  | class_activate fault ctx m at_ r : ActivateProjectionGeneration fault ctx m at_ db = (db', r) → step_class db db'
  | class_floor fault ctx s id floor r : SetProjectionRetentionFloor fault ctx s id floor db = (db', r) → step_class db db'
  | class_checkpoint fault ctx c r : SaveScopeCheckpoint fault ctx c db = (db', r) → step_class db db'.

Lemma payload_public db db' : changes [badgerRecordPayload] db db' → keeps_private db db'.
Proof.
  intros Hc s ty ids k Hty Hk. apply (changes_frame _ _ _ _ _ _ _ Hc) with (2 := Hk).
  intros ->%list_elem_of_singleton. revert Hty. by apply not_in_list.
Qed.

Lemma store_step_class db db' : store_reachable db → store_step db db' → step_class db db'.
Proof.
  intros [A HA]%reachable_ledgers [].
  - apply apply_inv in H as [[-> _]|(sk & ok & o & _ & Hv & Hs & Ho & Hb)]; [by apply class_public|].
    destruct (HA (cm_Scope m)) as [HL Hrep]. apply class_public.
    by destruct (apply_body_refines m sk ok db db' o _ Hv Hs Ho (reachable_ok _ HL) Hrep Hb) as (L' & _ & _ & _ & _ & ?).
  - apply commit_inv in H as [[-> _]|(sk & ok & o & _ & Hv & Hs & Ho & Hb)]; [by apply class_public|].
    destruct (HA (oc_Scope q)) as [HL Hrep]. apply class_public.
    by destruct (commit_body_refines q sk ok db db' o _ Hs Ho (reachable_ok _ HL) Hrep Hb) as (L' & _ & _ & _ & _ & ?).
  - apply forget_inv in H as [[-> _]|(sk & k & o & _ & Hv & Hs & Hk & Hb)]; [by apply class_public|].
    destruct (HA (fr_Scope q)) as [HL Hrep]. apply class_public.
    by destruct (forget_body_refines q sk k db db' o _ Hs Hk (reachable_ok _ HL) Hrep Hb) as (L' & _ & _ & _ & _ & ?).
  - apply class_public, payload_public. by eapply put_payload_keeps.
  - apply class_public, payload_public. by eapply delete_payload_keeps.
  - eapply class_denial; [|by eapply deny_source_keeps]. in_list.
  - eapply class_denial; [|by eapply deny_revision_keeps]. in_list.
  - by eapply class_claim.
  - by eapply class_settle.
  - by eapply class_mark_dirty.
  - by eapply class_watermark.
  - by eapply class_activate.
  - by eapply class_floor.
  - by eapply class_checkpoint.
  - apply class_public, payload_public. by eapply scrub_keeps.
Qed.

(** Whatever does not write a private type keeps its records. *)
Lemma denial_frame ty ty' db db' s ids k :
  ty ∈ [badgerRecordDeniedSource; badgerRecordDeniedRevision] → changes [ty] db db' →
  ty' ∉ [badgerRecordDeniedSource; badgerRecordDeniedRevision] → scoped_key s ty' ids = Ok k → db' !! k = db !! k.
Proof.
  intros Hty Hc Hno Hk. apply (changes_frame _ _ _ _ _ _ _ Hc) with (2 := Hk). by intros ->%list_elem_of_singleton.
Qed.

(** A fact about the records of one private type holds in every execution when the steps
    that write the type keep it. *)
Lemma private_invariant (P : database → Prop) db db' :
  (∀ d d', store_reachable d → step_class d d' → P d → P d') →
  store_reachable db → rtc store_step db db' → P db → P db'.
Proof.
  intros Hstep Hreach Hsteps. revert Hreach. induction Hsteps as [d|d1 d2 d3 Hs _ IH]; intros Hreach HP; [done|].
  apply IH; [by eapply rtc_r|]. apply (Hstep d1); [done|by apply store_step_class|done].
Qed.

(** ** Claims *)
Definition claim_key (s : Scope) (id : string) : result string := badgerSessionMemoryKey s badgerRecordDeliveryClaim id.
Definition claim_record (c : DeliveryClaim) : stored := mkStored badgerRecordDeliveryClaim (VClaim c).

Lemma claim_record_inj a b : claim_record a = claim_record b → a = b.
Proof.
  intros H. apply (f_equal st_Value) in H. unfold claim_record in H. cbn [st_Value] in H.
  by apply (f_equal (λ v, match v with VClaim c => c | _ => a end)) in H.
Qed.

(** The claim the loop writes for a free delivery. *)
Definition leased_to (q : DeliveryClaimRequest) (c : DeliveryClaim) : Prop :=
  dc_Status c = DeliveryStatusLeased ∧ dc_LeaseOwner c = dcr_LeaseOwner q ∧ dc_LeaseUntil c = Some (dcr_LeaseUntil q).

Lemma leased_held q c : dcr_Now q < dcr_LeaseUntil q → leased_to q c → claim_held c (dcr_Now q) = true.
Proof.
  intros Hlt (Hs & _ & Hu). unfold claim_held. rewrite Hs, Hu, (bool_decide_true (DeliveryStatusLeased = DeliveryStatusLeased)) by done.
  rewrite (proj2 (Z.ltb_lt _ _)) by done. cbn [andb]. by rewrite orb_true_r.
Qed.

(** What a delivery handed out by the call was before and is now. *)
Record handed_out (q : DeliveryClaimRequest) (db db' : database) (x : ClaimedDelivery) : Prop := {
  ho_lease : leased_to q (cd_Claim x);
  ho_id : dc_DeliveryID (cd_Claim x) = do_DeliveryID (cd_Record x);
  ho_claim : ∃ k, claim_key (dcr_Scope q) (do_DeliveryID (cd_Record x)) = Ok k ∧
    db' !! k = Some (claim_record (cd_Claim x)) ∧
    match db !! k with
    | None => dc_Attempts (cd_Claim x) = 1
    | Some st => ∃ c, st = claim_record c ∧ claim_held c (dcr_Now q) = false ∧
        dc_Attempts (cd_Claim x) = u32 (dc_Attempts c + 1)
    end }.

Lemma claim_loop_spec q entries txn claimed txn' claimed' :
  dcr_Now q < dcr_LeaseUntil q → claim_loop q entries txn claimed = Ok (txn', claimed') →
  ∃ new, claimed' = claimed ++ new ∧
    (Zlength claimed ≤ dcr_Limit q → Zlength claimed' ≤ dcr_Limit q) ∧
    NoDup (map (λ x, do_DeliveryID (cd_Record x)) new) ∧
    Forall (handed_out q txn txn') new ∧
    ∀ k c, txn !! k = Some (claim_record c) → claim_held c (dcr_Now q) = true → txn' !! k = Some (claim_record c).
Proof.
  intros Hlt. revert txn claimed. induction entries as [|kv entries IH]; intros txn claimed; cbn [claim_loop].
  { intros [= <- <-]%Ok_inj. exists []. rewrite app_nil_r. split; [done|]. split; [done|]. split; [constructor|]. by split. }
  destruct (Zlength claimed <? dcr_Limit q) eqn:Hlim.
  2: { intros [= <- <-]%Ok_inj. exists []. rewrite app_nil_r. split; [done|]. split; [done|]. split; [constructor|]. by split. }
  apply Z.ltb_lt in Hlim. intros (record & _ & H)%bind_Ok. apply bind_Ok in H as (k & Hk & H).
  apply bind_Ok in H as (c & Hc & H). destruct (claim_held c (dcr_Now q)) eqn:Hheld; [by apply IH|].
  cbv zeta in H. apply bind_Ok in H as (t & Hp & H). apply reject_bind in Hp as (_ & <-%Ok_inj).
  set (x := mkClaimedDelivery record (mkDeliveryClaim (do_DeliveryID record) DeliveryStatusLeased (dcr_LeaseOwner q)
    (Some (dcr_LeaseUntil q)) (u32 (dc_Attempts c + 1)))) in *.
  change (mkStored badgerRecordDeliveryClaim (inject (mkDeliveryClaim (do_DeliveryID record) DeliveryStatusLeased
    (dcr_LeaseOwner q) (Some (dcr_LeaseUntil q)) (u32 (dc_Attempts c + 1))))) with (claim_record (cd_Claim x)) in H.
  assert (Hx : leased_to q (cd_Claim x)) by done. pose proof (leased_held q _ Hlt Hx) as Hxh.
  destruct (IH _ _ H) as (new & -> & Hlen & Hnd & Hall & Hkeep).
  assert (Hxk : txn' !! k = Some (claim_record (cd_Claim x))).
  { apply Hkeep; [apply lookup_insert_eq | exact Hxh]. }
  assert (Hdb : ∀ k' c', txn !! k' = Some (claim_record c') → claim_held c' (dcr_Now q) = true → k' ≠ k).
  { intros k' c' Hk' Hh ->. apply get_or_Ok in Hc as [Hc|[Hc _]]; rewrite Hk' in Hc; [|done].
    injection Hc as ->. congruence. }
  exists (x :: new). split; [by rewrite <-app_assoc|]. split; [|split; [|split]].
  - intros _. apply Hlen. unfold Zlength in *. rewrite length_app. cbn [length]. lia.
  - cbn [map]. constructor; [|exact Hnd]. intros (y & Hy & Hin)%list_elem_of_fmap.
    rewrite Forall_forall in Hall. destruct (Hall y Hin) as [_ _ (ky & Hky & _ & Hfree)].
    rewrite <-Hy in Hky. unfold claim_key in Hky. cbn [cd_Record x] in Hky. rewrite Hk in Hky.
    apply Ok_inj in Hky as <-. rewrite lookup_insert_eq in Hfree. destruct Hfree as (c' & <-%claim_record_inj & Hf & _). rewrite Hxh in Hf. discriminate Hf.
  - constructor.
    + split; [exact Hx|done|]. exists k. split; [exact Hk|]. split; [exact Hxk|].
      apply get_or_Ok in Hc as [Hc|[Hc ->]]; rewrite Hc; [|reflexivity]. by exists c.
    + rewrite Forall_forall in Hall |- *. intros y Hy. destruct (Hall y Hy) as [Hl Hid (ky & Hky & Hnow & Hfree)].
      split; [exact Hl|exact Hid|]. exists ky. split; [exact Hky|]. split; [exact Hnow|].
      destruct (decide (ky = k)) as [->|Hne]; [|by rewrite lookup_insert_ne in Hfree].
      rewrite lookup_insert_eq in Hfree. destruct Hfree as (c' & <-%claim_record_inj & Hf & _). rewrite Hxh in Hf. discriminate Hf.
  - intros k' c' Hk' Hh. apply (Hkeep k' c'); [|exact Hh]. rewrite lookup_insert_ne; [exact Hk'|].
    apply not_eq_sym. by eapply Hdb.
Qed.

Lemma claim_run fault ctx q db db' claimed :
  ClaimDeliveryOutbox fault ctx q db = (db', Ok claimed) →
  dcr_Now q < dcr_LeaseUntil q ∧ ∃ entries, claim_loop q entries db [] = Ok (db', claimed).
Proof.
  unfold ClaimDeliveryOutbox.
  intros [[_ [err [=]]]|(p & b & Hv & [= <-] & Hb & _)]%(update_inv _ _ _ _ (λ prefix txn,
    claim_loop q (scan txn prefix prefix) txn [])).
  apply bind_unit in Hv as [_ Hv]. apply bind_unit in Hv as [Hv _]. split; [|by eexists].
  unfold DeliveryClaimRequest_Validate in Hv. apply bind_unit in Hv as [_ Hv].
  rewrite reject_if_Ok, !orb_false_iff, !negb_false_iff in Hv. destruct Hv as [[[[_ _] Hlt%Z.ltb_lt] _] _]. exact Hlt.
Qed.

Lemma settle_run fault ctx q db db' r :
  SettleDeliveryOutbox fault ctx q db = (db', r) →
  (db' = db ∧ ∃ err, r = Err err) ∨
  ∃ k c, r = Ok tt ∧ claim_key (ds_Scope q) (ds_DeliveryID q) = Ok k ∧ db !! k = Some (claim_record c) ∧
    dc_Status c = DeliveryStatusLeased ∧ dc_LeaseOwner c = ds_LeaseOwner q ∧
    (ds_Status q = DeliveryStatusDelivered ∨ ds_Status q = DeliveryStatusTerminal) ∧
    db' = <[k := claim_record (mkDeliveryClaim (dc_DeliveryID c) (ds_Status q) "" None (dc_Attempts c))]> db.
Proof.
  unfold SettleDeliveryOutbox.
  intros [?|(k & [] & Hv & -> & Hb & _)]%(update_inv _ _ _ _ (settle_body q)); [by left|]. right.
  apply bind_unit in Hv as [_ Hv]. apply bind_unit in Hv as [Hq Hk].
  assert (Hstatus : ds_Status q = DeliveryStatusDelivered ∨ ds_Status q = DeliveryStatusTerminal).
  { unfold DeliverySettlementRequest_Validate in Hq. rewrite !bind_unit, !reject_if_Ok in Hq. destruct Hq as (_ & _ & Hq).
    rewrite andb_false_iff, !negb_false_iff, !bool_decide_eq_true in Hq. exact Hq. }
  unfold settle_body in Hb. apply bind_Ok in Hb as (found & Hf & Hb). apply optional_Ok in Hf.
  destruct found as [c|]; [|done]. apply reject_bind in Hb as (Hs & Hb).
  rewrite orb_false_iff, !negb_false_iff, !bool_decide_eq_true in Hs. destruct Hs as [Hs Ho].
  apply bind_Ok in Hb as (t & (_ & <-%Ok_inj)%reject_bind & [= <-]%Ok_inj). by exists k, c.
Qed.

(** A settled claim. *)
Definition settled (c : DeliveryClaim) : Prop :=
  dc_Status c = DeliveryStatusDelivered ∨ dc_Status c = DeliveryStatusTerminal.

Lemma settled_held c now : settled c → claim_held c now = true.
Proof. unfold claim_held. intros [-> | ->]; [by rewrite bool_decide_true | by rewrite (bool_decide_true (DeliveryStatusTerminal = DeliveryStatusTerminal)), orb_true_r]. Qed.

Lemma step_keeps_settled s id k c db db' :
  claim_key s id = Ok k → settled c → step_class db db' →
  db !! k = Some (claim_record c) → db' !! k = Some (claim_record c).
Proof.
  intros Hk Hc Hcl Hdb.
  assert (Hframe : ∀ tys, bool_decide (badgerRecordDeliveryClaim ∈ tys) = false → changes tys db db' →
    db' !! k = Some (claim_record c)).
  { intros tys Hty%not_in_list Hch. rewrite <-Hdb. by apply (changes_frame _ _ _ _ _ _ _ Hch Hty Hk). }
  destruct Hcl as [Hp|ty Hty Hch|fault ctx q r H|fault ctx q r H|? ? ? ? H|? ? ? ? ? ? H|? ? ? ? ? H|? ? ? ? ? ? H|? ? ? ? H].
  - rewrite <-Hdb. apply (Hp s badgerRecordDeliveryClaim [id]); [unfold private_types; in_list | exact Hk].
  - rewrite <-Hdb. apply (denial_frame ty badgerRecordDeliveryClaim db db' s [id] k Hty Hch); [by apply not_in_list | exact Hk].
  - destruct r as [claimed|err].
    + apply claim_run in H as (Hlt & entries & Hl).
      destruct (claim_loop_spec _ _ _ _ _ _ Hlt Hl) as (_ & _ & _ & _ & _ & Hkeep).
      apply (Hkeep k c Hdb). by apply settled_held.
    + unfold ClaimDeliveryOutbox in H. apply (update_inv _ _ _ _ (λ prefix txn,
        claim_loop q (scan txn prefix prefix) txn [])) in H as [[-> _]|(? & ? & _ & [=] & _)]. exact Hdb.
  - apply settle_run in H as [[-> _]|(k' & c' & _ & Hk' & Hdb' & Hst & _ & _ & ->)]; [exact Hdb|].
    rewrite lookup_insert_ne; [exact Hdb|]. intros ->. rewrite Hdb in Hdb'. injection Hdb' as <-.
    unfold settled in Hc. rewrite Hst in Hc. by destruct Hc.
  - eapply Hframe; [|by eapply mark_dirty_keeps]. reflexivity.
  - eapply Hframe; [|by eapply advance_watermark_keeps]. reflexivity.
  - eapply Hframe; [|by eapply activate_keeps]. reflexivity.
  - eapply Hframe; [|by eapply floor_keeps]. reflexivity.
  - eapply Hframe; [|by eapply checkpoint_keeps]. reflexivity.
Qed.

(** ** Properties *)

(** Deliveries are leased exclusively: a claiming call hands out distinct deliveries,
    at most its limit, none of which was settled or under a lease running past its
    clock; each is then leased to the caller with one more attempt, and every claim
    that was settled or still leased is untouched. *)
Theorem claims_are_exclusive fault ctx q db db' claimed :
  ClaimDeliveryOutbox fault ctx q db = (db', Ok claimed) →
  NoDup (map (λ x, do_DeliveryID (cd_Record x)) claimed) ∧ Zlength claimed ≤ Z.max 0 (dcr_Limit q) ∧
  Forall (handed_out q db db') claimed ∧
  ∀ k c, db !! k = Some (claim_record c) → claim_held c (dcr_Now q) = true → db' !! k = Some (claim_record c).
Proof.
  intros (Hlt & entries & Hl)%claim_run.
  destruct (claim_loop_spec _ _ _ _ _ _ Hlt Hl) as (new & -> & Hlen & Hnd & Hall & Hkeep). cbn [app] in *.
  split; [exact Hnd|]. split; [|by split].
  destruct (decide (0 ≤ dcr_Limit q)) as [Hpos|Hneg]; [rewrite Z.max_r by done; by apply Hlen|].
  destruct entries as [|kv entries]; cbn [claim_loop] in Hl; [apply Ok_inj in Hl; injection Hl as _ <-; unfold Zlength; cbn; lia|].
  rewrite (proj2 (Z.ltb_ge (Zlength (@nil ClaimedDelivery)) (dcr_Limit q))) in Hl by (unfold Zlength; cbn; lia).
  apply Ok_inj in Hl. injection Hl as _ <-. unfold Zlength. cbn. lia.
Qed.

(** A settled delivery is settled for good: settlement succeeds only for the worker
    the claim is leased to, and once a delivery is delivered or terminal nothing the
    store does afterwards changes its claim or hands it out again. *)
Theorem settlement_is_final fault ctx q db db1 db2 :
  store_reachable db → SettleDeliveryOutbox fault ctx q db = (db1, Ok tt) → rtc store_step db1 db2 →
  ∃ k c, claim_key (ds_Scope q) (ds_DeliveryID q) = Ok k ∧ db !! k = Some (claim_record c) ∧
    dc_Status c = DeliveryStatusLeased ∧ dc_LeaseOwner c = ds_LeaseOwner q ∧
    db2 !! k = Some (claim_record (mkDeliveryClaim (dc_DeliveryID c) (ds_Status q) "" None (dc_Attempts c))) ∧
    ∀ fault' ctx' q' db3 claimed x, ClaimDeliveryOutbox fault' ctx' q' db2 = (db3, Ok claimed) → x ∈ claimed →
      claim_key (dcr_Scope q') (do_DeliveryID (cd_Record x)) ≠ Ok k.
Proof.
  intros Hreach Hrun Hsteps. pose proof (st_settle _ _ fault ctx q (Ok tt) Hrun) as Hstep.
  apply settle_run in Hrun as [[_ [err [=]]]|(k & c & _ & Hk & Hdb & Hst & Ho & Hs & ->)].
  set (c' := mkDeliveryClaim (dc_DeliveryID c) (ds_Status q) "" None (dc_Attempts c)) in *.
  assert (Hc' : settled c') by exact Hs. exists k, c. split; [exact Hk|]. split; [exact Hdb|]. split; [exact Hst|].
  split; [exact Ho|]. assert (Hk2 : db2 !! k = Some (claim_record c')).
  { apply (private_invariant (λ d, d !! k = Some (claim_record c')) (<[k := claim_record c']> db) db2).
    - intros d d' _ Hcl. by apply (step_keeps_settled (ds_Scope q) (ds_DeliveryID q)).
    - by eapply rtc_r.
    - exact Hsteps.
    - apply lookup_insert_eq. }
  split; [exact Hk2|]. intros fault' ctx' q' db3 claimed x (Hlt & entries & Hl)%claim_run Hx Hkx.
  destruct (claim_loop_spec _ _ _ _ _ _ Hlt Hl) as (new & -> & _ & _ & Hall & _). cbn [app] in Hx.
  rewrite Forall_forall in Hall. destruct (Hall x Hx) as [_ _ (kx & Hkx' & _ & Hfree)].
  rewrite Hkx in Hkx'. apply Ok_inj in Hkx' as <-. rewrite Hk2 in Hfree. destruct Hfree as (c2 & <-%claim_record_inj & Hh & _).
  rewrite (settled_held c' (dcr_Now q') Hc') in Hh. discriminate Hh.
Qed.

(** ** Witnesses: the example's delivery, claimed and then settled *)
Definition demo_claim_request : DeliveryClaimRequest := mkDeliveryClaimRequest demo_scope "worker" 2000000000 3000000000 4.
Definition demo_claim_run : database * result (list ClaimedDelivery) :=
  ClaimDeliveryOutbox None (Some None) demo_claim_request demo_db.
Definition demo_claimed : database := demo_claim_run.1.
Definition demo_lease : ClaimedDelivery :=
  mkClaimedDelivery demo_delivery (mkDeliveryClaim "d1" DeliveryStatusLeased "worker" (Some 3000000000) 1).
Lemma demo_claim_succeeds :
  ClaimDeliveryOutbox None (Some None) demo_claim_request demo_db = (demo_claimed, Ok [demo_lease]).
Proof.
  assert (E : demo_claim_run.2 = Ok [demo_lease]) by (vm_compute; reflexivity).
  rewrite <-E. apply surjective_pairing.
Qed.

Definition demo_settlement : DeliverySettlementRequest :=
  mkDeliverySettlementRequest demo_scope "d1" "worker" DeliveryStatusDelivered 2500000000.
Definition demo_settle_run : database * result unit :=
  SettleDeliveryOutbox None (Some None) demo_settlement demo_claimed.
Definition demo_settled : database := demo_settle_run.1.
Lemma demo_settle_succeeds : SettleDeliveryOutbox None (Some None) demo_settlement demo_claimed = (demo_settled, Ok tt).
Proof.
  assert (E : demo_settle_run.2 = Ok tt) by (vm_compute; reflexivity).
  rewrite <-E. apply surjective_pairing.
Qed.

Lemma claims_are_exclusive_witness :
  NoDup ["d1"] ∧ Forall (handed_out demo_claim_request demo_db demo_claimed) [demo_lease].
Proof.
  destruct (claims_are_exclusive None (Some None) demo_claim_request demo_db demo_claimed [demo_lease]
    demo_claim_succeeds) as (Hnd & _ & Hall & _).
  split; [exact Hnd | exact Hall].
Defined.

Lemma settlement_is_final_witness :
  ∃ k c, claim_key demo_scope "d1" = Ok k ∧ dc_LeaseOwner c = "worker" ∧
    demo_settled !! k =
      Some (claim_record (mkDeliveryClaim (dc_DeliveryID c) DeliveryStatusDelivered "" None (dc_Attempts c))).
Proof.
  destruct (settlement_is_final None (Some None) demo_settlement demo_claimed demo_settled demo_settled)
    as (k & c & Hk & Hc & _ & Ho & Hnow & _).
  - eapply rtc_r; [exact demo_db_reachable | exact (st_claim _ _ _ _ _ _ demo_claim_succeeds)].
  - exact demo_settle_succeeds.
  - apply rtc_refl.
  - exists k, c. split; [exact Hk|]. split; [exact Ho | exact Hnow].
Defined.
