(* ===== verification/BadgerGenerations.v ===== *)
(** * BadgerGenerations: projection generations and cursors

    What the store guarantees about the projection records of
    src/sessionmemory/store/badger/badger_session_memory.go in every execution: at
    most one generation of a projection is active, the active record names it, and
    retention floors and scope checkpoints never move backwards. *)

From Stdlib Require Import ZArith Lia Ascii String.
From stdpp Require Import base numbers list gmap strings relations.
From S2P Require Import Prelude.
From S2P Require Import GoStrings.
From S2P Require Import MemoryTypes.
From S2P Require Import MemoryRecords.
From S2P Require Import MemoryDerived.
From S2P Require Import MemoryCanonical.
From S2P Require Import MemoryProcessor.
From S2P Require Import MemoryForget.
From S2P Require Import MemoryProjection.
From S2P Require Import BadgerKeys.
From S2P Require Import BadgerTxn.
From S2P Require Import BadgerStore.
From S2P Require Import BadgerLedgers.
From S2P Require Import BadgerEntries.
From S2P Require Import LedgerSpec.
From S2P Require Import BadgerRefinement.
From S2P Require Import BadgerSteps.
From S2P Require Import BadgerLeases.

Local Open Scope string_scope.
Local Open Scope list_scope.
Local Open Scope Z_scope.

Definition manifest_record (m : ProjectionManifest) : stored := mkStored badgerRecordProjectionManifest (VManifest m).
Definition active_record (g : string) : stored := mkStored badgerRecordProjectionActive (VActive (mkProjectionActive g)).
Definition active_key (s : Scope) (p : string) : result string := badgerSessionMemoryKey s badgerRecordProjectionActive p.

Lemma manifest_record_inj a b : manifest_record a = manifest_record b → a = b.
Proof.
  intros H. apply (f_equal st_Value) in H. unfold manifest_record in H. cbn [st_Value] in H.
  by apply (f_equal (λ v, match v with VManifest m => m | _ => a end)) in H.
Qed.

Lemma manifest_key_inj s p g s' p' g' k :
  badgerProjectionManifestKey s p g = Ok k → badgerProjectionManifestKey s' p' g' = Ok k → s' = s ∧ p' = p ∧ g' = g.
Proof. intros H1 H2. by destruct (scoped_key_inj _ _ _ _ _ _ _ H1 H2) as (-> & _ & [= -> ->]). Qed.

Lemma active_key_inj s p s' p' k : active_key s p = Ok k → active_key s' p' = Ok k → s' = s ∧ p' = p.
Proof. intros H1 H2. by destruct (scoped_key_inj _ _ _ _ _ _ _ H1 H2) as (-> & _ & [= ->]). Qed.

Lemma manifest_not_active s p g s' p' k : badgerProjectionManifestKey s p g = Ok k → active_key s' p' = Ok k → False.
Proof. intros H1 H2. by destruct (scoped_key_inj _ _ _ _ _ _ _ H1 H2) as (_ & [=] & _). Qed.

(** ** The invariant *)
Definition generations_ok (db : database) : Prop :=
  ∀ s p g k m, badgerProjectionManifestKey s p g = Ok k → db !! k = Some (manifest_record m) →
    pm_GenerationID m = g ∧
    (pm_Status m = ProjectionGenerationActive → ∃ ak, active_key s p = Ok ak ∧ db !! ak = Some (active_record g)).

(** Writing an inactive manifest of the key's generation keeps it. *)
Lemma generations_put db s p g k m :
  generations_ok db → badgerProjectionManifestKey s p g = Ok k → pm_GenerationID m = g →
  pm_Status m ≠ ProjectionGenerationActive → generations_ok (<[k := manifest_record m]> db).
Proof.
  intros Hok Hk Hg Hst s' p' g' k' m' Hk' Hdb. destruct (decide (k = k')) as [<-|Hne].
  - rewrite lookup_insert_eq in Hdb. apply (inj Some), manifest_record_inj in Hdb. subst m'.
    destruct (manifest_key_inj _ _ _ _ _ _ _ Hk Hk') as (-> & -> & ->). by split.
  - rewrite lookup_insert_ne in Hdb by done. destruct (Hok s' p' g' k' m' Hk' Hdb) as [Hid Hact].
    split; [exact Hid|]. intros (ak & Hak & Hakdb)%Hact. exists ak. split; [exact Hak|].
    rewrite lookup_insert_ne; [exact Hakdb|]. intros <-. exact (manifest_not_active _ _ _ _ _ _ Hk Hak).
Qed.

(** An activation: the manifest and the active record together. *)
Lemma generations_activate db s p g k ak m :
  generations_ok db → badgerProjectionManifestKey s p g = Ok k → active_key s p = Ok ak → pm_GenerationID m = g →
  (∀ g' k' m', badgerProjectionManifestKey s p g' = Ok k' → db !! k' = Some (manifest_record m') →
    pm_Status m' = ProjectionGenerationActive → g' = g) →
  generations_ok (<[ak := active_record g]> (<[k := manifest_record m]> db)).
Proof.
  intros Hok Hk Hak Hg Hothers s' p' g' k' m' Hk' Hdb.
  assert (Hne : ak ≠ k') by (intros <-; exact (manifest_not_active _ _ _ _ _ _ Hk' Hak)).
  rewrite lookup_insert_ne in Hdb by done. destruct (decide (k = k')) as [<-|Hne'].
  - rewrite lookup_insert_eq in Hdb. apply (inj Some), manifest_record_inj in Hdb. subst m'.
    destruct (manifest_key_inj _ _ _ _ _ _ _ Hk Hk') as (-> & -> & ->). split; [exact Hg|].
    intros _. exists ak. split; [exact Hak | apply lookup_insert_eq].
  - rewrite lookup_insert_ne in Hdb by done. destruct (Hok s' p' g' k' m' Hk' Hdb) as [Hid Hact].
    split; [exact Hid|]. intros Hst. destruct (Hact Hst) as (ak' & Hak' & Hakdb). exists ak'. split; [exact Hak'|].
    destruct (decide (ak = ak')) as [<-|Hane].
    + destruct (active_key_inj _ _ _ _ _ Hak Hak') as (-> & ->). rewrite lookup_insert_eq.
      by rewrite (Hothers g' k' m' Hk' Hdb Hst).
    + rewrite !lookup_insert_ne; [exact Hakdb| |done]. intros <-. exact (manifest_not_active _ _ _ _ _ _ Hk Hak').
Qed.

Lemma manifest_key_of m k : manifest_key m = Ok k → badgerProjectionManifestKey (pm_Scope m) (pm_ProjectionID m) (pm_GenerationID m) = Ok k.
Proof. done. Qed.

Lemma mark_dirty_run fault ctx m db db' r :
  MarkProjectionDirty fault ctx m db = (db', r) →
  db' = db ∨ ∃ k, manifest_key m = Ok k ∧ db' = <[k := manifest_record (with_status m ProjectionGenerationDirty)]> db.
Proof.
  unfold MarkProjectionDirty.
  intros [[-> _]|(k & u & Hk & _ & Hb & _)]%(update_inv _ _ _ _ (λ key txn,
    txn ← putBadgerSessionMemoryRecord txn key badgerRecordProjectionManifest
            (with_status m ProjectionGenerationDirty); Ok (txn, tt))); [by left|]. right.
  apply bind_unit in Hk as [_ Hk]. apply bind_unit in Hk as [_ Hk].
  apply bind_Ok in Hb as (t & (_ & <-%Ok_inj)%reject_bind & Hb). apply Ok_inj in Hb. injection Hb as <- _. by exists k.
Qed.

Lemma watermark_run fault ctx m w at_ db db' r :
  AdvanceProjectionWatermark fault ctx m w at_ db = (db', r) →
  db' = db ∨ ∃ k old, manifest_key m = Ok k ∧ db !! k = Some (manifest_record old) ∧
    pm_Status old = ProjectionGenerationDirty ∧ pm_Watermark old ≤ w ∧
    db' = <[k := manifest_record (with_updated (with_watermark old w) at_)]> db.
Proof.
  unfold AdvanceProjectionWatermark.
  intros [[-> _]|(k & u & Hk & _ & Hb & _)]%(update_inv _ _ _ _ (λ key, update_body m at_ _ key)); [by left|]. right.
  apply bind_unit in Hk as [_ Hk]. apply bind_unit in Hk as [_ Hk]. unfold update_body in Hb.
  apply bind_Ok in Hb as (old & Hold%get_record_Ok & Hb). apply reject_bind in Hb as (_ & Hb).
  apply bind_Ok in Hb as (new & Hnew & Hb). apply reject_bind in Hnew as (Hc & <-%Ok_inj).
  rewrite orb_false_iff, negb_false_iff, bool_decide_eq_true, Z.ltb_ge in Hc. destruct Hc as [Hst Hw].
  apply bind_Ok in Hb as (t & (_ & <-%Ok_inj)%reject_bind & Hb). apply Ok_inj in Hb. injection Hb as <- _. by exists k, old.
Qed.

(** An activation replaces at most the manifest of the generation it supersedes. *)
Lemma activate_run fault ctx m at_ db db' r :
  ActivateProjectionGeneration fault ctx m at_ db = (db', r) →
  db' = db ∨ ∃ k ak new db1, manifest_key m = Ok k ∧ active_key (pm_Scope m) (pm_ProjectionID m) = Ok ak ∧
    db !! k = Some (manifest_record new) ∧ pm_Status new = ProjectionGenerationDirty ∧
    db' = <[ak := active_record (pm_GenerationID new)]>
      (<[k := manifest_record (with_updated (with_status new ProjectionGenerationActive) at_)]> db1) ∧
    ((db1 = db ∧ (db !! ak = None ∨ db !! ak = Some (active_record (pm_GenerationID new)))) ∨
     ∃ g pk old, g ≠ pm_GenerationID new ∧ db !! ak = Some (active_record g) ∧
       badgerProjectionManifestKey (pm_Scope m) (pm_ProjectionID m) g = Ok pk ∧ db !! pk = Some (manifest_record old) ∧
       db1 = <[pk := manifest_record (with_updated (with_status old ProjectionGenerationSuperseded) at_)]> db).
Proof.
  unfold ActivateProjectionGeneration. intros [[-> _]|([k ak] & Hk & H)]%run_with_inv; [by left|].
  apply Update_inv in H as [[-> _]|(u & _ & Hb & _)]; [by left|]. right.
  apply bind_unit in Hk as [_ Hk]. apply bind_unit in Hk as [_ Hk].
  apply bind_Ok in Hk as (k' & Hm & Hk). apply bind_Ok in Hk as (ak' & Ha & Hk). apply Ok_inj in Hk. injection Hk as -> ->.
  unfold activate_body in Hb. apply bind_Ok in Hb as (new & Hnew%get_record_Ok & Hb). apply reject_bind in Hb as (Hst & Hb).
  apply negb_false_iff, bool_decide_eq_true in Hst.
  apply bind_Ok in Hb as (previous & Hprev%optional_Ok & Hb). apply bind_Ok in Hb as (db1 & H1 & Hb).
  apply bind_Ok in Hb as (t2 & (_ & <-%Ok_inj)%reject_bind & Hb).
  apply bind_Ok in Hb as (t3 & (_ & <-%Ok_inj)%reject_bind & Hb). apply Ok_inj in Hb. injection Hb as <- _.
  exists k, ak, new, db1. split; [exact Hm|]. split; [exact Ha|]. split; [exact Hnew|]. split; [exact Hst|].
  split; [reflexivity|]. destruct previous as [[g]|]; cbn [fmap option_fmap option_map] in Hprev.
  - cbn [pa_GenerationID] in H1. case_bool_decide as Hg.
    + apply Ok_inj in H1 as <-. left. split; [done|]. right. by rewrite <-Hg.
    + apply bind_Ok in H1 as (pk & Hpk & H1). apply bind_Ok in H1 as (old & Hold%get_record_Ok & H1).
      apply reject_bind in H1 as (_ & <-%Ok_inj). right. by exists g, pk, old.
  - apply Ok_inj in H1 as <-. left. split; [done | by left].
Qed.

Lemma active_record_inj a b : active_record a = active_record b → a = b.
Proof.
  intros H. apply (f_equal st_Value) in H. unfold active_record in H. cbn [st_Value] in H.
  by apply (f_equal (λ v, match v with VActive x => pa_GenerationID x | _ => a end)) in H.
Qed.

Lemma generations_frame db db' :
  (∀ s p g k, badgerProjectionManifestKey s p g = Ok k → db' !! k = db !! k) →
  (∀ s p k, active_key s p = Ok k → db' !! k = db !! k) → generations_ok db → generations_ok db'.
Proof.
  intros Hm Ha Hok s p g k m Hk. rewrite (Hm s p g k Hk). intros Hdb. destruct (Hok s p g k m Hk Hdb) as [Hid Hact].
  split; [exact Hid|]. intros (ak & Hak & Hakdb)%Hact. exists ak. split; [exact Hak|]. by rewrite (Ha s p ak Hak).
Qed.

Lemma generations_changes tys db db' :
  bool_decide (badgerRecordProjectionManifest ∈ tys) = false → bool_decide (badgerRecordProjectionActive ∈ tys) = false →
  changes tys db db' → generations_ok db → generations_ok db'.
Proof.
  intros Hm%not_in_list Ha%not_in_list Hc. apply generations_frame.
  - intros s p g k Hk. by apply (changes_frame _ _ _ _ _ _ _ Hc Hm Hk).
  - intros s p k Hk. by apply (changes_frame _ _ _ _ _ _ _ Hc Ha Hk).
Qed.

Lemma generations_activation m k ak new db db1 at_ :
  generations_ok db → manifest_key m = Ok k → active_key (pm_Scope m) (pm_ProjectionID m) = Ok ak →
  db !! k = Some (manifest_record new) →
  ((db1 = db ∧ (db !! ak = None ∨ db !! ak = Some (active_record (pm_GenerationID new)))) ∨
   ∃ g pk old, g ≠ pm_GenerationID new ∧ db !! ak = Some (active_record g) ∧
     badgerProjectionManifestKey (pm_Scope m) (pm_ProjectionID m) g = Ok pk ∧ db !! pk = Some (manifest_record old) ∧
     db1 = <[pk := manifest_record (with_updated (with_status old ProjectionGenerationSuperseded) at_)]> db) →
  generations_ok (<[ak := active_record (pm_GenerationID new)]>
    (<[k := manifest_record (with_updated (with_status new ProjectionGenerationActive) at_)]> db1)).
Proof.
  intros Hok Hk%manifest_key_of Hak Hnew Hcase. destruct (Hok _ _ _ _ _ Hk Hnew) as [Hid _].
  rewrite Hid in Hcase |- *. destruct Hcase as [[-> Hptr]|(g & pk & old & Hne & Hptr & Hpk & Hold & ->)].
  - apply (generations_activate db (pm_Scope m) (pm_ProjectionID m) (pm_GenerationID m) k ak); [done|done|done|exact Hid|].
    intros g' k' m' Hk' Hdb Hst. destruct (Hok _ _ _ _ _ Hk' Hdb) as [_ Hact].
    destruct (Hact Hst) as (ak' & Hak' & Hakdb). rewrite Hak in Hak'. apply Ok_inj in Hak' as <-. rewrite Hakdb in Hptr.
    destruct Hptr as [?|E%(inj Some)%active_record_inj]; [done | exact E].
  - destruct (Hok _ _ _ _ _ Hpk Hold) as [Hoid _].
    apply (generations_activate _ (pm_Scope m) (pm_ProjectionID m) (pm_GenerationID m) k ak); [|done|done|exact Hid|].
    + apply (generations_put db (pm_Scope m) (pm_ProjectionID m) g pk); [done|exact Hpk|exact Hoid|discriminate].
    + intros g' k' m' Hk' Hdb Hst. destruct (decide (pk = k')) as [<-|Hpne].
      * rewrite lookup_insert_eq in Hdb. apply (inj Some), manifest_record_inj in Hdb. subst m'. discriminate Hst.
      * rewrite lookup_insert_ne in Hdb by done. destruct (Hok _ _ _ _ _ Hk' Hdb) as [_ Hact].
        destruct (Hact Hst) as (ak' & Hak' & Hakdb). rewrite Hak in Hak'. apply Ok_inj in Hak' as <-.
        rewrite Hakdb in Hptr. apply (inj Some), active_record_inj in Hptr. subst g'. exfalso. apply Hpne. congruence.
Qed.

Lemma generations_step db db' : step_class db db' → generations_ok db → generations_ok db'.
Proof.
  intros [Hp|ty Hty Hch|fault ctx q r H|fault ctx q r H|fault ctx m r H|fault ctx m w at_ r H|fault ctx m at_ r H|
    ? ? ? ? ? ? H|? ? ? ? H] Hok.
  - revert Hok. apply generations_frame; intros s.
    + intros p g k. apply (Hp s). unfold private_types. in_list.
    + intros p k. apply (Hp s). unfold private_types. in_list.
  - revert Hok. apply generations_frame; intros s.
    + intros p g k. apply (denial_frame ty _ db db' s _ k Hty Hch). by apply not_in_list.
    + intros p k. apply (denial_frame ty _ db db' s _ k Hty Hch). by apply not_in_list.
  - by eapply generations_changes; [| |eapply claim_keeps|].
  - by eapply generations_changes; [| |eapply settle_keeps|].
  - apply mark_dirty_run in H as [->|(k & Hk & ->)]; [exact Hok|].
    by apply (generations_put db (pm_Scope m) (pm_ProjectionID m) (pm_GenerationID m)).
  - apply watermark_run in H as [->|(k & old & Hk%manifest_key_of & Hold & Hst & _ & ->)]; [exact Hok|].
    destruct (Hok _ _ _ _ _ Hk Hold) as [Hid _].
    apply (generations_put db (pm_Scope m) (pm_ProjectionID m) (pm_GenerationID m) k
      (with_updated (with_watermark old w) at_) Hok Hk Hid). cbn [with_updated with_watermark pm_Status]. rewrite Hst. discriminate.
  - apply activate_run in H as [->|(k & ak & new & db1 & Hk & Hak & Hnew & _ & -> & Hcase)]; [exact Hok|].
    by apply (generations_activation m k ak new db db1).
  - by eapply generations_changes; [| |eapply floor_keeps|].
  - by eapply generations_changes; [| |eapply checkpoint_keeps|].
Qed.

(** ** Cursors *)
Definition floor_record (f : Z) : stored := mkStored badgerRecordProjectionRetention (VRetention (mkProjectionRetention f)).
Definition checkpoint_record (c : ScopeCheckpoint) : stored := mkStored badgerRecordProjectionCheckpoint (VCheckpoint c).

Lemma floor_record_inj a b : floor_record a = floor_record b → a = b.
Proof.
  intros H. apply (f_equal st_Value) in H. unfold floor_record in H. cbn [st_Value] in H.
  by apply (f_equal (λ v, match v with VRetention x => rt_Floor x | _ => a end)) in H.
Qed.
Lemma checkpoint_record_inj a b : checkpoint_record a = checkpoint_record b → a = b.
Proof.
  intros H. apply (f_equal st_Value) in H. unfold checkpoint_record in H. cbn [st_Value] in H.
  by apply (f_equal (λ v, match v with VCheckpoint x => x | _ => a end)) in H.
Qed.

(** [c'] is no earlier than [c]. *)
Definition checkpoint_le (c c' : ScopeCheckpoint) : Prop :=
  ck_ScopeVersion c ≤ ck_ScopeVersion c' ∧ ck_ChangeSeq c ≤ ck_ChangeSeq c' ∧ ck_OccurredAt c ≤ ck_OccurredAt c'.
#[export] Instance checkpoint_le_refl : Reflexive checkpoint_le.
Proof. intros c. unfold checkpoint_le. lia. Qed.
#[export] Instance checkpoint_le_trans : Transitive checkpoint_le.
Proof. intros a b c. unfold checkpoint_le. lia. Qed.

(** A cursor is never removed and never moves back along [le]. *)
Definition advances {A} (record : A → stored) (le : A → A → Prop) (k : string) (db db' : database) : Prop :=
  ∀ a, db !! k = Some (record a) → ∃ a', db' !! k = Some (record a') ∧ le a a'.

Lemma advances_same {A} (record : A → stored) le `{Hr : !Reflexive le} k db db' :
  db' !! k = db !! k → advances record le k db db'.
Proof. intros E a Ha. exists a. rewrite E. split; [exact Ha | reflexivity]. Qed.

Lemma floor_run fault ctx s id floor db db' r :
  SetProjectionRetentionFloor fault ctx s id floor db = (db', r) →
  db' = db ∨ ∃ k, badgerProjectionRetentionKey s id = Ok k ∧ (∀ f, db !! k = Some (floor_record f) → f ≤ floor) ∧
    db' = <[k := floor_record floor]> db.
Proof.
  unfold SetProjectionRetentionFloor.
  intros [[-> _]|(k & u & Hk & _ & Hb & _)]%(update_inv _ _ _ _ (floor_body floor)); [by left|]. right.
  apply bind_unit in Hk as [_ Hk]. apply bind_unit in Hk as [_ Hk].
  unfold floor_body in Hb. apply bind_Ok in Hb as (found & Hf%optional_Ok & Hb). apply reject_bind in Hb as (Hle & Hb).
  apply bind_Ok in Hb as (t & (_ & <-%Ok_inj)%reject_bind & Hb). apply Ok_inj in Hb. injection Hb as <- _.
  exists k. split; [exact Hk|]. split; [|reflexivity]. intros f Hdb. destruct found as [[f']|]; cbn in Hf; rewrite Hf in Hdb.
  - apply (inj Some), (floor_record_inj f') in Hdb. subst f'. by apply Z.ltb_ge.
  - discriminate Hdb.
Qed.

Lemma checkpoint_run fault ctx c db db' r :
  SaveScopeCheckpoint fault ctx c db = (db', r) →
  db' = db ∨ ∃ k, badgerProjectionCheckpointKey (ck_Scope c) (ck_Kind c) = Ok k ∧
    (∀ old, db !! k = Some (checkpoint_record old) → checkpoint_le old c) ∧ db' = <[k := checkpoint_record c]> db.
Proof.
  unfold SaveScopeCheckpoint.
  intros [[-> _]|(k & u & Hk & _ & Hb & _)]%(update_inv _ _ _ _ (checkpoint_body c)); [by left|].
  apply bind_unit in Hk as [_ Hk]. apply bind_unit in Hk as [_ Hk].
  unfold checkpoint_body in Hb. apply bind_Ok in Hb as (found & Hf%optional_Ok & Hb).
  destruct found as [old|]; cbv zeta in Hb.
  - apply reject_bind in Hb as (Hle & Hb). rewrite !orb_false_iff, !Z.ltb_ge in Hle.
    destruct (_ && _); [left; apply Ok_inj in Hb; by injection Hb as <-|]. right.
    apply bind_Ok in Hb as (t & (_ & <-%Ok_inj)%reject_bind & Hb). apply Ok_inj in Hb. injection Hb as <- _.
    exists k. split; [exact Hk|]. split; [|reflexivity]. intros old' Hdb. cbn in Hf. rewrite Hf in Hdb.
    apply (inj Some), (checkpoint_record_inj old) in Hdb. subst old'. unfold checkpoint_le. lia.
  - right. apply bind_Ok in Hb as (t & (_ & <-%Ok_inj)%reject_bind & Hb). apply Ok_inj in Hb. injection Hb as <- _.
    exists k. split; [exact Hk|]. split; [|reflexivity]. intros old' Hdb. cbn in Hf. rewrite Hf in Hdb. discriminate Hdb.
Qed.

(** A step that is not the cursor's own operation leaves its record alone. *)
Lemma cursor_step {A} (record : A → stored) le `{Hr : !Reflexive le} s ty id k db db' :
  badgerSessionMemoryKey s ty id = Ok k →
  bool_decide (ty ∈ private_types) = true →
  bool_decide (ty ∈ [badgerRecordDeniedSource; badgerRecordDeniedRevision; badgerRecordDeliveryClaim;
    badgerRecordProjectionManifest; badgerRecordProjectionActive]) = false →
  (∀ fault ctx s id f r, SetProjectionRetentionFloor fault ctx s id f db = (db', r) → advances record le k db db') →
  (∀ fault ctx c r, SaveScopeCheckpoint fault ctx c db = (db', r) → advances record le k db db') →
  step_class db db' → advances record le k db db'.
Proof.
  intros Hk Hty%bool_decide_eq_true Hno%bool_decide_eq_false Hfloor Hcheck Hcl.
  assert (Hframe : ∀ tys, (∀ t, t ∈ tys → t ∈ [badgerRecordDeniedSource; badgerRecordDeniedRevision;
    badgerRecordDeliveryClaim; badgerRecordProjectionManifest; badgerRecordProjectionActive]) →
    changes tys db db' → advances record le k db db').
  { intros tys Hsub Hch. apply (advances_same record le). apply (changes_frame _ _ _ _ _ _ _ Hch) with (2 := Hk).
    intros Hin. by apply Hno, Hsub. }
  destruct Hcl as [Hp|t Ht Hch|? ? ? ? H|? ? ? ? H|? ? ? ? H|? ? ? ? ? ? H|? ? ? ? ? H|? ? ? ? ? ? H|? ? ? ? H].
  - apply (advances_same record le). by apply (Hp s ty [id]).
  - apply (Hframe [t]); [|exact Hch]. intros t' ->%list_elem_of_singleton. set_solver.
  - eapply Hframe; [|by eapply claim_keeps]. set_solver.
  - eapply Hframe; [|by eapply settle_keeps]. set_solver.
  - eapply Hframe; [|by eapply mark_dirty_keeps]. set_solver.
  - eapply Hframe; [|by eapply advance_watermark_keeps]. set_solver.
  - eapply Hframe; [|by eapply activate_keeps]. set_solver.
  - by eapply Hfloor.
  - by eapply Hcheck.
Qed.

Lemma floor_step s id k db db' :
  badgerProjectionRetentionKey s id = Ok k → step_class db db' → advances floor_record Z.le k db db'.
Proof.
  intros Hk. apply (cursor_step floor_record Z.le s badgerRecordProjectionRetention id k db db' Hk); [reflexivity..| |].
  - intros fault ctx s' id' f r [->|(k' & _ & Hle & ->)]%floor_run; [exact (advances_same floor_record Z.le k db db eq_refl)|].
    intros a Ha. destruct (decide (k' = k)) as [->|Hne].
    + exists f. rewrite lookup_insert_eq. split; [reflexivity | by apply Hle].
    + exists a. rewrite lookup_insert_ne by done. split; [exact Ha | reflexivity].
  - intros fault ctx c r Hc%checkpoint_keeps. apply (advances_same floor_record Z.le).
    apply (changes_frame _ _ _ _ _ _ _ Hc) with (2 := Hk). by apply not_in_list.
Qed.

Lemma checkpoint_step s kind k db db' :
  badgerProjectionCheckpointKey s kind = Ok k → step_class db db' → advances checkpoint_record checkpoint_le k db db'.
Proof.
  intros Hk. apply (cursor_step checkpoint_record checkpoint_le s badgerRecordProjectionCheckpoint kind k db db' Hk); [reflexivity..| |].
  - intros fault ctx s' id' f r Hc%floor_keeps. apply (advances_same checkpoint_record checkpoint_le).
    apply (changes_frame _ _ _ _ _ _ _ Hc) with (2 := Hk). by apply not_in_list.
  - intros fault ctx c r [->|(k' & _ & Hle & ->)]%checkpoint_run; [exact (advances_same checkpoint_record checkpoint_le k db db eq_refl)|].
    intros a Ha. destruct (decide (k' = k)) as [->|Hne].
    + exists c. rewrite lookup_insert_eq. split; [reflexivity | by apply Hle].
    + exists a. rewrite lookup_insert_ne by done. split; [exact Ha | reflexivity].
Qed.

(** Along an execution. *)
Lemma advances_steps {A} (record : A → stored) le `{!Reflexive le, !Transitive le} k db db' :
  (∀ d d', step_class d d' → advances record le k d d') →
  store_reachable db → rtc store_step db db' → advances record le k db db'.
Proof.
  intros Hstep Hreach Hsteps a Ha.
  apply (private_invariant (λ d, ∃ a', d !! k = Some (record a') ∧ le a a') db db'); [|done|done|].
  - intros d d' _ Hcl (a' & Ha' & Hle). destruct (Hstep d d' Hcl a' Ha') as (a2 & Ha2 & Hle2).
    exists a2. split; [exact Ha2 | by transitivity a'].
  - exists a. split; [exact Ha | reflexivity].
Qed.

(** ** Properties *)

(** A projection has one active generation: in every execution, two manifests of
    the same projection that are both active are of one generation, which is the one
    the projection's active record names. *)
Theorem one_active_generation db s p g g' k k' m m' :
  store_reachable db →
  badgerProjectionManifestKey s p g = Ok k → badgerProjectionManifestKey s p g' = Ok k' →
  db !! k = Some (manifest_record m) → db !! k' = Some (manifest_record m') →
  pm_Status m = ProjectionGenerationActive → pm_Status m' = ProjectionGenerationActive →
  g = g' ∧ ∃ ak, active_key s p = Ok ak ∧ db !! ak = Some (active_record g).
Proof.
  intros Hreach Hk Hk' Hdb Hdb' Hst Hst'.
  assert (Hok : generations_ok db).
  { apply (private_invariant generations_ok ∅ db); [|apply rtc_refl|exact Hreach|].
    - intros d d' _. apply generations_step.
    - intros ? ? ? ? ? _ [=]. }
  destruct (Hok _ _ _ _ _ Hk Hdb) as [_ (ak & Hak & Hadb)]; [exact Hst|].
  destruct (Hok _ _ _ _ _ Hk' Hdb') as [_ (ak' & Hak' & Hadb')]; [exact Hst'|].
  rewrite Hak in Hak'. apply Ok_inj in Hak' as <-. rewrite Hadb in Hadb'.
  apply (inj Some), active_record_inj in Hadb' as <-. split; [reflexivity | by exists ak].
Qed.

(** Projection cursors never move backwards: whatever the store does, a retention
    floor only rises and a scope checkpoint only moves to a later version, change
    sequence and time; neither is ever lost. *)
Theorem cursors_never_move_backwards db db' s id k :
  store_reachable db → rtc store_step db db' →
  (badgerProjectionRetentionKey s id = Ok k → advances floor_record Z.le k db db') ∧
  (badgerProjectionCheckpointKey s id = Ok k → advances checkpoint_record checkpoint_le k db db').
Proof.
  intros Hreach Hsteps. split; intros Hk; apply (advances_steps _ _ k db db'); try done; intros d d'.
  - by apply (floor_step s id).
  - by apply (checkpoint_step s id).
Qed.

(** ** Witnesses: a generation marked dirty and activated, a floor raised *)
Definition demo_manifest : ProjectionManifest := mkManifest demo_scope "recall" "g1" ProjectionGenerationBuilding 0 1000000000.
Definition demo_dirty_run : database * result unit := MarkProjectionDirty None (Some None) demo_manifest ∅.
Definition demo_active_run : database * result unit :=
  ActivateProjectionGeneration None (Some None) demo_manifest 2000000000 demo_dirty_run.1.
Definition demo_activated : ProjectionManifest := with_updated (with_status demo_manifest ProjectionGenerationActive) 2000000000.
Definition demo_manifest_key : string := ok_or "" (badgerProjectionManifestKey demo_scope "recall" "g1").

Lemma demo_active_reachable : store_reachable demo_active_run.1.
Proof.
  eapply rtc_l; [exact (st_mark_dirty _ _ None (Some None) demo_manifest demo_dirty_run.2 (surjective_pairing _))|].
  apply rtc_once. exact (st_activate _ _ None (Some None) demo_manifest 2000000000 demo_active_run.2 (surjective_pairing _)).
Qed.

Lemma one_active_generation_witness :
  "g1" = "g1" ∧ ∃ ak, active_key demo_scope "recall" = Ok ak ∧ demo_active_run.1 !! ak = Some (active_record "g1").
Proof.
  apply (one_active_generation demo_active_run.1 demo_scope "recall" "g1" "g1" demo_manifest_key demo_manifest_key
    demo_activated demo_activated demo_active_reachable).
  - apply is_ok_run. vm_compute. reflexivity.
  - apply is_ok_run. vm_compute. reflexivity.
  - vm_compute. reflexivity.
  - vm_compute. reflexivity.
  - reflexivity.
  - reflexivity.
Defined.

Definition demo_floor_run : database * result unit := SetProjectionRetentionFloor None (Some None) demo_scope "recall" 7 ∅.
Definition demo_floor_key : string := ok_or "" (badgerProjectionRetentionKey demo_scope "recall").

Lemma cursors_never_move_backwards_witness :
  ∃ f, (SetProjectionRetentionFloor None (Some None) demo_scope "recall" 5 demo_floor_run.1).1 !! demo_floor_key =
    Some (floor_record f) ∧ 7 ≤ f.
Proof.
  refine (proj1 (cursors_never_move_backwards demo_floor_run.1 _ demo_scope "recall" demo_floor_key _ _) _ 7 _).
  - apply rtc_once.
    exact (st_floor _ _ None (Some None) demo_scope "recall" 7 demo_floor_run.2 (surjective_pairing _)).
  - apply rtc_once. eapply st_floor. apply surjective_pairing.
  - apply is_ok_run. vm_compute. reflexivity.
  - vm_compute. reflexivity.
Defined.
