(* ===== verification/BadgerReader.v ===== *)
(** * BadgerReader: canonical records hydrated for recall

    src/sessionmemory/store/badger/canonical_reader.go: the view of one revision with
    its item, head, denial markers and sources, the recall record built from it, and
    the reader the recall service hydrates from.

    Each read of the store sees the database of its own moment: a [timeline] gives
    the database at the first, second, ... read of a call.  The decoding of a
    payload's JSON into a struct is a parameter ([PayloadDecoder]): payloads are
    arbitrary bytes and every decoder is allowed. *)

From Stdlib Require Import ZArith Lia Ascii String.
From stdpp Require Import base numbers list gmap strings relations.
From S2P Require Import Prelude.
From S2P Require Import GoStrings.
From S2P Require Import MemoryTypes.
From S2P Require Import MemoryRecords.
From S2P Require Import MemoryDerived.
From S2P Require Import MemoryCanonical.
From S2P Require Import MemoryProcessor.
From S2P Require Import MemoryForget.
From S2P Require Import MemoryRecall.
From S2P Require Import MemoryViews.
From S2P Require Import BadgerKeys.
From S2P Require Import BadgerTxn.
From S2P Require Import BadgerStore.
From S2P Require Import BadgerLedgers.

Local Open Scope string_scope.
Local Open Scope list_scope.
Local Open Scope Z_scope.

(** ** Payloads *)
Record canonicalTurnSourcePayload := mkTurnSource {
  ts_ExportID : string; ts_SessionID : string; ts_AgentSessionID : string; ts_SourceTurnID : string;
  ts_CompletedAt : Z; ts_TerminalStatus : string }.

(** [json.Unmarshal] into the three structs; [None] is an error. *)
Class PayloadDecoder := {
  unmarshal_compatibility : string → option CanonicalCompatibilityPayload;
  unmarshal_source : string → option SourceRecord;
  unmarshal_turn : string → option canonicalTurnSourcePayload }.

(** ** The view *)
Record canonicalRecallView := mkView {
  vw_item : MemoryItem; vw_revision : MemoryRevision; vw_state : string; vw_sourceRefs : list SourceRef;
  vw_sourceIDs : list string; vw_sessions : list string }.

Definition errCanonicalInactive : error := ErrSentinel "canonical revision is inactive".
Definition errCanonicalDenied : error := ErrSentinel "canonical revision is denied".

Definition canonicalReaderContext (ctx : Context) : result unit :=
  match ctx with
  | None => Err (PermanentError CodeInvalidDerived "canonical reader context is required" None)
  | Some (Some err) => Err (RetryableError CodeTimeout "canonical reader context ended" (Some err))
  | Some None => Ok tt
  end.

Definition isCanonicalMissing (err : error) : bool :=
  match ClassifyError err with
  | Some (code, _) => bool_decide (code = CodeNotFound) || bool_decide (code = CodeForgotten)
  | None => false
  end.

Definition recallCategory (kind : string) : string := if bool_decide (kind = MemoryKindEvent) then "event" else "fact".

Definition appendUnique (values : list string) (value : string) : list string :=
  if bool_decide (value = "") then values
  else if bool_decide (value ∈ values) then values else values ++ [value].

(** A denial marker of either type must be absent. *)
Definition refuse_denied {A} `{Stored A} (txn : database) (scope : Scope) (recordType id : string) : result unit :=
  key ← badgerSessionMemoryKey scope recordType id;
  denied ← optional (getBadgerSessionMemoryRecord (A := A) txn key recordType);
  reject_if (match denied with Some _ => true | None => false end) errCanonicalDenied.

Section reader.
  Context `{PayloadDecoder}.

Definition canonicalCompatibilityPayload (payload : string) (scope : Scope) : option CanonicalCompatibilityPayload :=
  c ← unmarshal_compatibility payload;
  if is_ok (CanonicalCompatibilityPayload_Validate scope c) then Some c else None.

Definition canonicalSourceRef (payload : string) (scope : Scope) (sourceID : string) : option (SourceRef * string) :=
  let from_turn :=
    turn ← unmarshal_turn payload;
    if bool_decide (ts_ExportID turn = "") || bool_decide (ts_SessionID turn = "") || bool_decide (ts_SourceTurnID turn = "")
    then None
    else
      let ref := mkSourceRef scope (ts_ExportID turn) (ts_SessionID turn) (ts_SourceTurnID turn) in
      if negb (is_ok (SourceRef_Validate ref)) || bool_decide (sourceID = "") then None
      else Some (ref, ts_SessionID turn) in
  match unmarshal_source payload with
  | Some source =>
      if bool_decide (so_Scope (src_Ref source) = scope) && negb (bool_decide (so_SessionID (src_Ref source) = ""))
      then Some (src_Ref source, so_SessionID (src_Ref source))
      else from_turn
  | None => from_turn
  end.

(** One evidence reference: its source must be stored, valid and not denied. *)
Definition view_source (scope : Scope) (txn : database)
    (acc : list string * (list SourceRef * list string * list string)) (evidence : EvidenceRef) :
    result (list string * (list SourceRef * list string * list string)) :=
  let '(seen, (refs, ids, sessions)) := acc in
  let id := ev_SourceID evidence in
  if bool_decide (id ∈ seen) then Ok acc
  else
    _ ← refuse_denied (A := badgerDeniedSource) txn scope badgerRecordDeniedSource id;
    sourceKey ← badgerSessionMemoryKey scope badgerRecordSource id;
    source ← getBadgerSessionMemoryRecord (A := SourceRecordV2) txn sourceKey badgerRecordSource;
    _ ← reject_with_cause (SourceRecordV2_Validate source) (negb (bool_decide (sr_Scope source = scope)))
          CodeStoreFailure "stored canonical source is invalid";
    payloadKey ← badgerSessionMemoryKey payloadScope badgerRecordPayload (pr_ID (sr_Payload source));
    payload ← getBadgerSessionMemoryRecord (A := string) txn payloadKey badgerRecordPayload;
    _ ← reject_if (negb (isBadgerPayloadValid payload (sr_Payload source)))
          (PermanentError CodeStoreFailure "stored canonical source payload is invalid" None);
    Ok (id :: seen, match canonicalSourceRef payload scope id with
                    | Some (ref, session) => (refs ++ [ref], ids ++ [id], appendUnique sessions session)
                    | None => (refs, ids, sessions)
                    end).

(** The transaction of [loadCanonicalView]. *)
Definition load_view (scope : Scope) (revisionID : string) (activeOnly : bool) (txn : database) :
    result canonicalRecallView :=
  revisionKey ← badgerSessionMemoryKey scope badgerRecordRevision revisionID;
  revision ← getBadgerSessionMemoryRecord (A := MemoryRevision) txn revisionKey badgerRecordRevision;
  _ ← match MemoryRevision_Validate revision with
      | Err err => Err (PermanentError CodeStoreFailure "stored canonical revision is invalid" (Some err))
      | Ok _ => Ok tt
      end;
  itemKey ← badgerSessionMemoryKey scope badgerRecordItem (rv_ItemID revision);
  item ← getBadgerSessionMemoryRecord (A := MemoryItem) txn itemKey badgerRecordItem;
  _ ← reject_with_cause (MemoryItem_Validate item)
        (negb (bool_decide (mi_Scope item = scope)) || negb (bool_decide (mi_ItemID item = rv_ItemID revision)))
        CodeStoreFailure "stored canonical item is invalid";
  headKey ← badgerSessionMemoryKey scope badgerRecordHead (mi_ItemID item);
  head ← getBadgerSessionMemoryRecord (A := ItemHead) txn headKey badgerRecordHead;
  _ ← reject_with_cause (ItemHead_Validate head) (negb (bool_decide (ih_ItemID head = mi_ItemID item)))
        CodeStoreFailure "stored canonical item head is invalid";
  let current := bool_decide (ih_RevisionID head = rv_RevisionID revision) in
  _ ← reject_if (negb current && activeOnly) errCanonicalInactive;
  _ ← refuse_denied (A := badgerDeniedRevision) txn scope badgerRecordDeniedRevision (rv_RevisionID revision);
  sources ← for_fold (view_source scope txn) ([], ([], [], [])) (rv_Evidence revision);
  let '(refs, ids, sessions) := sources.2 in
  Ok (mkView item revision (if current then RevisionStateActive else RevisionStateSuperseded) refs ids sessions).

(** [None] when the revision is missing, inactive or denied. *)
Definition loadCanonicalView (scope : Scope) (revisionID : string) (activeOnly : bool) (db : database) :
    result (option canonicalRecallView) :=
  _ ← Scope_Validate scope;
  _ ← reject_if (blank revisionID)
        (PermanentError CodeInvalidDerived "canonical revision id is required" None);
  match load_view scope revisionID activeOnly db with
  | Ok view => Ok (Some view)
  | Err err =>
      if errors_Is err badger_ErrKeyNotFound || errors_Is err errCanonicalInactive || errors_Is err errCanonicalDenied
      then Ok None
      else Err (badgerSessionMemoryError "load canonical recall view" err)
  end.

(** ** Recall records *)
Definition recall_record (scope : Scope) (view : canonicalRecallView) (text : string) (changeSeq : Z) : RecallRecord :=
  let compat := canonicalCompatibilityPayload text scope in
  let get {A} (d : A) (f : CanonicalCompatibilityPayload → A) := match compat with Some c => f c | None => d end in
  let revision := vw_revision view in
  mkRecallRecord scope (mi_ItemID (vw_item view)) (rv_RevisionID revision) (rv_Revision revision) (mi_Kind (vw_item view))
    (Some (match (c ← compat; cy_Category c) with Some category => category | None => recallCategory (mi_Kind (vw_item view)) end))
    (cy_Kind <$> compat) (get "" cy_LegacyItemID) (get "" cy_LegacyRevisionID) (get "" cy_LegacyOperationID)
    (c ← compat; cy_Supersedes c) (get [] cy_LegacyParents) (get "" cy_TopicKey) (get "" cy_Title)
    (mi_MemoryKey (vw_item view)) (get text cy_Text) RevisionStateActive (tp_ObservedAt (rv_Temporal revision))
    (rv_Temporal revision) (rv_Sensitivity revision) (rv_Retention revision) (rv_Evidence revision)
    (fold_left appendUnique (map ev_SourceID (rv_Evidence revision)) []) (vw_sourceRefs view) (vw_sessions view) changeSeq.

(** The databases of successive reads, and of those after the first [n]. *)
Definition timeline : Type := nat → database.
Definition later (n : nat) (tl : timeline) : timeline := λ i, tl (n + i)%nat.

(** Three reads: the view, its payload, the scope state. *)
Definition loadRecallRecord (ctx : Context) (scope : Scope) (revisionID : string) (activeOnly : bool) (tl : timeline) :
    result (option RecallRecord) :=
  found ← loadCanonicalView scope revisionID activeOnly (tl 0%nat);
  match found with
  | None => Ok None
  | Some view =>
      match LoadPayload ctx (rv_Payload (vw_revision view)) (tl 1%nat) with
      | Err err => if isCanonicalMissing err then Ok None else Err err
      | Ok text =>
          state ← Badger_LoadScopeState ctx scope (tl 2%nat);
          _ ← for_each (λ source, reject_if (negb (bool_decide (so_Scope source = scope)))
                (PermanentError CodeScopeViolation "canonical recall source scope does not match" None)) (vw_sourceRefs view);
          Ok (Some (recall_record scope view text (sst_ChangeSeq state)))
      end
  end.

(** The loop both reading operations share: hydrate in order, skip what is not found. *)
Fixpoint hydrate (ctx : Context) (scope : Scope) (ids : list string) (tl : timeline) : result (list RecallRecord) :=
  match ids with
  | [] => Ok []
  | id :: ids =>
      found ← loadRecallRecord ctx scope id true tl;
      rest ← hydrate ctx scope ids (later 3 tl);
      Ok (match found with Some record => record :: rest | None => rest end)
  end.

Definition Reader_CurrentScopeChangeSeq (ctx : Context) (tl : timeline) (scope : Scope) : result Z :=
  _ ← canonicalReaderContext ctx;
  state ← Badger_LoadScopeState ctx scope (tl 0%nat);
  Ok (sst_ChangeSeq state).

Definition Reader_LoadRecallRecords (ctx : Context) (tl : timeline) (scope : Scope) (revisionIDs : list string) :
    result (list RecallRecord) :=
  _ ← canonicalReaderContext ctx;
  _ ← CanonicalRevisionReadRequest_Validate (mkRevisionRead scope revisionIDs);
  hydrate ctx scope revisionIDs tl.

Definition Reader_SearchRecallTail (range : list (string * string) → list (string * string)) (ctx : Context) (tl : timeline)
    (request : RecallRequest) (limit : Z) : result (list RecallRecord) :=
  _ ← canonicalReaderContext ctx;
  request ← NormalizeRecallRequest range request;
  _ ← reject_if ((limit =? 0) || (MaxRecallCandidates <? limit))
        (PermanentError CodeLimitExceeded "canonical recall tail limit is invalid" None);
  active ← Badger_ScanActiveMemory ctx (mkActiveHeadScan (rc_Scope request) "" limit) (tl 0%nat) (tl 1%nat);
  hydrate ctx (rc_Scope request) (map am_RevisionID active) (later 2 tl).

(** The reader behind the recall service. *)
Definition badger_reader (range : list (string * string) → list (string * string)) (ctx : Context) :
    RecallCanonicalReader timeline :=
  {| LoadRecallRecords := Reader_LoadRecallRecords ctx;
     SearchRecallTail := Reader_SearchRecallTail range ctx;
     CurrentScopeChangeSeq := Reader_CurrentScopeChangeSeq ctx |}.
End reader.
