(* ===== verification/BadgerRecall.v ===== *)
(** * BadgerRecall: what the reader may show

    The recall service over the embedded store: what was forgotten is never recalled,
    and what is recalled is the current revision of its item with the payload it was
    committed with. *)

From Stdlib Require Import ZArith Lia Ascii String.
From stdpp Require Import base numbers list gmap strings relations.
From S2P Require Import Prelude.
From S2P Require Import GoStrings.
From S2P Require Import Sha256.
From S2P Require Import MemoryTypes.
From S2P Require Import MemoryRecords.
From S2P Require Import MemoryDerived.
From S2P Require Import MemoryCanonical.
From S2P Require Import MemoryReconciler.
From S2P Require Import MemoryProcessor.
From S2P Require Import MemoryForget.
From S2P Require Import MemoryRecall.
From S2P Require Import MemoryViews.
From S2P Require Import BadgerKeys.
From S2P Require Import BadgerTxn.
From S2P Require Import BadgerStore.
From S2P Require Import BadgerLedgers.
From S2P Require Import BadgerEntries.
From S2P Require Import LedgerSpec.
From S2P Require Import BadgerRefinement.
From S2P Require Import BadgerSteps.
From S2P Require Import BadgerPorts.
From S2P Require Import BadgerReader.

Local Open Scope string_scope.
Local Open Scope list_scope.
Local Open Scope Z_scope.

(** ** What a view rests on *)
Lemma refuse_denied_Ok {A} `{Stored A} txn scope ty id :
  refuse_denied (A := A) txn scope ty id = Ok tt → ¬ marked ty txn scope id.
Proof.
  unfold refuse_denied. intros (k & Hk & H1)%bind_Ok (k' & Hk' & [st Hst]).
  rewrite Hk in Hk'. apply Ok_inj in Hk' as <-. apply bind_Ok in H1 as (o & Ho & H1).
  apply optional_Ok in Ho. destruct o as [a|]; [done|]. cbn in Ho. rewrite Hst in Ho. discriminate Ho.
Qed.

Section reader.
  Context `{PayloadDecoder}.

(** An active view of a revision in a database. *)
Record viewed (scope : Scope) (id : string) (db : database) (v : canonicalRecallView) : Prop := {
  vd_revision : ∃ k, badgerSessionMemoryKey scope badgerRecordRevision id = Ok k ∧
    db !! k = Some (mkStored badgerRecordRevision (VRevision (vw_revision v)));
  vd_head : ∃ k, badgerSessionMemoryKey scope badgerRecordHead (rv_ItemID (vw_revision v)) = Ok k ∧
    db !! k = Some (mkStored badgerRecordHead (VHead (mkItemHead (rv_ItemID (vw_revision v)) (rv_RevisionID (vw_revision v)))));
  vd_item : mi_ItemID (vw_item v) = rv_ItemID (vw_revision v) ∧ mi_Scope (vw_item v) = scope;
  vd_allowed : ¬ marked badgerRecordDeniedRevision db scope (rv_RevisionID (vw_revision v));
  vd_sources : Forall (λ e, ¬ marked badgerRecordDeniedSource db scope (ev_SourceID e)) (rv_Evidence (vw_revision v)) }.

Lemma view_source_Ok scope txn seen rest e acc :
    view_source scope txn (seen, rest) e = Ok acc →
    (∀ id, id ∈ seen → ¬ marked badgerRecordDeniedSource txn scope id) →
    ev_SourceID e ∈ acc.1 ∧ (∀ id, id ∈ seen → id ∈ acc.1) ∧
    ∀ id, id ∈ acc.1 → ¬ marked badgerRecordDeniedSource txn scope id.
  Proof using.
    unfold view_source. destruct rest as [[refs ids] sessions]. case_bool_decide as Hin.
    { intros <-%Ok_inj Hseen. by split. }
    intros (Hd%refuse_denied_Ok & H1)%bind_unit Hseen. apply bind_Ok in H1 as (? & _ & H1). apply bind_Ok in H1 as (? & _ & H1).
    apply bind_unit in H1 as [_ H1]. apply bind_Ok in H1 as (? & _ & H1). apply bind_Ok in H1 as (? & _ & H1).
    apply reject_bind in H1 as (_ & <-%Ok_inj). cbn [fst]. split; [apply list_elem_of_here|]. split.
    - intros id Hid. by apply list_elem_of_further.
    - intros id [->|Hid]%elem_of_cons; [exact Hd | by apply Hseen].
  Qed.

Lemma view_sources_Ok scope txn evidence seen rest acc :
    for_fold (view_source scope txn) (seen, rest) evidence = Ok acc →
    (∀ id, id ∈ seen → ¬ marked badgerRecordDeniedSource txn scope id) →
    Forall (λ e, ¬ marked badgerRecordDeniedSource txn scope (ev_SourceID e)) evidence.
  Proof using.
    revert seen rest. induction evidence as [|e evidence IH]; intros seen rest; cbn [for_fold]; [constructor|].
    intros ([seen' rest'] & He & Hrest)%bind_Ok Hseen. apply view_source_Ok in He as (Hin & _ & Hall); [|exact Hseen].
    constructor; [by apply Hall | by apply (IH seen' rest')].
  Qed.

Lemma load_view_Ok scope id db v : load_view scope id true db = Ok v → viewed scope id db v ∧ MemoryRevision_Validate (vw_revision v) = Ok tt.
  Proof using.
    unfold load_view. intros (rk & Hrk & H1)%bind_Ok. apply bind_Ok in H1 as (rv & Hrv%get_record_Ok & H1).
    apply bind_unit in H1 as [Hval H1]. apply bind_Ok in H1 as (ik & _ & H1). apply bind_Ok in H1 as (item & _ & H1).
    apply bind_unit in H1 as [Hitem H1]. apply bind_Ok in H1 as (hk & Hhk & H1). apply bind_Ok in H1 as (head & Hhead%get_record_Ok & H1).
    apply bind_unit in H1 as [Hh H1]. cbv zeta in H1. apply reject_bind in H1 as (Hcur & H1).
    rewrite andb_true_r in Hcur. apply negb_false_iff, bool_decide_eq_true in Hcur.
    apply bind_unit in H1 as [Hd%refuse_denied_Ok H1]. apply bind_Ok in H1 as ([seen [[refs ids] sessions]] & Hs & H1).
    cbn [snd] in H1. apply Ok_inj in H1 as <-. unfold reject_with_cause in Hitem, Hh.
    destruct (MemoryItem_Validate item) as [[]|]; [|done]. destruct (ItemHead_Validate head) as [[]|]; [|done].
    rewrite reject_if_Ok, orb_false_iff, !negb_false_iff, !bool_decide_eq_true in Hitem.
    rewrite reject_if_Ok, negb_false_iff, bool_decide_eq_true in Hh. destruct Hitem as [Hscope Hid].
    assert (Hv : MemoryRevision_Validate rv = Ok tt) by (by destruct (MemoryRevision_Validate rv) as [[]|]).
    split; [|exact Hv]. split; cbn [vw_revision vw_item].
    - by exists rk.
    - exists hk. rewrite Hid in Hhk, Hh. split; [exact Hhk|]. rewrite Hhead. destruct head as [hi hr]. cbn in Hh, Hcur |- *. by subst.
    - by split.
    - exact Hd.
    - apply (view_sources_Ok scope db (rv_Evidence rv) [] ([], [], []) _ Hs). intros ? Hn. by apply elem_of_nil in Hn.
  Qed.

(** A recall record comes from one view, its payload and a state. *)
Lemma loadRecallRecord_Some ctx scope id tl r :
    loadRecallRecord ctx scope id true tl = Ok (Some r) →
    ∃ view text state, load_view scope id true (tl 0%nat) = Ok view ∧
      LoadPayload ctx (rv_Payload (vw_revision view)) (tl 1%nat) = Ok text ∧
      Badger_LoadScopeState ctx scope (tl 2%nat) = Ok state ∧ r = recall_record scope view text (sst_ChangeSeq state).
  Proof using.
    unfold loadRecallRecord. intros (found & Hf & H1)%bind_Ok. destruct found as [view|]; [|done].
    unfold loadCanonicalView in Hf. apply bind_unit in Hf as [_ Hf]. apply reject_bind in Hf as (_ & Hf).
    destruct (load_view scope id true (tl 0%nat)) as [v|err] eqn:Hv; [apply Ok_inj in Hf; injection Hf as <- | by destruct (_ || _ || _)].
    destruct (LoadPayload ctx (rv_Payload (vw_revision v)) (tl 1%nat)) as [text|err] eqn:Hp; [|by destruct (isCanonicalMissing err)].
    apply bind_Ok in H1 as (state & Hs & H1). apply bind_unit in H1 as [_ H1]. apply Ok_inj in H1. injection H1 as <-.
    by exists v, text, state.
  Qed.

Lemma hydrate_record ctx scope ids tl rs r :
    hydrate ctx scope ids tl = Ok rs → r ∈ rs →
    ∃ n id, id ∈ ids ∧ loadRecallRecord ctx scope id true (later n tl) = Ok (Some r).
  Proof using.
    revert tl rs. induction ids as [|id ids IH]; intros tl rs; cbn [hydrate].
    { intros <-%Ok_inj Hr. by apply elem_of_nil in Hr. }
    intros (found & Hf & H1)%bind_Ok Hr. apply bind_Ok in H1 as (rest & Hrest & <-%Ok_inj).
    assert (Hcase : found = Some r ∨ r ∈ rest).
    { destruct found as [x|]; [|by right]. apply elem_of_cons in Hr as [<-|?]; [by left|by right]. }
    destruct Hcase as [-> | Hin].
    - exists 0%nat, id. split; [apply list_elem_of_here | exact Hf].
    - destruct (IH _ _ Hrest Hin) as (n & id' & Hid & Hl). exists (3 + n)%nat, id'. split; [by apply list_elem_of_further|].
      exact Hl.
  Qed.

(** Whatever a search hydrates was viewed at some moment of its timeline. *)
Lemma searched_record range ctx request tl limit ids rs r :
    SearchRecallTail (RecallCanonicalReader := badger_reader range ctx) tl request limit = Ok rs ∨
      LoadRecallRecords (RecallCanonicalReader := badger_reader range ctx) tl (rc_Scope request) ids = Ok rs →
    r ∈ rs → ∃ n id view text state, load_view (rc_Scope request) id true (tl n) = Ok view ∧
      LoadPayload ctx (rv_Payload (vw_revision view)) (tl (S n)) = Ok text ∧
      r = recall_record (rc_Scope request) view text state.
  Proof using.
    assert (Hfrom : ∀ scope ids' m, hydrate ctx scope ids' (later m tl) = Ok rs → r ∈ rs →
      ∃ n id view text state, load_view scope id true (tl n) = Ok view ∧
      LoadPayload ctx (rv_Payload (vw_revision view)) (tl (S n)) = Ok text ∧ r = recall_record scope view text state).
    { intros scope ids' m Hh Hr. destruct (hydrate_record _ _ _ _ _ _ Hh Hr) as (n & id & _ & Hl).
      apply loadRecallRecord_Some in Hl as (view & text & state & Hv & Hp & _ & ->).
      exists (m + n)%nat, id, view, text, (sst_ChangeSeq state). unfold later in Hv, Hp.
      rewrite Nat.add_0_r in Hv. split; [exact Hv|]. split; [|done]. rewrite <-Hp. f_equal. f_equal. lia. }
    intros [Hs|Hl] Hr; cbn [SearchRecallTail LoadRecallRecords badger_reader] in *.
    - unfold Reader_SearchRecallTail in Hs. apply bind_unit in Hs as [_ Hs]. apply bind_Ok in Hs as (q & Hq & Hs).
      apply reject_bind in Hs as (_ & Hs). apply bind_Ok in Hs as (active & _ & Hs).
      unfold NormalizeRecallRequest in Hq. cbv zeta in Hq. apply bind_unit in Hq as [_ <-%Ok_inj]. by apply (Hfrom _ _ _ Hs).
    - unfold Reader_LoadRecallRecords in Hl. apply bind_unit in Hl as [_ Hl]. apply bind_unit in Hl as [_ Hl].
      by apply (Hfrom _ _ 0%nat Hl).
  Qed.
End reader.

(** ** Forgetting and recall *)
Lemma timeline_steps db (tl : timeline) n :
  rtc store_step db (tl 0%nat) → (∀ i, rtc store_step (tl i) (tl (S i))) → rtc store_step db (tl n).
Proof. intros H0 Hs. induction n as [|n IH]; [exact H0|]. etrans; [exact IH | apply Hs]. Qed.

Lemma load_payload_Ok ctx ref db text :
  LoadPayload ctx ref db = Ok text → len text = pr_ByteSize ref ∧ sha256_hex text = pr_Digest ref.
Proof.
  unfold LoadPayload. intros (_ & H)%bind_unit. apply bind_unit in H as [_ H]. apply bind_Ok in H as (k & _ & H).
  apply bind_Ok in H as (data & _ & H). apply reject_bind in H as (Hval%negb_false_iff & <-%Ok_inj).
  unfold isBadgerPayloadValid in Hval. rewrite !andb_true_iff, Z.eqb_eq, bool_decide_eq_true in Hval. tauto.
Qed.

Lemma LoadPayload_missing ref db key :
  PayloadRef_Validate ref = Ok tt → payload_key (pr_ID ref) = Ok key → db !! key = None →
  LoadPayload (Some None) ref db = Err (RetryableError CodeStoreFailure "load payload" (Some badger_ErrKeyNotFound)).
Proof.
  intros Hr Hk Hnone. unfold LoadPayload. cbn [sessionMemoryContextError]. rewrite bind_ok, Hr, bind_ok, Hk, bind_ok.
  unfold View, getBadgerSessionMemoryRecord. by rewrite Hnone.
Qed.

Section recall.
  Context `{PayloadDecoder}.

(** Each result of a search shows a view of its own moment. *)
Lemma search_views range rctx ctx projection request now loaded tl rp :
    Search (Some (mkRecallService (Some (badger_reader range rctx)) projection)) range ctx request now loaded tl = Ok rp →
    Forall (λ f, ∃ n id view text state s, load_view (rc_Scope request) id true (tl n) = Ok view ∧
      LoadPayload rctx (rv_Payload (vw_revision view)) (tl (S n)) = Ok text ∧
      f = recallReference (recall_record (rc_Scope request) view text state) s) (rp_Results rp).
  Proof using.
    intros (canonical & projection' & request' & records & Hs & Hreq & _ & _ & Hrec & _ & _ & Hall)%search_answers.
    injection Hs as <- _. unfold NormalizeRecallRequest in Hreq. cbv zeta in Hreq. apply bind_unit in Hreq as [_ Hreq%Ok_inj].
    assert (Hscope : rc_Scope request' = rc_Scope request) by (by rewrite <-Hreq).
    eapply Forall_impl; [exact Hall|]. intros f (r & s & Hr & _ & ->).
    assert (Hsr : ∃ limit ids,
      SearchRecallTail (RecallCanonicalReader := badger_reader range rctx) tl request' limit = Ok records ∨
      LoadRecallRecords (RecallCanonicalReader := badger_reader range rctx) tl (rc_Scope request') ids = Ok records).
    { destruct Hrec as [->|[Hrec|[ids Hrec]]]; [by apply elem_of_nil in Hr| |].
      - exists (recallTailLimit (rc_Limit request')), []. by left.
      - exists 0, ids. by right. }
    destruct Hsr as (limit & ids & Hsr).
    destruct (searched_record range rctx request' tl limit ids records r Hsr Hr) as (n & id & view & text & state & Hv & Hp & ->).
    rewrite Hscope in *. by exists n, id, view, text, state, (RankRecall s (rec_CreatedAt (recall_record (rc_Scope request) view text state)) now).
  Qed.

(** C20. What was forgotten is never recalled: once a denial step over the embedded store
    succeeded, every later recall of the scope, through any projection and with any
    writes between its reads, returns neither a revision the step denied nor a
    record that rests on the denied source. *)
Theorem forgotten_is_never_recalled fault fctx forget db db1 res range rctx ctx projection request now loaded tl rp :
    store_reachable db →
    @DenyCanonicalSourceBatch database (badger_forget_store fault fctx) forget db = (db1, Ok res) →
    rtc store_step db1 (tl 0%nat) → (∀ i, rtc store_step (tl i) (tl (S i))) → rc_Scope request = fb_Scope forget →
    Search (Some (mkRecallService (Some (badger_reader range rctx)) projection)) range ctx request now loaded tl = Ok rp →
    Forall (λ f, rf_RevisionID f ∉ fbr_RevisionIDs res ∧ Forall (λ e, ev_SourceID e ≠ fb_SourceID forget) (rf_Evidence f))
      (rp_Results rp).
  Proof using.
    intros Hreach Hrun Htl0 Htl Hscope Hsearch.
    pose proof (@forget_batch_denies database (badger_forget_store fault fctx) (badger_forget_laws fault fctx) forget db)
      as [_ Hd]. rewrite Hrun in Hd. cbn [fst snd] in Hd. destruct (Hd res eq_refl) as (Hsource & _ & Hrevs & _).
    pose proof (forget_batch_steps fault fctx forget db) as H1. rewrite Hrun in H1. cbn [fst] in H1.
    assert (Hreach1 : store_reachable db1) by (unfold store_reachable in *; etrans; [exact Hreach|exact H1]).
    apply search_views in Hsearch. eapply Forall_impl; [exact Hsearch|].
    intros f (n & id & view & text & state & s & [Hv _]%load_view_Ok & _ & ->). rewrite Hscope in Hv.
    pose proof (timeline_steps db1 tl n Htl0 Htl) as Hsteps. destruct Hv as [_ _ _ Hallowed Hsources].
    cbn [recallReference recall_record rf_RevisionID rf_Evidence rec_RevisionID rec_Evidence]. split.
    - intros Hin. apply Hallowed. rewrite Forall_forall in Hrevs. destruct (Hrevs _ Hin) as [_ Hm].
      by apply (marked_stays _ db1 (tl n)).
    - apply Forall_take. eapply Forall_impl; [exact Hsources|]. intros e He E. apply He. rewrite E.
      by apply (marked_stays _ db1 (tl n)).
  Qed.

(** C27. Recall shows the current state of the ledger: each result of a search is, at some
    moment of the search, the current revision of its item in the scope's ledger,
    rests on the evidence of that revision, and its text comes from bytes whose
    length and SHA-256 are those the revision was committed with. *)
Theorem recall_is_current range rctx ctx projection request now loaded tl rp :
    (∀ i, store_reachable (tl i)) →
    Search (Some (mkRecallService (Some (badger_reader range rctx)) projection)) range ctx request now loaded tl = Ok rp →
    Forall (λ f, ∃ n L rv payload, ledger_ok L ∧ represents (tl n) (rc_Scope request) L ∧
      lg_Heads L !! rf_ItemID f = Some (mkItemHead (rf_ItemID f) (rf_RevisionID f)) ∧
      lg_Revisions L !! rf_RevisionID f = Some rv ∧ rv_ItemID rv = rf_ItemID f ∧ rv_Revision rv = rf_Revision f ∧
      rf_Evidence f = take (Z.to_nat MaxRecallEvidence) (rv_Evidence rv) ∧
      len payload = pr_ByteSize (rv_Payload rv) ∧ sha256_hex payload = pr_Digest (rv_Payload rv) ∧
      rf_Text f = match canonicalCompatibilityPayload payload (rc_Scope request) with
                  | Some c => cy_Text c | None => payload end) (rp_Results rp).
  Proof using.
    intros Hreach Hsearch%search_views. eapply Forall_impl; [exact Hsearch|].
    intros f (n & id & view & text & state & s & [Hv _]%load_view_Ok & Hp & ->).
    destruct (reachable_ledgers (tl n) (Hreach n)) as [A HA]. destruct (HA (rc_Scope request)) as [HL Hrep].
    pose proof (reachable_ok _ HL) as Hok. destruct Hv as [(rk & Hrk & Hrev) (hk & Hhk & Hhead) [Hitem _] _ _].
    rewrite (table_row _ _ _ _ _ _ (rep_revisions _ _ _ Hrep) Hrk) in Hrev.
    rewrite (table_row _ _ _ _ _ _ (rep_heads _ _ _ Hrep) Hhk) in Hhead.
    apply fmap_Some in Hrev as (rv & Hrv & Erv). injection Erv as Erv. subst rv.
    apply fmap_Some in Hhead as (hd & Hhd & Ehd). injection Ehd as Ehd. subst hd.
    destruct (ok_revisions _ Hok _ _ Hrv) as (Hid & _). rewrite <-Hid in Hrv.
    apply load_payload_Ok in Hp as (Hlen & Hsha).
    exists n, (A (rc_Scope request)), (vw_revision view), text.
    cbn [recallReference recall_record rf_RevisionID rf_ItemID rf_Revision rf_Evidence rf_Text rec_RevisionID rec_ItemID
      rec_Revision rec_Evidence rec_Text]. rewrite Hitem.
    do 9 (split; [done|]). by destruct (canonicalCompatibilityPayload text (rc_Scope request)).
  Qed.

(** A payload that is gone fails the recall: when the view of a revision is active but
    its payload record is missing at the next read, the record is not skipped; the
    read reports a retryable store failure. *)
Theorem missing_payload_fails_recall scope id tl view key :
    load_view scope id true (tl 0%nat) = Ok view → Scope_Validate scope = Ok tt → blank id = false →
    payload_key (pr_ID (rv_Payload (vw_revision view))) = Ok key → tl 1%nat !! key = None →
    ∃ cause, loadRecallRecord (Some None) scope id true tl = Err (RetryableError CodeStoreFailure "load payload" (Some cause)).
  Proof using.
    intros Hv Hs Hid Hk Hnone. destruct (load_view_Ok _ _ _ _ Hv) as [_ Hrv].
    unfold loadRecallRecord, loadCanonicalView. rewrite Hs, bind_ok, Hid, reject_false, Hv, bind_ok.
    unfold MemoryRevision_Validate in Hrv. rewrite !bind_unit in Hrv.
    destruct Hrv as (_ & _ & _ & _ & _ & _ & _ & Hpay).
    rewrite (LoadPayload_missing _ _ key Hpay Hk Hnone). by eexists.
  Qed.
End recall.

(** ** Witnesses *)
#[local] Instance demo_decoder : PayloadDecoder :=
  {| unmarshal_compatibility _ := None; unmarshal_source _ := None; unmarshal_turn _ := None |}.

(** A store with the memory of one turn. *)
Definition demo_memory_mutation : CanonicalMutation := Eval vm_compute in
  ok_or demo_mutation (@prepare database demo_badger demo_extract demo_policy (Some None) demo_turn demo_derivation ∅ ∅).
Definition demo_memory_db : database := (Badger_ApplyCanonicalMutation None (Some None) demo_memory_mutation ∅).1.
Lemma demo_memory_reachable : store_reachable demo_memory_db.
Proof. apply rtc_once. eapply (st_apply _ _ None (Some None) demo_memory_mutation). apply surjective_pairing. Qed.

Definition demo_recall_request : RecallRequest :=
  mkRecallRequest "" demo_scope "oslo" 5 None None None "" "" "" 1.
Definition demo_reader : RecallCanonicalReader timeline := badger_reader id (Some None).
Definition demo_recall (db : database) : result RecallResponse :=
  Search (Some (mkRecallService (Some demo_reader) None)) id (Some None) demo_recall_request 2000000000 (λ _, db) (λ _, db).
Definition demo_no_answer : RecallResponse := mkRecallResponse "" "" demo_scope 0 [].

Example demo_recall_text : map rf_Text (rp_Results (ok_or demo_no_answer (demo_recall demo_memory_db))) = ["lives in Oslo"].
Proof. vm_compute. reflexivity. Qed.

Definition demo_forgot_run : database * result CanonicalSourceForgetBatchResult :=
  @DenyCanonicalSourceBatch database (badger_forget_store (λ _ _, None) (Some None)) demo_batch demo_memory_db.
Definition demo_answer : RecallResponse := ok_or demo_no_answer (demo_recall demo_forgot_run.1).

(** Forgetting another source leaves the memory; forgetting its own removes it. *)
Lemma forgotten_is_never_recalled_witness :
  length (rp_Results demo_answer) = 1%nat ∧
  Forall (λ f, rf_RevisionID f ∉ fbr_RevisionIDs (ok_or (mkForgetBatchResult [] "") demo_forgot_run.2) ∧
    Forall (λ e, ev_SourceID e ≠ "src") (rf_Evidence f)) (rp_Results demo_answer).
Proof.
  split; [vm_compute; reflexivity|].
  refine (forgotten_is_never_recalled (λ _ _, None) (Some None) demo_batch demo_memory_db demo_forgot_run.1 _ id (Some None)
    (Some None) None demo_recall_request 2000000000 (λ _, demo_forgot_run.1) (λ _, demo_forgot_run.1) _
    demo_memory_reachable _ (rtc_refl _ _) (λ i, rtc_refl _ _) _ _).
  - rewrite <-is_ok_run by (vm_compute; reflexivity). apply surjective_pairing.
  - reflexivity.
  - apply is_ok_run. vm_compute. reflexivity.
Defined.

Example demo_own_source_forgotten :
  rp_Results (ok_or demo_no_answer (demo_recall
    (@DenyCanonicalSourceBatch database (badger_forget_store (λ _ _, None) (Some None))
      (mkForgetBatch demo_scope (tn_SourceID demo_turn) "" 10 1000) demo_memory_db).1)) = [].
Proof. vm_compute. reflexivity. Qed.

Definition demo_recalled : RecallResponse := ok_or demo_no_answer (demo_recall demo_memory_db).

Lemma recall_is_current_witness :
  Forall (λ f, ∃ L, represents demo_memory_db demo_scope L ∧ is_Some (lg_Revisions L !! rf_RevisionID f))
    (rp_Results demo_recalled).
Proof.
  eapply Forall_impl.
  - refine (recall_is_current id (Some None) (Some None) None demo_recall_request 2000000000 (λ _, demo_memory_db)
      (λ _, demo_memory_db) demo_recalled (λ _, demo_memory_reachable) _).
    apply is_ok_run. vm_compute. reflexivity.
  - cbv beta. intros f (n & L & rv & payload & _ & Hrep & _ & Hrv & _). exists L. split; [exact Hrep | by exists rv].
Defined.

(** The revision's payload is deleted between the two reads. *)
Definition demo_no_revision : MemoryRevision :=
  mkMemoryRevision "" "" "" 0 [] demo_temporal [] "" "" (mkPayloadRef "" "" 0).
Definition demo_revision : MemoryRevision := hd demo_no_revision (cm_Revisions demo_memory_mutation).
Definition demo_payload_key : string := ok_or "" (payload_key (pr_ID (rv_Payload demo_revision))).
Definition demo_lost_payload : timeline := λ i, if (i =? 0)%nat then demo_memory_db else delete demo_payload_key demo_memory_db.
Definition demo_view : canonicalRecallView :=
  ok_or (mkView (mkMemoryItem "" demo_scope "" "") demo_no_revision "" [] [] [])
    (load_view demo_scope (rv_RevisionID demo_revision) true demo_memory_db).

Lemma missing_payload_fails_recall_witness :
  is_ok (loadRecallRecord (Some None) demo_scope (rv_RevisionID demo_revision) true demo_lost_payload) = false.
Proof.
  destruct (missing_payload_fails_recall demo_scope (rv_RevisionID demo_revision) demo_lost_payload demo_view demo_payload_key) as [cause E].
  - unfold demo_lost_payload. cbn [Nat.eqb]. apply is_ok_run. vm_compute. reflexivity.
  - vm_compute. reflexivity.
  - vm_compute. reflexivity.
  - vm_compute. reflexivity.
  - unfold demo_lost_payload. cbn. apply lookup_delete_eq.
  - rewrite E. reflexivity.
Defined.
