(* ===== verification/BadgerHeads.v ===== *)
(** * BadgerHeads: bounded pages of active heads

    ScanActiveHeads of src/sessionmemory/store/badger against the ledger.  The keys
    of a record type with one identity frame that identity with its length, so a scan
    visits records by length and then by bytes, while the paging cursor compares
    identities by bytes alone.  Pages are complete among identities of one length,
    and skip records otherwise. *)

From Stdlib Require Import ZArith Lia Ascii String.
From stdpp Require Import base numbers list gmap strings sorting.
From S2P Require Import Prelude.
From S2P Require Import GoStrings.
From S2P Require Import Sha256.
From S2P Require Import MemoryTypes.
From S2P Require Import MemoryRecords.
From S2P Require Import MemoryDerived.
From S2P Require Import MemoryCanonical.
From S2P Require Import MemoryReconciler.
From S2P Require Import MemoryProcessor.
From S2P Require Import MemoryRecall.
From S2P Require Import BadgerKeys.
From S2P Require Import BadgerTxn.
From S2P Require Import BadgerStore.
From S2P Require Import BadgerEntries.
From S2P Require Import LedgerSpec.
From S2P Require Import BadgerRefinement.
From S2P Require Import BadgerSteps.
From S2P Require Import BadgerScan.
From S2P Require Import BadgerPorts.

Local Open Scope string_scope.
Local Open Scope list_scope.
Local Open Scope Z_scope.

(** ** The order of framed identities *)
(** Between prefixes of one length the prefixes decide, unless they are equal. *)
Lemma string_leb_prefixes p q s t :
  String.length p = String.length q →
  string_leb (p +:+ s) (q +:+ t) = if bool_decide (p = q) then string_leb s t else string_leb p q.
Proof.
  revert q. induction p as [|c p IH]; intros [|d q]; try discriminate.
  { intros _. rewrite bool_decide_true by done. reflexivity. }
  intros [= Hlen]. rewrite !append_cons. destruct (decide (c = d)) as [->|Hne].
  - rewrite !string_leb_cons, (IH q Hlen). destruct (decide (p = q)) as [->|Hpq].
    + by rewrite !bool_decide_true.
    + rewrite !bool_decide_false; [done|congruence|done].
  - rewrite !string_leb_head by done. rewrite bool_decide_false by congruence. reflexivity.
Qed.

(** By length first, then by bytes. *)
Lemma framed_leb a b :
  len a ≤ 65535 → len b ≤ 65535 →
  string_leb (framed 2 a) (framed 2 b) = (len a <? len b) || ((len a =? len b) && string_leb a b).
Proof.
  intros Ha Hb. pose proof (len_nonneg a) as Na. pose proof (len_nonneg b) as Nb. unfold framed.
  rewrite string_leb_prefixes by (by rewrite !length_be_bytes).
  destruct (Z.eqb_spec (len a) (len b)) as [E|E].
  - rewrite E, bool_decide_true, Z.ltb_irrefl by done. reflexivity.
  - rewrite bool_decide_false by (intros H%be_bytes_inj; [done|cbn; lia|cbn; lia]).
    rewrite be_bytes_leb by (cbn; lia). rewrite andb_false_l, orb_false_r. apply eq_true_iff_eq.
    rewrite Z.leb_le, Z.ltb_lt. lia.
Qed.

Lemma StronglySorted_change {A} (R R' : relation A) l :
  StronglySorted R l → (∀ x y, x ∈ l → y ∈ l → R x y → R' x y) → StronglySorted R' l.
Proof.
  induction 1 as [|x l _ IH Hx]; intros HR; [constructor|]. constructor.
  - apply IH. intros y z Hy Hz. apply HR; by apply list_elem_of_further.
  - rewrite Forall_forall in Hx |- *. intros y Hy. apply HR; [apply list_elem_of_here|by apply list_elem_of_further|by apply Hx].
Qed.

(** ** Scanning a table *)
Section table_scan.
  Context {A : Type} `{Stored A} (db : database) (s : Scope) (ty prefix : string) (t : gmap string A) (id_of : A → string).
  Context (Honly : only_records db) (Ht : table db s ty t) (Hty : ty ≠ badgerRecordChange) (Hone : id_count ty = 1%nat).
  Context (Hids : ∀ id a, t !! id = Some a → id_of a = id) (Hprefix : badgerSessionMemoryPrefix s ty = Ok prefix).

Definition id_le (a b : A) : Prop := string_leb (framed 2 (id_of a)) (framed 2 (id_of b)) = true.
#[export] Instance id_le_dec a b : Decision (id_le a b).
  Proof. unfold id_le. apply _. Defined.
#[export] Instance id_le_trans : Transitive id_le.
  Proof using. intros a b c. unfold id_le. apply string_leb_trans. Qed.
#[export] Instance id_le_total : Total id_le.
  Proof using. intros a b. apply string_leb_total. Qed.

(** The rows in the order of their keys, and those from a framed identity on. *)
Definition rows : list A := merge_sort id_le (map snd (map_to_list t)).
Definition rows_from (start : string) : list A := filter (λ a, string_leb start (framed 2 (id_of a)) = true) rows.
Definition row_entry (a : A) : string * stored := (prefix +:+ framed 2 (id_of a), mkStored ty (inject a)).

Lemma elem_of_rows a : a ∈ rows ↔ t !! id_of a = Some a.
  Proof using Hids.
    unfold rows. rewrite merge_sort_Permutation, list_elem_of_fmap. split.
    - intros ([id b] & -> & Hin%elem_of_map_to_list). cbn [snd]. by rewrite (Hids _ _ Hin).
    - intros Ha. exists (id_of a, a). split; [done|]. by apply elem_of_map_to_list.
  Qed.

Lemma key_of id : isCanonicalID id = true → len id ≤ 65535 → badgerSessionMemoryKey s ty id = Ok (prefix +:+ framed 2 id).
  Proof using Hprefix.
    intros Hid Hlen. unfold badgerSessionMemoryPrefix, badgerSessionMemoryKey in *.
    apply scoped_key_Ok in Hprefix as (Hs & Hall & ->). apply scoped_key_Ok.
    split; [exact Hs|]. rewrite !Forall_cons in Hall |- *. destruct Hall as (H1 & H2 & H3 & _).
    split; [do 3 (split; [done|]); by apply Forall_singleton|]. cbn [framed_all]. rewrite !append_cons, !append_assoc, append_nil_r.
    reflexivity.
  Qed.

Lemma row_id a : a ∈ rows → isCanonicalID (id_of a) = true ∧ len (id_of a) ≤ 65535.
  Proof using Ht Hids.
    intros Ha%elem_of_rows. destruct (proj2 Ht (id_of a)) as [k Hk]; [by exists a|].
    unfold badgerSessionMemoryKey in Hk. apply scoped_key_Ok in Hk as (_ & Hall & _). rewrite !Forall_cons in Hall. tauto.
  Qed.

Lemma row_stored a : a ∈ rows → db !! (row_entry a).1 = Some (row_entry a).2.
  Proof using Ht Hids Hprefix.
    intros Ha. destruct (row_id a Ha) as [Hc Hl]. unfold row_entry. cbn [fst snd].
    rewrite (table_row _ _ _ _ _ _ Ht (key_of _ Hc Hl)). by rewrite (proj1 (elem_of_rows a) Ha).
  Qed.

Lemma scanned_row k st : db !! k = Some st → HasPrefix k prefix = true → ∃ a, a ∈ rows ∧ (k, st) = row_entry a.
  Proof using Honly Ht Hty Hone Hids Hprefix.
    intros Hk (r & ->)%HasPrefix_inv. pose proof Hprefix as Hp. unfold badgerSessionMemoryPrefix in Hp.
    destruct (Honly _ _ Hk) as [_ [(_ & s' & ids & Hn & Hkey)|(_ & s' & n & _ & Hkey)]].
    - destruct (scoped_key_prefix _ _ _ _ _ _ _ _ r Hp Hkey eq_refl) as (-> & E & es & -> & ->).
      cbn [app] in Hn, Hkey. rewrite E, Hone in Hn. rewrite E in Hkey. destruct es as [|id [|? ?]]; try discriminate Hn.
      cbn [framed_all] in *. rewrite append_nil_r in *.
      rewrite (table_row _ _ _ _ _ _ Ht Hkey) in Hk. apply fmap_Some in Hk as (a & Ha & ->).
      exists a. pose proof (Hids _ _ Ha) as Hid. subst id. split; [by apply elem_of_rows|]. reflexivity.
    - exfalso. apply badgerScopeChangeKey_Ok in Hkey as (p' & Hp' & Heq). unfold badgerScopeChangePrefix in Hp'.
      apply scoped_key_Ok in Hp as (_ & H1 & E1), Hp' as (_ & H2 & E2). rewrite E1, E2, !append_cons in Heq.
      apply String_tail, String_tail in Heq. cbn [framed_all] in Heq. rewrite !append_assoc in Heq.
      rewrite !Forall_cons in H1, H2. apply framed_inj in Heq as [E _]; [done|unfold fits; cbn; lia|unfold fits; cbn; lia].
  Qed.

Lemma scan_rows start : scan db prefix (prefix +:+ start) = map row_entry (rows_from start).
  Proof using Honly Ht Hty Hone Hids Hprefix.
    assert (Hrows : StronglySorted id_le (rows_from start)).
    { apply StronglySorted_filter. apply (StronglySorted_merge_sort id_le); apply _. }
    assert (Hnd : NoDup (rows_from start)).
    { apply NoDup_filter. unfold rows. rewrite merge_sort_Permutation. apply NoDup_fmap_2_strong; [|apply NoDup_map_to_list].
      intros [i a] [j b] Hi%elem_of_map_to_list Hj%elem_of_map_to_list E. cbn in E. subst b.
      by rewrite <-(Hids _ _ Hi), (Hids _ _ Hj). }
    apply scan_is.
    - clear Hnd. induction Hrows as [|a l _ IH Hall]; [constructor|]. constructor; [exact IH|].
      apply Forall_map. eapply Forall_impl; [exact Hall|]. intros b Hab. unfold key_le, row_entry. cbn [fst].
      by rewrite string_leb_append.
    - apply NoDup_fmap_2_strong; [|exact Hnd]. intros a b [_ Ha]%list_elem_of_filter [_ Hb]%list_elem_of_filter E.
      apply elem_of_rows in Ha, Hb. apply (f_equal fst) in E. unfold row_entry in E. cbn [fst] in E.
      apply append_inj_l in E. assert (Hrow : ∀ c, t !! id_of c = Some c → c ∈ rows) by (intros c; apply elem_of_rows).
      pose proof (row_id a (Hrow a Ha)) as [_ La]. pose proof (row_id b (Hrow b Hb)) as [_ Lb].
      assert (E' : framed 2 (id_of a) +:+ "" = framed 2 (id_of b) +:+ "") by (by rewrite !append_nil_r).
      apply framed_inj in E' as [E' _]; [congruence|unfold fits; cbn; lia|unfold fits; cbn; lia].
    - intros k st. rewrite elem_of_scan, list_elem_of_fmap. split.
      + intros (a & E & [Hle Ha]%list_elem_of_filter). pose proof (row_stored a Ha) as Hs. rewrite <-E in Hs.
        split; [exact Hs|]. injection E as -> _. split; [apply HasPrefix_append|]. by rewrite string_leb_append.
      + intros (Hk & Hpre & Hle). destruct (scanned_row k st Hk Hpre) as (a & Ha & E). exists a. split; [exact E|].
        apply list_elem_of_filter. split; [|exact Ha]. injection E as -> _. by rewrite string_leb_append in Hle.
  Qed.
End table_scan.

(** ** Pages of active heads *)
Definition heads (L : Ledger) : list ItemHead := rows (lg_Heads L) ih_ItemID.

(** The heads the cursor admits. *)
Definition after_item (after : string) (h : ItemHead) : Prop :=
  after = "" ∨ (string_leb (framed 2 after) (framed 2 (ih_ItemID h)) = true ∧ string_leb (ih_ItemID h) after = false).
#[export] Instance after_item_dec after h : Decision (after_item after h).
Proof. unfold after_item. apply _. Defined.

Definition head_page (L : Ledger) (after : string) (limit : Z) : list ItemHead :=
  take (Z.to_nat limit) (filter (after_item after) (heads L)).

Lemma head_ids L id h : ledger_ok L → lg_Heads L !! id = Some h → ih_ItemID h = id.
Proof. intros Hok Hh. by apply (ok_heads L Hok). Qed.

Lemma elem_of_heads L h : ledger_ok L → h ∈ heads L ↔ lg_Heads L !! ih_ItemID h = Some h.
Proof. intros Hok. apply elem_of_rows. intros id a. by apply head_ids. Qed.

Lemma head_valid db s L h : ledger_ok L → represents db s L → h ∈ heads L → ItemHead_Validate h = Ok tt ∧ len (ih_ItemID h) ≤ 65535.
Proof.
  intros Hok Hrep Hin. pose proof (row_id db s badgerRecordHead (lg_Heads L) ih_ItemID (rep_heads _ _ _ Hrep)
    (λ id a, head_ids L id a Hok) h Hin) as [Hid Hlen]. split; [|exact Hlen].
  apply (elem_of_heads L h Hok) in Hin. destruct (ok_heads L Hok _ _ Hin) as [_ Hrev].
  destruct (proj2 (rep_revisions _ _ _ Hrep) _ Hrev) as [k Hk]. unfold badgerSessionMemoryKey in Hk.
  apply scoped_key_Ok in Hk as (_ & Hall & _). rewrite !Forall_cons in Hall. destruct Hall as (_ & _ & _ & [Hr _] & _).
  unfold ItemHead_Validate. apply reject_if_Ok. by rewrite Hid, Hr.
Qed.

Definition admitted (after : string) (kv : string * stored) : option ItemHead :=
  match st_Value kv.2 with VHead h => if decide (after_item after h) then Some h else None | _ => None end.

Lemma omap_admitted after prefix start l :
  (∀ h, h ∈ l → after_item after h → string_leb start (framed 2 (ih_ItemID h)) = true) →
  omap (admitted after) (map (row_entry badgerRecordHead prefix ih_ItemID)
    (filter (λ h, string_leb start (framed 2 (ih_ItemID h)) = true) l)) = filter (after_item after) l.
Proof.
  intros Hstart. induction l as [|h l IH]; [done|].
  assert (IH' := IH (λ g Hg, Hstart g (list_elem_of_further _ _ _ Hg))). clear IH.
  destruct (decide (after_item after h)) as [Ha|Ha].
  - rewrite (filter_cons_True (after_item after)) by exact Ha.
    rewrite filter_cons_True by (apply Hstart; [apply list_elem_of_here | exact Ha]).
    cbn [map]. rewrite <-IH'. unfold omap at 1. cbn [list_omap]. unfold admitted at 1, row_entry at 1. cbn [snd st_Value inject stored_head].
    by rewrite decide_True.
  - rewrite (filter_cons_False (after_item after)) by exact Ha. rewrite <-IH'.
    destruct (decide (string_leb start (framed 2 (ih_ItemID h)) = true)) as [Hs|Hs].
    + rewrite filter_cons_True by exact Hs. cbn [map]. unfold omap at 1. cbn [list_omap]. unfold admitted at 1, row_entry at 1.
      cbn [snd st_Value inject stored_head]. by rewrite decide_False.
    + by rewrite filter_cons_False.
Qed.

Lemma admits_skip after h :
  negb (bool_decide (after = "")) && string_leb (ih_ItemID h) after = true → ¬ after_item after h.
Proof.
  rewrite andb_true_iff, negb_true_iff, bool_decide_eq_false. intros [Hne Hle] [?|[_ Hlt]]; [done|congruence].
Qed.

(** A scan is one page of the heads. *)
Lemma scan_page db s L prefix after limit :
  store_reachable db → ledger_ok L → represents db s L → badgerSessionMemoryPrefix s badgerRecordHead = Ok prefix →
  after = "" ∨ (isCanonicalID after = true ∧ len after ≤ 65535) → 0 < limit ≤ maxCanonicalReadRecords →
  ScanActiveHeads (Some None) (mkActiveHeadScan s after limit) db = Ok (head_page L after limit).
Proof.
  intros Hdb Hok Hrep Hp Hafter Hlim. pose proof (reachable_only_records db Hdb) as Honly.
  assert (Hs : Scope_Validate s = Ok tt) by (unfold badgerSessionMemoryPrefix in Hp; by apply scoped_key_Ok in Hp as [? _]).
  assert (Hv : ActiveHeadScanRequest_Validate (mkActiveHeadScan s after limit) = Ok tt).
  { unfold ActiveHeadScanRequest_Validate. cbn [ah_Scope ah_AfterItemID ah_Limit]. rewrite Hs, bind_ok.
    rewrite (proj2 (Z.eqb_neq limit 0)), (proj2 (Z.ltb_ge maxCanonicalReadRecords limit)) by lia.
    destruct Hafter as [->|[Hc _]]; [reflexivity|]. by rewrite Hc, andb_false_r. }
  unfold ScanActiveHeads. cbn [sessionMemoryContextError]. rewrite bind_ok, Hv, bind_ok. cbn [ah_Scope].
  rewrite Hp, bind_ok. unfold View, wrap_error, scan_heads. cbn [ah_Scope ah_AfterItemID ah_Limit].
  set (start := if bool_decide (after = "") then "" else framed 2 after).
  assert (Hstart : (if bool_decide (after = "") then Ok prefix else badgerSessionMemoryKey s badgerRecordHead after) =
    Ok (prefix +:+ start)).
  { unfold start. destruct Hafter as [->|[Hc Hlen]]; [by rewrite bool_decide_true, append_nil_r|].
    case_bool_decide; [by rewrite append_nil_r|]. by apply key_of. }
  rewrite Hstart, bind_ok.
  rewrite (scan_rows db s badgerRecordHead prefix (lg_Heads L) ih_ItemID Honly (rep_heads _ _ _ Hrep)
    (ltac:(discriminate)) eq_refl (λ id a, head_ids L id a Hok) Hp start).
  rewrite (collect_total limit _ (admitted after)).
  - cbn [app length]. rewrite Nat.sub_0_r. unfold rows_from. fold (heads L). rewrite omap_admitted; [done|].
    intros h Hh [->|[Hle _]]; [by unfold start; destruct (framed 2 (ih_ItemID h))|]. unfold start. by case_bool_decide.
  - intros kv (h & -> & [Hfrom Hh]%list_elem_of_filter)%list_elem_of_fmap. fold (heads L) in Hh.
    unfold row_entry at 1. rewrite (decode_entry_Ok _ badgerRecordHead h), bind_ok.
    destruct (head_valid db s L h Hok Hrep Hh) as [Hval _]. unfold admitted, row_entry. cbn [snd st_Value inject stored_head].
    destruct (negb (bool_decide (after = "")) && string_leb (ih_ItemID h) after) eqn:E.
    + apply admits_skip in E. by rewrite decide_False.
    + rewrite Hval, bind_ok, decide_True; [done|]. unfold after_item. apply andb_false_iff in E as [E|E].
      * left. by apply negb_false_iff, bool_decide_eq_true in E.
      * destruct (decide (after = "")) as [?|Hne]; [by left|]. right. split; [|exact E].
        unfold start in Hfrom. by rewrite bool_decide_false in Hfrom.
Qed.

(** *** Paging through a scope *)

(** All pages from a cursor on, each starting after the last item of the one before. *)
Fixpoint all_pages (fuel : nat) (L : Ledger) (after : string) (limit : Z) : list ItemHead :=
  match fuel with
  | O => []
  | S fuel =>
      let page := head_page L after limit in
      match last page with
      | None => []
      | Some h => page ++ all_pages fuel L (ih_ItemID h) limit
      end
  end.

Definition same_length (n : nat) (L : Ledger) : Prop :=
  ∀ id h, lg_Heads L !! id = Some h → String.length (ih_ItemID h) = n.

Section pages.
  Context (db : database) (s : Scope) (L : Ledger) (n : nat).
  Context (Hok : ledger_ok L) (Hrep : represents db s L) (Hlen : same_length n L).

Lemma head_length h : h ∈ heads L → String.length (ih_ItemID h) = n ∧ len (ih_ItemID h) ≤ 65535.
  Proof using Hok Hrep Hlen.
    intros Hh. split; [|by apply (head_valid db s L h)]. by apply (elem_of_heads L h Hok), Hlen in Hh.
  Qed.

Lemma head_order g h : g ∈ heads L → h ∈ heads L →
    string_leb (framed 2 (ih_ItemID g)) (framed 2 (ih_ItemID h)) = string_leb (ih_ItemID g) (ih_ItemID h).
  Proof using Hok Hrep Hlen.
    intros [Lg Fg]%head_length [Lh Fh]%head_length. rewrite framed_leb by done. unfold len. rewrite Lg, Lh, Z.ltb_irrefl, Z.eqb_refl.
    reflexivity.
  Qed.

Lemma heads_NoDup : NoDup (map ih_ItemID (heads L)).
  Proof using Hok.
    unfold heads, rows. rewrite merge_sort_Permutation. rewrite <-list_fmap_compose.
    apply (NoDup_fmap_2_strong _); [|apply NoDup_map_to_list].
    intros [i a] [j b] Hi%elem_of_map_to_list Hj%elem_of_map_to_list E. cbn in E.
    pose proof (head_ids L i a Hok Hi) as Ei. pose proof (head_ids L j b Hok Hj) as Ej. subst i j. rewrite E in *. by simplify_eq.
  Qed.

(** The heads a cursor admits are those behind it. *)
Lemma admitted_suffix before h rest :
    heads L = before ++ h :: rest → filter (after_item (ih_ItemID h)) (heads L) = rest.
  Proof using Hok Hrep Hlen.
    intros E. pose proof heads_NoDup as Hnd.
    assert (Hsort : StronglySorted (id_le ih_ItemID) (heads L)).
    { apply (StronglySorted_merge_sort (id_le ih_ItemID)). }
    assert (Hin : h ∈ heads L) by (rewrite E; apply elem_of_app; right; apply list_elem_of_here).
    assert (Hne : ih_ItemID h ≠ "").
    { intros Hh. destruct (head_valid db s L h Hok Hrep Hin) as [Hv _]. unfold ItemHead_Validate in Hv.
      apply reject_if_Ok in Hv. rewrite orb_false_iff, negb_false_iff in Hv. rewrite Hh in Hv. by destruct Hv. }
    assert (Hback : ∀ g, g ∈ before ++ [h] → ¬ after_item (ih_ItemID h) g).
    { intros g Hg [?|[Hle Hlt]]; [done|]. assert (Hgin : g ∈ heads L).
      { rewrite E. change (h :: rest) with ([h] ++ rest). rewrite app_assoc. apply elem_of_app. by left. }
      rewrite <-(head_order g h Hgin Hin) in Hlt. apply elem_of_app in Hg as [Hg| ->%list_elem_of_singleton].
      - rewrite E in Hsort. apply StronglySorted_app in Hsort as (Hbefore & _).
        assert (Hgh : id_le ih_ItemID g h) by (apply Hbefore; [exact Hg | apply list_elem_of_here]).
        unfold id_le in Hgh. congruence.
      - by rewrite string_leb_refl in Hlt. }
    assert (Hahead : ∀ g, g ∈ rest → after_item (ih_ItemID h) g).
    { intros g Hg. assert (Hgin : g ∈ heads L) by (rewrite E; apply elem_of_app; right; by apply list_elem_of_further).
      assert (Hle : id_le ih_ItemID h g).
      { rewrite E in Hsort. apply StronglySorted_app in Hsort as (_ & _ & Hs). apply StronglySorted_inv in Hs as [_ Hs].
        rewrite Forall_forall in Hs. by apply Hs. }
      right. unfold id_le in Hle. split; [exact Hle|]. rewrite (head_order h g Hin Hgin) in Hle.
      destruct (string_leb (ih_ItemID g) (ih_ItemID h)) eqn:Eg; [|done]. exfalso.
      pose proof (string_leb_antisym _ _ Hle Eg) as Eq. rewrite E, map_app in Hnd. cbn [map] in Hnd.
      apply NoDup_app in Hnd as (_ & _ & Hnd). apply NoDup_cons in Hnd as [Hnot _]. apply Hnot. rewrite Eq.
      apply list_elem_of_fmap. by exists g. }
    rewrite E. change (h :: rest) with ([h] ++ rest). rewrite app_assoc, filter_app.
    rewrite filter_none by (rewrite Forall_forall; exact Hback). apply filter_every. by rewrite Forall_forall.
  Qed.
End pages.

Lemma last_take {A} (l : list A) n h : last (take n l) = Some h → ∃ before, take n l = before ++ [h].
Proof. intros H. by apply last_Some in H. Qed.

Lemma pages_from db s L n limit fuel before after rest :
  ledger_ok L → represents db s L → same_length n L → 0 < limit → (length rest < fuel)%nat →
  heads L = before ++ rest → filter (after_item after) (heads L) = rest → all_pages fuel L after limit = rest.
Proof.
  intros Hok Hrep Hlen Hlim. revert before after rest. induction fuel as [|fuel IH]; intros before after rest Hf E Hrest; [lia|].
  cbn [all_pages]. unfold head_page. rewrite Hrest. set (k := Z.to_nat limit). assert (Hk : (0 < k)%nat) by (unfold k; lia).
  destruct (last (take k rest)) as [h|] eqn:Hl.
  - destruct (last_take _ _ _ Hl) as [p Hp]. rewrite <-(firstn_skipn k rest) at 2. f_equal.
    assert (E' : heads L = (before ++ p) ++ h :: drop k rest).
    { rewrite E, <-(firstn_skipn k rest), Hp, <-!app_assoc at 1. reflexivity. }
    apply (IH (before ++ p ++ [h])).
    + rewrite length_skipn. destruct rest; [by rewrite firstn_nil in Hp; destruct p|]. cbn [length] in *. lia.
    + rewrite E', <-!app_assoc. reflexivity.
    + by apply (admitted_suffix db s L n Hok Hrep Hlen (before ++ p)).
  - apply last_None in Hl. destruct rest as [|x rest]; [done|]. destruct k; [lia|discriminate Hl].
Qed.

Lemma page_admits L after limit h : h ∈ head_page L after limit → after_item after h.
Proof.
  unfold head_page. intros (i & Hi & _)%elem_of_take. apply list_elem_of_lookup_2 in Hi. by apply list_elem_of_filter in Hi as [? _].
Qed.

Lemma page_heads L after limit h : h ∈ head_page L after limit → h ∈ heads L.
Proof.
  unfold head_page. intros (i & Hi & _)%elem_of_take. apply list_elem_of_lookup_2 in Hi. by apply list_elem_of_filter in Hi as [_ ?].
Qed.

Lemma first_page_sorted L limit : StronglySorted (id_le ih_ItemID) (head_page L "" limit).
Proof.
  unfold head_page. rewrite filter_every by (apply Forall_forall; intros ? _; by left).
  pose proof (StronglySorted_merge_sort (id_le ih_ItemID) (map snd (map_to_list (lg_Heads L)))) as Hall.
  fold (rows (lg_Heads L) ih_ItemID) in Hall. fold (heads L) in Hall.
  rewrite <-(firstn_skipn (Z.to_nat limit) (heads L)) in Hall. by apply StronglySorted_app in Hall as (_ & Hall & _).
Qed.

(** The client's loop: page by page, the last item of a page being the next cursor. *)
Fixpoint scan_all (fuel : nat) (scope : Scope) (after : string) (limit : Z) (db : database) : result (list ItemHead) :=
  match fuel with
  | O => Ok []
  | S fuel =>
      page ← ScanActiveHeads (Some None) (mkActiveHeadScan scope after limit) db;
      match last page with
      | None => Ok []
      | Some h => rest ← scan_all fuel scope (ih_ItemID h) limit db; Ok (page ++ rest)
      end
  end.

Lemma scan_all_pages fuel db s L prefix after limit :
  store_reachable db → ledger_ok L → represents db s L → badgerSessionMemoryPrefix s badgerRecordHead = Ok prefix →
  after = "" ∨ (isCanonicalID after = true ∧ len after ≤ 65535) → 0 < limit ≤ maxCanonicalReadRecords →
  scan_all fuel s after limit db = Ok (all_pages fuel L after limit).
Proof.
  intros Hdb Hok Hrep Hp Ha Hlim. revert after Ha. induction fuel as [|fuel IH]; intros after Ha; [done|]. cbn [scan_all all_pages].
  rewrite (scan_page db s L prefix after limit Hdb Hok Hrep Hp Ha Hlim), bind_ok.
  destruct (last (head_page L after limit)) as [h|] eqn:E; [|done]. rewrite IH, bind_ok; [done|]. right.
  apply last_Some in E as [p E].
  assert (Hin : h ∈ heads L) by (apply (page_heads L after limit); rewrite E; apply elem_of_app; right; apply list_elem_of_here).
  destruct (head_valid db s L h Hok Hrep Hin) as [Hv Hl]. split; [|exact Hl].
  unfold ItemHead_Validate in Hv. apply reject_if_Ok in Hv. rewrite orb_false_iff, negb_false_iff in Hv. apply Hv.
Qed.

(** ** The identities of states and events *)
Definition state_item (id : string) : Prop := ∃ scopeKey memoryKey, id = state_item_id scopeKey memoryKey.
Definition event_item (id : string) : Prop :=
  ∃ scopeKey sourceID messageID eventAt subject predicate qualifiers,
    id = event_item_id scopeKey sourceID messageID eventAt subject predicate qualifiers.

Lemma event_before_state e i : event_item e → state_item i → string_leb e i = true ∧ (String.length i < String.length e)%nat.
Proof.
  intros (? & ? & ? & ? & ? & ? & ? & ->) (? & ? & ->). unfold state_item_id, event_item_id, reconciliationID. split.
  - rewrite string_leb_append, (append_cons _ "vent"), (append_cons _ "tem"). by rewrite string_leb_head.
  - rewrite !length_append, !length_sha256_hex. cbn. lia.
Qed.

(** ** Properties *)

(** Paging lists every head once: when the item identities of a scope have one
    length, a client that takes page after page, the last item of each page being
    the next cursor, ends with every active head of the scope's ledger, each once,
    in order, whatever the page size. *)
Theorem paging_lists_every_head db s L prefix n limit :
  store_reachable db → ledger_ok L → represents db s L → badgerSessionMemoryPrefix s badgerRecordHead = Ok prefix →
  same_length n L → 0 < limit ≤ maxCanonicalReadRecords →
  ∃ listed, scan_all (S (size (lg_Heads L))) s "" limit db = Ok listed ∧ listed ≡ₚ map snd (map_to_list (lg_Heads L)) ∧
    StronglySorted (λ g h, string_leb (ih_ItemID g) (ih_ItemID h) = true) listed.
Proof.
  intros Hdb Hok Hrep Hp Hlen Hlim. exists (heads L).
  assert (Hperm : heads L ≡ₚ map snd (map_to_list (lg_Heads L))) by (unfold heads, rows; apply merge_sort_Permutation).
  rewrite (scan_all_pages _ db s L prefix "" limit Hdb Hok Hrep Hp (or_introl eq_refl) Hlim). split; [|split; [exact Hperm|]].
  - f_equal. apply (pages_from db s L n limit _ []); try done; [lia| |].
    + rewrite Hperm, length_map, length_map_to_list. lia.
    + apply filter_every, Forall_forall. intros h _. by left.
  - assert (Hs : StronglySorted (id_le ih_ItemID) (heads L)) by apply (StronglySorted_merge_sort (id_le ih_ItemID)).
    eapply StronglySorted_change; [exact Hs|]. intros g h Hg Hh Hle. by rewrite <-(head_order db s L n Hok Hrep Hlen g h Hg Hh).
Qed.

(** C36. A finding: paging loses events. State items have shorter identities than events,
    so a scan visits them first; but an event's identity is smaller by bytes than
    every state's. When a page ends with a state item, no event of the scope is on
    that page, and none is on any page after it. *)
Theorem events_lost_after_state_page db s L prefix limit limit' p h g page :
  store_reachable db → ledger_ok L → represents db s L → badgerSessionMemoryPrefix s badgerRecordHead = Ok prefix →
  0 < limit ≤ maxCanonicalReadRecords → 0 < limit' ≤ maxCanonicalReadRecords →
  ScanActiveHeads (Some None) (mkActiveHeadScan s "" limit) db = Ok (p ++ [h]) → state_item (ih_ItemID h) →
  lg_Heads L !! ih_ItemID g = Some g → event_item (ih_ItemID g) →
  ScanActiveHeads (Some None) (mkActiveHeadScan s (ih_ItemID h) limit') db = Ok page →
  g ∉ p ++ [h] ∧ g ∉ page.
Proof.
  intros Hdb Hok Hrep Hp Hlim Hlim' H1 Hstate Hg Hevent H2. destruct (event_before_state _ _ Hevent Hstate) as [Hleb Hlen].
  apply (elem_of_heads L g Hok) in Hg.
  rewrite (scan_page db s L prefix "" limit Hdb Hok Hrep Hp (or_introl eq_refl) Hlim) in H1. apply Ok_inj in H1.
  assert (Hhin : h ∈ heads L) by (apply (page_heads L "" limit); rewrite H1; apply elem_of_app; right; apply list_elem_of_here).
  destruct (head_valid db s L g Hok Hrep Hg) as [_ Lg], (head_valid db s L h Hok Hrep Hhin) as [Hv Lh]. split.
  - intros [Hin| ->%list_elem_of_singleton]%elem_of_app; [|lia].
    pose proof (first_page_sorted L limit) as Hs. rewrite H1 in Hs. apply StronglySorted_app in Hs as (Hs & _).
    assert (Hle : id_le ih_ItemID g h) by (apply Hs; [exact Hin | apply list_elem_of_here]). unfold id_le in Hle.
    rewrite framed_leb in Hle by done. apply orb_true_iff in Hle as [Hle%Z.ltb_lt|[Hle%Z.eqb_eq _]%andb_true_iff]; unfold len in Hle; lia.
  - unfold ItemHead_Validate in Hv. apply reject_if_Ok in Hv. rewrite orb_false_iff, negb_false_iff in Hv. destruct Hv as [Hv _].
    rewrite (scan_page db s L prefix (ih_ItemID h) limit' Hdb Hok Hrep Hp (or_intror (conj Hv Lh)) Hlim') in H2. apply Ok_inj in H2 as <-.
    intros Hin%page_admits. destruct Hin as [Hin|[_ Hin]]; [by rewrite Hin in Hv|]. congruence.
Qed.

(** ** Witnesses: a store with one state and one event *)
Definition demo_two (kinds : list string) : CanonicalSemanticExtractor := λ r,
  match tn_Messages (er_Turn r) with
  | user :: _ =>
      Ok (map (λ kind, mkSemanticCandidate kind "user" "lives in" []
        (mkMemoryCandidate kind "lives in Oslo" demo_temporal
          [mkEvidenceRef (tn_SourceID (er_Turn r)) (ms_MessageID user) MessageRoleUser 0 14 AssertionModeUser ""]
          SensitivityStandard RetentionClassStandard)) kinds)
  | [] => Ok []
  end.

Definition demo_kinds_mutation (kinds : list string) : CanonicalMutation :=
  ok_or demo_mutation (@prepare database demo_badger (demo_two kinds) demo_policy (Some None) demo_turn demo_derivation ∅ ∅).
Definition demo_states : CanonicalMutation := Eval vm_compute in demo_kinds_mutation [MemoryKindState].
Definition demo_both : CanonicalMutation := Eval vm_compute in demo_kinds_mutation [MemoryKindState; MemoryKindEvent].
Definition demo_kinds_db (m : CanonicalMutation) : database := (Badger_ApplyCanonicalMutation None (Some None) m ∅).1.
Definition demo_paged (m : CanonicalMutation) (after : string) : list ItemHead :=
  ok_or [] (ScanActiveHeads (Some None) (mkActiveHeadScan demo_scope after 1) (demo_kinds_db m)).

Lemma demo_kinds_reachable m : store_reachable (demo_kinds_db m).
Proof. apply rtc_once. eapply (st_apply _ _ None (Some None) m). apply surjective_pairing. Qed.

Definition demo_head_prefix : string := ok_or "" (badgerSessionMemoryPrefix demo_scope badgerRecordHead).
Lemma demo_head_prefix_run : badgerSessionMemoryPrefix demo_scope badgerRecordHead = Ok demo_head_prefix.
Proof. apply is_ok_run. vm_compute. reflexivity. Qed.

(** A stored head is a row of the ledger. *)
Lemma stored_head_row db s L prefix h :
  ledger_ok L → represents db s L → badgerSessionMemoryPrefix s badgerRecordHead = Ok prefix →
  isCanonicalID (ih_ItemID h) = true → len (ih_ItemID h) ≤ 65535 →
  db !! (prefix +:+ framed 2 (ih_ItemID h)) = Some (mkStored badgerRecordHead (VHead h)) → lg_Heads L !! ih_ItemID h = Some h.
Proof.
  intros Hok Hrep Hp Hid Hlen Hdb. rewrite (table_row _ _ _ _ _ _ (rep_heads _ _ _ Hrep) (key_of s _ prefix Hp _ Hid Hlen)) in Hdb.
  apply fmap_Some in Hdb as (h' & Hh' & E). by injection E as <-.
Qed.

Definition demo_head0 : ItemHead := mkItemHead "" "".
Definition demo_state_head : ItemHead := hd demo_head0 (cm_Heads demo_both).
Definition demo_event_head : ItemHead := List.last (cm_Heads demo_both) demo_head0.

(** The lengths of the heads of a store, as it can be computed. *)
Definition head_lengths (n : nat) (db : database) : bool :=
  forallb (λ kv : string * stored, match st_Value kv.2 with VHead h => (String.length (ih_ItemID h) =? n)%nat | _ => true end)
    (map_to_list db).

Lemma head_lengths_same n db s L prefix :
  ledger_ok L → represents db s L → badgerSessionMemoryPrefix s badgerRecordHead = Ok prefix →
  head_lengths n db = true → same_length n L.
Proof.
  intros Hok Hrep Hp Hall id h Hh. unfold head_lengths in Hall. rewrite forallb_forall in Hall.
  pose proof (head_ids L id h Hok Hh) as <-. apply (elem_of_heads L h Hok) in Hh.
  pose proof (row_stored db s badgerRecordHead prefix (lg_Heads L) ih_ItemID (rep_heads _ _ _ Hrep)
    (λ id a, head_ids L id a Hok) Hp h Hh) as Hst. apply elem_of_map_to_list, list_elem_of_In in Hst.
  specialize (Hall _ Hst). cbn in Hall. by apply Nat.eqb_eq in Hall.
Qed.

Lemma paging_lists_every_head_witness :
  ∃ L listed, represents (demo_kinds_db demo_states) demo_scope L ∧
    scan_all (S (size (lg_Heads L))) demo_scope "" 1 (demo_kinds_db demo_states) = Ok listed ∧
    listed ≡ₚ map snd (map_to_list (lg_Heads L)).
Proof.
  destruct (reachable_ledgers _ (demo_kinds_reachable demo_states)) as [A HA]. destruct (HA demo_scope) as [HL Hrep].
  destruct (paging_lists_every_head (demo_kinds_db demo_states) demo_scope (A demo_scope) demo_head_prefix 87 1
    (demo_kinds_reachable demo_states) (reachable_ok _ HL) Hrep demo_head_prefix_run) as (listed & Hs & Hp & _).
  - apply (head_lengths_same 87 _ _ _ _ (reachable_ok _ HL) Hrep demo_head_prefix_run). vm_compute. reflexivity.
  - unfold maxCanonicalReadRecords. lia.
  - exists (A demo_scope), listed. split; [exact Hrep | by split].
Defined.

Lemma events_lost_after_state_page_witness :
  demo_event_head ∈ cm_Heads demo_both ∧
  demo_event_head ∉ demo_paged demo_both "" ∧ demo_event_head ∉ demo_paged demo_both (ih_ItemID demo_state_head).
Proof.
  split; [apply list_elem_of_In; vm_compute; tauto|].
  destruct (reachable_ledgers _ (demo_kinds_reachable demo_both)) as [A HA]. destruct (HA demo_scope) as [HL Hrep].
  assert (E : demo_paged demo_both "" = [] ++ [demo_state_head]) by (vm_compute; reflexivity).
  rewrite E.
  refine (events_lost_after_state_page (demo_kinds_db demo_both) demo_scope (A demo_scope) demo_head_prefix 1 1 []
    demo_state_head demo_event_head (demo_paged demo_both (ih_ItemID demo_state_head)) (demo_kinds_reachable demo_both)
    (reachable_ok _ HL) Hrep demo_head_prefix_run _ _ _ _ _ _ _).
  - unfold maxCanonicalReadRecords. lia.
  - unfold maxCanonicalReadRecords. lia.
  - rewrite <-E. apply is_ok_run. vm_compute. reflexivity.
  - exists (sc_Key demo_scope), (mi_MemoryKey (hd (mkMemoryItem "" demo_scope "" "") (cm_Items demo_both))).
    vm_compute. reflexivity.
  - apply (stored_head_row _ _ _ demo_head_prefix _ (reachable_ok _ HL) Hrep demo_head_prefix_run); vm_compute; [reflexivity|discriminate|reflexivity].
  - exists (sc_Key demo_scope), (tn_SourceID demo_turn), (ms_MessageID (hd (mkMessage "" "" "" "" "") (tn_Messages demo_turn))),
      "", "user", "lives in", []. vm_compute. reflexivity.
  - apply is_ok_run. vm_compute. reflexivity.
Defined.
