(* ===== verification/BadgerProjection.v ===== *)
(** * BadgerProjection: projections over the embedded store

    The projection coordinator (src/sessionmemory/projection.go) over the store of
    src/sessionmemory/store/badger, with other writers between its calls: a
    successful synchronisation replays exactly a window of the log, batch by batch,
    and ends. *)

From Stdlib Require Import ZArith Lia Ascii String.
From stdpp Require Import base numbers list gmap strings relations.
From S2P Require Import Prelude.
From S2P Require Import GoStrings.
From S2P Require Import MemoryTypes.
From S2P Require Import MemoryRecords.
From S2P Require Import MemoryDerived.
From S2P Require Import MemoryCanonical.
From S2P Require Import MemoryReconciler.
From S2P Require Import MemoryProcessor.
From S2P Require Import MemoryProjection.
From S2P Require Import Actions.
From S2P Require Import ProjectionViews.
From S2P Require Import ProjectionSync.
From S2P Require Import BadgerKeys.
From S2P Require Import BadgerTxn.
From S2P Require Import BadgerStore.
From S2P Require Import BadgerLedgers.
From S2P Require Import BadgerEntries.
From S2P Require Import LedgerSpec.
From S2P Require Import BadgerRefinement.
From S2P Require Import BadgerSteps.
From S2P Require Import BadgerScan.
From S2P Require Import BadgerPorts.

Local Open Scope string_scope.
Local Open Scope list_scope.
Local Open Scope Z_scope.

(** ** The store as the coordinator's ports *)
Definition badger_source (ctx : Context) (later : database → database) : ProjectionSource database :=
  {| pj_LoadScopeState scope := Badger_LoadScopeState ctx scope;
     pj_ScanActiveMemory request db := Badger_ScanActiveMemory ctx request db (later db);
     pj_ScanScopeChanges scope after limit := ScanScopeChanges ctx scope after limit;
     pj_LoadCanonicalRevisions request := LoadCanonicalRevisions ctx request;
     pj_LoadProjectionRetentionFloor := Some (LoadProjectionRetentionFloor ctx) |}.

Definition badger_manifests (fault : ProjectionManifest → database → option error) (ctx : Context) :
    ProjectionCheckpointStore database :=
  {| ms_LoadProjectionManifest scope projectionID generationID := LoadProjectionManifest ctx scope projectionID generationID;
     ms_MarkProjectionDirty m db := MarkProjectionDirty (fault m db) ctx m db;
     ms_AdvanceProjectionWatermark m watermark at_ db := AdvanceProjectionWatermark (fault m db) ctx m watermark at_ db;
     ms_ActivateProjectionGeneration m at_ db := ActivateProjectionGeneration (fault m db) ctx m at_ db |}.

(** ** Windows of a log *)
Definition window {A} (lo hi : nat) (l : list A) : list A := take (hi - lo) (drop lo l).

Lemma window_app {A} lo mid hi (l : list A) : (lo ≤ mid ≤ hi)%nat → window lo mid l ++ window mid hi l = window lo hi l.
Proof.
  intros [H1 H2]. unfold window. replace (hi - lo)%nat with ((mid - lo) + (hi - mid))%nat by lia.
  rewrite <-take_take_drop, drop_drop. do 3 f_equal. lia.
Qed.

Lemma window_nil {A} lo (l : list A) : window lo lo l = [].
Proof. unfold window. by rewrite Nat.sub_diag. Qed.

Lemma window_grows {A} lo hi (l l' : list A) : (hi ≤ length l)%nat → l `prefix_of` l' → window lo hi l' = window lo hi l.
Proof.
  intros Hhi [r ->]. unfold window. destruct (decide (hi ≤ lo)%nat).
  - replace (hi - lo)%nat with 0%nat by lia. reflexivity.
  - rewrite drop_app_le by lia. rewrite take_app_le; [done|]. rewrite length_skipn. lia.
Qed.

(** A bounded scan is the window up to where it stopped. *)
Lemma take_window {A} lo k (l : list A) :
  take k (drop lo l) = window lo (lo + length (take k (drop lo l))) l.
Proof.
  unfold window. replace (lo + length (take k (drop lo l)) - lo)%nat with (length (take k (drop lo l))) by lia.
  rewrite length_firstn. destruct (decide (k ≤ length (drop lo l))%nat).
  - by rewrite Nat.min_l.
  - rewrite Nat.min_r by lia. rewrite firstn_all. by rewrite take_ge by lia.
Qed.

Lemma last_lookup_end {A} (l : list A) x : last l = Some x → l !! (length l - 1)%nat = Some x ∧ (0 < length l)%nat.
Proof.
  intros H. destruct (last_Some l x) as [Hl _]. destruct (Hl H) as [p ->]. rewrite length_app. cbn.
  replace (length p + 1 - 1)%nat with (length p) by lia. split; [|lia].
  rewrite lookup_app_r by lia. by rewrite Nat.sub_diag.
Qed.

(** The changes of a scan end at the sequence number the window ends at. *)
Lemma scanned_window L after k changes final :
  ledger_ok L → 0 ≤ after → changes = take k (drop (Z.to_nat after) (lg_Log L)) → last changes = Some final →
  after < ch_Sequence final ≤ version L ∧
  changes = window (Z.to_nat after) (Z.to_nat (ch_Sequence final)) (lg_Log L).
Proof.
  intros Hok Ha Hc Hl. destruct (last_lookup_end _ _ Hl) as [Hi Hpos]. set (n := length changes) in *.
  assert (Hlk : lg_Log L !! (Z.to_nat after + (n - 1))%nat = Some final).
  { rewrite <-lookup_drop. rewrite Hc in Hi. apply lookup_take_Some in Hi as [Hi _]. exact Hi. }
  pose proof (ok_numbered L Hok _ _ Hlk) as Hseq. pose proof (lookup_lt_Some _ _ _ Hlk) as Hlt.
  unfold version, Zlength. split; [lia|]. rewrite Hc at 1. rewrite take_window, <-Hc. fold n. f_equal. lia.
Qed.

(** ** Reading revisions *)
Definition rows_of (L : Ledger) (ids : list string) (revisions : list MemoryRevision) : Prop :=
  Forall2 (λ id r, lg_Revisions L !! id = Some r) ids revisions.

Lemma rows_of_grows L L' ids rs : grows L L' → rows_of L ids rs → rows_of L' ids rs.
Proof. intros Hg H. eapply Forall2_impl; [exact H|]. intros id r Hr. eapply lookup_weaken; [exact Hr | apply Hg]. Qed.

Lemma load_revisions_rows ctx db s L ids rs :
  represents db s L → LoadCanonicalRevisions ctx (mkRevisionRead s ids) db = Ok rs → rows_of L ids rs.
Proof.
  intros Hrep H. unfold LoadCanonicalRevisions in H. apply bind_unit in H as [_ H]. apply bind_unit in H as [_ H].
  unfold View, wrap_error in H. cbn [rq_Scope rq_RevisionIDs] in H. destruct (for_fold _ _ _) as [x|] eqn:E; [|done]. apply Ok_inj in H as ->.
  revert E.
  assert (Hgen : ∀ acc, for_fold (λ revisions revisionID,
      key ← badgerSessionMemoryKey s badgerRecordRevision revisionID;
      found ← optional (getBadgerSessionMemoryRecord db key badgerRecordRevision);
      match found with
      | None => Err (PermanentError CodeNotFound "canonical revision is missing" None)
      | Some revision => _ ← MemoryRevision_Validate revision; Ok (revisions ++ [revision])
      end) acc ids = Ok rs → ∃ new, rs = acc ++ new ∧ rows_of L ids new).
  { induction ids as [|id ids IH]; intros acc; cbn [for_fold].
    - intros <-%Ok_inj. exists []. rewrite app_nil_r. split; [done|constructor].
    - intros (acc' & Hstep & Hrest)%bind_Ok. apply bind_Ok in Hstep as (k & Hk & Hstep).
      apply bind_Ok in Hstep as (found & Hf%optional_Ok & Hstep). destruct found as [r|]; [|done].
      apply bind_unit in Hstep as [_ Hstep%Ok_inj]. subst acc'. destruct (IH _ Hrest) as (new & -> & Hnew).
      exists (r :: new). split; [by rewrite <-app_assoc|]. constructor; [|exact Hnew].
      cbn in Hf. rewrite (table_row _ _ _ _ _ _ (rep_revisions _ _ _ Hrep) Hk) in Hf.
      apply fmap_Some in Hf as (r' & Hr' & Er). by injection Er as <-. }
  intros (new & -> & Hnew)%Hgen. exact Hnew.
Qed.

(** ** Calls of the coordinator *)
Section sync.
  Context {Ap : Type} (env : nat → database → database) (clock : nat → Z).
  Context (fault : ProjectionManifest → database → option error) (ctx : Context) (later : database → database).
  Context (applier : ProjectionApplier Ap) (batchSize : Z).
  Context (Henv : ∀ n db, rtc store_step db (env n db)).

Definition coordinator : ProjectionCoordinator database Ap :=
  mkCoordinator (badger_source ctx later) (badger_manifests fault ctx) applier batchSize.

(** The ledgers at a moment of the call, and how later ones extend them. *)
Definition holds (A : Scope → Ledger) (w : world database Ap) : Prop := store_reachable (w_store w) ∧ ledgers_of (w_store w) A.
Definition extends (A A' : Scope → Ledger) (w w' : world database Ap) : Prop :=
  rtc store_step (w_store w) (w_store w') ∧ ∀ s, grows (A s) (A' s).

Lemma extends_refl A w : extends A A w w.
  Proof using. by split. Qed.
Lemma extends_trans A1 A2 A3 w1 w2 w3 : extends A1 A2 w1 w2 → extends A2 A3 w2 w3 → extends A1 A3 w1 w3.
  Proof using. intros [R1 G1] [R2 G2]. split; [by etrans|]. intros s. etrans; [apply G1 | apply G2]. Qed.

Lemma steps_extend A w w' : holds A w → rtc store_step (w_store w) (w_store w') → ∃ A', holds A' w' ∧ extends A A' w w'.
  Proof using.
    intros [Hreach HA] Hsteps. destruct (store_steps_simulate _ _ A Hsteps HA) as (A' & HA' & Hgrow).
    exists A'. split; [split; [|exact HA']; unfold store_reachable in *; by etrans|]. split; [exact Hsteps|].
    intros s. by apply steps_grow.
  Qed.

Lemma read_run {X} (f : database → result X) A w w' r :
    holds A w → read env X f w = (w', r) →
    ∃ A', holds A' w' ∧ extends A A' w w' ∧ r = f (w_store w') ∧ w_history w' = w_history w.
  Proof using Henv.
    intros HA [= <- <-]. destruct (steps_extend A w (mkWorld (env (w_calls w) (w_store w)) (w_applier w) (S (w_calls w)) (w_history w)) HA)
      as (A' & HA' & Hext); [apply Henv|]. by exists A'.
  Qed.

Lemma write_run event f A w w' r :
    (∀ db, store_step db (f db).1) → holds A w → write env event f w = (w', r) →
    ∃ A', holds A' w' ∧ extends A A' w w' ∧ w_history w' = log event r (w_history w).
  Proof using Henv.
    intros Hf HA. unfold write. cbv zeta. pose proof (Hf (env (w_calls w) (w_store w))) as Hstep.
    destruct (f (env (w_calls w) (w_store w))) as [db x]. cbn [fst] in Hstep. intros [= <- <-].
    destruct (steps_extend A w (mkWorld db (w_applier w) (S (w_calls w)) (log event x (w_history w))) HA) as (A' & HA' & Hext).
    { cbn [w_store]. eapply rtc_r; [apply Henv | exact Hstep]. }
    by exists A'.
  Qed.

Lemma engine_run event f A w w' r :
    holds A w → engine (St := database) event f w = (w', r) →
    holds A w' ∧ extends A A w w' ∧ w_history w' = log event r (w_history w).
  Proof using.
    intros HA. unfold engine. destruct (f (w_applier w)) as [ap x]. intros [= <- <-]. split; [exact HA|]. split; [by split|done].
  Qed.

(** One batch of the replay: what it applied. *)
Definition batch : Type := list ScopeChange * list MemoryRevision.
Definition last_sequence (changes : list ScopeChange) : Z := match last changes with Some c => ch_Sequence c | None => 0 end.
Definition block (b : batch) : list sync_event := [Applied b.1 b.2; Committed; Advanced (last_sequence b.1)].
Definition batch_ok (L : Ledger) (b : batch) : Prop := b.1 ≠ [] ∧ rows_of L (uniqueRevisionIDs b.1) b.2.

(** What a batch that fails may leave behind: it is applied, perhaps committed, but the
    watermark has not moved. *)
Definition unfinished (events : list sync_event) : Prop :=
  ∃ changes revisions, events `prefix_of` [Applied changes revisions; Committed].

Lemma load_batches_run s bs acc A w w' r :
    holds A w →
    fold_action (λ revisions batch,
      more ← read env _ (pj_LoadCanonicalRevisions (badger_source ctx later) (mkRevisionRead s batch));
      mret (revisions ++ more)) acc bs w = (w', r) →
    ∃ A', holds A' w' ∧ extends A A' w w' ∧ w_history w' = w_history w ∧
      ∀ out, r = Ok out → ∃ new, out = acc ++ new ∧ rows_of (A' s) (concat bs) new.
  Proof using Henv.
    revert acc A w. induction bs as [|b bs IH]; intros acc A w HA; cbn [fold_action].
    { intros [= <- <-]. exists A. split; [exact HA|]. split; [apply extends_refl|]. split; [done|]. intros out <-%Ok_inj.
      exists []. rewrite app_nil_r. split; [done | constructor]. }
    unfold mbind at 1, action_bind at 1. unfold mbind at 1, action_bind at 1.
    destruct (read env _ _ w) as [w1 x] eqn:Hr. destruct (read_run _ _ _ _ _ HA Hr) as (A1 & HA1 & Hext1 & Hx & Hh1).
    destruct x as [more|e].
    - cbn [mret action_ret]. intros Hrun. destruct (IH _ _ _ HA1 Hrun) as (A2 & HA2 & Hext2 & Hh2 & Hout).
      exists A2. split; [exact HA2|]. split; [by eapply extends_trans|]. split; [by rewrite Hh2|]. intros out Ho.
      destruct (Hout out Ho) as (new & -> & Hnew). exists (more ++ new). split; [by rewrite app_assoc|]. cbn [concat].
      apply Forall2_app; [|exact Hnew]. apply (rows_of_grows (A1 s)); [by apply Hext2|].
      symmetry in Hx. apply (load_revisions_rows ctx (w_store w1) s); [apply HA1 | exact Hx].
    - intros [= <- <-]. exists A1. by split_and!.
  Qed.

Lemma load_ids_run s ids A w w' r :
    holds A w → loadRevisionIDs (badger_source ctx later) (read env) s ids w = (w', r) →
    ∃ A', holds A' w' ∧ extends A A' w w' ∧ w_history w' = w_history w ∧ ∀ rs, r = Ok rs → rows_of (A' s) ids rs.
  Proof using Henv.
    intros HA Hrun. destruct (load_batches_run s _ _ A w w' r HA Hrun) as (A' & HA' & Hext & Hh & Hout).
    exists A'. do 3 (split; [done|]). intros rs Hr. destruct (Hout rs Hr) as (new & -> & Hnew).
    by rewrite concat_batches in Hnew.
  Qed.

Lemma commit_to_run s gen m watermark A w w' r :
    holds A w → commit_to env clock coordinator s gen m watermark w = (w', r) →
    ∃ A' events, holds A' w' ∧ extends A A' w w' ∧ w_history w' = w_history w ++ events ∧
      match r with Ok _ => events = [Committed; Advanced watermark] | Err _ => events `prefix_of` [Committed] end.
  Proof using Henv.
    intros HA. unfold commit_to. unfold mbind at 1, action_bind at 1.
    destruct (engine _ _ w) as [w1 x] eqn:He. destruct (engine_run _ _ _ _ _ _ HA He) as (HA1 & Hext1 & Hh1).
    destruct x as [[]|e]; [|intros [= <- <-]; exists A, []; rewrite app_nil_r; split_and!; [done..|apply prefix_nil]].
    unfold mbind, action_bind, currentTime. destruct (write env _ _ w1) as [w2 y] eqn:Hw. intros [= <- <-].
    destruct (write_run _ _ A w1 w2 y (λ db, st_watermark _ _ (fault m db) ctx m watermark (clock (w_calls w1)) _ (surjective_pairing _)) HA1 Hw)
      as (A2 & HA2 & Hext2 & Hh2).
    exists A2. destruct y as [[]|e]; [exists [Committed; Advanced watermark]|exists [Committed]].
    - split_and!; [done|by eapply extends_trans|rewrite Hh2, Hh1; cbn [log]; by rewrite <-app_assoc|done].
    - split_and!; [done|by eapply extends_trans|by rewrite Hh2, Hh1|done].
  Qed.

(** *** The replay *)
Lemma scan_run s after A w w' changes :
    holds A w → is_u64 after → 1 ≤ batchSize ≤ 256 →
    read env _ (pj_ScanScopeChanges (badger_source ctx later) s after batchSize) w = (w', Ok changes) →
    ∃ A', holds A' w' ∧ extends A A' w w' ∧ w_history w' = w_history w ∧
      changes = take (Z.to_nat batchSize) (drop (Z.to_nat after) (lg_Log (A' s))).
  Proof using Henv.
    intros HA Hafter Hb Hrun. destruct (read_run _ _ _ _ _ HA Hrun) as (A' & HA' & Hext & Hx & Hh).
    exists A'. split_and!; [done..|]. destruct HA' as [Hreach HA']. destruct (HA' s) as [HL Hrep].
    apply (change_scan_Ok ctx (w_store w') s (A' s) after batchSize); [done|by apply reachable_ok|done|done|lia|by symmetry].
  Qed.

Lemma batch_run s gen m changes A w w' r :
    holds A w → changes ≠ [] →
    (revisions ← loadRevisionIDs (badger_source ctx later) (read env) s (uniqueRevisionIDs changes);
     _ ← engine (Some (Applied changes revisions)) (ap_Apply applier s gen changes revisions);
     commit_to env clock coordinator s gen m (last_sequence changes)) w = (w', r) →
    ∃ A' events, holds A' w' ∧ extends A A' w w' ∧ w_history w' = w_history w ++ events ∧
      match r with
      | Ok _ => ∃ revisions, events = block (changes, revisions) ∧ batch_ok (A' s) (changes, revisions)
      | Err _ => unfinished events
      end.
  Proof using Henv.
    intros HA Hne. unfold mbind at 1, action_bind at 1.
    destruct (loadRevisionIDs _ _ _ _ w) as [w1 x] eqn:Hl. destruct (load_ids_run _ _ _ _ _ _ HA Hl) as (A1 & HA1 & Hext1 & Hh1 & Hrows).
    destruct x as [revisions|e]; [|intros [= <- <-]; exists A1, []; rewrite app_nil_r; split_and!; [done..|]; exists [], []; apply prefix_nil].
    unfold mbind at 1, action_bind at 1.
    destruct (engine _ _ w1) as [w2 y] eqn:He. destruct (engine_run _ _ _ _ _ _ HA1 He) as (HA2 & Hext2 & Hh2).
    destruct y as [[]|e].
    - intros Hrun. destruct (commit_to_run _ _ _ _ _ _ _ _ HA2 Hrun) as (A3 & ev & HA3 & Hext3 & Hh3 & Hr).
      exists A3, (Applied changes revisions :: ev). split_and!; [done|by eapply extends_trans; [|eapply extends_trans]| |].
      + rewrite Hh3, Hh2, Hh1. cbn [log]. by rewrite <-app_assoc.
      + destruct r as [[]|e]; [|by exists changes, revisions; apply prefix_cons].
        exists revisions. split; [by rewrite Hr|]. split; [exact Hne|]. apply (rows_of_grows (A1 s)); [apply Hext3|by apply Hrows].
    - intros [= <- <-]. exists A1, []. rewrite app_nil_r. split_and!; [done|by eapply extends_trans| |].
      + by rewrite Hh2, Hh1.
      + exists [], []. apply prefix_nil.
  Qed.

(** The batches applied from one watermark to another are the window of the log between. *)
Record replayed_window (L : Ledger) (lo hi : Z) (bs : list batch) : Prop := {
  rw_order : lo ≤ hi;
  rw_bounded : lo = hi ∨ hi ≤ version L;
  rw_window : concat (map fst bs) = window (Z.to_nat lo) (Z.to_nat hi) (lg_Log L);
  rw_batches : Forall (batch_ok L) bs }.

Lemma replayed_nil L lo : replayed_window L lo lo [].
  Proof using. split; [lia|by left|by rewrite window_nil|constructor]. Qed.

Lemma replayed_cons L lo mid hi b bs :
    0 ≤ lo → lo ≤ mid → mid ≤ version L → b.1 = window (Z.to_nat lo) (Z.to_nat mid) (lg_Log L) → batch_ok L b →
    replayed_window L mid hi bs → replayed_window L lo hi (b :: bs).
  Proof using.
    intros H0 Hle Hv Hb Hok [Hord Hbnd Hwin Hall]. split; [lia|right; lia| |by constructor]. cbn [map concat]. rewrite Hwin, Hb.
    apply window_app. lia.
  Qed.

Lemma batch_ok_grows L L' b : grows L L' → batch_ok L b → batch_ok L' b.
  Proof using. intros Hg [H1 H2]. split; [exact H1|]. by eapply rows_of_grows. Qed.

Lemma replayed_grows L L' lo hi bs : 0 ≤ lo → grows L L' → replayed_window L lo hi bs → replayed_window L' lo hi bs.
  Proof using.
    intros H0 Hg [Hord Hbnd Hwin Hbs]. pose proof (prefix_length _ _ (log_grows _ _ Hg)) as Hl. split; [exact Hord| | |].
    - unfold version, Zlength in *. lia.
    - rewrite Hwin. destruct Hbnd as [->|Hv]; [by rewrite !window_nil|]. symmetry. apply window_grows; [|apply Hg].
      unfold version, Zlength in Hv. lia.
    - eapply Forall_impl; [exact Hbs|]. intros b. by apply batch_ok_grows.
  Qed.

Lemma replay_run fuel s gen m applied A w w' m' r :
    holds A w → is_u64 (pm_Watermark m) → 1 ≤ batchSize ≤ 256 →
    replay env clock coordinator fuel s gen m applied w = (w', (m', r)) →
    ∃ A' bs rest, holds A' w' ∧ extends A A' w w' ∧ w_history w' = w_history w ++ concat (map block bs) ++ rest ∧
      m' = with_watermark m (pm_Watermark m') ∧ is_u64 (pm_Watermark m') ∧
      replayed_window (A' s) (pm_Watermark m) (pm_Watermark m') bs ∧
      match r with
      | Ok b => rest = [] ∧ b = applied || negb (bool_decide (bs = [])) ∧ version (A' s) ≤ pm_Watermark m'
      | Err _ => unfinished rest
      end.
  Proof using Henv.
    revert m applied A w. induction fuel as [|fuel IH]; intros m applied A w HA Hm Hb; cbn [replay].
    { intros [= <- <- <-]. exists A, [], []. rewrite app_nil_r. split_and!; [done|apply extends_refl|done|by destruct m|done|apply replayed_nil|].
      exists [], []. apply prefix_nil. }
    unfold attempt at 1. destruct (read _ _ _ w) as [w1 x] eqn:Hscan. destruct x as [changes|e].
    2:{ intros [= <- <- <-]. destruct (read_run _ _ _ _ _ HA Hscan) as (A1 & HA1 & Hext1 & _ & Hh1).
        exists A1, [], []. rewrite app_nil_r. split_and!; [done|done|done|by destruct m|done|apply replayed_nil|].
        exists [], []. apply prefix_nil. }
    destruct (scan_run _ _ _ _ _ _ HA Hm Hb Hscan) as (A1 & HA1 & Hext1 & Hh1 & Hc).
    assert (Hok1 : ledger_ok (A1 s)) by (apply reachable_ok; apply HA1). unfold is_u64 in Hm.
    destruct (last changes) as [final|] eqn:Hlast.
    - destruct (scanned_window _ _ _ _ _ Hok1 (proj1 Hm) Hc Hlast) as [Hseq Hwin].
      assert (Hne : changes ≠ []) by (by intros ->). assert (Hls : last_sequence changes = ch_Sequence final) by (unfold last_sequence; by rewrite Hlast).
      unfold attempt at 1. rewrite <-Hls. match goal with |- context [match ?x with (_, _) => _ end] => destruct x as [w2 y] eqn:Hrun end.
      destruct (batch_run s gen m changes A1 w1 w2 y HA1 Hne Hrun) as (A2 & ev & HA2 & Hext2 & Hh2 & Hy).
      pose proof (ok_version _ Hok1) as Hmax. assert (Hu : is_u64 (last_sequence changes)) by (unfold is_u64, max_u64 in *; lia).
      assert (Hwin2 : ∀ A3 w3, extends A2 A3 w2 w3 →
        changes = window (Z.to_nat (pm_Watermark m)) (Z.to_nat (last_sequence changes)) (lg_Log (A3 s))).
      { intros A3 w3 [_ Hg3]. rewrite (window_grows _ _ (lg_Log (A1 s))); [by rewrite Hls| |].
        - unfold version, Zlength in Hseq. lia.
        - etrans; [apply Hext2 | apply Hg3]. }
      destruct y as [[]|e].
      + destruct Hy as (revisions & -> & Hbok). intros Hrest.
        destruct (IH (with_watermark m (last_sequence changes)) true A2 w2 HA2 Hu Hb Hrest)
          as (A3 & bs & rest & HA3 & Hext3 & Hh3 & Hm3 & Hu3 & Hwin3 & Hr3).
        exists A3, ((changes, revisions) :: bs), rest. split_and!; [done|by eapply extends_trans; [|eapply extends_trans]| | |done| |].
        * rewrite Hh3, Hh2, Hh1. cbn [map concat]. by rewrite <-!app_assoc.
        * rewrite Hm3 at 1. by destruct m.
        * apply (replayed_cons _ _ (last_sequence changes)); [lia|lia| |by apply (Hwin2 A3 w')|by apply (batch_ok_grows (A2 s)); [apply Hext3|]|exact Hwin3].
          destruct Hext2 as [_ Hg2], Hext3 as [_ Hg3]. pose proof (prefix_length _ _ (log_grows _ _ (Hg2 s))).
          pose proof (prefix_length _ _ (log_grows _ _ (Hg3 s))). unfold version, Zlength in *. lia.
        * destruct r as [b|e]; [|exact Hr3]. destruct Hr3 as (-> & -> & Hv). split_and!; [done| |done].
          rewrite (bool_decide_false (_ :: _ = [])) by done. by rewrite orb_true_r.
      + intros [= <- <- <-]. exists A2, [], ev. split_and!; [done|by eapply extends_trans|by rewrite Hh2, Hh1|by destruct m|done|apply replayed_nil|done].
    - intros [= <- <- <-]. exists A1, [], []. rewrite app_nil_r. split_and!; [done|done|done|by destruct m|done|apply replayed_nil|done| |].
      + by rewrite bool_decide_true, orb_false_r.
      + apply last_None in Hlast. rewrite Hlast in Hc. symmetry in Hc.
        assert (Hl : length (take (Z.to_nat batchSize) (drop (Z.to_nat (pm_Watermark m)) (lg_Log (A1 s)))) = 0%nat) by (by rewrite Hc).
        rewrite length_firstn, length_skipn in Hl. unfold version, Zlength. lia.
  Qed.

(** *** Views *)

(** An action that only reads. *)
Definition quiet {X} (m : action (world database Ap) X) : Prop :=
  ∀ A w w' r, holds A w → m w = (w', r) → ∃ A', holds A' w' ∧ extends A A' w w' ∧ w_history w' = w_history w.

Lemma quiet_lift {X} (r : result X) : quiet (lift r).
  Proof using. intros A w w' x HA [= <- <-]. exists A. split_and!; [done|apply extends_refl|done]. Qed.
Lemma quiet_ret {X} (x : X) : quiet (mret x).
  Proof using. intros A w w' r HA [= <- <-]. exists A. split_and!; [done|apply extends_refl|done]. Qed.
Lemma quiet_read {X} (f : database → result X) : quiet (read env X f).
  Proof using Henv. intros A w w' r HA H. destruct (read_run _ _ _ _ _ HA H) as (A' & HA' & Hext & _ & Hh). by exists A'. Qed.
Lemma quiet_bind {X Y} (m : action (world database Ap) X) (k : X → action (world database Ap) Y) :
    quiet m → (∀ x, quiet (k x)) → quiet (m ≫= k).
  Proof using.
    intros Hm Hk A w w' r HA. unfold mbind, action_bind. destruct (m w) as [w1 [x|e]] eqn:E.
    - destruct (Hm _ _ _ _ HA E) as (A1 & HA1 & Hext1 & Hh1). intros H. destruct (Hk x _ _ _ _ HA1 H) as (A2 & HA2 & Hext2 & Hh2).
      exists A2. split_and!; [done|by eapply extends_trans|by rewrite Hh2].
    - intros [= <- <-]. by apply (Hm _ _ _ _ HA E).
  Qed.
Lemma quiet_fold {X S} (f : S → X → action (world database Ap) S) s l : (∀ s x, quiet (f s x)) → quiet (fold_action f s l).
  Proof using.
    intros Hf. revert s. induction l as [|x l IH]; intros s; cbn [fold_action]; [apply quiet_ret|]. by apply quiet_bind.
  Qed.

Lemma quiet_revisions source s ids : quiet (loadRevisionIDs source (read env) s ids).
  Proof using Henv. apply quiet_fold. intros acc b. apply quiet_bind; [apply quiet_read|]. intros more. apply quiet_ret. Qed.

Lemma quiet_changes source s after limit : quiet (loadChanges source (read env) s after limit).
  Proof using Henv.
    unfold loadChanges. destruct (limit =? 0); [apply quiet_ret|]. apply quiet_bind; [apply quiet_read|]. intros changes. apply quiet_revisions.
  Qed.

Lemma quiet_pages source fuel s after limit active : quiet (active_pages source (read env) fuel s after limit active).
  Proof using Henv.
    revert after active. induction fuel as [|fuel IH]; intros after active; cbn [active_pages]; [apply quiet_lift|].
    destruct (Zlength active <? limit); [|apply quiet_ret]. cbv zeta. apply quiet_bind; [apply quiet_read|]. intros page.
    destruct (bool_decide (page = [])); [apply quiet_ret|]. apply quiet_bind; [apply quiet_lift|]. intros _.
    apply quiet_bind; [apply quiet_revisions|]. intros revisions. apply quiet_bind; [apply quiet_lift|]. intros more.
    destruct (Zlength page <? _); [apply quiet_ret | apply IH].
  Qed.

Lemma quiet_active source s after limit : quiet (loadActive source (read env) s after limit).
  Proof using Henv.
    unfold loadActive. apply quiet_bind; [apply quiet_pages|]. intros active. destruct (last active); [|apply quiet_ret].
    destruct (Zlength active <? limit); [apply quiet_ret|]. apply quiet_bind; [apply quiet_read|]. intros probe. apply quiet_ret.
  Qed.

(** A view's state is one the scope had when the view began. *)
Lemma build_run request A w w' r :
    holds A w → Build (badger_source ctx later) (read env) request w = (w', r) →
    ∃ A', holds A' w' ∧ extends A A' w w' ∧ w_history w' = w_history w ∧
      ∀ view, r = Ok view → version (A (pv_Scope request)) ≤ sst_ChangeSeq (bv_State view) ≤ version (A' (pv_Scope request)).
  Proof using Henv.
    intros HA. unfold Build. unfold mbind at 1, action_bind at 1. destruct (lift (normalized request) w) as [w0 [q|e]] eqn:Hq.
    2:{ intros [= <- <-]. destruct (quiet_lift _ _ _ _ _ HA Hq) as (A' & HA' & Hext & Hh). by exists A'. }
    apply lift_run in Hq as [-> Hq]. cbv zeta. unfold mbind at 1, action_bind at 1.
    destruct (read env _ _ w) as [w1 x] eqn:Hr. destruct (read_run _ _ _ _ _ HA Hr) as (A1 & HA1 & Hext1 & Hx & Hh1).
    destruct x as [st|e]; [|intros [= <- <-]; by exists A1].
    assert (Hscope : pv_Scope q = pv_Scope request).
    { unfold normalized in Hq. apply bind_unit in Hq as [_ Hq]. apply reject_bind in Hq as (_ & Hq). cbv zeta in Hq.
      apply bind_unit in Hq as [_ <-%Ok_inj]. reflexivity. }
    rewrite Hscope in *. set (s := pv_Scope request) in *.
    assert (Hst : sst_ChangeSeq st = version (A1 s)).
    { symmetry in Hx. cbn [pj_LoadScopeState badger_source] in Hx. unfold Badger_LoadScopeState in Hx.
      apply bind_unit in Hx as [_ Hx]. apply bind_unit in Hx as [_ Hx]. apply bind_Ok in Hx as (k & Hk & Hx).
      apply bind_Ok in Hx as (st' & Hst' & Hx). apply bind_unit in Hx as [_ <-%Ok_inj]. unfold View, wrap_error in Hst'.
      destruct (read_state _ _ _) as [z|] eqn:E; [|done]. apply Ok_inj in Hst' as <-.
      destruct HA1 as [_ HA1]. destruct (HA1 s) as [_ Hrep]. by apply (read_state_represents _ _ _ _ _ Hrep Hk) in E as ->. }
    match goal with |- ?k w1 = _ → _ => assert (Hrest : quiet k) end.
    { apply quiet_bind; [apply quiet_lift|]. intros _. apply quiet_bind; [apply quiet_active|]. intros [active truncated].
      apply quiet_bind; [apply quiet_changes|]. intros recent. apply quiet_bind; [apply quiet_changes|]. intros changed.
      apply quiet_bind; [apply quiet_lift|]. intros _. apply quiet_ret. }
    intros H. destruct (Hrest _ _ _ _ HA1 H) as (A2 & HA2 & Hext2 & Hh2). exists A2. split_and!; [done|by eapply extends_trans|by rewrite Hh2|].
    intros view ->. apply bind_run in H as (w3 & [] & _ & H). apply bind_run in H as (w4 & [active truncated] & _ & H).
    apply bind_run in H as (w5 & recent & _ & H). apply bind_run in H as (w6 & changed & _ & H). cbv zeta in H.
    apply bind_run in H as (w7 & [] & _ & H). injection H as _ <-. cbn [bv_State]. rewrite Hst. unfold version, Zlength.
    destruct Hext1 as [_ Hg1], Hext2 as [_ Hg2]. pose proof (prefix_length _ _ (log_grows _ _ (Hg1 s))) as L1.
    pose proof (prefix_length _ _ (log_grows _ _ (Hg2 s))) as L2. lia.
  Qed.

(** *** The phases of a synchronisation *)
Definition rebuild_event (e : sync_event) : Prop :=
  match e with Rebuilding | Rebuilt _ | RebuildEnded | Committed | Advanced _ => True | _ => False end.

(** The view a rebuild showed last has the state of change [watermark]. *)
Definition shown_last (events : list sync_event) (watermark : Z) : Prop :=
  ∃ before view after, events = before ++ Rebuilt view :: after ∧ (after = [] ∨ after = [RebuildEnded]) ∧
    sst_ChangeSeq (bv_State view) = watermark.

Lemma one_rebuild_event e r : rebuild_event e → Forall rebuild_event (log (Some e) r []).
  Proof using. intros He. destruct r; cbn [log app]; [by constructor | constructor]. Qed.

Lemma log_app e r h : log e r h = h ++ log e r [].
  Proof using. destruct e, r; cbn [log]; by rewrite ?app_nil_r. Qed.

Lemma version_is_u64 A w s : holds A w → is_u64 (version (A s)).
  Proof using. intros [_ HA]. apply version_u64, reachable_ok, HA. Qed.

Lemma rebuild_batches_run fuel s gen after rebuilder A w w' r :
    holds A w → rebuild_batches env coordinator fuel s gen after rebuilder w = (w', r) →
    ∃ A' events, holds A' w' ∧ extends A A' w w' ∧ w_history w' = w_history w ++ events ∧ Forall rebuild_event events ∧
      ∀ watermark, r = Ok watermark → version (A s) ≤ watermark ≤ version (A' s) ∧
        ∃ before view, events = before ++ [Rebuilt view] ∧ sst_ChangeSeq (bv_State view) = watermark.
  Proof using Henv.
    revert after A w. induction fuel as [|fuel IH]; intros after A w HA; cbn [rebuild_batches].
    { intros [= <- <-]. exists A, []. rewrite app_nil_r. by split_and!. }
    unfold mbind at 1, action_bind at 1. destruct (Build _ _ _ w) as [w1 x] eqn:Hb.
    destruct (build_run _ _ _ _ _ HA Hb) as (A1 & HA1 & Hext1 & Hh1 & Hview). cbn [pv_Scope] in Hview.
    destruct x as [view|e]; [|intros [= <- <-]; exists A1, []; rewrite app_nil_r; by split_and!].
    specialize (Hview view eq_refl). unfold mbind at 1, action_bind at 1. destruct (engine _ _ w1) as [w2 y] eqn:He.
    destruct (engine_run _ _ _ _ _ _ HA1 He) as (HA2 & Hext2 & Hh2). rewrite log_app in Hh2.
    pose proof (one_rebuild_event (Rebuilt view) y I) as Hev.
    assert (Hdone : ∃ events, w_history w2 = w_history w ++ events ∧ Forall rebuild_event events ∧ (y = Ok tt → events = [Rebuilt view])).
    { eexists. rewrite <-Hh1. split_and!; [exact Hh2|exact Hev|]. by intros ->. }
    destruct Hdone as (ev & Hh & Hall & Hlast). assert (Hext : extends A A1 w w2) by (by eapply extends_trans).
    destruct y as [[]|e]; [|intros [= <- <-]; by exists A1, ev; split_and!]. specialize (Hlast eq_refl).
    assert (Hret : ∃ A' events, holds A' w2 ∧ extends A A' w w2 ∧ w_history w2 = w_history w ++ events ∧
      Forall rebuild_event events ∧ ∀ watermark, Ok (sst_ChangeSeq (bv_State view)) = Ok watermark → version (A s) ≤ watermark ≤ version (A' s) ∧
        ∃ before view, events = before ++ [Rebuilt view] ∧ sst_ChangeSeq (bv_State view) = watermark).
    { exists A1, ev. split_and!; [done..|]. intros ? <-%Ok_inj. split; [done|]. by exists [], view. }
    destruct (last (bv_Active view)) as [final|]; [|by intros [= <- <-]].
    destruct (bv_ActiveTruncated view); [|by intros [= <- <-]]. clear Hret. intros Hrest.
    destruct (IH _ _ _ HA2 Hrest) as (A3 & ev3 & HA3 & Hext3 & Hh3 & Hall3 & Hw3). exists A3, (ev ++ ev3).
    split_and!; [done|by eapply extends_trans|by rewrite Hh3, Hh, app_assoc|by apply Forall_app|].
    intros watermark Hr. destruct (Hw3 _ Hr) as [Hle (before & v & -> & Hv)]. split; [|exists (ev ++ before), v; by rewrite app_assoc].
    destruct Hext as [_ Hg]. pose proof (prefix_length _ _ (log_grows _ _ (Hg s))). unfold version, Zlength in *. lia.
  Qed.

Lemma rebuild_run fuel s gen A w w' r :
    holds A w → rebuildFromCanonical env coordinator fuel s gen w = (w', r) →
    ∃ A' events, holds A' w' ∧ extends A A' w w' ∧ w_history w' = w_history w ++ events ∧ Forall rebuild_event events ∧
      ∀ watermark, r = Ok watermark → version (A s) ≤ watermark ≤ version (A' s) ∧ shown_last events watermark.
  Proof using Henv.
    intros HA. unfold rebuildFromCanonical. cbn [pc_applier coordinator]. destruct (ap_Batch applier) as [rebuilder|].
    - unfold mbind at 1, action_bind at 1. destruct (engine _ _ w) as [w1 x] eqn:He.
      destruct (engine_run _ _ _ _ _ _ HA He) as (HA1 & Hext1 & Hh1). rewrite log_app in Hh1.
      pose proof (one_rebuild_event Rebuilding x I) as Hev1.
      destruct x as [[]|e]; [|intros [= <- <-]; eexists A, _; by split_and!].
      unfold mbind at 1, action_bind at 1. destruct (rebuild_batches _ _ _ _ _ _ _ w1) as [w2 y] eqn:Hb.
      destruct (rebuild_batches_run _ _ _ _ _ _ _ _ _ HA1 Hb) as (A2 & ev2 & HA2 & Hext2 & Hh2 & Hall2 & Hw2).
      destruct y as [watermark|e].
      2:{ intros [= <- <-]. eexists A2, (_ ++ ev2). split_and!; [done|by eapply extends_trans|by rewrite Hh2, Hh1, <-app_assoc|by apply Forall_app|done]. }
      unfold mbind at 1, action_bind at 1. destruct (engine _ _ w2) as [w3 z] eqn:He3.
      destruct (engine_run _ _ _ _ _ _ HA2 He3) as (HA3 & Hext3 & Hh3). rewrite log_app in Hh3.
      pose proof (one_rebuild_event RebuildEnded z I) as Hev3.
      assert (Hcommon : holds A2 w3 ∧ extends A A2 w w3 ∧
        w_history w3 = w_history w ++ (log (Some Rebuilding) (Ok tt) [] ++ ev2 ++ log (Some RebuildEnded) z []) ∧
        Forall rebuild_event (log (Some Rebuilding) (Ok tt) [] ++ ev2 ++ log (Some RebuildEnded) z [])).
      { split_and!; [done|by eapply extends_trans; [|eapply extends_trans]|by rewrite Hh3, Hh2, Hh1, <-!app_assoc|].
        by apply Forall_app; split; [|apply Forall_app]. }
      destruct Hcommon as (C1 & C2 & C3 & C4). destruct z as [[]|e]; intros [= <- <-]; eexists A2, _; split_and!; try done.
      intros ? <-%Ok_inj. destruct (Hw2 _ eq_refl) as [Hle (before & view & -> & Hv)]. split; [exact Hle|].
      exists (Rebuilding :: before), view, [RebuildEnded]. cbn [log app]. rewrite <-!app_assoc. by split_and!; [|right|].
    - destruct (ap_Rebuild applier) as [rebuild|]; [|intros [= <- <-]; exists A, []; rewrite app_nil_r; by split_and!].
      unfold mbind at 1, action_bind at 1. destruct (Build _ _ _ w) as [w1 x] eqn:Hb.
      destruct (build_run _ _ _ _ _ HA Hb) as (A1 & HA1 & Hext1 & Hh1 & Hview). cbn [pv_Scope] in Hview.
      destruct x as [view|e]; [|intros [= <- <-]; exists A1, []; rewrite app_nil_r; by split_and!].
      unfold mbind at 1, action_bind at 1. unfold lift. destruct (reject_if _ _) as [[]|e];
        [|intros [= <- <-]; exists A1, []; rewrite app_nil_r; by split_and!].
      unfold mbind, action_bind. destruct (engine _ _ w1) as [w2 y] eqn:He.
      destruct (engine_run _ _ _ _ _ _ HA1 He) as (HA2 & Hext2 & Hh2). rewrite log_app in Hh2.
      pose proof (one_rebuild_event (Rebuilt view) y I) as Hev. rewrite Hh1 in Hh2.
      destruct y as [[]|e]; intros [= <- <-]; eexists A1, _; split_and!; try done; try (by eapply extends_trans).
      intros ? <-%Ok_inj. split; [by apply Hview|]. exists [], view, []. by split_and!; [|left|].
  Qed.

(** Where a replay starts: at the stored watermark, or where the rebuild that a retention
    floor above it asks for has brought the projection. *)
Definition sync_start (stored floor before after : Z) (rebuild : list sync_event) (start : Z) : Prop :=
  floor ≤ start ∧
  ((rebuild = [] ∧ start = stored) ∨
   (stored < floor ∧ before ≤ start ≤ after ∧
    ∃ events, rebuild = events ++ [Committed; Advanced start] ∧ shown_last events start)).

Lemma sync_start_grows stored floor b0 b a a0 rebuild start :
    b0 ≤ b → a ≤ a0 → sync_start stored floor b a rebuild start → sync_start stored floor b0 a0 rebuild start.
  Proof using. intros Hb Ha [Hf [H|(H1 & H2 & H3)]]; (split; [exact Hf|]); [by left|]. right. split_and!; [done|lia|lia|done]. Qed.

Lemma raise_run fuel s p g m A w w' r :
    holds A w → raise_to_floor env clock coordinator fuel s p g m w = (w', r) →
    ∃ A' events, holds A' w' ∧ extends A A' w w' ∧ w_history w' = w_history w ++ events ∧ Forall rebuild_event events ∧
      ∀ m', r = Ok m' → m' = with_watermark m (pm_Watermark m') ∧ (is_u64 (pm_Watermark m) → is_u64 (pm_Watermark m')) ∧
        ∃ db floor, rtc store_step (w_store w) db ∧ rtc store_step db (w_store w') ∧ LoadProjectionRetentionFloor ctx s p db = Ok floor ∧
          sync_start (pm_Watermark m) floor (version (A s)) (version (A' s)) events (pm_Watermark m').
  Proof using Henv.
    intros HA. unfold raise_to_floor. cbn [pj_LoadProjectionRetentionFloor pc_canonical coordinator badger_source].
    unfold mbind at 1, action_bind at 1. destruct (read env _ _ w) as [w1 x] eqn:Hr.
    destruct (read_run _ _ _ _ _ HA Hr) as (A1 & HA1 & Hext1 & Hfloor & Hh1).
    destruct x as [floor|e]; [|intros [= <- <-]; exists A1, []; rewrite app_nil_r; by split_and!].
    destruct (Z.ltb_spec (pm_Watermark m) floor) as [Hlt|Hge].
    2:{ intros [= <- <-]. exists A1, []. rewrite app_nil_r. split_and!; [done..|]. intros m' <-%Ok_inj. split; [by destruct m|]. split; [done|].
        exists (w_store w1), floor. split_and!; [apply Hext1|done|done|]. split; [exact Hge|by left]. }
    unfold mbind at 1, action_bind at 1. destruct (rebuildFromCanonical _ _ _ _ _ w1) as [w2 y] eqn:Hb.
    destruct (rebuild_run _ _ _ _ _ _ _ HA1 Hb) as (A2 & ev2 & HA2 & Hext2 & Hh2 & Hall2 & Hw2). rewrite Hh1 in Hh2.
    assert (Hext : extends A A2 w w2) by (by eapply extends_trans).
    destruct y as [watermark|e]; [|intros [= <- <-]; exists A2, ev2; by split_and!]. destruct (Hw2 watermark eq_refl) as [Hle Hshown]. clear Hw2.
    unfold mbind at 1, action_bind at 1. unfold lift at 1. destruct (reject_if _ _) as [[]|e] eqn:Hreject; [|intros [= <- <-]; exists A2, ev2; by split_and!].
    apply reject_if_Ok, Z.ltb_ge in Hreject.
    unfold mbind, action_bind. destruct (commit_to _ _ _ _ _ _ _ w2) as [w3 z] eqn:Hc.
    destruct (commit_to_run _ _ _ _ _ _ _ _ HA2 Hc) as (A3 & ev3 & HA3 & Hext3 & Hh3 & Hz).
    assert (Hev3 : Forall rebuild_event ev3).
    { destruct z as [[]|e]; [subst ev3; by repeat constructor|]. destruct Hz as [rest Hz].
      destruct ev3 as [|ev [|? ?]]; [constructor|injection Hz as <- _; by constructor|discriminate Hz]. }
    intros Hret. assert (Hw' : w' = w3) by (destruct z; by injection Hret). subst w'.
    exists A3, (ev2 ++ ev3). split_and!; [done|by eapply extends_trans|by rewrite Hh3, Hh2, app_assoc|by apply Forall_app|].
    intros m' ->. destruct z as [[]|e]; [|discriminate Hret]. injection Hret as <-. cbn [with_watermark pm_Watermark].
    split; [reflexivity|]. pose proof (version_is_u64 A2 w2 s HA2) as Hu. pose proof (version_nonneg (A1 s)).
    pose proof (proj2 Hext1) as Hg1. pose proof (prefix_length _ _ (log_grows _ _ (Hg1 s))) as Hl.
    split; [intros _; unfold is_u64 in *; lia|]. exists (w_store w1), floor.
    split_and!; [apply Hext1|etrans; [apply Hext2 | apply Hext3]|done|]. split; [exact Hreject|]. right. destruct Hext3 as [_ Hg3].
    pose proof (prefix_length _ _ (log_grows _ _ (Hg3 s))). split_and!; [exact Hlt|unfold version, Zlength in *; lia..|].
    exists ev2. by rewrite Hz.
  Qed.

(** The watermark a generation was left at. *)
Definition stored_watermark (found : option ProjectionManifest) (g : string) : Z :=
  match found with Some m => if bool_decide (pm_GenerationID m = g) then pm_Watermark m else 0 | None => 0 end.

Lemma prepare_run s p g A w w' r :
    holds A w → (∀ m, LoadProjectionManifest ctx s p g (env (w_calls w) (w_store w)) = Ok (Some m) → is_u64 (pm_Watermark m)) →
    prepare_manifest env clock coordinator s p g w = (w', r) →
    ∃ A', holds A' w' ∧ extends A A' w w' ∧
      match r with
      | Ok m => w_history w' = w_history w ++ [Dirtied] ∧ is_u64 (pm_Watermark m) ∧ pm_Status m = ProjectionGenerationDirty ∧
          pm_GenerationID m = g ∧
          ∃ found, LoadProjectionManifest ctx s p g (env (w_calls w) (w_store w)) = Ok found ∧ pm_Watermark m = stored_watermark found g
      | Err _ => w_history w' = w_history w
      end.
  Proof using Henv.
    intros HA Hstored. unfold prepare_manifest. unfold mbind at 1, action_bind at 1, lift at 1.
    destruct (Scope_Validate s) as [?|e]; [|intros [= <- <-]; exists A; by split_and!].
    unfold mbind at 1, action_bind at 1, lift at 1.
    destruct (reject_if _ _) as [[]|e]; [|intros [= <- <-]; exists A; by split_and!].
    unfold mbind at 1, action_bind at 1. destruct (read env _ _ w) as [w1 x] eqn:Hr.
    assert (Hx0 : x = LoadProjectionManifest ctx s p g (env (w_calls w) (w_store w))) by (by injection Hr).
    destruct (read_run _ _ _ _ _ HA Hr) as (A1 & HA1 & Hext1 & _ & Hh1).
    destruct x as [found|e]; [|intros [= <- <-]; by exists A1].
    unfold mbind at 1, action_bind at 1, currentTime at 1. cbv zeta. set (m := match found with Some _ => _ | None => _ end).
    assert (Hm : is_u64 (pm_Watermark m) ∧ pm_GenerationID m = g).
    { assert (Hfresh : ∀ t, is_u64 (pm_Watermark (mkManifest s p g ProjectionGenerationBuilding 0 t))) by (by intros t).
      unfold m. destruct found as [m0|]; [|by split]. case_bool_decide as Hg; [|by split]. split; [by apply Hstored|exact Hg]. }
    unfold mbind, action_bind. destruct (write env _ _ w1) as [w2 y] eqn:Hw.
    destruct (write_run _ _ A1 w1 w2 y (λ db, st_mark_dirty _ _ (fault m db) ctx m _ (surjective_pairing _)) HA1 Hw) as (A2 & HA2 & Hext2 & Hh2).
    rewrite Hh1 in Hh2. assert (Hst : pm_Watermark m = stored_watermark found g).
    { unfold m, stored_watermark. destruct found as [m0|]; [|done]. by case_bool_decide. }
    destruct y as [[]|e]; intros [= <- <-]; exists A2; split_and!; try done; try (by eapply extends_trans); try (by apply Hm).
    exists found. by split.
  Qed.

(** What the last phase leaves: the commit, if it was still owed, the activation and the
    engine's own switch. *)
Definition closing (applied : bool) : list sync_event :=
  (if applied then [] else [Committed]) ++ [Activated] ++ (match ap_Activate applier with Some _ => [Switched] | None => [] end).

Lemma finish_run s g m applied A w w' r :
    holds A w → finish env clock coordinator s g m applied w = (w', r) →
    ∃ A' events, holds A' w' ∧ extends A A' w w' ∧ w_history w' = w_history w ++ events ∧
      match r with
      | Ok _ => events = closing applied
      | Err _ => (∀ e, e ∈ events → e = Committed) ∨ (is_Some (ap_Activate applier) ∧ ∃ before, events = before ++ [Activated])
      end.
  Proof using Henv.
    intros HA. unfold finish, closing. cbn [pc_applier pc_checkpoints coordinator]. unfold mbind at 1, action_bind at 1.
    match goal with |- context [match ?m w with (_, _) => _ end] => destruct (m w) as [w1 x] eqn:Hx end.
    assert (H1 : holds A w1 ∧ extends A A w w1 ∧ ∃ ev1, w_history w1 = w_history w ++ ev1 ∧
      (∀ e, e ∈ ev1 → e = Committed) ∧ (x = Ok tt → ev1 = if applied then [] else [Committed])).
    { destruct applied.
      - injection Hx as <- <-. split_and!; [done|apply extends_refl|]. exists []. rewrite app_nil_r. split_and!; [done| |done].
        intros e He. by apply elem_of_nil in He.
      - destruct (engine_run _ _ _ _ _ _ HA Hx) as (HA1 & Hext1 & Hh1). rewrite log_app in Hh1. split_and!; [done|done|].
        eexists. split_and!; [exact Hh1| |by intros ->]. intros e He. destruct x as [[]|]; cbn in He; [by apply list_elem_of_singleton in He|by apply elem_of_nil in He]. }
    destruct H1 as (HA1 & Hext1 & ev1 & Hh1 & Hev1 & Hok1).
    destruct x as [[]|e]; [|intros [= <- <-]; exists A, ev1; split_and!; [done..|by left]]. rewrite (Hok1 eq_refl) in *. clear Hok1.
    unfold mbind at 1, action_bind at 1, currentTime at 1. unfold mbind at 1, action_bind at 1.
    destruct (write env _ _ w1) as [w2 y] eqn:Hw.
    destruct (write_run _ _ A w1 w2 y (λ db, st_activate _ _ (fault m db) ctx m _ _ (surjective_pairing _)) HA1 Hw) as (A2 & HA2 & Hext2 & Hh2).
    rewrite log_app, Hh1, <-app_assoc in Hh2. assert (Hext : extends A A2 w w2) by (by eapply extends_trans).
    destruct y as [[]|e].
    2:{ intros [= <- <-]. eexists A2, _. split_and!; [done..|]. left. cbn [log]. rewrite app_nil_r. exact Hev1. }
    cbn [log app] in Hh2. destruct (ap_Activate applier) as [activate|] eqn:Hact.
    - intros He. destruct (engine_run _ _ _ _ _ _ HA2 He) as (HA3 & Hext3 & Hh3). rewrite log_app, Hh2, <-!app_assoc in Hh3.
      eexists A2, _. split_and!; [exact HA3|by eapply extends_trans|exact Hh3|]. destruct r as [[]|e]; cbn [log].
      + reflexivity.
      + right. split; [done|]. eexists. by rewrite app_nil_r.
    - intros [= <- <-]. eexists A2, _. split_and!; [done..|]. by rewrite app_nil_r.
  Qed.

(** *** A synchronisation *)
Definition caught_up (s : Scope) (m : ProjectionManifest) (w w' : world database Ap) : Prop :=
  ∃ db L, rtc store_step (w_store w) db ∧ rtc store_step db (w_store w') ∧ represents db s L ∧ version L ≤ pm_Watermark m.

Lemma rebuild_not_activated events : Forall rebuild_event events → Activated ∉ events.
  Proof using. rewrite Forall_forall. intros H Hin. exact (H _ Hin). Qed.

Lemma blocks_not_activated (bs : list batch) : Activated ∉ concat (map block bs).
  Proof using.
    intros (l & (b & <- & _)%in_map_iff & Hl%list_elem_of_In)%list_elem_of_In%in_concat. unfold block in Hl.
    rewrite !elem_of_cons, elem_of_nil in Hl. by destruct Hl as [?|[?|[?|?]]].
  Qed.

Lemma unfinished_not_activated rest : unfinished rest → Activated ∉ rest.
  Proof using.
    intros (cs & rs & [t Ht]) Hin. assert (Hall : Activated ∈ [Applied cs rs; Committed]) by (rewrite Ht; apply elem_of_app; by left).
    rewrite !elem_of_cons, elem_of_nil in Hall. by destruct Hall as [?|[?|?]].
  Qed.

(** How a synchronisation may fail: before activation, or in the engine's own switch after it. *)
Definition failed_history (events : list sync_event) : Prop :=
  Activated ∉ events ∨ (is_Some (ap_Activate applier) ∧ ∃ before, events = before ++ [Activated]).

Lemma sync_run fuel s p g A w w' m r :
    holds A w → 1 ≤ batchSize ≤ 256 →
    (∀ m, LoadProjectionManifest ctx s p g (env (w_calls w) (w_store w)) = Ok (Some m) → is_u64 (pm_Watermark m)) →
    Sync env clock coordinator fuel s p g w = (w', (m, r)) →
    ∃ A', holds A' w' ∧ extends A A' w w' ∧
      match r with
      | Ok _ => ∃ start rebuild bs found db floor,
          w_history w' = w_history w ++ Dirtied :: rebuild ++ concat (map block bs) ++ closing (negb (bool_decide (bs = []))) ∧
          Forall rebuild_event rebuild ∧ LoadProjectionManifest ctx s p g (env (w_calls w) (w_store w)) = Ok found ∧
          rtc store_step (w_store w) db ∧ rtc store_step db (w_store w') ∧ LoadProjectionRetentionFloor ctx s p db = Ok floor ∧
          sync_start (stored_watermark found g) floor (version (A s)) (version (A' s)) rebuild start ∧
          replayed_window (A' s) start (pm_Watermark m) bs ∧ caught_up s m w w' ∧
          pm_Status m = ProjectionGenerationActive ∧ pm_GenerationID m = g
      | Err _ => ∃ events, w_history w' = w_history w ++ events ∧ failed_history events
      end.
  Proof using Henv.
    intros HA Hb Hstored. unfold Sync. unfold attempt at 1. destruct (prepare_manifest _ _ _ _ _ _ w) as [w1 x] eqn:Hp.
    destruct (prepare_run _ _ _ _ _ _ _ HA Hstored Hp) as (A1 & HA1 & Hext1 & Hx).
    destruct x as [m1|e].
    2:{ intros [= <- <- <-]. exists A1. split_and!; [done|done|]. exists []. rewrite app_nil_r. split; [done|left; apply not_elem_of_nil]. }
    destruct Hx as (Hh1 & Hu1 & Hst1 & Hg1 & found & Hfound & Hwm). unfold attempt at 1. destruct (raise_to_floor _ _ _ _ _ _ _ _ w1) as [w2 y] eqn:Hr.
    destruct (raise_run _ _ _ _ _ _ _ _ _ HA1 Hr) as (A2 & ev2 & HA2 & Hext2 & Hh2 & Hall2 & Hy). rewrite Hh1, <-app_assoc in Hh2.
    assert (Hext12 : extends A A2 w w2) by (by eapply extends_trans).
    destruct y as [m2|e].
    2:{ intros [= <- <- <-]. exists A2. split_and!; [done|done|]. eexists. split; [exact Hh2|]. left. cbn [app].
        intros [?|Hin]%elem_of_cons; [done|]. by apply (rebuild_not_activated ev2). }
    destruct (Hy m2 eq_refl) as (Hm2 & Hu2 & db & floor & Hdb1 & Hdb2 & Hfloor & Hstart).
    destruct (replay _ _ _ _ _ _ _ _ w2) as [w3 [m3 z]] eqn:Hrep.
    destruct (replay_run _ _ _ _ _ _ _ _ _ _ HA2 (Hu2 Hu1) Hb Hrep) as (A3 & bs & rest & HA3 & Hext3 & Hh3 & Hm3 & _ & Hwin & Hz).
    rewrite Hh2, <-!app_assoc in Hh3. assert (Hext13 : extends A A3 w w3) by (by eapply extends_trans).
    destruct z as [applied|e].
    2:{ intros [= <- <- <-]. exists A3. split_and!; [done|done|]. eexists. split; [exact Hh3|]. left. cbn [app].
        intros [?|[Hin|[Hin|Hin]%elem_of_app]%elem_of_app]%elem_of_cons; [done| | |].
        - by apply (rebuild_not_activated ev2).
        - by apply (blocks_not_activated bs).
        - by apply (unfinished_not_activated rest). }
    destruct Hz as (-> & -> & Hv). rewrite app_nil_r in Hh3. unfold attempt at 1.
    destruct (finish _ _ _ _ _ _ _ w3) as [w4 f] eqn:Hf.
    destruct (finish_run _ _ _ _ _ _ _ _ HA3 Hf) as (A4 & ev4 & HA4 & Hext4 & Hh4 & Hev4). rewrite Hh3, <-!app_assoc in Hh4.
    assert (Hext14 : extends A A4 w w4) by (by eapply extends_trans).
    destruct f as [[]|e]; intros [= <- <- <-]; exists A4; split_and!; try done.
    - exists (pm_Watermark m2), ev2, bs, found, db, floor. cbn [app] in Hh4. rewrite Hev4 in Hh4.
      split_and!; [exact Hh4|exact Hall2|exact Hfound|etrans; [apply Hext1|exact Hdb1]|
        etrans; [exact Hdb2|etrans; [apply Hext3|apply Hext4]]|exact Hfloor| | | |done|].
      + rewrite <-Hwm. pose proof (prefix_length _ _ (log_grows _ _ (proj2 Hext1 s))) as L1.
        pose proof (prefix_length _ _ (log_grows _ _ (proj2 Hext3 s))) as L3. pose proof (prefix_length _ _ (log_grows _ _ (proj2 Hext4 s))) as L4.
        eapply sync_start_grows; [| |exact Hstart]; unfold version, Zlength in *; lia.
      + cbn [with_status pm_Watermark]. apply (replayed_grows (A3 s)); [|apply Hext4|exact Hwin].
        specialize (Hu2 Hu1). unfold is_u64 in Hu2. lia.
      + exists (w_store w3), (A3 s). split_and!; [apply Hext13|apply Hext4|apply HA3|done].
      + cbn [with_status pm_GenerationID]. rewrite Hm3, Hm2. exact Hg1.
    - eexists. split; [exact Hh4|]. destruct Hev4 as [Hall4|[Hact [before Hev4]]].
      + left. cbn [app]. intros [?|[Hin|[Hin|Hin]%elem_of_app]%elem_of_app]%elem_of_cons; [done| | |].
        * by apply (rebuild_not_activated ev2).
        * by apply (blocks_not_activated bs).
        * by specialize (Hall4 _ Hin).
      + right. split; [done|]. exists (Dirtied :: ev2 ++ concat (map block bs) ++ before). rewrite Hev4. cbn [app]. by rewrite !app_assoc.
  Qed.

(** *** Termination *)

(** The scope's log has at most [N] changes. *)
Definition within (s : Scope) (N : Z) (db : database) : Prop :=
  store_reachable db ∧ ∃ L, ledger_ok L ∧ represents db s L ∧ version L ≤ N.

Lemma represents_version db s L L' k :
    badgerScopeKey s = Ok k → represents db s L → represents db s L' → version L = version L'.
  Proof using.
    intros Hk H1 H2. pose proof (rep_state _ _ _ H1 k Hk) as E1. rewrite (rep_state _ _ _ H2 k Hk) in E1.
    case_bool_decide as D2; case_bool_decide as D1; try discriminate E1.
    - unfold version. by rewrite D1, D2.
    - apply (f_equal (λ o, match o with Some (mkStored _ (VScope st)) => sst_Version st | _ => 0 end)) in E1. cbn in E1. by symmetry.
  Qed.

Lemma scan_scope_key s after (w w' : world database Ap) changes :
    read env _ (pj_ScanScopeChanges (badger_source ctx later) s after batchSize) w = (w', Ok changes) →
    ∃ k, badgerScopeKey s = Ok k.
  Proof using.
    intros [= _ H]. cbn in H. unfold ScanScopeChanges in H. apply bind_unit in H as [_ H]. apply bind_unit in H as [_ H].
    apply reject_bind in H as (_ & H). apply bind_Ok in H as (prefix & Hp & _). unfold badgerScopeChangePrefix in Hp.
    apply scoped_key_Ok in Hp as (Hs & Hall & _). unfold badgerScopeKey. eexists. apply scoped_key_Ok. split; [exact Hs|].
    split; [|reflexivity]. rewrite !Forall_cons in Hall |- *. destruct Hall as (_ & H2 & H3 & H4).
    split; [by split|]. split; [exact H2|]. split; [exact H3 | constructor].
  Qed.

(** The scope's log does not grow beyond [N] by what others do. *)
Context (s : Scope) (N : Z) (Hwithin : ∀ n db, within s N db → within s N (env n db)).

Definition keeps {X} (m : action (world database Ap) X) : Prop := ∀ w, within s N (w_store w) → within s N (w_store (m w).1).

Lemma keeps_bind {X Y} (m : action (world database Ap) X) (k : X → action (world database Ap) Y) :
    keeps m → (∀ x, keeps (k x)) → keeps (m ≫= k).
  Proof using. intros Hm Hk w Hw. unfold mbind, action_bind. specialize (Hm w Hw). destruct (m w) as [w1 [x|e]]; [by apply Hk|done]. Qed.

Lemma keeps_read {X} (f : database → result X) : keeps (read env X f).
  Proof using Hwithin. intros w. apply Hwithin. Qed.

Lemma keeps_engine event f : keeps (engine event f).
  Proof using. intros w Hw. unfold engine. by destruct (f (w_applier w)). Qed.

Lemma keeps_batch gen m changes :
    keeps (revisions ← loadRevisionIDs (badger_source ctx later) (read env) s (uniqueRevisionIDs changes);
           _ ← engine (Some (Applied changes revisions)) (ap_Apply applier s gen changes revisions);
           commit_to env clock coordinator s gen m (last_sequence changes)).
  Proof using Hwithin.
    apply keeps_bind.
    - unfold loadRevisionIDs. generalize (@nil MemoryRevision). generalize (batches (length (uniqueRevisionIDs changes)) (uniqueRevisionIDs changes)).
      intros bs. induction bs as [|b bs IH]; intros acc; cbn [fold_action]; [by intros w|].
      apply keeps_bind; [|exact IH]. apply keeps_bind; [apply keeps_read|]. by intros more w.
    - intros revisions. apply keeps_bind; [apply keeps_engine|]. intros _. apply keeps_bind; [apply keeps_engine|]. intros _.
      apply keeps_bind; [by intros w|]. intros now w Hw%(Hwithin (w_calls w)). unfold write. cbv zeta.
      set (db := env (w_calls w) (w_store w)) in *. cbn [ms_AdvanceProjectionWatermark pc_checkpoints coordinator badger_manifests].
      destruct (AdvanceProjectionWatermark _ _ _ _ _ db) as [db' r] eqn:E. cbn [fst w_store].
      destruct Hw as [Hreach (L & Hok & Hrep & Hle)]. split; [eapply rtc_r; [exact Hreach | by eapply st_watermark]|].
      exists L. split_and!; [done| |done].
      apply (changes_represents [badgerRecordProjectionManifest] db); [|by eapply advance_watermark_keeps|exact Hrep].
      intros ty ->%list_elem_of_singleton. unfold side_types, private_types. in_list.
  Qed.

Lemma batch_within gen m changes w w' r :
    within s N (w_store w) →
    (revisions ← loadRevisionIDs (badger_source ctx later) (read env) s (uniqueRevisionIDs changes);
     _ ← engine (Some (Applied changes revisions)) (ap_Apply applier s gen changes revisions);
     commit_to env clock coordinator s gen m (last_sequence changes)) w = (w', r) →
    within s N (w_store w').
  Proof using Hwithin. intros Hw Hrun. pose proof (keeps_batch gen m changes w Hw) as H. by rewrite Hrun in H. Qed.

Lemma replay_stable fuel k gen m applied A w :
    holds A w → is_u64 (pm_Watermark m) → 1 ≤ batchSize ≤ 256 → within s N (w_store w) →
    (Z.to_nat (N - pm_Watermark m) < fuel)%nat →
    replay env clock coordinator (fuel + k) s gen m applied w = replay env clock coordinator fuel s gen m applied w.
  Proof using Henv Hwithin.
    revert m applied A w. induction fuel as [|fuel IH]; intros m applied A w HA Hm Hb HN Hf; [lia|]. cbn [replay Nat.add].
    unfold attempt at 1 3. destruct (read _ _ _ w) as [w1 x] eqn:Hscan. destruct x as [changes|e]; [|done].
    destruct (scan_run _ _ _ _ _ _ HA Hm Hb Hscan) as (A1 & HA1 & Hext1 & Hh1 & Hc). 
    pose proof (keeps_read (pj_ScanScopeChanges (pc_canonical coordinator) s (pm_Watermark m) (pc_batchSize coordinator)) w HN) as HN1.
    pose proof Hscan as Hk. rewrite Hscan in HN1. cbn [fst] in HN1. apply scan_scope_key in Hk as [sk Hsk].
    assert (Hok1 : ledger_ok (A1 s)) by (apply reachable_ok; apply HA1). unfold is_u64 in Hm.
    destruct (last changes) as [final|] eqn:Hlast; [|done].
    destruct (scanned_window _ _ _ _ _ Hok1 (proj1 Hm) Hc Hlast) as [Hseq _].
    assert (Hne : changes ≠ []) by (by intros ->). assert (Hls : last_sequence changes = ch_Sequence final) by (unfold last_sequence; by rewrite Hlast).
    unfold attempt at 1 2. rewrite <-Hls. 
    match goal with |- context [match ?x with (_, _) => _ end] => destruct x as [w2 y] eqn:Hrun end. 
    destruct (batch_run s gen m changes A1 w1 w2 y HA1 Hne Hrun) as (A2 & ev & HA2 & Hext2 & Hh2 & Hy). pose proof (batch_within gen m changes w1 w2 y HN1 Hrun) as HN2.
    destruct y as [[]|e]; [|done]. pose proof (ok_version _ Hok1) as Hmax.
    assert (HleN : version (A1 s) ≤ N).
    { destruct HN1 as (_ & L & _ & HrepL & HvL). rewrite (represents_version (w_store w1) s (A1 s) L sk Hsk); [done|apply HA1|done]. }
    apply (IH _ _ A2); [done| |done|done|cbn [with_watermark pm_Watermark]; lia].
    cbn [with_watermark pm_Watermark]. unfold is_u64, max_u64 in *. lia.
  Qed.
End sync.

(** ** Properties *)
Section properties.
  Context {Ap : Type} (env : nat → database → database) (clock : nat → Z).
  Context (fault : ProjectionManifest → database → option error) (ctx : Context) (later : database → database).
  Context (applier : ProjectionApplier Ap) (batchSize : Z).
  Context (Henv : ∀ n db, rtc store_step db (env n db)).
  Notation coordinator := (coordinator fault ctx later applier batchSize).


(** C21. A synchronisation replays the log: with other writers between its calls, a
    successful Sync marks the generation dirty, then applies changes in batches that
    together are exactly the window of the scope's log from where it starts to the
    watermark it ends at, each with the revisions its changes name, each committed before
    the watermark moves. It starts at the watermark stored for the generation, 0 where
    there is none; or, when the retention floor lies above that, at the state of the last
    view a rebuild showed, which is no older than the call. It activates the generation
    last, having caught up with the log at a moment of the call. *)
Theorem sync_replays_log fuel s p g w w' m :
    store_reachable (w_store w) → 1 ≤ batchSize ≤ 256 →
    (∀ m, LoadProjectionManifest ctx s p g (env (w_calls w) (w_store w)) = Ok (Some m) → is_u64 (pm_Watermark m)) →
    Sync env clock coordinator fuel s p g w = (w', (m, Ok tt)) →
    ∃ L0 L start rebuild bs found db floor, ledger_ok L ∧ represents (w_store w) s L0 ∧ represents (w_store w') s L ∧
      w_history w' = w_history w ++ Dirtied :: rebuild ++ concat (map block bs) ++ closing applier (negb (bool_decide (bs = []))) ∧
      Forall rebuild_event rebuild ∧ LoadProjectionManifest ctx s p g (env (w_calls w) (w_store w)) = Ok found ∧
      rtc store_step (w_store w) db ∧ rtc store_step db (w_store w') ∧ LoadProjectionRetentionFloor ctx s p db = Ok floor ∧
      sync_start (stored_watermark found g) floor (version L0) (version L) rebuild start ∧
      replayed_window L start (pm_Watermark m) bs ∧ caught_up s m w w' ∧
      pm_Status m = ProjectionGenerationActive ∧ pm_GenerationID m = g.
  Proof using Henv.
    intros Hreach Hb Hstored Hrun. destruct (reachable_ledgers _ Hreach) as [A HA].
    destruct (sync_run env clock fault ctx later applier batchSize Henv fuel s p g A w w' m (Ok tt) (conj Hreach HA) Hb Hstored Hrun)
      as (A' & [_ HA'] & _ & start & rebuild & bs & found & db & floor & Hh & Hre & Hfound & Hdb & Hdb' & Hfloor & Hstart & Hwin & Hcaught & Hst & Hg).
    exists (A s), (A' s), start, rebuild, bs, found, db, floor. destruct (HA s) as [_ Hrep0], (HA' s) as [HL Hrep].
    split_and!; try done. by apply reachable_ok.
  Qed.

(** A failed synchronisation is not advertised: when Sync fails, it has not activated
    the generation, unless the only step that failed is the engine's own switch to the
    generation that is already active. *)
Theorem failed_sync_not_advertised fuel s p g w w' m e :
    store_reachable (w_store w) → 1 ≤ batchSize ≤ 256 →
    (∀ m, LoadProjectionManifest ctx s p g (env (w_calls w) (w_store w)) = Ok (Some m) → is_u64 (pm_Watermark m)) →
    Sync env clock coordinator fuel s p g w = (w', (m, Err e)) →
    ∃ events, w_history w' = w_history w ++ events ∧
      (Activated ∉ events ∨ (is_Some (ap_Activate applier) ∧ ∃ before, events = before ++ [Activated])).
  Proof using Henv.
    intros Hreach Hb Hstored Hrun. destruct (reachable_ledgers _ Hreach) as [A HA].
    destruct (sync_run env clock fault ctx later applier batchSize Henv fuel s p g A w w' m (Err e) (conj Hreach HA) Hb Hstored Hrun) as (A' & _ & _ & events & Hh & Hev).
    by exists events.
  Qed.

(** The replay ends: while other writers keep the scope's log within N changes, more
    fuel than N minus the watermark changes nothing - the loop has stopped by itself.
    No log exceeds the largest 64-bit number, so the loop ends whatever others do. *)
Theorem replay_terminates fuel k s N gen m applied w :
    store_reachable (w_store w) → is_u64 (pm_Watermark m) → 1 ≤ batchSize ≤ 256 →
    (N = max_u64 ∨ (within s N (w_store w) ∧ ∀ n db, within s N db → within s N (env n db))) →
    (Z.to_nat (N - pm_Watermark m) < fuel)%nat →
    replay env clock coordinator (fuel + k) s gen m applied w = replay env clock coordinator fuel s gen m applied w.
  Proof using Henv.
    intros Hreach Hm Hb HN Hf. destruct (reachable_ledgers _ Hreach) as [A HA].
    assert (Hmax : ∀ d, store_reachable d → within s max_u64 d).
    { intros d Hd. split; [exact Hd|]. destruct (reachable_ledgers d Hd) as [Ad HAd]. destruct (HAd s) as [HL Hrep]. exists (Ad s).
      split_and!; [by apply reachable_ok|done|by apply ok_version, reachable_ok]. }
    destruct HN as [->|[HN Hkeep]].
    - apply (replay_stable env clock fault ctx later applier batchSize Henv s max_u64) with (A := A); try done; [|by apply Hmax].
      intros n db [Hdb _]. apply Hmax. unfold store_reachable in *. etrans; [exact Hdb | apply Henv].
    - by apply (replay_stable env clock fault ctx later applier batchSize Henv s N Hkeep _ _ _ _ _ A).
  Qed.
End properties.

(** ** A rebuild among other writers *)

(** An engine that accepts everything and can rebuild in batches. *)
Definition demo_applier : ProjectionApplier unit :=
  mkApplier unit (λ _ _ _ _ ap, (ap, Ok tt)) (λ _ _ ap, (ap, Ok tt)) None None
    (Some (mkBatchApplier unit (λ _ _ ap, (ap, Ok tt)) (λ _ _ _ ap, (ap, Ok tt)) (λ _ _ ap, (ap, Ok tt)))).

(** One state per predicate, quoting the user's message. *)
Definition demo_states_of (predicates : list string) : CanonicalSemanticExtractor := λ r,
  match tn_Messages (er_Turn r) with
  | user :: _ =>
      Ok (map (λ predicate, mkSemanticCandidate MemoryKindState "user" predicate []
        (mkMemoryCandidate MemoryKindState (ms_Text user) demo_temporal
          [mkEvidenceRef (tn_SourceID (er_Turn r)) (ms_MessageID user) MessageRoleUser 0 14 AssertionModeUser ""]
          SensitivityStandard RetentionClassStandard)) predicates)
  | [] => Ok []
  end.
Definition demo_learn (predicates : list string) (id text : string) (db : database) : CanonicalMutation :=
  ok_or demo_mutation
    (turn ← NewTurn demo_scope demo_session id 1000000000 text "Noted";
     @prepare database demo_badger (demo_states_of predicates) demo_policy (Some None) turn demo_derivation db db).
Definition applied_to (m : CanonicalMutation) (db : database) : database :=
  (Badger_ApplyCanonicalMutation None (Some None) m db).1.

(** Two states are known; the retention floor asks for a rebuild. *)
Definition demo_learned : CanonicalMutation := Eval vm_compute in
  demo_learn ["lives in"; "works in"] "7" "I live in Oslo" ∅.
Definition demo_known : database := applied_to demo_learned ∅.
Definition demo_floored : database := (SetProjectionRetentionFloor None (Some None) demo_scope "recall" 1 demo_known).1.
(** One of them changes while the rebuild reads the other. *)
Definition demo_changed : CanonicalMutation := Eval vm_compute in
  demo_learn ["works in"] "8" "I live in Rome" demo_known.
Definition demo_env (n : nat) (db : database) : database := if (n =? 7)%nat then applied_to demo_changed db else db.
Definition demo_world (db : database) : world database unit := mkWorld db tt 0 [].

Lemma applied_step m db : store_step db (applied_to m db).
Proof. eapply (st_apply _ _ None (Some None) m). apply surjective_pairing. Qed.
Lemma demo_env_steps n db : rtc store_step db (demo_env n db).
Proof. unfold demo_env. destruct (n =? 7)%nat; [apply rtc_once, applied_step | done]. Qed.
Lemma demo_floored_reachable : store_reachable demo_floored.
Proof.
  eapply rtc_l; [apply (applied_step demo_learned)|]. apply rtc_once.
  eapply (st_floor _ _ None (Some None) demo_scope "recall" 1). apply surjective_pairing.
Qed.

(** The revisions a synchronisation showed its engine. *)
Definition shown (events : list sync_event) : list string :=
  concat (map (λ e, match e with
                    | Rebuilt view => map (λ a, rv_RevisionID (ar_Revision a)) (bv_Active view)
                    | Applied _ revisions => map rv_RevisionID revisions
                    | _ => []
                    end) events).

Definition demo_sync (env : nat → database → database) (db : database) : world database unit * (ProjectionManifest * result unit) :=
  Sync env (λ _, 3000000000) (coordinator (λ _ _, None) (Some None) id demo_applier 1) 10 demo_scope "recall" "g1" (demo_world db).

Lemma sync_ended {X Y} (run : X * (Y * result unit)) : run.2.2 = Ok tt → run = (run.1, (run.2.1, Ok tt)).
Proof. destruct run as [x [y r]]. cbn. by intros ->. Qed.

(** C37. A finding: a rebuild in batches can miss an update. Each batch is read at its own
    moment, but the watermark is the last batch's: a change between two batches to an
    item of an earlier batch is neither rebuilt nor replayed. Here a synchronisation
    ends well and active, at the watermark of the whole log, while the current
    revision of an item was never shown to the engine. *)
Theorem rebuild_misses_update :
  ∃ env db w m head, (∀ n db, rtc store_step db (env n db)) ∧ store_reachable db ∧
    demo_sync env db = (w, (m, Ok tt)) ∧ pm_Status m = ProjectionGenerationActive ∧
    head ∈ ok_or [] (ScanActiveHeads (Some None) (mkActiveHeadScan demo_scope "" 10) (w_store w)) ∧
    ih_RevisionID head ∉ shown (w_history w) ∧ sst_ChangeSeq (ok_or (initial_state demo_scope) (Badger_LoadScopeState (Some None) demo_scope (w_store w))) = pm_Watermark m.
Proof.
  exists demo_env, demo_floored, (demo_sync demo_env demo_floored).1, (demo_sync demo_env demo_floored).2.1,
    (hd (mkItemHead "" "") (cm_Heads demo_changed)).
  split; [exact demo_env_steps|]. split; [exact demo_floored_reachable|]. split; [|split; [|split; [|split]]].
  - apply sync_ended. vm_compute. reflexivity.
  - vm_compute. reflexivity.
  - refine (bool_decide_unpack _ _). vm_compute. exact I.
  - refine (bool_decide_unpack _ _). vm_compute. exact I.
  - vm_compute. reflexivity.
Qed.

(** ** Witnesses *)
Definition quiet_env (n : nat) (db : database) : database := db.
Lemma quiet_env_steps n db : rtc store_step db (quiet_env n db).
Proof. apply rtc_refl. Qed.
Lemma demo_known_reachable : store_reachable demo_known.
Proof. apply rtc_once, (applied_step demo_learned). Qed.

Definition demo_synced : world database unit * (ProjectionManifest * result unit) := demo_sync quiet_env demo_known.
Example demo_synced_history :
  map (λ e, match e with Applied changes revisions => (length changes, length revisions) | _ => (0, 0)%nat end)
    (w_history demo_synced.1) = [(0, 0); (1, 2); (0, 0); (0, 0); (0, 0)]%nat.
Proof. vm_compute. reflexivity. Qed.

Lemma demo_no_manifest db m :
  LoadProjectionManifest (Some None) demo_scope "recall" "g1" db = Ok None →
  LoadProjectionManifest (Some None) demo_scope "recall" "g1" db = Ok (Some m) → is_u64 (pm_Watermark m).
Proof. intros ->. discriminate. Qed.

(** Nothing is stored and no floor is set: the replay starts at 0. *)
Lemma sync_replays_log_witness :
  ∃ L0 L floor bs, represents (w_store demo_synced.1) demo_scope L ∧ sync_start 0 floor (version L0) (version L) [] 0 ∧
    replayed_window L 0 1 bs.
Proof.
  destruct (sync_replays_log quiet_env (λ _, 3000000000) (λ _ _, None) (Some None) id demo_applier 1 quiet_env_steps 10 demo_scope
    "recall" "g1" (demo_world demo_known) demo_synced.1 demo_synced.2.1)
    as (L0 & L & start & rebuild & bs & found & db & floor & _ & _ & Hrep & Hh & Hre & Hfound & _ & _ & _ & Hstart & Hwin & _).
  - exact demo_known_reachable.
  - lia.
  - intros m. apply demo_no_manifest. vm_compute. reflexivity.
  - apply (sync_ended demo_synced). vm_compute. reflexivity.
  - assert (E : LoadProjectionManifest (Some None) demo_scope "recall" "g1" demo_known = Ok None) by (vm_compute; reflexivity).
    assert (Hn : found = None) by exact (Ok_inj _ _ (eq_trans (eq_sym Hfound) E)). subst found. cbn [stored_watermark] in Hstart.
    assert (Hm : pm_Watermark demo_synced.2.1 = 1) by (vm_compute; reflexivity). rewrite Hm in Hwin.
    assert (Hsecond : match w_history demo_synced.1 !! 1%nat with Some (Applied _ _) => True | _ => False end) by (vm_compute; exact I).
    assert (Hnone : rebuild = []).
    { destruct rebuild as [|e rest]; [reflexivity|exfalso]. rewrite Hh in Hsecond. cbn in Hsecond. apply Forall_cons in Hre as [Hre _]. by destruct e. }
    subst rebuild. assert (Hzero : start = 0).
    { destruct Hstart as [_ [[_ Hz]|(_ & _ & events & Hev & _)]]; [exact Hz|]. destruct events; discriminate Hev. }
    subst start. exists L0, L, floor, bs. exact (conj Hrep (conj Hstart Hwin)).
Defined.

(** An engine that refuses every batch. *)
Definition refusing_applier : ProjectionApplier unit :=
  mkApplier unit (λ _ _ _ _ ap, (ap, Err (ErrText "index is full"))) (λ _ _ ap, (ap, Ok tt)) None None None.
Definition demo_refused : world database unit * (ProjectionManifest * result unit) :=
  Sync quiet_env (λ _, 3000000000) (coordinator (λ _ _, None) (Some None) id refusing_applier 1) 10 demo_scope "recall" "g1"
    (demo_world demo_known).
Lemma demo_refused_run : demo_refused = (demo_refused.1, (demo_refused.2.1, Err (ErrText "index is full"))).
Proof.
  assert (E : demo_refused.2.2 = Err (ErrText "index is full")) by (vm_compute; reflexivity).
  revert E. destruct demo_refused as [w [m r]]. cbn. by intros ->.
Qed.

Lemma failed_sync_not_advertised_witness :
  ∃ events, w_history demo_refused.1 = [] ++ events ∧ (Activated ∉ events ∨ (is_Some (ap_Activate refusing_applier) ∧
    ∃ before, events = before ++ [Activated])).
Proof.
  apply (failed_sync_not_advertised quiet_env (λ _, 3000000000) (λ _ _, None) (Some None) id refusing_applier 1 quiet_env_steps 10
    demo_scope "recall" "g1" (demo_world demo_known) demo_refused.1 demo_refused.2.1 (ErrText "index is full")).
  - exact demo_known_reachable.
  - lia.
  - intros m. apply demo_no_manifest. vm_compute. reflexivity.
  - exact demo_refused_run.
Defined.

Definition demo_manifest_at (watermark : Z) : ProjectionManifest :=
  mkManifest demo_scope "recall" "g1" ProjectionGenerationDirty watermark 1000000000.

Lemma demo_within : within demo_scope 1 demo_known.
Proof.
  split; [exact demo_known_reachable|]. destruct (reachable_ledgers _ demo_known_reachable) as [A HA].
  destruct (HA demo_scope) as [HL Hrep]. exists (A demo_scope). split_and!; [by apply reachable_ok|done|].
  assert (Hk : badgerScopeKey demo_scope = Ok (ok_or "" (badgerScopeKey demo_scope))) by (apply is_ok_run; vm_compute; reflexivity).
  pose proof (rep_state _ _ _ Hrep _ Hk) as E. set (k := ok_or "" (badgerScopeKey demo_scope)) in *.
  assert (Hdb : demo_known !! k = Some (mkStored badgerRecordScope (VScope (mkScopeState CanonicalSchemaVersionV1 demo_scope 1 1))))
    by (vm_compute; reflexivity).
  rewrite Hdb in E. case_bool_decide; [discriminate E|].
  apply (f_equal (λ o, match o with Some (mkStored _ (VScope st)) => sst_Version st | _ => 0 end)) in E. cbn in E. lia.
Qed.

(** One change: two rounds are enough. *)
Lemma replay_terminates_witness :
  replay quiet_env (λ _, 3000000000) (coordinator (λ _ _, None) (Some None) id demo_applier 1) (2 + 5) demo_scope "g1"
    (demo_manifest_at 0) false (demo_world demo_known) =
  replay quiet_env (λ _, 3000000000) (coordinator (λ _ _, None) (Some None) id demo_applier 1) 2 demo_scope "g1"
    (demo_manifest_at 0) false (demo_world demo_known).
Proof.
  apply (replay_terminates quiet_env (λ _, 3000000000) (λ _ _, None) (Some None) id demo_applier 1 quiet_env_steps 2 5 demo_scope
    1 "g1" (demo_manifest_at 0) false (demo_world demo_known)).
  - exact demo_known_reachable.
  - unfold is_u64, max_u64. cbn. lia.
  - lia.
  - right. split; [exact demo_within|]. by intros n db.
  - cbn. lia.
Defined.
