(* ===== verification/RuntimeOperations.v ===== *)
(** * RuntimeOperations: the journal of runtime publications

    src/internal/apps/balda/state/runtime_operation_store.go with the record and its
    vocabulary (state/types.go) and its validation (state/session_metadata.go).  The
    store is SQL: a table of operations and the runtime columns of the session table.
    Each method is one transaction on the two tables; the WHERE clauses and CASE
    expressions of its statements are written out.  A transaction commits, fails and
    is rolled back, or commits while the driver reports a failure.  Executions include
    the session store and the activation of archived lifetimes, which write the same
    rows; [ArchiveLifetimes] models the latter. *)

From Stdlib Require Import ZArith Lia Ascii String.
From stdpp Require Import base numbers list gmap strings relations sorting.
From S2P Require Import Prelude.
From S2P Require Import GoStrings.
From S2P Require Import GoNumeric.
From S2P Require Import GoTimeJson.

Local Open Scope string_scope.
Local Open Scope list_scope.
Local Open Scope Z_scope.

(** ** Vocabulary *)
Definition ErrRuntimeOperationInvalid : error := ErrSentinel "invalid runtime operation".
Definition ErrRuntimeOperationConflict : error := ErrSentinel "runtime operation conflict".
Definition ErrRuntimeOperationUnavailable : error := ErrSentinel "runtime operation store unavailable".

Definition RuntimeOperationPrepared : string := "prepared".
Definition RuntimeOperationApplying : string := "applying".
Definition RuntimeOperationTerminal : string := "terminal".
Definition RuntimeOperationKindModel : string := "model".
Definition RuntimeOperationKindProvider : string := "provider".
Definition RuntimeOperationKindLifetime : string := "lifetime".
Definition RuntimeOperationKindLifetimePreference : string := "lifetime_preference".
Definition RuntimeOperationOutcomeContextPreserved : string := "context_preserved".
Definition RuntimeOperationOutcomeContextReset : string := "context_reset".
Definition RuntimeOperationOutcomeConflict : string := "conflict".
Definition RuntimeOperationReasonGuardConflict : string := "guard_conflict".
Definition runtime_outcomes : list string :=
  [RuntimeOperationOutcomeContextPreserved; RuntimeOperationOutcomeContextReset; "aborted";
   RuntimeOperationOutcomeConflict; "failed"; "cleanup_incomplete"].
Definition runtime_reasons : list string :=
  ["unsupported"; "invalid"; "failed"; "canceled"; "deadline_exceeded"; RuntimeOperationReasonGuardConflict;
   "recovery_aborted"; "cleanup_incomplete"; "incompatible"; "rejected"; "busy"; "closed"; "unavailable";
   "pre_dispatch"; "changed_live"; "changed_replacement"].

Record RuntimeOperationRecord := mkRuntimeOperation {
  ro_OperationID : string; ro_SessionID : string; ro_InputHash : string; ro_Kind : string; ro_State : string;
  ro_ExpectedArchiveID : string; ro_ExpectedGeneration : Z; ro_TargetArchiveID : string;
  ro_TargetSnapshotID : string; ro_TargetProviderBindingJSON : string; ro_TargetModel : string;
  ro_TargetRequestedModel : option string; ro_Outcome : string; ro_ReasonCode : string;
  ro_CreatedAt : Z; ro_UpdatedAt : Z; ro_TerminalAt : option Z }.
#[global] Instance RuntimeOperationRecord_eq : EqDecision RuntimeOperationRecord.
Proof. solve_decision. Defined.

Record RuntimeOperationFinalization := mkFinalization {
  fz_OperationID : string; fz_InputHash : string; fz_Outcome : string; fz_ReasonCode : string; fz_At : Z }.

Definition validRuntimeOperationKind (kind : string) : bool :=
  bool_decide (kind ∈ [RuntimeOperationKindModel; RuntimeOperationKindProvider; RuntimeOperationKindLifetime;
                       RuntimeOperationKindLifetimePreference]).
Definition validRuntimeOperationOutcome (outcome : string) : bool := bool_decide (outcome ∈ runtime_outcomes).
Definition validRuntimeOperationReason (reason : string) : bool := bool_decide (reason ∈ "" :: runtime_reasons).
Definition publishesRuntime (outcome : string) : bool :=
  bool_decide (outcome = RuntimeOperationOutcomeContextPreserved) ||
  bool_decide (outcome = RuntimeOperationOutcomeContextReset).

(** ** Validation *)
Definition maxRuntimeOperationIDBytes : Z := 256.
Definition maxRuntimeSessionIDBytes : Z := 512.
Definition maxRuntimeKindBytes : Z := 64.
Definition maxRuntimeArchiveIDBytes : Z := 512.
Definition maxRuntimeSnapshotIDBytes : Z := 512.
Definition maxRuntimeProviderBindingJSONBytes : Z := 64 * 1024.
Definition maxEffectiveModelBytes : Z := 512.
Definition maxRuntimeOutcomeBytes : Z := 64.

(** [unicode.IsControl]: the category Cc. *)
Definition IsControl (r : Z) : bool := (r <? 0x20) || ((0x7F <=? r) && (r <=? 0x9F)).

Definition structuralPublicValue (value : string) (maxBytes : Z) : bool :=
  negb (bool_decide (value = "")) && (len value <=? maxBytes) && bool_decide (TrimSpace value = value) &&
  ValidString value && forallb (λ rw, negb (IsControl rw.1)) (runes value).
Definition optionalStructuralPublicValue (value : string) (maxBytes : Z) : bool :=
  bool_decide (value = "") || structuralPublicValue value maxBytes.

Definition validRuntimeInputHash (hash : string) : bool :=
  (len hash =? 64) && bool_decide (ToLower hash = hash) && forallb is_lower_hex (list_ascii_of_string hash).

(** [providers.CanonicalBindingJSON]: it decodes, checks and encodes the binding of a
    provider graph with the JSON library. *)
Class BindingCodec := CanonicalBindingJSON : string → option string.

Definition prepareOptionalRequestedModel (model : option string) : result (option string) :=
  match model with
  | None => Ok None
  | Some m =>
      let normalized := TrimSpace m in
      _ ← reject_if (negb (structuralPublicValue normalized maxEffectiveModelBytes)) (ErrText "requested_model is invalid");
      Ok (Some normalized)
  end.

Definition canonicalRuntimeOperationTime (value : Z) : Z := value - value `mod` 1000.

Section store.
  Context `{BindingCodec}.

Definition prepareTargetProviderBinding (raw : string) : result string :=
  if bool_decide (raw = "") then Ok "" else
  _ ← reject_if (maxRuntimeProviderBindingJSONBytes <? len raw) (ErrText "target_provider_binding_json is invalid");
  match CanonicalBindingJSON raw with
  | None => Err (ErrText "target_provider_binding_json is invalid")
  | Some canonical =>
      _ ← reject_if (maxRuntimeProviderBindingJSONBytes <? len canonical) (ErrText "target_provider_binding_json is invalid");
      Ok canonical
  end.

(** The requested model a kind admits. *)
Definition check_requested (kind target : string) (requested : option string) : result unit :=
  if bool_decide (kind = RuntimeOperationKindModel) || bool_decide (kind = RuntimeOperationKindLifetimePreference)
  then reject_if (match requested with Some m => negb (bool_decide (m = target)) | None => false end)
         (ErrText "target_requested_model is invalid")
  else reject_if (bool_decide (is_Some requested)) (ErrText "target_requested_model is not supported").

Definition with_prepared (r : RuntimeOperationRecord) (requested : option string) (binding : string) : RuntimeOperationRecord :=
  mkRuntimeOperation (ro_OperationID r) (ro_SessionID r) (ro_InputHash r) (ro_Kind r) (ro_State r)
    (ro_ExpectedArchiveID r) (ro_ExpectedGeneration r) (ro_TargetArchiveID r) (ro_TargetSnapshotID r)
    binding (ro_TargetModel r) requested (ro_Outcome r) (ro_ReasonCode r) (ro_CreatedAt r) (ro_UpdatedAt r) (ro_TerminalAt r).

Definition prepareRuntimeOperationRecord (r : RuntimeOperationRecord) : result RuntimeOperationRecord :=
  _ ← reject_if (negb (structuralPublicValue (ro_OperationID r) maxRuntimeOperationIDBytes)) (ErrText "operation_id is invalid");
  _ ← reject_if (negb (structuralPublicValue (ro_SessionID r) maxRuntimeSessionIDBytes)) (ErrText "session_id is invalid");
  _ ← reject_if (negb (len (ro_InputHash r) =? 64) || negb (hex_decodes (ro_InputHash r)) ||
                 negb (bool_decide (ToLower (ro_InputHash r) = ro_InputHash r))) (ErrText "input_hash is invalid");
  _ ← reject_if (negb (structuralPublicValue (ro_Kind r) maxRuntimeKindBytes)) (ErrText "kind is invalid");
  _ ← reject_if (negb (bool_decide (ro_State r ∈ [RuntimeOperationPrepared; RuntimeOperationApplying; RuntimeOperationTerminal])))
        (ErrText "state is invalid");
  _ ← reject_if (max_i64 <? ro_ExpectedGeneration r) (ErrText "expected_generation exceeds storage range");
  _ ← reject_if (negb (optionalStructuralPublicValue (ro_ExpectedArchiveID r) maxRuntimeArchiveIDBytes) ||
                 negb (optionalStructuralPublicValue (ro_TargetArchiveID r) maxRuntimeArchiveIDBytes) ||
                 negb (optionalStructuralPublicValue (ro_TargetSnapshotID r) maxRuntimeSnapshotIDBytes) ||
                 negb (optionalStructuralPublicValue (ro_TargetModel r) maxEffectiveModelBytes) ||
                 negb (optionalStructuralPublicValue (ro_Outcome r) maxRuntimeOutcomeBytes) ||
                 negb (optionalStructuralPublicValue (ro_ReasonCode r) maxRuntimeOutcomeBytes))
        (ErrText "runtime operation metadata is invalid");
  requested ← prepareOptionalRequestedModel (ro_TargetRequestedModel r);
  _ ← check_requested (ro_Kind r) (ro_TargetModel r) requested;
  binding ← prepareTargetProviderBinding (ro_TargetProviderBindingJSON r);
  _ ← reject_if ((ro_CreatedAt r =? 0) || (ro_UpdatedAt r =? 0)) (ErrText "runtime operation timestamps are required");
  _ ← reject_if (negb (bool_decide ((ro_State r = RuntimeOperationTerminal) ↔ is_Some (ro_TerminalAt r))))
        (ErrText "terminal_at does not match state");
  Ok (with_prepared r requested binding).

(** ** Tables and transactions *)

(** The runtime columns of a row of balda_session_metadata. *)
Record session_row := mkSessionRow {
  sm_ArchiveID : string; sm_RuntimeGeneration : Z; sm_RuntimeSnapshotID : string; sm_ProviderBindingJSON : string;
  sm_RequestedModel : option string; sm_EffectiveModel : string; sm_RuntimeOutcome : string }.
Record runtime_tables := mkTables {
  rt_operations : gmap string RuntimeOperationRecord; rt_sessions : gmap string session_row }.

Definition runtimeOperationError (ctxErr : option error) (err : error) : error :=
  match ctxErr with
  | Some e => e
  | None => if errors_Is err ErrRuntimeOperationInvalid || errors_Is err ErrRuntimeOperationConflict then err
            else ErrRuntimeOperationUnavailable
  end.

Definition transaction {A} (ctxErr : option error) (ft : fate) (body : runtime_tables → result (runtime_tables * A))
    (t : runtime_tables) : runtime_tables * result A :=
  match ft with
  | Fails err => (t, Err (runtimeOperationError ctxErr err))
  | Commits => match body t with Ok (t', a) => (t', Ok a) | Err err => (t, Err err) end
  | CommitsUnreported err =>
      match body t with Ok (t', _) => (t', Err (runtimeOperationError ctxErr err)) | Err err => (t, Err err) end
  end.

(** A row as [get] reads it back. *)
Definition read_row (r : RuntimeOperationRecord) : result RuntimeOperationRecord :=
  match prepareRuntimeOperationRecord r with
  | Err _ => Err ErrRuntimeOperationUnavailable
  | Ok r' =>
      _ ← reject_if (negb (storable (ro_CreatedAt r)) || negb (storable (ro_UpdatedAt r)) ||
                     match ro_TerminalAt r with Some at_ => negb (storable at_) | None => false end ||
                     (ro_ExpectedGeneration r <? 0) ||
                     negb (bool_decide (ro_TargetProviderBindingJSON r = ro_TargetProviderBindingJSON r')) ||
                     negb (validRuntimeOperationKind (ro_Kind r)) ||
                     (bool_decide (ro_State r = RuntimeOperationTerminal) &&
                      (negb (validRuntimeOperationOutcome (ro_Outcome r)) || negb (validRuntimeOperationReason (ro_ReasonCode r)))) ||
                     (negb (bool_decide (ro_State r = RuntimeOperationTerminal)) &&
                      (negb (bool_decide (ro_Outcome r = "")) || negb (bool_decide (ro_ReasonCode r = "")))))
            ErrRuntimeOperationUnavailable;
      Ok r'
  end.

Definition read_optional (o : option RuntimeOperationRecord) : result (option RuntimeOperationRecord) :=
  match o with
  | None => Ok None
  | Some row => r ← read_row row; Ok (Some r)
  end.

Definition get_operation (t : runtime_tables) (id : string) : result (option RuntimeOperationRecord) :=
  read_optional (rt_operations t !! id).

Definition unresolved (r : RuntimeOperationRecord) : bool :=
  bool_decide (ro_State r = RuntimeOperationPrepared) || bool_decide (ro_State r = RuntimeOperationApplying).

(** WHERE session_id = ? AND state IN ('prepared','applying') LIMIT 1 *)
Definition get_unresolved (t : runtime_tables) (session : string) : result (option RuntimeOperationRecord) :=
  read_optional (head (filter (λ r, ro_SessionID r = session ∧ unresolved r = true) (map snd (map_to_list (rt_operations t))))).

Definition Ops_Get (t : runtime_tables) (id : string) : result (option RuntimeOperationRecord) :=
  _ ← reject_if (negb (structuralPublicValue id maxRuntimeOperationIDBytes)) ErrRuntimeOperationInvalid;
  get_operation t id.

Definition Ops_GetUnresolvedBySession (t : runtime_tables) (session : string) : result (option RuntimeOperationRecord) :=
  _ ← reject_if (negb (structuralPublicValue session maxRuntimeSessionIDBytes)) ErrRuntimeOperationInvalid;
  get_unresolved t session.

Definition put_operation (r : RuntimeOperationRecord) (t : runtime_tables) : runtime_tables :=
  mkTables (<[ro_OperationID r := r]> (rt_operations t)) (rt_sessions t).

(** ** Begin *)
Definition sameRuntimeOperationIntent (a b : RuntimeOperationRecord) : bool :=
  bool_decide (ro_OperationID a = ro_OperationID b) && bool_decide (ro_SessionID a = ro_SessionID b) &&
  bool_decide (ro_InputHash a = ro_InputHash b) && bool_decide (ro_Kind a = ro_Kind b) &&
  bool_decide (ro_ExpectedArchiveID a = ro_ExpectedArchiveID b) && (ro_ExpectedGeneration a =? ro_ExpectedGeneration b) &&
  bool_decide (ro_TargetArchiveID a = ro_TargetArchiveID b) && bool_decide (ro_TargetSnapshotID a = ro_TargetSnapshotID b) &&
  bool_decide (ro_TargetProviderBindingJSON a = ro_TargetProviderBindingJSON b) &&
  bool_decide (ro_TargetModel a = ro_TargetModel b) &&
  bool_decide (ro_TargetRequestedModel a = ro_TargetRequestedModel b).

Definition with_times (r : RuntimeOperationRecord) (created updated : Z) : RuntimeOperationRecord :=
  mkRuntimeOperation (ro_OperationID r) (ro_SessionID r) (ro_InputHash r) (ro_Kind r) (ro_State r)
    (ro_ExpectedArchiveID r) (ro_ExpectedGeneration r) (ro_TargetArchiveID r) (ro_TargetSnapshotID r)
    (ro_TargetProviderBindingJSON r) (ro_TargetModel r) (ro_TargetRequestedModel r) (ro_Outcome r) (ro_ReasonCode r)
    created updated (ro_TerminalAt r).

Definition begin_body (intent : RuntimeOperationRecord) (t : runtime_tables) : result (runtime_tables * RuntimeOperationRecord) :=
  existing ← get_operation t (ro_OperationID intent);
  match existing with
  | Some existing =>
      _ ← reject_if (negb (sameRuntimeOperationIntent existing intent)) ErrRuntimeOperationConflict;
      Ok (t, existing)
  | None =>
      found ← get_unresolved t (ro_SessionID intent);
      _ ← reject_if (bool_decide (is_Some found)) ErrRuntimeOperationConflict;
      Ok (put_operation intent t, intent)
  end.

Definition Ops_Begin (ctxErr : option error) (ft : fate) (intent : RuntimeOperationRecord) (t : runtime_tables) :
    runtime_tables * result RuntimeOperationRecord :=
  let intent := with_times intent (canonicalRuntimeOperationTime (ro_CreatedAt intent))
                  (canonicalRuntimeOperationTime (ro_UpdatedAt intent)) in
  if negb (bool_decide (ro_State intent = RuntimeOperationPrepared)) || negb (bool_decide (ro_Outcome intent = "")) ||
     negb (bool_decide (ro_ReasonCode intent = "")) || bool_decide (is_Some (ro_TerminalAt intent)) ||
     negb (ro_CreatedAt intent =? ro_UpdatedAt intent) || negb (validRuntimeOperationKind (ro_Kind intent))
  then (t, Err ErrRuntimeOperationInvalid)
  else match prepareRuntimeOperationRecord intent with
       | Err _ => (t, Err ErrRuntimeOperationInvalid)
       | Ok intent => transaction ctxErr ft (begin_body intent) t
       end.

(** ** MarkApplying *)
Definition with_state (r : RuntimeOperationRecord) (state outcome reason : string) (updated : Z) (terminal : option Z) :
    RuntimeOperationRecord :=
  mkRuntimeOperation (ro_OperationID r) (ro_SessionID r) (ro_InputHash r) (ro_Kind r) state
    (ro_ExpectedArchiveID r) (ro_ExpectedGeneration r) (ro_TargetArchiveID r) (ro_TargetSnapshotID r)
    (ro_TargetProviderBindingJSON r) (ro_TargetModel r) (ro_TargetRequestedModel r) outcome reason
    (ro_CreatedAt r) updated terminal.

(** UPDATE ... SET state='applying' WHERE operation_id = ? *)
Definition applying (updated : Z) (r : RuntimeOperationRecord) : RuntimeOperationRecord :=
  with_state r RuntimeOperationApplying (ro_Outcome r) (ro_ReasonCode r) updated (ro_TerminalAt r).
Definition alter_operation (f : RuntimeOperationRecord → RuntimeOperationRecord) (id : string) (t : runtime_tables) : runtime_tables :=
  mkTables (alter f id (rt_operations t)) (rt_sessions t).

Definition mark_body (id hash : string) (now : Z) (t : runtime_tables) : result (runtime_tables * unit) :=
  found ← get_operation t id;
  match found with
  | None => Err ErrRuntimeOperationConflict
  | Some record =>
      _ ← reject_if (negb (bool_decide (ro_InputHash record = hash))) ErrRuntimeOperationConflict;
      if bool_decide (ro_State record = RuntimeOperationApplying) then Ok (t, tt) else
      _ ← reject_if (bool_decide (ro_State record = RuntimeOperationTerminal)) ErrRuntimeOperationConflict;
      let updated := canonicalRuntimeOperationTime (if now <? ro_UpdatedAt record then ro_UpdatedAt record else now) in
      Ok (alter_operation (applying updated) id t, tt)
  end.

Definition Ops_MarkApplying (ctxErr : option error) (ft : fate) (now : Z) (id hash : string) (t : runtime_tables) :
    runtime_tables * result unit :=
  if negb (structuralPublicValue id maxRuntimeOperationIDBytes) || negb (validRuntimeInputHash hash)
  then (t, Err ErrRuntimeOperationInvalid)
  else transaction ctxErr ft (mark_body id hash now) t.

(** ** Finalize *)
Definition text_or (value otherwise : string) : string := if bool_decide (value = "") then otherwise else value.

(** Whether an operation of this kind also sets the requested model. *)
Definition sets_preference (r : RuntimeOperationRecord) : bool :=
  bool_decide (ro_Kind r = RuntimeOperationKindModel) || bool_decide (ro_Kind r = RuntimeOperationKindLifetimePreference).
Definition target_preference (r : RuntimeOperationRecord) : option string :=
  match ro_TargetRequestedModel r with
  | None => if bool_decide (ro_Kind r = RuntimeOperationKindModel) then Some (ro_TargetModel r) else None
  | Some m => Some m
  end.

(** The row both UPDATE statements write. *)
Definition published_row (r : RuntimeOperationRecord) (outcome : string) (row : session_row) : session_row :=
  mkSessionRow (text_or (ro_TargetArchiveID r) (sm_ArchiveID row)) (sm_RuntimeGeneration row + 1)
    (text_or (ro_TargetSnapshotID r) (sm_RuntimeSnapshotID row))
    (text_or (ro_TargetProviderBindingJSON r) (sm_ProviderBindingJSON row))
    (if sets_preference r then target_preference r else sm_RequestedModel row)
    (if sets_preference r then ro_TargetModel r else text_or (ro_TargetModel r) (sm_EffectiveModel row))
    outcome.

Definition at_expected (r : RuntimeOperationRecord) (row : session_row) : bool :=
  bool_decide (sm_ArchiveID row = ro_ExpectedArchiveID r) && (sm_RuntimeGeneration row =? ro_ExpectedGeneration r).
Definition at_target (r : RuntimeOperationRecord) (outcome : string) (row : session_row) : bool :=
  bool_decide (sm_ArchiveID row = text_or (ro_TargetArchiveID r) (ro_ExpectedArchiveID r)) &&
  (sm_RuntimeGeneration row =? u64 (ro_ExpectedGeneration r + 1)) &&
  bool_decide (sm_RuntimeSnapshotID row = text_or (ro_TargetSnapshotID r) (sm_RuntimeSnapshotID row)) &&
  bool_decide (sm_ProviderBindingJSON row = text_or (ro_TargetProviderBindingJSON r) (sm_ProviderBindingJSON row)) &&
  bool_decide (sm_EffectiveModel row = text_or (ro_TargetModel r) (sm_EffectiveModel row)) &&
  bool_decide (sm_RuntimeOutcome row = outcome) &&
  (negb (sets_preference r) || bool_decide (sm_RequestedModel row = target_preference r)).

Definition publish_session (r : RuntimeOperationRecord) (outcome : string) (t : runtime_tables) : result runtime_tables :=
  match rt_sessions t !! ro_SessionID r with
  | None => Err ErrRuntimeOperationConflict
  | Some row =>
      _ ← reject_if (sm_RuntimeGeneration row <? 0) ErrRuntimeOperationConflict;
      if at_expected r row then
        (* the column is a 64-bit integer *)
        _ ← reject_if (max_i64 <? sm_RuntimeGeneration row + 1) ErrRuntimeOperationUnavailable;
        (* an explicit preference is not empty *)
        _ ← reject_if (sets_preference r && bool_decide (target_preference r = Some "")) ErrRuntimeOperationUnavailable;
        Ok (mkTables (rt_operations t) (<[ro_SessionID r := published_row r outcome row]> (rt_sessions t)))
      else
        _ ← reject_if (negb (at_target r outcome row)) ErrRuntimeOperationConflict;
        Ok t
  end.

Definition finished (final : RuntimeOperationFinalization) (r : RuntimeOperationRecord) : RuntimeOperationRecord :=
  with_state r RuntimeOperationTerminal (fz_Outcome final) (fz_ReasonCode final) (fz_At final) (Some (fz_At final)).

Definition finalize_body (final : RuntimeOperationFinalization) (t : runtime_tables) :
    result (runtime_tables * RuntimeOperationRecord) :=
  found ← get_operation t (fz_OperationID final);
  match found with
  | None => Err ErrRuntimeOperationConflict
  | Some record =>
      _ ← reject_if (negb (bool_decide (ro_InputHash record = fz_InputHash final))) ErrRuntimeOperationConflict;
      if bool_decide (ro_State record = RuntimeOperationTerminal) then
        _ ← reject_if (negb (bool_decide (ro_Outcome record = fz_Outcome final)) ||
                       negb (bool_decide (ro_ReasonCode record = fz_ReasonCode final))) ErrRuntimeOperationConflict;
        Ok (t, record)
      else
        _ ← reject_if (fz_At final <? ro_UpdatedAt record) ErrRuntimeOperationInvalid;
        _ ← reject_if (publishesRuntime (fz_Outcome final) && negb (bool_decide (ro_State record = RuntimeOperationApplying)))
              ErrRuntimeOperationConflict;
        t ← (if publishesRuntime (fz_Outcome final) then publish_session record (fz_Outcome final) t else Ok t);
        Ok (alter_operation (finished final) (fz_OperationID final) t, finished final record)
  end.

Definition Ops_Finalize (ctxErr : option error) (ft : fate) (final : RuntimeOperationFinalization) (t : runtime_tables) :
    runtime_tables * result RuntimeOperationRecord :=
  let final := mkFinalization (fz_OperationID final) (fz_InputHash final) (fz_Outcome final) (fz_ReasonCode final)
                 (canonicalRuntimeOperationTime (fz_At final)) in
  if negb (structuralPublicValue (fz_OperationID final) maxRuntimeOperationIDBytes) ||
     negb (validRuntimeInputHash (fz_InputHash final)) || negb (validRuntimeOperationOutcome (fz_Outcome final)) ||
     negb (validRuntimeOperationReason (fz_ReasonCode final)) || (fz_At final =? 0)
  then (t, Err ErrRuntimeOperationInvalid)
  else transaction ctxErr ft (finalize_body final) t.

(** ** Prune: the oldest terminal rows below the cutoff *)
Definition maxRuntimeOperationPrune : Z := 1000.
Definition older (a b : Z * string) : Prop := a.1 < b.1 ∨ (a.1 = b.1 ∧ string_leb a.2 b.2 = true).
#[global] Instance older_dec a b : Decision (older a b).
Proof. unfold older. apply _. Defined.

Definition prunable (cutoff : Z) (t : runtime_tables) : list (Z * string) :=
  merge_sort older (omap (λ r : RuntimeOperationRecord,
    match ro_TerminalAt r with
    | Some at_ => if bool_decide (ro_State r = RuntimeOperationTerminal) && (at_ <? cutoff) then Some (at_, ro_OperationID r) else None
    | None => None
    end) (map snd (map_to_list (rt_operations t)))).
Definition prune_body (cutoff limit : Z) (t : runtime_tables) : result (runtime_tables * Z) :=
  let victims := take (Z.to_nat limit) (prunable cutoff t) in
  Ok (mkTables (foldr (λ v ops, delete v.2 ops) (rt_operations t) victims) (rt_sessions t), Zlength victims).

Definition Ops_Prune (ctxErr : option error) (ft : fate) (before limit : Z) (t : runtime_tables) : runtime_tables * result Z :=
  if (before =? 0) || (limit <? 1) || (maxRuntimeOperationPrune <? limit) then (t, Err ErrRuntimeOperationInvalid)
  else transaction ctxErr ft (prune_body (canonicalRuntimeOperationTime before) limit) t.

(** ** Executions *)
(** The journal's own transactions, and the session store's: it inserts complete rows,
    updates no runtime column of a row that exists, and deletes rows. *)
Inductive journal_step : runtime_tables → runtime_tables → Prop :=
  | os_begin ctxErr ft intent t t' r : Ops_Begin ctxErr ft intent t = (t', r) → journal_step t t'
  | os_mark ctxErr ft now id hash t t' r : Ops_MarkApplying ctxErr ft now id hash t = (t', r) → journal_step t t'
  | os_finalize ctxErr ft final t t' r : Ops_Finalize ctxErr ft final t = (t', r) → journal_step t t'
  | os_prune ctxErr ft before limit t t' r : Ops_Prune ctxErr ft before limit t = (t', r) → journal_step t t'
  | os_session_created session row t :
      rt_sessions t !! session = None →
      journal_step t (mkTables (rt_operations t) (<[session := row]> (rt_sessions t)))
  | os_session_deleted session t : journal_step t (mkTables (rt_operations t) (delete session (rt_sessions t))).

(** The other writer of a session's runtime columns is the activation of an archived
    lifetime, which overwrites all of them but the requested model. *)
Definition activate_row (archive : string) (generation : Z) (snapshot binding effective outcome : string)
    (row : option session_row) : session_row :=
  mkSessionRow archive generation snapshot binding (row ≫= sm_RequestedModel) effective outcome.
Definition activate_session (session : string) (f : option session_row → session_row) (t : runtime_tables) : runtime_tables :=
  mkTables (rt_operations t) (<[session := f (rt_sessions t !! session)]> (rt_sessions t)).

Inductive op_step : runtime_tables → runtime_tables → Prop :=
  | os_journal t t' : journal_step t t' → op_step t t'
  | os_activated session archive generation snapshot binding effective outcome t :
      op_step t (activate_session session (activate_row archive generation snapshot binding effective outcome) t).
Definition no_tables : runtime_tables := mkTables ∅ ∅.
Definition journal_reachable (t : runtime_tables) : Prop := rtc op_step no_tables t.

Definition rank (state : string) : Z :=
  if bool_decide (state = RuntimeOperationTerminal) then 2 else if bool_decide (state = RuntimeOperationApplying) then 1 else 0.
Definition trimmed (o : option string) : Prop := match o with Some m => TrimSpace m = m | None => True end.

Record journal_ok (t : runtime_tables) : Prop := {
  jk_id : ∀ id r, rt_operations t !! id = Some r → ro_OperationID r = id ∧ trimmed (ro_TargetRequestedModel r);
  jk_unique : ∀ id1 id2 r1 r2, rt_operations t !! id1 = Some r1 → rt_operations t !! id2 = Some r2 →
    unresolved r1 = true → unresolved r2 = true → ro_SessionID r1 = ro_SessionID r2 → id1 = id2 }.

(** What one step may do to an operation. *)
Definition moved (r r' : RuntimeOperationRecord) : Prop :=
  sameRuntimeOperationIntent r r' = true ∧ rank (ro_State r) ≤ rank (ro_State r') ∧
  (ro_State r = RuntimeOperationTerminal → r' = r).

(** ** Reading back *)
Lemma prepare_record_Ok r r' :
  prepareRuntimeOperationRecord r = Ok r' →
  ∃ requested binding, prepareOptionalRequestedModel (ro_TargetRequestedModel r) = Ok requested ∧ r' = with_prepared r requested binding.
Proof.
  unfold prepareRuntimeOperationRecord. intros H0.
  repeat match type of H0 with
         | (reject_if _ _ ≫= _) = Ok _ => apply bind_Ok in H0 as (_ & _ & H0)
         end.
  apply bind_Ok in H0 as (requested & Hr & H0). apply bind_Ok in H0 as (_ & _ & H0). apply bind_Ok in H0 as (binding & _ & H0).
  apply bind_Ok in H0 as (_ & _ & H0). apply bind_Ok in H0 as (_ & _ & H0). apply Ok_inj in H0 as <-. by exists requested, binding.
Qed.

Lemma requested_trimmed o o' : prepareOptionalRequestedModel o = Ok o' → trimmed o' ∧ (trimmed o → o' = o).
Proof.
  destruct o as [m|]; cbn; [|by intros [= <-]]. intros ([] & Hr & E)%bind_Ok. apply Ok_inj in E as <-.
  apply reject_if_Ok, negb_false_iff in Hr. unfold structuralPublicValue in Hr.
  rewrite !andb_true_iff, bool_decide_eq_true in Hr. split; [apply Hr | intros E; cbn in E; by rewrite E].
Qed.

Lemma read_row_Ok r r' : trimmed (ro_TargetRequestedModel r) → read_row r = Ok r' → r' = r.
Proof.
  intros Htr. unfold read_row. destruct (prepareRuntimeOperationRecord r) as [p|] eqn:Hp; [|discriminate].
  intros ([] & Hb & E)%bind_Ok. apply Ok_inj in E as <-. apply reject_if_Ok in Hb. rewrite !orb_false_iff in Hb.
  destruct Hb as [[[[_ Hb] _] _] _]. apply negb_false_iff, bool_decide_eq_true in Hb.
  destruct (prepare_record_Ok _ _ Hp) as (requested & binding & Hr & Ep). destruct (requested_trimmed _ _ Hr) as [_ E].
  specialize (E Htr). subst p. rewrite E. clear E Hr. cbn in Hb. destruct r. cbn in *. by subst.
Qed.

Lemma get_operation_Ok t id o : journal_ok t → get_operation t id = Ok o → o = rt_operations t !! id.
Proof.
  intros Hok. unfold get_operation. destruct (rt_operations t !! id) as [r|] eqn:E; cbn; [|by intros [= <-]].
  intros (r' & Hr & E')%bind_Ok. apply Ok_inj in E' as <-. f_equal. apply read_row_Ok; [by apply (jk_id t Hok id r E) | done].
Qed.

Lemma prepare_state r r' :
  prepareRuntimeOperationRecord r = Ok r' → ro_State r ∈ [RuntimeOperationPrepared; RuntimeOperationApplying; RuntimeOperationTerminal].
Proof.
  unfold prepareRuntimeOperationRecord. intros H0. do 4 apply bind_Ok in H0 as (_ & _ & H0).
  apply bind_Ok in H0 as ([] & Hs & _). by apply reject_if_Ok, negb_false_iff, bool_decide_eq_true in Hs.
Qed.

(** A row that can be read and is not finished is unresolved. *)
Lemma get_operation_unresolved t id r :
  journal_ok t → get_operation t id = Ok (Some r) → ro_State r ≠ RuntimeOperationTerminal → unresolved r = true.
Proof.
  intros Hok Hg Hne. pose proof (get_operation_Ok _ _ _ Hok Hg) as E. unfold get_operation in Hg. rewrite <-E in Hg. cbn in Hg.
  apply bind_Ok in Hg as (r' & Hr & _). unfold read_row in Hr. destruct (prepareRuntimeOperationRecord r) eqn:Hp; [|discriminate].
  apply prepare_state in Hp. unfold unresolved. rewrite orb_true_iff, !bool_decide_eq_true.
  rewrite !elem_of_cons in Hp. destruct Hp as [?|[?|[?|Hp]]]; [by left | by right | done | by apply not_elem_of_nil in Hp].
Qed.

Lemma none_unresolved t session :
  get_unresolved t session = Ok None →
  ∀ id r, rt_operations t !! id = Some r → ro_SessionID r = session → unresolved r = false.
Proof.
  unfold get_unresolved. intros Hg id r Hr Hs. destruct (unresolved r) eqn:Hu; [exfalso|done].
  assert (Hin : r ∈ filter (λ r, ro_SessionID r = session ∧ unresolved r = true) (map snd (map_to_list (rt_operations t)))).
  { apply list_elem_of_filter. split; [done|]. apply list_elem_of_In, in_map_iff. exists (id, r). split; [done|].
    by apply list_elem_of_In, elem_of_map_to_list. }
  destruct (filter _ _) as [|x l]; [by apply not_elem_of_nil in Hin|]. cbn in Hg. apply bind_Ok in Hg as (? & _ & Hg). discriminate.
Qed.

(** ** Steps *)
Lemma transaction_run {A} ctxErr ft (body : runtime_tables → result (runtime_tables * A)) t t' r :
  transaction ctxErr ft body t = (t', r) → t' = t ∨ ∃ a, body t = Ok (t', a).
Proof.
  unfold transaction. destruct ft as [|err|err]; [| by intros [= <- _]; left |]; destruct (body t) as [[t1 a]|e] eqn:E; intros [= <- _];
    try (by left); right; by exists a.
Qed.

Lemma moved_refl r : moved r r.
Proof.
  split_and!; [|lia|done]. unfold sameRuntimeOperationIntent. by rewrite !bool_decide_true, Z.eqb_refl by done.
Qed.

Lemma moved_state r state outcome reason updated terminal :
  ro_State r ≠ RuntimeOperationTerminal → rank (ro_State r) ≤ rank state →
  moved r (with_state r state outcome reason updated terminal).
Proof. intros Hne Hr. split_and!; [apply (moved_refl r) | exact Hr | done]. Qed.

(** A step that only changes one row, by a move. *)
Record one_move (t t' : runtime_tables) : Prop := {
  om_kept : ∀ id r r', rt_operations t !! id = Some r → rt_operations t' !! id = Some r' → moved r r';
  om_gone : ∀ id r, rt_operations t !! id = Some r → rt_operations t' !! id = None → ro_State r = RuntimeOperationTerminal;
  om_ok : journal_ok t' }.

Lemma one_move_same t t' : journal_ok t → rt_operations t' = rt_operations t → one_move t t'.
Proof.
  intros Hok E. split; rewrite ?E.
  - intros id r r' H1 H2. rewrite H1 in H2. injection H2 as <-. apply moved_refl.
  - congruence.
  - split; rewrite E; apply Hok.
Qed.

Lemma same_intent_fields r r' :
  sameRuntimeOperationIntent r r' = true →
  ro_OperationID r' = ro_OperationID r ∧ ro_SessionID r' = ro_SessionID r ∧ ro_TargetRequestedModel r' = ro_TargetRequestedModel r.
Proof. unfold sameRuntimeOperationIntent. rewrite !andb_true_iff, !bool_decide_eq_true. by intuition. Qed.

Lemma rank_unresolved r : unresolved r = true → ro_State r ≠ RuntimeOperationTerminal.
Proof. unfold unresolved. rewrite orb_true_iff, !bool_decide_eq_true. intros [E|E]; rewrite E; discriminate. Qed.

(** Altering one unfinished row. *)
Lemma one_move_alter f id t r0 :
  journal_ok t → rt_operations t !! id = Some r0 → moved r0 (f r0) →
  (unresolved (f r0) = true → unresolved r0 = true) →
  one_move t (alter_operation f id t).
Proof.
  intros Hok H0 Hf Hu.
  assert (Hlook : ∀ i r', rt_operations (alter_operation f id t) !! i = Some r' →
    ∃ r, rt_operations t !! i = Some r ∧ moved r r' ∧ (unresolved r' = true → unresolved r = true)).
  { intros i r'. cbn. rewrite lookup_alter. case_decide as E; intros Hl.
    - subst i. rewrite H0 in Hl. injection Hl as <-. by exists r0.
    - exists r'. by split_and!; [|apply moved_refl|]. }
  split.
  - intros i r r' H1 H2. destruct (Hlook i r' H2) as (r1 & H1' & Hm & _). rewrite H1 in H1'. by injection H1' as ->.
  - intros i r H1 H2. cbn in H2. rewrite lookup_alter in H2. case_decide; [|congruence]. subst i. by rewrite H0 in H2.
  - split.
    + intros i r' H2. destruct (Hlook i r' H2) as (r & H1 & (Hs & _) & _).
      destruct (same_intent_fields r r' Hs) as (-> & _ & ->). by apply (jk_id t Hok).
    + intros i j r1 r2 H1 H2 U1 U2 E. destruct (Hlook i r1 H1) as (q1 & Q1 & (S1 & _) & V1).
      destruct (Hlook j r2 H2) as (q2 & Q2 & (S2 & _) & V2). apply (jk_unique t Hok i j q1 q2 Q1 Q2 (V1 U1) (V2 U2)).
      destruct (same_intent_fields _ _ S1) as (_ & <- & _). by destruct (same_intent_fields _ _ S2) as (_ & <- & _).
Qed.

(** The publication behind a change of a session's runtime columns. *)
Definition published_by (t t' : runtime_tables) (session : string) (row row' : session_row) : Prop :=
  ∃ id op outcome, rt_operations t !! id = Some op ∧ ro_State op = RuntimeOperationApplying ∧ ro_SessionID op = session ∧
    publishesRuntime outcome = true ∧ at_expected op row = true ∧ row' = published_row op outcome row ∧
    ∃ op', rt_operations t' !! id = Some op' ∧ ro_State op' = RuntimeOperationTerminal ∧ ro_Outcome op' = outcome.
Definition guarded (t t' : runtime_tables) : Prop :=
  ∀ session row row', rt_sessions t !! session = Some row → rt_sessions t' !! session = Some row' → row' ≠ row →
    published_by t t' session row row'.

Lemma guarded_same t t' : rt_sessions t' = rt_sessions t → guarded t t'.
Proof. intros E session row row' H1 H2 Hne. rewrite E in H2. congruence. Qed.

Lemma begin_move intent t t' r :
  journal_ok t → trimmed (ro_TargetRequestedModel intent) → begin_body intent t = Ok (t', r) →
  one_move t t' ∧ rt_sessions t' = rt_sessions t.
Proof.
  intros Hok Htr (existing & Hg & Hb)%bind_Ok. apply get_operation_Ok in Hg; [|done]. destruct existing as [e|].
  { apply bind_Ok in Hb as (_ & _ & E). injection E as <- _. split; [by apply one_move_same | done]. }
  apply bind_Ok in Hb as (found & Hf & Hb). apply bind_Ok in Hb as ([] & Hn & E). injection E as <- _.
  apply reject_if_Ok, bool_decide_eq_false in Hn. destruct found as [?|]; [by destruct Hn|].
  pose proof (none_unresolved _ _ Hf) as Hnone. symmetry in Hg. split; [|done].
  assert (Hfresh : ∀ i q q', rt_operations t !! i = Some q → rt_operations (put_operation intent t) !! i = Some q' → q' = q).
  { intros i q q' H1 H2. cbn in H2. rewrite lookup_insert_ne in H2 by congruence. congruence. }
  split.
  - intros i q q' H1 H2. rewrite (Hfresh i q q' H1 H2). apply moved_refl.
  - intros i q H1 H2. cbn in H2. rewrite lookup_insert_ne in H2 by congruence. congruence.
  - split; cbn.
    + intros i q Hq. apply lookup_insert_Some in Hq as [[<- <-]|[_ Hq]]; [done | by apply (jk_id t Hok)].
    + intros i j q1 q2 H1 H2 U1 U2 E.
      apply lookup_insert_Some in H1 as [[<- <-]|[_ H1]], H2 as [[<- <-]|[_ H2]]; [done | exfalso | exfalso |].
      * by rewrite (Hnone j q2 H2 (eq_sym E)) in U2.
      * by rewrite (Hnone i q1 H1 E) in U1.
      * by apply (jk_unique t Hok i j q1 q2).
Qed.

Lemma mark_move id hash now t t' r :
  journal_ok t → mark_body id hash now t = Ok (t', r) → one_move t t' ∧ rt_sessions t' = rt_sessions t.
Proof.
  intros Hok (found & Hg & Hb)%bind_Ok. pose proof (get_operation_Ok _ _ _ Hok Hg) as E. destruct found as [record|]; [|discriminate].
  apply bind_Ok in Hb as (_ & _ & Hb). case_bool_decide as Ha.
  { injection Hb as <- _. split; [by apply one_move_same | done]. }
  apply bind_Ok in Hb as ([] & Ht & Eb). injection Eb as <- _. apply reject_if_Ok, bool_decide_eq_false in Ht. split; [|done].
  apply (one_move_alter _ id t record Hok (eq_sym E)).
  - apply moved_state; [done|]. unfold rank. by rewrite (bool_decide_false _ Ht), (bool_decide_false _ Ha).
  - intros _. by apply (get_operation_unresolved t id).
Qed.

Lemma publish_session_Ok r outcome t t' :
  publish_session r outcome t = Ok t' →
  rt_operations t' = rt_operations t ∧
  ∃ row, rt_sessions t !! ro_SessionID r = Some row ∧
    ((at_expected r row = true ∧ rt_sessions t' = <[ro_SessionID r := published_row r outcome row]> (rt_sessions t)) ∨
     (at_expected r row = false ∧ at_target r outcome row = true ∧ t' = t)).
Proof.
  unfold publish_session. destruct (rt_sessions t !! ro_SessionID r) as [row|]; [|discriminate]. intros (_ & _ & Hp)%bind_Ok.
  destruct (at_expected r row) eqn:Hexp.
  - apply bind_Ok in Hp as (_ & _ & Hp). apply bind_Ok in Hp as (_ & _ & Hp). apply Ok_inj in Hp as <-.
    split; [done|]. exists row. split; [done|]. by left.
  - apply bind_Ok in Hp as ([] & Ht & E). apply Ok_inj in E as <-. apply reject_if_Ok, negb_false_iff in Ht. split; [done|].
    exists row. split; [done|]. by right.
Qed.

Lemma finalize_move final t t' r :
  journal_ok t → finalize_body final t = Ok (t', r) → one_move t t' ∧ guarded t t'.
Proof.
  intros Hok (found & Hg & Hb)%bind_Ok. pose proof (get_operation_Ok _ _ _ Hok Hg) as E. destruct found as [record|]; [|discriminate].
  apply bind_Ok in Hb as (_ & _ & Hb). case_bool_decide as Ha.
  { apply bind_Ok in Hb as (_ & _ & Hb). injection Hb as <- _. split; [by apply one_move_same | by apply guarded_same]. }
  apply bind_Ok in Hb as (_ & _ & Hb). apply bind_Ok in Hb as ([] & Hst & Hb). apply bind_Ok in Hb as (t1 & Hp & Hb).
  injection Hb as <- _. apply reject_if_Ok in Hst.
  assert (Hops : rt_operations t1 = rt_operations t).
  { destruct (publishesRuntime (fz_Outcome final)); [by apply publish_session_Ok in Hp as [? _] | by apply Ok_inj in Hp as <-]. }
  assert (Hm : one_move t (alter_operation (finished final) (fz_OperationID final) t)).
  { apply (one_move_alter _ _ t record Hok (eq_sym E)).
    - apply moved_state; [done|]. unfold rank. rewrite (bool_decide_false _ Ha), (bool_decide_true (RuntimeOperationTerminal = _)) by done.
      case_bool_decide; lia.
    - intros _. by apply (get_operation_unresolved t (fz_OperationID final)). }
  split.
  - destruct Hm as [K1 K2 K3]. split; cbn in *; rewrite ?Hops; [exact K1 | exact K2 |].
    split; cbn; rewrite Hops; apply K3.
  - destruct (publishesRuntime (fz_Outcome final)) eqn:Hpub; [|apply Ok_inj in Hp as ->; by apply guarded_same].
    apply publish_session_Ok in Hp as (_ & row0 & H0 & [(Hexp & Hs)|(_ & _ & ->)]); [|by apply guarded_same].
    intros session row row' H1 H2 Hne. cbn in H2. rewrite Hs in H2.
    apply lookup_insert_Some in H2 as [[<- <-]|[_ H2]]; [|congruence]. rewrite H0 in H1. injection H1 as <-.
    cbn in Hst. apply negb_false_iff, bool_decide_eq_true in Hst.
    exists (fz_OperationID final), record, (fz_Outcome final). split_and!; try done.
    exists (finished final record). cbn. rewrite Hops, lookup_alter, decide_True by done. by rewrite <-E.
Qed.

Lemma deleted_all {A} (victims : list (Z * string)) (ops : gmap string A) id r :
  foldr (λ v ops, delete v.2 ops) ops victims !! id = Some r → ops !! id = Some r.
Proof. induction victims as [|v victims IH]; cbn; [done|]. intros [_ Hl]%lookup_delete_Some. by apply IH. Qed.

Lemma deleted_victim {A} (victims : list (Z * string)) (ops : gmap string A) id r :
  ops !! id = Some r → foldr (λ v ops, delete v.2 ops) ops victims !! id = None → ∃ at_, (at_, id) ∈ victims.
Proof.
  intros Hr. induction victims as [|[at_ v] victims IH]; cbn; [congruence|]. intros Hl.
  destruct (decide (v = id)) as [->|Hne]; [exists at_; apply list_elem_of_here|].
  rewrite lookup_delete_ne in Hl by done. destruct (IH Hl) as [a Ha]. exists a. by right.
Qed.

Lemma prunable_terminal t cutoff at_ id :
  journal_ok t → (at_, id) ∈ prunable cutoff t → ∃ r, rt_operations t !! id = Some r ∧ ro_State r = RuntimeOperationTerminal.
Proof.
  intros Hok Hin. unfold prunable in Hin. rewrite merge_sort_Permutation in Hin.
  apply list_elem_of_omap in Hin as (r & Hr & Hv). apply list_elem_of_In, in_map_iff in Hr as ([k q] & E & Hkq). cbn in E. subst q.
  apply list_elem_of_In, elem_of_map_to_list in Hkq. destruct (ro_TerminalAt r); [|discriminate].
  destruct (bool_decide (ro_State r = RuntimeOperationTerminal)) eqn:Hst; [|discriminate].
  apply bool_decide_eq_true in Hst. destruct (_ <? _); [|discriminate]. injection Hv as _ <-.
  destruct (jk_id t Hok k r Hkq) as [-> _]. by exists r.
Qed.

Lemma prune_move cutoff limit t t' n :
  journal_ok t → prune_body cutoff limit t = Ok (t', n) → one_move t t' ∧ rt_sessions t' = rt_sessions t.
Proof.
  intros Hok E. unfold prune_body in E. injection E as <- _. split; [|done]. split; cbn.
  - intros id r r' H1 H2%deleted_all. assert (r' = r) as -> by congruence. apply moved_refl.
  - intros id r H1 H2. destruct (deleted_victim _ _ _ _ H1 H2) as [at_ Hin].
    assert (Hp : (at_, id) ∈ prunable cutoff t).
    { rewrite <-(take_drop (Z.to_nat limit) (prunable cutoff t)). apply elem_of_app. by left. }
    destruct (prunable_terminal t cutoff at_ id Hok Hp) as (r' & Hr' & Hst). congruence.
  - split; cbn.
    + intros id r H1%deleted_all. by apply (jk_id t Hok).
    + intros i j r1 r2 H1%deleted_all H2%deleted_all. by apply (jk_unique t Hok).
Qed.

Lemma journal_step_move t t' : journal_ok t → journal_step t t' → one_move t t' ∧ guarded t t'.
Proof.
  intros Hok Hstep.
  assert (Hsame : t' = t → one_move t t' ∧ guarded t t') by (intros ->; split; [by apply one_move_same | by apply guarded_same]).
  assert (Hboth : one_move t t' ∧ rt_sessions t' = rt_sessions t → one_move t t' ∧ guarded t t')
    by (intros [Hm Hs]; split; [done | by apply guarded_same]).
  destruct Hstep as [ctxErr ft intent t t' r Hrun|ctxErr ft now id hash t t' r Hrun|ctxErr ft final t t' r Hrun
    |ctxErr ft before limit t t' r Hrun|session row t Hnone|session t].
  - unfold Ops_Begin in Hrun. destruct (_ || _ || _ || _ || _ || _); [injection Hrun as <- _; by apply Hsame|].
    destruct (prepareRuntimeOperationRecord _) as [intent'|] eqn:Hp; [|injection Hrun as <- _; by apply Hsame].
    destruct (transaction_run _ _ _ _ _ _ Hrun) as [E|[a Hb]]; [by apply Hsame|]. apply Hboth, (begin_move intent' t t' a Hok); [|done].
    destruct (prepare_record_Ok _ _ Hp) as (requested & binding & Hr & ->). by destruct (requested_trimmed _ _ Hr).
  - unfold Ops_MarkApplying in Hrun. destruct (_ || _); [injection Hrun as <- _; by apply Hsame|].
    destruct (transaction_run _ _ _ _ _ _ Hrun) as [E|[a Hb]]; [by apply Hsame|]. by apply Hboth, (mark_move _ _ _ _ _ _ Hok Hb).
  - unfold Ops_Finalize in Hrun. destruct (_ || _ || _ || _ || _); [injection Hrun as <- _; by apply Hsame|].
    destruct (transaction_run _ _ _ _ _ _ Hrun) as [E|[a Hb]]; [by apply Hsame|]. by apply (finalize_move _ _ _ _ Hok Hb).
  - unfold Ops_Prune in Hrun. destruct (_ || _ || _); [injection Hrun as <- _; by apply Hsame|].
    destruct (transaction_run _ _ _ _ _ _ Hrun) as [E|[a Hb]]; [by apply Hsame|]. by apply Hboth, (prune_move _ _ _ _ _ Hok Hb).
  - split; [by apply one_move_same|]. intros s r1 r2 H1 H2 Hne. cbn in H2. rewrite lookup_insert_ne in H2 by congruence. congruence.
  - split; [by apply one_move_same|]. intros s r1 r2 H1 H2 Hne. cbn in H2. apply lookup_delete_Some in H2 as [_ H2]. congruence.
Qed.

Lemma step_move t t' : journal_ok t → op_step t t' → one_move t t'.
Proof.
  intros Hok Hstep. destruct Hstep as [t t' Hs|]; [by destruct (journal_step_move _ _ Hok Hs) | by apply one_move_same].
Qed.

Lemma reachable_journal t : journal_reachable t → journal_ok t.
Proof.
  intros Hr. refine (rtc_ind_r (R := op_step) journal_ok no_tables _ _ t Hr);
    [|intros t1 t2 _ Hs Hok; by destruct (step_move _ _ Hok Hs)].
  split; cbn; intros id; intros; by rewrite lookup_empty in *.
Qed.

(** ** Properties *)

(** C25. The journal only moves forward. After any history of calls, failures included,
    one more step keeps what an operation was prepared for, never takes its state back,
    leaves a terminal record as it is, and removes only terminal records; and a session
    never has two unresolved operations. *)
Theorem journal_moves_forward t t' :
  journal_reachable t → op_step t t' →
  (∀ id r r', rt_operations t !! id = Some r → rt_operations t' !! id = Some r' →
     sameRuntimeOperationIntent r r' = true ∧ rank (ro_State r) ≤ rank (ro_State r') ∧
     (ro_State r = RuntimeOperationTerminal → r' = r)) ∧
  (∀ id r, rt_operations t !! id = Some r → rt_operations t' !! id = None → ro_State r = RuntimeOperationTerminal) ∧
  (∀ id1 id2 r1 r2, rt_operations t' !! id1 = Some r1 → rt_operations t' !! id2 = Some r2 →
     unresolved r1 = true → unresolved r2 = true → ro_SessionID r1 = ro_SessionID r2 → id1 = id2).
Proof.
  intros Hr Hs. destruct (step_move _ _ (reachable_journal _ Hr) Hs) as [K1 K2 K3].
  split; [exact K1|]. split; [exact K2 | apply K3].
Qed.

End store.

(** ** Witnesses *)
#[global] Instance demo_codec : BindingCodec := λ raw, Some raw.
Definition demo_hash : string := String.concat "" (replicate 64 "a").
Definition demo_intent : RuntimeOperationRecord :=
  mkRuntimeOperation "op" "s1" demo_hash RuntimeOperationKindModel RuntimeOperationPrepared "a1" 3 "" "" "" "model-b"
    (Some "model-b") "" "" 1000000 1000000 None.
Definition demo_row : session_row := mkSessionRow "a1" 3 "snap" "" None "model-a" "".
Definition demo_final : RuntimeOperationFinalization :=
  mkFinalization "op" demo_hash RuntimeOperationOutcomeContextPreserved "" 5000000.
Definition demo_tables0 : runtime_tables := mkTables ∅ (<["s1" := demo_row]> ∅).
Definition demo_begun : runtime_tables := (Ops_Begin None Commits demo_intent demo_tables0).1.
Definition demo_applying : runtime_tables := (Ops_MarkApplying None Commits 2000000 "op" demo_hash demo_begun).1.
Definition demo_done : runtime_tables := (Ops_Finalize None Commits demo_final demo_applying).1.

Example demo_published :
  rt_sessions demo_done !! "s1" =
    Some (mkSessionRow "a1" 4 "snap" "" (Some "model-b") "model-b" RuntimeOperationOutcomeContextPreserved).
Proof. vm_compute. reflexivity. Qed.

Lemma demo_applying_reachable : journal_reachable demo_applying.
Proof.
  eapply rtc_l; [apply os_journal, (os_session_created "s1" demo_row); reflexivity|].
  eapply rtc_l; [eapply os_journal, (os_begin None Commits demo_intent); apply surjective_pairing|].
  apply rtc_once. eapply os_journal, (os_mark None Commits 2000000 "op" demo_hash). apply surjective_pairing.
Qed.
Lemma demo_journal_step : op_step demo_applying demo_done.
Proof. eapply os_journal, (os_finalize None Commits demo_final). apply surjective_pairing. Qed.

Definition demo_operation_of (t : runtime_tables) : RuntimeOperationRecord := default demo_intent (rt_operations t !! "op").

Lemma journal_moves_forward_witness :
  rank (ro_State (demo_operation_of demo_applying)) = 1 ∧ rank (ro_State (demo_operation_of demo_done)) = 2 ∧
  sameRuntimeOperationIntent (demo_operation_of demo_applying) (demo_operation_of demo_done) = true.
Proof.
  split; [vm_compute; reflexivity|]. split; [vm_compute; reflexivity|].
  refine (proj1 (proj1 (journal_moves_forward demo_applying demo_done demo_applying_reachable demo_journal_step)
    "op" (demo_operation_of demo_applying) (demo_operation_of demo_done) _ _)); vm_compute; reflexivity.
Defined.
