(* ===== verification/ArchiveLifetimes.v ===== *)
(** * ArchiveLifetimes: the lifetimes of sessions, and who may rebind a session's row

    The lifecycle half of src/internal/apps/balda/state/chat_archive_store.go with its
    values (chatarchivecmd/contracts.go): a lifetime of a session is reserved by an
    intent, activated or given up, and ended by its successor.  Activation also writes
    the live session's row, whose runtime columns the journal of [RuntimeOperations]
    guards; here both writers run on one database.  Messages are not modelled. *)

From Stdlib Require Import ZArith Lia Ascii String.
From stdpp Require Import base numbers list gmap strings relations.
From S2P Require Import Prelude.
From S2P Require Import GoStrings.
From S2P Require Import Sha256.
From S2P Require Import GoNumeric.
From S2P Require Import GoParse.
From S2P Require Import GoTimeJson.
From S2P Require Import RuntimeOperations.

Local Open Scope string_scope.
Local Open Scope list_scope.
Local Open Scope Z_scope.

(** ** Vocabulary *)
Definition ErrInvalid : error := ErrSentinel "invalid chat archive input".
Definition ErrConflict : error := ErrSentinel "chat archive conflict".
Definition ErrUnavailable : error := ErrSentinel "chat archive unavailable".
Definition ErrNotFound : error := ErrSentinel "chat archive not found".

Definition KindFresh : string := "fresh".
Definition KindExact : string := "exact".
Definition KindAdopt : string := "adopt".
Definition KindDestroy : string := "destroy".
Definition StatusPending : string := "pending".
Definition StatusActive : string := "active".
Definition StatusEnded : string := "ended".
Definition StatusUncertain : string := "uncertain".
Definition OutcomeCompleted : string := "completed".
Definition OutcomeRetained : string := "retained".
Definition OutcomeDestroyed : string := "destroyed".
Definition OutcomeAborted : string := "aborted".
Definition PersistenceDurable : string := "sqlite".
Definition PersistenceMemory : string := "memory".

Record Location := mkLocation {
  lo_Channel : string; lo_AddressKey : string; lo_Locator : string; lo_Title : string; lo_Audience : string;
  lo_Subdivision : string; lo_SubdivisionLabel : string }.
Record Session := mkSession {
  se_ID : string; se_StableID : string; se_RuntimeID : string; se_Persistence : string; se_BootID : string; se_Label : string;
  se_Location : Location; se_Status : string; se_StartedAt : Z; se_ObservedAt : Z; se_EndedAt : Z; se_EndReason : string;
  se_CoverageStart : Z; se_Partial : bool; se_PredecessorID : string }.
Record Intent := mkIntent {
  in_Token : string; in_Kind : string; in_Session : Session; in_OldID : string; in_Reason : string; in_Outcome : string;
  in_At : Z; in_CompletedAt : Z; in_BindingFingerprint : string }.
Record SessionRecord := mkSessionRecord {
  sr_ArchiveID : string; sr_SessionID : string; sr_UserID : string; sr_ChannelType : string; sr_AddressKey : string;
  sr_AddressJSON : string; sr_AgentName : string; sr_WorkspaceDir : string; sr_BranchName : string; sr_RuntimeSnapshotID : string;
  sr_ProviderBindingJSON : string; sr_RuntimeGeneration : Z; sr_RequestedModel : option string; sr_EffectiveModel : string;
  sr_RuntimeOutcome : string; sr_Status : string }.
#[global] Instance Location_eq : EqDecision Location.
Proof. solve_decision. Defined.
#[global] Instance Session_eq : EqDecision Session.
Proof. solve_decision. Defined.
#[global] Instance Intent_eq : EqDecision Intent.
Proof. solve_decision. Defined.

Definition set_status (status : string) (s : Session) : Session :=
  mkSession (se_ID s) (se_StableID s) (se_RuntimeID s) (se_Persistence s) (se_BootID s) (se_Label s) (se_Location s) status
    (se_StartedAt s) (se_ObservedAt s) (se_EndedAt s) (se_EndReason s) (se_CoverageStart s) (se_Partial s) (se_PredecessorID s).
Definition set_end (at_ : Z) (reason : string) (s : Session) : Session :=
  mkSession (se_ID s) (se_StableID s) (se_RuntimeID s) (se_Persistence s) (se_BootID s) (se_Label s) (se_Location s) StatusEnded
    (se_StartedAt s) (se_ObservedAt s) at_ reason (se_CoverageStart s) (se_Partial s) (se_PredecessorID s).
Definition set_outcome (outcome : string) (at_ : Z) (fingerprint : string) (i : Intent) : Intent :=
  mkIntent (in_Token i) (in_Kind i) (in_Session i) (in_OldID i) (in_Reason i) outcome (in_At i) at_ fingerprint.
Definition archive_id (id : string) (live : SessionRecord) : SessionRecord :=
  mkSessionRecord id (sr_SessionID live) (sr_UserID live) (sr_ChannelType live) (sr_AddressKey live) (sr_AddressJSON live)
    (sr_AgentName live) (sr_WorkspaceDir live) (sr_BranchName live) (sr_RuntimeSnapshotID live) (sr_ProviderBindingJSON live)
    (sr_RuntimeGeneration live) (sr_RequestedModel live) (sr_EffectiveModel live) (sr_RuntimeOutcome live) (sr_Status live).

Definition open_outcome (outcome : string) : bool := bool_decide (outcome ∈ [StatusPending; StatusUncertain]).

(** ** What a JSON column holds: the value its text decodes to.  A value with a time that
    does not marshal is written as the empty text, which decodes to nothing. *)
Definition json_location (l : Location) : Location :=
  mkLocation (json_text (lo_Channel l)) (json_text (lo_AddressKey l)) (json_text (lo_Locator l)) (json_text (lo_Title l))
    (json_text (lo_Audience l)) (json_text (lo_Subdivision l)) (json_text (lo_SubdivisionLabel l)).
Definition json_session (s : Session) : Session :=
  mkSession (json_text (se_ID s)) (json_text (se_StableID s)) (json_text (se_RuntimeID s)) (json_text (se_Persistence s))
    (json_text (se_BootID s)) (json_text (se_Label s)) (json_location (se_Location s)) (json_text (se_Status s)) (se_StartedAt s)
    (se_ObservedAt s) (se_EndedAt s) (json_text (se_EndReason s)) (se_CoverageStart s) (se_Partial s) (json_text (se_PredecessorID s)).
Definition session_storable (s : Session) : bool :=
  storable (se_StartedAt s) && storable (se_ObservedAt s) && storable (se_EndedAt s) && storable (se_CoverageStart s).
Definition encode_session (s : Session) : option Session := if session_storable s then Some (json_session s) else None.
Definition encode_intent (i : Intent) : option Intent :=
  if session_storable (in_Session i) && storable (in_At i) && storable (in_CompletedAt i)
  then Some (mkIntent (json_text (in_Token i)) (json_text (in_Kind i)) (json_session (in_Session i)) (json_text (in_OldID i))
               (json_text (in_Reason i)) (json_text (in_Outcome i)) (in_At i) (in_CompletedAt i) (json_text (in_BindingFingerprint i)))
  else None.

(** ** The database *)
Record archive_row := mkArchiveRow { ar_status : string; ar_record : option Session }.
Record intent_row := mkIntentRow { iw_channel : string; iw_address : string; iw_outcome : string; iw_record : option Intent }.
Record live_tables := mkLive {
  lv_runtime : runtime_tables; lv_archive : gmap string archive_row; lv_intents : gmap string intent_row }.

Definition archiveError (ctxErr : option error) (err : error) : error :=
  match ctxErr with
  | Some e => e
  | None => if errors_Is err (ErrSentinel "sql: no rows in result set") then ErrNotFound else ErrUnavailable
  end.

Definition archive_transaction {A} (ctxErr : option error) (ft : fate) (body : live_tables → result (live_tables * A))
    (t : live_tables) : live_tables * result A :=
  match ft with
  | Fails err => (t, Err (archiveError ctxErr err))
  | Commits => match body t with Ok (t', a) => (t', Ok a) | Err err => (t, Err err) end
  | CommitsUnreported err =>
      match body t with Ok (t', _) => (t', Err (archiveError ctxErr err)) | Err err => (t, Err err) end
  end.

Definition decoded {A} (column : option A) : result A := match column with Some a => Ok a | None => Err ErrUnavailable end.
Definition readIntent (t : live_tables) (token : string) : result Intent :=
  match lv_intents t !! token with None => Err ErrNotFound | Some row => decoded (iw_record row) end.
Definition readSession (t : live_tables) (id : string) : result Session :=
  match lv_archive t !! id with None => Err ErrNotFound | Some row => decoded (ar_record row) end.

Definition put_archive (f : gmap string archive_row → gmap string archive_row) (t : live_tables) : live_tables :=
  mkLive (lv_runtime t) (f (lv_archive t)) (lv_intents t).
Definition put_intents (f : gmap string intent_row → gmap string intent_row) (t : live_tables) : live_tables :=
  mkLive (lv_runtime t) (lv_archive t) (f (lv_intents t)).
Definition with_runtime (rt : runtime_tables) (t : live_tables) : live_tables := mkLive rt (lv_archive t) (lv_intents t).

(** UPDATE balda_archive_sessions ... WHERE archive_id = ?, which may match nothing. *)
Definition updateSession (rec : Session) : live_tables → live_tables :=
  put_archive (alter (λ _, mkArchiveRow (se_Status rec) (encode_session rec)) (se_ID rec)).
(** INSERT INTO balda_archive_sessions, whose primary key is the archive id. *)
Definition insertSession (rec : Session) (t : live_tables) : result live_tables :=
  _ ← reject_if (bool_decide (is_Some (lv_archive t !! se_ID rec))) ErrUnavailable;
  Ok (put_archive (<[se_ID rec := mkArchiveRow (se_Status rec) (encode_session rec)]>) t).
Definition writeIntent (i : Intent) : live_tables → live_tables :=
  put_intents (alter (λ row, mkIntentRow (iw_channel row) (iw_address row) (in_Outcome i) (encode_intent i)) (in_Token i)).

(** [WHERE channel_type = ? AND address_key = ? AND outcome IN ('pending','uncertain')];
    an index makes it at most one row. *)
Definition open_intents (channel address : string) (t : live_tables) : list intent_row :=
  filter (λ row, iw_channel row = channel ∧ iw_address row = address ∧ open_outcome (iw_outcome row) = true)
    (map snd (map_to_list (lv_intents t))).

(** ** Identity *)
Definition sameArchiveLocation (left right_ : Session) : bool :=
  bool_decide (lo_Channel (se_Location left) = lo_Channel (se_Location right_)) &&
  bool_decide (lo_AddressKey (se_Location left) = lo_AddressKey (se_Location right_)) &&
  bool_decide (lo_Locator (se_Location left) = lo_Locator (se_Location right_)).

(** Fences lifecycle operations to one existing runtime epoch. *)
Definition sameArchiveIdentity (a b : Session) : bool :=
  bool_decide (se_ID a = se_ID b) && bool_decide (se_StableID a = se_StableID b) && bool_decide (se_RuntimeID a = se_RuntimeID b) &&
  bool_decide (se_Persistence a = se_Persistence b) &&
  (negb (bool_decide (se_Persistence a = PersistenceMemory)) || bool_decide (se_BootID a = se_BootID b)) &&
  sameArchiveLocation a b.

(** The predecessor a fresh lifetime continues. *)
Definition not_predecessor (predecessor rec : Session) : bool :=
  negb (bool_decide (se_Status predecessor ∈ [StatusActive; StatusEnded])) ||
  negb (bool_decide (se_ID predecessor = se_PredecessorID rec)) ||
  negb (bool_decide (se_StableID predecessor = se_StableID rec)) || negb (sameArchiveLocation predecessor rec).

(** [encoding/json] on the record; an unset model is null. *)
Definition json_live (r : SessionRecord) : string :=
  json_object [("ArchiveID", json_string (sr_ArchiveID r)); ("SessionID", json_string (sr_SessionID r));
    ("UserID", json_string (sr_UserID r)); ("ChannelType", json_string (sr_ChannelType r)); ("AddressKey", json_string (sr_AddressKey r));
    ("AddressJSON", json_string (sr_AddressJSON r)); ("AgentName", json_string (sr_AgentName r));
    ("WorkspaceDir", json_string (sr_WorkspaceDir r)); ("BranchName", json_string (sr_BranchName r));
    ("RuntimeSnapshotID", json_string (sr_RuntimeSnapshotID r)); ("ProviderBindingJSON", json_string (sr_ProviderBindingJSON r));
    ("RuntimeGeneration", FormatUint (sr_RuntimeGeneration r));
    ("RequestedModel", match sr_RequestedModel r with Some m => json_string m | None => "null" end);
    ("EffectiveModel", json_string (sr_EffectiveModel r)); ("RuntimeOutcome", json_string (sr_RuntimeOutcome r));
    ("Status", json_string (sr_Status r))].
Definition liveFingerprint (live : option SessionRecord) (id : string) : string :=
  match live with
  | None => "none"
  | Some live => sha256_hex (json_live (archive_id id live))
  end.

(** [github.com/google/uuid]: whether [uuid.Parse] accepts the text. *)
Class UuidParser := uuid_Parse : string → bool.

Section store.
  Context `{BindingCodec} `{UuidParser}.

Definition validArchiveSession (s : Session) : bool :=
  uuid_Parse (se_ID s) && negb (bool_decide (se_StableID s = "")) && negb (bool_decide (se_RuntimeID s = "")) &&
  negb (bool_decide (lo_Channel (se_Location s) = "")) && negb (bool_decide (lo_AddressKey (se_Location s) = "")) &&
  negb (bool_decide (lo_Locator (se_Location s) = "")) && negb (se_StartedAt s =? 0) &&
  (bool_decide (se_Persistence s = PersistenceDurable) || bool_decide (se_Persistence s = PersistenceMemory)) &&
  negb (bool_decide (se_BootID s = "")).

(** ** Begin *)
Definition immutable_intent (i : Intent) : Intent := set_outcome "" 0 "" i.

Definition reserved (candidate : Intent) : Session :=
  let s := in_Session candidate in
  mkSession (se_ID s) (se_StableID s) (se_RuntimeID s) (se_Persistence s) (se_BootID s) (se_Label s) (se_Location s) StatusPending
    (se_StartedAt s) (if se_ObservedAt s =? 0 then in_At candidate else se_ObservedAt s) (se_EndedAt s) (se_EndReason s)
    (in_At candidate) (bool_decide (in_Kind candidate = KindAdopt) || se_Partial s) (se_PredecessorID s).

Definition insertIntent (i : Intent) : live_tables → live_tables :=
  put_intents (<[in_Token i := mkIntentRow (lo_Channel (se_Location (in_Session i))) (lo_AddressKey (se_Location (in_Session i)))
                                 (in_Outcome i) (encode_intent i)]>).

(** The lifetime an exact or destructive intent names, and the one a fresh intent ends. *)
Definition check_subject (candidate : Intent) (t : live_tables) : result unit :=
  if bool_decide (in_Kind candidate = KindExact) || bool_decide (in_Kind candidate = KindDestroy) then
    rec ← readSession t (if bool_decide (in_Kind candidate = KindDestroy) then in_OldID candidate else se_ID (in_Session candidate));
    reject_if (negb (bool_decide (se_Status rec = StatusActive)) || negb (sameArchiveIdentity rec (in_Session candidate))) ErrConflict
  else Ok tt.
Definition check_predecessor (candidate : Intent) (t : live_tables) : result unit :=
  if bool_decide (in_Kind candidate = KindFresh) && negb (bool_decide (in_OldID candidate = "")) then
    predecessor ← readSession t (in_OldID candidate);
    reject_if (not_predecessor predecessor (in_Session candidate)) ErrConflict
  else Ok tt.

Definition begin_archive (candidate : Intent) (t : live_tables) : result (live_tables * Intent) :=
  match lv_intents t !! in_Token candidate with
  | Some row =>
      existing ← decoded (iw_record row);
      _ ← reject_if (negb (bool_decide (encode_intent (immutable_intent existing) = encode_intent (immutable_intent candidate)))) ErrConflict;
      Ok (t, existing)
  | None =>
      _ ← reject_if (negb (bool_decide (open_intents (lo_Channel (se_Location (in_Session candidate)))
                                          (lo_AddressKey (se_Location (in_Session candidate))) t = []))) ErrConflict;
      _ ← check_subject candidate t;
      _ ← check_predecessor candidate t;
      let candidate := set_outcome StatusPending (in_CompletedAt candidate) (in_BindingFingerprint candidate) candidate in
      let t := insertIntent candidate t in
      t ← (if bool_decide (in_Kind candidate = KindFresh) || bool_decide (in_Kind candidate = KindAdopt)
           then insertSession (reserved candidate) t else Ok t);
      Ok (t, candidate)
  end.

Definition Archive_Begin (ctxErr : option error) (ft : fate) (candidate : Intent) (t : live_tables) : live_tables * result Intent :=
  if bool_decide (in_Token candidate = "") || (in_At candidate =? 0) || negb (validArchiveSession (in_Session candidate)) ||
     negb (bool_decide (in_Kind candidate ∈ [KindFresh; KindExact; KindAdopt; KindDestroy]))
  then (t, Err ErrInvalid)
  else archive_transaction ctxErr ft (begin_archive candidate) t.

(** ** Activate *)
Definition check_runtime_metadata (r : SessionRecord) : result unit :=
  _ ← reject_if (max_i64 <? sr_RuntimeGeneration r) (ErrText "runtime_generation exceeds storage range");
  _ ← reject_if (negb (bool_decide (sr_EffectiveModel r = "")) && negb (structuralPublicValue (sr_EffectiveModel r) maxEffectiveModelBytes))
        (ErrText "effective_model is invalid");
  _ ← prepareOptionalRequestedModel (sr_RequestedModel r);
  reject_if (negb (bool_decide (sr_RuntimeOutcome r = "")) && negb (structuralPublicValue (sr_RuntimeOutcome r) maxRuntimeOutcomeBytes))
    (ErrText "runtime_outcome is invalid").

(** The runtime columns [upsertLive] writes; the requested model is not one of them. *)
Definition live_row (r : SessionRecord) : option session_row → session_row :=
  activate_row (sr_ArchiveID r) (sr_RuntimeGeneration r) (sr_RuntimeSnapshotID r) (TrimSpace (sr_ProviderBindingJSON r))
    (sr_EffectiveModel r) (sr_RuntimeOutcome r).
Definition upsertLive (r : SessionRecord) (t : live_tables) : result live_tables :=
  match check_runtime_metadata r with
  | Err _ => Err ErrInvalid
  | Ok _ => Ok (with_runtime (activate_session (sr_SessionID r) (live_row r) (lv_runtime t)) t)
  end.

Definition cannot_activate (i : Intent) (rec : Session) : bool :=
  negb (sameArchiveIdentity rec (in_Session i)) ||
  (bool_decide (in_Kind i = KindExact) && negb (bool_decide (se_Status rec = StatusActive)) &&
   (negb (bool_decide (in_Outcome i = StatusUncertain)) || negb (bool_decide (se_Status rec = StatusUncertain)))) ||
  (negb (bool_decide (se_Status rec ∈ [StatusPending; StatusUncertain])) && negb (bool_decide (in_Kind i = KindExact))).

Definition end_predecessor (now : Z) (i : Intent) (rec : Session) (t : live_tables) : result live_tables :=
  if bool_decide (in_Kind i = KindFresh) && negb (bool_decide (in_OldID i = "")) then
    predecessor ← readSession t (in_OldID i);
    _ ← reject_if (not_predecessor predecessor rec) ErrConflict;
    if bool_decide (se_Status predecessor = StatusActive)
    then Ok (updateSession (set_end now (text_or (in_Reason i) "replaced") predecessor) t)
    else Ok t
  else Ok t.

Definition wrong_live (live : SessionRecord) (rec : Session) : bool :=
  negb (bool_decide (sr_SessionID live = se_StableID rec)) || negb (bool_decide (sr_ChannelType live = lo_Channel (se_Location rec))) ||
  negb (bool_decide (sr_AddressKey live = lo_AddressKey (se_Location rec))) || bool_decide (sr_AddressJSON live = "").
Definition bind_live (live : option SessionRecord) (rec : Session) (t : live_tables) : result live_tables :=
  match live with
  | None => Ok t
  | Some live =>
      _ ← reject_if (wrong_live live rec) ErrInvalid;
      upsertLive (archive_id (se_ID rec) live) t
  end.

(** [ended] and [completed] are the two readings of the clock. *)
Definition activate_lifetime (token : string) (live : option SessionRecord) (ended completed : Z) (t : live_tables) :
    result (live_tables * Session) :=
  i ← readIntent t token;
  _ ← reject_if (bool_decide (in_Kind i = KindDestroy) ||
                 negb (open_outcome (in_Outcome i) || bool_decide (in_Outcome i = OutcomeCompleted))) ErrConflict;
  rec ← readSession t (se_ID (in_Session i));
  let fingerprint := liveFingerprint live (se_ID rec) in
  if bool_decide (in_Outcome i = OutcomeCompleted) then
    _ ← reject_if (negb (bool_decide (in_BindingFingerprint i = fingerprint))) ErrConflict;
    Ok (t, rec)
  else
    _ ← reject_if (cannot_activate i rec) ErrConflict;
    let rec := set_status StatusActive rec in
    t ← end_predecessor ended i rec (updateSession rec t);
    t ← bind_live live rec t;
    Ok (writeIntent (set_outcome OutcomeCompleted completed fingerprint i) t, rec).

Definition Archive_Activate (ctxErr : option error) (ft : fate) (token : string) (live : option SessionRecord) (ended completed : Z)
    (t : live_tables) : live_tables * result Session :=
  archive_transaction ctxErr ft (activate_lifetime token live ended completed) t.

(** ** Complete: an intent that is not activated *)
Definition outcome_allowed (kind outcome : string) : bool :=
  if bool_decide (kind = KindFresh) || bool_decide (kind = KindAdopt) then bool_decide (outcome ∈ [OutcomeAborted; StatusUncertain])
  else if bool_decide (kind = KindDestroy) then negb (bool_decide (outcome = OutcomeAborted))
  else bool_decide (kind = KindExact).

Definition concluded (now : Z) (outcome : string) (i : Intent) (rec : Session) : Session :=
  if bool_decide (outcome = OutcomeAborted)
  then (if bool_decide (in_Kind i = KindExact) then rec else set_end now "activation_failed" rec)
  else if bool_decide (outcome = OutcomeDestroyed) then set_end now (in_Reason i) rec
  else if bool_decide (outcome = StatusUncertain) then set_status StatusUncertain rec
  else set_status StatusActive rec.

Definition complete_body (token outcome : string) (ended completed : Z) (t : live_tables) : result (live_tables * unit) :=
  i ← readIntent t token;
  if bool_decide (in_Outcome i = outcome) then Ok (t, tt) else
  _ ← reject_if (negb (open_outcome (in_Outcome i))) ErrConflict;
  _ ← reject_if (negb (outcome_allowed (in_Kind i) outcome)) ErrConflict;
  rec ← readSession t (if bool_decide (in_Kind i = KindDestroy) then in_OldID i else se_ID (in_Session i));
  _ ← reject_if (bool_decide (outcome = OutcomeAborted) && bool_decide (in_Kind i = KindExact) &&
                 negb (bool_decide (se_Status rec = StatusActive))) ErrConflict;
  let t := updateSession (concluded ended outcome i rec) t in
  Ok (writeIntent (set_outcome outcome completed (in_BindingFingerprint i) i) t, tt).

Definition Archive_Complete (ctxErr : option error) (ft : fate) (token outcome : string) (ended completed : Z) (t : live_tables) :
    live_tables * result unit :=
  if negb (bool_decide (outcome ∈ [OutcomeRetained; OutcomeDestroyed; StatusUncertain; OutcomeAborted]))
  then (t, Err ErrInvalid)
  else archive_transaction ctxErr ft (complete_body token outcome ended completed) t.

(** ** ReconcileMemory: lifetimes kept in the memory of a process that is gone *)
Fixpoint former_sessions (bootID : string) (rows : list archive_row) : result (list Session) :=
  match rows with
  | [] => Ok []
  | row :: rows =>
      rec ← decoded (ar_record row);
      former ← former_sessions bootID rows;
      Ok (if bool_decide (se_Persistence rec = PersistenceMemory) && negb (bool_decide (se_BootID rec = bootID)) then rec :: former else former)
  end.
Definition unended_rows (t : live_tables) : list archive_row :=
  filter (λ row, ar_status row ∈ [StatusActive; StatusPending; StatusUncertain]) (map snd (map_to_list (lv_archive t))).

Definition interrupt (now : Z) (rec : Session) (t : live_tables) : result live_tables :=
  let t := updateSession (set_end now "interrupted" rec) t in
  match open_intents (lo_Channel (se_Location rec)) (lo_AddressKey (se_Location rec)) t with
  | [] => Ok t
  | row :: _ =>
      i ← decoded (iw_record row);
      if negb (bool_decide (se_ID (in_Session i) = se_ID rec)) then Ok t
      else Ok (writeIntent (set_outcome OutcomeDestroyed now (in_BindingFingerprint i) i) t)
  end.
Fixpoint interrupt_all (clock : nat → Z) (former : list Session) (t : live_tables) : result live_tables :=
  match former with
  | [] => Ok t
  | rec :: former => t ← interrupt (clock (length former)) rec t; interrupt_all clock former t
  end.

Definition reconcile_body (bootID : string) (clock : nat → Z) (t : live_tables) : result (live_tables * unit) :=
  former ← former_sessions bootID (unended_rows t);
  t ← interrupt_all clock former t;
  Ok (t, tt).
Definition ReconcileMemory (ctxErr : option error) (ft : fate) (bootID : string) (clock : nat → Z) (t : live_tables) :
    live_tables * result unit :=
  if bool_decide (bootID = "") then (t, Err ErrInvalid) else archive_transaction ctxErr ft (reconcile_body bootID clock) t.

(** ** Executions: the journal, the session store and the archive on one database

    The session manager names its intents with UUIDs, so a token is text that JSON keeps
    as it is.  Recording a message rewrites rows of archived sessions, here in any way. *)
Inductive live_step : live_tables → live_tables → Prop :=
  | ls_journal t rt : journal_step (lv_runtime t) rt → live_step t (with_runtime rt t)
  | ls_begin ctxErr ft candidate t t' r :
      json_text (in_Token candidate) = in_Token candidate → Archive_Begin ctxErr ft candidate t = (t', r) → live_step t t'
  | ls_activate ctxErr ft token live ended completed t t' r :
      Archive_Activate ctxErr ft token live ended completed t = (t', r) → live_step t t'
  | ls_complete ctxErr ft token outcome ended completed t t' r :
      Archive_Complete ctxErr ft token outcome ended completed t = (t', r) → live_step t t'
  | ls_reconcile ctxErr ft bootID clock t t' r : ReconcileMemory ctxErr ft bootID clock t = (t', r) → live_step t t'
  | ls_record f t : live_step t (put_archive f t).
Definition no_live : live_tables := mkLive no_tables ∅ ∅.
Definition live_reachable (t : live_tables) : Prop := rtc live_step no_live t.

(** An intent that can no longer be activated. *)
Definition spent (t : live_tables) (token : string) : Prop :=
  ∃ row, lv_intents t !! token = Some row ∧ ∀ i, iw_record row = Some i → open_outcome (in_Outcome i) = false.

(** The activation behind a change of a session's runtime columns. *)
Definition activated_by (t t' : live_tables) (session : string) (row row' : session_row) : Prop :=
  ∃ token i rec live,
    readIntent t token = Ok i ∧ in_Kind i ≠ KindDestroy ∧ open_outcome (in_Outcome i) = true ∧
    readSession t (se_ID (in_Session i)) = Ok rec ∧ sameArchiveIdentity rec (in_Session i) = true ∧ se_StableID rec = session ∧
    cannot_activate i rec = false ∧ wrong_live live rec = false ∧
    row' = live_row (archive_id (se_ID rec) live) (Some row) ∧ spent t' token.

(** ** The intents *)
Definition tokens_ok (t : live_tables) : Prop :=
  ∀ token row, lv_intents t !! token = Some row → json_text token = token ∧ ∀ i, iw_record row = Some i → in_Token i = token.

(** What every step does to the intents. *)
Definition intents_kept (t t' : live_tables) : Prop :=
  tokens_ok t → tokens_ok t' ∧ ∀ token, spent t token → spent t' token.

Lemma intents_same t t' : lv_intents t' = lv_intents t → intents_kept t t'.
Proof. intros E Hok. unfold tokens_ok, spent. by rewrite E. Qed.
Lemma intents_trans t1 t2 t3 : intents_kept t1 t2 → intents_kept t2 t3 → intents_kept t1 t3.
Proof. intros H12 H23 Hok. destruct (H12 Hok) as [Hok2 S12]. destruct (H23 Hok2) as [Hok3 S23]. split; [done|]. auto. Qed.

Lemma encode_intent_fields i i' :
  encode_intent i = Some i' → in_Token i' = json_text (in_Token i) ∧ in_Outcome i' = json_text (in_Outcome i).
Proof. unfold encode_intent. destruct (_ && _); [|discriminate]. by intros [= <-]. Qed.

Lemma readIntent_Ok t token i :
  readIntent t token = Ok i → ∃ row, lv_intents t !! token = Some row ∧ iw_record row = Some i.
Proof.
  unfold readIntent, decoded. destruct (lv_intents t !! token) as [row|]; [|discriminate]. destruct (iw_record row) as [j|] eqn:E; [|discriminate].
  intros [= <-]. by exists row.
Qed.

(** Rewriting an intent that can be read: it is open before, or closed after. *)
Lemma write_intent t token row i outcome at_ fingerprint :
  lv_intents t !! token = Some row → iw_record row = Some i →
  (open_outcome (in_Outcome i) = true ∨ open_outcome (json_text outcome) = false) →
  intents_kept t (writeIntent (set_outcome outcome at_ fingerprint i) t) ∧
  (tokens_ok t → open_outcome (json_text outcome) = false → spent (writeIntent (set_outcome outcome at_ fingerprint i) t) token).
Proof.
  intros Hrow Hi Hopen. set (t' := writeIntent _ t).
  assert (Hlook : tokens_ok t → ∀ token', lv_intents t' !! token' =
    if decide (token' = token) then Some (mkIntentRow (iw_channel row) (iw_address row) outcome (encode_intent (set_outcome outcome at_ fingerprint i)))
    else lv_intents t !! token').
  { intros Hok token'. destruct (Hok _ _ Hrow) as [_ Ht]. cbn. rewrite (Ht i Hi), lookup_alter.
    destruct (decide (token' = token)) as [->|Hne]; [by rewrite decide_True, Hrow | by rewrite decide_False]. }
  split.
  - intros Hok. pose proof (Hlook Hok) as Hl. destruct (Hok _ _ Hrow) as [Hj Ht]. split.
    + intros token' row' H'. rewrite Hl in H'. destruct (decide (token' = token)) as [->|]; [|by apply Hok].
      injection H' as <-. split; [done|]. cbn. intros i' [-> _]%encode_intent_fields. cbn. by rewrite (Ht i Hi).
    + intros token' (row' & H' & Hs). destruct (decide (token' = token)) as [->|Hne].
      * assert (row' = row) as -> by congruence. destruct Hopen as [Ho|Hc]; [by rewrite (Hs i Hi) in Ho|].
        eexists. split; [by rewrite Hl, decide_True|]. cbn. by intros i' [_ ->]%encode_intent_fields.
      * exists row'. by rewrite Hl, decide_False.
  - intros Hok Hc. eexists. split; [by rewrite (Hlook Hok), decide_True|]. cbn. by intros i' [_ ->]%encode_intent_fields.
Qed.

Lemma open_intents_elem channel address t row :
  row ∈ open_intents channel address t → ∃ token, lv_intents t !! token = Some row.
Proof.
  unfold open_intents. intros [_ Hin]%list_elem_of_filter. apply list_elem_of_In, in_map_iff in Hin as ([token row'] & <- & Hin).
  exists token. by apply list_elem_of_In, elem_of_map_to_list in Hin.
Qed.

(** ** What each operation does *)
Lemma begin_archive_Ok candidate t t' i :
  json_text (in_Token candidate) = in_Token candidate → begin_archive candidate t = Ok (t', i) →
  intents_kept t t' ∧ lv_runtime t' = lv_runtime t.
Proof.
  intros Hj. unfold begin_archive. destruct (lv_intents t !! in_Token candidate) as [row|] eqn:Hrow.
  { intros (existing & _ & Hb)%bind_Ok. apply bind_Ok in Hb as (_ & _ & Hb). injection Hb as <- _. split; [by apply intents_same|done]. }
  intros (_ & _ & Hb)%bind_Ok. apply bind_Ok in Hb as (_ & _ & Hb). apply bind_Ok in Hb as (_ & _ & Hb).
  apply bind_Ok in Hb as (t1 & Ht1 & Hb). injection Hb as <- _. set (t0 := insertIntent _ t) in Ht1.
  assert (Hsame : lv_intents t1 = lv_intents t0 ∧ lv_runtime t1 = lv_runtime t0).
  { destruct (_ || _); [|by injection Ht1 as <-]. apply bind_Ok in Ht1 as (_ & _ & Ht1). by injection Ht1 as <-. }
  destruct Hsame as [Ei Er]. split; [|by rewrite Er]. eapply intents_trans; [|by apply intents_same]. intros Hok. split.
  - intros token row'. cbn. rewrite lookup_insert. destruct (decide (in_Token candidate = token)) as [Ht|_]; [|exact (Hok token row')]. intros [= <-]. subst token. split; [done|].
    cbn. by intros i' [-> _]%encode_intent_fields.
  - intros token (row' & H' & Hs). exists row'. split; [|done]. cbn. rewrite lookup_insert_ne; [done|congruence].
Qed.

Lemma end_predecessor_Ok now i rec t t' :
  end_predecessor now i rec t = Ok t' → lv_intents t' = lv_intents t ∧ lv_runtime t' = lv_runtime t.
Proof.
  unfold end_predecessor. destruct (_ && _); [|by intros [= <-]]. intros (p & _ & Hb)%bind_Ok. apply bind_Ok in Hb as (_ & _ & Hb).
  case_bool_decide; by injection Hb as <-.
Qed.

Lemma bind_live_Ok live rec t t' :
  bind_live live rec t = Ok t' → lv_intents t' = lv_intents t ∧
  (lv_runtime t' = lv_runtime t ∨
   ∃ l, live = Some l ∧ wrong_live l rec = false ∧
     lv_runtime t' = activate_session (sr_SessionID l) (live_row (archive_id (se_ID rec) l)) (lv_runtime t)).
Proof.
  destruct live as [l|]; cbn [bind_live]; [|intros [= <-]; by split; [|left]]. intros ([] & Hw & Hb)%bind_Ok. apply reject_if_Ok in Hw.
  unfold upsertLive in Hb. destruct (check_runtime_metadata _); [|discriminate]. injection Hb as <-. split; [done|]. right. by exists l.
Qed.

Lemma activate_Ok token live ended completed t t' rec' :
  activate_lifetime token live ended completed t = Ok (t', rec') → tokens_ok t →
  intents_kept t t' ∧
  (lv_runtime t' = lv_runtime t ∨
   ∃ i rec l, readIntent t token = Ok i ∧ in_Kind i ≠ KindDestroy ∧ open_outcome (in_Outcome i) = true ∧
     readSession t (se_ID (in_Session i)) = Ok rec ∧ cannot_activate i rec = false ∧ wrong_live l rec = false ∧ spent t' token ∧
     lv_runtime t' = activate_session (sr_SessionID l) (live_row (archive_id (se_ID rec) l)) (lv_runtime t)).
Proof.
  intros Hb Htok. apply bind_Ok in Hb as (i & Hi & Hb). apply bind_Ok in Hb as ([] & Hk & Hb). apply bind_Ok in Hb as (rec & Hrec & Hb).
  apply reject_if_Ok in Hk. rewrite orb_false_iff, negb_false_iff, orb_true_iff in Hk. destruct Hk as [Hk Hopen].
  apply bool_decide_eq_false in Hk. case_bool_decide as Hc.
  { apply bind_Ok in Hb as (_ & _ & Hb). injection Hb as <- _. split; [by apply intents_same | by left]. }
  destruct Hopen as [Hopen|?]; [|discriminate].
  apply bind_Ok in Hb as ([] & Hcan & Hb). apply reject_if_Ok in Hcan. cbv zeta in Hb.
  apply bind_Ok in Hb as (t1 & H1 & Hb). apply bind_Ok in Hb as (t2 & H2 & Hb). injection Hb as <- _.
  apply end_predecessor_Ok in H1 as [Ei1 Er1]. apply bind_live_Ok in H2 as [Ei2 Hr].
  assert (Ei : lv_intents t2 = lv_intents t) by by rewrite Ei2, Ei1.
  destruct (readIntent_Ok _ _ _ Hi) as (row & Hrow & Hreci). rewrite <-Ei in Hrow.
  destruct (write_intent t2 token row i OutcomeCompleted completed (liveFingerprint live (se_ID rec)) Hrow Hreci (or_introl Hopen)) as [Hkept Hspent].
  split; [eapply intents_trans; [by apply intents_same | exact Hkept]|].
  destruct Hr as [Hr|(l & -> & Hw & Hr)]; [left; cbn; by rewrite Hr, Er1|].
  right. exists i, rec, l. split_and!; [done..| |cbn; by rewrite Hr, Er1]. apply Hspent; [|reflexivity].
  unfold tokens_ok. by rewrite Ei.
Qed.

Lemma complete_Ok token outcome ended completed t t' u :
  complete_body token outcome ended completed t = Ok (t', u) → intents_kept t t' ∧ lv_runtime t' = lv_runtime t.
Proof.
  intros (i & Hi & Hb)%bind_Ok. case_bool_decide; [injection Hb as <- _; split; [by apply intents_same|done]|].
  apply bind_Ok in Hb as ([] & Ho & Hb). apply reject_if_Ok, negb_false_iff in Ho. apply bind_Ok in Hb as (_ & _ & Hb).
  apply bind_Ok in Hb as (rec & _ & Hb). apply bind_Ok in Hb as (_ & _ & Hb). injection Hb as <- _. split; [|done].
  destruct (readIntent_Ok _ _ _ Hi) as (row & Hrow & Hreci).
  eapply intents_trans; [by apply intents_same|]. by apply (proj1 (write_intent _ token row i outcome completed _ Hrow Hreci (or_introl Ho))).
Qed.

Lemma interrupt_Ok now rec t t' : interrupt now rec t = Ok t' → intents_kept t t' ∧ lv_runtime t' = lv_runtime t.
Proof.
  unfold interrupt. set (t0 := updateSession _ t). cbv zeta. destruct (open_intents _ _ t0) as [|row rows] eqn:Ho.
  { intros [= <-]. split; [by apply intents_same|done]. }
  intros (i & Hi & Hb)%bind_Ok. destruct (negb _); injection Hb as <-; (split; [|done]); [by apply intents_same|].
  destruct (open_intents_elem (lo_Channel (se_Location rec)) (lo_AddressKey (se_Location rec)) t0 row) as (token & Hrow); [rewrite Ho; left|].
  unfold decoded in Hi. destruct (iw_record row) as [j|] eqn:Hj; [|discriminate]. injection Hi as ->.
  eapply intents_trans; [apply (intents_same _ t0); reflexivity|]. by apply (proj1 (write_intent t0 token row i OutcomeDestroyed now _ Hrow Hj (or_intror eq_refl))).
Qed.

Lemma reconcile_Ok bootID clock t t' u :
  reconcile_body bootID clock t = Ok (t', u) → intents_kept t t' ∧ lv_runtime t' = lv_runtime t.
Proof.
  intros (former & _ & Hb)%bind_Ok. apply bind_Ok in Hb as (t1 & Ht & Hb). injection Hb as <- _.
  revert t Ht. induction former as [|rec former IH]; cbn [interrupt_all]; intros t Ht.
  { injection Ht as <-. split; [by apply intents_same|done]. }
  apply bind_Ok in Ht as (t2 & H2 & Ht). apply interrupt_Ok in H2 as [K2 R2]. destruct (IH t2 Ht) as [K1 R1].
  split; [by eapply intents_trans | by rewrite R1].
Qed.

Lemma archive_transaction_run {A} ctxErr ft (body : live_tables → result (live_tables * A)) t t' r :
  archive_transaction ctxErr ft body t = (t', r) → t' = t ∨ ∃ a, body t = Ok (t', a).
Proof.
  unfold archive_transaction. destruct ft as [|err|err]; [| by intros [= <- _]; left |]; destruct (body t) as [[t1 a]|e] eqn:E; intros [= <- _];
    try (by left); right; by exists a.
Qed.

(** ** A step of the whole database *)
Inductive row_writer (t t' : live_tables) : Prop :=
  | rw_none : lv_runtime t' = lv_runtime t → row_writer t t'
  | rw_journal : journal_step (lv_runtime t) (lv_runtime t') → row_writer t t'
  | rw_activation token i rec l :
      readIntent t token = Ok i → in_Kind i ≠ KindDestroy → open_outcome (in_Outcome i) = true →
      readSession t (se_ID (in_Session i)) = Ok rec → cannot_activate i rec = false → wrong_live l rec = false → spent t' token →
      lv_runtime t' = activate_session (sr_SessionID l) (live_row (archive_id (se_ID rec) l)) (lv_runtime t) → row_writer t t'.

Lemma live_step_writer t t' : tokens_ok t → live_step t t' → intents_kept t t' ∧ row_writer t t'.
Proof.
  intros Hok Hs.
  assert (Hsame : t' = t → intents_kept t t' ∧ row_writer t t') by (intros ->; split; [by apply intents_same | by apply rw_none]).
  assert (Hquiet : intents_kept t t' ∧ lv_runtime t' = lv_runtime t → intents_kept t t' ∧ row_writer t t')
    by (intros [? ?]; split; [done | by apply rw_none]).
  destruct Hs as [t rt Hj|ctxErr ft candidate t t' r Hj Hrun|ctxErr ft token live ended completed t t' r Hrun
    |ctxErr ft token outcome ended completed t t' r Hrun|ctxErr ft bootID clock t t' r Hrun|f t].
  - split; [by apply intents_same | by apply rw_journal].
  - unfold Archive_Begin in Hrun. destruct (_ || _ || _ || _); [injection Hrun as <- _; by apply Hsame|].
    apply archive_transaction_run in Hrun as [->|[a Hb]]; [by apply Hsame|]. by apply Hquiet, (begin_archive_Ok candidate _ _ a).
  - apply archive_transaction_run in Hrun as [->|[a Hb]]; [by apply Hsame|].
    destruct (activate_Ok _ _ _ _ _ _ _ Hb Hok) as [Hk [Hr|(i & rec & l & ? & ? & ? & ? & ? & ? & ? & ?)]]; (split; [done|]);
      [by apply rw_none | by eapply rw_activation].
  - unfold Archive_Complete in Hrun. destruct (negb _); [injection Hrun as <- _; by apply Hsame|].
    apply archive_transaction_run in Hrun as [->|[a Hb]]; [by apply Hsame|]. by apply Hquiet, (complete_Ok token outcome ended completed _ _ a).
  - unfold ReconcileMemory in Hrun. case_bool_decide; [injection Hrun as <- _; by apply Hsame|].
    apply archive_transaction_run in Hrun as [->|[a Hb]]; [by apply Hsame|]. by apply Hquiet, (reconcile_Ok bootID clock _ _ a).
  - apply Hquiet. by split; [apply intents_same|].
Qed.

Lemma live_reachable_ok t : live_reachable t → tokens_ok t ∧ journal_reachable (lv_runtime t).
Proof.
  intros Hr. refine (rtc_ind_r (R := live_step) (λ t, tokens_ok t ∧ journal_reachable (lv_runtime t)) no_live _ _ t Hr).
  { split; [intros token row; cbn; by rewrite lookup_empty | by apply rtc_refl]. }
  intros t1 t2 _ Hs [Hok Hj]. destruct (live_step_writer _ _ Hok Hs) as [Hk Hw]. split; [by apply Hk|].
  destruct Hw as [->|Hs'|token i rec l _ _ _ _ _ _ _ ->]; [done|..]; (eapply rtc_r; [exact Hj|]); [by apply os_journal | by apply os_activated].
Qed.

(** ** Property *)

(** C24. The runtime columns of a session have two writers, and both are guarded. A row
    changes either by publishing an operation of that session that is being applied (the
    row was at the archive and generation the operation expects, it moves to the
    operation's target and to the next generation, and the operation is recorded with
    that outcome in the same step), or by activating a lifetime of that session for an
    open intent that reserved it, which is spent in the same step; a spent intent is
    never open again, so an intent rebinds a row once at most. *)
Theorem publication_is_guarded t t' session row row' :
  live_reachable t → live_step t t' →
  rt_sessions (lv_runtime t) !! session = Some row → rt_sessions (lv_runtime t') !! session = Some row' → row' ≠ row →
  ((published_by (lv_runtime t) (lv_runtime t') session row row' ∧ sm_RuntimeGeneration row' = sm_RuntimeGeneration row + 1) ∨
   activated_by t t' session row row') ∧
  (∀ token t'', spent t' token → rtc live_step t' t'' → spent t'' token).
Proof.
  intros [Hok Hj]%live_reachable_ok Hs H1 H2 Hne. destruct (live_step_writer _ _ Hok Hs) as [Hk Hw]. destruct (Hk Hok) as [Hok' _]. split.
  - destruct Hw as [E|Hs'|token i rec l Hi Hkind Hopen Hrec Hcan Hw Hspent E].
    + rewrite E in H2. congruence.
    + left. destruct (journal_step_move _ _ (reachable_journal _ Hj) Hs') as [_ Hg]. pose proof (Hg session row row' H1 H2 Hne) as Hp.
      split; [exact Hp|]. by destruct Hp as (id & op & outcome & _ & _ & _ & _ & _ & -> & _).
    + right. rewrite E in H2. cbn in H2. apply lookup_insert_Some in H2 as [[Hsid <-]|[_ H2]]; [|congruence]. exists token, i, rec, l.
      assert (Hid : sameArchiveIdentity rec (in_Session i) = true).
      { unfold cannot_activate in Hcan. rewrite !orb_false_iff, negb_false_iff in Hcan. apply Hcan. }
      assert (Hst : sr_SessionID l = se_StableID rec).
      { unfold wrong_live in Hw. rewrite !orb_false_iff, negb_false_iff, bool_decide_eq_true in Hw. apply Hw. }
      split_and!; try done; [congruence|]. by rewrite Hsid, H1.
  - clear -Hok'. intros token t'' Hsp Hr. revert Hok' Hsp. induction Hr as [|t1 t2 t3 Hs _ IH]; [done|]. intros Hok Hsp.
    destruct (live_step_writer _ _ Hok Hs) as [Hk _]. destruct (Hk Hok) as [Hok2 Hkeep]. by apply IH, Hkeep.
Qed.
End store.

(** ** Witness: both writers, one after the other *)
#[global] Instance demo_uuids : UuidParser := λ text, len text =? 36.
Definition demo_archive : string := "11111111-1111-4111-8111-111111111111".
Definition demo_lifetime : Session :=
  mkSession demo_archive "s1" "r1" PersistenceDurable "boot" "" (mkLocation "telegram" "1:0" "telegram:1:0" "" "" "" "") "" 1000 0 0 "" 0 false "".
Definition demo_reservation : Intent := mkIntent "token" KindFresh demo_lifetime "" "" "" 1000 0 "".
Definition demo_live : SessionRecord :=
  mkSessionRecord "" "s1" "u" "telegram" "1:0" "{}" "agent" "" "" "snap-2" "" 7 None "model-c" RuntimeOperationOutcomeContextReset "".
Definition demo_start : live_tables := mkLive demo_applying ∅ ∅.
Definition demo_published_live : live_tables := with_runtime demo_done demo_start.
Definition demo_reserved : live_tables := (Archive_Begin None Commits demo_reservation demo_published_live).1.
Definition demo_activated : live_tables := (Archive_Activate None Commits "token" (Some demo_live) 2000 3000 demo_reserved).1.
Definition demo_target_row : session_row :=
  mkSessionRow "a1" 4 "snap" "" (Some "model-b") "model-b" RuntimeOperationOutcomeContextPreserved.
Definition demo_bound_row : session_row :=
  mkSessionRow demo_archive 7 "snap-2" "" (Some "model-b") "model-c" RuntimeOperationOutcomeContextReset.

Lemma demo_start_reachable : live_reachable demo_start.
Proof.
  eapply rtc_l; [apply ls_journal, (os_session_created "s1" demo_row); reflexivity|].
  eapply rtc_l; [apply ls_journal, (os_begin None Commits demo_intent _ _ _ (surjective_pairing _))|].
  apply rtc_once. exact (ls_journal _ _ (os_mark None Commits 2000000 "op" demo_hash _ _ _ (surjective_pairing _))).
Qed.
Lemma demo_publish_step : live_step demo_start demo_published_live.
Proof. exact (ls_journal demo_start demo_done (os_finalize None Commits demo_final _ _ _ (surjective_pairing _))). Qed.
Lemma demo_activate_step : live_step demo_reserved demo_activated.
Proof. exact (ls_activate None Commits "token" (Some demo_live) 2000 3000 _ _ _ (surjective_pairing _)). Qed.
Lemma demo_reserved_reachable : live_reachable demo_reserved.
Proof.
  eapply rtc_r; [eapply rtc_r; [exact demo_start_reachable | exact demo_publish_step]|].
  refine (ls_begin None Commits demo_reservation _ _ _ _ (surjective_pairing _)). reflexivity.
Qed.

Lemma publication_is_guarded_witness :
  (published_by demo_applying demo_done "s1" demo_row demo_target_row ∨ activated_by demo_start demo_published_live "s1" demo_row demo_target_row) ∧
  (published_by (lv_runtime demo_reserved) (lv_runtime demo_activated) "s1" demo_target_row demo_bound_row ∨
   activated_by demo_reserved demo_activated "s1" demo_target_row demo_bound_row) ∧
  spent demo_activated "token".
Proof.
  pose proof (publication_is_guarded demo_start demo_published_live "s1" demo_row demo_target_row demo_start_reachable demo_publish_step
    ltac:(vm_compute; reflexivity) ltac:(vm_compute; reflexivity) ltac:(discriminate)) as [Hp _].
  pose proof (publication_is_guarded demo_reserved demo_activated "s1" demo_target_row demo_bound_row demo_reserved_reachable demo_activate_step
    ltac:(vm_compute; reflexivity) ltac:(vm_compute; reflexivity) ltac:(discriminate)) as [Ha Hspent].
  split; [destruct Hp as [[Hp _]|Hp]; [by left | by right]|]. split; [destruct Ha as [[Ha _]|Ha]; [by left | by right]|].
  refine (Hspent "token" demo_activated _ (rtc_refl _ _)). eexists. split; [vm_compute; reflexivity|]. by intros i [= <-].
Defined.
