(* ===== verification/RuntimeSlots.v ===== *)
(** * RuntimeSlots: leases and shared ownership of session runtimes

    src/internal/apps/balda/session/runtime_slot.go.  A slot is an immutable view of
    one runtime with mutable lease, publication and drain bookkeeping; slots of the
    same runtime share an owner that closes the runtime when its last slot let go.
    The objects live in a heap.  A function here is one critical section, and what Go
    runs after unlocking, or in a goroutine, is a pending [task]; [slot_step] lets
    calls and tasks interleave in any order. *)

From Stdlib Require Import ZArith Lia String.
From stdpp Require Import base numbers list gmap sets strings relations.
From S2P Require Import Prelude.
From S2P Require Import GoStrings.

Local Open Scope string_scope.
Local Open Scope list_scope.
Local Open Scope Z_scope.

Definition ErrRuntimeUnavailable : error := ErrSentinel "session runtime is unavailable".
Definition ErrRuntimeCleanupIncomplete : error := ErrSentinel "session runtime cleanup incomplete".
Definition ErrRuntimeCloseFailed : error := ErrSentinel "session runtime close failed".
Definition ErrRuntimeRecoveryRequired : error := ErrSentinel "session runtime recovery required".
Definition ErrRuntimePublicationConflict : error := ErrSentinel "session runtime publication conflict".
Definition ErrRuntimePublicationInvalid : error := ErrSentinel "invalid session runtime publication".

(** ** Values *)

(** A session of the agent library: its identity as an object, and what its methods
    return; [as_events] is the length of its event list, when it has one. *)
Record adk_session := mkAdkSession {
  as_object : nat; as_AppName : string; as_UserID : string; as_ID : string; as_events : option Z }.

(** What a model controller reports. *)
Record control_snapshot := mkControlSnapshot { cs_Ready : bool; cs_CurrentModel : string; cs_ControlRevision : string }.

(** Objects are identities; a callback is what it returns when it is called. *)
Record BuiltRuntime := mkBuiltRuntime {
  br_Agent : option nat; br_SessionSvc : option nat; br_ModelController : option control_snapshot;
  br_AppName : string; br_RuntimeSnapshotID : string; br_ProviderBindingJSON : string;
  br_ConfirmedModel : string; br_RuntimeBaseToken : Z; br_PromoteBase : option (option error);
  br_CompleteBase : option (option error); br_Close : option (option error) }.
Definition no_runtime : BuiltRuntime := mkBuiltRuntime None None None "" "" "" "" 0 None None None.

Record runtimeSlotValue := mkSlotValue {
  sv_runtime : BuiltRuntime; sv_session : option adk_session; sv_providerID : string; sv_appName : string;
  sv_userID : string; sv_sessionID : string; sv_archiveID : string; sv_generation : Z;
  sv_effectiveModel : string; sv_outcome : string }.

Record runtimeSlotConfig := mkSlotConfig {
  cf_runtime : option BuiltRuntime; cf_session : option adk_session; cf_providerID : string; cf_userID : string;
  cf_sessionID : string; cf_archiveID : string; cf_generation : Z; cf_effectiveModel : string; cf_outcome : string }.

Inductive ModelObservationKind := ModelObservationProviderObserved | ModelObservationLocallyExecuted.
Record ModelObservation := mkObservation {
  mo_Generation : Z; mo_ControlRevision : string; mo_Model : string; mo_Kind : ModelObservationKind }.

(** ** The heap *)
Record RuntimeSlot := mkSlot {
  sl_value : runtimeSlotValue; sl_owner : nat; sl_leases : Z; sl_retired : bool; sl_ownerReleased : bool;
  sl_publicationClaimed : bool; sl_published : bool; sl_drainErr : option error;
  sl_observation : option ModelObservation; sl_drained : bool }.
Record runtimeOwner := mkOwner {
  ow_refs : Z; ow_closeFn : option (option error); ow_closeErr : option error; ow_closed : bool }.
Record RuntimeLease := mkLease { ls_slot : nat; ls_released : bool }.

(** [TRelease s]: [releaseOwner] of slot [s] is to be called.  [TClose o]: the goroutine
    of [release] that closes owner [o].  [TDrained s final]: the goroutine of
    [releaseOwner], which waits for the owner when it let go last. *)
Inductive task := TRelease (s : nat) | TClose (o : nat) | TDrained (s : nat) (final : bool).
#[global] Instance task_eq : EqDecision task.
Proof. solve_decision. Defined.

Record runtime_heap := mkHeap {
  hp_slots : gmap nat RuntimeSlot; hp_owners : gmap nat runtimeOwner; hp_leases : gmap nat RuntimeLease;
  hp_tasks : list task }.
Definition empty_heap : runtime_heap := mkHeap ∅ ∅ ∅ [].

Definition set_slot (s : nat) (sl : RuntimeSlot) (h : runtime_heap) : runtime_heap :=
  mkHeap (<[s := sl]> (hp_slots h)) (hp_owners h) (hp_leases h) (hp_tasks h).
Definition set_owner (o : nat) (ow : runtimeOwner) (h : runtime_heap) : runtime_heap :=
  mkHeap (hp_slots h) (<[o := ow]> (hp_owners h)) (hp_leases h) (hp_tasks h).
Definition set_lease (l : nat) (ls : RuntimeLease) (h : runtime_heap) : runtime_heap :=
  mkHeap (hp_slots h) (hp_owners h) (<[l := ls]> (hp_leases h)) (hp_tasks h).
Definition spawn (t : task) (h : runtime_heap) : runtime_heap :=
  mkHeap (hp_slots h) (hp_owners h) (hp_leases h) (t :: hp_tasks h).
Definition with_tasks (ts : list task) (h : runtime_heap) : runtime_heap :=
  mkHeap (hp_slots h) (hp_owners h) (hp_leases h) ts.

(** ** Owners *)
Definition newRuntimeOwner (closeFn : option (option error)) : runtimeOwner := mkOwner 1 closeFn None false.
Definition with_refs (ow : runtimeOwner) (refs : Z) : runtimeOwner :=
  mkOwner refs (ow_closeFn ow) (ow_closeErr ow) (ow_closed ow).
Definition retain (ow : runtimeOwner) : option runtimeOwner :=
  if ow_refs ow =? 0 then None else Some (with_refs ow (ow_refs ow + 1)).

(** Whether the caller must wait for the close, after the count went down. *)
Definition release (o : nat) (ow : runtimeOwner) (h : runtime_heap) : runtime_heap * bool :=
  if ow_refs ow =? 0 then (h, true)
  else let ow := with_refs ow (ow_refs ow - 1) in
       if 0 <? ow_refs ow then (set_owner o ow h, false) else (spawn (TClose o) (set_owner o ow h), true).

Definition close_result (closeFn : option (option error)) : option error :=
  match closeFn with Some (Some _) => Some ErrRuntimeCloseFailed | _ => None end.

(** ** Slots *)
Definition newRuntimeSlotWithOwner (value : runtimeSlotValue) (o : nat) : RuntimeSlot :=
  mkSlot value o 0 false false false false None None false.

(** The value [newRuntimeSlot] builds from its configuration. *)
Definition slot_value (config : runtimeSlotConfig) : runtimeSlotValue :=
  let runtime := default no_runtime (cf_runtime config) in
  let of_session f fallback := match cf_session config with Some s => f s | None => fallback end in
  let appName := of_session as_AppName "" in
  mkSlotValue runtime (cf_session config) (TrimSpace (cf_providerID config))
    (if bool_decide (appName = "") then br_AppName runtime else appName)
    (of_session as_UserID (cf_userID config)) (of_session as_ID (cf_sessionID config)) (cf_archiveID config)
    (cf_generation config) (cf_effectiveModel config) (cf_outcome config).

Definition newRuntimeSlot (config : runtimeSlotConfig) (h : runtime_heap) : runtime_heap * nat :=
  let o := fresh (dom (hp_owners h)) in
  let s := fresh (dom (hp_slots h)) in
  let value := slot_value config in
  (set_slot s (newRuntimeSlotWithOwner value o) (set_owner o (newRuntimeOwner (br_Close (sv_runtime value))) h), s).

Definition with_flags (sl : RuntimeSlot) (claimed published : bool) : RuntimeSlot :=
  mkSlot (sl_value sl) (sl_owner sl) (sl_leases sl) (sl_retired sl) (sl_ownerReleased sl) claimed published
    (sl_drainErr sl) (sl_observation sl) (sl_drained sl).
Definition with_observation (sl : RuntimeSlot) (o : option ModelObservation) : RuntimeSlot :=
  mkSlot (sl_value sl) (sl_owner sl) (sl_leases sl) (sl_retired sl) (sl_ownerReleased sl) (sl_publicationClaimed sl)
    (sl_published sl) (sl_drainErr sl) o (sl_drained sl).
Definition with_leases (sl : RuntimeSlot) (leases : Z) (retired ownerReleased : bool) : RuntimeSlot :=
  mkSlot (sl_value sl) (sl_owner sl) leases retired ownerReleased (sl_publicationClaimed sl) (sl_published sl)
    (sl_drainErr sl) (sl_observation sl) (sl_drained sl).
Definition with_drained (sl : RuntimeSlot) (err : option error) : RuntimeSlot :=
  mkSlot (sl_value sl) (sl_owner sl) (sl_leases sl) (sl_retired sl) (sl_ownerReleased sl) (sl_publicationClaimed sl)
    (sl_published sl) err (sl_observation sl) true.

Definition markPublished (sl : RuntimeSlot) : RuntimeSlot := with_flags sl (sl_publicationClaimed sl) true.

(** A slot with another value over the same owner. *)
Definition shared_slot (sl : RuntimeSlot) (value : runtimeSlotValue) (h : runtime_heap) : result (runtime_heap * nat) :=
  if sl_retired sl then Err ErrRuntimeUnavailable
  else match hp_owners h !! sl_owner sl ≫= retain with
       | None => Err ErrRuntimeUnavailable
       | Some ow =>
           let s := fresh (dom (hp_slots h)) in
           Ok (set_slot s (newRuntimeSlotWithOwner value (sl_owner sl)) (set_owner (sl_owner sl) ow h), s)
       end.

Definition sharedSuccessor (sl : RuntimeSlot) (generation : Z) (effectiveModel outcome : string) (h : runtime_heap) :
    result (runtime_heap * nat) :=
  let v := sl_value sl in
  shared_slot sl (mkSlotValue (sv_runtime v) (sv_session v) (sv_providerID v) (sv_appName v) (sv_userID v)
    (sv_sessionID v) (sv_archiveID v) generation effectiveModel outcome) h.

Definition sharedModelSuccessor (sl : RuntimeSlot) (effectiveModel outcome : string) (h : runtime_heap) :
    result (runtime_heap * nat) :=
  if sv_generation (sl_value sl) =? max_u64 then Err ErrRuntimePublicationInvalid
  else sharedSuccessor sl (sv_generation (sl_value sl) + 1) effectiveModel outcome h.

(** A new conversation lifetime needs an empty session of the same application and user. *)
Definition fresh_lifetime (v : runtimeSlotValue) (sess : adk_session) (archiveID : string) : bool :=
  negb (sv_generation v =? max_u64) && negb (bool_decide (TrimSpace archiveID = "")) && bool_decide (as_ID sess = archiveID) &&
  negb (bool_decide (as_ID sess = sv_sessionID v)) && bool_decide (as_AppName sess = sv_appName v) &&
  bool_decide (as_events sess = Some 0).

Definition sharedLifetimeSuccessor (sl : RuntimeSlot) (sess : option adk_session) (archiveID outcome : string)
    (h : runtime_heap) : result (runtime_heap * nat) :=
  let v := sl_value sl in
  match sess with
  | None => Err ErrRuntimePublicationInvalid
  | Some sess =>
      _ ← reject_if (negb (fresh_lifetime v sess archiveID) || negb (bool_decide (as_UserID sess = sv_userID v)))
            ErrRuntimePublicationInvalid;
      shared_slot sl (mkSlotValue (sv_runtime v) (Some sess) (sv_providerID v) (sv_appName v) (sv_userID v)
        (as_ID sess) archiveID (u64 (sv_generation v + 1)) (sv_effectiveModel v) outcome) h
  end.

(** The pins a separately owned runtime must share with the incumbent. *)
Definition same_pins (runtime : BuiltRuntime) (v : runtimeSlotValue) : bool :=
  bool_decide (br_RuntimeSnapshotID runtime = br_RuntimeSnapshotID (sv_runtime v)) &&
  bool_decide (br_ProviderBindingJSON runtime = br_ProviderBindingJSON (sv_runtime v)).

Definition successor_config (v : runtimeSlotValue) (runtime : BuiltRuntime) (sess : adk_session)
    (archiveID effectiveModel outcome : string) : runtimeSlotConfig :=
  mkSlotConfig (Some runtime) (Some sess) (sv_providerID v) "" "" archiveID (u64 (sv_generation v + 1)) effectiveModel outcome.

Definition independentLifetimeSuccessor (sl : RuntimeSlot) (runtime : option BuiltRuntime) (sess : option adk_session)
    (archiveID effectiveModel outcome : string) (h : runtime_heap) : result (runtime_heap * nat) :=
  let v := sl_value sl in
  match runtime, sess with
  | Some runtime, Some sess =>
      _ ← reject_if (negb (fresh_lifetime v sess archiveID) || negb (bool_decide (br_AppName runtime = sv_appName v)) ||
                     negb (bool_decide (as_UserID sess = sv_userID v)) || negb (same_pins runtime v))
            ErrRuntimePublicationInvalid;
      Ok (newRuntimeSlot (successor_config v runtime sess archiveID effectiveModel outcome) h)
  | _, _ => Err ErrRuntimePublicationInvalid
  end.

(** [sameIdentityObject] on objects and nils. *)
Definition sameIdentityObject (left right : option nat) : bool := bool_decide (left = right).

Definition sameRuntimeSessionIdentity (current : runtimeSlotValue) (runtime : BuiltRuntime) (session : option adk_session) : bool :=
  sameIdentityObject (br_SessionSvc runtime) (br_SessionSvc (sv_runtime current)) &&
  sameIdentityObject (as_object <$> session) (as_object <$> sv_session current) &&
  bool_decide (br_AppName runtime = sv_appName current) &&
  match session with
  | None => false
  | Some s => bool_decide (as_AppName s = sv_appName current) && bool_decide (as_UserID s = sv_userID current) &&
              bool_decide (as_ID s = sv_sessionID current)
  end.

Definition independentModelSuccessor (sl : RuntimeSlot) (runtime : option BuiltRuntime) (session : option adk_session)
    (effectiveModel outcome : string) (h : runtime_heap) : result (runtime_heap * nat) :=
  let v := sl_value sl in
  match runtime, session with
  | Some runtime, Some sess =>
      _ ← reject_if ((sv_generation v =? max_u64) || negb (sameRuntimeSessionIdentity v runtime session) ||
                     negb (same_pins runtime v) ||
                     negb (bool_decide (TrimSpace (br_ConfirmedModel runtime) = TrimSpace effectiveModel)))
            ErrRuntimePublicationInvalid;
      Ok (newRuntimeSlot (successor_config v runtime sess (sv_archiveID v) effectiveModel outcome) h)
  | _, _ => Err ErrRuntimePublicationInvalid
  end.

(** ** Observations *)
Definition modelObservation (sl : RuntimeSlot) : option ModelObservation :=
  match sl_observation sl with
  | Some o => if negb (mo_Generation o =? sv_generation (sl_value sl)) || sl_retired sl then None else Some o
  | None => None
  end.

Definition clearModelObservation (sl : RuntimeSlot) : RuntimeSlot := with_observation sl None.

(** [live]: whether the context is there. *)
Definition refreshModelObservation (live : bool) (sl : RuntimeSlot) : RuntimeSlot :=
  match br_ModelController (sv_runtime (sl_value sl)) with
  | None => clearModelObservation sl
  | Some snapshot =>
      let model := TrimSpace (cs_CurrentModel snapshot) in
      let revision := TrimSpace (cs_ControlRevision snapshot) in
      if negb live || negb (cs_Ready snapshot) || bool_decide (model = "") then clearModelObservation sl
      else if sl_retired sl then sl
      else with_observation sl (Some (mkObservation (sv_generation (sl_value sl)) revision model
             (if bool_decide (revision = "") then ModelObservationLocallyExecuted else ModelObservationProviderObserved)))
  end.

(** ** Leases *)
Definition acquire (s : nat) (h : runtime_heap) : runtime_heap * result nat :=
  match hp_slots h !! s with
  | None => (h, Err ErrRuntimeUnavailable)
  | Some sl =>
      if sl_retired sl then (h, Err ErrRuntimeUnavailable)
      else let l := fresh (dom (hp_leases h)) in
           (set_lease l (mkLease s false)
              (set_slot s (with_leases sl (sl_leases sl + 1) (sl_retired sl) (sl_ownerReleased sl)) h), Ok l)
  end.

(** Set the flags, and let go of the owner once the slot is retired and unused. *)
Definition settle (s : nat) (sl : RuntimeSlot) (leases : Z) (retired : bool) (h : runtime_heap) : runtime_heap :=
  let releaseOwner := retired && (leases =? 0) && negb (sl_ownerReleased sl) in
  let h := set_slot s (with_leases sl leases retired (sl_ownerReleased sl || releaseOwner)) h in
  if releaseOwner then spawn (TRelease s) h else h.

Definition releaseLease (s : nat) (h : runtime_heap) : runtime_heap :=
  match hp_slots h !! s with
  | None => h
  | Some sl => settle s sl (if 0 <? sl_leases sl then sl_leases sl - 1 else sl_leases sl) (sl_retired sl) h
  end.

(** [Release]: the [sync.Once] of the lease lets the first call through. *)
Definition Release (l : nat) (h : runtime_heap) : runtime_heap :=
  match hp_leases h !! l with
  | None => h
  | Some ls => if ls_released ls then h else releaseLease (ls_slot ls) (set_lease l (mkLease (ls_slot ls) true) h)
  end.

(** ** Publication and draining *)
Definition claimPublication (sl : RuntimeSlot) : option RuntimeSlot :=
  if sl_retired sl || sl_ownerReleased sl || negb (sl_leases sl =? 0) || sl_publicationClaimed sl || sl_published sl
  then None else Some (with_flags sl true (sl_published sl)).

Definition releasePublicationClaim (published : bool) (sl : RuntimeSlot) : RuntimeSlot :=
  if sl_publicationClaimed sl then with_flags sl false published else sl.

Definition beginDrain (s : nat) (h : runtime_heap) : runtime_heap :=
  match hp_slots h !! s with
  | None => h
  | Some sl => settle s sl (sl_leases sl) true h
  end.

(** The part of [abortUnpublished] before it waits. *)
Definition abortUnpublished (s : nat) (h : runtime_heap) : runtime_heap :=
  match hp_slots h !! s with
  | None => h
  | Some sl => if sl_publicationClaimed sl || sl_published sl then h else settle s sl (sl_leases sl) true h
  end.

(** What [waitDrain] returns; [None] while it blocks. *)
Definition waitDrain (s : nat) (ctxDone : bool) (h : runtime_heap) : option (option error) :=
  match hp_slots h !! s with
  | None => None
  | Some sl => if sl_drained sl then Some (sl_drainErr sl)
               else if ctxDone then Some (Some ErrRuntimeCleanupIncomplete) else None
  end.

(** ** Tasks *)

(** [None]: the task waits on a channel, or would close a closed one. *)
Definition run_task (t : task) (h : runtime_heap) : option runtime_heap :=
  match t with
  | TRelease s =>
      sl ← hp_slots h !! s;
      ow ← hp_owners h !! sl_owner sl;
      let '(h, final) := release (sl_owner sl) ow h in
      Some (spawn (TDrained s final) h)
  | TClose o =>
      ow ← hp_owners h !! o;
      if ow_closed ow then None
      else Some (set_owner o (mkOwner (ow_refs ow) (ow_closeFn ow) (close_result (ow_closeFn ow)) true) h)
  | TDrained s final =>
      sl ← hp_slots h !! s;
      ow ← hp_owners h !! sl_owner sl;
      if (final && negb (ow_closed ow)) || sl_drained sl then None
      else Some (set_slot s (with_drained sl (if final then ow_closeErr ow else None)) h)
  end.

(** ** Interleavings *)
Inductive task_step : runtime_heap → runtime_heap → Prop :=
  | ts_run before t after h h' :
      hp_tasks h = before ++ t :: after → run_task t (with_tasks (before ++ after) h) = Some h' → task_step h h'.

(** A change of flags a call makes to one slot. *)
Inductive slot_update (sl : RuntimeSlot) : RuntimeSlot → Prop :=
  | su_published : slot_update sl (markPublished sl)
  | su_claimed sl' : claimPublication sl = Some sl' → slot_update sl sl'
  | su_settled published : slot_update sl (releasePublicationClaim published sl)
  | su_refreshed live : slot_update sl (refreshModelObservation live sl)
  | su_cleared : slot_update sl (clearModelObservation sl).

Inductive slot_step : runtime_heap → runtime_heap → Prop :=
  | ss_new config h : slot_step h (newRuntimeSlot config h).1
  | ss_shared s sl value h h' s' :
      hp_slots h !! s = Some sl → shared_slot sl value h = Ok (h', s') → slot_step h h'
  | ss_update s sl sl' h : hp_slots h !! s = Some sl → slot_update sl sl' → slot_step h (set_slot s sl' h)
  | ss_acquire s h : slot_step h (acquire s h).1
  | ss_release l h : slot_step h (Release l h)
  | ss_drain s h : slot_step h (beginDrain s h)
  | ss_abort s h : slot_step h (abortUnpublished s h)
  | ss_task h h' : task_step h h' → slot_step h h'.
Definition heap_reachable (h : runtime_heap) : Prop := rtc slot_step empty_heap h.

(** ** The invariant *)
Definition slot_of (t : task) : option nat :=
  match t with TRelease s | TDrained s _ => Some s | TClose _ => None end.
Definition slot_tasks (s : nat) (ts : list task) : nat := length (filter (λ t, slot_of t = Some s) ts).
Definition close_tasks (o : nat) (ts : list task) : nat := length (filter (λ t, t = TClose o) ts).
#[global] Arguments slot_tasks : simpl never.
#[global] Arguments close_tasks : simpl never.

(** A slot that has not let go of its owner yet. *)
Definition holding (h : runtime_heap) (o s : nat) : Prop :=
  ∃ sl, hp_slots h !! s = Some sl ∧ sl_owner sl = o ∧ (sl_ownerReleased sl = false ∨ TRelease s ∈ hp_tasks h).

(** The leases of a slot that are still out. *)
Definition lease_count (leases : gmap nat RuntimeLease) (s : nat) (n : Z) : Prop :=
  ∃ L : gset nat, n = Z.of_nat (size L) ∧ ∀ l, l ∈ L ↔ leases !! l = Some (mkLease s false).

Record leases_ok (slots : gmap nat RuntimeSlot) (leases : gmap nat RuntimeLease) : Prop := {
  lk_slot : ∀ l ls, leases !! l = Some ls → is_Some (slots !! ls_slot ls);
  lk_count : ∀ s sl, slots !! s = Some sl → lease_count leases s (sl_leases sl) }.

Record heap_ok (h : runtime_heap) : Prop := {
  hk_owner : ∀ s sl, hp_slots h !! s = Some sl → is_Some (hp_owners h !! sl_owner sl);
  hk_leases : leases_ok (hp_slots h) (hp_leases h);
  hk_released : ∀ s sl, hp_slots h !! s = Some sl → sl_ownerReleased sl = sl_retired sl && (sl_leases sl =? 0);
  hk_tasks : ∀ s sl, hp_slots h !! s = Some sl →
    (slot_tasks s (hp_tasks h) + Nat.b2n (sl_drained sl) = Nat.b2n (sl_ownerReleased sl))%nat;
  hk_refs : ∀ o ow, hp_owners h !! o = Some ow → ∃ H : gset nat, ow_refs ow = Z.of_nat (size H) ∧ ∀ s, s ∈ H ↔ holding h o s;
  hk_close : ∀ o ow, hp_owners h !! o = Some ow →
    (close_tasks o (hp_tasks h) + Nat.b2n (ow_closed ow) = Nat.b2n (ow_refs ow =? 0)%Z)%nat;
  hk_final : ∀ s sl ow, TDrained s true ∈ hp_tasks h → hp_slots h !! s = Some sl → hp_owners h !! sl_owner sl = Some ow → ow_refs ow = 0;
  hk_task_slot : ∀ t s, t ∈ hp_tasks h → slot_of t = Some s → is_Some (hp_slots h !! s);
  hk_task_owner : ∀ o, TClose o ∈ hp_tasks h → is_Some (hp_owners h !! o) }.

Lemma empty_ok : heap_ok empty_heap.
Proof. split; cbn; intros; try (split; cbn; intros); try (by rewrite lookup_empty in *); set_solver. Qed.

Lemma fresh_slot {A} (m : gmap nat A) : m !! fresh (dom m) = None.
Proof. apply not_elem_of_dom, is_fresh. Qed.

Lemma slot_tasks_cons s t ts : slot_tasks s (t :: ts) = (Nat.b2n (bool_decide (slot_of t = Some s)) + slot_tasks s ts)%nat.
Proof. unfold slot_tasks. rewrite filter_cons. case_bool_decide; case_decide; done. Qed.
Lemma close_tasks_cons o t ts : close_tasks o (t :: ts) = (Nat.b2n (bool_decide (t = TClose o)) + close_tasks o ts)%nat.
Proof. unfold close_tasks. rewrite filter_cons. case_bool_decide; case_decide; done. Qed.
Lemma slot_tasks_zero s ts t : slot_tasks s ts = O → t ∈ ts → slot_of t ≠ Some s.
Proof.
  unfold slot_tasks. intros H0 Hin E. apply length_zero_iff_nil in H0.
  assert (Hf : t ∈ filter (λ t, slot_of t = Some s) ts) by by apply list_elem_of_filter. rewrite H0 in Hf. set_solver.
Qed.
Lemma slot_tasks_none h s : heap_ok h → hp_slots h !! s = None → slot_tasks s (hp_tasks h) = O.
Proof.
  intros Hok Hs. unfold slot_tasks. apply length_zero_iff_nil. destruct (filter _ _) as [|t l] eqn:E; [done|exfalso].
  assert (Hin : t ∈ filter (λ t, slot_of t = Some s) (hp_tasks h)) by (rewrite E; apply list_elem_of_here).
  apply list_elem_of_filter in Hin as [Hs' Hin]. destruct (hk_task_slot h Hok t s Hin Hs') as [? ?]. congruence.
Qed.
Lemma close_tasks_none h o : heap_ok h → hp_owners h !! o = None → close_tasks o (hp_tasks h) = O.
Proof.
  intros Hok Ho. unfold close_tasks. apply length_zero_iff_nil. destruct (filter _ _) as [|t l] eqn:E; [done|exfalso].
  assert (Hin : t ∈ filter (λ t, t = TClose o) (hp_tasks h)) by (rewrite E; apply list_elem_of_here).
  apply list_elem_of_filter in Hin as [-> Hin]. destruct (hk_task_owner h Hok o Hin) as [? ?]. congruence.
Qed.

(** *** Changing one slot *)

(** What an update of a slot keeps. *)
Definition same_core (sl sl' : RuntimeSlot) : Prop :=
  sl_owner sl' = sl_owner sl ∧ sl_leases sl' = sl_leases sl ∧ sl_retired sl' = sl_retired sl ∧
  sl_ownerReleased sl' = sl_ownerReleased sl ∧ sl_drained sl' = sl_drained sl.

Lemma update_core sl sl' : slot_update sl sl' → same_core sl sl'.
Proof.
  intros Hu. destruct Hu as [|sl' Hc|published|live|].
  - by split_and!.
  - unfold claimPublication in Hc. destruct (_ || _); [discriminate|]. injection Hc as <-. by split_and!.
  - unfold releasePublicationClaim. destruct (sl_publicationClaimed sl); by split_and!.
  - unfold refreshModelObservation. destruct (br_ModelController _); [|by split_and!].
    destruct (_ || _); [by split_and!|]. destruct (sl_retired sl); by split_and!.
  - by split_and!.
Qed.

Lemma lookup_set_slot (slots : gmap nat RuntimeSlot) s sl sl' s' sl0 :
  slots !! s = Some sl → <[s := sl']> slots !! s' = Some sl0 → (s' = s ∧ sl0 = sl') ∨ (s' ≠ s ∧ slots !! s' = Some sl0).
Proof. intros Hs. rewrite lookup_insert. case_decide as E; [intros [= <-]; left; done | right; done]. Qed.

Lemma ok_update s sl sl' h : heap_ok h → hp_slots h !! s = Some sl → same_core sl sl' → heap_ok (set_slot s sl' h).
Proof.
  intros Hok Hs (Eo & El & Er & Ew & Ed).
  assert (Hback : ∀ s0 q, hp_slots (set_slot s sl' h) !! s0 = Some q → ∃ q0, hp_slots h !! s0 = Some q0 ∧ same_core q0 q).
  { intros s0 q Hq. destruct (lookup_set_slot _ _ _ _ _ _ Hs Hq) as [[-> ->]|[_ Hq']].
    - exists sl. split; [done | by split_and!].
    - exists q. split; [done | by split_and!]. }
  assert (Hforth : ∀ s0 q0, hp_slots h !! s0 = Some q0 → ∃ q, hp_slots (set_slot s sl' h) !! s0 = Some q ∧ same_core q0 q).
  { intros s0 q0 Hq. cbn. rewrite lookup_insert. case_decide as E; [subst s0|].
    - exists sl'. split; [done|]. rewrite Hs in Hq. injection Hq as <-. by split_and!.
    - exists q0. split; [done | by split_and!]. }
  split.
  - intros s0 q Hq. destruct (Hback s0 q Hq) as (q0 & H0 & (-> & _)). by apply (hk_owner h Hok s0).
  - split.
    + intros l ls Hl. destruct (lk_slot _ _ (hk_leases h Hok) l ls Hl) as [q0 H0]. destruct (Hforth _ _ H0) as (q & Hq & _). by exists q.
    + intros s0 q Hq. destruct (Hback s0 q Hq) as (q0 & H0 & (_ & -> & _)). by apply (lk_count _ _ (hk_leases h Hok)).
  - intros s0 q Hq. destruct (Hback s0 q Hq) as (q0 & H0 & (_ & -> & -> & -> & _)). by apply (hk_released h Hok s0).
  - intros s0 q Hq. destruct (Hback s0 q Hq) as (q0 & H0 & (_ & _ & _ & -> & ->)). by apply (hk_tasks h Hok s0).
  - intros o ow Ho. destruct (hk_refs h Hok o ow Ho) as (H & HH & Hin). exists H. split; [done|]. intros s0. rewrite Hin. split.
    + intros (q0 & H0 & E & Hw). destruct (Hforth _ _ H0) as (q & Hq & (Eo' & _ & _ & Ew' & _)). exists q.
      rewrite Eo', Ew'. by split_and!.
    + intros (q & Hq & E & Hw). destruct (Hback _ _ Hq) as (q0 & H0 & (Eo' & _ & _ & Ew' & _)). exists q0.
      rewrite <-Eo', <-Ew'. by split_and!.
  - apply (hk_close h Hok).
  - intros s0 q ow Ht Hq Ho. destruct (Hback s0 q Hq) as (q0 & H0 & (E & _)). apply (hk_final h Hok s0 q0 ow Ht H0). by rewrite <-E.
  - intros t s0 Ht E. destruct (hk_task_slot h Hok t s0 Ht E) as [q0 H0]. destruct (Hforth _ _ H0) as (q & Hq & _). by exists q.
  - apply (hk_task_owner h Hok).
Qed.

(** *** Settling a slot whose leases changed *)
Definition with_lease_map (leases : gmap nat RuntimeLease) (h : runtime_heap) : runtime_heap :=
  mkHeap (hp_slots h) (hp_owners h) leases (hp_tasks h).

Lemma slot_tasks_released h s sl : heap_ok h → hp_slots h !! s = Some sl → sl_ownerReleased sl = false →
  slot_tasks s (hp_tasks h) = O ∧ sl_drained sl = false.
Proof.
  intros Hok Hs Hw. pose proof (hk_tasks h Hok s sl Hs) as Ht. rewrite Hw in Ht. destruct (sl_drained sl); cbn in Ht; [lia|]. split; [lia|done].
Qed.

Section settling.
  Context (h : runtime_heap) (s : nat) (sl : RuntimeSlot) (leases : gmap nat RuntimeLease) (n : Z) (retired : bool).
  Context (Hok : heap_ok h) (Hs : hp_slots h !! s = Some sl).
  Context (Hleases : leases_ok (<[s := with_leases sl n retired (sl_ownerReleased sl)]> (hp_slots h)) leases).
  Context (Hmono : sl_ownerReleased sl = true → retired = true ∧ n = 0).

Definition lets_go : bool := retired && (n =? 0) && negb (sl_ownerReleased sl).
Definition settled : RuntimeSlot := with_leases sl n retired (sl_ownerReleased sl || lets_go).
Definition settled_heap : runtime_heap :=
  mkHeap (<[s := settled]> (hp_slots h)) (hp_owners h) leases (if lets_go then TRelease s :: hp_tasks h else hp_tasks h).

Lemma settle_eq : settle s sl n retired (with_lease_map leases h) = settled_heap.
Proof. unfold settle, settled_heap, settled, lets_go. by destruct (retired && (n =? 0) && negb (sl_ownerReleased sl)). Qed.

Lemma settled_released : sl_ownerReleased settled = retired && (n =? 0).
Proof.
  unfold settled, lets_go. cbn. destruct (sl_ownerReleased sl) eqn:E; cbn; [|by rewrite andb_true_r].
  destruct (Hmono eq_refl) as [-> ->]. done.
Qed.

Lemma settled_slots s0 q :
  hp_slots settled_heap !! s0 = Some q → (s0 = s ∧ q = settled) ∨ (s0 ≠ s ∧ hp_slots h !! s0 = Some q).
Proof. cbn. intros Hq. by apply (lookup_set_slot _ _ _ _ _ _ Hs). Qed.

Lemma settled_task t : t ∈ hp_tasks settled_heap → t ∈ hp_tasks h ∨ t = TRelease s.
Proof. cbn. destruct lets_go; [rewrite elem_of_cons|]; naive_solver. Qed.

Lemma settled_holding o s0 : holding settled_heap o s0 ↔ holding h o s0.
Proof.
  split.
  - intros (q & Hq & E & Hw). destruct (settled_slots s0 q Hq) as [[-> ->]|[Hne H0]].
    + exists sl. split; [done|]. split; [done|]. destruct (sl_ownerReleased sl) eqn:Er; [|by left]. right.
      unfold settled, lets_go in Hw. cbn in Hw. rewrite Er in Hw. cbn in Hw. destruct Hw as [?|Hw]; [done|].
      unfold lets_go in Hw. rewrite Er, andb_false_r in Hw. exact Hw.
    + exists q. split; [done|]. split; [done|]. destruct Hw as [?|Hw]; [by left|]. right.
      destruct (settled_task _ Hw) as [?|[= ->]]; [done | by destruct Hne].
  - intros (q & H0 & E & Hw). destruct (decide (s0 = s)) as [->|Hne].
    + rewrite Hs in H0. injection H0 as <-. exists settled. split; [cbn; by rewrite lookup_insert_eq|]. split; [done|].
      unfold settled. cbn. destruct lets_go eqn:Hgo; [right; cbn; apply list_elem_of_here|]. rewrite orb_false_r.
      destruct Hw as [?|Hw]; [by left|right]. cbn. exact Hw.
    + exists q. split; [cbn; by rewrite lookup_insert_ne|]. split; [done|]. destruct Hw as [?|Hw]; [by left|right].
      cbn. destruct lets_go; [by right|done].
Qed.

Lemma settled_ok : heap_ok settled_heap.
Proof.
  assert (Hhome : ∀ s0, is_Some (hp_slots h !! s0) → is_Some (hp_slots settled_heap !! s0)).
  { intros s0 [q Hq]. cbn. rewrite lookup_insert. case_decide; by eexists. }
  split.
  - intros s0 q Hq. destruct (settled_slots s0 q Hq) as [[-> ->]|[_ H0]]; [|by apply (hk_owner h Hok s0)]. exact (hk_owner h Hok s sl Hs).
  - split; [|].
    + intros l ls Hl. destruct (lk_slot _ _ Hleases l ls Hl) as [q Hq]. apply Hhome. rewrite lookup_insert in Hq.
      case_decide as E; [rewrite <-E; by exists sl | by exists q].
    + intros s0 q Hq. destruct (settled_slots s0 q Hq) as [[-> ->]|[Hne H0]].
      * apply (lk_count _ _ Hleases s (with_leases sl n retired (sl_ownerReleased sl))). by rewrite lookup_insert_eq.
      * apply (lk_count _ _ Hleases s0 q). by rewrite lookup_insert_ne.
  - intros s0 q Hq. destruct (settled_slots s0 q Hq) as [[-> ->]|[_ H0]]; [|by apply (hk_released h Hok s0)]. apply settled_released.
  - intros s0 q Hq. destruct (settled_slots s0 q Hq) as [[-> ->]|[Hne H0]].
    + pose proof (hk_tasks h Hok s sl Hs) as Ht. unfold settled, settled_heap, lets_go. cbn. destruct (sl_ownerReleased sl) eqn:Er.
      * rewrite andb_false_r. cbn. exact Ht.
      * destruct (retired && (n =? 0)); cbn; [|done]. rewrite slot_tasks_cons. cbn in Ht |- *. rewrite bool_decide_true by done. cbn. lia.
    + pose proof (hk_tasks h Hok s0 q H0) as Ht. cbn. destruct lets_go; [|done]. rewrite slot_tasks_cons, bool_decide_false; [done|].
      cbn. congruence.
  - intros o ow Ho. destruct (hk_refs h Hok o ow Ho) as (H & HH & Hin). exists H. split; [done|]. intros s0. rewrite Hin. symmetry. apply settled_holding.
  - intros o ow Ho. pose proof (hk_close h Hok o ow Ho) as Hc. cbn. destruct lets_go; [|done]. rewrite close_tasks_cons, bool_decide_false; done.
  - intros s0 q ow Ht Hq Ho. destruct (settled_task _ Ht) as [Ht'|?]; [|discriminate].
    destruct (settled_slots s0 q Hq) as [[-> ->]|[_ H0]]; [by apply (hk_final h Hok s sl ow) | by apply (hk_final h Hok s0 q ow)].
  - intros t s0 Ht E. apply Hhome. destruct (settled_task _ Ht) as [Ht'| ->]; [by apply (hk_task_slot h Hok t)|]. injection E as <-. by exists sl.
  - intros o Ht. destruct (settled_task _ Ht) as [Ht'|?]; [|discriminate]. by apply (hk_task_owner h Hok).
Qed.
End settling.

(** *** New slots *)
Section adding.
  Context (h : runtime_heap) (s o : nat) (value : runtimeSlotValue) (ow : runtimeOwner).
  Context (Hok : heap_ok h) (Hs : hp_slots h !! s = None).
  Context (Howner : (hp_owners h !! o = None ∧ ∃ fn, ow = newRuntimeOwner fn) ∨
    ∃ old, hp_owners h !! o = Some old ∧ ow_refs old ≠ 0 ∧ ow = with_refs old (ow_refs old + 1)).

Definition added : runtime_heap := set_slot s (newRuntimeSlotWithOwner value o) (set_owner o ow h).

Lemma added_slots s0 q :
  hp_slots added !! s0 = Some q → (s0 = s ∧ q = newRuntimeSlotWithOwner value o) ∨ (s0 ≠ s ∧ hp_slots h !! s0 = Some q).
Proof. cbn. intros [[<- <-]|[? ?]]%lookup_insert_Some; [by left | by right]. Qed.

Lemma added_no_task t : t ∈ hp_tasks h → slot_of t ≠ Some s.
Proof. apply slot_tasks_zero. by apply slot_tasks_none. Qed.

Lemma no_holder o0 s0 : holding h o0 s0 → s0 ≠ s.
Proof. intros (q & Hq & _) ->. congruence. Qed.

Lemma added_holding o0 s0 : holding added o0 s0 ↔ holding h o0 s0 ∨ (s0 = s ∧ o0 = o).
Proof.
  split.
  - intros (q & Hq & E & Hw). destruct (added_slots s0 q Hq) as [[-> ->]|[_ H0]]; [by right|]. left. exists q. by split_and!.
  - intros [Hh|[-> ->]].
    + pose proof (no_holder o0 s0 Hh) as Hne. destruct Hh as (q & Hq & E & Hw). exists q. split; [cbn; by rewrite lookup_insert_ne|done].
    + exists (newRuntimeSlotWithOwner value o). split; [cbn; by rewrite lookup_insert_eq|]. split; [done | by left].
Qed.

Lemma added_refs : ∃ H : gset nat, ow_refs ow = Z.of_nat (size H) ∧ ∀ s0, s0 ∈ H ↔ holding added o s0.
Proof.
  destruct Howner as [(Ho & fn & ->)|(old & Ho & _ & ->)].
  - exists {[s]}. split; [by rewrite size_singleton|]. intros s0. rewrite added_holding, elem_of_singleton. split; [tauto|].
    intros [(q & Hq & E & _)|[-> _]]; [exfalso|done]. destruct (hk_owner h Hok s0 q Hq) as [? ?]. congruence.
  - destruct (hk_refs h Hok o old Ho) as (Hd & HH & Hin). exists ({[s]} ∪ Hd). split.
    + cbn. rewrite size_union, size_singleton, HH; [lia|]. intros s0 ->%elem_of_singleton Hs0. apply Hin in Hs0. by apply (no_holder o s).
    + intros s0. rewrite elem_of_union, elem_of_singleton, Hin, added_holding. naive_solver.
Qed.

Lemma added_owner o0 ow0 : hp_owners added !! o0 = Some ow0 → (o0 = o ∧ ow0 = ow) ∨ (o0 ≠ o ∧ hp_owners h !! o0 = Some ow0).
Proof. cbn. intros [[<- <-]|[? ?]]%lookup_insert_Some; [by left | by right]. Qed.

Lemma added_ok : heap_ok added.
Proof.
  assert (Hhome : ∀ s0, is_Some (hp_slots h !! s0) → is_Some (hp_slots added !! s0)).
  { intros s0 [q Hq]. cbn. rewrite lookup_insert. case_decide; by eexists. }
  assert (Hohome : ∀ o0, is_Some (hp_owners h !! o0) → is_Some (hp_owners added !! o0)).
  { intros o0 [q Hq]. cbn. rewrite lookup_insert. case_decide; by eexists. }
  pose proof (hk_leases h Hok) as [Lslot Lcount]. split.
  - intros s0 q Hq. destruct (added_slots s0 q Hq) as [[-> ->]|[_ H0]]; [cbn; rewrite lookup_insert_eq; by eexists|]. by apply Hohome, (hk_owner h Hok s0).
  - split; [intros l ls Hl; by apply Hhome, (Lslot l)|]. intros s0 q Hq. destruct (added_slots s0 q Hq) as [[-> ->]|[_ H0]]; [|by apply Lcount].
    exists ∅. split; [done|]. intros l. split; [set_solver|]. intros Hl. destruct (Lslot l _ Hl) as [? Hl']. cbn in Hl'. congruence.
  - intros s0 q Hq. destruct (added_slots s0 q Hq) as [[-> ->]|[_ H0]]; [done | by apply (hk_released h Hok s0)].
  - intros s0 q Hq. destruct (added_slots s0 q Hq) as [[-> ->]|[_ H0]]; [|by apply (hk_tasks h Hok s0)]. cbn. by rewrite slot_tasks_none.
  - intros o0 ow0 Ho0. destruct (added_owner o0 ow0 Ho0) as [[-> ->]|[Hne H0]]; [apply added_refs|].
    destruct (hk_refs h Hok o0 ow0 H0) as (Hd & HH & Hin). exists Hd. split; [done|]. intros s0. rewrite Hin, added_holding. naive_solver.
  - intros o0 ow0 Ho0. destruct (added_owner o0 ow0 Ho0) as [[-> ->]|[Hne H0]]; [|by apply (hk_close h Hok)].
    destruct Howner as [(Ho & fn & ->)|(old & Ho & Hne & ->)]; [cbn; by rewrite close_tasks_none|].
    pose proof (hk_close h Hok o old Ho) as Hc. destruct (hk_refs h Hok o old Ho) as (Hd & HH & _). cbn.
    rewrite (proj2 (Z.eqb_neq _ _) Hne) in Hc. rewrite (proj2 (Z.eqb_neq _ _)) by lia. exact Hc.
  - intros s0 q ow0 Ht Hq Ho0. destruct (added_slots s0 q Hq) as [[-> ->]|[_ H0]]; [by destruct (added_no_task _ Ht)|].
    destruct (added_owner _ ow0 Ho0) as [[E ->]|[_ Ho0']]; [exfalso|by apply (hk_final h Hok s0 q)].
    destruct (hk_owner h Hok s0 q H0) as [old Hold]. pose proof (hk_final h Hok s0 q old Ht H0 Hold) as Hz. rewrite E in Hold.
    destruct Howner as [(Ho & _)|(old' & Ho & Hne & _)]; [congruence|]. rewrite Ho in Hold. injection Hold as ->. done.
  - intros t s0 Ht E. by apply Hhome, (hk_task_slot h Hok t).
  - intros o0 Ht. by apply Hohome, (hk_task_owner h Hok).
Qed.
End adding.

(** *** Leases *)
Lemma leases_changed slots leases l s sl sl' b :
  leases_ok slots leases → slots !! s = Some sl → (∀ ls, leases !! l = Some ls → ls_slot ls = s) →
  lease_count (<[l := mkLease s b]> leases) s (sl_leases sl') →
  leases_ok (<[s := sl']> slots) (<[l := mkLease s b]> leases).
Proof.
  intros [Lslot Lcount] Hs Hl Hn. split.
  - intros l0 ls [[<- <-]|[_ H0]]%lookup_insert_Some; [exists sl'; by rewrite lookup_insert_eq|].
    destruct (Lslot l0 ls H0) as [q Hq]. rewrite lookup_insert. case_decide; by eexists.
  - intros s0 q Hq. destruct (lookup_set_slot _ _ _ _ _ _ Hs Hq) as [[-> ->]|[Hne H0]]; [done|].
    destruct (Lcount s0 q H0) as (L & HL & Hin). exists L. split; [done|]. intros l0. rewrite Hin, lookup_insert. case_decide as E; [|done].
    subst l0. split; [intros Hl0; by apply Hl in Hl0 | congruence].
Qed.

Lemma ok_acquire s h : heap_ok h → heap_ok (acquire s h).1.
Proof.
  intros Hok. unfold acquire. destruct (hp_slots h !! s) as [sl|] eqn:Hs; [|done]. destruct (sl_retired sl) eqn:Hr; [done|]. cbn [fst].
  set (l := fresh (dom (hp_leases h))). pose proof (fresh_slot (hp_leases h)) as Hl. fold l in Hl.
  assert (Hmono : sl_ownerReleased sl = true → false = true ∧ sl_leases sl + 1 = 0).
  { intros Hw. pose proof (hk_released h Hok s sl Hs) as E. by rewrite Hw, Hr in E. }
  assert (Hle : leases_ok (<[s := with_leases sl (sl_leases sl + 1) false (sl_ownerReleased sl)]> (hp_slots h))
    (<[l := mkLease s false]> (hp_leases h))).
  { apply (leases_changed _ _ l s sl _ false (hk_leases h Hok) Hs); [intros ls Hls; congruence|].
    destruct (lk_count _ _ (hk_leases h Hok) s sl Hs) as (L & HL & Hin). exists ({[l]} ∪ L). split.
    - cbn. rewrite size_union, size_singleton, HL; [lia|]. intros l0 ->%elem_of_singleton Hl0%Hin. congruence.
    - intros l0. rewrite elem_of_union, elem_of_singleton, Hin, lookup_insert. case_decide; naive_solver. }
  pose proof (settled_ok h s sl _ (sl_leases sl + 1) false Hok Hs Hle Hmono) as Hset.
  unfold settled_heap, settled, lets_go in Hset. cbn in Hset. rewrite orb_false_r in Hset. exact Hset.
Qed.

Lemma ok_drain s sl h : heap_ok h → hp_slots h !! s = Some sl → heap_ok (settle s sl (sl_leases sl) true h).
Proof.
  intros Hok Hs. assert (E : h = with_lease_map (hp_leases h) h) by (by destruct h). rewrite E at 1. rewrite settle_eq.
  apply settled_ok; [done | done | |].
  - pose proof (hk_leases h Hok) as [Lslot Lcount]. split.
    + intros l ls Hl. destruct (Lslot l ls Hl) as [q Hq]. rewrite lookup_insert. case_decide; by eexists.
    + intros s0 q Hq. destruct (lookup_set_slot _ _ _ _ _ _ Hs Hq) as [[-> ->]|[_ H0]]; [by apply (Lcount s sl) | by apply Lcount].
  - intros Hw. pose proof (hk_released h Hok s sl Hs) as E'. rewrite Hw in E'. symmetry in E'. apply andb_true_iff in E' as [_ E'].
    split; [done | lia].
Qed.

Lemma ok_release l h : heap_ok h → heap_ok (Release l h).
Proof.
  intros Hok. unfold Release. destruct (hp_leases h !! l) as [[s b]|] eqn:Hl; [|done]. cbn. destruct b; [done|].
  destruct (lk_slot _ _ (hk_leases h Hok) l _ Hl) as [sl Hs]. cbn in Hs. unfold releaseLease. cbn. rewrite Hs.
  destruct (lk_count _ _ (hk_leases h Hok) s sl Hs) as (L & HL & Hin).
  assert (Hpos : 0 < sl_leases sl).
  { apply Hin in Hl. destruct (decide (size L = 0%nat)) as [E|?]; [|lia]. apply size_empty_inv in E. set_solver. }
  rewrite (proj2 (Z.ltb_lt 0 _) Hpos). change (set_lease l (mkLease s true) h) with (with_lease_map (<[l := mkLease s true]> (hp_leases h)) h).
  rewrite settle_eq. apply settled_ok; [done | done | |].
  - apply (leases_changed _ _ l s sl _ true (hk_leases h Hok) Hs); [intros ls Hls; rewrite Hl in Hls; by injection Hls as <-|].
    exists (L ∖ {[l]}). split.
    + apply Hin in Hl. cbn. rewrite size_difference, size_singleton; [lia|]. set_solver.
    + intros l0. rewrite elem_of_difference, elem_of_singleton, Hin, lookup_insert. case_decide; naive_solver.
  - intros Hw. pose proof (hk_released h Hok s sl Hs) as E. rewrite Hw in E. symmetry in E. apply andb_true_iff in E as [_ E]. lia.
Qed.

(** *** Tasks *)
Section running.
  Context (h : runtime_heap) (before after : list task) (t : task).
  Context (Hok : heap_ok h) (Hts : hp_tasks h = before ++ t :: after).
  Notation rest := (before ++ after).

Lemma slot_tasks_rest s : slot_tasks s (hp_tasks h) = (Nat.b2n (bool_decide (slot_of t = Some s)) + slot_tasks s rest)%nat.
Proof.
  rewrite Hts. unfold slot_tasks. rewrite !filter_app, filter_cons, !length_app. case_bool_decide; case_decide; try done; cbn; lia.
Qed.
Lemma close_tasks_rest o : close_tasks o (hp_tasks h) = (Nat.b2n (bool_decide (t = TClose o)) + close_tasks o rest)%nat.
Proof.
  rewrite Hts. unfold close_tasks. rewrite !filter_app, filter_cons, !length_app. case_bool_decide; case_decide; try done; cbn; lia.
Qed.
Lemma in_rest x : x ∈ rest → x ∈ hp_tasks h.
Proof. rewrite Hts, !elem_of_app, elem_of_cons. tauto. Qed.
Lemma in_tasks x : x ∈ hp_tasks h → x ≠ t → x ∈ rest.
Proof. rewrite Hts, !elem_of_app, elem_of_cons. tauto. Qed.
Lemma running_in : t ∈ hp_tasks h.
Proof. rewrite Hts, elem_of_app, elem_of_cons. tauto. Qed.

(** The only pending task of a slot is the one that runs. *)
Lemma only_task s sl : slot_of t = Some s → hp_slots h !! s = Some sl →
  slot_tasks s rest = O ∧ sl_drained sl = false ∧ sl_ownerReleased sl = true.
Proof.
  intros E Hs. pose proof (hk_tasks h Hok s sl Hs) as Hn. rewrite slot_tasks_rest, bool_decide_true in Hn by done. cbn in Hn.
  destruct (sl_ownerReleased sl), (sl_drained sl); cbn in Hn; split_and!; try done; lia.
Qed.
End running.

(** The heap after slot [s] let go of its owner. *)
Definition let_go (h : runtime_heap) (rest : list task) (s o : nat) (ow : runtimeOwner) (final : bool) : runtime_heap :=
  mkHeap (hp_slots h) (<[o := with_refs ow (ow_refs ow - 1)]> (hp_owners h)) (hp_leases h)
    (TDrained s final :: (if final then TClose o :: rest else rest)).

Section letting_go.
  Context (h : runtime_heap) (before after : list task) (s : nat) (sl : RuntimeSlot) (ow : runtimeOwner).
  Context (Hok : heap_ok h) (Hts : hp_tasks h = before ++ TRelease s :: after).
  Context (Hs : hp_slots h !! s = Some sl) (Ho : hp_owners h !! sl_owner sl = Some ow).
  Notation o := (sl_owner sl).
  Notation final := (ow_refs ow - 1 =? 0).
  Notation h' := (let_go h (before ++ after) s o ow final).

Lemma refs_positive : 0 < ow_refs ow.
Proof.
  destruct (hk_refs h Hok _ _ Ho) as (Hd & HH & Hin).
  assert (Hself : s ∈ Hd).
  { apply Hin. exists sl. split_and!; [done | done |]. right. apply (running_in h before after _ Hts). }
  destruct (decide (size Hd = 0%nat)) as [E|?]; [|lia]. apply size_empty_inv in E. set_solver.
Qed.

Lemma no_second_release : TRelease s ∉ before ++ after.
Proof.
  destruct (only_task h before after _ Hok Hts s sl eq_refl Hs) as (Hz & _). intros Hin.
  by apply (slot_tasks_zero s _ _ Hz Hin).
Qed.

Lemma let_go_task x : x ∈ hp_tasks h' → x = TDrained s final ∨ (x = TClose o ∧ final = true) ∨ (x ∈ hp_tasks h ∧ x ∈ before ++ after).
Proof.
  unfold let_go. cbn [hp_tasks]. pose proof (in_rest h before after _ Hts x) as Hr.
  destruct final; rewrite !elem_of_cons; intros [?|H0]; tauto.
Qed.

Lemma let_go_holding o0 s0 : holding h' o0 s0 ↔ holding h o0 s0 ∧ s0 ≠ s.
Proof.
  destruct (only_task h before after _ Hok Hts s sl eq_refl Hs) as (Hz & _ & Hw). split.
  - intros (q & Hq & E & Hh). cbn in Hq. split.
    + exists q. split_and!; [done | done |]. destruct Hh as [?|Hh]; [by left|right].
      destruct (let_go_task _ Hh) as [?|[[? _]|[? _]]]; done.
    + intros ->. rewrite Hs in Hq. injection Hq as <-. rewrite Hw in Hh. destruct Hh as [?|Hh]; [done|].
      destruct (let_go_task _ Hh) as [?|[[? _]|[_ ?]]]; [done | done | by apply no_second_release].
  - intros [(q & Hq & E & Hh) Hne]. exists q. split_and!; [done | done |]. destruct Hh as [?|Hh]; [by left|right].
    apply (in_tasks h before after _ Hts) in Hh; [|congruence]. unfold let_go. cbn [hp_tasks]. destruct final; rewrite !elem_of_cons; tauto.
Qed.

Lemma let_go_owner o0 ow0 :
  hp_owners h' !! o0 = Some ow0 → (o0 = o ∧ ow0 = with_refs ow (ow_refs ow - 1)) ∨ (o0 ≠ o ∧ hp_owners h !! o0 = Some ow0).
Proof. cbn. intros [[<- <-]|[? ?]]%lookup_insert_Some; [by left | by right]. Qed.

Lemma let_go_close o0 : close_tasks o0 (hp_tasks h') = (Nat.b2n (bool_decide (o0 = o) && final) + close_tasks o0 (hp_tasks h))%nat.
Proof.
  rewrite (close_tasks_rest h before after _ Hts). unfold let_go. cbn [hp_tasks]. rewrite close_tasks_cons.
  rewrite !(bool_decide_false (_ = TClose o0)) by done. destruct final; [rewrite close_tasks_cons|]; cbn; [|by rewrite andb_false_r].
  rewrite andb_true_r. f_equal. case_bool_decide as E1; case_bool_decide as E2; try done; congruence.
Qed.

Lemma let_go_slot_tasks s0 : slot_tasks s0 (hp_tasks h') = slot_tasks s0 (hp_tasks h).
Proof.
  rewrite (slot_tasks_rest h before after _ Hts). unfold let_go. cbn [hp_tasks]. rewrite slot_tasks_cons. cbn [slot_of].
  f_equal. destruct final; [rewrite slot_tasks_cons; cbn|]; done.
Qed.

Lemma let_go_ok : heap_ok h'.
Proof.
  pose proof refs_positive as Hpos.
  assert (Hohome : ∀ o0, is_Some (hp_owners h !! o0) → is_Some (hp_owners h' !! o0)).
  { intros o0 [q Hq]. cbn. rewrite lookup_insert. case_decide; by eexists. }
  split.
  - intros s0 q Hq. by apply Hohome, (hk_owner h Hok s0).
  - apply (hk_leases h Hok).
  - apply (hk_released h Hok).
  - intros s0 q Hq. rewrite let_go_slot_tasks. by apply (hk_tasks h Hok).
  - intros o0 ow0 Ho0. destruct (let_go_owner o0 ow0 Ho0) as [[-> ->]|[Hne H0]].
    + destruct (hk_refs h Hok _ _ Ho) as (Hd & HH & Hin). exists (Hd ∖ {[s]}).
      assert (Hself : s ∈ Hd).
      { apply Hin. exists sl. split_and!; [done | done |]. right. apply (running_in h before after _ Hts). }
      split.
      * cbn. rewrite size_difference, size_singleton by set_solver. cbn in Hpos. lia.
      * intros s0. rewrite elem_of_difference, elem_of_singleton, Hin. symmetry. apply let_go_holding.
    + destruct (hk_refs h Hok _ _ H0) as (Hd & HH & Hin). exists Hd. split; [done|]. intros s0. rewrite Hin, let_go_holding.
      split; [|tauto]. intros Hh. split; [done|]. intros ->. destruct Hh as (q & Hq & E & _). congruence.
  - intros o0 ow0 Ho0. rewrite let_go_close. destruct (let_go_owner o0 ow0 Ho0) as [[-> ->]|[Hne H0]].
    + pose proof (hk_close h Hok _ _ Ho) as Hc. rewrite (proj2 (Z.eqb_neq (ow_refs ow) 0)) in Hc by lia. cbn in Hc |- *.
      rewrite bool_decide_true by done. cbn. lia.
    + rewrite bool_decide_false by done. cbn. by apply (hk_close h Hok).
  - intros s0 q ow0 Ht Hq Ho0. cbn in Hq. destruct (let_go_task _ Ht) as [E|[[? _]|[Ht' _]]]; [|done|].
    + injection E as -> Hf. rewrite Hs in Hq. injection Hq as <-. destruct (let_go_owner _ ow0 Ho0) as [[_ ->]|[? _]]; [cbn; lia|done].
    + destruct (let_go_owner _ ow0 Ho0) as [[E ->]|[_ H0]]; [|by apply (hk_final h Hok s0 q)].
      rewrite <-E in Ho. pose proof (hk_final h Hok s0 q ow Ht' Hq Ho). lia.
  - intros x s0 Ht E. destruct (let_go_task _ Ht) as [->|[[-> _]|[Ht' _]]]; [|done|by apply (hk_task_slot h Hok x)].
    injection E as <-. by exists sl.
  - intros o0 Ht. destruct (let_go_task _ Ht) as [?|[[E _]|[Ht' _]]]; [done| |by apply Hohome, (hk_task_owner h Hok)].
    injection E as ->. apply Hohome. by exists ow.
Qed.

Lemma run_release : run_task (TRelease s) (with_tasks (before ++ after) h) = Some h'.
Proof.
  pose proof refs_positive as Hpos. cbn. rewrite Hs. cbn. rewrite Ho. cbn. unfold release.
  rewrite (proj2 (Z.eqb_neq (ow_refs ow) 0)) by lia. cbn. unfold let_go.
  destruct (Z.ltb_spec 0 (ow_refs ow - 1)), (Z.eqb_spec (ow_refs ow - 1) 0); try lia; done.
Qed.
End letting_go.

Section closing.
  Context (h : runtime_heap) (before after : list task) (o : nat) (ow : runtimeOwner).
  Context (Hok : heap_ok h) (Hts : hp_tasks h = before ++ TClose o :: after) (Ho : hp_owners h !! o = Some ow).

Lemma closing_owner : ow_closed ow = false ∧ ow_refs ow = 0 ∧ close_tasks o (before ++ after) = O.
Proof.
  pose proof (hk_close h Hok o ow Ho) as Hc. rewrite (close_tasks_rest h before after _ Hts), bool_decide_true in Hc by done.
  destruct (ow_closed ow), (Z.eqb_spec (ow_refs ow) 0); cbn in Hc; split_and!; try done; lia.
Qed.

Definition closed_owner : runtimeOwner := mkOwner (ow_refs ow) (ow_closeFn ow) (close_result (ow_closeFn ow)) true.
Definition closed_heap : runtime_heap := set_owner o closed_owner (with_tasks (before ++ after) h).

Lemma run_close : run_task (TClose o) (with_tasks (before ++ after) h) = Some closed_heap.
Proof. destruct closing_owner as (Hc & _). cbn. rewrite Ho. cbn. by rewrite Hc. Qed.

Lemma closed_holding o0 s0 : holding closed_heap o0 s0 ↔ holding h o0 s0.
Proof.
  split; intros (q & Hq & E & Hw); exists q; (split; [done|]; split; [done|]); destruct Hw as [?|Hw]; try (by left); right.
  - by apply (in_rest h before after _ Hts).
  - by apply (in_tasks h before after _ Hts).
Qed.

Lemma closed_ok : heap_ok closed_heap.
Proof.
  destruct closing_owner as (Hcl & Hz & Hnone).
  assert (Hown : ∀ o0 ow0, hp_owners closed_heap !! o0 = Some ow0 →
    (o0 = o ∧ ow0 = closed_owner) ∨ (o0 ≠ o ∧ hp_owners h !! o0 = Some ow0)).
  { intros o0 ow0. cbn. intros [[<- <-]|[? ?]]%lookup_insert_Some; [by left | by right]. }
  assert (Hback : ∀ o0 ow0, hp_owners closed_heap !! o0 = Some ow0 → ∃ ow1, hp_owners h !! o0 = Some ow1 ∧ ow_refs ow0 = ow_refs ow1).
  { intros o0 ow0 H0. destruct (Hown o0 ow0 H0) as [[-> ->]|[_ H1]]; [by exists ow | by exists ow0]. }
  assert (Hhome : ∀ o0, is_Some (hp_owners h !! o0) → is_Some (hp_owners closed_heap !! o0)).
  { intros o0 [q Hq]. cbn. rewrite lookup_insert. case_decide; by eexists. }
  split.
  - intros s0 q Hq. by apply Hhome, (hk_owner h Hok s0).
  - apply (hk_leases h Hok).
  - apply (hk_released h Hok).
  - intros s0 q Hq. pose proof (hk_tasks h Hok s0 q Hq) as Ht. by rewrite (slot_tasks_rest h before after _ Hts) in Ht.
  - intros o0 ow0 H0. destruct (Hback o0 ow0 H0) as (ow1 & H1 & ->). destruct (hk_refs h Hok o0 ow1 H1) as (Hd & HH & Hin).
    exists Hd. split; [done|]. intros s0. rewrite Hin. symmetry. apply closed_holding.
  - intros o0 ow0 H0. destruct (Hown o0 ow0 H0) as [[-> ->]|[Hne H1]].
    + cbn. rewrite Hnone, Hz. done.
    + pose proof (hk_close h Hok o0 ow0 H1) as Hc. rewrite (close_tasks_rest h before after _ Hts), bool_decide_false in Hc by congruence.
      exact Hc.
  - intros s0 q ow0 Ht Hq H0. destruct (Hback _ ow0 H0) as (ow1 & H1 & ->).
    apply (hk_final h Hok s0 q); [by apply (in_rest h before after _ Hts) | done | done].
  - intros x s0 Ht. by apply (hk_task_slot h Hok), (in_rest h before after _ Hts).
  - intros o0 Ht. by apply Hhome, (hk_task_owner h Hok), (in_rest h before after _ Hts).
Qed.
End closing.

Section draining.
  Context (h : runtime_heap) (before after : list task) (s : nat) (final : bool) (sl : RuntimeSlot) (err : option error).
  Context (Hok : heap_ok h) (Hts : hp_tasks h = before ++ TDrained s final :: after) (Hs : hp_slots h !! s = Some sl).

Definition drained_heap : runtime_heap := set_slot s (with_drained sl err) (with_tasks (before ++ after) h).

Lemma drained_slots s0 q :
  hp_slots drained_heap !! s0 = Some q → (s0 = s ∧ q = with_drained sl err) ∨ (s0 ≠ s ∧ hp_slots h !! s0 = Some q).
Proof. cbn. intros Hq. by apply (lookup_set_slot _ _ _ _ _ _ Hs). Qed.

Lemma drained_holding o0 s0 : holding drained_heap o0 s0 ↔ holding h o0 s0.
Proof.
  split.
  - intros (q & Hq & E & Hw). destruct (drained_slots s0 q Hq) as [[-> ->]|[_ H0]]; [exists sl|exists q]; split_and!; try done;
      (destruct Hw as [?|Hw]; [by left|right]; by apply (in_rest h before after _ Hts)).
  - intros (q & Hq & E & Hw). assert (Hw' : sl_ownerReleased q = false ∨ TRelease s0 ∈ before ++ after).
    { destruct Hw as [?|Hw]; [by left|right]. by apply (in_tasks h before after _ Hts). }
    destruct (decide (s0 = s)) as [->|Hne].
    + rewrite Hs in Hq. injection Hq as <-. exists (with_drained sl err). split; [cbn; by rewrite lookup_insert_eq | done].
    + exists q. split; [cbn; by rewrite lookup_insert_ne | done].
Qed.

Lemma drained_ok : heap_ok drained_heap.
Proof.
  destruct (only_task h before after _ Hok Hts s sl eq_refl Hs) as (Hz & Hd & Hw).
  assert (Hhome : ∀ s0, is_Some (hp_slots h !! s0) → is_Some (hp_slots drained_heap !! s0)).
  { intros s0 [q Hq]. cbn. rewrite lookup_insert. case_decide; by eexists. }
  pose proof (hk_leases h Hok) as [Lslot Lcount]. split.
  - intros s0 q Hq. destruct (drained_slots s0 q Hq) as [[-> ->]|[_ H0]]; [exact (hk_owner h Hok s sl Hs) | by apply (hk_owner h Hok s0)].
  - split; [intros l ls Hl; by apply Hhome, (Lslot l)|]. intros s0 q Hq.
    destruct (drained_slots s0 q Hq) as [[-> ->]|[_ H0]]; [by apply (Lcount s sl) | by apply Lcount].
  - intros s0 q Hq. destruct (drained_slots s0 q Hq) as [[-> ->]|[_ H0]]; [exact (hk_released h Hok s sl Hs) | by apply (hk_released h Hok s0)].
  - intros s0 q Hq. destruct (drained_slots s0 q Hq) as [[-> ->]|[Hne H0]].
    + cbn. by rewrite Hz, Hw.
    + pose proof (hk_tasks h Hok s0 q H0) as Ht. rewrite (slot_tasks_rest h before after _ Hts), bool_decide_false in Ht by (cbn; congruence).
      exact Ht.
  - intros o0 ow0 H0. destruct (hk_refs h Hok o0 ow0 H0) as (Hd0 & HH & Hin). exists Hd0. split; [done|]. intros s0. rewrite Hin.
    symmetry. apply drained_holding.
  - intros o0 ow0 H0. pose proof (hk_close h Hok o0 ow0 H0) as Hc. by rewrite (close_tasks_rest h before after _ Hts) in Hc.
  - intros s0 q ow0 Ht Hq H0. apply (in_rest h before after _ Hts) in Ht.
    destruct (drained_slots s0 q Hq) as [[-> ->]|[_ Hq']]; [by apply (hk_final h Hok s sl ow0) | by apply (hk_final h Hok s0 q ow0)].
  - intros x s0 Ht E. apply Hhome, (hk_task_slot h Hok x); [by apply (in_rest h before after _ Hts) | done].
  - intros o0 Ht. by apply (hk_task_owner h Hok), (in_rest h before after _ Hts).
Qed.
End draining.

Lemma task_ok h h' : heap_ok h → task_step h h' → heap_ok h'.
Proof.
  intros Hok Hstep. revert Hok. destruct Hstep as [before t after h1 h1' Hts Hrun]. intros Hok. destruct t as [s|o|s final].
  - destruct (hk_task_slot h1 Hok (TRelease s) s) as [sl Hs]; [by apply (running_in h1 before after) | done |].
    destruct (hk_owner h1 Hok s sl Hs) as [ow Ho]. rewrite (run_release h1 before after s sl ow Hok Hts Hs Ho) in Hrun.
    injection Hrun as <-. by apply let_go_ok.
  - destruct (hk_task_owner h1 Hok o) as [ow Ho]; [by apply (running_in h1 before after)|].
    rewrite (run_close h1 before after o ow Hok Hts Ho) in Hrun. injection Hrun as <-. by apply closed_ok.
  - cbn in Hrun. destruct (hp_slots h1 !! s) as [sl|] eqn:Hs; [|discriminate]. cbn in Hrun.
    destruct (hp_owners h1 !! sl_owner sl) as [ow|] eqn:Ho; [|discriminate]. cbn in Hrun.
    destruct (_ || _); [discriminate|]. injection Hrun as <-. by apply (drained_ok h1 before after s final sl).
Qed.

Lemma slot_step_ok h h' : heap_ok h → slot_step h h' → heap_ok h'.
Proof.
  intros Hok Hstep. revert Hok. destruct Hstep as [config h|s sl value h h' s' Hs Hsh|s sl sl' h Hs Hu|s h|l h|s h|s h|h h' Ht]; intros Hok.
  - apply added_ok; [done | apply fresh_slot |]. left. split; [apply fresh_slot | by eexists].
  - unfold shared_slot in Hsh. destruct (sl_retired sl); [discriminate|].
    destruct (hp_owners h !! sl_owner sl) as [ow|] eqn:Ho; [|discriminate]. cbn in Hsh. unfold retain in Hsh.
    destruct (Z.eqb_spec (ow_refs ow) 0); [discriminate|]. injection Hsh as <- _.
    apply added_ok; [done | apply fresh_slot |]. right. by exists ow.
  - apply (ok_update s sl); [done | done | by apply update_core].
  - by apply ok_acquire.
  - by apply ok_release.
  - unfold beginDrain. destruct (hp_slots h !! s) eqn:Hs; [|done]. by apply ok_drain.
  - unfold abortUnpublished. destruct (hp_slots h !! s) eqn:Hs; [|done]. destruct (_ || _); [done|]. by apply ok_drain.
  - by apply (task_ok h).
Qed.

Lemma reachable_heap h : heap_reachable h → heap_ok h.
Proof. intros Hr. refine (rtc_ind_r (R := slot_step) heap_ok empty_heap empty_ok _ h Hr). intros h1 h2 _ Hs Hok. by apply (slot_step_ok h1). Qed.

(** ** Consequences *)
Lemma held_open h l s :
  heap_ok h → hp_leases h !! l = Some (mkLease s false) →
  ∃ sl ow, hp_slots h !! s = Some sl ∧ hp_owners h !! sl_owner sl = Some ow ∧
    0 < ow_refs ow ∧ ow_closed ow = false ∧ close_tasks (sl_owner sl) (hp_tasks h) = O.
Proof.
  intros Hok Hl. destruct (lk_slot _ _ (hk_leases h Hok) l _ Hl) as [sl Hs]. cbn in Hs. destruct (hk_owner h Hok s sl Hs) as [ow Ho].
  exists sl, ow. destruct (lk_count _ _ (hk_leases h Hok) s sl Hs) as (L & HL & Hin). apply Hin in Hl.
  assert (Hne : sl_leases sl ≠ 0).
  { destruct (decide (size L = 0%nat)) as [E|?]; [|lia]. apply size_empty_inv in E. set_solver. }
  pose proof (hk_released h Hok s sl Hs) as Hw. rewrite (proj2 (Z.eqb_neq _ _) Hne), andb_false_r in Hw.
  destruct (hk_refs h Hok _ _ Ho) as (Hd & HH & Hmem). assert (Hself : s ∈ Hd) by (apply Hmem; exists sl; split_and!; [done | done | by left]).
  assert (Hpos : 0 < ow_refs ow).
  { destruct (decide (size Hd = 0%nat)) as [E|?]; [|lia]. apply size_empty_inv in E. set_solver. }
  pose proof (hk_close h Hok _ _ Ho) as Hc. rewrite (proj2 (Z.eqb_neq (ow_refs ow) 0)) in Hc by lia.
  destruct (ow_closed ow); cbn in Hc; split_and!; try done; lia.
Qed.

Definition owner_closed (h : runtime_heap) (o : nat) : Prop := ∃ ow, hp_owners h !! o = Some ow ∧ ow_closed ow = true.

Lemma settle_owners s sl n retired h : hp_owners (settle s sl n retired h) = hp_owners h.
Proof. unfold settle. by destruct (_ && _ && _). Qed.

Lemma closed_stays h h' o : slot_step h h' → owner_closed h o → owner_closed h' o.
Proof.
  unfold owner_closed. intros Hstep (ow & Ho & Hc). revert Ho. destruct Hstep as [config h|s sl value h h' s' Hs Hsh|s sl sl' h Hs Hu|s h|l h|s h|s h|h h' Ht]; intros Ho.
  - exists ow. split; [|done]. cbn. rewrite lookup_insert_ne; [done|]. intros E. rewrite <-E, fresh_slot in Ho. discriminate.
  - unfold shared_slot in Hsh. destruct (sl_retired sl); [discriminate|].
    destruct (hp_owners h !! sl_owner sl) as [ow0|] eqn:Ho0; [|discriminate]. cbn in Hsh. unfold retain in Hsh.
    destruct (ow_refs ow0 =? 0); [discriminate|]. injection Hsh as <- _. cbn. destruct (decide (sl_owner sl = o)) as [E|?].
    + exists (with_refs ow0 (ow_refs ow0 + 1)). subst o. rewrite lookup_insert_eq. split; [done|]. rewrite Ho0 in Ho. by injection Ho as ->.
    + exists ow. by rewrite lookup_insert_ne.
  - by exists ow.
  - unfold acquire. destruct (hp_slots h !! s) as [sl|]; [|by exists ow]. destruct (sl_retired sl); by exists ow.
  - unfold Release. destruct (hp_leases h !! l) as [[s b]|]; [|by exists ow]. cbn. destruct b; [by exists ow|]. unfold releaseLease. cbn.
    destruct (hp_slots h !! s); [|by exists ow]. exists ow. by rewrite settle_owners.
  - unfold beginDrain. destruct (hp_slots h !! s); [|by exists ow]. exists ow. by rewrite settle_owners.
  - unfold abortUnpublished. destruct (hp_slots h !! s); [|by exists ow]. destruct (_ || _); [by exists ow|]. exists ow. by rewrite settle_owners.
  - destruct Ht as [before t after h h' Hts Hrun]. destruct t as [s|o0|s final]; cbn in Hrun.
    + destruct (hp_slots h !! s) as [sl|]; [|discriminate]. cbn in Hrun. destruct (hp_owners h !! sl_owner sl) as [ow0|] eqn:Ho0; [|discriminate].
      cbn in Hrun. unfold release in Hrun. destruct (ow_refs ow0 =? 0); cbn in Hrun; [injection Hrun as <-; by exists ow|].
      assert (E : ∃ ow', hp_owners h' !! o = Some ow' ∧ (ow' = ow ∨ (sl_owner sl = o ∧ ow' = with_refs ow0 (ow_refs ow0 - 1)))).
      { destruct (0 <? _); injection Hrun as <-; cbn; rewrite lookup_insert; (case_decide; [eexists; split; [done | by right] | exists ow; split; [done | by left]]). }
      destruct E as (ow' & Ho' & [->|[E ->]]); [by exists ow|]. eexists. split; [exact Ho'|]. cbn. subst o. rewrite Ho0 in Ho. by injection Ho as ->.
    + destruct (hp_owners h !! o0) as [ow0|] eqn:Ho0; [|discriminate]. cbn in Hrun. destruct (ow_closed ow0) eqn:Hc0; [discriminate|].
      injection Hrun as <-. exists ow. split; [|done]. cbn. rewrite lookup_insert_ne; [done|]. intros ->. congruence.
    + destruct (hp_slots h !! s) as [sl|]; [|discriminate]. cbn in Hrun. destruct (hp_owners h !! sl_owner sl); [|discriminate]. cbn in Hrun.
      destruct (_ || _); [discriminate|]. injection Hrun as <-. by exists ow.
Qed.

(** *** Draining *)
Definition weight (t : task) : nat := match t with TRelease _ => 3%nat | _ => 1%nat end.
Definition load (h : runtime_heap) : nat := sum_list (weight <$> hp_tasks h).

Lemma sum_list_app' (l k : list nat) : sum_list (l ++ k) = (sum_list l + sum_list k)%nat.
Proof. induction l as [|x l IH]; cbn; [done | rewrite IH; lia]. Qed.

Lemma task_load h h' : heap_ok h → task_step h h' → (load h' < load h)%nat.
Proof.
  intros Hok Hstep. revert Hok. destruct Hstep as [before t after h h' Hts Hrun]. intros Hok.
  assert (Hload : load h = (weight t + sum_list (weight <$> before ++ after))%nat).
  { unfold load. rewrite Hts, !fmap_app, fmap_cons, !sum_list_app'. cbn. lia. }
  rewrite Hload. destruct t as [s|o|s final].
  - destruct (hk_task_slot h Hok (TRelease s) s) as [sl Hs]; [by apply (running_in h before after) | done |].
    destruct (hk_owner h Hok s sl Hs) as [ow Ho]. rewrite (run_release h before after s sl ow Hok Hts Hs Ho) in Hrun.
    injection Hrun as <-. unfold load, let_go. cbn [hp_tasks]. destruct (_ =? 0); cbn; lia.
  - destruct (hk_task_owner h Hok o) as [ow Ho]; [by apply (running_in h before after)|].
    rewrite (run_close h before after o ow Hok Hts Ho) in Hrun. injection Hrun as <-. unfold load. cbn. lia.
  - cbn in Hrun. destruct (hp_slots h !! s) as [sl|]; [|discriminate]. cbn in Hrun. destruct (hp_owners h !! sl_owner sl); [|discriminate].
    cbn in Hrun. destruct (_ || _); [discriminate|]. injection Hrun as <-. unfold load. cbn. lia.
Qed.

(** A pending task means some task can run. *)
Lemma task_progress h t : heap_ok h → t ∈ hp_tasks h → ∃ h', task_step h h'.
Proof.
  intros Hok.
  assert (Hclose : ∀ o, TClose o ∈ hp_tasks h → ∃ h', task_step h h').
  { intros o Ht. destruct (hk_task_owner h Hok o Ht) as [ow Ho]. apply list_elem_of_split in Ht as (before & after & Hts).
    eexists. by apply (ts_run before (TClose o) after), (run_close h before after o ow). }
  intros Ht. destruct t as [s|o|s final]; [|by apply (Hclose o)|].
  - destruct (hk_task_slot h Hok _ s Ht eq_refl) as [sl Hs]. destruct (hk_owner h Hok s sl Hs) as [ow Ho].
    apply list_elem_of_split in Ht as (before & after & Hts). eexists.
    by apply (ts_run before (TRelease s) after), (run_release h before after s sl ow).
  - destruct (hk_task_slot h Hok _ s Ht eq_refl) as [sl Hs]. destruct (hk_owner h Hok s sl Hs) as [ow Ho].
    destruct (final && negb (ow_closed ow)) eqn:Hwait.
    + apply andb_true_iff in Hwait as [-> Hc]. apply negb_true_iff in Hc. pose proof (hk_final h Hok s sl ow Ht Hs Ho) as Hz.
      pose proof (hk_close h Hok _ _ Ho) as Hn. rewrite Hc, Hz in Hn. cbn in Hn.
      assert (Hin : TClose (sl_owner sl) ∈ hp_tasks h).
      { destruct (decide (TClose (sl_owner sl) ∈ hp_tasks h)) as [?|Hni]; [done|exfalso]. unfold close_tasks in Hn.
        destruct (filter _ _) as [|x l] eqn:E; [done|]. assert (Hx : x ∈ filter (λ t, t = TClose (sl_owner sl)) (hp_tasks h)) by (rewrite E; apply list_elem_of_here).
        apply list_elem_of_filter in Hx as [-> Hx]. done. }
      by apply (Hclose (sl_owner sl)).
    + apply list_elem_of_split in Ht as (before & after & Hts).
      destruct (only_task h before after _ Hok Hts s sl eq_refl Hs) as (_ & Hd & _).
      eexists. apply (ts_run before (TDrained s final) after h _ Hts). cbn. rewrite Hs. cbn. rewrite Ho. cbn. by rewrite Hwait, Hd.
Qed.

Lemma tasks_done h : heap_ok h → (∀ h', ¬ task_step h h') → hp_tasks h = [].
Proof.
  intros Hok Hstuck. destruct (hp_tasks h) as [|t l] eqn:E; [done|exfalso]. destruct (task_progress h t Hok) as [h' Hs].
  - rewrite E. apply list_elem_of_here.
  - by apply (Hstuck h').
Qed.

Lemma tasks_bounded n h h' : heap_ok h → nsteps task_step n h h' → (n + load h' ≤ load h)%nat ∧ heap_ok h'.
Proof.
  revert h. induction n as [|n IH]; intros h Hok Hn; inversion Hn as [|? ? h1 ? Hs Hrest]; subst; [split; [lia|done]|].
  pose proof (task_load h h1 Hok Hs). destruct (IH h1 (task_ok h h1 Hok Hs) Hrest) as [? ?]. split; [lia|done].
Qed.

(** Nobody uses slot [s] any more. *)
Definition unused (h : runtime_heap) (s : nat) : Prop := ∀ l, hp_leases h !! l ≠ Some (mkLease s false).

Lemma unused_leases h s sl : heap_ok h → hp_slots h !! s = Some sl → sl_leases sl = 0 ↔ unused h s.
Proof.
  intros Hok Hs. destruct (lk_count _ _ (hk_leases h Hok) s sl Hs) as (L & -> & Hin). split.
  - intros Hz l Hl. apply Hin in Hl. assert (E : size L = O) by lia. apply size_empty_inv in E. set_solver.
  - intros Hnone. assert (E : L = ∅) by (apply set_eq; intros l; rewrite Hin; pose proof (Hnone l); set_solver). by rewrite E, size_empty.
Qed.

Lemma released_unused h s sl :
  heap_ok h → hp_slots h !! s = Some sl → sl_ownerReleased sl = true ↔ sl_retired sl = true ∧ unused h s.
Proof. intros Hok Hs. by rewrite (hk_released h Hok s sl Hs), andb_true_iff, Z.eqb_eq, (unused_leases h s sl Hok Hs). Qed.

(** With no goroutine left, a slot that let go is drained and an owner nobody holds is closed. *)
Lemma idle_drained h s sl :
  heap_ok h → hp_tasks h = [] → hp_slots h !! s = Some sl → sl_retired sl = true → unused h s → sl_drained sl = true.
Proof.
  intros Hok E Hs Hret Hnone. pose proof (hk_tasks h Hok s sl Hs) as Ht.
  rewrite (proj2 (released_unused h s sl Hok Hs) (conj Hret Hnone)), E in Ht. cbn in Ht. by destruct (sl_drained sl).
Qed.
Lemma idle_closed h o ow :
  heap_ok h → hp_tasks h = [] → hp_owners h !! o = Some ow →
  ow_closed ow = true ↔ ∀ s sl, hp_slots h !! s = Some sl → sl_owner sl = o → sl_retired sl = true ∧ unused h s.
Proof.
  intros Hok E Ho. pose proof (hk_close h Hok o ow Ho) as Hc. rewrite E in Hc. cbn in Hc.
  assert (Hcz : ow_closed ow = true ↔ ow_refs ow = 0) by (rewrite <-Z.eqb_eq; destruct (ow_closed ow), (ow_refs ow =? 0); done).
  rewrite Hcz. destruct (hk_refs h Hok o ow Ho) as (H & -> & Hin). split.
  - intros Hz s sl Hs Eo. apply (released_unused h s sl Hok Hs). destruct (sl_ownerReleased sl) eqn:Er; [done|exfalso].
    assert (Hs' : s ∈ H) by (apply Hin; exists sl; split_and!; [done..|by left]).
    assert (E0 : size H = O) by lia. apply size_empty_inv in E0. set_solver.
  - intros Hall. assert (E0 : H = ∅); [|by rewrite E0, size_empty]. apply set_eq. intros s. rewrite Hin. split; [|set_solver].
    intros (sl & Hs & Eo & [Hr|Hr]); [|rewrite E in Hr; by apply not_elem_of_nil in Hr].
    by rewrite (proj2 (released_unused h s sl Hok Hs) (Hall s sl Hs Eo)) in Hr.
Qed.

(** ** Properties *)

(** C23. A runtime in use is not closed, and closed once. At any point of any
    interleaving of calls and goroutines, while a lease has not been released the owner
    of its slot is counted, not closed, and no goroutine is about to close it; at most
    one goroutine ever closes an owner, and after it nothing closes it again. *)
Theorem leased_runtime_stays_open h :
  heap_reachable h →
  (∀ l s, hp_leases h !! l = Some (mkLease s false) →
     ∃ sl ow, hp_slots h !! s = Some sl ∧ hp_owners h !! sl_owner sl = Some ow ∧
       ow_closed ow = false ∧ TClose (sl_owner sl) ∉ hp_tasks h) ∧
  (∀ o, (close_tasks o (hp_tasks h) ≤ 1)%nat) ∧
  (∀ o h', owner_closed h o → rtc slot_step h h' → owner_closed h' o ∧ TClose o ∉ hp_tasks h').
Proof.
  intros Hr. pose proof (reachable_heap h Hr) as Hok.
  assert (Hzero : ∀ h o, close_tasks o (hp_tasks h) = O → TClose o ∉ hp_tasks h).
  { intros h0 o Hz Hin. unfold close_tasks in Hz. apply length_zero_iff_nil in Hz.
    assert (Hf : TClose o ∈ filter (λ t, t = TClose o) (hp_tasks h0)) by by apply list_elem_of_filter. rewrite Hz in Hf. set_solver. }
  split; [|split].
  - intros l s Hl. destruct (held_open h l s Hok Hl) as (sl & ow & Hs & Ho & _ & Hc & Hn). exists sl, ow. split_and!; [done..|]. by apply Hzero.
  - intros o. destruct (hp_owners h !! o) as [ow|] eqn:Ho; [|rewrite close_tasks_none by done; lia].
    pose proof (hk_close h Hok o ow Ho) as Hc. destruct (ow_closed ow), (ow_refs ow =? 0); cbn in Hc; lia.
  - intros o h' Hcl Hrun. assert (Hcl' : owner_closed h' o).
    { refine (rtc_ind_r (R := slot_step) (λ h', owner_closed h' o) h Hcl _ h' Hrun). intros h1 h2 _ Hs. by apply closed_stays. }
    split; [exact Hcl'|]. apply Hzero. destruct Hcl' as (ow & Ho & Hc).
    assert (Hr' : heap_reachable h') by (unfold heap_reachable; by transitivity h).
    pose proof (hk_close h' (reachable_heap h' Hr') o ow Ho) as Hn. rewrite Hc in Hn.
    destruct (ow_refs ow =? 0); cbn in Hn; lia.
Qed.

(** C26. Draining ends. Goroutines run at most three steps per pending task, and they
    never block each other for good: when no step is left, none of them waits, every
    retired slot without a lease still out has reported the end of its drain ([waitDrain]
    returns), and the owners that are closed are exactly those all of whose slots are
    retired and have no lease out. *)
Theorem retired_slots_drain h n h' :
  heap_reachable h → nsteps task_step n h h' →
  (n ≤ 3 * length (hp_tasks h))%nat ∧
  ((∀ h'', ¬ task_step h' h'') →
   hp_tasks h' = [] ∧
   (∀ s sl, hp_slots h' !! s = Some sl → sl_retired sl = true → unused h' s → waitDrain s false h' = Some (sl_drainErr sl)) ∧
   (∀ o ow, hp_owners h' !! o = Some ow →
      ow_closed ow = true ↔ ∀ s sl, hp_slots h' !! s = Some sl → sl_owner sl = o → sl_retired sl = true ∧ unused h' s)).
Proof.
  intros Hr Hn. destruct (tasks_bounded n h h' (reachable_heap h Hr) Hn) as [Hb Hok']. split.
  - assert (Hl : (load h ≤ 3 * length (hp_tasks h))%nat).
    { unfold load. induction (hp_tasks h) as [|t ts IH]; cbn; [lia|]. destruct t; cbn; lia. }
    lia.
  - intros Hstuck. pose proof (tasks_done h' Hok' Hstuck) as E. split_and!; [done| |by intros o ow; apply idle_closed].
    intros s sl Hs Hret Hnone. unfold waitDrain. by rewrite Hs, (idle_drained h' s sl).
Qed.

(** ** Witnesses *)
Definition demo_build (closeFn : option (option error)) : BuiltRuntime :=
  mkBuiltRuntime (Some 1%nat) (Some 2%nat) None "app" "snap" "" "" 0 None None closeFn.
Definition demo_config : runtimeSlotConfig :=
  mkSlotConfig (Some (demo_build (Some None))) None "p" "u" "s" "a1" 3 "model-a" "".
Definition demo_slot_heap : runtime_heap := (newRuntimeSlot demo_config empty_heap).1.
Definition demo_leased : runtime_heap := (acquire 0 demo_slot_heap).1.
Definition demo_retired : runtime_heap := beginDrain 0 demo_leased.
Definition demo_let_go : runtime_heap := Release 0 demo_retired.

Lemma demo_retired_reachable : heap_reachable demo_retired.
Proof.
  eapply rtc_l; [apply (ss_new demo_config)|]. eapply rtc_l; [apply (ss_acquire 0)|]. apply rtc_once, (ss_drain 0).
Qed.
Lemma demo_let_go_reachable : heap_reachable demo_let_go.
Proof. eapply rtc_r; [apply demo_retired_reachable | apply (ss_release 0)]. Qed.

(** The slot is being drained, but its lease is still out. *)
Lemma leased_runtime_stays_open_witness :
  hp_leases demo_retired !! 0%nat = Some (mkLease 0 false) ∧
  ∃ sl ow, hp_slots demo_retired !! 0%nat = Some sl ∧ hp_owners demo_retired !! sl_owner sl = Some ow ∧ ow_closed ow = false ∧
    TClose (sl_owner sl) ∉ hp_tasks demo_retired.
Proof.
  split; [vm_compute; reflexivity|].
  apply (proj1 (leased_runtime_stays_open demo_retired demo_retired_reachable) 0%nat 0%nat). vm_compute. reflexivity.
Defined.

Definition run_first (h : runtime_heap) : runtime_heap :=
  match hp_tasks h with
  | t :: ts => default h (run_task t (with_tasks ts h))
  | [] => h
  end.
Definition demo_released : runtime_heap := run_first demo_let_go.
Definition swap_tasks (h : runtime_heap) : runtime_heap :=
  match hp_tasks h with [a; b] => default h (run_task b (with_tasks [a] h)) | _ => h end.
Definition demo_closed : runtime_heap := swap_tasks demo_released.
Definition demo_drained : runtime_heap := run_first demo_closed.

Lemma demo_tasks_run : nsteps task_step 3 demo_let_go demo_drained.
Proof.
  eapply nsteps_l; [apply (ts_run [] (TRelease 0) []); vm_compute; reflexivity|].
  eapply nsteps_l; [apply (ts_run [TDrained 0 true] (TClose 0) []); vm_compute; reflexivity|].
  eapply nsteps_l; [apply (ts_run [] (TDrained 0 true) []); vm_compute; reflexivity|]. apply nsteps_O.
Qed.

Lemma demo_drained_stuck h : ¬ task_step demo_drained h.
Proof.
  intros Hstep. assert (E : hp_tasks demo_drained = []) by (vm_compute; reflexivity). revert E. generalize demo_drained as h0, Hstep.
  intros h0 [before t after h1 h2 Hts _] E. rewrite Hts in E. by destruct before.
Qed.

Definition demo_owner : runtimeOwner := mkOwner 0 (Some None) None true.

Lemma retired_slots_drain_witness :
  hp_tasks demo_let_go = [TRelease 0] ∧ waitDrain 0 false demo_drained = Some None ∧
  ∀ s sl, hp_slots demo_drained !! s = Some sl → sl_owner sl = 0%nat → sl_retired sl = true ∧ unused demo_drained s.
Proof.
  pose proof (proj2 (retired_slots_drain demo_let_go 3 demo_drained demo_let_go_reachable demo_tasks_run) demo_drained_stuck) as (_ & Hd & Hc).
  split; [vm_compute; reflexivity|]. split.
  - refine (Hd 0%nat (default (newRuntimeSlotWithOwner (slot_value demo_config) 0) (hp_slots demo_drained !! 0%nat)) _ _ _).
    + vm_compute. reflexivity.
    + vm_compute. reflexivity.
    + intros l. assert (E : hp_leases demo_drained = <[0%nat := mkLease 0 true]> ∅) by (vm_compute; reflexivity). rewrite E, lookup_insert.
      case_decide; [discriminate | by rewrite lookup_empty].
  - apply (Hc 0%nat demo_owner); vm_compute; reflexivity.
Defined.
