(* ===== verification/RuntimePublication.v ===== *)
(** * RuntimePublication: replacing the runtime of a session

    src/internal/apps/balda/session/runtime_publication.go with the runtime part of
    topic_session.go: the guarded durable commit of [RuntimeOperations] followed by the
    pointer swap over the slots of [RuntimeSlots].  A call runs under the operation
    lock of its session; [env] is what everybody else does before each of its steps,
    [fates] how each transaction ends. *)

From Stdlib Require Import ZArith Lia String.
From stdpp Require Import base numbers list gmap sets strings relations.
From S2P Require Import Prelude.
From S2P Require Import GoStrings.
From S2P Require Import RuntimeOperations.
From S2P Require Import RuntimeSlots.

Local Open Scope string_scope.
Local Open Scope list_scope.
Local Open Scope Z_scope.

(** ** Guards on values *)
Definition runtimeCandidateMatches (incumbent candidate : runtimeSlotValue) (intent : RuntimeOperationRecord) (outcome : string) : bool :=
  negb (ro_ExpectedGeneration intent =? max_u64) &&
  (sv_generation candidate =? u64 (ro_ExpectedGeneration intent + 1)) &&
  bool_decide (sv_archiveID candidate = text_or (ro_TargetArchiveID intent) (sv_archiveID incumbent)) &&
  bool_decide (br_RuntimeSnapshotID (sv_runtime candidate) =
               text_or (ro_TargetSnapshotID intent) (br_RuntimeSnapshotID (sv_runtime incumbent))) &&
  bool_decide (br_ProviderBindingJSON (sv_runtime candidate) =
               text_or (ro_TargetProviderBindingJSON intent) (br_ProviderBindingJSON (sv_runtime incumbent))) &&
  bool_decide (sv_effectiveModel candidate = text_or (ro_TargetModel intent) (sv_effectiveModel incumbent)) &&
  bool_decide (sv_outcome candidate = outcome).

Definition modelCandidateIdentityMatches (incumbent candidate : runtimeSlotValue) : bool :=
  sameIdentityObject (br_SessionSvc (sv_runtime candidate)) (br_SessionSvc (sv_runtime incumbent)) &&
  sameIdentityObject (as_object <$> sv_session candidate) (as_object <$> sv_session incumbent) &&
  bool_decide (sv_appName candidate = sv_appName incumbent) && bool_decide (sv_userID candidate = sv_userID incumbent) &&
  bool_decide (sv_sessionID candidate = sv_sessionID incumbent).

Definition samePublicationIntent (got want : RuntimeOperationRecord) : bool := sameRuntimeOperationIntent got want.

Definition isPublicationTerminal (operation intent : RuntimeOperationRecord) (outcome reason : string) : bool :=
  samePublicationIntent operation intent && bool_decide (ro_State operation = RuntimeOperationTerminal) &&
  bool_decide (ro_Outcome operation = outcome) && bool_decide (ro_ReasonCode operation = reason) &&
  bool_decide (is_Some (ro_TerminalAt operation)).

(** ** The world of one call *)
Record TopicSession := mkTopic { tp_runtime : option nat; tp_recoveryRequired : bool }.
Record pub_world := mkPubWorld {
  pw_heap : runtime_heap; pw_sessions : gmap string TopicSession; pw_tables : runtime_tables;
  pw_asked : list string; (* the operations a provider was asked to carry out *)
  pw_calls : nat }.

Definition set_heap (h : runtime_heap) (w : pub_world) : pub_world :=
  mkPubWorld h (pw_sessions w) (pw_tables w) (pw_asked w) (pw_calls w).
Definition set_topic (session : string) (t : TopicSession) (w : pub_world) : pub_world :=
  mkPubWorld (pw_heap w) (<[session := t]> (pw_sessions w)) (pw_tables w) (pw_asked w) (pw_calls w).
Definition set_tables (t : runtime_tables) (w : pub_world) : pub_world :=
  mkPubWorld (pw_heap w) (pw_sessions w) t (pw_asked w) (pw_calls w).

(** ** The topic *)
Definition slot_at (w : pub_world) (s : nat) : option runtimeSlotValue := sl_value <$> hp_slots (pw_heap w) !! s.

Definition guarded_by (expected : nat) (archiveID : string) (generation : Z) (t : TopicSession) (v : option runtimeSlotValue) : bool :=
  negb (tp_recoveryRequired t) && bool_decide (tp_runtime t = Some expected) &&
  match v with
  | Some v => bool_decide (sv_archiveID v = archiveID) && (sv_generation v =? generation)
  | None => false
  end.

Definition AcquireRuntime (session : string) (w : pub_world) : pub_world * result nat :=
  match pw_sessions w !! session with
  | None => (w, Err ErrRuntimeUnavailable)
  | Some t =>
      if tp_recoveryRequired t then (w, Err ErrRuntimeRecoveryRequired)
      else match tp_runtime t with
           | None => (w, Err ErrRuntimeUnavailable)
           | Some s => let '(h, r) := acquire s (pw_heap w) in (set_heap h w, r)
           end
  end.

(** ** Steps *)
Definition pub A : Type := pub_world → pub_world * A.
Global Instance pub_ret : MRet pub := λ A a w, (w, a).
Global Instance pub_bind : MBind pub := λ A B k m w, let '(w, a) := m w in k a w.

Definition pub_result : Type := RuntimeOperationRecord * bool * option error.
Definition no_operation : RuntimeOperationRecord :=
  mkRuntimeOperation "" "" "" "" "" "" 0 "" "" "" "" None "" "" 0 0 None.

Section publishing.
  Context `{BindingCodec}.
  Context (env : nat → pub_world → pub_world) (clock : nat → Z) (fates : nat → fate) (ctxErr : nat → option error).

(** One step: the others first, then this call. *)
Definition tick {A} (f : nat → pub_world → pub_world * A) : pub A := λ w,
  let n := pw_calls w in
  let w := env n w in
  let '(w, a) := f n (mkPubWorld (pw_heap w) (pw_sessions w) (pw_tables w) (pw_asked w) (S n)) in
  (w, a).

Definition on_tables {A} (f : nat → runtime_tables → runtime_tables * A) : pub A :=
  tick (λ n w, let '(t, a) := f n (pw_tables w) in (set_tables t w, a)).
Definition on_slot {A} (s : nat) (f : RuntimeSlot → RuntimeSlot * A) (missing : A) : pub A :=
  tick (λ _ w, match hp_slots (pw_heap w) !! s with
               | None => (w, missing)
               | Some sl => let '(sl, a) := f sl in (set_heap (set_slot s sl (pw_heap w)) w, a)
               end).
Definition on_heap (f : runtime_heap → runtime_heap) : pub unit := tick (λ _ w, (set_heap (f (pw_heap w)) w, tt)).

Definition op_Begin (intent : RuntimeOperationRecord) : pub (result RuntimeOperationRecord) :=
  on_tables (λ n, Ops_Begin (ctxErr n) (fates n) intent).
(** A read fails when its transaction would. *)
Definition op_Get (id : string) : pub (result (option RuntimeOperationRecord)) :=
  on_tables (λ n t, (t, match fates n with Fails err => Err (runtimeOperationError (ctxErr n) err) | _ => Ops_Get t id end)).
Definition op_MarkApplying (id hash : string) : pub (result unit) :=
  on_tables (λ n, Ops_MarkApplying (ctxErr n) (fates n) (clock n) id hash).
Definition op_Finalize (intent : RuntimeOperationRecord) (outcome reason : string) : pub (result RuntimeOperationRecord) :=
  on_tables (λ n, Ops_Finalize (ctxErr n) (fates n)
    (mkFinalization (ro_OperationID intent) (ro_InputHash intent) outcome reason (clock n))).

Definition fenceRuntimeRecovery (session : string) : pub unit :=
  tick (λ _ w, match pw_sessions w !! session with
               | None => (w, tt)
               | Some t => (set_topic session (mkTopic (tp_runtime t) true) w, tt)
               end).
Definition matchesRuntimeGuard (session : string) (expected : nat) (archiveID : string) (generation : Z) : pub bool :=
  tick (λ _ w, (w, match pw_sessions w !! session with
                   | None => false
                   | Some t => guarded_by expected archiveID generation t (slot_at w expected)
                   end)).
Definition swapRuntime (session : string) (expected successor : nat) (archiveID : string) (generation : Z) : pub bool :=
  tick (λ _ w, match pw_sessions w !! session with
               | None => (w, false)
               | Some t =>
                   if guarded_by expected archiveID generation t (slot_at w expected)
                   then (set_topic session (mkTopic (Some successor) (tp_recoveryRequired t)) w, true)
                   else (w, false)
               end).

(** [matchesCommittedRuntime], and its model variant. *)
Definition matchesCommitted (model : bool) (session : string) (incumbent : runtimeSlotValue) (intent : RuntimeOperationRecord)
    (outcome : string) : pub bool :=
  tick (λ _ w, (w, match pw_sessions w !! session with
                   | None => false
                   | Some t =>
                       negb (tp_recoveryRequired t) &&
                       match tp_runtime t ≫= slot_at w with
                       | None => false
                       | Some v => runtimeCandidateMatches incumbent v intent outcome &&
                                   (negb model || modelCandidateIdentityMatches incumbent v)
                       end
                   end)).

Definition claim (candidate : nat) : pub bool :=
  on_slot candidate (λ sl, match claimPublication sl with Some sl => (sl, true) | None => (sl, false) end) false.
Definition release_claim (candidate : nat) (published : bool) : pub unit :=
  on_slot candidate (λ sl, (releasePublicationClaim published sl, tt)) tt.

(** ** Failing *)
Definition failApplyingPublication (session : string) (candidate : nat) (operation : RuntimeOperationRecord) (claimed : bool) :
    pub pub_result :=
  _ ← fenceRuntimeRecovery session;
  _ ← (if claimed then release_claim candidate false else mret tt);
  _ ← on_heap (abortUnpublished candidate);
  mret (operation, false, Some ErrRuntimeRecoveryRequired).

Definition failPublication (session : string) (candidate : nat) (operation : RuntimeOperationRecord) (applying claimed : bool) :
    pub pub_result :=
  if applying then failApplyingPublication session candidate operation claimed
  else _ ← (if claimed then release_claim candidate false else mret tt);
       _ ← fenceRuntimeRecovery session;
       mret (operation, false, Some ErrRuntimeRecoveryRequired).

Definition publicationStoreError (session : string) (intent : RuntimeOperationRecord) (err : error) (beforeIntent : bool) : pub error :=
  if beforeIntent && errors_Is err ErrRuntimeOperationInvalid then mret ErrRuntimePublicationInvalid
  else
    conflict ← (if errors_Is err ErrRuntimeOperationConflict then
                  existing ← op_Get (ro_OperationID intent);
                  mret match existing with
                       | Ok (Some r) => bool_decide (ro_State r = RuntimeOperationTerminal)
                       | _ => false
                       end
                else mret false);
    if conflict : bool then mret ErrRuntimePublicationConflict
    else _ ← fenceRuntimeRecovery session;
         mret ErrRuntimeRecoveryRequired.

Definition store_failed (session : string) (intent : RuntimeOperationRecord) (err : error) (beforeIntent : bool) : pub pub_result :=
  e ← publicationStoreError session intent err beforeIntent;
  mret (no_operation, false, Some e).

(** Record the conflict that keeps the incumbent. *)
Definition conclude_conflict (session : string) (intent : RuntimeOperationRecord) : pub pub_result :=
  terminal ← op_Finalize intent RuntimeOperationOutcomeConflict RuntimeOperationReasonGuardConflict;
  match terminal with
  | Err err => store_failed session intent err false
  | Ok terminal =>
      if isPublicationTerminal terminal intent RuntimeOperationOutcomeConflict RuntimeOperationReasonGuardConflict
      then mret (terminal, false, Some ErrRuntimePublicationConflict)
      else _ ← fenceRuntimeRecovery session;
           mret (no_operation, false, Some ErrRuntimeRecoveryRequired)
  end.

Definition loadPublicationOperation (intent : RuntimeOperationRecord) (applying : bool) : pub (result RuntimeOperationRecord) :=
  if applying then
    found ← op_Get (ro_OperationID intent);
    mret match found with
         | Err err => Err err
         | Ok None => Err ErrRuntimeOperationConflict
         | Ok (Some r) => Ok r
         end
  else op_Begin intent.

(** ** Publishing *)
Section attempt.
  Context (incumbent candidate : nat) (iv cv : runtimeSlotValue) (intent : RuntimeOperationRecord) (outcome : string).
  Context (alreadyApplying : bool) (terminalReason : string).
  Notation session := (ro_SessionID intent).

(** The swap after the durable commit. *)
Definition adopt (terminal : RuntimeOperationRecord) : pub pub_result :=
  let promoted :=
    match br_PromoteBase (sv_runtime cv) with
    | Some result => if negb (sameIdentityObject (br_Agent (sv_runtime iv)) (br_Agent (sv_runtime cv))) then result else None
    | None => None
    end in
  match promoted with
  | Some _ => failPublication session candidate terminal alreadyApplying true
  | None =>
      swapped ← swapRuntime session incumbent candidate (ro_ExpectedArchiveID intent) (ro_ExpectedGeneration intent);
      if negb swapped then failPublication session candidate terminal alreadyApplying true
      else
        _ ← release_claim candidate true;
        _ ← on_heap (beginDrain incumbent);
        match br_CompleteBase (sv_runtime cv) with
        | Some (Some _) => _ ← fenceRuntimeRecovery session;
                           mret (terminal, true, Some ErrRuntimeRecoveryRequired)
        | _ => mret (terminal, true, None)
        end
  end.

(** After the candidate was claimed: the durable commit. *)
Definition commit_publication (operation : RuntimeOperationRecord) : pub pub_result :=
  marked ← (if alreadyApplying then mret (Ok tt) else op_MarkApplying (ro_OperationID intent) (ro_InputHash intent));
  match marked with
  | Err err => _ ← release_claim candidate false; store_failed session intent err false
  | Ok _ =>
      terminal ← op_Finalize intent outcome terminalReason;
      match terminal with
      | Ok terminal =>
          if isPublicationTerminal terminal intent outcome terminalReason then adopt terminal
          else failPublication session candidate terminal alreadyApplying true
      | Err err =>
          if errors_Is err ErrRuntimeOperationConflict then
            if alreadyApplying then failApplyingPublication session candidate operation true
            else _ ← release_claim candidate false; conclude_conflict session intent
          else if alreadyApplying then
            observed ← op_Get (ro_OperationID intent);
            match observed with
            | Ok (Some r) => if isPublicationTerminal r intent outcome terminalReason then adopt r
                             else failApplyingPublication session candidate operation true
            | _ => failApplyingPublication session candidate operation true
            end
          else _ ← release_claim candidate false; store_failed session intent err false
      end
  end.

(** A terminal record found at the start: a replay, a conflict, or a disagreement. *)
Definition settle_terminal (operation : RuntimeOperationRecord) : pub pub_result :=
  if isPublicationTerminal operation intent RuntimeOperationOutcomeConflict RuntimeOperationReasonGuardConflict then
    _ ← (if alreadyApplying then on_heap (abortUnpublished candidate) else mret tt);
    mret (operation, false, Some ErrRuntimePublicationConflict)
  else
    committed ← matchesCommitted alreadyApplying session iv intent outcome;
    if negb (isPublicationTerminal operation intent outcome terminalReason) || negb committed
    then failPublication session candidate operation alreadyApplying false
    else mret (operation, false, None).

(** The guards, then the claim, then the commit. *)
Definition publish_operation (operation : RuntimeOperationRecord) : pub pub_result :=
  if negb (samePublicationIntent operation intent) then failPublication session candidate operation alreadyApplying false
  else if bool_decide (ro_State operation = RuntimeOperationTerminal) then settle_terminal operation
  else if alreadyApplying && (negb (runtimeCandidateMatches iv cv intent outcome) || negb (modelCandidateIdentityMatches iv cv))
  then failApplyingPublication session candidate operation false
  else if negb (bool_decide (ro_State operation =
                  (if alreadyApplying then RuntimeOperationApplying else RuntimeOperationPrepared)))
  then failPublication session candidate operation alreadyApplying false
  else
    guard ← matchesRuntimeGuard session incumbent (ro_ExpectedArchiveID intent) (ro_ExpectedGeneration intent);
    claimed ← (if guard : bool then claim candidate else mret false);
    if claimed : bool then commit_publication operation
    else if alreadyApplying then failApplyingPublication session candidate operation false
    else conclude_conflict session intent.

Definition publishRuntimeStateLocked : pub pub_result :=
  topic ← tick (λ _ w, (w, pw_sessions w !! session));
  match topic with
  | None => if alreadyApplying
            then _ ← on_heap (abortUnpublished candidate); mret (no_operation, false, Some ErrRuntimeRecoveryRequired)
            else mret (no_operation, false, Some ErrRuntimePublicationConflict)
  | Some _ =>
      operation ← loadPublicationOperation intent alreadyApplying;
      match operation with
      | Err err => if alreadyApplying then failApplyingPublication session candidate no_operation false
                   else store_failed session intent err true
      | Ok operation => publish_operation operation
      end
  end.
End attempt.

(** The slots are there and their values never change. *)
Definition with_values (incumbent candidate : nat) (k : runtimeSlotValue → runtimeSlotValue → pub pub_result) : pub pub_result := λ w,
  match slot_at w incumbent, slot_at w candidate with
  | Some iv, Some cv => k iv cv w
  | _, _ => (w, (no_operation, false, Some ErrRuntimePublicationInvalid))
  end.

Definition publishRuntime (incumbent candidate : nat) (intent : RuntimeOperationRecord) (outcome : string) : pub pub_result :=
  with_values incumbent candidate (λ iv cv,
    if bool_decide (incumbent = candidate) || negb (bool_decide (ro_State intent = RuntimeOperationPrepared)) ||
       bool_decide (ro_SessionID intent = "") || negb (publishesRuntime outcome) ||
       negb (runtimeCandidateMatches iv cv intent outcome)
    then mret (no_operation, false, Some ErrRuntimePublicationInvalid)
    else publishRuntimeStateLocked incumbent candidate iv cv intent outcome false "").

Definition publishApplyingModelRuntime (incumbent candidate : nat) (intent : RuntimeOperationRecord) (outcome : string) : pub pub_result :=
  with_values incumbent candidate (λ iv cv,
    if negb (bool_decide (ro_State intent = RuntimeOperationApplying)) ||
       negb (bool_decide (ro_Kind intent = RuntimeOperationKindModel)) || bool_decide (ro_SessionID intent = "") ||
       negb (bool_decide (outcome = RuntimeOperationOutcomeContextPreserved))
    then mret (no_operation, false, Some ErrRuntimePublicationInvalid)
    else publishRuntimeStateLocked incumbent candidate iv cv intent outcome true "").
End publishing.

(** ** Reasoning about steps *)
Definition triple {A} (P : pub_world → Prop) (m : pub A) (Q : A → pub_world → Prop) : Prop :=
  ∀ w w' a, P w → m w = (w', a) → Q a w'.

Lemma triple_ret {A} (a : A) P Q : (∀ w, P w → Q a w) → triple P (mret a) Q.
Proof. intros HQ w w' a' HP [= <- <-]. by apply HQ. Qed.
Lemma triple_bind {A B} P (m : pub A) R (k : A → pub B) Q : triple P m R → (∀ a, triple (R a) (k a) Q) → triple P (m ≫= k) Q.
Proof.
  intros Hm Hk w w' b HP E. unfold mbind, pub_bind in E. destruct (m w) as [w1 a] eqn:Em. exact (Hk a w1 w' b (Hm w w1 a HP Em) E).
Qed.
Lemma run_triple {A} (P : pub_world → Prop) (m : pub A) (Q : A → pub_world → Prop) w w' a :
  P w → m w = (w', a) → triple P m Q → Q a w'.
Proof. intros Hw E Hm. exact (Hm w w' a Hw E). Qed.
Lemma triple_conseq {A} P P' (m : pub A) (Q Q' : A → pub_world → Prop) :
  triple P m Q → (∀ w, P' w → P w) → (∀ a w, Q a w → Q' a w) → triple P' m Q'.
Proof. intros Hm HP HQ w w' a Hw E. apply HQ. exact (Hm w w' a (HP w Hw) E). Qed.

(** How often a provider was asked to carry out an operation. *)
Definition asked (id : string) (w : pub_world) : nat := length (filter (λ o, o = id) (pw_asked w)).

(** What the owner of a session's operation lock relies on: nobody else touches the
    session's topic, its row or this operation, and slot values never change. *)
Record quiet (session id : string) (w w' : pub_world) : Prop := {
  qt_topic : pw_sessions w' !! session = pw_sessions w !! session;
  qt_row : rt_sessions (pw_tables w') !! session = rt_sessions (pw_tables w) !! session;
  qt_operation : rt_operations (pw_tables w') !! id = rt_operations (pw_tables w) !! id;
  qt_values : ∀ s v, slot_at w s = Some v → slot_at w' s = Some v;
  qt_asked : asked id w' = asked id w }.

(** The driver's own errors are not the store's sentinels. *)
Definition driver_error (e : error) : Prop :=
  errors_Is e ErrRuntimeOperationConflict = false ∧ errors_Is e ErrRuntimeOperationInvalid = false.
Definition driver_fate (ft : fate) : Prop :=
  match ft with Commits => True | Fails e | CommitsUnreported e => driver_error e end.

(** The durable row and the runtime in memory say the same. *)
Definition row_agrees (row : session_row) (v : runtimeSlotValue) : Prop :=
  sm_ArchiveID row = sv_archiveID v ∧ sm_RuntimeGeneration row = sv_generation v ∧
  sm_RuntimeSnapshotID row = br_RuntimeSnapshotID (sv_runtime v) ∧
  sm_ProviderBindingJSON row = br_ProviderBindingJSON (sv_runtime v) ∧
  sm_EffectiveModel row = sv_effectiveModel v ∧ sm_RuntimeOutcome row = sv_outcome v.
Definition agrees (session : string) (w : pub_world) : Prop :=
  ∀ t s, pw_sessions w !! session = Some t → tp_recoveryRequired t = false → tp_runtime t = Some s →
    ∃ v row, slot_at w s = Some v ∧ rt_sessions (pw_tables w) !! session = Some row ∧ row_agrees row v.

(** The target of an operation: what a publication reads of it. *)
Definition same_target (a b : RuntimeOperationRecord) : Prop :=
  ro_SessionID a = ro_SessionID b ∧ ro_Kind a = ro_Kind b ∧ ro_ExpectedArchiveID a = ro_ExpectedArchiveID b ∧
  ro_ExpectedGeneration a = ro_ExpectedGeneration b ∧ ro_TargetArchiveID a = ro_TargetArchiveID b ∧
  ro_TargetSnapshotID a = ro_TargetSnapshotID b ∧ ro_TargetProviderBindingJSON a = ro_TargetProviderBindingJSON b ∧
  ro_TargetModel a = ro_TargetModel b.

Section store.
  Context `{BindingCodec}.

Lemma read_row_target q r : read_row q = Ok r → same_target q r ∧ ro_State r = ro_State q ∧ ro_InputHash r = ro_InputHash q.
Proof.
  unfold read_row. destruct (prepareRuntimeOperationRecord q) as [p|] eqn:Hp; [|discriminate].
  intros ([] & Hb & E)%bind_Ok. apply Ok_inj in E as <-. apply reject_if_Ok in Hb. rewrite !orb_false_iff in Hb.
  destruct Hb as [[[[_ Hb] _] _] _]. apply negb_false_iff, bool_decide_eq_true in Hb.
  destruct (prepare_record_Ok _ _ Hp) as (requested & binding & _ & E). subst p. cbn in Hb. unfold same_target. cbn. by split_and!.
Qed.

Lemma get_target t id r :
  get_operation t id = Ok (Some r) →
  ∃ q, rt_operations t !! id = Some q ∧ same_target q r ∧ ro_State r = ro_State q ∧ ro_InputHash r = ro_InputHash q.
Proof.
  unfold get_operation. destruct (rt_operations t !! id) as [q|]; cbn; [|discriminate]. intros (r' & Hr & E)%bind_Ok.
  injection E as ->. exists q. split; [done | by apply read_row_target].
Qed.

Lemma same_target_trans a b c : same_target a b → same_target b c → same_target a c.
Proof. unfold same_target. intuition congruence. Qed.
Lemma same_target_sym a b : same_target a b → same_target b a.
Proof. unfold same_target. intuition congruence. Qed.
Lemma same_intent_target a b : sameRuntimeOperationIntent a b = true → same_target a b.
Proof. unfold sameRuntimeOperationIntent, same_target. rewrite !andb_true_iff, !bool_decide_eq_true, Z.eqb_eq. tauto. Qed.

(** The columns the runtime in memory mirrors. *)
Definition columns (row : session_row) : string * Z * string * string * string * string :=
  (sm_ArchiveID row, sm_RuntimeGeneration row, sm_RuntimeSnapshotID row, sm_ProviderBindingJSON row,
   sm_EffectiveModel row, sm_RuntimeOutcome row).

Lemma published_columns a b outcome row :
  same_target a b → columns (published_row a outcome row) = columns (published_row b outcome row).
Proof.
  intros (E1 & E2 & E3 & E4 & E5 & E6 & E7 & E8). unfold columns, published_row, sets_preference. cbn. by rewrite E2, E5, E6, E7, E8.
Qed.

Lemma runtime_error_driver ctxErr err :
  driver_error err → (∀ e, ctxErr = Some e → driver_error e) → driver_error (runtimeOperationError ctxErr err).
Proof.
  intros [H1 H2] Hctx. unfold runtimeOperationError. destruct ctxErr as [e|]; [by apply Hctx|]. rewrite H1, H2. by split.
Qed.

(** The transaction of a publication, when it commits. *)
Lemma publishing_body final t t1 a q row :
  publishesRuntime (fz_Outcome final) = true → rt_operations t !! fz_OperationID final = Some q →
  ro_State q = RuntimeOperationApplying → rt_sessions t !! ro_SessionID q = Some row → at_expected q row = true →
  finalize_body final t = Ok (t1, a) →
  (∃ row', rt_sessions t1 !! ro_SessionID q = Some row' ∧ columns row' = columns (published_row q (fz_Outcome final) row)) ∧
  rt_operations t1 !! fz_OperationID final = Some (finished final q) ∧ ro_TerminalAt a = Some (fz_At final) ∧
  same_target q a.
Proof.
  intros Hpub Hq Hst Hrow Hexp (found & Hg & Hb)%bind_Ok. destruct found as [rec|]; [|discriminate].
  destruct (get_target _ _ _ Hg) as (q' & Hq' & Htg & Hs & _). rewrite Hq in Hq'. injection Hq' as <-.
  apply bind_Ok in Hb as (_ & _ & Hb). rewrite Hs, Hst, bool_decide_false in Hb by done.
  apply bind_Ok in Hb as (_ & _ & Hb). apply bind_Ok in Hb as (_ & _ & Hb). rewrite Hpub in Hb.
  apply bind_Ok in Hb as (t2 & Hp & Hb). injection Hb as <- <-. apply publish_session_Ok in Hp as (Hops & row0 & H0 & Hcase).
  pose proof Htg as (E1 & E2 & E3 & E4 & E5 & E6 & E7 & E8). rewrite <-E1, Hrow in H0. injection H0 as <-.
  assert (Eexp : at_expected rec row = at_expected q row) by (unfold at_expected; by rewrite E3, E4).
  rewrite Eexp, Hexp in Hcase. destruct Hcase as [(_ & Hrows)|(? & _)]; [|done]. split; [|split; [|split; [done|]]].
  - eexists. cbn. rewrite Hrows, <-E1, lookup_insert_eq. split; [done|]. by apply published_columns, same_target_sym.
  - cbn. rewrite Hops, lookup_alter, decide_True by done. by rewrite Hq.
  - unfold same_target. cbn. by split_and!.
Qed.

(** A publication of an operation being applied: it moved the row, or nothing changed. *)
Lemma finalize_publishing ctxErr ft final t t' r q row :
  driver_fate ft → (∀ e, ctxErr = Some e → driver_error e) → publishesRuntime (fz_Outcome final) = true →
  rt_operations t !! fz_OperationID final = Some q → ro_State q = RuntimeOperationApplying →
  rt_sessions t !! ro_SessionID q = Some row → at_expected q row = true →
  Ops_Finalize ctxErr ft final t = (t', r) →
  (t' = t ∧ is_ok r = false) ∨
  ((∃ row', rt_sessions t' !! ro_SessionID q = Some row' ∧ columns row' = columns (published_row q (fz_Outcome final) row)) ∧
   match r with Ok _ => True | Err e => driver_error e end).
Proof.
  intros Hft Hctx Hpub Hq Hst Hrow Hexp Hrun. unfold Ops_Finalize in Hrun.
  destruct (_ || _ || _ || _ || _); [injection Hrun as <- <-; by left|].
  set (final' := mkFinalization _ _ _ _ _) in Hrun. unfold transaction in Hrun.
  destruct ft as [|err|err]; cbn in Hft; [| injection Hrun as <- <-; by left |];
    destruct (finalize_body final' t) as [[t1 a]|e] eqn:Hb; injection Hrun as <- <-; try (by left); right;
    destruct (publishing_body final' t t1 a q row Hpub Hq Hst Hrow Hexp Hb) as (Hr & _); (split; [exact Hr|]); [done|].
  by apply runtime_error_driver.
Qed.

Lemma finalize_other ctxErr ft final t t' r :
  publishesRuntime (fz_Outcome final) = false → Ops_Finalize ctxErr ft final t = (t', r) → rt_sessions t' = rt_sessions t.
Proof.
  intros Hpub Hrun. unfold Ops_Finalize in Hrun. destruct (_ || _ || _ || _ || _); [by injection Hrun as <- _|].
  destruct (transaction_run _ _ _ _ _ _ Hrun) as [->|[a Hb]]; [done|]. apply bind_Ok in Hb as (found & _ & Hb).
  destruct found as [rec|]; [|discriminate]. apply bind_Ok in Hb as (_ & _ & Hb). case_bool_decide.
  { apply bind_Ok in Hb as (_ & _ & Hb). by injection Hb as <- _. }
  apply bind_Ok in Hb as (_ & _ & Hb). apply bind_Ok in Hb as (_ & _ & Hb). cbn [fz_Outcome] in Hb. rewrite Hpub in Hb.
  apply bind_Ok in Hb as (t2 & Hp & Hb). injection Hb as <- _. by apply Ok_inj in Hp as <-.
Qed.

Lemma begin_run ctxErr ft intent t t' r :
  Ops_Begin ctxErr ft intent t = (t', r) →
  rt_sessions t' = rt_sessions t ∧
  (∀ op, r = Ok op → ∃ q, rt_operations t' !! ro_OperationID intent = Some q ∧ same_target q op ∧ ro_State op = ro_State q).
Proof.
  intros Hrun. unfold Ops_Begin in Hrun. destruct (_ || _ || _ || _ || _ || _); [injection Hrun as <- <-; by split|].
  destruct (prepareRuntimeOperationRecord _) as [intent'|] eqn:Hp; [|injection Hrun as <- <-; by split].
  destruct (prepare_record_Ok _ _ Hp) as (requested & binding & _ & ->). set (intent' := with_prepared _ _ _) in *.
  assert (Hb : ∀ t1 op, begin_body intent' t = Ok (t1, op) → rt_sessions t1 = rt_sessions t ∧
    ∃ q, rt_operations t1 !! ro_OperationID intent = Some q ∧ same_target q op ∧ ro_State op = ro_State q).
  { intros t1 op (existing & Hg & Hb)%bind_Ok. destruct existing as [e|].
    - apply bind_Ok in Hb as (_ & _ & Hb). injection Hb as <- <-. destruct (get_target _ _ _ Hg) as (q & Hq & Htg & Hs & _). split; [done|].
      by exists q.
    - apply bind_Ok in Hb as (? & _ & Hb). apply bind_Ok in Hb as (_ & _ & Hb). injection Hb as <- <-. split; [done|].
      exists intent'. split; [cbn; by rewrite lookup_insert_eq|]. by split. }
  unfold transaction in Hrun. destruct ft as [|err|err]; [| injection Hrun as <- <-; by split |];
    destruct (begin_body intent' t) as [[t1 op]|e]; injection Hrun as <- <-; try (by split);
    destruct (Hb t1 op eq_refl) as [Hs Hq]; (split; [exact Hs|]); [intros op' [= <-]; exact Hq | done].
Qed.

Lemma mark_run ctxErr ft now id hash t t' r :
  Ops_MarkApplying ctxErr ft now id hash t = (t', r) →
  rt_sessions t' = rt_sessions t ∧
  (∀ q, r = Ok tt → rt_operations t !! id = Some q →
    ∃ q', rt_operations t' !! id = Some q' ∧ same_target q q' ∧ ro_State q' = RuntimeOperationApplying).
Proof.
  intros Hrun. unfold Ops_MarkApplying in Hrun. destruct (_ || _); [injection Hrun as <- <-; by split|].
  assert (Hb : ∀ t1 u, mark_body id hash now t = Ok (t1, u) → rt_sessions t1 = rt_sessions t ∧
    ∀ q, rt_operations t !! id = Some q →
      ∃ q', rt_operations t1 !! id = Some q' ∧ same_target q q' ∧ ro_State q' = RuntimeOperationApplying).
  { intros t1 u (found & Hg & Hb)%bind_Ok. destruct found as [rec|]; [|discriminate]. apply bind_Ok in Hb as (_ & _ & Hb).
    destruct (get_target _ _ _ Hg) as (q0 & Hq0 & Htg & Hs & _). case_bool_decide as Ha.
    - injection Hb as <- _. split; [done|]. intros q Hq. exists q. split; [done|]. split; [by split_and!|]. congruence.
    - apply bind_Ok in Hb as (_ & _ & Hb). injection Hb as <- _. split; [done|]. intros q Hq. eexists. cbn.
      rewrite lookup_alter, decide_True, Hq by done. split; [done|]. by split; [split_and!|]. }
  unfold transaction in Hrun. destruct ft as [|err|err]; [| injection Hrun as <- <-; by split |];
    destruct (mark_body id hash now t) as [[t1 u]|e]; injection Hrun as <- <-; try (by split);
    destruct (Hb t1 u eq_refl) as [Hs Hq]; (split; [exact Hs|]); [intros q _; exact (Hq q) | done].
Qed.
End store.

(** Heap calls keep the values of slots. *)
Lemma settle_values s sl n retired h s0 :
  hp_slots h !! s = Some sl → sl_value <$> hp_slots (settle s sl n retired h) !! s0 = sl_value <$> hp_slots h !! s0.
Proof.
  intros Hs. unfold settle. assert (E : ∀ b, sl_value <$> (<[s := with_leases sl n retired b]> (hp_slots h)) !! s0 = sl_value <$> hp_slots h !! s0).
  { intros b. rewrite lookup_insert. case_decide as E; [subst s0; by rewrite Hs | done]. }
  destruct (_ && _ && _); cbn; apply E.
Qed.
Lemma drain_values s h s0 : sl_value <$> hp_slots (beginDrain s h) !! s0 = sl_value <$> hp_slots h !! s0.
Proof. unfold beginDrain. destruct (hp_slots h !! s) eqn:Hs; [by apply settle_values | done]. Qed.
Lemma abort_values s h s0 : sl_value <$> hp_slots (abortUnpublished s h) !! s0 = sl_value <$> hp_slots h !! s0.
Proof. unfold abortUnpublished. destruct (hp_slots h !! s) eqn:Hs; [|done]. destruct (_ || _); [done | by apply settle_values]. Qed.

(** ** Steps of the owner of a session *)
Section steps.
  Context `{BindingCodec}.
  Context (env : nat → pub_world → pub_world) (fates : nat → fate) (ctxErr : nat → option error).
  Context (session id : string) (Hquiet : ∀ n w, quiet session id w (env n w)) (w0 : pub_world).

(** All of the world a call on the session looks at; [w0] is an earlier one. *)
Record here (t : TopicSession) (row : option session_row) (oq : option RuntimeOperationRecord) (w : pub_world) : Prop := {
  here_topic : pw_sessions w !! session = Some t;
  here_row : rt_sessions (pw_tables w) !! session = row;
  here_operation : rt_operations (pw_tables w) !! id = oq;
  here_values : ∀ s v, slot_at w0 s = Some v → slot_at w s = Some v;
  here_asked : asked id w = asked id w0 }.

Lemma tick_spec {A} t row oq (f : nat → pub_world → pub_world * A) Q :
  (∀ n w w' a, here t row oq w → f n w = (w', a) → Q a w') → triple (here t row oq) (tick env f) Q.
Proof.
  intros Hf w w' a Hw E. unfold tick in E. destruct (Hquiet (pw_calls w) w) as [Q1 Q2 Q3 Q4 Q5].
  destruct (f (pw_calls w) _) as [w1 a1] eqn:Ef. injection E as <- <-. refine (Hf _ _ _ _ _ Ef).
  destruct Hw as [H1 H2 H3 H6 H7]. split; cbn; rewrite ?Q1, ?Q2, ?Q3; try done.
  - intros s v Hv. by apply Q4, H6.
  - unfold asked in *. cbn. congruence.
Qed.

Lemma tables_spec {A} t row oq (f : nat → runtime_tables → runtime_tables * A) Q :
  (∀ n tb tb' a, rt_sessions tb !! session = row → rt_operations tb !! id = oq → f n tb = (tb', a) →
     ∃ row' oq', rt_sessions tb' !! session = row' ∧ rt_operations tb' !! id = oq' ∧ (∀ w, here t row' oq' w → Q a w)) →
  triple (here t row oq) (on_tables env f) Q.
Proof.
  intros Hf. apply tick_spec. intros n w w' a [H1 H2 H3 H6 H7] E. destruct (f n (pw_tables w)) as [tb' a'] eqn:Ef. injection E as <- <-.
  destruct (Hf n _ _ _ H2 H3 Ef) as (row' & oq' & R & O & HQ). apply HQ. by split.
Qed.

Lemma slot_spec {A} t row oq s (f : RuntimeSlot → RuntimeSlot * A) missing :
  (∀ sl, sl_value (f sl).1 = sl_value sl) → triple (here t row oq) (on_slot env s f missing) (λ _, here t row oq).
Proof.
  intros Hf. apply tick_spec. intros n w w' a [H1 H2 H3 H6 H7] E. destruct (hp_slots (pw_heap w) !! s) as [sl|] eqn:Hs; [|injection E as <- _; by split].
  specialize (Hf sl). destruct (f sl) as [sl' a'] eqn:Ef. injection E as <- _.
  assert (Hv : ∀ s0, slot_at (set_heap (set_slot s sl' (pw_heap w)) w) s0 = slot_at w s0).
  { intros s0. unfold slot_at. cbn. rewrite lookup_insert. case_decide as E; [|done]. subst s0. rewrite Hs. cbn in *. by rewrite Hf. }
  split; try done. intros s0 v0 H0. rewrite Hv. by apply H6.
Qed.

Lemma heap_spec t row oq (f : runtime_heap → runtime_heap) :
  (∀ h s, sl_value <$> hp_slots (f h) !! s = sl_value <$> hp_slots h !! s) →
  triple (here t row oq) (on_heap env f) (λ _, here t row oq).
Proof.
  intros Hf. apply tick_spec. intros n w w' a [H1 H2 H3 H6 H7] [= <- _]. split; try done. intros s v Hv. unfold slot_at. cbn. rewrite Hf. by apply H6.
Qed.

Lemma fence_spec t row oq :
  triple (here t row oq) (fenceRuntimeRecovery env session) (λ _, here (mkTopic (tp_runtime t) true) row oq).
Proof.
  apply tick_spec. intros n w w' a Hw E. destruct Hw as [H1 H2 H3 H6 H7]. rewrite H1 in E. injection E as <- _.
  split; try done. cbn. by rewrite lookup_insert_eq.
Qed.

Lemma op_spec {A} t row (F : option RuntimeOperationRecord → Prop) (m : pub A) Q :
  (∀ oq, F oq → triple (here t row oq) m Q) → triple (λ w, ∃ oq, F oq ∧ here t row oq w) m Q.
Proof. intros Hm w w' a (oq & HF & Hw) E. exact (Hm oq HF w w' a Hw E). Qed.

Lemma get_spec t row oq :
  triple (here t row oq) (op_Get env fates ctxErr id) (λ r w, here t row oq w ∧
    ∀ op, r = Ok (Some op) → ∃ q, oq = Some q ∧ same_target q op ∧ ro_State op = ro_State q).
Proof.
  apply tables_spec. intros n tb tb' a H1 H2 E. injection E as <- <-. exists row, oq. split_and!; try done. intros w Hw. split; [exact Hw|].
  intros op Hop. assert (Hg : get_operation tb id = Ok (Some op)).
  { destruct (fates n); [|discriminate|]; unfold Ops_Get in Hop; by apply bind_Ok in Hop as (_ & _ & Hop). }
  destruct (get_target _ _ _ Hg) as (q & Hq & Htg & Hs & _). exists q. split_and!; [congruence | done | done].
Qed.
End steps.

(** ** One publication *)
Section publication.
  Context `{BindingCodec}.
  Context (env : nat → pub_world → pub_world) (clock : nat → Z) (fates : nat → fate) (ctxErr : nat → option error).
  Context (incumbent candidate : nat) (iv cv : runtimeSlotValue) (intent : RuntimeOperationRecord) (outcome : string).
  Context (applying_ : bool).
  Notation session := (ro_SessionID intent).
  Notation id := (ro_OperationID intent).
  Context (Hquiet : ∀ n w, quiet session id w (env n w)).
  Context (Hfates : ∀ n, driver_fate (fates n)).
  Context (Hctx : ∀ n e, ctxErr n = Some e → driver_error e).
  Context (w0 : pub_world) (Hincumbent : slot_at w0 incumbent = Some iv).

  Notation at_ := (here session id w0).
  Notation triple_tick := (tick_spec env session id Hquiet w0).
  Notation triple_tables := (tables_spec env session id Hquiet w0).
  Notation triple_slot := (slot_spec env session id Hquiet w0).
  Notation triple_heap := (heap_spec env session id Hquiet w0).
  Notation triple_fence := (fence_spec env session id Hquiet w0).
  Notation triple_get := (get_spec env fates ctxErr session id Hquiet w0).
  Notation triple_op := (op_spec session id w0).

Lemma triple_claim t row oq : triple (at_ t row oq) (claim env candidate) (λ _, at_ t row oq).
Proof.
  apply triple_slot. intros sl. destruct (claimPublication sl) as [sl'|] eqn:E; [|done]. unfold claimPublication in E.
  destruct (_ || _); [discriminate|]. by injection E as <-.
Qed.
Lemma triple_release t row oq b : triple (at_ t row oq) (release_claim env candidate b) (λ _, at_ t row oq).
Proof. apply triple_slot. intros sl. cbn. unfold releasePublicationClaim. by destruct (sl_publicationClaimed sl). Qed.

(** *** Where a publication may end *)

(** With [strict], a call that does not publish has fenced the session. *)
Context (strict : Prop).

(** The runtime in place is what the publication would have made it. *)
Definition committed (t : TopicSession) (w : pub_world) : Prop :=
  tp_recoveryRequired t = false ∧
  ∃ s v, tp_runtime t = Some s ∧ slot_at w s = Some v ∧ runtimeCandidateMatches iv v intent outcome = true.
Definition unpublished (t0 : TopicSession) (row0 : option session_row) (r : pub_result) (w : pub_world) : Prop :=
  r.1.2 = false ∧ ∃ t row oq, at_ t row oq w ∧ tp_runtime t = tp_runtime t0 ∧
    ((tp_recoveryRequired t = true ∧ r.2 ≠ None) ∨
     (¬ strict ∧ t = t0 ∧ row = row0 ∧ (r.2 = None → committed t0 w))).
Definition published (r : pub_result) (w : pub_world) : Prop :=
  r.1.2 = true ∧ ∃ t row oq, at_ t (Some row) oq w ∧ tp_runtime t = Some candidate ∧ row_agrees row cv ∧
    (if r.2 then tp_recoveryRequired t = true else tp_recoveryRequired t = false).

Lemma ret_fenced rt row oq t0 row0 operation e :
  rt = tp_runtime t0 → triple (at_ (mkTopic rt true) row oq) (mret (operation, false, Some e)) (unpublished t0 row0).
Proof. intros ->. apply triple_ret. intros w Hw. split; [done|]. eexists _, _, _. split; [exact Hw|]. split; [done|]. by left. Qed.
Lemma ret_same t0 row0 oq operation e :
  ¬ strict → triple (at_ t0 row0 oq) (mret (operation, false, Some e)) (unpublished t0 row0).
Proof. intros Hs. apply triple_ret. intros w Hw. split; [done|]. exists t0, row0, oq. split; [exact Hw|]. split; [done|]. by right. Qed.

Lemma fence_out t row oq t0 row0 operation e :
  tp_runtime t = tp_runtime t0 →
  triple (at_ t row oq) (_ ← fenceRuntimeRecovery env session; mret (operation, false, Some e)) (unpublished t0 row0).
Proof. intros Ht. eapply triple_bind; [apply triple_fence|]. intros ?; cbv beta. by apply ret_fenced. Qed.

Lemma fail_applying t row oq t0 row0 operation claimed :
  tp_runtime t = tp_runtime t0 →
  triple (at_ t row oq) (failApplyingPublication env session candidate operation claimed) (unpublished t0 row0).
Proof.
  intros Ht. unfold failApplyingPublication. eapply triple_bind; [apply triple_fence|]. intros ?; cbv beta.
  eapply (triple_bind _ _ (λ _, at_ (mkTopic (tp_runtime t) true) row oq)).
  { destruct claimed; [apply triple_release | by apply triple_ret]. }
  intros ?; cbv beta. eapply triple_bind; [apply triple_heap; intros; apply abort_values|]. intros ?; cbv beta. by apply ret_fenced.
Qed.

Lemma fail_publication t row oq t0 row0 operation app claimed :
  tp_runtime t = tp_runtime t0 →
  triple (at_ t row oq) (failPublication env session candidate operation app claimed) (unpublished t0 row0).
Proof.
  intros Ht. unfold failPublication. destruct app; [by apply fail_applying|].
  eapply (triple_bind _ _ (λ _, at_ t row oq)).
  { destruct claimed; [apply triple_release | by apply triple_ret]. }
  intros ?; cbv beta. by apply fence_out.
Qed.

(** A store failure leaves the incumbent: fenced, or with the row as it was. *)
Lemma store_fails t row oq t0 row0 err before :
  ¬ strict → tp_runtime t = tp_runtime t0 → (row = row0 ∧ t = t0) ∨ (driver_error err ∧ before = false) →
  triple (at_ t row oq) (store_failed env fates ctxErr session intent err before) (unpublished t0 row0).
Proof.
  intros Hstrict Ht Hcase. unfold store_failed, publicationStoreError. destruct (before && errors_Is err ErrRuntimeOperationInvalid) eqn:Hinv.
  - assert (Hs : row = row0 ∧ t = t0) by (destruct Hcase as [?|[_ ->]]; done). destruct Hs as [-> ->].
    eapply (triple_bind _ _ (λ _, at_ t0 row0 oq)); [by apply triple_ret|]. intros e. by apply ret_same.
  - eapply (triple_bind _ _ (unpublished t0 row0 ∘ (λ e, (no_operation, false, Some e)))); [|intros e; by apply triple_ret].
    eapply (triple_bind _ _ (λ c w, at_ t row oq w ∧ (c = true → row = row0 ∧ t = t0))).
    + destruct (errors_Is err ErrRuntimeOperationConflict) eqn:Hc; [|by apply triple_ret].
      eapply triple_bind; [apply triple_get|]. intros existing. apply triple_ret. intros w [Hw _]. split; [exact Hw|]. intros _.
      destruct Hcase as [?|[[Hd _] _]]; congruence.
    + intros c w w' e [Hw Hs] E. destruct c.
      * destruct (Hs eq_refl) as [-> ->]. injection E as <- <-. exact (ret_same _ _ _ _ _ Hstrict w w _ Hw eq_refl).
      * destruct (fenceRuntimeRecovery env session w) as [w1 []] eqn:Ef. pose proof (triple_fence t row oq w w1 tt Hw Ef) as Hw1.
        unfold mbind, pub_bind in E. rewrite Ef in E. injection E as <- <-. exact (ret_fenced _ _ _ _ _ _ _ Ht w1 w1 _ Hw1 eq_refl).
Qed.

Lemma concludes t0 row0 oq :
  ¬ strict → triple (at_ t0 row0 oq) (conclude_conflict env clock fates ctxErr session intent) (unpublished t0 row0).
Proof.
  intros Hstrict. unfold conclude_conflict. eapply (triple_bind _ _ (λ _ w, ∃ oq', True ∧ at_ t0 row0 oq' w)).
  { apply triple_tables. intros n tb tb' a H1 H2 E. apply finalize_other in E; [|done].
    eexists _, _. split_and!; [by rewrite E | done |]. intros w Hw. by eexists. }
  intros terminal. apply triple_op. intros oq' _.
  destruct terminal as [terminal|err]; [|apply store_fails; [done | done | by left]]. destruct (isPublicationTerminal _ _ _ _).
  - by apply ret_same.
  - by apply fence_out.
Qed.

Definition ended (t0 : TopicSession) (row0 : option session_row) (r : pub_result) (w : pub_world) : Prop :=
  unpublished t0 row0 r w ∨ published r w.
Lemma to_unpublished P (m : pub pub_result) t0 row0 : triple P m (unpublished t0 row0) → triple P m (ended t0 row0).
Proof. intros Hm. eapply triple_conseq; [exact Hm | done |]. intros a w Hu. by left. Qed.

Context (reason : string) (Hstrict : strict → applying_ = true).

Lemma adopts (app : bool) t row oq t0 row0 terminal :
  tp_runtime t = tp_runtime t0 → row_agrees row cv →
  triple (at_ t (Some row) oq) (adopt env incumbent candidate iv cv intent app terminal) (ended t0 row0).
Proof.
  intros Ht Hrow. unfold adopt. destruct (match br_PromoteBase _ with Some _ => _ | None => _ end).
  { apply to_unpublished, fail_publication, Ht. }
  eapply (triple_bind _ _ (λ b : bool, if b then at_ (mkTopic (Some candidate) false) (Some row) oq else at_ t (Some row) oq)).
  { apply triple_tick. intros n w w' a Hw E. pose proof Hw as [H1 H2 H3 H6 H7]. pose proof (H6 _ _ Hincumbent) as H4. rewrite H1, H4 in E.
    destruct (guarded_by _ _ _ _ _) eqn:Hg; injection E as <- <-; [|exact Hw]. unfold guarded_by in Hg.
    rewrite !andb_true_iff in Hg. destruct Hg as [[Hg _] _]. apply negb_true_iff in Hg. rewrite Hg. split; try done.
    cbn. by rewrite lookup_insert_eq. }
  intros swapped. destruct swapped; cbn [negb]; cbv beta iota; [|apply to_unpublished, fail_publication, Ht].
  eapply triple_bind; [apply triple_release|]. intros ?; cbv beta.
  eapply triple_bind; [apply triple_heap; intros; apply drain_values|]. intros ?; cbv beta.
  destruct (br_CompleteBase (sv_runtime cv)) as [[e|]|].
  - eapply triple_bind; [apply triple_fence|]. intros ?; cbv beta. apply triple_ret. intros w Hw. right. split; [done|].
    exists (mkTopic (Some candidate) true), row, oq. by split_and!.
  - apply triple_ret. intros w Hw. right. split; [done|]. exists (mkTopic (Some candidate) false), row, oq. by split_and!.
  - apply triple_ret. intros w Hw. right. split; [done|]. exists (mkTopic (Some candidate) false), row, oq. by split_and!.
Qed.

(** *** The commit *)
Definition op_is (state : string) (oq : option RuntimeOperationRecord) : Prop :=
  ∃ q, oq = Some q ∧ same_target q intent ∧ ro_State q = state.

Lemma candidate_row row row' q :
  row_agrees row iv → runtimeCandidateMatches iv cv intent outcome = true → same_target q intent →
  0 ≤ ro_ExpectedGeneration intent < 2 ^ 64 → sv_generation iv = ro_ExpectedGeneration intent →
  (sets_preference intent = true → ro_TargetModel intent ≠ "") →
  columns row' = columns (published_row q outcome row) → row_agrees row' cv.
Proof.
  intros (A1 & A2 & A3 & A4 & A5 & A6) Hm Htg Hr Hg Hpref Hcols. rewrite (published_columns _ _ _ _ Htg) in Hcols.
  unfold runtimeCandidateMatches in Hm. rewrite !andb_true_iff, !bool_decide_eq_true, Z.eqb_eq, negb_true_iff, Z.eqb_neq in Hm.
  destruct Hm as [[[[[[Hmax M1] M2] M3] M4] M5] M6]. unfold columns, published_row in Hcols. cbn in Hcols.
  injection Hcols as C1 C2 C3 C4 C5 C6. unfold row_agrees. rewrite C1, C2, C3, C4, C5, C6, M1, M2, M3, M4, M5, M6, A1, A2, A3, A4, Hg.
  assert (Eu : u64 (ro_ExpectedGeneration intent + 1) = ro_ExpectedGeneration intent + 1).
  { unfold u64. apply Z.mod_small. unfold max_u64 in Hmax. lia. }
  split_and!; try done. destruct (sets_preference intent) eqn:Hs; [|by rewrite A5].
  unfold text_or. by rewrite bool_decide_false by auto.
Qed.

(** How the durable commit ends: nothing moved, or the row is at the candidate. *)
Definition finalized (t : TopicSession) (row : session_row) (oq : option RuntimeOperationRecord)
    (r : result RuntimeOperationRecord) (w : pub_world) : Prop :=
  ∃ row' oq', at_ t (Some row') oq' w ∧
    ((row' = row ∧ oq' = oq ∧ is_ok r = false) ∨
     (row_agrees row' cv ∧ match r with Ok _ => True | Err e => driver_error e end)).

(** The publication is within its contract. *)
Record in_contract : Prop := {
  ic_outcome : publishesRuntime outcome = true;
  ic_generation : 0 ≤ ro_ExpectedGeneration intent < 2 ^ 64;
  ic_model : sets_preference intent = true → ro_TargetModel intent ≠ "" }.
Context (Hok : in_contract).

Lemma op_is_expected q row :
  same_target q intent → row_agrees row iv → sv_archiveID iv = ro_ExpectedArchiveID intent →
  sv_generation iv = ro_ExpectedGeneration intent → at_expected q row = true.
Proof.
  intros (_ & _ & E3 & E4 & _) (A1 & A2 & _) Ha Hg. unfold at_expected. rewrite A1, A2, Ha, Hg, E3, E4.
  by rewrite bool_decide_true, Z.eqb_refl.
Qed.

Lemma triple_finalize t row oq :
  op_is RuntimeOperationApplying oq → row_agrees row iv → runtimeCandidateMatches iv cv intent outcome = true →
  sv_archiveID iv = ro_ExpectedArchiveID intent → sv_generation iv = ro_ExpectedGeneration intent →
  triple (at_ t (Some row) oq) (op_Finalize env clock fates ctxErr intent outcome reason) (finalized t row oq).
Proof.
  intros (q & -> & Htg & Hst) Hrow Hm Ha Hg. destruct Hok as [Hpub Hr Hpref]. apply triple_tables.
  intros n tb tb' a H1 H2 E. pose proof Htg as (E1 & _).
  destruct (finalize_publishing (ctxErr n) (fates n) (mkFinalization id (ro_InputHash intent) outcome reason (clock n))
    tb tb' a q row) as [(-> & Hf)|((row' & Hrow' & Hcols) & Hres)]; try done.
  - by apply Hctx.
  - by rewrite E1.
  - by eapply op_is_expected.
  - exists (Some row), (Some q). split_and!; [done | done |]. intros w Hw. exists row, (Some q). split; [exact Hw|]. by left.
  - rewrite E1 in Hrow'. eexists (Some row'), _. split_and!; [exact Hrow' | reflexivity |].
    intros w Hw. eexists row', _. split; [exact Hw|]. right. split; [|exact Hres]. by eapply candidate_row.
Qed.

(** What follows a failed or successful durable commit. *)
Lemma after_finalize t0 row oq operation terminal :
  op_is RuntimeOperationApplying oq →
  triple (finalized t0 row oq terminal)
    match terminal with
    | Ok terminal =>
        if isPublicationTerminal terminal intent outcome reason
        then adopt env incumbent candidate iv cv intent applying_ terminal
        else failPublication env session candidate terminal applying_ true
    | Err err =>
        if errors_Is err ErrRuntimeOperationConflict then
          if applying_ then failApplyingPublication env session candidate operation true
          else _ ← release_claim env candidate false; conclude_conflict env clock fates ctxErr session intent
        else if applying_ then
          observed ← op_Get env fates ctxErr id;
          match observed with
          | Ok (Some r) => if isPublicationTerminal r intent outcome reason
                           then adopt env incumbent candidate iv cv intent applying_ r
                           else failApplyingPublication env session candidate operation true
          | _ => failApplyingPublication env session candidate operation true
          end
        else _ ← release_claim env candidate false; store_failed env fates ctxErr session intent err false
    end (ended t0 (Some row)).
Proof.
  intros Hop w w' r (row' & oq' & Hw & Hcase) E. revert w w' r Hw E.
  match goal with |- ∀ w w' r, _ → ?m w = _ → _ => change (triple (at_ t0 (Some row') oq') m (ended t0 (Some row))) end.
  destruct terminal as [terminal|err].
  { destruct Hcase as [(_ & _ & Hf)|[Hcv _]]; [discriminate|]. destruct (isPublicationTerminal _ _ _ _); [by apply adopts|].
    by apply to_unpublished, fail_publication. }
  destruct (errors_Is err ErrRuntimeOperationConflict) eqn:Hc.
  { destruct Hcase as [(-> & -> & _)|[_ [? _]]]; [|congruence]. apply to_unpublished.
    destruct applying_ eqn:Happ; [by apply fail_applying|]. eapply triple_bind; [apply triple_release|]. intros ?; cbv beta.
    apply concludes. intros Hs. specialize (Hstrict Hs). congruence. }
  destruct applying_ eqn:Happ.
  - eapply triple_bind; [apply triple_get|]. intros observed; cbv beta.
    intros w w' r [Hw Hobs] E. revert w w' r Hw E.
    match goal with |- ∀ w w' r, _ → ?m w = _ → _ => change (triple (at_ t0 (Some row') oq') m (ended t0 (Some row))) end.
    destruct observed as [[op|]|e]; [| by apply to_unpublished, fail_applying | by apply to_unpublished, fail_applying].
    destruct (isPublicationTerminal op intent outcome reason) eqn:Hterm; [|by apply to_unpublished, fail_applying].
    destruct Hcase as [(_ & -> & _)|[Hcv _]]; [exfalso|by apply adopts]. destruct (Hobs op eq_refl) as (q & Eq & _ & Hs).
    destruct Hop as (q' & Eq' & _ & Hst). unfold isPublicationTerminal in Hterm. rewrite !andb_true_iff, !bool_decide_eq_true in Hterm.
    destruct Hterm as [[[[_ Ht] _] _] _]. assert (q = q') as -> by congruence. rewrite Hs, Hst in Ht. discriminate.
  - eapply triple_bind; [apply triple_release|]. intros ?; cbv beta.
    apply to_unpublished, store_fails; [intros Hs; specialize (Hstrict Hs); congruence | done |].
    destruct Hcase as [(-> & _ & _)|[_ Hd]]; [by left | by right].
Qed.

Lemma commits t0 row oq operation :
  op_is (if applying_ then RuntimeOperationApplying else RuntimeOperationPrepared) oq →
  row_agrees row iv → runtimeCandidateMatches iv cv intent outcome = true →
  sv_archiveID iv = ro_ExpectedArchiveID intent → sv_generation iv = ro_ExpectedGeneration intent →
  triple (at_ t0 (Some row) oq)
    (commit_publication env clock fates ctxErr incumbent candidate iv cv intent outcome applying_ reason operation)
    (ended t0 (Some row)).
Proof.
  intros Hop Hrow Hm Ha Hg. unfold commit_publication.
  eapply (triple_bind _ _ (λ (marked : result unit) w, ∃ oq', (if marked then op_is RuntimeOperationApplying oq' else ¬ strict) ∧
    at_ t0 (Some row) oq' w)).
  { destruct applying_ eqn:Happ; [apply triple_ret; intros w Hw; by exists oq|].
    destruct Hop as (q & -> & Htg & Hst). apply triple_tables. intros n tb tb' a H1 H2 E. apply mark_run in E as [Es Em].
    exists (Some row), (rt_operations tb' !! id). split_and!; [by rewrite Es | done |]. intros w Hw.
    exists (rt_operations tb' !! id). split; [|exact Hw]. destruct a as [[]|]; [|intros Hs; specialize (Hstrict Hs); congruence].
    destruct (Em q eq_refl H2) as (q' & Hq' & Htg' & Hst'). exists q'. split_and!; [done | | done].
    by eapply same_target_trans; [apply same_target_sym|]. }
  intros marked. apply triple_op. intros oq' Hmarked. destruct marked as [[]|err].
  - eapply triple_bind; [by apply triple_finalize|]. intros terminal. by apply after_finalize.
  - eapply triple_bind; [apply triple_release|]. intros ?; cbv beta. apply to_unpublished, store_fails; [done | done | by left].
Qed.

Lemma settles t0 row0 oq operation :
  ¬ strict →
  triple (at_ t0 row0 oq) (settle_terminal env candidate iv intent outcome applying_ reason operation) (unpublished t0 row0).
Proof.
  intros Hs. unfold settle_terminal. destruct (isPublicationTerminal operation intent RuntimeOperationOutcomeConflict _).
  - eapply (triple_bind _ _ (λ _, at_ t0 row0 oq)); [|intros ?; by apply ret_same].
    destruct applying_; [apply triple_heap; intros; apply abort_values | by apply triple_ret].
  - eapply (triple_bind _ _ (λ b w, at_ t0 row0 oq w ∧ (b = true → committed t0 w))).
    { apply triple_tick. intros n w w' a Hw E. pose proof Hw as [H1 H2 H3 H6 H7]. rewrite H1 in E. injection E as <- <-. split; [exact Hw|].
      rewrite andb_true_iff, negb_true_iff. intros [Hr Hm]. split; [done|]. destruct (tp_runtime t0) as [s|]; [|discriminate]. cbn in Hm.
      destruct (slot_at w s) as [v|] eqn:Hv; [|discriminate]. apply andb_true_iff in Hm as [Hm _]. by exists s, v. }
    intros b w w' r [Hw Hb] E. destruct (_ || _) eqn:Hbad; [by eapply fail_publication|]. injection E as <- <-.
    apply orb_false_iff in Hbad as [_ Hbad]. apply negb_false_iff in Hbad. split; [done|]. exists t0, row0, oq. split; [exact Hw|].
    split; [done|]. right. split_and!; try done. intros _. by apply Hb.
Qed.

Lemma publishes t0 row0 oq operation :
  (applying_ = false → runtimeCandidateMatches iv cv intent outcome = true) →
  (tp_recoveryRequired t0 = false → tp_runtime t0 = Some incumbent → ∃ row, row0 = Some row ∧ row_agrees row iv) →
  (∃ q, oq = Some q ∧ same_target q operation ∧ ro_State operation = ro_State q) →
  (strict → ∃ q, oq = Some q ∧ ro_State q = RuntimeOperationApplying) →
  triple (at_ t0 row0 oq)
    (publish_operation env clock fates ctxErr incumbent candidate iv cv intent outcome applying_ reason operation)
    (ended t0 row0).
Proof.
  intros Hmatch Hagr (q & -> & Htg & Hst) Happlying. unfold publish_operation.
  destruct (samePublicationIntent operation intent) eqn:Hsame; cbn [negb]; [|by apply to_unpublished, fail_publication].
  apply same_intent_target in Hsame. case_bool_decide as Hterm.
  { apply to_unpublished, settles. intros Hs. destruct (Happlying Hs) as (q' & [= <-] & Hq). rewrite Hst, Hq in Hterm. discriminate. }
  destruct (applying_ && _) eqn:Hbad; [by apply to_unpublished, fail_applying|]. case_bool_decide as Hstate; cbn [negb];
    [|by apply to_unpublished, fail_publication].
  assert (Hm : runtimeCandidateMatches iv cv intent outcome = true).
  { destruct applying_; [|by apply Hmatch]. cbn in Hbad. apply orb_false_iff in Hbad as [Hb _]. by apply negb_false_iff in Hb. }
  set (guard_ok := guarded_by incumbent (ro_ExpectedArchiveID intent) (ro_ExpectedGeneration intent) t0 (Some iv)).
  eapply (triple_bind _ _ (λ b w, b = guard_ok ∧ at_ t0 row0 (Some q) w)).
  { apply triple_tick. intros n w w' a Hw E. pose proof Hw as [H1 H2 H3 H6 H7]. pose proof (H6 _ _ Hincumbent) as H4. rewrite H1, H4 in E. by injection E as <- <-. }
  intros b.
  eapply (triple_bind _ _ (λ c w, (c = true → guard_ok = true) ∧ at_ t0 row0 (Some q) w)).
  { intros w w' c [-> Hw] E. destruct guard_ok; [split; [done | exact (triple_claim t0 row0 (Some q) w w' c Hw E)]|].
    injection E as <- <-. by split. }
  intros claimed w w' r [Hclaim Hw] E. revert w w' r Hw E.
  match goal with |- ∀ w w' r, _ → ?m w = _ → _ => change (triple (at_ t0 row0 (Some q)) m (ended t0 row0)) end.
  destruct claimed.
  2:{ apply to_unpublished. destruct applying_ eqn:Happ; [by apply fail_applying|]. apply concludes. intros Hs. specialize (Hstrict Hs). congruence. }
  specialize (Hclaim eq_refl). unfold guard_ok, guarded_by in Hclaim.
  rewrite !andb_true_iff, !bool_decide_eq_true, negb_true_iff, Z.eqb_eq in Hclaim. destruct Hclaim as [[Hrec Hrt] [Ha Hg]].
  destruct (Hagr Hrec Hrt) as (row & -> & Hrow). apply commits; try done. exists q. split_and!; [done | | by rewrite <-Hst].
  by eapply same_target_trans.
Qed.

Lemma locked t0 row0 oq :
  (applying_ = false → runtimeCandidateMatches iv cv intent outcome = true) →
  (tp_recoveryRequired t0 = false → tp_runtime t0 = Some incumbent → ∃ row, row0 = Some row ∧ row_agrees row iv) →
  (strict → ∃ q, oq = Some q ∧ ro_State q = RuntimeOperationApplying) →
  triple (at_ t0 row0 oq)
    (publishRuntimeStateLocked env clock fates ctxErr incumbent candidate iv cv intent outcome applying_ reason)
    (ended t0 row0).
Proof.
  intros Hmatch Hagr Happlying. unfold publishRuntimeStateLocked.
  eapply (triple_bind _ _ (λ r w, r = Some t0 ∧ at_ t0 row0 oq w)).
  { apply triple_tick. intros n w w' a Hw E. injection E as <- <-. split; [apply Hw | exact Hw]. }
  intros topic w w' r [-> Hw] E. revert w w' r Hw E.
  match goal with |- ∀ w w' r, _ → ?m w = _ → _ => change (triple (at_ t0 row0 oq) m (ended t0 row0)) end.
  eapply (triple_bind _ _ (λ r w, ∃ oq', ((∀ operation, r = Ok operation →
      ∃ q, oq' = Some q ∧ same_target q operation ∧ ro_State operation = ro_State q) ∧
    (strict → ∃ q, oq' = Some q ∧ ro_State q = RuntimeOperationApplying)) ∧ at_ t0 row0 oq' w)).
  - unfold loadPublicationOperation. destruct applying_ eqn:Happ.
    + eapply triple_bind; [apply triple_get|]. intros found; cbv beta. apply triple_ret. intros w [Hw Hf]. exists oq. split; [|exact Hw].
      split; [|exact Happlying]. intros operation E. destruct found as [[op|]|e]; [|discriminate|discriminate]. injection E as <-. by apply Hf.
    + apply triple_tables. intros n tb tb' a H1 H2 E. apply begin_run in E as [Es Eb].
      exists row0, (rt_operations tb' !! id). split_and!; [by rewrite Es | done |]. intros w Hw.
      exists (rt_operations tb' !! id). split; [|exact Hw]. split; [exact Eb|]. intros Hs. specialize (Hstrict Hs). congruence.
  - intros operation. apply triple_op. intros oq' [Hload Hop']. destruct operation as [operation|err].
    + apply publishes; [done | done | by apply Hload | done].
    + apply to_unpublished. destruct applying_ eqn:Happ; [by apply fail_applying|].
      apply store_fails; [intros Hs; specialize (Hstrict Hs); congruence | done | by left].
Qed.
End publication.

(** ** Properties *)
Section properties.
  Context `{BindingCodec}.

(** C2. Publishing a runtime keeps the durable row and the runtime in memory in
    agreement, whatever transactions fail or commit without saying so. If the call
    reports that it published, the session runs the candidate and its row is the
    candidate's, and it is fenced exactly when there is an error; if it does not, the
    session keeps its runtime, and either is fenced for recovery or its row is as it
    was. A replay succeeds only when the runtime in place is the one it asks for. *)
Theorem publication_keeps_agreement env clock fates ctxErr incumbent candidate iv cv intent outcome applying_ reason
    t0 w w' operation done_ err :
  (∀ n w, quiet (ro_SessionID intent) (ro_OperationID intent) w (env n w)) → (∀ n, driver_fate (fates n)) →
  (∀ n e, ctxErr n = Some e → driver_error e) → in_contract intent outcome →
  (applying_ = false → runtimeCandidateMatches iv cv intent outcome = true) →
  slot_at w incumbent = Some iv → slot_at w candidate = Some cv →
  pw_sessions w !! ro_SessionID intent = Some t0 → agrees (ro_SessionID intent) w →
  publishRuntimeStateLocked env clock fates ctxErr incumbent candidate iv cv intent outcome applying_ reason w =
    (w', (operation, done_, err)) →
  agrees (ro_SessionID intent) w' ∧
  ∃ t, pw_sessions w' !! ro_SessionID intent = Some t ∧
    (done_ = true → tp_runtime t = Some candidate ∧ (err = None ↔ tp_recoveryRequired t = false) ∧
       ∃ row, rt_sessions (pw_tables w') !! ro_SessionID intent = Some row ∧ row_agrees row cv) ∧
    (done_ = false → tp_runtime t = tp_runtime t0 ∧
       (tp_recoveryRequired t = true ∨
        rt_sessions (pw_tables w') !! ro_SessionID intent = rt_sessions (pw_tables w) !! ro_SessionID intent) ∧
       (err = None → t = t0 ∧ committed iv intent outcome t0 w')).
Proof.
  intros Hq Hf Hc Hok Hm Hi Hcv Ht Hagr Hrun.
  assert (Hw : here (ro_SessionID intent) (ro_OperationID intent) w t0 (rt_sessions (pw_tables w) !! ro_SessionID intent)
                 (rt_operations (pw_tables w) !! ro_OperationID intent) w) by by split.
  eapply (locked _ _ _ _ _ _ _ _ _ _ _ Hq Hf Hc w Hi False) in Hrun
    as [(Hd & t & row & oq & Hat & Hrt & Hcase)|(Hd & t & row & oq & Hat & Hrt & Hrow & Hfree)]; try done.
  - cbn in Hd, Hcase. subst done_. destruct Hat as [H1 H2 _ Hv _]. split.
    + intros t' s Ht' Hrec Hs. rewrite H1 in Ht'. injection Ht' as <-. destruct Hcase as [[? _]|(_ & -> & -> & _)]; [congruence|].
      destruct (Hagr t0 s Ht Hrec Hs) as (v & row & Hsv & Hr & Ha). exists v, row. split_and!; [by apply Hv | congruence | done].
    + exists t. split; [done|]. split; [done|]. intros _. split; [done|]. destruct Hcase as [[? ?]|(_ & -> & Hr & Hn)].
      * split; [by left|]. intros ->. done.
      * split; [right; congruence|]. intros He. split; [done | by apply Hn].
  - cbn in Hd, Hfree. subst done_. destruct Hat as [H1 H2 _ Hv _]. pose proof (Hv _ _ Hcv) as H5. split.
    + intros t' s Ht' Hrec Hs. rewrite H1 in Ht'. injection Ht' as <-. rewrite Hrt in Hs. injection Hs as <-. by exists cv, row.
    + exists t. split; [done|]. split; [|done]. intros _. split_and!; [done | | by exists row].
      destruct err; split; congruence.
  - intros Hrec Hs. destruct (Hagr t0 incumbent Ht Hrec Hs) as (v & row & Hsv & Hr & Ha). rewrite Hi in Hsv. injection Hsv as <-.
    by exists row.
Qed.
End properties.

(** ** Witnesses *)
Definition demo_incumbent : runtimeSlotValue :=
  mkSlotValue (mkBuiltRuntime (Some 1%nat) None None "app" "snap" "" "" 0 None None None) None "provider" "app" "user" "conv" "a1" 3 "model-a" "".
Definition demo_candidate : runtimeSlotValue :=
  mkSlotValue (mkBuiltRuntime (Some 1%nat) None None "app" "snap" "" "" 0 None None None) None "provider" "app" "user" "conv" "a1" 4 "model-b"
    RuntimeOperationOutcomeContextPreserved.
Definition demo_pub_heap : runtime_heap :=
  mkHeap (<[0%nat := markPublished (newRuntimeSlotWithOwner demo_incumbent 0)]> (<[1%nat := newRuntimeSlotWithOwner demo_candidate 0]> ∅))
    (<[0%nat := mkOwner 2 None None false]> ∅) ∅ [].
Definition demo_world : pub_world :=
  mkPubWorld demo_pub_heap (<["s1" := mkTopic (Some 0%nat) false]> ∅) demo_tables0 [] 0.
Definition demo_run (fates : nat → fate) : pub_world * pub_result :=
  publishRuntime (λ _ w, w) (λ n, 5000000 + Z.of_nat n) fates (λ _, None) 0 1 demo_intent RuntimeOperationOutcomeContextPreserved demo_world.

(** Undisturbed, it publishes; with the commit unreported, it fences the session. *)
Example demo_run_publishes : (demo_run (λ _, Commits)).2.1.2 = true ∧ (demo_run (λ _, Commits)).2.2 = None.
Proof. vm_compute. by split. Qed.
Example demo_run_fenced :
  let r := demo_run (λ n, if decide (n = 5)%nat then CommitsUnreported (ErrText "disk") else Commits) in
  r.2.1.2 = false ∧ pw_sessions r.1 !! "s1" = Some (mkTopic (Some 0%nat) true) ∧
  (sm_RuntimeGeneration <$> rt_sessions (pw_tables r.1) !! "s1") = Some 4.
Proof. vm_compute. by split_and!. Qed.

Lemma demo_agrees : agrees "s1" demo_world.
Proof.
  intros t s Ht _ Hs. vm_compute in Ht. injection Ht as <-. injection Hs as <-. exists demo_incumbent, demo_row.
  split; [reflexivity|]. split; [reflexivity|]. unfold row_agrees. by split_and!.
Qed.

Lemma publication_keeps_agreement_witness :
  agrees "s1" (demo_run (λ n, if decide (n = 5)%nat then CommitsUnreported (ErrText "disk") else Commits)).1.
Proof.
  refine (proj1 (publication_keeps_agreement (λ _ w, w) (λ n, 5000000 + Z.of_nat n)
    (λ n, if decide (n = 5)%nat then CommitsUnreported (ErrText "disk") else Commits) (λ _, None) 0 1 demo_incumbent demo_candidate
    demo_intent RuntimeOperationOutcomeContextPreserved false "" (mkTopic (Some 0%nat) false) demo_world _ _ _ _
    _ _ _ _ _ _ _ _ demo_agrees _)).
  - intros n w. by split.
  - intros n. case_decide; [by split | done].
  - done.
  - split; [reflexivity | vm_compute; by split | by intros].
  - intros _. vm_compute. reflexivity.
  - reflexivity.
  - reflexivity.
  - reflexivity.
  - vm_compute. reflexivity.
Defined.
