(* ===== verification/ModelRecovery.v ===== *)
(** * ModelRecovery: bringing an interrupted model change to an end

    src/internal/apps/balda/session/model_recovery.go and the vocabulary of
    model_change.go.  An operation found applying after a failure is completed only on
    the provider's confirmation of its target; a terminal one whose replacement was
    not adopted is adopted.  The provider, the runtime manager and the builder of
    runtimes are other components: what they answer is a parameter, indexed by the
    step of the call. *)

From Stdlib Require Import ZArith Lia Ascii String.
From stdpp Require Import base numbers list gmap strings relations.
From S2P Require Import Prelude.
From S2P Require Import GoStrings.
From S2P Require Import RuntimeOperations.
From S2P Require Import RuntimeSlots.
From S2P Require Import RuntimePublication.

Local Open Scope string_scope.
Local Open Scope list_scope.
Local Open Scope Z_scope.

(** ** Vocabulary of the provider library *)
Module agentproduct.
Inductive ModelValidationStatus :=
  | ModelSupported | ModelUnsupported | ModelIncompatible | ModelBusy | ModelClosed | ModelValidationOther.
Inductive ModelChangeStatus :=
  | ModelApplied | ModelReplacement | ModelAmbiguous | ModelChangeUnsupported | ModelChangeIncompatible
  | ModelRejected | ModelChangeBusy | ModelChangeClosed | ModelChangeOther.
End agentproduct.

Record RuntimeSessionIdentity := mkIdentity {
  ri_SessionService : option nat; ri_AppName : string; ri_UserID : string; ri_SessionID : string }.
Record RuntimeModelChange := mkModelChange {
  mc_Status : agentproduct.ModelChangeStatus; mc_Candidate : option BuiltRuntime; mc_Identity : RuntimeSessionIdentity }.

Definition RuntimeOperationReasonChangedLive : string := "changed_live".
Definition RuntimeOperationReasonChangedReplacement : string := "changed_replacement".
Definition RuntimeOperationOutcomeAborted : string := "aborted".
Definition SessionStatusActive : string := "active".

(** The columns of a session's row that recovery reads beside the runtime columns. *)
Record session_columns := mkColumns { sc_SessionID : string; sc_Status : string; sc_UserID : string }.

Definition validModelChangeText (value : string) (limit : Z) : bool :=
  negb (bool_decide (value = "")) && (len value <=? limit) && ValidString value && bool_decide (TrimSpace value = value) &&
  negb (ContainsAny value ["013"; "010"; "000"]%char).

Definition runtimeIdentity (value : runtimeSlotValue) : RuntimeSessionIdentity :=
  mkIdentity (br_SessionSvc (sv_runtime value)) (sv_appName value) (sv_userID value) (sv_sessionID value).
Definition verifiedModelIdentityMatches (got want : RuntimeSessionIdentity) : bool :=
  sameIdentityObject (ri_SessionService got) (ri_SessionService want) && bool_decide (ri_AppName got = ri_AppName want) &&
  bool_decide (ri_UserID got = ri_UserID want) && bool_decide (ri_SessionID got = ri_SessionID want).

Section recovery.
  Context `{BindingCodec}.
  Context (env : nat → pub_world → pub_world) (clock : nat → Z) (fates : nat → fate) (ctxErr : nat → option error).
  Context (MaxModelIDBytes : Z).
  (** [ChangeModel] of the controller of a runtime. *)
  Context (change : nat → RuntimeSessionIdentity → string → RuntimeModelChange).
  (** [AdoptPromotedModelReplacement] of the runtime manager. *)
  Context (adoptable : nat → option BuiltRuntime).
  (** A runtime built again for a session that is not active, with its session opened. *)
  Context (reopen : nat → result runtimeSlotValue).
  (** The other columns of a row, as the read finds them. *)
  Context (other_columns : nat → session_columns).

(** ** Steps *)
Definition get_row (session : string) : pub (result (option (session_row * session_columns))) :=
  on_tables env (λ n t, (t, match fates n with
                            | Fails err => Err err
                            | _ => match rt_sessions t !! TrimSpace session with
                                   | None => Ok None
                                   | Some r => (* an unsigned column *)
                                               if sm_RuntimeGeneration r <? 0 then Err (ErrText "get balda session by session_id")
                                               else Ok (Some (r, other_columns n))
                                   end
                            end)).
Definition ask (id : string) (value : runtimeSlotValue) (model : string) : pub RuntimeModelChange :=
  tick env (λ n w, (mkPubWorld (pw_heap w) (pw_sessions w) (pw_tables w) (id :: pw_asked w) (pw_calls w),
                    change n (runtimeIdentity value) model)).

(** A successor of a slot. *)
Definition make_successor (s : nat) (f : RuntimeSlot → runtime_heap → result (runtime_heap * nat)) : pub (result nat) :=
  tick env (λ _ w, match hp_slots (pw_heap w) !! s with
                   | None => (w, Err ErrRuntimePublicationInvalid)
                   | Some sl => match f sl (pw_heap w) with
                                | Ok (h, s') => (set_heap h w, Ok s')
                                | Err err => (w, Err err)
                                end
                   end).
Definition refresh (s : nat) : pub unit := on_slot env s (λ sl, (refreshModelObservation true sl, tt)) tt.
Definition callbacks (s : nat) : pub (option (option error) * option (option error)) :=
  tick env (λ _ w, (w, match slot_at w s with
                       | Some v => (br_PromoteBase (sv_runtime v), br_CompleteBase (sv_runtime v))
                       | None => (None, None)
                       end)).
Definition read_topic (session : string) : pub (option TopicSession) := tick env (λ _ w, (w, pw_sessions w !! session)).
Definition fails (callback : option (option error)) : bool := match callback with Some (Some _) => true | _ => false end.

(** The close of a runtime that never got a slot: its error is ignored. *)
Definition closeModelCandidate (candidate : option BuiltRuntime) : pub unit := mret tt.

(** ** The topic under recovery *)
Definition runtimeForRecovery (session : string) : pub (option (nat * runtimeSlotValue) * bool) :=
  tick env (λ _ w, (w, match pw_sessions w !! session with
                       | None => (None, false)
                       | Some t => (match tp_runtime t with Some s => pair s <$> slot_at w s | None => None end, tp_recoveryRequired t)
                       end)).
Definition modelRecoveryRuntime (operation : RuntimeOperationRecord) : pub (option (nat * runtimeSlotValue)) :=
  found ← runtimeForRecovery (ro_SessionID operation);
  mret match found with
       | (Some (s, v), true) =>
           if bool_decide (sv_archiveID v = ro_ExpectedArchiveID operation) && (sv_generation v =? ro_ExpectedGeneration operation)
           then Some (s, v) else None
       | _ => None
       end.
Definition recovering (t : TopicSession) (expected : nat) (archiveID : string) (generation : Z) (v : option runtimeSlotValue) : bool :=
  tp_recoveryRequired t && bool_decide (tp_runtime t = Some expected) &&
  match v with
  | Some v => bool_decide (sv_archiveID v = archiveID) && (sv_generation v =? generation)
  | None => false
  end.
Definition swapRecoveredRuntime (session : string) (expected successor : nat) (archiveID : string) (generation : Z) : pub bool :=
  tick env (λ _ w, match pw_sessions w !! session with
                   | None => (w, false)
                   | Some t => if recovering t expected archiveID generation (slot_at w expected)
                               then (set_topic session (mkTopic (Some successor) false) w, true) else (w, false)
                   end).
Definition completeRecoveredRuntime (session : string) (current : nat) (archiveID : string) (generation : Z) : pub bool :=
  tick env (λ _ w, match pw_sessions w !! session with
                   | None => (w, false)
                   | Some t => if recovering t current archiveID generation (slot_at w current)
                               then (set_topic session (mkTopic (tp_runtime t) false) w, true) else (w, false)
                   end).

(** ** Guards *)
Definition modelRecoveryRecordMatches (record : session_row) (columns : session_columns) (operation : RuntimeOperationRecord) : bool :=
  let targetArchive := TrimSpace (ro_TargetArchiveID operation) in
  let recordBinding := TrimSpace (sm_ProviderBindingJSON record) in
  bool_decide (TrimSpace (sc_SessionID columns) = ro_SessionID operation) &&
  negb (ro_ExpectedGeneration operation =? max_u64) &&
  (bool_decide (TrimSpace (sc_Status columns) = "") || bool_decide (sc_Status columns = SessionStatusActive)) &&
  bool_decide (TrimSpace (sm_ArchiveID record) = ro_ExpectedArchiveID operation) &&
  (sm_RuntimeGeneration record =? ro_ExpectedGeneration operation) &&
  negb (bool_decide (ro_TargetSnapshotID operation = "")) &&
  negb (bool_decide (ro_TargetProviderBindingJSON operation = "")) &&
  bool_decide (TrimSpace (sm_RuntimeSnapshotID record) = ro_TargetSnapshotID operation) &&
  (bool_decide (recordBinding = ro_TargetProviderBindingJSON operation) ||
   ((sm_RuntimeGeneration record =? 0) && bool_decide (recordBinding = ""))) &&
  (bool_decide (targetArchive = "") || bool_decide (targetArchive = ro_ExpectedArchiveID operation)) &&
  validModelChangeText (ro_TargetModel operation) MaxModelIDBytes.

Definition modelRecoveryValueMatches (value : runtimeSlotValue) (record : session_row) (columns : session_columns)
    (operation : RuntimeOperationRecord) : bool :=
  bool_decide (sv_archiveID value = ro_ExpectedArchiveID operation) && (sv_generation value =? ro_ExpectedGeneration operation) &&
  bool_decide (sv_effectiveModel value = TrimSpace (sm_EffectiveModel record)) &&
  bool_decide (br_RuntimeSnapshotID (sv_runtime value) = ro_TargetSnapshotID operation) &&
  bool_decide (br_ProviderBindingJSON (sv_runtime value) = ro_TargetProviderBindingJSON operation) &&
  bool_decide (is_Some (br_SessionSvc (sv_runtime value))) &&
  match sv_session value with
  | None => false
  | Some sess =>
      bool_decide (sv_appName value = as_AppName sess) && bool_decide (sv_userID value = TrimSpace (sc_UserID columns)) &&
      bool_decide (sv_userID value = as_UserID sess) && negb (bool_decide (sv_sessionID value = "")) &&
      bool_decide (sv_sessionID value = as_ID sess)
  end.

(** Whether a row is what a terminal outcome left behind. *)
Definition commit_matches (record : session_row) (operation : RuntimeOperationRecord) (incumbent : runtimeSlotValue) (outcome : string) : bool :=
  if bool_decide (outcome = RuntimeOperationOutcomeAborted) then
    bool_decide (sm_ArchiveID record = sv_archiveID incumbent) && (sm_RuntimeGeneration record =? sv_generation incumbent) &&
    bool_decide (sm_RuntimeSnapshotID record = br_RuntimeSnapshotID (sv_runtime incumbent)) &&
    bool_decide (sm_ProviderBindingJSON record = br_ProviderBindingJSON (sv_runtime incumbent)) &&
    bool_decide (sm_EffectiveModel record = sv_effectiveModel incumbent) &&
    bool_decide (sm_RuntimeOutcome record = sv_outcome incumbent)
  else
    bool_decide (sm_ArchiveID record = text_or (ro_TargetArchiveID operation) (sv_archiveID incumbent)) &&
    (sm_RuntimeGeneration record =? u64 (ro_ExpectedGeneration operation + 1)) &&
    bool_decide (sm_RuntimeSnapshotID record = ro_TargetSnapshotID operation) &&
    bool_decide (sm_ProviderBindingJSON record = ro_TargetProviderBindingJSON operation) &&
    bool_decide (sm_RequestedModel record = Some (ro_TargetModel operation)) &&
    bool_decide (sm_EffectiveModel record = ro_TargetModel operation) && bool_decide (sm_RuntimeOutcome record = outcome).

Definition modelRecoveryCommitMatches (operation : RuntimeOperationRecord) (incumbent : runtimeSlotValue) (outcome : string) : pub bool :=
  found ← get_row (ro_SessionID operation);
  mret match found with
       | Ok (Some (record, _)) => commit_matches record operation incumbent outcome
       | _ => false
       end.

(** ** Ending an operation *)
Definition finalizeModelRecovery (operation : RuntimeOperationRecord) (incumbent : runtimeSlotValue) (outcome reason : string) : pub bool :=
  terminal ← on_tables env (λ n, Ops_Finalize (ctxErr n) (fates n)
    (mkFinalization (ro_OperationID operation) (ro_InputHash operation) outcome reason (Z.max (clock n) (ro_UpdatedAt operation))));
  match terminal with
  | Ok terminal =>
      if isPublicationTerminal terminal operation outcome reason then modelRecoveryCommitMatches operation incumbent outcome
      else mret false
  | Err _ =>
      found ← op_Get env fates ctxErr (ro_OperationID operation);
      match found with
      | Ok (Some terminal) =>
          if isPublicationTerminal terminal operation outcome reason then modelRecoveryCommitMatches operation incumbent outcome
          else mret false
      | _ => mret false
      end
  end.

(** Undo a claim and fence; the last two statements of every failing branch. *)
Definition abandon (session : string) (candidate : nat) : pub (option error) :=
  _ ← release_claim env candidate false;
  _ ← on_heap env (abortUnpublished candidate);
  _ ← fenceRuntimeRecovery env session;
  mret (Some ErrRuntimeRecoveryRequired).
Definition fenced_error (session : string) : pub (option error) :=
  _ ← fenceRuntimeRecovery env session;
  mret (Some ErrRuntimeRecoveryRequired).

(** The durable end, then the swap that lifts the fence. *)
Definition commit_recovered (incumbent candidate : nat) (value : runtimeSlotValue) (operation : RuntimeOperationRecord) (reason : string) :
    pub bool :=
  ended ← finalizeModelRecovery operation value RuntimeOperationOutcomeContextPreserved reason;
  if ended : bool
  then swapRecoveredRuntime (ro_SessionID operation) incumbent candidate (ro_ExpectedArchiveID operation) (ro_ExpectedGeneration operation)
  else mret false.

Definition finishRecoveredModelReplacement (incumbent candidate : nat) (value : runtimeSlotValue) (operation : RuntimeOperationRecord) :
    pub (option error) :=
  claimed ← claim env candidate;
  if negb claimed then fenced_error (ro_SessionID operation)
  else
    _ ← refresh candidate;
    callback ← callbacks candidate;
    if fails callback.1 then abandon (ro_SessionID operation) candidate
    else
      swapped ← commit_recovered incumbent candidate value operation RuntimeOperationReasonChangedReplacement;
      if negb swapped then abandon (ro_SessionID operation) candidate
      else
        _ ← release_claim env candidate true;
        _ ← on_heap env (beginDrain incumbent);
        if fails callback.2 then fenced_error (ro_SessionID operation) else mret None.

Definition model_successor (incumbent : nat) (value : runtimeSlotValue) (runtime : option BuiltRuntime) (model : string) : pub (result nat) :=
  make_successor incumbent (λ sl, independentModelSuccessor sl runtime (sv_session value) model RuntimeOperationOutcomeContextPreserved).

Definition adoptPromotedModelReplacement (incumbent : nat) (value : runtimeSlotValue) (operation : RuntimeOperationRecord) : pub (option nat) :=
  if br_RuntimeBaseToken (sv_runtime value) =? 0 then mret None
  else
    runtime ← tick env (λ n w, (w, adoptable n));
    match runtime with
    | None => mret None
    | Some runtime =>
        candidate ← model_successor incumbent value (Some runtime) (ro_TargetModel operation);
        mret match candidate with Ok s => Some s | Err _ => None end
    end.

(** ** An operation found applying *)
Definition applyModelRecoveryChange (incumbent : nat) (value : runtimeSlotValue) (operation : RuntimeOperationRecord)
    (answer : RuntimeModelChange) : pub (option error) :=
  match mc_Status answer with
  | agentproduct.ModelApplied =>
      made ← make_successor incumbent (λ sl, sharedModelSuccessor sl (ro_TargetModel operation) RuntimeOperationOutcomeContextPreserved);
      match made with
      | Err _ => fenced_error (ro_SessionID operation)
      | Ok candidate =>
          claimed ← claim env candidate;
          if negb claimed then
            _ ← on_heap env (abortUnpublished candidate);
            fenced_error (ro_SessionID operation)
          else
            _ ← refresh candidate;
            swapped ← commit_recovered incumbent candidate value operation RuntimeOperationReasonChangedLive;
            if negb swapped then abandon (ro_SessionID operation) candidate
            else
              _ ← release_claim env candidate true;
              _ ← on_heap env (beginDrain incumbent);
              mret None
      end
  | agentproduct.ModelReplacement =>
      if negb (bool_decide (is_Some (mc_Candidate answer))) ||
         negb (verifiedModelIdentityMatches (mc_Identity answer) (runtimeIdentity value)) then
        _ ← closeModelCandidate (mc_Candidate answer);
        fenced_error (ro_SessionID operation)
      else
        made ← model_successor incumbent value (mc_Candidate answer) (ro_TargetModel operation);
        match made with
        | Err _ => _ ← closeModelCandidate (mc_Candidate answer); fenced_error (ro_SessionID operation)
        | Ok candidate => finishRecoveredModelReplacement incumbent candidate value operation
        end
  | _ => fenced_error (ro_SessionID operation)
  end.

(** The same for a session that is not active. *)
Definition applyPersistedChange (value : runtimeSlotValue) (operation : RuntimeOperationRecord) (answer : RuntimeModelChange) :
    pub (option error) :=
  match mc_Status answer with
  | agentproduct.ModelApplied =>
      ended ← finalizeModelRecovery operation value RuntimeOperationOutcomeContextPreserved RuntimeOperationReasonChangedLive;
      mret (if ended : bool then None else Some ErrRuntimeRecoveryRequired)
  | agentproduct.ModelReplacement =>
      if negb (bool_decide (is_Some (mc_Candidate answer))) ||
         negb (verifiedModelIdentityMatches (mc_Identity answer) (runtimeIdentity value)) then
        _ ← closeModelCandidate (mc_Candidate answer);
        mret (Some ErrRuntimeRecoveryRequired)
      else
        _ ← closeModelCandidate (mc_Candidate answer);
        ended ← finalizeModelRecovery operation value RuntimeOperationOutcomeContextPreserved RuntimeOperationReasonChangedReplacement;
        mret (if ended : bool then None else Some ErrRuntimeRecoveryRequired)
  | _ => mret (Some ErrRuntimeRecoveryRequired)
  end.

Definition recoverActiveModelOperation (record : session_row) (columns : session_columns) (operation : RuntimeOperationRecord) :
    pub (option error) :=
  found ← modelRecoveryRuntime operation;
  match found with
  | None => fenced_error (ro_SessionID operation)
  | Some (incumbent, value) =>
      if negb (modelRecoveryValueMatches value record columns operation) ||
         negb (bool_decide (is_Some (br_ModelController (sv_runtime value))))
      then fenced_error (ro_SessionID operation)
      else
        adopted ← adoptPromotedModelReplacement incumbent value operation;
        match adopted with
        | Some candidate => finishRecoveredModelReplacement incumbent candidate value operation
        | None =>
            answer ← ask (ro_OperationID operation) value (ro_TargetModel operation);
            applyModelRecoveryChange incumbent value operation answer
        end
  end.

Definition recoverPersistedModelOperation (record : session_row) (columns : session_columns) (operation : RuntimeOperationRecord) :
    pub (option error) :=
  opened ← tick env (λ n w, (w, reopen n));
  match opened with
  | Err err => mret (Some err)
  | Ok value =>
      if negb (bool_decide (is_Some (br_ModelController (sv_runtime value)))) ||
         negb (modelRecoveryValueMatches value record columns operation)
      then mret (Some ErrRuntimeRecoveryRequired)
      else
        answer ← ask (ro_OperationID operation) value (ro_TargetModel operation);
        applyPersistedChange value operation answer
  end.

(** The fence of the manager, by session. *)
Definition fence_session (session : string) : pub unit := fenceRuntimeRecovery env (TrimSpace session).
Definition refuse_recovery (session : string) : pub (option error) :=
  _ ← fence_session session;
  mret (Some ErrRuntimeRecoveryRequired).

Definition recoverApplyingModelOperation (operation : RuntimeOperationRecord) : pub (option error) :=
  if negb (bool_decide (ro_State operation = RuntimeOperationApplying)) ||
     negb (bool_decide (ro_Kind operation = RuntimeOperationKindModel))
  then refuse_recovery (ro_SessionID operation)
  else
    _ ← fence_session (ro_SessionID operation);
    found ← get_row (ro_SessionID operation);
    match found with
    | Ok (Some (record, columns)) =>
        if negb (modelRecoveryRecordMatches record columns operation) then refuse_recovery (ro_SessionID operation)
        else
          topic ← read_topic (ro_SessionID operation);
          match topic with
          | Some _ => recoverActiveModelOperation record columns operation
          | None => recoverPersistedModelOperation record columns operation
          end
    | _ => refuse_recovery (ro_SessionID operation)
    end.

(** ** A terminal replacement that may not have been adopted *)
Definition completeTerminalModelReplacement (operation : RuntimeOperationRecord) : pub bool :=
  topic ← read_topic (ro_SessionID operation);
  if negb (bool_decide (is_Some topic)) ||
     negb (isPublicationTerminal operation operation RuntimeOperationOutcomeContextPreserved RuntimeOperationReasonChangedReplacement)
  then mret false
  else
    found ← runtimeForRecovery (ro_SessionID operation);
    match found with
    | (None, _) => mret false
    | (Some (current, value), recoveryRequired) =>
        if bool_decide (sv_archiveID value = ro_ExpectedArchiveID operation) &&
           (sv_generation value =? u64 (ro_ExpectedGeneration operation + 1)) &&
           bool_decide (br_RuntimeSnapshotID (sv_runtime value) = ro_TargetSnapshotID operation) &&
           bool_decide (br_ProviderBindingJSON (sv_runtime value) = ro_TargetProviderBindingJSON operation) &&
           bool_decide (sv_effectiveModel value = ro_TargetModel operation) &&
           bool_decide (sv_outcome value = RuntimeOperationOutcomeContextPreserved)
        then
          if fails (br_CompleteBase (sv_runtime value)) then mret false
          else if negb recoveryRequired then mret true
          else completeRecoveredRuntime (ro_SessionID operation) current (sv_archiveID value) (sv_generation value)
        else if negb (bool_decide (sv_archiveID value = ro_ExpectedArchiveID operation)) ||
                negb (sv_generation value =? ro_ExpectedGeneration operation)
        then mret false
        else
          _ ← (if negb recoveryRequired then fenceRuntimeRecovery env (ro_SessionID operation) else mret tt);
          adopted ← adoptPromotedModelReplacement current value operation;
          match adopted with
          | None => mret false
          | Some candidate =>
              err ← finishRecoveredModelReplacement current candidate value operation;
              mret (negb (bool_decide (is_Some err)))
          end
    end.
End recovery.

(** ** Recovery of an active session *)
Section recovering.
  Context `{BindingCodec}.
  Context (env : nat → pub_world → pub_world) (clock : nat → Z) (fates : nat → fate) (ctxErr : nat → option error).
  Context (operation : RuntimeOperationRecord).
  Notation session := (ro_SessionID operation).
  Notation id := (ro_OperationID operation).
  Context (Hquiet : ∀ n w, quiet session id w (env n w)).
  Context (other_columns : nat → session_columns).
  Context (Htrim : TrimSpace session = session).
  (** What is known of the row and of the operation, and stays true when the operation is finalized. *)
  Context (F : option session_row → option RuntimeOperationRecord → Prop).
  Context (HF : ∀ n outcome reason tb tb' a, F (rt_sessions tb !! session) (rt_operations tb !! id) →
    Ops_Finalize (ctxErr n) (fates n)
      (mkFinalization id (ro_InputHash operation) outcome reason (Z.max (clock n) (ro_UpdatedAt operation))) tb = (tb', a) →
    F (rt_sessions tb' !! session) (rt_operations tb' !! id)).

(** A successor of [value] for the operation. *)
Definition candidate_of (value cv : runtimeSlotValue) : Prop :=
  sv_archiveID cv = sv_archiveID value ∧ sv_generation cv = u64 (sv_generation value + 1) ∧
  br_RuntimeSnapshotID (sv_runtime cv) = br_RuntimeSnapshotID (sv_runtime value) ∧
  br_ProviderBindingJSON (sv_runtime cv) = br_ProviderBindingJSON (sv_runtime value) ∧
  sv_effectiveModel cv = ro_TargetModel operation ∧ sv_outcome cv = RuntimeOperationOutcomeContextPreserved.

(** Where the recovery of an active session ends: fenced, or at the target. *)
Definition fenced_now (w : pub_world) : Prop := ∃ rt, pw_sessions w !! session = Some (mkTopic rt true).
Definition recovered_to (value : runtimeSlotValue) (err : option error) (w : pub_world) : Prop :=
  match err with
  | Some _ => fenced_now w
  | None => ∃ s v row, pw_sessions w !! session = Some (mkTopic (Some s) false) ∧ slot_at w s = Some v ∧ candidate_of value v ∧
              rt_sessions (pw_tables w) !! session = Some row ∧ commit_matches row operation value RuntimeOperationOutcomeContextPreserved = true ∧
              ∃ oq, F (Some row) oq
  end.

Section from.
  Context (w0 : pub_world) (rt : option nat).
  Notation at_ := (here session id w0).
Definition frozen (w : pub_world) : Prop := ∃ row oq, F row oq ∧ at_ (mkTopic rt true) row oq w.

Lemma frozen_tick {A} (m : pub A) Q : (∀ row oq, F row oq → triple (at_ (mkTopic rt true) row oq) m Q) → triple frozen m Q.
Proof. intros Hm w w' a (row & oq & HFw & Hw) E. exact (Hm row oq HFw w w' a Hw E). Qed.

Lemma frozen_stop e :
  triple frozen (_ ← fenceRuntimeRecovery env session; mret (Some e)) (λ (err : option error) w, is_Some err ∧ fenced_now w).
Proof.
  apply frozen_tick. intros row oq HFw. eapply triple_bind; [by apply fence_spec|]. intros ?; cbv beta. apply triple_ret. intros w Hw.
  split; [done|]. exists rt. apply Hw.
Qed.
Lemma frozen_fence e value : triple frozen (_ ← fenceRuntimeRecovery env session; mret (Some e)) (recovered_to value).
Proof. eapply triple_conseq; [apply frozen_stop | done |]. by intros a w [[? ->] Hw]. Qed.

Lemma frozen_slot {A} s (f : RuntimeSlot → RuntimeSlot * A) missing :
  (∀ sl, sl_value (f sl).1 = sl_value sl) → triple frozen (on_slot env s f missing) (λ _, frozen).
Proof. intros Hf. apply frozen_tick. intros row oq HFw. eapply triple_conseq; [by apply slot_spec | done |]. intros a w Hw. by exists row, oq. Qed.
Lemma frozen_heap f :
  (∀ h s, sl_value <$> hp_slots (f h) !! s = sl_value <$> hp_slots h !! s) → triple frozen (on_heap env f) (λ _, frozen).
Proof. intros Hf. apply frozen_tick. intros row oq HFw. eapply triple_conseq; [by apply heap_spec | done |]. intros a w Hw. by exists row, oq. Qed.
Lemma frozen_read {A} (f : nat → pub_world → A) : triple frozen (tick env (λ n w, (w, f n w))) (λ _, frozen).
Proof. apply frozen_tick. intros row oq HFw. apply tick_spec; [done|]. intros n w w' a Hw [= <- _]. by exists row, oq. Qed.
Lemma frozen_release candidate b : triple frozen (release_claim env candidate b) (λ _, frozen).
Proof. apply frozen_slot. intros sl. cbn. unfold releasePublicationClaim. by destruct (sl_publicationClaimed sl). Qed.
Lemma frozen_claim candidate : triple frozen (claim env candidate) (λ _, frozen).
Proof.
  apply frozen_slot. intros sl. destruct (claimPublication sl) as [sl'|] eqn:E; [|done]. unfold claimPublication in E.
  destruct (_ || _); [discriminate|]. by injection E as <-.
Qed.
Lemma frozen_refresh candidate : triple frozen (refresh env candidate) (λ _, frozen).
Proof.
  apply frozen_slot. intros sl. cbn. unfold refreshModelObservation, clearModelObservation.
  destruct (br_ModelController _); [|done]. destruct (_ || _); [done|]. by destruct (sl_retired sl).
Qed.
Lemma frozen_abort candidate : triple frozen (on_heap env (abortUnpublished candidate)) (λ _, frozen).
Proof. apply frozen_heap. intros. apply abort_values. Qed.

Lemma frozen_abandon candidate value : triple frozen (abandon env session candidate) (recovered_to value).
Proof.
  unfold abandon. eapply triple_bind; [apply frozen_release|]. intros ?; cbv beta.
  eapply triple_bind; [apply frozen_abort|]. intros ?; cbv beta. apply frozen_fence.
Qed.

(** The durable end was seen in the row. *)
Definition settled_row (value : runtimeSlotValue) (outcome : string) (b : bool) (w : pub_world) : Prop :=
  ∃ row oq, F row oq ∧ at_ (mkTopic rt true) row oq w ∧ (b = true → ∃ r, row = Some r ∧ commit_matches r operation value outcome = true).

Lemma reads_row value outcome :
  triple frozen (modelRecoveryCommitMatches env fates other_columns operation value outcome) (settled_row value outcome).
Proof.
  apply frozen_tick. intros row oq HFw. unfold modelRecoveryCommitMatches.
  eapply (triple_bind _ _ (λ found w, at_ (mkTopic rt true) row oq w ∧ ∀ r c, found = Ok (Some (r, c)) → row = Some r)).
  { apply tables_spec; [done|]. intros n tb tb' a H1 H2 E. injection E as <- <-. exists row, oq. split_and!; try done. intros w Hw. split; [exact Hw|].
    intros r c E. rewrite Htrim, H1 in E. destruct (fates n), row as [r'|]; try discriminate; destruct (_ <? 0); congruence. }
  intros found. apply triple_ret. intros w [Hw Hf]. exists row, oq. split; [exact HFw|]. split; [exact Hw|].
  destruct found as [[[r c]|]|e]; [|discriminate|discriminate]. intros Hm. exists r. split; [by eapply Hf | exact Hm].
Qed.

Lemma not_settled value outcome : triple frozen (mret false) (settled_row value outcome).
Proof. apply triple_ret. intros w (row & oq & HFw & Hw). by exists row, oq. Qed.

Lemma frozen_get : triple frozen (op_Get env fates ctxErr id) (λ _, frozen).
Proof.
  apply frozen_tick. intros row oq HFw. eapply triple_conseq; [by apply get_spec | done |]. intros a w [Hw _]. by exists row, oq.
Qed.

Lemma finalizes value outcome reason :
  triple frozen (finalizeModelRecovery env clock fates ctxErr other_columns operation value outcome reason) (settled_row value outcome).
Proof.
  unfold finalizeModelRecovery. eapply (triple_bind _ _ (λ _, frozen)).
  { apply frozen_tick. intros row oq HFw. apply tables_spec; [done|]. intros n tb tb' a H1 H2 E. eexists _, _.
    split; [reflexivity|]. split; [reflexivity|]. intros w Hw. eexists _, _. split; [|exact Hw]. rewrite <-H1, <-H2 in HFw. by eapply HF. }
  intros terminal; cbv beta. destruct terminal as [terminal|err].
  - destruct (isPublicationTerminal _ _ _ _); [apply reads_row | apply not_settled].
  - eapply triple_bind; [apply frozen_get|]. intros found; cbv beta. destruct found as [[terminal|]|e]; [|apply not_settled|apply not_settled].
    destruct (isPublicationTerminal _ _ _ _); [apply reads_row | apply not_settled].
Qed.

(** The swap of a candidate made for [value] lifts the fence with the row at the target. *)
Definition swapped_to (value : runtimeSlotValue) (candidate : nat) (w : pub_world) : Prop :=
  ∃ r oq, commit_matches r operation value RuntimeOperationOutcomeContextPreserved = true ∧ F (Some r) oq ∧
    at_ (mkTopic (Some candidate) false) (Some r) oq w.

Lemma commits_recovered incumbent candidate value reason :
  triple frozen (commit_recovered env clock fates ctxErr other_columns incumbent candidate value operation reason)
    (λ b w, if b then swapped_to value candidate w else frozen w).
Proof.
  unfold commit_recovered. eapply triple_bind; [apply finalizes|]. intros ended w w' b (row & oq & HFw & Hw & Hrow) E.
  destruct ended; [|injection E as <- <-; by exists row, oq]. destruct (Hrow eq_refl) as (r & -> & Hr). clear Hrow.
  assert (Ht : triple (at_ (mkTopic rt true) (Some r) oq)
    (swapRecoveredRuntime env session incumbent candidate (ro_ExpectedArchiveID operation) (ro_ExpectedGeneration operation))
    (λ b w, if b then swapped_to value candidate w else frozen w)); [|exact (Ht w w' b Hw E)].
  apply tick_spec; [done|]. clear w w' b Hw E. intros n w w' b Hw E. pose proof Hw as [H1 H2 H3 H6 H7]. rewrite H1 in E.
  destruct (recovering _ _ _ _ _); injection E as <- <-; [|by exists (Some r), oq].
  exists r, oq. split; [done|]. split; [done|]. split; try done. cbn. by rewrite lookup_insert_eq.
Qed.

Lemma swapped_out {A} value candidate (m : pub A) Q :
  (∀ r oq, commit_matches r operation value RuntimeOperationOutcomeContextPreserved = true → F (Some r) oq →
     triple (at_ (mkTopic (Some candidate) false) (Some r) oq) m Q) → triple (swapped_to value candidate) m Q.
Proof. intros Hm w w' a (r & oq & Hr & HFw & Hw) E. exact (Hm r oq Hr HFw w w' a Hw E). Qed.

(** After the swap: the flags, the drain, and the callback that may fence again. *)
Lemma concludes_recovered incumbent candidate value cv (complete : bool) :
  slot_at w0 candidate = Some cv → candidate_of value cv →
  triple (swapped_to value candidate)
    (_ ← release_claim env candidate true; _ ← on_heap env (beginDrain incumbent);
     if complete then _ ← fenceRuntimeRecovery env session; mret (Some ErrRuntimeRecoveryRequired) else mret None)
    (recovered_to value).
Proof.
  intros Hcv Hof. apply swapped_out. intros r oq Hr HFw.
  eapply triple_bind; [apply slot_spec; [done|]; intros sl; cbn; unfold releasePublicationClaim; by destruct (sl_publicationClaimed sl)|].
  intros ?; cbv beta. eapply triple_bind; [apply heap_spec; [done|]; intros; apply drain_values|]. intros ?; cbv beta.
  destruct complete.
  - eapply triple_bind; [by apply fence_spec|]. intros ?; cbv beta. apply triple_ret. intros w Hw. exists (Some candidate). apply Hw.
  - apply triple_ret. intros w [H1 H2 H3 H6 H7]. exists candidate, cv, r. split_and!; try done; [by apply H6 | by exists oq].
Qed.

Lemma finishes incumbent candidate value cv :
  slot_at w0 candidate = Some cv → candidate_of value cv →
  triple frozen (finishRecoveredModelReplacement env clock fates ctxErr other_columns incumbent candidate value operation)
    (recovered_to value).
Proof.
  intros Hcv Hof. unfold finishRecoveredModelReplacement. eapply triple_bind; [apply frozen_claim|]. intros claimed; cbv beta.
  destruct claimed; cbn [negb]; [|apply frozen_fence]. eapply triple_bind; [apply frozen_refresh|]. intros ?; cbv beta.
  eapply triple_bind; [apply frozen_read|]. intros callback; cbv beta. destruct (fails callback.1); [apply frozen_abandon|].
  eapply triple_bind; [by apply commits_recovered|]. intros swapped.
  destruct swapped; cbn [negb]; [by eapply concludes_recovered | apply frozen_abandon].
Qed.
End from.

(** *** Making the candidate *)
Definition made_from (v : runtimeSlotValue) (h h' : runtime_heap) (s : nat) : Prop :=
  (∃ cv, sl_value <$> hp_slots h' !! s = Some cv ∧ candidate_of v cv) ∧
  ∀ s0 v0, sl_value <$> hp_slots h !! s0 = Some v0 → sl_value <$> hp_slots h' !! s0 = Some v0.

Lemma fresh_values h (slots : gmap nat RuntimeSlot) sl s0 v0 :
  slots = hp_slots h → sl_value <$> slots !! s0 = Some v0 →
  sl_value <$> (<[fresh (dom slots) := sl]> slots) !! s0 = Some v0.
Proof.
  intros _ Hv. rewrite lookup_insert_ne; [done|]. intros <-. by rewrite (fresh_slot slots) in Hv.
Qed.

Lemma shared_model_value sl h h' s :
  0 ≤ sv_generation (sl_value sl) < 2 ^ 64 →
  sharedModelSuccessor sl (ro_TargetModel operation) RuntimeOperationOutcomeContextPreserved h = Ok (h', s) →
  made_from (sl_value sl) h h' s.
Proof.
  intros Hrange. unfold sharedModelSuccessor. destruct (_ =? max_u64) eqn:Hmax; [discriminate|]. unfold sharedSuccessor, shared_slot.
  destruct (sl_retired sl); [discriminate|]. destruct (hp_owners h !! sl_owner sl ≫= retain); [|discriminate]. intros [= <- <-].
  apply Z.eqb_neq in Hmax. unfold max_u64 in Hmax. split.
  - eexists. cbn. rewrite lookup_insert_eq. split; [done|]. unfold candidate_of. cbn. split_and!; try done.
    unfold u64. by rewrite Z.mod_small by lia.
  - intros s0 v0 Hv. cbn. by apply (fresh_values h).
Qed.

Lemma independent_model_value sl runtime sess h h' s :
  independentModelSuccessor sl runtime sess (ro_TargetModel operation) RuntimeOperationOutcomeContextPreserved h = Ok (h', s) →
  made_from (sl_value sl) h h' s.
Proof.
  unfold independentModelSuccessor. destruct runtime as [runtime|]; [|discriminate]. destruct sess as [sess|]; [|discriminate].
  intros ([] & Hbad & E)%bind_Ok. apply reject_if_Ok in Hbad. rewrite !orb_false_iff in Hbad. destruct Hbad as [[_ Hpins] _].
  apply negb_false_iff in Hpins. unfold same_pins in Hpins. rewrite andb_true_iff, !bool_decide_eq_true in Hpins. destruct Hpins as [P1 P2].
  apply Ok_inj in E. injection E as <- <-. split.
  - eexists. cbn. rewrite lookup_insert_eq. split; [done|]. unfold candidate_of. cbn. by split_and!.
  - intros s0 v0 Hv. cbn. by apply (fresh_values h).
Qed.

(** From here the candidate is one of the slots of the world. *)
Lemma triple_made {B} w0 rt incumbent value f (k : result nat → pub B) Q :
  slot_at w0 incumbent = Some value →
  (∀ sl h h' s, sl_value sl = value → f sl h = Ok (h', s) → made_from value h h' s) →
  (∀ err, triple (frozen w0 rt) (k (Err err)) Q) →
  (∀ w s cv, slot_at w s = Some cv → slot_at w incumbent = Some value → candidate_of value cv → triple (frozen w rt) (k (Ok s)) Q) →
  triple (frozen w0 rt) (made ← make_successor env incumbent f; k made) Q.
Proof.
  intros Hinc Hf Herr Hok. eapply (triple_bind _ _ (λ made w, match made with
    | Ok s => frozen w rt w ∧ ∃ cv, slot_at w s = Some cv ∧ slot_at w incumbent = Some value ∧ candidate_of value cv
    | Err _ => frozen w0 rt w end)).
  - apply frozen_tick. intros row oq HFw. apply tick_spec; [done|]. intros n w w' made Hw E. pose proof Hw as [H1 H2 H3 H6 H7].
    pose proof (H6 _ _ Hinc) as Hv. unfold slot_at in Hv. destruct (hp_slots (pw_heap w) !! incumbent) as [sl|]; [|discriminate].
    cbn in Hv. destruct (f sl (pw_heap w)) as [[h' s']|err] eqn:Ef; injection E as <- <-; [|by exists row, oq].
    destruct (Hf sl (pw_heap w) h' s' ltac:(congruence) Ef) as ((cv & Hcv & Hof) & Hkeep).
    split; [by exists row, oq|]. exists cv. split; [done|]. split; [by apply Hkeep, H6 | done].
  - intros [s|err]; [|apply Herr]. intros w w' b [Hw (cv & Hcv & Hi & Hof)] E. exact (Hok w s cv Hcv Hi Hof w w' b Hw E).
Qed.

(** *** An active session *)
Lemma applies w0 rt incumbent value answer :
  slot_at w0 incumbent = Some value → 0 ≤ sv_generation value < 2 ^ 64 →
  triple (frozen w0 rt) (applyModelRecoveryChange env clock fates ctxErr other_columns incumbent value operation answer) (recovered_to value).
Proof.
  intros Hinc Hrange. unfold applyModelRecoveryChange.
  destruct (mc_Status answer); try apply frozen_fence.
  - apply (triple_made w0 rt incumbent value); [done | intros sl h h' s <-; by apply shared_model_value | intros; apply frozen_fence |].
    intros w s cv Hcv Hi Hof. eapply triple_bind; [apply frozen_claim|]. intros claimed; cbv beta. destruct claimed; cbn [negb].
    + eapply triple_bind; [apply frozen_refresh|]. intros ?; cbv beta. eapply triple_bind; [by apply commits_recovered|].
      intros swapped. destruct swapped; cbn [negb]; [by apply (concludes_recovered w incumbent s value cv false) | apply frozen_abandon].
    + eapply triple_bind; [apply frozen_abort|]. intros ?; cbv beta. apply frozen_fence.
  - destruct (_ || _).
    + eapply (triple_bind _ _ (λ _, frozen w0 rt)); [by apply triple_ret|]. intros ?; cbv beta. apply frozen_fence.
    + unfold model_successor. apply (triple_made w0 rt incumbent value); [done | intros sl h h' s <-; by apply independent_model_value | |].
      * intros err. eapply (triple_bind _ _ (λ _, frozen w0 rt)); [by apply triple_ret|]. intros ?; cbv beta. apply frozen_fence.
      * intros w s cv Hcv Hi Hof. by eapply finishes.
Qed.

Lemma triple_asked {B} w0 rt incumbent value change model (k : RuntimeModelChange → pub B) Q :
  slot_at w0 incumbent = Some value →
  (∀ w answer, slot_at w incumbent = Some value → triple (frozen w rt) (k answer) Q) →
  triple (frozen w0 rt) (answer ← ask env change id value model; k answer) Q.
Proof.
  intros Hinc Hk. eapply (triple_bind _ _ (λ answer w, frozen w rt w ∧ slot_at w incumbent = Some value)).
  - apply frozen_tick. intros row oq HFw. apply tick_spec; [done|]. intros n w w' answer [H1 H2 H3 H6 H7] E. injection E as <- _.
    split; [by exists row, oq | by apply H6].
  - intros answer w w' b [Hw Hi] E. exact (Hk w answer Hi w w' b Hw E).
Qed.

Lemma adopts_promoted {B} w0 rt incumbent value adoptable (k : option nat → pub B) Q :
  slot_at w0 incumbent = Some value → triple (frozen w0 rt) (k None) Q →
  (∀ w s cv, slot_at w s = Some cv → candidate_of value cv → triple (frozen w rt) (k (Some s)) Q) →
  triple (frozen w0 rt) (adopted ← adoptPromotedModelReplacement env adoptable incumbent value operation; k adopted) Q.
Proof.
  intros Hinc Hnone Hsome. unfold adoptPromotedModelReplacement. destruct (_ =? 0).
  { eapply (triple_bind _ _ (λ a w, a = None ∧ frozen w0 rt w)); [by apply triple_ret|]. intros a w w' b [-> Hw] E. by eapply Hnone. }
  intros w w' b Hw E. unfold mbind, pub_bind in E.
  destruct (tick env (λ n w, (w, adoptable n)) w) as [w1 runtime] eqn:E1. pose proof (frozen_read w0 rt _ _ _ _ Hw E1) as Hw1.
  destruct runtime as [runtime|]; [|cbn in E; by eapply Hnone].
  refine (triple_made w0 rt incumbent value
    (λ sl, independentModelSuccessor sl (Some runtime) (sv_session value) (ro_TargetModel operation) RuntimeOperationOutcomeContextPreserved)
    (λ candidate, k match candidate with Ok s => Some s | Err _ => None end) Q Hinc _ _ _ w1 w' b Hw1 _).
  - intros sl h h' s <-. by apply independent_model_value.
  - intros err. exact Hnone.
  - intros w2 s cv Hcv _ Hof. by eapply Hsome.
  - unfold model_successor in E. unfold mbind, pub_bind. destruct (make_successor _ _ _ w1) as [w2 made]. exact E.
Qed.

(** Where the recovery ends, for the value it found in place. *)
Definition recovered (record : session_row) (columns : session_columns) (err : option error) (w : pub_world) : Prop :=
  match err with
  | Some _ => fenced_now w
  | None => ∃ value, modelRecoveryValueMatches value record columns operation = true ∧ recovered_to value None w
  end.

Lemma finds_runtime w0 rt :
  triple (frozen w0 rt) (modelRecoveryRuntime env operation) (λ found w, frozen w rt w ∧
    ∀ s v, found = Some (s, v) → slot_at w s = Some v).
Proof.
  unfold modelRecoveryRuntime, runtimeForRecovery.
  eapply (triple_bind _ _ (λ (found : option (nat * runtimeSlotValue) * bool) w, frozen w rt w ∧ ∀ s v, found.1 = Some (s, v) → slot_at w s = Some v)).
  - apply frozen_tick. intros row oq HFw. apply tick_spec; [done|]. intros n w w' found [H1 H2 H3 H6 H7] E. rewrite H1 in E. injection E as <- <-.
    split; [by exists row, oq|]. intros s v Hf. cbn in Hf. destruct rt as [s0|]; [|discriminate].
    destruct (slot_at w s0) as [v0|] eqn:Hv; [|discriminate]. by injection Hf as <- <-.
  - intros [found b]. apply triple_ret. intros w [Hw Hf]. split; [exact Hw|]. intros s v Hs. destruct found as [[s1 v1]|]; [|by destruct b].
    destruct b; [|discriminate]. destruct (_ && _); [|discriminate]. injection Hs as <- <-. by apply Hf.
Qed.

Lemma recovers_active w0 rt change adoptable record columns :
  0 ≤ ro_ExpectedGeneration operation < 2 ^ 64 →
  triple (frozen w0 rt) (recoverActiveModelOperation env clock fates ctxErr change adoptable other_columns record columns operation)
    (recovered record columns).
Proof.
  intros Hrange. unfold recoverActiveModelOperation.
  assert (Hfail : ∀ w1, triple (frozen w1 rt) (fenced_error env session) (recovered record columns)).
  { intros w1. eapply triple_conseq; [by apply frozen_stop | done |]. by intros a w [[? ->] Hw]. }
  eapply triple_bind; [apply finds_runtime|]. intros found w w' err [Hw Hfound] E.
  destruct found as [[incumbent value]|]; [|by eapply Hfail]. specialize (Hfound _ _ eq_refl). destruct (_ || _) eqn:Hbad; [by eapply Hfail|].
  apply orb_false_iff in Hbad as [Hm _]. apply negb_false_iff in Hm.
  assert (Hgen : sv_generation value = ro_ExpectedGeneration operation).
  { unfold modelRecoveryValueMatches in Hm. rewrite !andb_true_iff, Z.eqb_eq in Hm. tauto. }
  assert (Hout : ∀ w1 (m : pub (option error)), triple (frozen w1 rt) m (recovered_to value) → triple (frozen w1 rt) m (recovered record columns)).
  { intros w1 m Ht. eapply triple_conseq; [exact Ht | done |]. intros [e|] w2 H2; [exact H2 | by exists value]. }
  refine (adopts_promoted w rt incumbent value adoptable _ _ Hfound _ _ w w' err Hw E).
  - refine (triple_asked w rt incumbent value change _ _ _ Hfound _). intros w1 answer Hi. apply Hout, applies; [done | by rewrite Hgen].
  - intros w1 s cv Hcv Hof. by eapply Hout, finishes.
Qed.

Lemma agrees_at_target value v row record columns MaxModelIDBytes :
  TrimSpace (ro_TargetArchiveID operation) = ro_TargetArchiveID operation →
  modelRecoveryRecordMatches MaxModelIDBytes record columns operation = true →
  modelRecoveryValueMatches value record columns operation = true → candidate_of value v →
  commit_matches row operation value RuntimeOperationOutcomeContextPreserved = true →
  row_agrees row v ∧ sv_generation v = u64 (ro_ExpectedGeneration operation + 1).
Proof.
  intros Htarget Hr Hm (C1 & C2 & C3 & C4 & C5 & C6) Hc. unfold modelRecoveryRecordMatches in Hr. rewrite Htarget in Hr.
  rewrite !andb_true_iff, !orb_true_iff, !bool_decide_eq_true in Hr. destruct Hr as [[_ Ht] _].
  unfold modelRecoveryValueMatches in Hm. rewrite !andb_true_iff, !bool_decide_eq_true, Z.eqb_eq in Hm.
  destruct Hm as [[[[[[V1 V2] _] V3] V4] _] _]. unfold commit_matches in Hc. rewrite bool_decide_false in Hc by done.
  rewrite !andb_true_iff, !bool_decide_eq_true, Z.eqb_eq in Hc. destruct Hc as [[[[[[R1 R2] R3] R4] _] R5] R6].
  split; [|congruence]. unfold row_agrees. split_and!; try congruence. rewrite R1, C1, V1. unfold text_or. case_bool_decide; [done|].
  by destruct Ht as [?| ->].
Qed.

Lemma recovers_applying w0 t0 row oq change adoptable reopen MaxModelIDBytes :
  F row oq →
  TrimSpace (ro_TargetArchiveID operation) = ro_TargetArchiveID operation → 0 ≤ ro_ExpectedGeneration operation < 2 ^ 64 →
  triple (here session id w0 t0 row oq)
    (recoverApplyingModelOperation env clock fates ctxErr MaxModelIDBytes change adoptable reopen other_columns operation)
    (λ err w, match err with
      | Some _ => fenced_now w
      | None => ∃ s v row, pw_sessions w !! session = Some (mkTopic (Some s) false) ∧ slot_at w s = Some v ∧
          rt_sessions (pw_tables w) !! session = Some row ∧ row_agrees row v ∧
          sv_effectiveModel v = ro_TargetModel operation ∧ sv_generation v = u64 (ro_ExpectedGeneration operation + 1)
      end).
Proof.
  intros HFw Htarget Hrange. set (Q := λ err w, _). unfold recoverApplyingModelOperation, refuse_recovery, fence_session. rewrite Htrim.
  assert (Hrefuse : ∀ t row oq, triple (here session id w0 t row oq)
    (_ ← fenceRuntimeRecovery env session; mret (Some ErrRuntimeRecoveryRequired)) Q).
  { intros t r o. eapply triple_bind; [by apply fence_spec|]. intros ?; cbv beta. apply triple_ret. intros w Hw. exists (tp_runtime t). apply Hw. }
  destruct (_ || _); [apply Hrefuse|]. eapply triple_bind; [by apply fence_spec|]. intros ?; cbv beta.
  set (t1 := mkTopic (tp_runtime t0) true).
  eapply (triple_bind _ _ (λ _, here session id w0 t1 row oq)).
  { apply tables_spec; [done|]. intros n tb tb' b H1 H2 E. injection E as <- _. exists row, oq. by split_and!. }
  intros found; cbv beta. destruct found as [[[record columns]|]|e]; [|apply Hrefuse|apply Hrefuse].
  destruct (modelRecoveryRecordMatches _ _ _ _) eqn:Hrec; cbn [negb]; [|apply Hrefuse].
  eapply (triple_bind _ _ (λ topic w, topic = Some t1 ∧ here session id w0 t1 row oq w)).
  { apply tick_spec; [done|]. intros n w w' b Hw E. injection E as <- <-. split; [apply Hw | exact Hw]. }
  intros topic w w' err [-> Hw] E.
  assert (Hfrozen : frozen w0 (tp_runtime t0) w) by by exists row, oq.
  pose proof (recovers_active w0 _ change adoptable record columns Hrange w w' err Hfrozen E) as Hr.
  destruct err as [e|]; [exact Hr|]. destruct Hr as (value & Hm & s & v & r & Hs & Hv & Hof & Hrow & Hc & _).
  destruct (agrees_at_target value v r record columns MaxModelIDBytes Htarget Hrec Hm Hof Hc) as [Ha Hg]. exists s, v, r.
  split_and!; try done. apply Hof.
Qed.
End recovering.

(** ** Properties *)

(** C11. Recovery of a model operation found applying lifts the fence of an active session
    only in agreement: when it reports success the session runs a runtime at the
    operation's model and the next generation, and the durable row says the same; when
    it fails the session is fenced. This holds whatever the provider answers, whatever
    the runtime manager offers and however each transaction ends. *)
Theorem recovery_lifts_fence_in_agreement `{BindingCodec} env clock fates ctxErr operation MaxModelIDBytes change adoptable reopen
    other_columns t0 w w' err :
  (∀ n w, quiet (ro_SessionID operation) (ro_OperationID operation) w (env n w)) →
  TrimSpace (ro_SessionID operation) = ro_SessionID operation →
  TrimSpace (ro_TargetArchiveID operation) = ro_TargetArchiveID operation →
  0 ≤ ro_ExpectedGeneration operation < 2 ^ 64 →
  pw_sessions w !! ro_SessionID operation = Some t0 →
  recoverApplyingModelOperation env clock fates ctxErr MaxModelIDBytes change adoptable reopen other_columns operation w = (w', err) →
  ∃ t, pw_sessions w' !! ro_SessionID operation = Some t ∧
    match err with
    | Some _ => tp_recoveryRequired t = true
    | None => tp_recoveryRequired t = false ∧ ∃ s v row, tp_runtime t = Some s ∧ slot_at w' s = Some v ∧
        rt_sessions (pw_tables w') !! ro_SessionID operation = Some row ∧ row_agrees row v ∧
        sv_effectiveModel v = ro_TargetModel operation ∧ sv_generation v = u64 (ro_ExpectedGeneration operation + 1)
    end.
Proof.
  intros Hq Htrim Htarget Hrange Ht Hrun.
  pose proof (recovers_applying env clock fates ctxErr operation Hq other_columns Htrim (λ _ _, True) ltac:(done) w t0 _ _ change adoptable reopen MaxModelIDBytes
    I Htarget Hrange w w' err ltac:(by split) Hrun) as Hr.
  destruct err as [e|]; [by destruct Hr as [rt Hrt]; exists (mkTopic rt true)|].
  destruct Hr as (s & v & row & Hs & Hv & Hrow & Ha & Hm & Hg). exists (mkTopic (Some s) false). split; [done|]. split; [done|].
  by exists s, v, row.
Qed.

(** ** Witnesses *)
Definition demo_runtime (model : string) : BuiltRuntime :=
  mkBuiltRuntime (Some 1%nat) (Some 2%nat) (Some (mkControlSnapshot true model "")) "app" "snap" "{}" model 0 None None None.
Definition demo_session : adk_session := mkAdkSession 7 "app" "user" "conv" (Some 3).
Definition demo_value : runtimeSlotValue :=
  mkSlotValue (demo_runtime "model-a") (Some demo_session) "provider" "app" "user" "conv" "a1" 3 "model-a" "".
Definition demo_model_heap : runtime_heap :=
  mkHeap (<[0%nat := markPublished (newRuntimeSlotWithOwner demo_value 0)]> ∅) (<[0%nat := mkOwner 1 None None false]> ∅) ∅ [].
Definition demo_operation : RuntimeOperationRecord :=
  mkRuntimeOperation "op" "s1" demo_hash RuntimeOperationKindModel RuntimeOperationApplying "a1" 3 "" "snap" "{}" "model-b"
    (Some "model-b") "" "" 1000000 1000000 None.
Definition demo_model_tables (ops : gmap string RuntimeOperationRecord) : runtime_tables :=
  mkTables ops (<["s1" := mkSessionRow "a1" 3 "snap" "{}" None "model-a" ""]> ∅).
Definition demo_interrupted : pub_world :=
  mkPubWorld demo_model_heap (<["s1" := mkTopic (Some 0%nat) true]> ∅) (demo_model_tables (<["op" := demo_operation]> ∅)) [] 0.
Definition demo_change (status : agentproduct.ModelChangeStatus) (n : nat) (identity : RuntimeSessionIdentity) (model : string) : RuntimeModelChange :=
  mkModelChange status None identity.
Definition demo_recovered : pub_world * option error :=
  recoverApplyingModelOperation (λ _ w, w) (λ n, 5000000 + Z.of_nat n) (λ _, Commits) (λ _, None) 512 (demo_change agentproduct.ModelApplied)
    (λ _, None) (λ _, Err (ErrText "closed")) (λ _, mkColumns "s1" "active" "user") demo_operation demo_interrupted.

Lemma recovery_lifts_fence_in_agreement_witness :
  demo_recovered.2 = None ∧ ∃ t, pw_sessions demo_recovered.1 !! "s1" = Some t ∧ tp_recoveryRequired t = false.
Proof.
  assert (E : demo_recovered.2 = None) by (vm_compute; reflexivity). split; [exact E|].
  destruct (recovery_lifts_fence_in_agreement (λ _ w, w) (λ n, 5000000 + Z.of_nat n) (λ _, Commits) (λ _, None) demo_operation 512
    (demo_change agentproduct.ModelApplied) (λ _, None) (λ _, Err (ErrText "closed")) (λ _, mkColumns "s1" "active" "user")
    (mkTopic (Some 0%nat) true) demo_interrupted demo_recovered.1 None) as (t & Ht & Hf & _).
  - intros n w. by split.
  - vm_compute. reflexivity.
  - reflexivity.
  - vm_compute. by split.
  - reflexivity.
  - rewrite <-E. apply surjective_pairing.
  - exists t. by split.
Defined.
