(* ===== verification/ModelChange.v ===== *)
(** * ModelChange: changing the model of a session

    src/internal/apps/balda/session/model_change.go.  A change is an operation of the
    journal with a boundary in the middle: before it the operation is prepared and
    marked applying, then the provider is asked, and what it answers is published or
    concluded.  Everything runs under the locks of the operation and of its session. *)

From Stdlib Require Import ZArith Lia Ascii String.
From stdpp Require Import base numbers list gmap strings relations.
From S2P Require Import Prelude.
From S2P Require Import GoStrings.
From S2P Require Import GoNumeric.
From S2P Require Import RuntimeOperations.
From S2P Require Import RuntimeSlots.
From S2P Require Import RuntimePublication.
From S2P Require Import ModelRecovery.

Local Open Scope string_scope.
Local Open Scope list_scope.
Local Open Scope Z_scope.

(** ** Vocabulary *)
Definition ModelChangeChangedLive : string := "changed_live".
Definition ModelChangeChangedReplacement : string := "changed_replacement".
Definition ModelChangeUnsupported : string := "unsupported".
Definition ModelChangeIncompatible : string := "incompatible".
Definition ModelChangeRejected : string := "rejected".
Definition ModelChangeBusy : string := "busy".
Definition ModelChangeConflict : string := "conflict".
Definition ModelChangeUnavailable : string := "unavailable".
Definition ModelChangeRecoveryRequired : string := "recovery_required".

Definition RuntimeOperationReasonUnsupported : string := "unsupported".
Definition RuntimeOperationReasonInvalid : string := "invalid".
Definition RuntimeOperationReasonFailed : string := "failed".
Definition RuntimeOperationReasonIncompatible : string := "incompatible".
Definition RuntimeOperationReasonRejected : string := "rejected".
Definition RuntimeOperationReasonBusy : string := "busy".
Definition RuntimeOperationReasonClosed : string := "closed".
Definition RuntimeOperationReasonUnavailable : string := "unavailable".
Definition RuntimeOperationReasonPreDispatch : string := "pre_dispatch".

Record ModelChangeRequest := mkRequest {
  mr_OperationID : string; mr_SessionID : string; mr_InputHash : string; mr_TargetModel : string }.
Record ModelChangeResult := mkResult {
  md_Status : string; md_EffectiveModel : string; md_Reason : string; md_Generation : Z }.
Definition change_result : Type := ModelChangeResult * option error.

(** ** Values *)
Definition validModelInputHash (value : string) : bool :=
  (len value =? 64) && bool_decide (ToLower value = value) && hex_decodes value.

Definition sameModelRequest (operation : RuntimeOperationRecord) (request : ModelChangeRequest) : bool :=
  bool_decide (ro_OperationID operation = mr_OperationID request) && bool_decide (ro_SessionID operation = mr_SessionID request) &&
  bool_decide (ro_InputHash operation = mr_InputHash request) && bool_decide (ro_Kind operation = RuntimeOperationKindModel) &&
  bool_decide (ro_TargetModel operation = mr_TargetModel request).

Definition modelOperationIntent (request : ModelChangeRequest) (value : runtimeSlotValue) (at_ : Z) : RuntimeOperationRecord :=
  mkRuntimeOperation (mr_OperationID request) (mr_SessionID request) (mr_InputHash request) RuntimeOperationKindModel
    RuntimeOperationPrepared (sv_archiveID value) (sv_generation value) "" (br_RuntimeSnapshotID (sv_runtime value))
    (br_ProviderBindingJSON (sv_runtime value)) (mr_TargetModel request) (Some (mr_TargetModel request)) "" "" at_ at_ None.

Definition validationModelResult (status : agentproduct.ModelValidationStatus) (value : runtimeSlotValue) : ModelChangeResult :=
  let result status reason := mkResult status (sv_effectiveModel value) reason (sv_generation value) in
  match status with
  | agentproduct.ModelUnsupported => result ModelChangeUnsupported RuntimeOperationReasonUnsupported
  | agentproduct.ModelIncompatible => result ModelChangeIncompatible RuntimeOperationReasonIncompatible
  | agentproduct.ModelBusy => result ModelChangeBusy RuntimeOperationReasonBusy
  | agentproduct.ModelClosed => result ModelChangeUnavailable RuntimeOperationReasonClosed
  | _ => result ModelChangeUnavailable RuntimeOperationReasonFailed
  end.

Definition changeModelNoop (status : agentproduct.ModelChangeStatus) : string * string :=
  match status with
  | agentproduct.ModelChangeUnsupported => (ModelChangeUnsupported, RuntimeOperationReasonUnsupported)
  | agentproduct.ModelChangeIncompatible => (ModelChangeIncompatible, RuntimeOperationReasonIncompatible)
  | agentproduct.ModelRejected => (ModelChangeRejected, RuntimeOperationReasonRejected)
  | agentproduct.ModelChangeBusy => (ModelChangeBusy, RuntimeOperationReasonBusy)
  | agentproduct.ModelChangeClosed => (ModelChangeUnavailable, RuntimeOperationReasonClosed)
  | _ => (ModelChangeUnavailable, RuntimeOperationReasonPreDispatch)
  end.

Definition modelResultFromReason (reason : string) : string :=
  if bool_decide (reason = RuntimeOperationReasonUnsupported) then ModelChangeUnsupported
  else if bool_decide (reason = RuntimeOperationReasonIncompatible) then ModelChangeIncompatible
  else if bool_decide (reason = RuntimeOperationReasonRejected) then ModelChangeRejected
  else if bool_decide (reason = RuntimeOperationReasonBusy) then ModelChangeBusy
  else ModelChangeUnavailable.

Definition modelSuccessResultFromReason (reason : string) : string :=
  if bool_decide (reason = RuntimeOperationReasonChangedLive) then ModelChangeChangedLive
  else if bool_decide (reason = RuntimeOperationReasonChangedReplacement) then ModelChangeChangedReplacement
  else "".

Definition preBoundaryWriteResult (err : error) : ModelChangeResult :=
  if errors_Is err ErrRuntimeOperationConflict || errors_Is err ErrRuntimeOperationInvalid
  then mkResult ModelChangeConflict "" RuntimeOperationReasonInvalid 0
  else mkResult ModelChangeUnavailable "" RuntimeOperationReasonUnavailable 0.

Definition invalid_result : ModelChangeResult := mkResult ModelChangeConflict "" RuntimeOperationReasonInvalid 0.
Definition unavailable_result : ModelChangeResult := mkResult ModelChangeUnavailable "" RuntimeOperationReasonUnavailable 0.
Definition recoveryRequiredModelResult : change_result :=
  (mkResult ModelChangeRecoveryRequired "" RuntimeOperationReasonUnavailable 0, Some ErrRuntimeRecoveryRequired).

(** What a terminal operation replays as, when the runtime in place still bears it out. *)
Definition replays_success (current : runtimeSlotValue) (operation : RuntimeOperationRecord) : bool :=
  bool_decide (ro_Outcome operation = RuntimeOperationOutcomeContextPreserved) &&
  bool_decide (sv_archiveID current = ro_ExpectedArchiveID operation) &&
  (sv_generation current =? u64 (ro_ExpectedGeneration operation + 1)) &&
  bool_decide (sv_effectiveModel current = ro_TargetModel operation) &&
  bool_decide (br_RuntimeSnapshotID (sv_runtime current) = ro_TargetSnapshotID operation) &&
  bool_decide (br_ProviderBindingJSON (sv_runtime current) = ro_TargetProviderBindingJSON operation) &&
  bool_decide (sv_outcome current = RuntimeOperationOutcomeContextPreserved) &&
  negb (bool_decide (modelSuccessResultFromReason (ro_ReasonCode operation) = "")).
Definition replays_noop (current : runtimeSlotValue) (operation : RuntimeOperationRecord) : bool :=
  bool_decide (ro_Outcome operation = RuntimeOperationOutcomeAborted) &&
  bool_decide (sv_archiveID current = ro_ExpectedArchiveID operation) &&
  (sv_generation current =? ro_ExpectedGeneration operation) &&
  bool_decide (br_RuntimeSnapshotID (sv_runtime current) = ro_TargetSnapshotID operation) &&
  bool_decide (br_ProviderBindingJSON (sv_runtime current) = ro_TargetProviderBindingJSON operation).

Section changing.
  Context `{BindingCodec}.
  Context (env : nat → pub_world → pub_world) (clock : nat → Z) (fates : nat → fate) (ctxErr : nat → option error).
  Context (MaxModelIDBytes : Z).
  (** [ValidateModel] and [ChangeModel] of the controller of a runtime. *)
  Context (validate : nat → RuntimeSessionIdentity → string → agentproduct.ModelValidationStatus).
  Context (change : nat → RuntimeSessionIdentity → string → RuntimeModelChange).
  Context (adoptable : nat → option BuiltRuntime).
  Context (other_columns : nat → session_columns).

(** ** Ends *)
Definition fence_result (session : string) : pub change_result :=
  _ ← fenceRuntimeRecovery env session;
  mret recoveryRequiredModelResult.

Definition replayModelResult (session : string) (current : runtimeSlotValue) (operation : RuntimeOperationRecord) : pub change_result :=
  if replays_success current operation then
    mret (mkResult (modelSuccessResultFromReason (ro_ReasonCode operation)) (ro_TargetModel operation) (ro_ReasonCode operation)
            (u64 (ro_ExpectedGeneration operation + 1)), None)
  else if replays_noop current operation then
    mret (mkResult (modelResultFromReason (ro_ReasonCode operation)) (sv_effectiveModel current) (ro_ReasonCode operation)
            (sv_generation current), None)
  else fence_result session.

Definition resolveAuthoritativeModelWrite (session : string) (value : runtimeSlotValue) (operation : RuntimeOperationRecord) (writeErr : error) :
    pub change_result :=
  if bool_decide (ro_State operation = RuntimeOperationPrepared) then mret (preBoundaryWriteResult writeErr, None)
  else if bool_decide (ro_State operation = RuntimeOperationTerminal) then replayModelResult session value operation
  else fence_result session.

Definition resolveBeginFailure (value : runtimeSlotValue) (request : ModelChangeRequest) (writeErr : error) : pub change_result :=
  found ← op_Get env fates ctxErr (mr_OperationID request);
  match found with
  | Err _ => fence_result (mr_SessionID request)
  | Ok None => mret (preBoundaryWriteResult writeErr, None)
  | Ok (Some operation) =>
      if negb (sameModelRequest operation request) then mret (invalid_result, None)
      else resolveAuthoritativeModelWrite (mr_SessionID request) value operation writeErr
  end.

Definition resolveMarkApplyingFailure (value : runtimeSlotValue) (request : ModelChangeRequest) (writeErr : error) : pub change_result :=
  found ← op_Get env fates ctxErr (mr_OperationID request);
  match found with
  | Ok (Some operation) =>
      if negb (sameModelRequest operation request) then fence_result (mr_SessionID request)
      else resolveAuthoritativeModelWrite (mr_SessionID request) value operation writeErr
  | _ => fence_result (mr_SessionID request)
  end.

Definition unavailableModelRuntimeResult (session : string) : pub change_result :=
  topic ← read_topic env session;
  mret match topic with
       | Some t => if tp_recoveryRequired t then recoveryRequiredModelResult else (unavailable_result, None)
       | None => (unavailable_result, None)
       end.

Definition modelRuntimeValue (session : string) : pub (option (nat * runtimeSlotValue)) :=
  tick env (λ _ w, (w, match pw_sessions w !! session with
                       | None => None
                       | Some t => if tp_recoveryRequired t then None
                                   else match tp_runtime t with Some s => pair s <$> slot_at w s | None => None end
                       end)).

(** ** After the provider answered *)
Definition publishModelChange (incumbent candidate : nat) (intent : RuntimeOperationRecord) (status reason : string) : pub change_result :=
  published ← with_values incumbent candidate (λ iv cv,
    publishRuntimeStateLocked env clock fates ctxErr incumbent candidate iv cv intent RuntimeOperationOutcomeContextPreserved true reason);
  mret match published.2 with
       | Some _ => recoveryRequiredModelResult
       | None => (mkResult status (ro_TargetModel intent) reason (u64 (ro_ExpectedGeneration intent + 1)), None)
       end.

Definition finalizeModelNoop (intent : RuntimeOperationRecord) (status reason : string) : pub change_result :=
  terminal ← op_Finalize env clock fates ctxErr intent RuntimeOperationOutcomeAborted reason;
  match terminal with
  | Ok terminal =>
      if isPublicationTerminal terminal intent RuntimeOperationOutcomeAborted reason then
        found ← runtimeForRecovery env (ro_SessionID intent);
        mret match found.1 with
             | Some (_, value) => (mkResult status (sv_effectiveModel value) reason (sv_generation value), None)
             | None => (mkResult status "" reason 0, None)
             end
      else fence_result (ro_SessionID intent)
  | Err _ => fence_result (ro_SessionID intent)
  end.

(** The answer of the provider, with the operation applying. *)
Definition conclude_change (incumbent : nat) (value : runtimeSlotValue) (intent : RuntimeOperationRecord) (answer : RuntimeModelChange) :
    pub change_result :=
  match mc_Status answer with
  | agentproduct.ModelApplied =>
      made ← make_successor env incumbent (λ sl, sharedModelSuccessor sl (ro_TargetModel intent) RuntimeOperationOutcomeContextPreserved);
      match made with
      | Err _ => fence_result (ro_SessionID intent)
      | Ok candidate =>
          _ ← refresh env candidate;
          publishModelChange incumbent candidate intent ModelChangeChangedLive RuntimeOperationReasonChangedLive
      end
  | agentproduct.ModelReplacement =>
      if negb (bool_decide (is_Some (mc_Candidate answer))) ||
         negb (verifiedModelIdentityMatches (mc_Identity answer) (runtimeIdentity value)) then
        _ ← closeModelCandidate (mc_Candidate answer);
        fence_result (ro_SessionID intent)
      else
        made ← model_successor env incumbent value (mc_Candidate answer) (ro_TargetModel intent);
        match made with
        | Err _ => _ ← closeModelCandidate (mc_Candidate answer); fence_result (ro_SessionID intent)
        | Ok candidate =>
            _ ← refresh env candidate;
            publishModelChange incumbent candidate intent ModelChangeChangedReplacement RuntimeOperationReasonChangedReplacement
        end
  | agentproduct.ModelAmbiguous => fence_result (ro_SessionID intent)
  | status => let '(status, reason) := changeModelNoop status in finalizeModelNoop intent status reason
  end.

Definition with_applying (r : RuntimeOperationRecord) : RuntimeOperationRecord :=
  mkRuntimeOperation (ro_OperationID r) (ro_SessionID r) (ro_InputHash r) (ro_Kind r) RuntimeOperationApplying
    (ro_ExpectedArchiveID r) (ro_ExpectedGeneration r) (ro_TargetArchiveID r) (ro_TargetSnapshotID r)
    (ro_TargetProviderBindingJSON r) (ro_TargetModel r) (ro_TargetRequestedModel r) (ro_Outcome r) (ro_ReasonCode r)
    (ro_CreatedAt r) (ro_UpdatedAt r) (ro_TerminalAt r).

(** ** The boundary *)
Definition cross_boundary (request : ModelChangeRequest) (incumbent : nat) (value : runtimeSlotValue) (intent : RuntimeOperationRecord) :
    pub change_result :=
  marked ← op_MarkApplying env clock fates ctxErr (mr_OperationID request) (mr_InputHash request);
  match marked with
  | Err err => resolveMarkApplyingFailure value request err
  | Ok _ =>
      answer ← ask env change (mr_OperationID request) value (mr_TargetModel request);
      conclude_change incumbent value (with_applying intent) answer
  end.

Definition begin_change (request : ModelChangeRequest) (incumbent : nat) (value : runtimeSlotValue) (intent : RuntimeOperationRecord) :
    pub change_result :=
  begun ← op_Begin env fates ctxErr intent;
  match begun with
  | Err err => resolveBeginFailure value request err
  | Ok operation =>
      if negb (samePublicationIntent operation intent) then mret (invalid_result, None)
      else if bool_decide (ro_State operation = RuntimeOperationTerminal) then replayModelResult (mr_SessionID request) value operation
      else if bool_decide (ro_State operation = RuntimeOperationApplying) then fence_result (mr_SessionID request)
      else if negb (bool_decide (ro_State operation = RuntimeOperationPrepared)) then mret (invalid_result, None)
      else cross_boundary request incumbent value intent
  end.

(** The runtime the change starts from, and what the provider thinks of it. *)
Definition change_from (request : ModelChangeRequest) (existing : option RuntimeOperationRecord) : pub change_result :=
  found ← modelRuntimeValue (mr_SessionID request);
  match found with
  | None => unavailableModelRuntimeResult (mr_SessionID request)
  | Some (incumbent, value) =>
      now ← tick env (λ n w, (w, clock n));
      let terminal := match existing with
                      | Some existing => if bool_decide (ro_State existing = RuntimeOperationTerminal) then Some existing else None
                      | None => None
                      end in
      match terminal with
      | Some existing => replayModelResult (mr_SessionID request) value existing
      | None =>
          let intent := default (modelOperationIntent request value now) existing in
          if negb (bool_decide (is_Some (br_ModelController (sv_runtime value)))) then
            mret (mkResult ModelChangeUnsupported (sv_effectiveModel value) RuntimeOperationReasonUnsupported (sv_generation value), None)
          else
            status ← tick env (λ n w, (w, validate n (runtimeIdentity value) (mr_TargetModel request)));
            match status with
            | agentproduct.ModelSupported => begin_change request incumbent value intent
            | status => mret (validationModelResult status value, None)
            end
      end
  end.

(** What an operation found in the journal asks for first. *)
Definition resume_change (request : ModelChangeRequest) (existing : option RuntimeOperationRecord) : pub change_result :=
  match existing with
  | None => change_from request existing
  | Some operation =>
      if bool_decide (ro_State operation = RuntimeOperationApplying) then fence_result (mr_SessionID request)
      else if bool_decide (ro_State operation = RuntimeOperationTerminal) &&
              bool_decide (ro_ReasonCode operation = RuntimeOperationReasonChangedReplacement) then
        completed ← completeTerminalModelReplacement env clock fates ctxErr adoptable other_columns operation;
        if completed : bool then change_from request existing else fence_result (mr_SessionID request)
      else change_from request existing
  end.

Definition change_model (request : ModelChangeRequest) : pub change_result :=
  found ← op_Get env fates ctxErr (mr_OperationID request);
  match found with
  | Err _ => mret (unavailable_result, None)
  | Ok existing =>
      if match existing with Some operation => negb (sameModelRequest operation request) | None => false end
      then mret (invalid_result, None)
      else resume_change request existing
  end.

Definition trimmed_request (request : ModelChangeRequest) : ModelChangeRequest :=
  mkRequest (TrimSpace (mr_OperationID request)) (TrimSpace (mr_SessionID request)) (mr_InputHash request) (TrimSpace (mr_TargetModel request)).

Definition ChangeModel (request : ModelChangeRequest) : pub change_result :=
  let request := trimmed_request request in
  if negb (validModelChangeText (mr_OperationID request) 128) || negb (validModelChangeText (mr_SessionID request) 256) ||
     negb (validModelChangeText (mr_TargetModel request) MaxModelIDBytes) || negb (validModelInputHash (mr_InputHash request))
  then mret (invalid_result, Some ErrRuntimePublicationInvalid)
  else change_model request.
End changing.

(** ** Reasoning *)
Definition successes : list string := [ModelChangeChangedLive; ModelChangeChangedReplacement].
(** A status that reports that nothing changed. *)
Definition says_unchanged (status : string) : Prop := status ∉ ModelChangeRecoveryRequired :: successes.
#[global] Instance says_unchanged_dec status : Decision (says_unchanged status).
Proof. unfold says_unchanged. apply _. Defined.

Lemma validation_unchanged status value : says_unchanged (md_Status (validationModelResult status value)).
Proof. unfold says_unchanged, successes. destruct status; cbn; set_solver. Qed.
Lemma noop_unchanged status : says_unchanged (changeModelNoop status).1.
Proof. unfold says_unchanged, successes. destruct status; cbn; set_solver. Qed.
Lemma reason_unchanged reason : says_unchanged (modelResultFromReason reason).
Proof. unfold modelResultFromReason, says_unchanged, successes. repeat case_bool_decide; set_solver. Qed.
Lemma write_unchanged err : says_unchanged (md_Status (preBoundaryWriteResult err)).
Proof. unfold preBoundaryWriteResult, says_unchanged, successes. destruct (_ || _); cbn; set_solver. Qed.
Lemma success_reason reason : modelSuccessResultFromReason reason ≠ "" → modelSuccessResultFromReason reason ∈ successes.
Proof. unfold modelSuccessResultFromReason, successes. repeat case_bool_decide; set_solver. Qed.

Lemma read_row_range `{BindingCodec} q r : read_row q = Ok r → 0 ≤ ro_ExpectedGeneration r < 2 ^ 64.
Proof.
  unfold read_row. destruct (prepareRuntimeOperationRecord q) as [p|] eqn:Hp; [|discriminate].
  intros ([] & Hb & E)%bind_Ok. apply Ok_inj in E as <-. apply reject_if_Ok in Hb. rewrite !orb_false_iff in Hb.
  destruct Hb as [[[[[_ Hneg] _] _] _] _]. apply Z.ltb_ge in Hneg.
  destruct (prepare_record_Ok _ _ Hp) as (requested & binding & _ & ->). cbn. split; [done|].
  unfold prepareRuntimeOperationRecord in Hp. do 5 (apply bind_Ok in Hp as (_ & _ & Hp)). apply bind_Ok in Hp as ([] & Hmax & _).
  apply reject_if_Ok, Z.ltb_ge in Hmax. unfold max_i64 in Hmax. lia.
Qed.

(** Where a change may end. *)
Section ends.
  Context (session target : string) (t0 : TopicSession) (row0 : option session_row).

Definition now_fenced (w : pub_world) : Prop := ∃ rt, pw_sessions w !! session = Some (mkTopic rt true).
Definition now_changed (w : pub_world) : Prop :=
  ∃ s v row, pw_sessions w !! session = Some (mkTopic (Some s) false) ∧ slot_at w s = Some v ∧
    rt_sessions (pw_tables w) !! session = Some row ∧ row_agrees row v ∧ sv_effectiveModel v = target.
Definition now_unchanged (w : pub_world) : Prop :=
  pw_sessions w !! session = Some t0 ∧ rt_sessions (pw_tables w) !! session = row0.

Definition change_end (r : change_result) (w : pub_world) : Prop :=
  (r = recoveryRequiredModelResult ∧ now_fenced w) ∨
  (r.2 = None ∧ md_Status r.1 ∈ successes ∧ md_EffectiveModel r.1 = target ∧ now_changed w) ∨
  (r.2 = None ∧ says_unchanged (md_Status r.1) ∧ now_unchanged w).
End ends.

Section ending.
  Context `{BindingCodec}.
  Context (env : nat → pub_world → pub_world) (clock : nat → Z) (fates : nat → fate) (ctxErr : nat → option error).
  Context (session id target : string) (Hquiet : ∀ n w, quiet session id w (env n w)).
  Context (w0 : pub_world) (t0 : TopicSession) (row0 : option session_row).
  Notation at_ := (here session id w0).
  Notation ends := (change_end session target t0 row0).

Lemma fence_ends t row oq : triple (at_ t row oq) (fence_result env session) ends.
Proof.
  unfold fence_result. eapply triple_bind; [by apply (fence_spec _ _ id)|]. intros ?; cbv beta. apply triple_ret. intros w Hw. left.
  split; [done|]. exists (tp_runtime t). apply Hw.
Qed.

Lemma same_ends oq result :
  says_unchanged (md_Status result) → triple (at_ t0 row0 oq) (mret (result, None)) ends.
Proof. intros Hs. apply triple_ret. intros w [H1 H2 _ _ _]. right; right. by split_and!. Qed.

Lemma gets t row oq :
  triple (at_ t row oq) (op_Get env fates ctxErr id) (λ r w, at_ t row oq w ∧
    ∀ op, r = Ok (Some op) → ∃ q, oq = Some q ∧ same_target q op ∧ ro_State op = ro_State q ∧ read_row q = Ok op).
Proof.
  apply tables_spec; [done|]. intros n tb tb' a H1 H2 E. injection E as <- <-. exists row, oq. split_and!; try done. intros w Hw. split; [exact Hw|].
  intros op Hop. assert (Hg : get_operation tb id = Ok (Some op)).
  { destruct (fates n); [|discriminate|]; unfold Ops_Get in Hop; by apply bind_Ok in Hop as (_ & _ & Hop). }
  destruct (get_target _ _ _ Hg) as (q & Hq & Htg & Hs & _). exists q. split_and!; [congruence | done | done |].
  unfold get_operation in Hg. rewrite Hq in Hg. cbn in Hg. by apply bind_Ok in Hg as (r & Hr & [= ->]).
Qed.

(** *** From a runtime in place *)
Section in_place.
  Context (incumbent : nat) (value : runtimeSlotValue) (row : session_row).
  Context (Ht0 : t0 = mkTopic (Some incumbent) false) (Hvalue : slot_at w0 incumbent = Some value).
  Context (Hrow0 : row0 = Some row) (Hagrees : row_agrees row value).

Lemma replay_ends oq operation :
  ro_TargetModel operation = target → triple (at_ t0 row0 oq) (replayModelResult env session value operation) ends.
Proof.
  intros Htarget. unfold replayModelResult. destruct (replays_success value operation) eqn:Hs.
  - unfold replays_success in Hs. rewrite !andb_true_iff, !bool_decide_eq_true, negb_true_iff, bool_decide_eq_false in Hs.
    destruct Hs as [[[[[[[_ _] _] Hm] _] _] _] Hr]. apply triple_ret. intros w [H1 H2 _ Hv _]. right; left.
    split; [done|]. split; [by apply success_reason|]. split; [done|]. exists incumbent, value, row. split_and!; [congruence | by apply Hv | congruence | done |].
    congruence.
  - destruct (replays_noop value operation); [|apply fence_ends]. apply same_ends, reason_unchanged.
Qed.

Lemma write_ends oq operation err :
  ro_TargetModel operation = target →
  triple (at_ t0 row0 oq) (resolveAuthoritativeModelWrite env session value operation err) ends.
Proof.
  intros Htarget. unfold resolveAuthoritativeModelWrite. case_bool_decide; [apply same_ends, write_unchanged|].
  case_bool_decide; [by apply replay_ends | apply fence_ends].
Qed.
End in_place.
End ending.

(** *** After the boundary *)
Section after.
  Context `{BindingCodec}.
  Context (env : nat → pub_world → pub_world) (clock : nat → Z) (fates : nat → fate) (ctxErr : nat → option error).
  Context (intent : RuntimeOperationRecord).
  Notation session := (ro_SessionID intent).
  Notation id := (ro_OperationID intent).
  Notation target := (ro_TargetModel intent).
  Context (Hquiet : ∀ n w, quiet session id w (env n w)).
  Context (Hfates : ∀ n, driver_fate (fates n)).
  Context (Hctx : ∀ n e, ctxErr n = Some e → driver_error e).
  Context (Htarget : target ≠ "") (Hrange : 0 ≤ ro_ExpectedGeneration intent < 2 ^ 64).
  Context (incumbent : nat) (value : runtimeSlotValue) (row : session_row) (t0 : TopicSession).
  Context (Ht0 : t0 = mkTopic (Some incumbent) false) (Hagrees : row_agrees row value).
  Context (Hgen : 0 ≤ sv_generation value < 2 ^ 64).
  Notation ends := (change_end session target t0 (Some row)).

Lemma model_contract : in_contract intent RuntimeOperationOutcomeContextPreserved.
Proof. by split. Qed.

Lemma publish_ends w0 oq candidate cv status reason :
  slot_at w0 incumbent = Some value → slot_at w0 candidate = Some cv → sv_effectiveModel cv = target → status ∈ successes →
  op_is intent RuntimeOperationApplying oq →
  triple (here session id w0 t0 (Some row) oq)
    (publishModelChange env clock fates ctxErr incumbent candidate intent status reason) ends.
Proof.
  intros Hi Hc Hm Hst (q & -> & Htg & Hq). unfold publishModelChange.
  eapply (triple_bind _ _ (λ r w, ended candidate value cv intent RuntimeOperationOutcomeContextPreserved w0 True t0 (Some row) r w)).
  - intros w w' r Hw E. unfold with_values in E. rewrite (here_values _ _ _ _ _ _ _ Hw _ _ Hi), (here_values _ _ _ _ _ _ _ Hw _ _ Hc) in E.
    refine (locked env clock fates ctxErr incumbent candidate value cv intent _ true Hquiet Hfates Hctx w0 Hi True reason _ model_contract
      t0 (Some row) (Some q) _ _ _ w w' r Hw E); [done | done | by exists row | by exists q].
  - intros r. apply triple_ret. intros w [(_ & t & row' & oq & Hat & _ & [[Hrec Herr]|[Hn _]])|(_ & t & row' & oq & Hat & Hrt & Ha & Hfree)]; [| by destruct Hn |].
    + destruct r as [[o d] [e|]]; cbn in *; [|done]. left. split; [done|]. exists (tp_runtime t). rewrite <-Hrec. destruct Hat as [H1 _ _ _ _]. by destruct t.
    + destruct Hat as [H1 H2 _ Hv _]. destruct t as [rt rec]. cbn in Hrt, Hfree. subst rt. destruct r as [[o d] [e|]]; cbn in *; subst rec.
      * left. split; [done|]. by exists (Some candidate).
      * right; left. split; [done|]. split; [done|]. split; [done|]. exists candidate, cv, row'. split_and!; try done. by apply Hv.
Qed.

Lemma noop_ends w0 oq status reason :
  slot_at w0 incumbent = Some value → says_unchanged status →
  triple (here session id w0 t0 (Some row) oq) (finalizeModelNoop env clock fates ctxErr intent status reason) ends.
Proof.
  intros Hi Hst. unfold finalizeModelNoop.
  eapply (triple_bind _ _ (λ _ w, ∃ oq', True ∧ here session id w0 t0 (Some row) oq' w)).
  { apply tables_spec; [done|]. intros n tb tb' a H1 H2 E. apply finalize_other in E; [|done].
    eexists _, _. split_and!; [by rewrite E | done |]. intros w Hw. by eexists. }
  intros terminal. apply op_spec. intros oq' _. destruct terminal as [terminal|err]; [|by eapply fence_ends].
  destruct (isPublicationTerminal _ _ _ _); [|by eapply fence_ends].
  eapply (triple_bind _ _ (λ _, here session id w0 t0 (Some row) oq')).
  { apply tick_spec; [done|]. by intros n w w' a Hw [= <- _]. }
  intros found; cbv beta. destruct (found.1) as [[s v]|]; by eapply same_ends.
Qed.

(** A successor at the target, from the world in which it was made. *)
Lemma made_ends {B} w0 oq f (k : result nat → pub B) Q :
  slot_at w0 incumbent = Some value →
  (∀ sl h h' s, sl_value sl = value → f sl h = Ok (h', s) → made_from intent value h h' s) →
  (∀ w err, triple (here session id w t0 (Some row) oq) (k (Err err)) Q) →
  (∀ w s cv, slot_at w s = Some cv → slot_at w incumbent = Some value → sv_effectiveModel cv = target →
     triple (here session id w t0 (Some row) oq) (k (Ok s)) Q) →
  triple (here session id w0 t0 (Some row) oq) (made ← make_successor env incumbent f; k made) Q.
Proof.
  intros Hinc Hf Herr Hok. eapply (triple_bind _ _ (λ made w, here session id w t0 (Some row) oq w ∧ match made with
    | Ok s => ∃ cv, slot_at w s = Some cv ∧ slot_at w incumbent = Some value ∧ sv_effectiveModel cv = target
    | Err _ => True end)).
  - apply tick_spec; [done|]. intros n w w' made [H1 H2 H3 H6 H7] E.
    pose proof (H6 _ _ Hinc) as Hv. unfold slot_at in Hv. destruct (hp_slots (pw_heap w) !! incumbent) as [sl|]; [|discriminate].
    cbn in Hv. destruct (f sl (pw_heap w)) as [[h' s']|err] eqn:Ef; injection E as <- <-; (split; [by split|]); [|done].
    destruct (Hf sl (pw_heap w) h' s' ltac:(congruence) Ef) as ((cv & Hcv & Hof) & Hkeep).
    exists cv. split; [done|]. split; [by apply Hkeep, H6 | apply Hof].
  - intros [s|err] w w' b [Hw Hm] E; [|exact (Herr w err w w' b Hw E)]. destruct Hm as (cv & Hcv & Hi & Ht).
    exact (Hok w s cv Hcv Hi Ht w w' b Hw E).
Qed.

Lemma refresh_keeps w0 oq candidate :
  triple (here session id w0 t0 (Some row) oq) (refresh env candidate) (λ _, here session id w0 t0 (Some row) oq).
Proof.
  apply slot_spec; [done|]. intros sl. cbn. unfold refreshModelObservation, clearModelObservation.
  destruct (br_ModelController _); [|done]. destruct (_ || _); [done|]. by destruct (sl_retired sl).
Qed.

Lemma conclude_ends w0 oq answer :
  slot_at w0 incumbent = Some value → op_is intent RuntimeOperationApplying oq →
  triple (here session id w0 t0 (Some row) oq) (conclude_change env clock fates ctxErr incumbent value intent answer) ends.
Proof.
  intros Hi Hop. unfold conclude_change.
  assert (Hnoop : ∀ st, triple (here session id w0 t0 (Some row) oq)
    (let '(status, reason) := changeModelNoop st in finalizeModelNoop env clock fates ctxErr intent status reason) ends).
  { intros st. pose proof (noop_unchanged st) as Hst. destruct (changeModelNoop st) as [status reason]. by apply noop_ends. }
  destruct (mc_Status answer); try apply (Hnoop (_ : agentproduct.ModelChangeStatus)); [| |by eapply fence_ends].
  - apply made_ends; [done | intros sl h h' s <-; by apply shared_model_value | intros w err; by eapply fence_ends |].
    intros w s cv Hc Hi' Hm. eapply triple_bind; [apply refresh_keeps|]. intros ?; cbv beta.
    apply (publish_ends w oq s cv); try done. by left.
  - assert (Hclose : ∀ w, triple (here session id w t0 (Some row) oq)
      (_ ← closeModelCandidate (mc_Candidate answer); fence_result env session) ends).
    { intros w. eapply (triple_bind _ _ (λ _, here session id w t0 (Some row) oq)); [by apply triple_ret|]. intros ?; cbv beta. by eapply fence_ends. }
    destruct (_ || _); [apply Hclose|]. unfold model_successor.
    apply made_ends; [done | intros sl h h' s <-; by apply independent_model_value | intros w err; apply Hclose |].
    intros w s cv Hc Hi' Hm. eapply triple_bind; [apply refresh_keeps|]. intros ?; cbv beta.
    apply (publish_ends w oq s cv); try done. right. by left.
Qed.
End after.

(** *** Up to the boundary *)
Section before.
  Context `{BindingCodec}.
  Context (env : nat → pub_world → pub_world) (clock : nat → Z) (fates : nat → fate) (ctxErr : nat → option error).
  Context (Hfates : ∀ n, driver_fate (fates n)).
  Context (Hctx : ∀ n e, ctxErr n = Some e → driver_error e).
  Context (validate : nat → RuntimeSessionIdentity → string → agentproduct.ModelValidationStatus).
  Context (change : nat → RuntimeSessionIdentity → string → RuntimeModelChange).
  Context (adoptable : nat → option BuiltRuntime) (other_columns : nat → session_columns).

(** The intent of a request. *)
Definition intended (request : ModelChangeRequest) (intent : RuntimeOperationRecord) : Prop :=
  ro_SessionID intent = mr_SessionID request ∧ ro_OperationID intent = mr_OperationID request ∧
  ro_TargetModel intent = mr_TargetModel request ∧ 0 ≤ ro_ExpectedGeneration intent < 2 ^ 64.

Lemma same_request_intended operation request :
  sameModelRequest operation request = true → 0 ≤ ro_ExpectedGeneration operation < 2 ^ 64 → intended request operation.
Proof. unfold sameModelRequest, intended. rewrite !andb_true_iff, !bool_decide_eq_true. tauto. Qed.

Lemma cross_ends request intent incumbent value row t0 w0 q :
  (∀ n w, quiet (mr_SessionID request) (mr_OperationID request) w (env n w)) → mr_TargetModel request ≠ "" →
  t0 = mkTopic (Some incumbent) false → row_agrees row value → 0 ≤ sv_generation value < 2 ^ 64 →
  intended request intent → same_target q intent → slot_at w0 incumbent = Some value →
  triple (here (mr_SessionID request) (mr_OperationID request) w0 t0 (Some row) (Some q))
    (cross_boundary env clock fates ctxErr change request incumbent value intent)
    (change_end (mr_SessionID request) (mr_TargetModel request) t0 (Some row)).
Proof.
  destruct request as [id session hash target]. unfold intended. cbn. intros Hquiet Htarget Ht0 Ha Hgen (<- & <- & <- & Hrange) Htg Hi.
  unfold cross_boundary. cbn.
  eapply (triple_bind _ _ (λ (marked : result unit) w, ∃ oq, (if marked then op_is intent RuntimeOperationApplying oq else True) ∧
    here (ro_SessionID intent) (ro_OperationID intent) w0 t0 (Some row) oq w)).
  { apply tables_spec; [done|]. intros n tb tb' a H1 H2 E. apply mark_run in E as [Es Em].
    exists (Some row), (rt_operations tb' !! ro_OperationID intent). split_and!; [by rewrite Es | done |]. intros w Hw.
    exists (rt_operations tb' !! ro_OperationID intent). split; [|exact Hw]. destruct a as [[]|]; [|done].
    destruct (Em q eq_refl H2) as (q' & Hq' & Htg' & Hst'). exists q'. split_and!; [done | | done].
    by eapply same_target_trans; [apply same_target_sym|]. }
  intros marked. apply op_spec. intros oq Hop. destruct marked as [[]|err].
  - eapply (triple_bind _ _ (λ _ w, here (ro_SessionID intent) (ro_OperationID intent) w t0 (Some row) oq w ∧ slot_at w incumbent = Some value)).
    { apply tick_spec; [done|]. intros n w w' answer [H1 H2 H3 H6 H7] E. injection E as <- _. split; [by split | by apply H6]. }
    intros answer w w' r [Hw Hi'] E.
    exact (conclude_ends env clock fates ctxErr (with_applying intent) Hquiet Hfates Hctx Htarget Hrange incumbent value row t0 Ha Hgen
      w oq answer Hi' Hop w w' r Hw E).
  - unfold resolveMarkApplyingFailure. cbn. eapply triple_bind; [by apply gets|]. intros found w w' r [Hw _] E. refine (run_triple _ _ _ _ _ _ Hw E _).
    destruct found as [[operation|]|e]; [|by eapply fence_ends|by eapply fence_ends].
    destruct (sameModelRequest _ _) eqn:Hs; cbn [negb]; [|by eapply fence_ends]. eapply write_ends; try done.
    unfold sameModelRequest in Hs. rewrite !andb_true_iff, !bool_decide_eq_true in Hs. apply Hs.
Qed.

Lemma begin_ends request intent incumbent value row t0 w0 oq :
  (∀ n w, quiet (mr_SessionID request) (mr_OperationID request) w (env n w)) → mr_TargetModel request ≠ "" →
  t0 = mkTopic (Some incumbent) false → row_agrees row value → 0 ≤ sv_generation value < 2 ^ 64 →
  intended request intent → slot_at w0 incumbent = Some value →
  triple (here (mr_SessionID request) (mr_OperationID request) w0 t0 (Some row) oq)
    (begin_change env clock fates ctxErr change request incumbent value intent)
    (change_end (mr_SessionID request) (mr_TargetModel request) t0 (Some row)).
Proof.
  intros Hquiet Htarget Ht0 Ha Hgen Hintent Hi. pose proof Hintent as (E1 & E2 & E3 & _). unfold begin_change.
  eapply (triple_bind _ _ (λ begun w, ∃ oq', (∀ op, begun = Ok op → ∃ q, oq' = Some q ∧ same_target q op) ∧
    here (mr_SessionID request) (mr_OperationID request) w0 t0 (Some row) oq' w)).
  { apply tables_spec; [done|]. intros n tb tb' a H1 H2 E. apply begin_run in E as [Es Eb]. rewrite E2 in Eb.
    eexists _, _. split; [reflexivity|]. split; [reflexivity|]. intros w Hw. rewrite Es, H1 in Hw. eexists. split; [|exact Hw].
    intros op Hop. destruct (Eb op Hop) as (q & Hq & Htg & _). by exists q. }
  intros begun. apply op_spec. intros oq' Hbegun. destruct begun as [operation|err].
  - destruct (Hbegun operation eq_refl) as (q & -> & Htg).
    destruct (samePublicationIntent operation intent) eqn:Hsame; cbn [negb].
    2:{ eapply same_ends. unfold says_unchanged, successes. cbn. set_solver. }
    apply same_intent_target in Hsame. case_bool_decide; [eapply replay_ends; try done; rewrite <-E3; apply Hsame|].
    case_bool_decide; [by eapply fence_ends|]. case_bool_decide; cbn [negb].
    + apply cross_ends; try done. by eapply same_target_trans.
    + eapply same_ends. unfold says_unchanged, successes. cbn. set_solver.
  - unfold resolveBeginFailure. eapply triple_bind; [by apply gets|]. intros found w w' r [Hw _] E. refine (run_triple _ _ _ _ _ _ Hw E _).
    destruct found as [[operation|]|e]; [| eapply same_ends, write_unchanged | by eapply fence_ends].
    destruct (sameModelRequest _ _) eqn:Hs; cbn [negb].
    + eapply write_ends; try done. unfold sameModelRequest in Hs. rewrite !andb_true_iff, !bool_decide_eq_true in Hs. apply Hs.
    + eapply same_ends. unfold says_unchanged, successes. cbn. set_solver.
Qed.
End before.

(** *** A terminal replacement, from a session that is not fenced *)
Lemma finalize_terminal `{BindingCodec} ctxErr ft final t t' r q :
  rt_operations t !! fz_OperationID final = Some q → ro_State q = RuntimeOperationTerminal →
  Ops_Finalize ctxErr ft final t = (t', r) → t' = t.
Proof.
  intros Hq Hst Hrun. unfold Ops_Finalize in Hrun. destruct (_ || _ || _ || _ || _); [by injection Hrun as <- _|].
  destruct (transaction_run _ _ _ _ _ _ Hrun) as [->|[a Hb]]; [done|]. apply bind_Ok in Hb as (found & Hg & Hb).
  destruct found as [rec|]; [|discriminate]. destruct (get_target _ _ _ Hg) as (q' & Hq' & _ & Hs & _). cbn in Hq'.
  assert (q' = q) as -> by congruence. apply bind_Ok in Hb as (_ & _ & Hb). rewrite Hs, Hst, bool_decide_true in Hb by done.
  apply bind_Ok in Hb as (_ & _ & Hb). by injection Hb as <- _.
Qed.

Section complete.
  Context `{BindingCodec}.
  Context (env : nat → pub_world → pub_world) (clock : nat → Z) (fates : nat → fate) (ctxErr : nat → option error).
  Context (adoptable : nat → option BuiltRuntime) (other_columns : nat → session_columns).
  Context (operation : RuntimeOperationRecord).
  Notation session := (ro_SessionID operation).
  Notation id := (ro_OperationID operation).
  Context (Hquiet : ∀ n w, quiet session id w (env n w)) (Htrim : TrimSpace session = session).
  Context (rt : option nat) (row0 : option session_row).

Definition ended_row (row : option session_row) (oq : option RuntimeOperationRecord) : Prop :=
  row = row0 ∧ ∃ q, oq = Some q ∧ ro_State q = RuntimeOperationTerminal.

Lemma ended_stays n outcome reason tb tb' a :
  ended_row (rt_sessions tb !! session) (rt_operations tb !! id) →
  Ops_Finalize (ctxErr n) (fates n)
    (mkFinalization id (ro_InputHash operation) outcome reason (Z.max (clock n) (ro_UpdatedAt operation))) tb = (tb', a) →
  ended_row (rt_sessions tb' !! session) (rt_operations tb' !! id).
Proof. intros (Hr & q & Hq & Hs) E. eapply finalize_terminal in E as ->; [|exact Hq|exact Hs]. by split; [|exists q]. Qed.

Lemma not_committed row value :
  row_agrees row value → sv_generation value = ro_ExpectedGeneration operation → 0 ≤ sv_generation value < 2 ^ 64 →
  commit_matches row operation value RuntimeOperationOutcomeContextPreserved = false.
Proof.
  intros (_ & Hg & _) Hv Hrange. unfold commit_matches. rewrite bool_decide_false by done.
  assert (Hne : (sm_RuntimeGeneration row =? u64 (ro_ExpectedGeneration operation + 1)) = false).
  { apply Z.eqb_neq. rewrite Hg, Hv. unfold u64. rewrite Hv in Hrange.
    destruct (decide (ro_ExpectedGeneration operation = 2 ^ 64 - 1)) as [->|Hne]; [done|]. rewrite Z.mod_small by lia. lia. }
  rewrite Hne. by rewrite !andb_false_r.
Qed.

(** A runtime in place, with its row. *)
Definition in_agreement (w0 : pub_world) : Prop :=
  ∀ s, rt = Some s → ∃ v row, slot_at w0 s = Some v ∧ row0 = Some row ∧ row_agrees row v ∧ 0 ≤ sv_generation v < 2 ^ 64.

Lemma completes w0 q :
  in_agreement w0 → ro_State q = RuntimeOperationTerminal →
  triple (here session id w0 (mkTopic rt false) row0 (Some q))
    (completeTerminalModelReplacement env clock fates ctxErr adoptable other_columns operation)
    (λ (b : bool) w, if b then here session id w0 (mkTopic rt false) row0 (Some q) w else ∃ t, pw_sessions w !! session = Some t).
Proof.
  intros Hagr Hst. set (Q := λ (b : bool) w, _). unfold completeTerminalModelReplacement.
  assert (Hno : triple (here session id w0 (mkTopic rt false) row0 (Some q)) (mret false) Q).
  { apply triple_ret. intros w [H1 _ _ _ _]. by exists (mkTopic rt false). }
  eapply (triple_bind _ _ (λ topic w, topic = Some (mkTopic rt false) ∧ here session id w0 (mkTopic rt false) row0 (Some q) w)).
  { apply tick_spec; [done|]. intros n w w' a Hw E. injection E as <- <-. split; [apply Hw | exact Hw]. }
  intros topic w w' b [-> Hw] E. refine (run_triple _ _ _ _ _ _ Hw E _). clear w w' b Hw E. destruct (_ || _); [exact Hno|].
  eapply (triple_bind _ _ (λ found w, here session id w0 (mkTopic rt false) row0 (Some q) w ∧ found.2 = false ∧
    ∀ s v, found.1 = Some (s, v) → rt = Some s ∧ slot_at w0 s = Some v)).
  { apply tick_spec; [done|]. intros n w w' found Hw E. pose proof Hw as [H1 H2 H3 H6 H7]. rewrite H1 in E. injection E as <- <-.
    split; [exact Hw|]. split; [done|]. intros s v Hf. cbn in Hf. destruct rt as [s0|] eqn:Hrt; [|discriminate].
    destruct (Hagr s0 Hrt) as (v0 & row & Hv0 & _). rewrite (H6 _ _ Hv0) in Hf. cbn in Hf. by injection Hf as <- <-. }
  intros [[[current value]|] fenced] w w' b (Hw & Hf & Hfound) E; cbn in Hf; subst fenced; refine (run_triple _ _ _ _ _ _ Hw E _); clear w w' b Hw E;
    [|exact Hno]. destruct (Hfound _ _ eq_refl) as [Hrt Hv]. destruct (Hagr _ Hrt) as (v & row & Hv' & Hrow & Ha & Hrange).
  assert (v = value) as -> by congruence. destruct (_ && _).
  { destruct (fails _); [exact Hno|]. cbn. apply triple_ret. by intros w Hw. }
  destruct (_ || _) eqn:Hbad; [exact Hno|]. apply orb_false_iff in Hbad as [_ Hg]. apply negb_false_iff, Z.eqb_eq in Hg. cbn [negb].
  eapply (triple_bind _ _ (λ _, frozen operation ended_row w0 rt)).
  { eapply triple_conseq; [by apply (fence_spec env session id Hquiet w0) | done |]. intros a w Hw. exists row0, (Some q).
    split; [by split; [|exists q] | exact Hw]. }
  intros ?; cbv beta. refine (adopts_promoted env operation Hquiet ended_row w0 rt current value adoptable _ Q Hv _ _).
  - apply triple_ret. intros w (r & oq & _ & Hw). exists (mkTopic rt true). apply Hw.
  - intros w s cv Hcv Hof. cbv iota.
    eapply triple_bind; [by apply (finishes env clock fates ctxErr operation Hquiet other_columns Htrim ended_row ended_stays w rt current s value cv)|].
    intros err. apply triple_ret. intros w' Hr. destruct err as [e|]; cbn.
    + destruct Hr as [rt' Hrt']. by exists (mkTopic rt' true).
    + exfalso. destruct Hr as (s' & v' & r & _ & _ & _ & _ & Hc & oq & Hr0 & _). assert (r = row) as -> by congruence.
      by rewrite (not_committed row value Ha Hg Hrange) in Hc.
Qed.
End complete.

(** *** The whole call *)
Section whole.
  Context `{BindingCodec}.
  Context (env : nat → pub_world → pub_world) (clock : nat → Z) (fates : nat → fate) (ctxErr : nat → option error).
  Context (Hfates : ∀ n, driver_fate (fates n)).
  Context (Hctx : ∀ n e, ctxErr n = Some e → driver_error e).
  Context (validate : nat → RuntimeSessionIdentity → string → agentproduct.ModelValidationStatus).
  Context (change : nat → RuntimeSessionIdentity → string → RuntimeModelChange).
  Context (adoptable : nat → option BuiltRuntime) (other_columns : nat → session_columns).
  Context (request : ModelChangeRequest).
  Notation session := (mr_SessionID request).
  Notation id := (mr_OperationID request).
  Context (Hquiet : ∀ n w, quiet session id w (env n w)) (Hvalid : mr_TargetModel request ≠ "") (Htrim : TrimSpace session = session).
  Context (w0 : pub_world) (rt : option nat) (row0 : option session_row) (Hagr : in_agreement rt row0 w0).
  Notation t0 := (mkTopic rt false).
  Notation at_ := (here session id w0 t0 row0).
  Notation ends := (change_end session (mr_TargetModel request) t0 row0).

Definition fits (existing : option RuntimeOperationRecord) : Prop :=
  ∀ operation, existing = Some operation → sameModelRequest operation request = true ∧ 0 ≤ ro_ExpectedGeneration operation < 2 ^ 64.

Lemma from_ends existing oq :
  fits existing →
  triple (at_ oq) (change_from env clock fates ctxErr validate change request existing) ends.
Proof.
  intros Hfits. unfold change_from.
  eapply (triple_bind _ _ (λ found w, at_ oq w ∧ match found with
    | Some (s, v) => rt = Some s ∧ slot_at w0 s = Some v | None => True end)).
  { apply tick_spec; [done|]. intros n w w' found Hw E. pose proof Hw as [H1 H2 H3 H6 H7]. rewrite H1 in E. cbn in E. injection E as <- <-.
    split; [exact Hw|]. destruct rt as [s0|]; [|done]. destruct (Hagr s0 eq_refl) as (v0 & row & Hv0 & _). by rewrite (H6 _ _ Hv0). }
  intros found w w' r [Hw Hfound] E. refine (run_triple _ _ _ _ _ _ Hw E _). clear w w' r Hw E. destruct found as [[incumbent value]|].
  2:{ unfold unavailableModelRuntimeResult, read_topic.
      eapply (triple_bind _ _ (λ topic w, topic = Some t0 ∧ at_ oq w)).
      { apply tick_spec; [done|]. intros n w w' a Hw E. injection E as <- <-. split; [apply Hw | exact Hw]. }
      intros topic w w' r [-> Hw] E. refine (run_triple _ _ _ _ _ _ Hw E _). eapply same_ends.
      unfold says_unchanged, successes. cbn. set_solver. }
  destruct Hfound as [Hrt Hv]. destruct (Hagr _ Hrt) as (v & row & Hv' & Hrow & Ha & Hrange). assert (v = value) as -> by congruence.
  assert (Et0 : t0 = mkTopic (Some incumbent) false) by by rewrite Hrt.
  eapply (triple_bind _ _ (λ _, at_ oq)); [apply tick_spec; [done|]; by intros n w w' a Hw [= <- _]|]. intros now; cbv beta zeta.
  destruct (match existing with Some _ => _ | None => None end) as [operation|] eqn:Hterm.
  { destruct existing as [operation'|]; [|discriminate]. case_bool_decide; [|discriminate]. injection Hterm as ->.
    destruct (Hfits _ eq_refl) as [Hs _]. unfold sameModelRequest in Hs. rewrite !andb_true_iff, !bool_decide_eq_true in Hs.
    eapply replay_ends; try done. apply Hs. }
  case_bool_decide; cbn [negb]; [|eapply same_ends; unfold says_unchanged, successes; cbn; set_solver].
  eapply (triple_bind _ _ (λ _, at_ oq)); [apply tick_spec; [done|]; by intros n w w' a Hw [= <- _]|]. intros status; cbv beta.
  assert (Hintent : intended request (default (modelOperationIntent request value now) existing)).
  { destruct existing as [operation|]; cbn; [|unfold intended; cbn; do 3 (split; [done|]); exact Hrange]. destruct (Hfits _ eq_refl). by apply same_request_intended. }
  destruct status; try eapply same_ends, validation_unchanged. rewrite Hrow. by apply begin_ends.
Qed.

Lemma resume_ends existing q :
  fits (Some existing) → ro_State existing = ro_State q →
  triple (at_ (Some q)) (resume_change env clock fates ctxErr validate change adoptable other_columns request (Some existing)) ends.
Proof.
  intros Hfits Hst. unfold resume_change. case_bool_decide; [by eapply fence_ends|].
  destruct (_ && _) eqn:Hterm; [|by apply from_ends]. apply andb_true_iff in Hterm as [Hterm _]. apply bool_decide_eq_true in Hterm.
  destruct (Hfits _ eq_refl) as [Hs _]. unfold sameModelRequest in Hs. rewrite !andb_true_iff, !bool_decide_eq_true in Hs.
  destruct Hs as [[[[Eid Es] _] _] _].
  eapply (triple_bind _ _ (λ (b : bool) w, if b then at_ (Some q) w else ∃ t, pw_sessions w !! session = Some t)).
  { rewrite <-Es, <-Eid in *. apply completes; [done | done | done | congruence]. }
  intros completed. destruct completed; [by apply from_ends|]. intros w w' r (t & Ht) E.
  assert (Hw : here session id w t (rt_sessions (pw_tables w) !! session) (rt_operations (pw_tables w) !! id) w) by by split.
  refine (run_triple _ _ _ _ _ _ Hw E _). by eapply fence_ends.
Qed.

Lemma changes oq :
  triple (at_ oq) (change_model env clock fates ctxErr validate change adoptable other_columns request) ends.
Proof.
  unfold change_model. eapply triple_bind; [by apply gets|]. intros found w w' r [Hw Hf] E. refine (run_triple _ _ _ _ _ _ Hw E _).
  clear w w' r Hw E. destruct found as [[existing|]|err].
  - destruct (sameModelRequest existing request) eqn:Hs; cbn [negb].
    + destruct (Hf _ eq_refl) as (q & -> & _ & Hst & Hread). apply resume_ends; [|done]. intros operation [= <-].
      split; [done | by eapply read_row_range].
    + eapply same_ends. unfold says_unchanged, successes. cbn. set_solver.
  - by apply from_ends.
  - eapply same_ends. unfold says_unchanged, successes. cbn. set_solver.
Qed.
End whole.

(** ** Properties *)

(** C9. A model change tells the truth, whatever the provider answers, whatever
    transactions fail or commit without saying so. From a session that is not fenced
    and in agreement with its row: a result that reports a change leaves the session
    running the requested model with its row saying the same; a result that reports no
    change leaves the runtime of the session and its row as they were; and any doubt is
    reported as recovery required and leaves the session fenced. *)
Theorem model_change_is_honest `{BindingCodec} env clock fates ctxErr MaxModelIDBytes validate change adoptable other_columns
    request rt w w' result err :
  let session := TrimSpace (mr_SessionID request) in
  (∀ n w, quiet session (TrimSpace (mr_OperationID request)) w (env n w)) → (∀ n, driver_fate (fates n)) →
  (∀ n e, ctxErr n = Some e → driver_error e) →
  pw_sessions w !! session = Some (mkTopic rt false) → agrees session w →
  (∀ s v, slot_at w s = Some v → 0 ≤ sv_generation v < 2 ^ 64) →
  ChangeModel env clock fates ctxErr MaxModelIDBytes validate change adoptable other_columns request w = (w', (result, err)) →
  (md_Status result ∈ successes ∧ err = None ∧ now_changed session (TrimSpace (mr_TargetModel request)) w') ∨
  (result = recoveryRequiredModelResult.1 ∧ err = Some ErrRuntimeRecoveryRequired ∧ now_fenced session w') ∨
  (says_unchanged (md_Status result) ∧
   now_unchanged session (mkTopic rt false) (rt_sessions (pw_tables w) !! session) w').
Proof.
  intros session Hq Hf Hc Ht Hagr Hrange Hrun. unfold ChangeModel in Hrun. destruct (_ || _) eqn:Hbad.
  { injection Hrun as <- <- <-. right; right. split; [unfold says_unchanged, successes; cbn; set_solver | by split]. }
  rewrite !orb_false_iff, !negb_false_iff in Hbad. destruct Hbad as [[[_ Hs] Hm] _]. unfold validModelChangeText in Hs, Hm.
  rewrite !andb_true_iff, !bool_decide_eq_true in Hs, Hm. destruct Hs as [[_ Hs] _], Hm as [[[[Hm _] _] _] _].
  apply negb_true_iff, bool_decide_eq_false in Hm.
  assert (Hin : in_agreement rt (rt_sessions (pw_tables w) !! session) w).
  { intros s ->. destruct (Hagr _ s Ht eq_refl eq_refl) as (v & row & Hv & Hr & Ha). exists v, row. by split_and!; [| | | apply (Hrange s v Hv)..]. }
  assert (Hw : here session (TrimSpace (mr_OperationID request)) w (mkTopic rt false) (rt_sessions (pw_tables w) !! session)
    (rt_operations (pw_tables w) !! TrimSpace (mr_OperationID request)) w) by by split.
  destruct (changes env clock fates ctxErr Hf Hc validate change adoptable other_columns (trimmed_request request) Hq Hm Hs w rt
    _ Hin _ w w' _ Hw Hrun) as [[E Hfenced]|[(E & Hst & _ & Hch)|(_ & Hst & Hsame)]]; cbn in *.
  - injection E as -> ->. right; left. by split_and!.
  - left. by split_and!.
  - right; right. by split.
Qed.

(** ** Repeating a completed replacement *)
Lemma samePublicationIntent_refl operation : samePublicationIntent operation operation = true.
Proof. apply (moved_refl operation). Qed.

(** The parts of [replays_success] the recovery of a replacement looks at. *)
Lemma replays_target value operation :
  replays_success value operation = true →
  bool_decide (sv_archiveID value = ro_ExpectedArchiveID operation) && (sv_generation value =? u64 (ro_ExpectedGeneration operation + 1)) &&
  bool_decide (br_RuntimeSnapshotID (sv_runtime value) = ro_TargetSnapshotID operation) &&
  bool_decide (br_ProviderBindingJSON (sv_runtime value) = ro_TargetProviderBindingJSON operation) &&
  bool_decide (sv_effectiveModel value = ro_TargetModel operation) &&
  bool_decide (sv_outcome value = RuntimeOperationOutcomeContextPreserved) = true.
Proof. unfold replays_success. rewrite !andb_true_iff. tauto. Qed.

Section repeating.
  Context `{BindingCodec} (clock : nat → Z) (fates : nat → fate) (ctxErr : nat → option error).
  Context (adoptable : nat → option BuiltRuntime) (other_columns : nat → session_columns).
  Notation alone := (λ _ w, w).

(** A replacement that is in place is completed by lifting the fence, whoever put it up. *)
Lemma terminal_replacement_unfences operation w s value :
  ro_State operation = RuntimeOperationTerminal → ro_Outcome operation = RuntimeOperationOutcomeContextPreserved →
  ro_ReasonCode operation = RuntimeOperationReasonChangedReplacement → is_Some (ro_TerminalAt operation) →
  pw_sessions w !! ro_SessionID operation = Some (mkTopic (Some s) true) → slot_at w s = Some value →
  replays_success value operation = true → fails (br_CompleteBase (sv_runtime value)) = false →
  completeTerminalModelReplacement alone clock fates ctxErr adoptable other_columns operation w =
    (mkPubWorld (pw_heap w) (<[ro_SessionID operation := mkTopic (Some s) false]> (pw_sessions w)) (pw_tables w) (pw_asked w) (3 + pw_calls w), true).
Proof.
  intros Hst Ho Hre Hat Ht Hv Hsucc Hbase. pose proof (replays_target _ _ Hsucc) as Htarget.
  assert (Hterm : isPublicationTerminal operation operation RuntimeOperationOutcomeContextPreserved RuntimeOperationReasonChangedReplacement = true).
  { unfold isPublicationTerminal. by rewrite samePublicationIntent_refl, !bool_decide_true. }
  unfold completeTerminalModelReplacement, read_topic, runtimeForRecovery, completeRecoveredRuntime, tick, mbind, pub_bind. cbn.
  rewrite Ht. cbn. rewrite Hterm. cbn. rewrite Ht. cbn. unfold slot_at in *. cbn. rewrite Hv. cbn. rewrite Htarget, Hbase. cbn.
  rewrite Ht. cbn. rewrite Hv. unfold recovering. cbn. rewrite bool_decide_true, Z.eqb_refl by done. cbn.
  by rewrite bool_decide_true by done.
Qed.
End repeating.

(** ** Witnesses and an example *)
Definition demo_ready : pub_world :=
  mkPubWorld demo_model_heap (<["s1" := mkTopic (Some 0%nat) false]> ∅) (demo_model_tables ∅) [] 0.
Definition demo_answer (status : agentproduct.ModelChangeStatus) (n : nat) (identity : RuntimeSessionIdentity) (model : string) : RuntimeModelChange :=
  mkModelChange status (Some (demo_runtime model)) identity.
Definition demo_call (status : agentproduct.ModelChangeStatus) (operation model : string) (w : pub_world) : pub_world * change_result :=
  ChangeModel (λ _ w, w) (λ n, 5000000 + 1000 * Z.of_nat n) (λ _, Commits) (λ _, None) 512 (λ _ _ _, agentproduct.ModelSupported)
    (demo_answer status) (λ _, None) (λ _, mkColumns "s1" "active" "user") (mkRequest operation "s1" demo_hash model) w.
Definition demo_changed : pub_world * change_result := demo_call agentproduct.ModelApplied "op" "model-b" demo_ready.

Example demo_change_succeeds : demo_changed.2 = (mkResult ModelChangeChangedLive "model-b" RuntimeOperationReasonChangedLive 4, None).
Proof. vm_compute. reflexivity. Qed.

Lemma demo_ready_agrees : agrees "s1" demo_ready.
Proof.
  intros t s Ht _ Hs. vm_compute in Ht. injection Ht as <-. injection Hs as <-. exists demo_value, (mkSessionRow "a1" 3 "snap" "{}" None "model-a" "").
  split; [reflexivity|]. split; [reflexivity|]. unfold row_agrees. by split_and!.
Qed.

Lemma model_change_is_honest_witness : now_changed "s1" "model-b" demo_changed.1.
Proof.
  destruct (model_change_is_honest (λ _ w, w) (λ n, 5000000 + 1000 * Z.of_nat n) (λ _, Commits) (λ _, None) 512 (λ _ _ _, agentproduct.ModelSupported)
    (demo_answer agentproduct.ModelApplied) (λ _, None) (λ _, mkColumns "s1" "active" "user") (mkRequest "op" "s1" demo_hash "model-b")
    (Some 0%nat) demo_ready demo_changed.1 (mkResult ModelChangeChangedLive "model-b" RuntimeOperationReasonChangedLive 4) None)
    as [(_ & _ & Hc)|[(E & _)|(E & _)]].
  - intros n w. by split.
  - done.
  - done.
  - reflexivity.
  - exact demo_ready_agrees.
  - intros s v Hs. unfold slot_at in Hs. cbn in Hs. rewrite lookup_insert in Hs. case_decide; cbn in Hs; [injection Hs as <-; by split|].
    by rewrite lookup_empty in Hs.
  - rewrite <-demo_change_succeeds. apply surjective_pairing.
  - exact Hc.
  - discriminate E.
  - exfalso. apply E. right. left.
Defined.

(** C38. The replay of a completed replacement lifts a fence it did not put up. Whatever
    fenced the session, when the runtime in place is the one a terminal replacement of
    that session produced, repeating the request of that replacement reports success and
    lifts the fence, and leaves every other operation of the journal as it is: one that
    ended in doubt after it stays applying, with the session usable again. *)
Theorem replay_lifts_later_fence `{BindingCodec} clock fates ctxErr MaxModelIDBytes validate change adoptable other_columns
    request operation w s value :
  let session := TrimSpace (mr_SessionID request) in
  let id := TrimSpace (mr_OperationID request) in
  (∀ n, fates n = Commits) →
  validModelChangeText id 128 = true → validModelChangeText session 256 = true →
  validModelChangeText (TrimSpace (mr_TargetModel request)) MaxModelIDBytes = true → validModelInputHash (mr_InputHash request) = true →
  Ops_Get (pw_tables w) id = Ok (Some operation) → sameModelRequest operation (trimmed_request request) = true →
  ro_State operation = RuntimeOperationTerminal → ro_Outcome operation = RuntimeOperationOutcomeContextPreserved →
  ro_ReasonCode operation = RuntimeOperationReasonChangedReplacement → is_Some (ro_TerminalAt operation) →
  pw_sessions w !! session = Some (mkTopic (Some s) true) → slot_at w s = Some value →
  replays_success value operation = true → fails (br_CompleteBase (sv_runtime value)) = false →
  ∃ w', ChangeModel (λ _ w, w) clock fates ctxErr MaxModelIDBytes validate change adoptable other_columns request w =
      (w', (mkResult ModelChangeChangedReplacement (ro_TargetModel operation) RuntimeOperationReasonChangedReplacement
              (u64 (ro_ExpectedGeneration operation + 1)), None)) ∧
    pw_sessions w' !! session = Some (mkTopic (Some s) false) ∧ pw_tables w' = pw_tables w ∧ pw_heap w' = pw_heap w ∧
    pw_asked w' = pw_asked w.
Proof.
  intros session id Hf H1 H2 H3 H4 Hget Hsame Hst Ho Hre Hat Ht Hv Hsucc Hbase.
  assert (Hsid : ro_SessionID operation = session).
  { unfold sameModelRequest in Hsame. rewrite !andb_true_iff, !bool_decide_eq_true in Hsame. apply Hsame. }
  unfold ChangeModel. cbn [mr_OperationID mr_SessionID mr_InputHash mr_TargetModel trimmed_request].
  fold session id. rewrite H1, H2, H3, H4. cbn [negb orb].
  unfold change_model, op_Get, on_tables, tick, mbind, pub_bind. cbn. fold id. rewrite Hf, Hget. cbn.
  rewrite Hsame. cbn. unfold resume_change. rewrite Hst, Hre, bool_decide_false, !bool_decide_true by done. cbn.
  unfold mbind, pub_bind. rewrite <-Hsid in Ht.
  erewrite (terminal_replacement_unfences clock fates ctxErr adoptable other_columns operation); [|done..]. cbn.
  unfold change_from, modelRuntimeValue, tick, mbind, pub_bind. cbn. fold session. rewrite <-Hsid, lookup_insert_eq. cbn.
  unfold slot_at in *. cbn. rewrite Hv. cbn. rewrite Hst, bool_decide_true by done. unfold replayModelResult. rewrite Hsucc, Hre. cbn.
  eexists. split; [reflexivity|]. cbn. by rewrite Hsid, lookup_insert_eq.
Qed.

(** The history: a replacement is made, a second change of the same session ends in
    doubt, stays applying and fences the session, and the first request is repeated. *)
Definition demo_first : pub_world := (demo_call agentproduct.ModelReplacement "op-1" "model-b" demo_ready).1.
Definition demo_doubt : pub_world * change_result := demo_call agentproduct.ModelAmbiguous "op-2" "model-c" demo_first.
Definition demo_first_operation : RuntimeOperationRecord := default no_operation (rt_operations (pw_tables demo_first) !! "op-1").
Definition demo_first_value : runtimeSlotValue := default demo_value (slot_at demo_first 1%nat).

Lemma replay_lifts_later_fence_witness :
  demo_doubt.2 = recoveryRequiredModelResult ∧
  ro_State <$> rt_operations (pw_tables demo_doubt.1) !! "op-2" = Some RuntimeOperationApplying ∧
  tp_recoveryRequired <$> pw_sessions demo_doubt.1 !! "s1" = Some true ∧
  let again := demo_call agentproduct.ModelApplied "op-1" "model-b" demo_doubt.1 in
  md_Status again.2.1 = ModelChangeChangedReplacement ∧ tp_recoveryRequired <$> pw_sessions again.1 !! "s1" = Some false ∧
  ro_State <$> rt_operations (pw_tables again.1) !! "op-2" = Some RuntimeOperationApplying.
Proof.
  split; [vm_compute; reflexivity|]. split; [vm_compute; reflexivity|]. split; [vm_compute; reflexivity|].
  destruct (replay_lifts_later_fence (λ n, 5000000 + 1000 * Z.of_nat n) (λ _, Commits) (λ _, None) 512 (λ _ _ _, agentproduct.ModelSupported)
    (demo_answer agentproduct.ModelApplied) (λ _, None) (λ _, mkColumns "s1" "active" "user") (mkRequest "op-1" "s1" demo_hash "model-b")
    demo_first_operation demo_doubt.1 1%nat demo_first_value) as (w' & E & Hs & Htab & _).
  1: done.
  1-9: vm_compute; reflexivity.
  1: vm_compute; by eexists.
  1-4: vm_compute; reflexivity.
  cbv zeta. unfold demo_call. rewrite E. cbn [fst snd md_Status]. split; [reflexivity|]. split; [by rewrite (Hs : _ !! "s1" = _)|].
  rewrite Htab. vm_compute. reflexivity.
Defined.
