(* ===== verification/ModelAsked.v ===== *)
(** * ModelAsked: a provider is asked once

    The operation of a model change marks a boundary (ModelChange): once it is applying,
    no later call with the same operation asks the provider again.  The invariant is
    carried through every step of a call, with whatever others do in between that does
    not take the operation back. *)

From Stdlib Require Import ZArith Lia String.
From stdpp Require Import base numbers list gmap strings relations.
From S2P Require Import Prelude.
From S2P Require Import GoStrings.
From S2P Require Import RuntimeOperations.
From S2P Require Import RuntimeSlots.
From S2P Require Import RuntimePublication.
From S2P Require Import ModelRecovery.
From S2P Require Import ModelChange.

Local Open Scope string_scope.
Local Open Scope list_scope.
Local Open Scope Z_scope.

(** ** Past the boundary *)
Definition past_boundary (r : RuntimeOperationRecord) : Prop :=
  ro_State r = RuntimeOperationApplying ∨ ro_State r = RuntimeOperationTerminal.
Definition crossed (id : string) (t : runtime_tables) : Prop :=
  ∃ r, rt_operations t !! id = Some r ∧ past_boundary r.

(** What the others may do to an operation whose lock is held, or between calls: ask
    nobody to carry it out, and not take it back. *)
Definition respects (id : string) (w w' : pub_world) : Prop :=
  asked id w' = asked id w ∧ (crossed id (pw_tables w) → crossed id (pw_tables w')).

Section store.
  Context `{BindingCodec}.

Lemma crossed_alter id id' f t :
  (∀ r, past_boundary r → past_boundary (f r)) → crossed id t → crossed id (alter_operation f id' t).
Proof.
  intros Hf (r & Hr & Hp). unfold crossed. cbn. rewrite lookup_alter. case_decide as E; [|by exists r].
  subst id'. rewrite Hr. exists (f r). split; [done | by apply Hf].
Qed.

Lemma begin_crossed ctxErr ft intent t t' r id : Ops_Begin ctxErr ft intent t = (t', r) → crossed id t → crossed id t'.
Proof.
  intros Hrun Hc. unfold Ops_Begin in Hrun. destruct (_ || _ || _ || _ || _ || _); [by injection Hrun as <- _|].
  destruct (prepareRuntimeOperationRecord _) as [intent'|]; [|by injection Hrun as <- _].
  destruct (transaction_run _ _ _ _ _ _ Hrun) as [->|[a Hb]]; [done|]. apply bind_Ok in Hb as (existing & Hg & Hb). destruct existing as [e|].
  { apply bind_Ok in Hb as (_ & _ & Hb). by injection Hb as <- _. }
  apply bind_Ok in Hb as (? & _ & Hb). apply bind_Ok in Hb as (_ & _ & Hb). injection Hb as <- _.
  destruct Hc as (q & Hq & Hp). exists q. split; [|done]. cbn. rewrite lookup_insert_ne; [done|]. intros <-.
  unfold get_operation in Hg. rewrite Hq in Hg. cbn in Hg. by apply bind_Ok in Hg as (? & _ & ?).
Qed.

Lemma mark_crossed ctxErr ft now id' hash t t' r id : Ops_MarkApplying ctxErr ft now id' hash t = (t', r) → crossed id t → crossed id t'.
Proof.
  intros Hrun Hc. unfold Ops_MarkApplying in Hrun. destruct (_ || _); [by injection Hrun as <- _|].
  destruct (transaction_run _ _ _ _ _ _ Hrun) as [->|[a Hb]]; [done|]. apply bind_Ok in Hb as (found & _ & Hb). destruct found; [|discriminate].
  apply bind_Ok in Hb as (_ & _ & Hb). case_bool_decide; [by injection Hb as <- _|].
  apply bind_Ok in Hb as (_ & _ & Hb). injection Hb as <- _. apply crossed_alter; [|done]. intros q _. by left.
Qed.

Lemma finalize_crossed ctxErr ft final t t' r id : Ops_Finalize ctxErr ft final t = (t', r) → crossed id t → crossed id t'.
Proof.
  intros Hrun Hc. unfold Ops_Finalize in Hrun. destruct (_ || _ || _ || _ || _); [by injection Hrun as <- _|].
  destruct (transaction_run _ _ _ _ _ _ Hrun) as [->|[a Hb]]; [done|]. apply bind_Ok in Hb as (found & _ & Hb). destruct found as [rec|]; [|discriminate].
  apply bind_Ok in Hb as (_ & _ & Hb). case_bool_decide.
  { apply bind_Ok in Hb as (_ & _ & Hb). by injection Hb as <- _. }
  apply bind_Ok in Hb as (_ & _ & Hb). apply bind_Ok in Hb as (_ & _ & Hb). apply bind_Ok in Hb as (t1 & Hp & Hb). injection Hb as <- _.
  apply crossed_alter; [intros q _; by right|]. destruct (publishesRuntime _); [|by apply Ok_inj in Hp as <-].
  apply publish_session_Ok in Hp as [Hops _]. unfold crossed. by rewrite Hops.
Qed.
End store.

(** ** What a step keeps *)
Section keeping.
  Context `{BindingCodec}.
  Context (env : nat → pub_world → pub_world) (clock : nat → Z) (fates : nat → fate) (ctxErr : nat → option error).
  Context (id : string) (Henv : ∀ n w, respects id w (env n w)).
  Context (k : nat) (past : bool).

(** The provider was asked [k] times, and with [past] the operation has crossed. *)
Definition asked_so_far (w : pub_world) : Prop := asked id w = k ∧ (past = true → crossed id (pw_tables w)).
Definition keeps {A} (m : pub A) : Prop := triple asked_so_far m (λ _, asked_so_far).

Lemma keep_ret {A} (a : A) : keeps (mret a).
Proof. by apply triple_ret. Qed.
Lemma keep_bind {A B} (m : pub A) (f : A → pub B) : keeps m → (∀ a, keeps (f a)) → keeps (m ≫= f).
Proof. intros Hm Hf. by eapply triple_bind. Qed.

Lemma env_keeps n w : asked_so_far w → asked_so_far (env n w).
Proof. intros [Ha Hc]. destruct (Henv n w) as [E1 E2]. split; [congruence | auto]. Qed.

Lemma keep_tick {A} (f : nat → pub_world → pub_world * A) :
  (∀ n w w' a, asked_so_far w → f n w = (w', a) → asked_so_far w') → keeps (tick env f).
Proof.
  intros Hf w w' a Hw E. unfold tick in E. apply (env_keeps (pw_calls w)) in Hw.
  destruct (f (pw_calls w) _) as [w1 a1] eqn:Ef. injection E as <- <-. by refine (Hf _ _ _ _ _ Ef).
Qed.
Lemma keep_same {A} (f : nat → pub_world → pub_world * A) :
  (∀ n w, pw_tables (f n w).1 = pw_tables w ∧ pw_asked (f n w).1 = pw_asked w) → keeps (tick env f).
Proof.
  intros Hf. apply keep_tick. intros n w w' a [Ha Hc] E. destruct (Hf n w) as [E1 E2]. rewrite E in E1, E2. cbn in E1, E2.
  unfold asked_so_far, asked. by rewrite E1, E2.
Qed.
Lemma keep_read {A} (f : nat → pub_world → A) : keeps (tick env (λ n w, (w, f n w))).
Proof. by apply keep_same. Qed.
Lemma keep_tables {A} (f : nat → runtime_tables → runtime_tables * A) :
  (∀ n t t' a, f n t = (t', a) → crossed id t → crossed id t') → keeps (on_tables env f).
Proof.
  intros Hf. apply keep_tick. intros n w w' a [Ha Hc] E. destruct (f n (pw_tables w)) as [t' a'] eqn:Ef. injection E as <- _.
  split; [exact Ha|]. intros Hp. eapply Hf; eauto.
Qed.

Lemma keep_begin intent : keeps (op_Begin env fates ctxErr intent).
Proof. apply keep_tables. intros n t t' a E. by eapply begin_crossed. Qed.
Lemma keep_get id' : keeps (op_Get env fates ctxErr id').
Proof. apply keep_tables. by intros n t t' a [= <- _]. Qed.
Lemma keep_mark id' hash : keeps (op_MarkApplying env clock fates ctxErr id' hash).
Proof. apply keep_tables. intros n t t' a E. by eapply mark_crossed. Qed.
Lemma keep_finalize intent outcome reason : keeps (op_Finalize env clock fates ctxErr intent outcome reason).
Proof. apply keep_tables. intros n t t' a E. by eapply finalize_crossed. Qed.
Lemma keep_recovery_finalize operation outcome reason :
  keeps (on_tables env (λ n, Ops_Finalize (ctxErr n) (fates n)
    (mkFinalization (ro_OperationID operation) (ro_InputHash operation) outcome reason (Z.max (clock n) (ro_UpdatedAt operation))))).
Proof. apply keep_tables. intros n t t' a E. by eapply finalize_crossed. Qed.
Lemma keep_row other_columns session : keeps (get_row env fates other_columns session).
Proof. apply keep_tables. by intros n t t' a [= <- _]. Qed.

Lemma keep_slot {A} s (f : RuntimeSlot → RuntimeSlot * A) missing : keeps (on_slot env s f missing).
Proof. apply keep_same. intros n w. destruct (_ !! s) as [sl|]; [|done]. by destruct (f sl). Qed.
Lemma keep_heap f : keeps (on_heap env f).
Proof. by apply keep_same. Qed.
Lemma keep_fence session : keeps (fenceRuntimeRecovery env session).
Proof. apply keep_same. intros n w. by destruct (_ !! session). Qed.
Lemma keep_swap session expected successor archiveID generation : keeps (swapRuntime env session expected successor archiveID generation).
Proof. apply keep_same. intros n w. destruct (_ !! session); [|done]. by destruct (guarded_by _ _ _ _ _). Qed.
Lemma keep_swap_recovered session expected successor archiveID generation :
  keeps (swapRecoveredRuntime env session expected successor archiveID generation).
Proof. apply keep_same. intros n w. destruct (_ !! session); [|done]. by destruct (recovering _ _ _ _ _). Qed.
Lemma keep_complete_recovered session current archiveID generation :
  keeps (completeRecoveredRuntime env session current archiveID generation).
Proof. apply keep_same. intros n w. destruct (_ !! session); [|done]. by destruct (recovering _ _ _ _ _). Qed.
Lemma keep_make s f : keeps (make_successor env s f).
Proof. apply keep_same. intros n w. destruct (_ !! s) as [sl|]; [|done]. by destruct (f sl _) as [[h s']|]. Qed.
Lemma keep_values incumbent candidate kont : (∀ iv cv, keeps (kont iv cv)) → keeps (with_values incumbent candidate kont).
Proof.
  intros Hk w w' r Hw E. unfold with_values in E. destruct (slot_at w incumbent) as [iv|], (slot_at w candidate) as [cv|];
    [by eapply Hk | by injection E as <- _ ..].
Qed.
End keeping.

Create HintDb keeps discriminated.
#[export] Hint Resolve keep_begin keep_get keep_mark keep_finalize keep_recovery_finalize keep_row keep_slot keep_heap keep_fence keep_swap
  keep_swap_recovered keep_complete_recovered keep_make keep_read keep_ret : keeps.

(** Follow a computation down to its steps. *)
Ltac keep_step :=
  lazymatch goal with
  | |- keeps _ _ _ (mret _) => apply keep_ret
  | |- keeps _ _ _ (_ ≫= _) => apply keep_bind; [|intros ?; cbv beta]
  | |- keeps _ _ _ (match ?x with _ => _ end) => destruct x
  | |- keeps _ _ _ (let '(_, _) := ?x in _) => destruct x
  | |- keeps _ _ _ (with_values _ _ _) => apply keep_values; intros ? ?
  | |- keeps _ _ _ (tick _ (λ _ _, (_, _))) => by apply keep_read
  | |- _ => solve [eauto with keeps]
  end.
Ltac keep := repeat keep_step.

Section calls.
  Context `{BindingCodec}.
  Context (env : nat → pub_world → pub_world) (clock : nat → Z) (fates : nat → fate) (ctxErr : nat → option error).
  Context (id : string) (Henv : ∀ n w, respects id w (env n w)).
  Context (k : nat) (past : bool).
  Context (validate : nat → RuntimeSessionIdentity → string → agentproduct.ModelValidationStatus).
  Context (change : nat → RuntimeSessionIdentity → string → RuntimeModelChange).
  Context (adoptable : nat → option BuiltRuntime) (other_columns : nat → session_columns).
  Notation kept := (keeps id k past).
  #[local] Hint Resolve Henv : keeps.

(** *** Publication *)
Lemma keep_claim candidate : kept (claim env candidate).
Proof. unfold claim. keep. Qed.
Lemma keep_release candidate b : kept (release_claim env candidate b).
Proof. unfold release_claim. keep. Qed.
#[local] Hint Resolve keep_claim keep_release : keeps.
Lemma keep_fail_applying session candidate operation claimed : kept (failApplyingPublication env session candidate operation claimed).
Proof. unfold failApplyingPublication. keep. Qed.
#[local] Hint Resolve keep_fail_applying : keeps.
Lemma keep_fail session candidate operation app claimed : kept (failPublication env session candidate operation app claimed).
Proof. unfold failPublication. keep. Qed.
Lemma keep_store_failed session intent err before : kept (store_failed env fates ctxErr session intent err before).
Proof. unfold store_failed, publicationStoreError. keep. Qed.
#[local] Hint Resolve keep_fail keep_store_failed : keeps.
Lemma keep_conclude session intent : kept (conclude_conflict env clock fates ctxErr session intent).
Proof. unfold conclude_conflict. keep. Qed.
Lemma keep_adopt incumbent candidate iv cv intent app terminal : kept (RuntimePublication.adopt env incumbent candidate iv cv intent app terminal).
Proof. unfold RuntimePublication.adopt. keep. Qed.
#[local] Hint Resolve keep_conclude keep_adopt : keeps.
Lemma keep_commit incumbent candidate iv cv intent outcome app reason operation :
  kept (commit_publication env clock fates ctxErr incumbent candidate iv cv intent outcome app reason operation).
Proof. unfold commit_publication. keep. Qed.
Lemma keep_settle candidate iv intent outcome app reason operation :
  kept (settle_terminal env candidate iv intent outcome app reason operation).
Proof. unfold settle_terminal, matchesCommitted. keep. Qed.
#[local] Hint Resolve keep_commit keep_settle : keeps.
Lemma keep_publish incumbent candidate iv cv intent outcome app reason operation :
  kept (publish_operation env clock fates ctxErr incumbent candidate iv cv intent outcome app reason operation).
Proof. unfold publish_operation, matchesRuntimeGuard. keep. Qed.
#[local] Hint Resolve keep_publish : keeps.
Lemma keep_publish_locked incumbent candidate iv cv intent outcome app reason :
  kept (publishRuntimeStateLocked env clock fates ctxErr incumbent candidate iv cv intent outcome app reason).
Proof. unfold publishRuntimeStateLocked, loadPublicationOperation. keep. Qed.
#[local] Hint Resolve keep_publish_locked : keeps.

(** *** Recovery of a terminal replacement *)
Lemma keep_finalize_recovery operation value outcome reason :
  kept (finalizeModelRecovery env clock fates ctxErr other_columns operation value outcome reason).
Proof. unfold finalizeModelRecovery, modelRecoveryCommitMatches. keep. Qed.
#[local] Hint Resolve keep_finalize_recovery : keeps.
Lemma keep_finish incumbent candidate value operation :
  kept (finishRecoveredModelReplacement env clock fates ctxErr other_columns incumbent candidate value operation).
Proof. unfold finishRecoveredModelReplacement, commit_recovered, abandon, fenced_error, refresh, callbacks. keep. Qed.
#[local] Hint Resolve keep_finish : keeps.
Lemma keep_complete operation : kept (completeTerminalModelReplacement env clock fates ctxErr adoptable other_columns operation).
Proof.
  unfold completeTerminalModelReplacement, read_topic, runtimeForRecovery, adoptPromotedModelReplacement, model_successor. keep.
Qed.
#[local] Hint Resolve keep_complete : keeps.

(** *** Change *)
Lemma keep_fence_result session : kept (fence_result env session).
Proof. unfold fence_result. keep. Qed.
#[local] Hint Resolve keep_fence_result : keeps.
Lemma keep_replay session value operation : kept (replayModelResult env session value operation).
Proof. unfold replayModelResult. keep. Qed.
#[local] Hint Resolve keep_replay : keeps.
Lemma keep_write session value operation err : kept (resolveAuthoritativeModelWrite env session value operation err).
Proof. unfold resolveAuthoritativeModelWrite. keep. Qed.
#[local] Hint Resolve keep_write : keeps.
Lemma keep_conclude_change incumbent value intent answer :
  kept (conclude_change env clock fates ctxErr incumbent value intent answer).
Proof.
  unfold conclude_change, finalizeModelNoop, publishModelChange, closeModelCandidate, refresh, runtimeForRecovery, model_successor. keep.
Qed.
Lemma keep_resolve_mark value request err : kept (resolveMarkApplyingFailure env fates ctxErr value request err).
Proof. unfold resolveMarkApplyingFailure. keep. Qed.
Lemma keep_resolve_begin value request err : kept (resolveBeginFailure env fates ctxErr value request err).
Proof. unfold resolveBeginFailure. keep. Qed.
Lemma keep_unavailable session : kept (unavailableModelRuntimeResult env session).
Proof. unfold unavailableModelRuntimeResult, read_topic. keep. Qed.
Lemma keep_runtime_value session : kept (modelRuntimeValue env session).
Proof. unfold modelRuntimeValue. keep. Qed.
End calls.
#[export] Hint Resolve keep_fence_result keep_replay keep_conclude_change keep_resolve_mark keep_resolve_begin keep_unavailable
  keep_runtime_value keep_complete : keeps.

(** ** A call *)
Lemma mark_ok `{BindingCodec} ctxErr ft now id hash t t' : Ops_MarkApplying ctxErr ft now id hash t = (t', Ok tt) → crossed id t'.
Proof.
  intros Hrun. unfold Ops_MarkApplying in Hrun. destruct (_ || _); [discriminate|]. unfold transaction in Hrun.
  assert (Hb : mark_body id hash now t = Ok (t', tt)).
  { destruct ft; [|discriminate|]; destruct (mark_body id hash now t) as [[t1 []]|e]; congruence. }
  apply bind_Ok in Hb as (found & Hg & Hb). destruct found as [rec|]; [|discriminate].
  destruct (get_target _ _ _ Hg) as (q & Hq & _ & Hs & _). apply bind_Ok in Hb as (_ & _ & Hb). case_bool_decide as Ha.
  - injection Hb as <-. exists q. split; [done|]. left. congruence.
  - apply bind_Ok in Hb as (_ & _ & Hb). injection Hb as <-. eexists. cbn. rewrite lookup_alter, decide_True, Hq by done.
    split; [done|]. by left.
Qed.

Section once.
  Context `{BindingCodec}.
  Context (env : nat → pub_world → pub_world) (clock : nat → Z) (fates : nat → fate) (ctxErr : nat → option error).
  Context (validate : nat → RuntimeSessionIdentity → string → agentproduct.ModelValidationStatus).
  Context (change : nat → RuntimeSessionIdentity → string → RuntimeModelChange).
  Context (adoptable : nat → option BuiltRuntime) (other_columns : nat → session_columns).
  Context (request : ModelChangeRequest).
  Notation id := (mr_OperationID request).
  Context (Henv : ∀ n w, respects id w (env n w)).
  #[local] Hint Resolve Henv : keeps.

Definition asked_once (w : pub_world) : Prop := asked id w = 0%nat ∨ (asked id w = 1%nat ∧ crossed id (pw_tables w)).

Lemma unasked {A} (m : pub A) : keeps id 0 false m → triple (asked_so_far id 0 false) m (λ _, asked_once).
Proof. intros Hm. eapply triple_conseq; [exact Hm | done |]. intros a w [Ha _]. by left. Qed.

Lemma cross_once incumbent value intent :
  triple (asked_so_far id 0 false) (cross_boundary env clock fates ctxErr change request incumbent value intent) (λ _, asked_once).
Proof.
  unfold cross_boundary.
  eapply (triple_bind _ _ (λ (marked : result unit) w, asked_so_far id 0 (is_ok marked) w)).
  { intros w w' marked Hw E. unfold op_MarkApplying, on_tables, tick in E. apply (env_keeps env id Henv 0 false (pw_calls w)) in Hw as [Ha _].
    cbn in E. destruct (Ops_MarkApplying _ _ _ _ _ _) as [t' r] eqn:Em. injection E as <- <-. split; [exact Ha|].
    destruct r as [[]|]; [|done]. intros _. by eapply mark_ok. }
  intros marked. destruct marked as [[]|err]; cbn [is_ok].
  2:{ apply unasked. keep. }
  eapply (triple_bind _ _ (λ _, asked_so_far id 1 true)).
  { intros w w' answer Hw E. unfold ask, tick in E. apply (env_keeps env id Henv 0 true (pw_calls w)) in Hw as [Ha Hc].
    injection E as <- _. split; [|exact Hc]. unfold asked in *. cbn [pw_asked]. rewrite filter_cons_True by done. cbn [length]. f_equal. exact Ha. }
  intros answer. cbv beta. eapply (triple_conseq (asked_so_far id 1 true)); [apply (keep_conclude_change env clock fates ctxErr id Henv 1 true) | done |].
  intros a w [Ha Hc]. right. split; [done | by apply Hc].
Qed.

Lemma begin_once incumbent value intent :
  triple (asked_so_far id 0 false) (begin_change env clock fates ctxErr change request incumbent value intent) (λ _, asked_once).
Proof.
  unfold begin_change. eapply (triple_bind _ _ (λ _, asked_so_far id 0 false)); [by apply keep_begin|]. intros begun; cbv beta.
  destruct begun as [operation|err]; [|apply unasked; keep].
  destruct (negb _); [apply unasked; keep|]. case_bool_decide; [apply unasked; keep|]. case_bool_decide; [apply unasked; keep|].
  case_bool_decide; cbn [negb]; [apply cross_once | apply unasked; keep].
Qed.

Lemma from_once existing :
  triple (asked_so_far id 0 false) (change_from env clock fates ctxErr validate change request existing) (λ _, asked_once).
Proof.
  unfold change_from. eapply (triple_bind _ _ (λ _, asked_so_far id 0 false)); [by apply keep_runtime_value|]. intros found; cbv beta.
  destruct found as [[incumbent value]|]; [|apply unasked; keep].
  eapply (triple_bind _ _ (λ _, asked_so_far id 0 false)); [by apply keep_read|]. intros now; cbv beta zeta.
  destruct (match existing with Some _ => _ | None => None end) as [operation|]; [apply unasked; keep|].
  destruct (negb _); [apply unasked; keep|].
  eapply (triple_bind _ _ (λ _, asked_so_far id 0 false)); [by apply keep_read|]. intros status; cbv beta.
  destruct status; try (apply unasked; by apply keep_ret). apply begin_once.
Qed.

Lemma resume_once existing :
  triple (asked_so_far id 0 false) (resume_change env clock fates ctxErr validate change adoptable other_columns request existing) (λ _, asked_once).
Proof.
  unfold resume_change. destruct existing as [operation|]; [|apply from_once]. case_bool_decide; [apply unasked; keep|].
  destruct (_ && _); [|apply from_once].
  eapply (triple_bind _ _ (λ _, asked_so_far id 0 false)); [by apply keep_complete|]. intros completed; cbv beta.
  destruct completed; [apply from_once | apply unasked; keep].
Qed.

(** Once the operation has crossed, a call does not reach the provider. *)
Lemma resume_past k existing :
  past_boundary existing →
  keeps id k true (resume_change env clock fates ctxErr validate change adoptable other_columns request (Some existing)).
Proof.
  intros Hp. assert (Hfrom : ro_State existing = RuntimeOperationTerminal →
    keeps id k true (change_from env clock fates ctxErr validate change request (Some existing))).
  { intros Ht. unfold change_from. rewrite bool_decide_true by done. keep. }
  unfold resume_change. case_bool_decide as Ha; [keep|]. destruct Hp as [?|Ht]; [done|]. rewrite bool_decide_true by done. cbn [andb].
  case_bool_decide; [|by apply Hfrom]. apply keep_bind; [keep|]. intros completed. destruct completed; [by apply Hfrom | keep].
Qed.

Lemma get_past k :
  triple (asked_so_far id k true) (op_Get env fates ctxErr id)
    (λ r w, asked_so_far id k true w ∧ match r with Ok existing => ∃ op, existing = Some op ∧ past_boundary op | Err _ => True end).
Proof.
  intros w w' r Hw E. unfold op_Get, on_tables, tick in E. apply (env_keeps env id Henv k true (pw_calls w)) in Hw as [Ha Hc].
  injection E as <- <-. split; [by split|]. cbn. destruct (Hc eq_refl) as (q & Hq & Hp).
  assert (Hg : ∀ o, Ops_Get (pw_tables (env (pw_calls w) w)) id = Ok o → ∃ op, o = Some op ∧ past_boundary op).
  { intros o Ho. unfold Ops_Get in Ho. apply bind_Ok in Ho as (_ & _ & Ho). destruct o as [op|].
    - destruct (get_target _ _ _ Ho) as (q' & Hq' & _ & Hs & _). exists op. split; [done|]. unfold past_boundary in *.
      assert (q' = q) as -> by congruence. by rewrite Hs.
    - unfold get_operation in Ho. rewrite Hq in Ho. cbn in Ho. by apply bind_Ok in Ho as (? & _ & ?). }
  destruct (fates _); [| done |]; destruct (Ops_Get _ _) as [o|] eqn:Eg; try done; by apply Hg.
Qed.

Lemma change_once :
  triple asked_once (change_model env clock fates ctxErr validate change adoptable other_columns request) (λ _, asked_once).
Proof.
  intros w w' r [Ha|[Ha Hc]] E.
  - assert (Hw : asked_so_far id 0 false w) by by split. refine (run_triple _ _ (λ _, asked_once) _ _ _ Hw E _). unfold change_model.
    eapply (triple_bind _ _ (λ _, asked_so_far id 0 false)); [by apply keep_get|]. intros found; cbv beta.
    destruct found as [existing|err]; [|apply unasked; keep]. destruct (match existing with Some _ => _ | None => false end).
    + apply unasked. keep.
    + apply resume_once.
  - assert (Hw : asked_so_far id 1 true w) by by split.
    assert (Hk : asked_so_far id 1 true w').
    { refine (run_triple _ _ (λ _, asked_so_far id 1 true) _ _ _ Hw E _). unfold change_model. eapply triple_bind; [apply get_past|].
      intros found. cbv beta. intros w1 w2 r1 [Hw1 Hf] E1. refine (run_triple _ _ (λ _, asked_so_far id 1 true) _ _ _ Hw1 E1 _).
      destruct found as [existing|err]; [|by apply keep_ret]. destruct Hf as (op & -> & Hp).
      destruct (negb _); [by apply keep_ret | by apply resume_past]. }
    destruct Hk as [Hk Hc']. right. split; [done | by apply Hc'].
Qed.
End once.

(** ** Histories *)

(** Calls for one operation, one after the other, with others in between. *)
Inductive model_step `{BindingCodec} (id : string) : pub_world → pub_world → Prop :=
  | ms_change env clock fates ctxErr MaxModelIDBytes validate change adoptable other_columns request w w' r :
      TrimSpace (mr_OperationID request) = id → (∀ n w, respects id w (env n w)) →
      ChangeModel env clock fates ctxErr MaxModelIDBytes validate change adoptable other_columns request w = (w', r) → model_step id w w'
  | ms_others w w' : respects id w w' → model_step id w w'.

(** C10. However often a model change is retried, the provider is asked at most once to
    carry it out: over any history of calls with one operation, with transactions
    failing or committing unreported, and with anything in between that leaves the
    operation applying or terminal once it is. The recovery of an applying operation,
    which asks for the provider's confirmation, is not one of these calls. *)
Theorem provider_asked_once `{BindingCodec} id w w' :
  asked id w = 0%nat → rtc (model_step id) w w' → (asked id w' ≤ 1)%nat.
Proof.
  intros H0 Hsteps.
  assert (Hinv : asked id w' = 0%nat ∨ (asked id w' = 1%nat ∧ crossed id (pw_tables w'))); [|lia].
  refine (rtc_ind_r (R := model_step id) (λ w', asked id w' = 0%nat ∨ (asked id w' = 1%nat ∧ crossed id (pw_tables w'))) w _ _ w' Hsteps);
    [by left|]. clear w' Hsteps. intros w1 w2 _ Hstep Hinv.
  destruct Hstep as [env clock fates ctxErr Max validate change adoptable other_columns request w1 w2 r <- Henv Hrun|w1 w2 [E1 E2]].
  - unfold ChangeModel in Hrun. destruct (_ || _); [by injection Hrun as <- _|].
    exact (change_once env clock fates ctxErr validate change adoptable other_columns (trimmed_request request) Henv w1 w2 r Hinv Hrun).
  - rewrite E1. destruct Hinv as [?|[? ?]]; [by left | right; auto].
Qed.

(** ** Witnesses *)
Definition demo_retried : pub_world := (demo_call agentproduct.ModelAmbiguous "op" "model-b" demo_changed.1).1.

Lemma demo_model_step status w : model_step "op" w (demo_call status "op" "model-b" w).1.
Proof. eapply ms_change; [|by intros|apply surjective_pairing]. vm_compute. reflexivity. Qed.

Lemma provider_asked_once_witness : asked "op" demo_changed.1 = 1%nat ∧ (asked "op" demo_retried ≤ 1)%nat.
Proof.
  split; [vm_compute; reflexivity|]. refine (provider_asked_once "op" demo_ready demo_retried _ _); [reflexivity|].
  eapply rtc_l; [apply (demo_model_step agentproduct.ModelApplied)|]. apply rtc_once, demo_model_step.
Defined.
