(* ===== verification/Runs.v ===== *)
(** * Runs: calls of a process that may die

    A call over a world that others change too: before any of its steps the process may
    die, and what a call returns is a value or an error.  A call of a store ends as a
    [fate] says. *)

From Stdlib Require Import String.
From stdpp Require Import base.
From S2P Require Import Prelude.

Inductive outcome (A : Type) := Done (a : A) | Failed (e : error) | Died.
Arguments Done {A} a.
Arguments Failed {A} e.
Arguments Died {A}.

Definition run (W A : Type) : Type := W → W * outcome A.

#[export] Instance run_ret {W} : MRet (run W) := λ A a w, (w, Done a).
#[export] Instance run_bind {W} : MBind (run W) := λ A B k m w,
  match m w with
  | (w, Done a) => k a w
  | (w, Failed e) => (w, Failed e)
  | (w, Died) => (w, Died)
  end.

Section runs.
  Context {W A : Type}.

Definition fail (e : error) : run W A := λ w, (w, Failed e).
Definition lift (r : result A) : run W A := match r with Ok a => mret a | Err e => fail e end.
(** [if _, err := m; err != nil { … }] *)
Definition try (m : run W A) : run W (result A) := λ w,
  match m w with
  | (w, Done a) => (w, Done (Ok a))
  | (w, Failed e) => (w, Done (Err e))
  | (w, Died) => (w, Died)
  end.
(** A call of a store that reads, and one that writes. *)
Definition read_fated (f : fate) (view : W → A) : run W A :=
  λ w, (w, match f with Commits => Done (view w) | Fails e | CommitsUnreported e => Failed e end).
End runs.

Definition write_fated {W} (f : fate) (update : W → W) : run W unit :=
  λ w, match f with
       | Commits => (update w, Done tt)
       | Fails e => (w, Failed e)
       | CommitsUnreported e => (update w, Failed e)
       end.
