(* ===== verification/CommandOutbox.v ===== *)
(** * CommandOutbox: durable admission and publication of commands

    src/internal/apps/balda/jobs/commandoutbox/outbox.go and the session scope of an
    envelope (src/internal/apps/balda/actorcmd/session_scope.go).  A call is a run over
    the durable store: before any of its steps the process may die, every call of the
    store ends as a [fate] says, and where the code holds no lock the others go first. *)

From Stdlib Require Import ZArith Lia Ascii String.
From stdpp Require Import base numbers list gmap strings.
From S2P Require Import Prelude.
From S2P Require Import GoStrings.
From S2P Require Import GoNumeric.
From S2P Require Import GoParse.
From S2P Require Import Sha256.
From S2P Require Import Runs.

Local Open Scope string_scope.
Local Open Scope list_scope.
Local Open Scope Z_scope.

(** ** The actor library

    The fields of an envelope the code reads, the codec and the error classes of
    go-actorlayer. *)
Record ActorAddress := mkAddress { ad_Target : string; ad_Key : string }.
#[export] Instance ActorAddress_eq_dec : EqDecision ActorAddress.
Proof. solve_decision. Defined.

Record DispatchReceipt := mkReceipt { dr_Stream : string; dr_MsgID : string; dr_Duplicate : bool }.
#[export] Instance DispatchReceipt_eq_dec : EqDecision DispatchReceipt.
Proof. solve_decision. Defined.

Class ActorLayer := {
  Envelope : Type;
  env_ID : Envelope → string;
  env_Namespace : Envelope → string;
  env_To : Envelope → ActorAddress;
  env_Meta : Envelope → gmap string string;
  env_ExpiresAt : Envelope → Z;
  DedupeKeyOrID : Envelope → string;
  EncodeEnvelope : Envelope → result string;
  DecodeEnvelope : string → result Envelope;
  DecodeError : error → error;
  TransientError : error → error;
  PolicyError : error → error }.

(** ** actorcmd: the session of an envelope *)
Definition ActorTypeSession : string := "session".
Definition ActorTypeCommand : string := "command".
Definition SessionIDMetaKey : string := "session_id".

Definition EnvelopeSessionID `{ActorLayer} (env : Envelope) : string :=
  let sessionID := TrimSpace (default "" (env_Meta env !! SessionIDMetaKey)) in
  if negb (bool_decide (sessionID = "")) then sessionID
  else let target := TrimSpace (ad_Target (env_To env)) in
       if EqualFold target ActorTypeSession || EqualFold target ActorTypeCommand
       then TrimSpace (ad_Key (env_To env)) else "".

(** ** Records

    Times are nanoseconds, 0 for Go's zero time; a value of the store is the
    JSON of an [ingressRecord], or a text that is not. *)
Definition ingressOutboxPrefix : string := "command-outbox/pending/".
Definition ingressReceiptPrefix : string := "command-outbox/receipts/".
Definition failedPrefix : string := "command-outbox/failed/".
Definition ingressSequenceKey : string := "command-outbox/admission-sequence".

Record ingressRecord := mkIngress {
  ir_Sequence : Z; ir_Envelope : string; ir_Receipt : option DispatchReceipt; ir_CreatedAt : Z; ir_NextAttempt : Z;
  ir_Attempts : Z; ir_RetainUntil : Z }.
Inductive stored := Record_ (r : ingressRecord) | Text (s : string).

Definition unmarshal (raw : stored) : result ingressRecord :=
  match raw with Record_ r => Ok r | Text _ => Err (ErrText "json: cannot unmarshal") end.
Definition parse_watermark (raw : stored) : result Z :=
  match raw with
  | Record_ _ => Err (ErrText "read ingress admission sequence")
  | Text s => match ParseUint s with Ok n => Ok n | Err e => Err (ErrWrap "read ingress admission sequence" e) end
  end.

Definition retention : Z := 7 * 24 * Hour.

Section outbox.
  Context `{ActorLayer}.

(** What was handed to the transport, with the row it came from and the answer. *)
Record sent_entry := mkSent {
  se_key : string; se_sequence : Z; se_env : Envelope; se_answer : result (option DispatchReceipt) }.

(** The durable store, the scan cursor of this process and, for the statements only,
    everything sent so far. *)
Record outbox_world := mkOutboxWorld {
  ow_store : gmap string stored; ow_gcCursor : gmap string string; ow_sent : list sent_entry; ow_calls : nat }.

Definition set_store (f : gmap string stored → gmap string stored) (w : outbox_world) : outbox_world :=
  mkOutboxWorld (f (ow_store w)) (ow_gcCursor w) (ow_sent w) (ow_calls w).

(** What surrounds one run: the clock, the fate of each store call, where the process
    dies, when its context ends, the transport, and the other goroutines. *)
Record surroundings := mkSurroundings {
  su_clock : nat → Z;
  su_fates : nat → fate;
  su_died : nat → bool;
  su_ctxErr : nat → option error;
  su_downstream : nat → Envelope → result (option DispatchReceipt);
  su_others : nat → outbox_world → outbox_world }.

#[local] Notation ob := (run outbox_world).

Section run.
  Context (S : surroundings).

Definition tick {A} (f : nat → ob A) : ob A := λ w,
  let n := ow_calls w in
  if su_died S n then (w, Died) else f n (mkOutboxWorld (ow_store w) (ow_gcCursor w) (ow_sent w) (Datatypes.S n)).

(** *** The store, the clock, the lock and the transport *)
Definition store_read {A} (f : gmap string stored → A) : ob A :=
  tick (λ n, read_fated (su_fates S n) (λ w, f (ow_store w))).
Definition store_write (f : gmap string stored → gmap string stored) : ob unit :=
  tick (λ n, write_fated (su_fates S n) (set_store f)).
Definition keys_under (prefix : string) (m : gmap string stored) : list string :=
  filter (λ k, HasPrefix k prefix = true) (elements (dom m)).
Definition store_Get (key : string) : ob (option stored) := store_read (λ m, m !! key).
Definition store_List (prefix : string) : ob (list string) := store_read (keys_under prefix).
Definition store_Set (key : string) (v : stored) : ob unit := store_write (<[key := v]>).
Definition store_Delete (key : string) : ob unit := store_write (delete key).

Definition now : ob Z := tick (λ n w, (w, Done (su_clock S n))).
Definition ctx_Err : ob (option error) := tick (λ n w, (w, Done (su_ctxErr S n))).
(** Taking a mutex, after the others. *)
Definition lock : ob unit := tick (λ n w, (su_others S n w, Done tt)).
Definition send (key : string) (record : ingressRecord) (env : Envelope) : ob (result (option DispatchReceipt)) :=
  tick (λ n w, let w := su_others S n w in
               let answer := su_downstream S n env in
               (mkOutboxWorld (ow_store w) (ow_gcCursor w)
                  (ow_sent w ++ [mkSent key (ir_Sequence record) env answer]) (ow_calls w), Done answer)).

Definition gcCursor (prefix : string) : ob string := λ w, (w, Done (default "" (ow_gcCursor w !! prefix))).
Definition set_gcCursor (prefix key : string) : ob unit := λ w,
  (mkOutboxWorld (ow_store w) (<[prefix := key]> (ow_gcCursor w)) (ow_sent w) (ow_calls w), Done tt).

(** ** Admission *)
Definition admissionReceipt (env : Envelope) (duplicate : bool) : DispatchReceipt :=
  mkReceipt "local-command-outbox" (env_ID env) duplicate.
Definition duplicate_of (r : DispatchReceipt) : DispatchReceipt := mkReceipt (dr_Stream r) (dr_MsgID r) true.

Definition save (key : string) (record : ingressRecord) : ob unit := store_Set key (Record_ record).

Definition nextSequence : ob Z :=
  raw ← store_Get ingressSequenceKey;
  sequence ← match raw with None => mret 0 | Some raw => lift (parse_watermark raw) end;
  if sequence =? max_u64 then fail (ErrText "ingress admission sequence exhausted")
  else
    let sequence := u64 (sequence + 1) in
    _ ← store_Set ingressSequenceKey (Text (FormatUint sequence));
    mret sequence.

Definition outbox_id (env : Envelope) : string := sha256_hex (env_Namespace env +:+ "/" +:+ DedupeKeyOrID env).

(** A row without receipt or tombstone: enter it, unless the queue is full. *)
Definition admit_new (key wire : string) (env : Envelope) : ob DispatchReceipt :=
  keys ← store_List ingressOutboxPrefix;
  if 256 <=? Zlength keys then fail (TransientError (ErrText "durable ingress queue is full"))
  else
    sequence ← nextSequence;
    created ← now;
    _ ← save key (mkIngress sequence wire None created 0 0 0);
    mret (admissionReceipt env false).

(** All of it runs under the admission lock. *)
Definition Dispatch (env : Envelope) : ob DispatchReceipt :=
  wire ← lift (EncodeEnvelope env);
  if 2 ^ 20 <? len wire then fail (DecodeError (ErrText "ingress envelope exceeds 1 MiB"))
  else
    let key := ingressOutboxPrefix +:+ outbox_id env in
    raw ← store_Get (ingressReceiptPrefix +:+ TrimPrefix key ingressOutboxPrefix);
    settled ← match raw with None => mret None | Some raw => record ← lift (unmarshal raw); mret (ir_Receipt record) end;
    match settled with
    | Some receipt => mret (duplicate_of receipt)
    | None =>
        expired ← store_Get (failedPrefix +:+ TrimPrefix key ingressOutboxPrefix);
        match expired with
        | Some _ => fail (PolicyError (ErrText "durable ingress command expired; submit a new request"))
        | None =>
            raw ← store_Get key;
            match raw with
            | None => admit_new key wire env
            | Some raw =>
                record ← lift (unmarshal raw);
                match ir_Receipt record with
                | Some receipt => mret (duplicate_of receipt)
                | None => original ← lift (DecodeEnvelope (ir_Envelope record)); mret (admissionReceipt original true)
                end
            end
        end
    end.

(** ** Publication *)
Definition finish (key prefix : string) (record : ingressRecord) : ob unit :=
  _ ← lock;
  _ ← save (prefix +:+ TrimPrefix key ingressOutboxPrefix) record;
  store_Delete key.

(** The record without its command, kept until the retention ends. *)
Definition settled_record (record : ingressRecord) (receipt : option DispatchReceipt) (nextAttempt retainUntil : Z) : ingressRecord :=
  mkIngress (ir_Sequence record) "" receipt (ir_CreatedAt record) nextAttempt (ir_Attempts record) retainUntil.
Definition retry_record (record : ingressRecord) (t : Z) : ingressRecord :=
  let attempts := ir_Attempts record + 1 in
  mkIngress (ir_Sequence record) (ir_Envelope record) (ir_Receipt record) (ir_CreatedAt record)
    (t + Second * 2 ^ Z.min attempts 6) attempts (ir_RetainUntil record).
Definition deadline_of (record : ingressRecord) (env : Envelope) : Z :=
  let deadline := ir_CreatedAt record + 24 * Hour in
  if negb (env_ExpiresAt env =? 0) && (env_ExpiresAt env <? deadline) then env_ExpiresAt env else deadline.

Definition publish_answered (key : string) (record : ingressRecord) (answer : result (option DispatchReceipt)) : ob DispatchReceipt :=
  let retry (err : error) :=
    t ← now;
    _ ← lock;
    _ ← save key (retry_record record t);
    fail (TransientError err) in
  match answer with
  | Err err => retry err
  | Ok None => retry (ErrText "command transport omitted durable receipt")
  | Ok (Some receipt) =>
      t ← now;
      _ ← finish key ingressReceiptPrefix (settled_record record (Some receipt) 0 (t + retention));
      mret receipt
  end.

Definition publish (key : string) (record : ingressRecord) : ob DispatchReceipt :=
  env ← lift (DecodeEnvelope (ir_Envelope record));
  t ← now;
  if negb (t <? deadline_of record env) then
    t ← now;
    _ ← finish key failedPrefix (settled_record record (ir_Receipt record) (ir_NextAttempt record) (t + retention));
    fail (DecodeError (ErrText "durable ingress command expired before publication"))
  else
    answer ← send key record env;
    publish_answered key record answer.

Definition publicationScope (env : Envelope) : ActorAddress :=
  let sessionID := EnvelopeSessionID env in
  if negb (bool_decide (sessionID = "")) then mkAddress ActorTypeSession sessionID else env_To env.

Record pendingIngress := mkPending { pi_key : string; pi_record : ingressRecord; pi_env : Envelope }.

(** One key of the listing: [None] when there is nothing left to publish. *)
Definition read_pending (key : string) : ob (option pendingIngress) :=
  published ← store_Get (ingressReceiptPrefix +:+ TrimPrefix key ingressOutboxPrefix);
  expired ← store_Get (failedPrefix +:+ TrimPrefix key ingressOutboxPrefix);
  match published, expired with
  | None, None =>
      raw ← store_Get key;
      match raw with
      | None => mret None
      | Some raw =>
          record ← lift (unmarshal raw);
          env ← lift (DecodeEnvelope (ir_Envelope record));
          mret (Some (mkPending key record env))
      end
  | _, _ => _ ← store_Delete key; mret None
  end.

Fixpoint read_all (keys : list string) : ob (list pendingIngress) :=
  match keys with
  | [] => mret []
  | key :: keys =>
      item ← read_pending key;
      rest ← read_all keys;
      mret (match item with None => rest | Some item => item :: rest end)
  end.

Definition pending_less (i j : pendingIngress) : bool :=
  let left := ir_Sequence (pi_record i) in
  let right := ir_Sequence (pi_record j) in
  if negb (left =? right) then left <? right
  else if ir_CreatedAt (pi_record i) =? ir_CreatedAt (pi_record j) then string_ltb (pi_key i) (pi_key j)
  else ir_CreatedAt (pi_record i) <? ir_CreatedAt (pi_record j).

Definition pending : ob (list pendingIngress) :=
  keys ← store_List ingressOutboxPrefix;
  items ← read_all keys;
  mret (SliceStable pending_less items).

(** ** Retention *)
Definition collect_key (prefix key : string) : ob unit :=
  raw ← store_Get key;
  match raw with
  | None => mret tt
  | Some raw =>
      record ← lift (unmarshal raw);
      if ir_RetainUntil record =? 0 then mret tt
      else
        t ← now;
        if t <? ir_RetainUntil record then mret tt
        else
          _ ← store_Delete (ingressOutboxPrefix +:+ TrimPrefix key prefix);
          store_Delete key
  end.

Fixpoint collect_keys (prefix : string) (keys : list string) : ob unit :=
  match keys with
  | [] => mret tt
  | key :: keys => _ ← collect_key prefix key; collect_keys prefix keys
  end.

Definition collect_prefix (prefix : string) : ob unit :=
  listed ← store_List prefix;
  cursor ← gcCursor prefix;
  let keys := sort_Strings listed in
  let at_ := SearchStrings keys cursor in
  let start := if bool_decide (keys !! at_ = Some cursor) then Datatypes.S at_ else at_ in
  let stop := Nat.min (start + 64) (length keys) in
  _ ← collect_keys prefix (take (stop - start) (drop start keys));
  if bool_decide (stop = length keys) then set_gcCursor prefix ""
  else set_gcCursor prefix (default "" (keys !! (stop - 1)%nat)).

Definition collect : ob unit :=
  _ ← collect_prefix ingressReceiptPrefix;
  collect_prefix failedPrefix.

(** ** The publisher *)
Fixpoint flush_items (items : list pendingIngress) (blocked : list ActorAddress) (attempts : Z) : ob unit :=
  match items with
  | [] => mret tt
  | item :: items =>
      err ← ctx_Err;
      match err with
      | Some err => fail err
      | None =>
          let scope := publicationScope (pi_env item) in
          if bool_decide (scope ∈ blocked) then flush_items items blocked attempts
          else
            t ← now;
            if t <? ir_NextAttempt (pi_record item) then flush_items items (scope :: blocked) attempts
            else
              published ← try (publish (pi_key item) (pi_record item));
              let blocked := match published with Err _ => scope :: blocked | Ok _ => blocked end in
              if 32 <=? attempts + 1 then mret tt else flush_items items blocked (attempts + 1)
      end
  end.

Definition Flush : ob unit :=
  _ ← lock;
  _ ← collect;
  items ← pending;
  flush_items items [] 0.
End run.
End outbox.

Notation ob := (run outbox_world).

Arguments mkSurroundings {_}.
Arguments mkOutboxWorld {_}.
