(* ===== verification/OutboxSpec.v ===== *)
(** * OutboxSpec: what the command outbox promises

    The outbox as three tables, a watermark and the log of what was sent, the moves it
    may make, and what holds after any sequence of moves.  [CommandOutbox] is shown to
    make only these moves in [OutboxRefinement]. *)

From Stdlib Require Import ZArith Lia String.
From stdpp Require Import base numbers list gmap sets strings relations sorting.
From S2P Require Import Prelude.
From S2P Require Import GoStrings.
From S2P Require Import Runs.
From S2P Require Import CommandOutbox.

Local Open Scope string_scope.
Local Open Scope list_scope.
Local Open Scope Z_scope.

Section spec.
  Context `{ActorLayer}.

(** ** State: rows by the identity of their command *)
Record outbox := mkOutbox {
  ob_pending : gmap string ingressRecord;
  ob_receipts : gmap string ingressRecord;
  ob_failed : gmap string ingressRecord;
  ob_mark : Z; (* the durable watermark *)
  ob_entered : Z; (* the highest sequence a row was entered with *)
  ob_sent : list sent_entry }.

Definition with_pending (f : gmap string ingressRecord → gmap string ingressRecord) (o : outbox) : outbox :=
  mkOutbox (f (ob_pending o)) (ob_receipts o) (ob_failed o) (ob_mark o) (ob_entered o) (ob_sent o).
Definition with_receipts (f : gmap string ingressRecord → gmap string ingressRecord) (o : outbox) : outbox :=
  mkOutbox (ob_pending o) (f (ob_receipts o)) (ob_failed o) (ob_mark o) (ob_entered o) (ob_sent o).
Definition with_failed (f : gmap string ingressRecord → gmap string ingressRecord) (o : outbox) : outbox :=
  mkOutbox (ob_pending o) (ob_receipts o) (f (ob_failed o)) (ob_mark o) (ob_entered o) (ob_sent o).

Definition enter (id wire : string) (created : Z) (o : outbox) : outbox :=
  mkOutbox (<[id := mkIngress (ob_mark o) wire None created 0 0 0]> (ob_pending o)) (ob_receipts o) (ob_failed o) (ob_mark o)
    (ob_mark o) (ob_sent o).

Definition settled (o : outbox) (id : string) : Prop := is_Some (ob_receipts o !! id) ∨ is_Some (ob_failed o !! id).
(** A row that is still to be published. *)
Record live (o : outbox) (id : string) (r : ingressRecord) : Prop := mkLive {
  lv_row : ob_pending o !! id = Some r; lv_receipt : ob_receipts o !! id = None; lv_failed : ob_failed o !! id = None }.

Definition row_scope (r : ingressRecord) : option ActorAddress :=
  match DecodeEnvelope (ir_Envelope r) with Ok env => Some (publicationScope env) | Err _ => None end.
Definition entry_scope (e : sent_entry) : ActorAddress := publicationScope (se_env e).
Definition pending_key (id : string) : string := ingressOutboxPrefix +:+ id.

(** ** Moves *)
(** What an admission does: raise the watermark, enter a row above every row before it. *)
Inductive admission : outbox → outbox → Prop :=
  | ad_mark o : ob_mark o < max_u64 →
      admission o (mkOutbox (ob_pending o) (ob_receipts o) (ob_failed o) (ob_mark o + 1) (ob_entered o) (ob_sent o))
  | ad_row o id wire created :
      ob_pending o !! id = None → ¬ settled o id → Z.of_nat (size (ob_pending o)) < 256 →
      ob_entered o < ob_mark o →
      admission o (enter id wire created o).

(** What the publisher does besides; a time it acts on is one its clock may read. *)
Inductive move (T : Z → Prop) : outbox → outbox → Prop :=
  | mv_admission o o' : admission o o' → move T o o'
  | mv_send o id r env t answer :
      live o id r → DecodeEnvelope (ir_Envelope r) = Ok env → T t → t < deadline_of r env →
      (∀ id' r', live o id' r' → row_scope r' = Some (publicationScope env) → ir_Sequence r ≤ ir_Sequence r') →
      move T o (mkOutbox (ob_pending o) (ob_receipts o) (ob_failed o) (ob_mark o) (ob_entered o)
                  (ob_sent o ++ [mkSent (pending_key id) (ir_Sequence r) env answer]))
  | mv_retry o id r t : ob_pending o !! id = Some r → move T o (with_pending (<[id := retry_record r t]>) o)
  | mv_receipt o id r e receipt until :
      ob_pending o !! id = Some r → e ∈ ob_sent o → se_sequence e = ir_Sequence r → se_answer e = Ok (Some receipt) →
      move T o (with_receipts (<[id := settled_record r (Some receipt) 0 until]>) o)
  | mv_expire o id r env t next until :
      ob_pending o !! id = Some r → DecodeEnvelope (ir_Envelope r) = Ok env → T t → deadline_of r env ≤ t →
      move T o (with_failed (<[id := settled_record r (ir_Receipt r) next until]>) o)
  | mv_drop o id : settled o id → move T o (with_pending (delete id) o)
  | mv_forget_receipt o id r t :
      ob_pending o !! id = None → ob_receipts o !! id = Some r → T t → ir_RetainUntil r ≤ t →
      move T o (with_receipts (delete id) o)
  | mv_forget_failed o id r t :
      ob_pending o !! id = None → ob_failed o !! id = Some r → T t → ir_RetainUntil r ≤ t →
      move T o (with_failed (delete id) o).

(** ** What always holds *)
Record outbox_ok (o : outbox) : Prop := mkOutboxOk {
  ok_mark : 0 ≤ ob_entered o ≤ ob_mark o ∧ ob_mark o ≤ max_u64;
  ok_bound : Z.of_nat (size (ob_pending o)) ≤ 256;
  ok_row : ∀ id r, ob_pending o !! id = Some r → 0 < ir_Sequence r ≤ ob_entered o ∧ ir_Receipt r = None;
  ok_distinct : ∀ id1 id2 r1 r2, ob_pending o !! id1 = Some r1 → ob_pending o !! id2 = Some r2 →
    ir_Sequence r1 = ir_Sequence r2 → id1 = id2;
  ok_receipt : ∀ id r, ob_receipts o !! id = Some r → is_Some (ir_Receipt r) ∧ 0 < ir_Sequence r ≤ ob_entered o;
  ok_failed : ∀ id r, ob_failed o !! id = Some r → 0 < ir_Sequence r ≤ ob_entered o;
  ok_tombstone : ∀ id r r', ob_receipts o !! id = Some r ∨ ob_failed o !! id = Some r →
    ∀ id', live o id' r' → ir_Sequence r' ≠ ir_Sequence r;
  ok_sent : ∀ e, e ∈ ob_sent o → 0 < se_sequence e ≤ ob_entered o;
  ok_sent_row : ∀ e id r, e ∈ ob_sent o → ob_pending o !! id = Some r → ir_Sequence r = se_sequence e →
    se_key e = pending_key id ∧ DecodeEnvelope (ir_Envelope r) = Ok (se_env e);
  ok_sent_same : ∀ e1 e2, e1 ∈ ob_sent o → e2 ∈ ob_sent o → se_sequence e1 = se_sequence e2 →
    se_key e1 = se_key e2 ∧ se_env e1 = se_env e2;
  ok_ahead : ∀ e id r, e ∈ ob_sent o → live o id r → row_scope r = Some (entry_scope e) → se_sequence e ≤ ir_Sequence r;
  ok_sorted : StronglySorted (λ e1 e2, entry_scope e1 = entry_scope e2 → se_sequence e1 ≤ se_sequence e2) (ob_sent o) }.

Definition no_outbox : outbox := mkOutbox ∅ ∅ ∅ 0 0 [].

Lemma no_outbox_ok : outbox_ok no_outbox.
Proof.
  split; cbn; intros; try (by rewrite lookup_empty in *); try (match goal with h : _ ∈ [] |- _ => by apply not_elem_of_nil in h end);
    try (rewrite map_size_empty; lia); try constructor; try done.
  destruct H0; by rewrite lookup_empty in *.
Qed.

(** ** Moves keep it *)
Section moves.
  Context (o : outbox) (Hok : outbox_ok o).

(** A move that adds neither a row nor an entry. *)
Lemma ok_shrink (o' : outbox) :
  ob_pending o' ⊆ ob_pending o → (∀ id r, live o' id r → live o id r) → ob_sent o' = ob_sent o → ob_mark o' = ob_mark o → ob_entered o' = ob_entered o →
  (∀ id r, ob_receipts o' !! id = Some r → is_Some (ir_Receipt r) ∧ 0 < ir_Sequence r ≤ ob_entered o) →
  (∀ id r, ob_failed o' !! id = Some r → 0 < ir_Sequence r ≤ ob_entered o) →
  (∀ id r, ob_receipts o' !! id = Some r ∨ ob_failed o' !! id = Some r →
     ∀ id' r', live o' id' r' → ir_Sequence r' ≠ ir_Sequence r) →
  outbox_ok o'.
Proof.
  intros Hp Hl Hs Hm He Hr Hf Ht. rewrite map_subseteq_spec in Hp. destruct Hok. split; rewrite ?Hs, ?Hm, ?He; eauto.
  assert (size (ob_pending o') ≤ size (ob_pending o))%nat; [|lia]. apply map_subseteq_size. by apply map_subseteq_spec.
Qed.

Lemma live_insert id x id' r : live (with_pending (<[id:=x]>) o) id' r →
  (id = id' ∧ x = r ∧ ¬ settled o id) ∨ (id ≠ id' ∧ live o id' r).
Proof.
  intros [Hl Hr Hf]. cbn in Hl, Hr, Hf. apply lookup_insert_Some in Hl as [[<- <-]|[Hne Hl]]; [left | right; by repeat split].
  repeat split. intros [[? ?]|[? ?]]; congruence.
Qed.

Lemma live_entered id wire created id' r : live (enter id wire created o) id' r →
  (id = id' ∧ mkIngress (ob_mark o) wire None created 0 0 0 = r) ∨ (id ≠ id' ∧ live o id' r).
Proof.
  intros [Hl Hr Hf]. cbn in Hl, Hr, Hf. apply lookup_insert_Some in Hl as [[<- <-]|[Hne Hl]]; [by left | right; by repeat split].
Qed.
Lemma live_receipt_in id x id' r : live (with_receipts (<[id:=x]>) o) id' r → id ≠ id' ∧ live o id' r.
Proof. intros [Hl Hr Hf]. cbn in Hl, Hr, Hf. apply lookup_insert_None in Hr as [Hr Hne]. by repeat split. Qed.
Lemma live_failed_in id x id' r : live (with_failed (<[id:=x]>) o) id' r → id ≠ id' ∧ live o id' r.
Proof. intros [Hl Hr Hf]. cbn in Hl, Hr, Hf. apply lookup_insert_None in Hf as [Hf Hne]. by repeat split. Qed.
Lemma live_dropped id id' r : live (with_pending (delete id) o) id' r → live o id' r.
Proof. intros [Hl Hr Hf]. cbn in Hl, Hr, Hf. apply lookup_delete_Some in Hl as [_ Hl]. by repeat split. Qed.
Lemma live_receipt_out id id' r : ob_pending o !! id = None → live (with_receipts (delete id) o) id' r → live o id' r.
Proof.
  intros Hp [Hl Hr Hf]. cbn in Hl, Hr, Hf. split; [done| |done]. apply lookup_delete_None in Hr as [<-|Hr]; [congruence|done].
Qed.
Lemma live_failed_out id id' r : ob_pending o !! id = None → live (with_failed (delete id) o) id' r → live o id' r.
Proof.
  intros Hp [Hl Hr Hf]. cbn in Hl, Hr, Hf. split; [done|done|]. apply lookup_delete_None in Hf as [<-|Hf]; [congruence|done].
Qed.

Lemma ok_mark_raised : ob_mark o < max_u64 →
  outbox_ok (mkOutbox (ob_pending o) (ob_receipts o) (ob_failed o) (ob_mark o + 1) (ob_entered o) (ob_sent o)).
Proof.
  intros Hm. destruct Hok as [H1 H2 H3 H4 H5 H6 H7 H8 H9 H10 H11 H12].
  assert (Hl : ∀ id r, live (mkOutbox (ob_pending o) (ob_receipts o) (ob_failed o) (ob_mark o + 1) (ob_entered o) (ob_sent o)) id r → live o id r)
    by (by intros id r [? ? ?]).
  split; cbn [ob_pending ob_receipts ob_failed ob_mark ob_entered ob_sent]; eauto. lia.
Qed.

Lemma ok_row_entered id wire created :
  ob_pending o !! id = None → ¬ settled o id → Z.of_nat (size (ob_pending o)) < 256 → ob_entered o < ob_mark o →
  outbox_ok (enter id wire created o).
Proof.
  intros Hp Hs Hsize Hmark. destruct Hok as [H1 H2 H3 H4 H5 H6 H7 H8 H9 H10 H11 H12].
  assert (Hrow : ∀ id' r, ob_pending o !! id' = Some r → 0 < ir_Sequence r < ob_mark o) by (intros id' r E; apply H3 in E; lia).
  split; cbn [ob_pending ob_receipts ob_failed ob_mark ob_entered ob_sent enter]; eauto.
  - lia.
  - rewrite map_size_insert_None by done. lia.
  - intros id' r [[<- <-]|[_ Hr]]%lookup_insert_Some; [cbn; split; [lia|done]|]. pose proof (H3 _ _ Hr). intuition lia.
  - intros id1 id2 r1 r2 [[<- <-]|[? E1]]%lookup_insert_Some [[<- <-]|[? E2]]%lookup_insert_Some Heq; cbn in Heq; try done.
    + apply Hrow in E2. lia.
    + apply Hrow in E1. lia.
    + by apply (H4 id1 id2 r1 r2).
  - intros id' r E. pose proof (H5 _ _ E). intuition lia.
  - intros id' r E. pose proof (H6 _ _ E). lia.
  - intros id' r r' Ht id2 [(<- & <-)|[_ Hl]]%live_entered; [|by apply (H7 id' r r' Ht id2)]. cbn.
    destruct Ht as [E|E]; [apply H5 in E as [_ E] | apply H6 in E]; lia.
  - intros e He. apply H8 in He. lia.
  - intros e id' r He [[<- <-]|[_ E]]%lookup_insert_Some Heq; [|by apply (H9 e id' r)]. apply H8 in He. cbn in Heq. lia.
  - intros e id' r He [(<- & <-)|[_ Hl]]%live_entered; [|by apply (H11 e id' r)]. intros _. apply H8 in He. cbn. lia.
Qed.

Lemma ok_row_retried id r t : ob_pending o !! id = Some r → outbox_ok (with_pending (<[id := retry_record r t]>) o).
Proof.
  intros Hp. destruct Hok as [H1 H2 H3 H4 H5 H6 H7 H8 H9 H10 H11 H12].
  assert (Hl : ∀ id' r', live (with_pending (<[id := retry_record r t]>) o) id' r' →
            ∃ r0, live o id' r0 ∧ ir_Sequence r' = ir_Sequence r0 ∧ ir_Envelope r' = ir_Envelope r0).
  { intros id' r' [(<- & <- & Hs)|[_ Hlive]]%live_insert; [|by exists r']. exists r. split; [|done].
    split; [done| |]; apply eq_None_not_Some; intros ?; apply Hs; [by left | by right]. }
  assert (Hr : ∀ id' r', <[id := retry_record r t]> (ob_pending o) !! id' = Some r' →
            ∃ r0, ob_pending o !! id' = Some r0 ∧ ir_Sequence r' = ir_Sequence r0 ∧ ir_Envelope r' = ir_Envelope r0 ∧
                  ir_Receipt r' = ir_Receipt r0).
  { intros id' r' [[<- <-]|[_ E]]%lookup_insert_Some; [by exists r | by exists r']. }
  split; cbn [ob_pending ob_receipts ob_failed ob_mark ob_sent with_pending]; eauto.
  - by rewrite map_size_insert_Some by eauto.
  - intros id' r' (r0 & E & -> & _ & ->)%Hr. by apply (H3 id').
  - intros id1 id2 r1 r2 (r1' & E1 & -> & _)%Hr (r2' & E2 & -> & _)%Hr. by apply H4.
  - intros id' r1 r2 Ht id2 (r0 & E & -> & _)%Hl. by apply (H7 id' r1 r0 Ht id2).
  - intros e id' r' He (r0 & E & -> & -> & _)%Hr. by apply H9.
  - intros e id' r' He (r0 & E & -> & Hw)%Hl. unfold row_scope. rewrite Hw. by apply (H11 e id').
Qed.

Lemma ok_sent_more id r env answer :
  live o id r → DecodeEnvelope (ir_Envelope r) = Ok env →
  (∀ id' r', live o id' r' → row_scope r' = Some (publicationScope env) → ir_Sequence r ≤ ir_Sequence r') →
  outbox_ok (mkOutbox (ob_pending o) (ob_receipts o) (ob_failed o) (ob_mark o) (ob_entered o)
               (ob_sent o ++ [mkSent (pending_key id) (ir_Sequence r) env answer])).
Proof.
  intros Hl Henv Hfirst. destruct Hok as [H1 H2 H3 H4 H5 H6 H7 H8 H9 H10 H11 H12]. pose proof (lv_row _ _ _ Hl) as Hrow.
  set (e0 := mkSent (pending_key id) (ir_Sequence r) env answer).
  assert (Hin : ∀ e, e ∈ ob_sent o ++ [e0] → e ∈ ob_sent o ∨ e = e0) by (intros e; rewrite elem_of_app, list_elem_of_singleton; tauto).
  assert (Hlive : ∀ id' r', live (mkOutbox (ob_pending o) (ob_receipts o) (ob_failed o) (ob_mark o) (ob_entered o) (ob_sent o ++ [e0])) id' r' →
            live o id' r') by (by intros ?? [? ? ?]).
  split; cbn [ob_pending ob_receipts ob_failed ob_mark ob_sent]; eauto.
  - intros e [He| ->]%Hin; [by apply H8 | by apply (H3 id)].
  - intros e id' r' [He| ->]%Hin Hp Heq; [by apply H9|]. pose proof (H4 _ _ _ _ Hp Hrow Heq) as ->. simplify_eq. by split.
  - intros e1 e2 [He1| ->]%Hin [He2| ->]%Hin Heq; [by apply H10| | |done]; cbn in *.
    + destruct (H9 e1 id r He1 Hrow (eq_sym Heq)) as [-> E]. split; [done|]. congruence.
    + destruct (H9 e2 id r He2 Hrow Heq) as [-> E]. split; [done|]. congruence.
  - intros e id' r' [He| ->]%Hin Hl'%Hlive Hsc; [by apply (H11 e id' r')|]. by apply (Hfirst id' r').
  - apply StronglySorted_app_2; [|done|repeat constructor]. intros e1 e2 He1 ->%list_elem_of_singleton Hsc. cbn.
    apply (H11 e1 id r He1 Hl). unfold row_scope. rewrite Henv. by rewrite Hsc.
Qed.
End moves.

Lemma ok_admission o o' : outbox_ok o → admission o o' → outbox_ok o'.
Proof. intros Hok. destruct 1; [by apply ok_mark_raised | by apply ok_row_entered]. Qed.

Lemma live_settled o id r : live o id r → ¬ settled o id.
Proof. intros [_ Hr Hf] [[? E]|[? E]]; congruence. Qed.

Lemma ok_move T o o' : outbox_ok o → move T o o' → outbox_ok o'.
Proof.
  intros Hok. destruct 1 as [|o id r env t answer Hl He _ _ Hfirst|o id r t Hp|o id r e receipt until Hp He Hs Ha|
    o id r env t next until Hp He _ Ht|o id Hs|o id r t Hp Hr _ _|o id r t Hp Hr _ _].
  - by eapply ok_admission.
  - by apply ok_sent_more.
  - by apply ok_row_retried.
  - pose proof (ok_row _ Hok _ _ Hp) as [Hseq _]. apply (ok_shrink o); try done.
    + by intros id' r' [_ ?]%live_receipt_in.
    + intros id' r' E. cbn in E. apply lookup_insert_Some in E as [[<- <-]|[_ E]]; [by split|]. by apply (ok_receipt _ Hok id').
    + apply (ok_failed _ Hok).
    + intros id' r' Hts id2 r2 [Hne Hl]%live_receipt_in.
      cbn in Hts. destruct Hts as [[[<- <-]|[_ E]]%lookup_insert_Some|E]; [|eapply (ok_tombstone _ Hok); eauto..].
      intros Heq. apply Hne. by apply (ok_distinct _ Hok _ _ _ _ Hp (lv_row _ _ _ Hl)).
  - pose proof (ok_row _ Hok _ _ Hp) as [Hseq _]. apply (ok_shrink o); try done.
    + by intros id' r' [_ ?]%live_failed_in.
    + apply (ok_receipt _ Hok).
    + intros id' r' E. cbn in E. apply lookup_insert_Some in E as [[<- <-]|[_ E]]; [done|]. by apply (ok_failed _ Hok id').
    + intros id' r' Hts id2 r2 [Hne Hl]%live_failed_in.
      cbn in Hts. destruct Hts as [E|[[<- <-]|[_ E]]%lookup_insert_Some]; [eapply (ok_tombstone _ Hok); eauto| |eapply (ok_tombstone _ Hok); eauto].
      intros Heq. apply Hne. by apply (ok_distinct _ Hok _ _ _ _ Hp (lv_row _ _ _ Hl)).
  - apply (ok_shrink o); try done; [apply delete_subseteq| |apply (ok_receipt _ Hok)|apply (ok_failed _ Hok)|].
    + intros id' r' Hl. by eapply live_dropped.
    + intros id' r' Hts id2 r2 Hl%live_dropped. by apply (ok_tombstone _ Hok id' r' r2 Hts id2).
  - apply (ok_shrink o); try done; [| |apply (ok_failed _ Hok)|].
    + intros id' r' Hl. by eapply live_receipt_out.
    + intros id' r' E. cbn in E. apply lookup_delete_Some in E as [_ E]. by apply (ok_receipt _ Hok id').
    + intros id' r' Hts id2 r2 Hl%live_receipt_out; [|done]. apply (ok_tombstone _ Hok id' r' r2) with (id' := id2); [|done].
      cbn in Hts. destruct Hts as [[_ E]%lookup_delete_Some|E]; auto.
  - apply (ok_shrink o); try done; [|apply (ok_receipt _ Hok)| |].
    + intros id' r' Hl. by eapply live_failed_out.
    + intros id' r' E. cbn in E. apply lookup_delete_Some in E as [_ E]. by apply (ok_failed _ Hok id').
    + intros id' r' Hts id2 r2 Hl%live_failed_out; [|done]. apply (ok_tombstone _ Hok id' r' r2) with (id' := id2); [|done].
      cbn in Hts. destruct Hts as [E|[_ E]%lookup_delete_Some]; auto.
Qed.

Lemma ok_moves T o o' : outbox_ok o → rtc (move T) o o' → outbox_ok o'.
Proof. intros Hok. induction 1 as [|o1 o2 o3 Hm _ IH]; [done|]. by apply IH, (ok_move T o1). Qed.

(** ** What follows from it *)
Lemma sent_grows T o o' : rtc (move T) o o' → ob_sent o `prefix_of` ob_sent o'.
Proof.
  induction 1 as [|o1 o2 o3 Hm _ IH]; [done|]. etrans; [|exact IH].
  destruct Hm as [? ? []| | | | | | | ]; cbn; try done. by apply prefix_app_r.
Qed.

Lemma move_times (T T' : Z → Prop) o o' : (∀ t, T t → T' t) → rtc (move T) o o' → rtc (move T') o o'.
Proof.
  intros HT. induction 1 as [|o1 o2 o3 Hm _ IH]; [done|]. eapply rtc_l; [|exact IH].
  destruct Hm; [by apply mv_admission | eapply mv_send | eapply mv_retry | eapply mv_receipt | eapply mv_expire | eapply mv_drop
    | eapply mv_forget_receipt | eapply mv_forget_failed]; eauto.
Qed.

(** A row goes on waiting with its command, or it was delivered, or its time was over. *)
Definition delivered (o : outbox) (r : ingressRecord) (env : Envelope) : Prop :=
  ∃ e receipt, e ∈ ob_sent o ∧ se_sequence e = ir_Sequence r ∧ se_env e = env ∧ se_answer e = Ok (Some receipt).
Definition same_command (r r' : ingressRecord) : Prop :=
  ir_Sequence r' = ir_Sequence r ∧ ir_Envelope r' = ir_Envelope r ∧ ir_CreatedAt r' = ir_CreatedAt r.
Definition accounted (T : Z → Prop) (id : string) (r : ingressRecord) (env : Envelope) (o : outbox) : Prop :=
  (∃ r', live o id r' ∧ same_command r r') ∨ delivered o r env ∨ (∃ t, T t ∧ deadline_of r env ≤ t).

Lemma accounted_step T id r env o o' :
  outbox_ok o → DecodeEnvelope (ir_Envelope r) = Ok env → move T o o' → accounted T id r env o → accounted T id r env o'.
Proof.
  intros Hok Henv Hm [(r0 & Hl & Hs & Hw & Hc)|[(e & receipt & He & Hd)|Ht]]; [| |by right; right].
  2:{ right; left. exists e, receipt. split; [|exact Hd]. eapply elem_of_prefix; [exact He|]. apply (sent_grows T), rtc_once, Hm. }
  pose proof Hl as [Hrow Hr Hf].
  assert (Hstay : ∀ o', ob_pending o' !! id = Some r0 → ob_receipts o' !! id = None → ob_failed o' !! id = None →
            accounted T id r env o') by (intros o1 ? ? ?; left; by exists r0).
  destruct Hm as [o o' [|? id' wire created Hp]|o id' r' env' t answer|o id' r' t Hp|o id' r' e receipt until Hp He Hse Ha|
    o id' r' env' t next until Hp He HT Hle|o id' Hset|o id' r' t Hp Hrec|o id' r' t Hp Hrec]; try (by apply Hstay).
  - apply Hstay; cbn; [|done..]. rewrite lookup_insert_ne; [done|]. congruence.
  - destruct (decide (id' = id)) as [->|Hne]; [|by apply Hstay; cbn; rewrite ?lookup_insert_ne].
    left. exists (retry_record r' t). split; [split; cbn; [by rewrite lookup_insert_eq|done..]|]. by simplify_eq.
  - destruct (decide (id' = id)) as [->|Hne]; [|by apply Hstay; cbn; rewrite ?lookup_insert_ne]. simplify_eq.
    right; left. exists e, receipt. destruct (ok_sent_row _ Hok e id r' He Hp (eq_sym Hse)) as [_ E].
    repeat split; [done|congruence|congruence|done].
  - destruct (decide (id' = id)) as [->|Hne]; [|by apply Hstay; cbn; rewrite ?lookup_insert_ne]. simplify_eq.
    right; right. exists t. split; [done|]. rewrite Hw, Henv in He. injection He as ->. unfold deadline_of in *. by rewrite Hc in Hle.
  - destruct (decide (id' = id)) as [->|Hne]; [by destruct (live_settled _ _ _ Hl)|]. apply Hstay; cbn; [|done..].
    by rewrite lookup_delete_ne.
  - apply Hstay; cbn; [done| |done]. by apply lookup_delete_None; right.
  - apply Hstay; cbn; [done|done|]. by apply lookup_delete_None; right.
Qed.

Lemma accounted_always T id r env o o' :
  outbox_ok o → DecodeEnvelope (ir_Envelope r) = Ok env → live o id r → rtc (move T) o o' → accounted T id r env o'.
Proof.
  intros Hok Henv Hl Hm. assert (Hacc : accounted T id r env o) by (left; by exists r). clear Hl.
  induction Hm as [|o1 o2 o3 Hm _ IH]; [done|]. apply IH; [by eapply ok_move | by eapply accounted_step].
Qed.

(** An admission no live row has any more: it is over. *)
Definition over (o : outbox) (sequence : Z) : Prop := sequence ≤ ob_entered o ∧ ∀ id r, live o id r → ir_Sequence r ≠ sequence.

Lemma tombstone_over o id r : outbox_ok o → ob_receipts o !! id = Some r ∨ ob_failed o !! id = Some r → over o (ir_Sequence r).
Proof.
  intros Hok Ht. split; [|by intros id' r' Hl; eapply (ok_tombstone _ Hok id r)].
  destruct Ht as [E|E]; [apply (ok_receipt _ Hok) in E as [_ E] | apply (ok_failed _ Hok) in E]; lia.
Qed.

Lemma over_kept T o o' sequence : outbox_ok o → move T o o' → over o sequence → over o' sequence.
Proof.
  intros Hok Hm [Hle Hover]. pose proof (ok_mark _ Hok) as Hmark.
  destruct Hm as [o o' [|? id wire created Hp Hs Hsize Hlt]|o id r env t answer Hl|o id r t Hp|
    o id r e receipt until Hp|o id r env t next until Hp|o id Hset|o id r t Hp Hrec|o id r t Hp Hrec];
    (split; [cbn; lia | intros id0 r0]).
  - intros [Hl1 Hl2 Hl3]. by apply (Hover id0).
  - intros [(<- & <-)|[_ Hl]]%live_entered; [cbn [ir_Sequence]; lia | by apply (Hover id0)].
  - intros [Hl1 Hl2 Hl3]. by apply (Hover id0).
  - intros [(<- & <- & Hs)|[_ Hl]]%live_insert; [|by apply (Hover id0)]. change (ir_Sequence r ≠ sequence). apply (Hover id). split; [done| |];
      apply eq_None_not_Some; intros ?; apply Hs; [by left | by right].
  - intros [_ Hl]%live_receipt_in. by apply (Hover id0).
  - intros [_ Hl]%live_failed_in. by apply (Hover id0).
  - intros Hl%live_dropped. by apply (Hover id0).
  - intros Hl%live_receipt_out; [|done]. by apply (Hover id0).
  - intros Hl%live_failed_out; [|done]. by apply (Hover id0).
Qed.

Lemma over_never_sent T o o' sequence :
  outbox_ok o → over o sequence → rtc (move T) o o' →
  ∃ l, ob_sent o' = ob_sent o ++ l ∧ Forall (λ e, se_sequence e ≠ sequence) l.
Proof.
  intros Hok Hover. induction 1 as [|o1 o2 o3 Hm _ IH]; [exists []; by rewrite app_nil_r|].
  destruct IH as (l & -> & Hl); [by eapply ok_move | by eapply over_kept|].
  assert (∃ l1, ob_sent o2 = ob_sent o1 ++ l1 ∧ Forall (λ e, se_sequence e ≠ sequence) l1) as (l1 & -> & Hl1).
  { destruct Hm as [? ? []|o id r env t answer Hlive| | | | | | ]; try (exists []; by rewrite app_nil_r).
    eexists. split; [done|]. constructor; [|done]. cbn. by apply (proj2 Hover id). }
  exists (l1 ++ l). split; [by rewrite app_assoc | by apply Forall_app].
Qed.
End spec.
