(* ===== verification/OutboxRefinement.v ===== *)
(** * OutboxRefinement: the command outbox makes the moves of its specification

    Every run of [Dispatch] and [Flush] of [CommandOutbox], however it ends and whatever
    the store does, is a sequence of moves of [OutboxSpec].  What the specification
    promises therefore holds of every history. *)

From Stdlib Require Import ZArith Lia String.
From stdpp Require Import base numbers list gmap sets strings relations sorting.
From S2P Require Import Prelude.
From S2P Require Import GoStrings.
From S2P Require Import GoNumeric.
From S2P Require Import GoParse.
From S2P Require Import Runs.
From S2P Require Import CommandOutbox.
From S2P Require Import OutboxSpec.

Local Open Scope string_scope.
Local Open Scope list_scope.
Local Open Scope Z_scope.

(** ** The keys of the outbox *)
Inductive slot := SPending (id : string) | SReceipt (id : string) | SFailed (id : string) | SMark.
#[export] Instance slot_eq_dec : EqDecision slot.
Proof. solve_decision. Defined.

Definition receipt_key (id : string) : string := ingressReceiptPrefix +:+ id.
Definition failed_key (id : string) : string := failedPrefix +:+ id.
Definition key_of (s : slot) : string :=
  match s with
  | SPending id => pending_key id
  | SReceipt id => receipt_key id
  | SFailed id => failed_key id
  | SMark => ingressSequenceKey
  end.

Lemma key_of_inj s1 s2 : key_of s1 = key_of s2 → s1 = s2.
Proof.
  destruct s1 as [a|a|a|], s2 as [b|b|b|]; intros E; try discriminate E; try (by apply append_inj_l in E as ->); done.
Qed.

Lemma trim_pending id : TrimPrefix (pending_key id) ingressOutboxPrefix = id.
Proof. apply TrimPrefix_append. Qed.

Section represents.
  Context `{ActorLayer}.

(** What the store holds for a state of the specification. *)
Definition content (o : outbox) (s : slot) : option stored :=
  match s with
  | SPending id => Record_ <$> ob_pending o !! id
  | SReceipt id => Record_ <$> ob_receipts o !! id
  | SFailed id => Record_ <$> ob_failed o !! id
  | SMark => if ob_mark o =? 0 then None else Some (Text (FormatUint (ob_mark o)))
  end.

Record represents (w : outbox_world) (o : outbox) : Prop := mkRepresents {
  rp_store : ∀ s, ow_store w !! key_of s = content o s;
  rp_sent : ow_sent w = ob_sent o }.

Lemma represents_update w o o' s v :
  represents w o → (∀ s', content o' s' = if decide (s' = s) then v else content o s') → ob_sent o' = ob_sent o →
  represents (set_store (partial_alter (λ _, v) (key_of s)) w) o'.
Proof.
  intros [Hs Hl] Hc He. split; [|by rewrite He]. intros s'. cbn. rewrite Hc. case_decide as Hd.
  - subst s'. by rewrite lookup_partial_alter_eq.
  - rewrite lookup_partial_alter_ne; [done|]. intros E. by apply Hd, key_of_inj.
Qed.

Lemma pending_listed w o k : represents w o → k ∈ keys_under ingressOutboxPrefix (ow_store w) ↔
  ∃ id, k = pending_key id ∧ is_Some (ob_pending o !! id).
Proof.
  intros Hr. unfold keys_under. rewrite list_elem_of_filter, elem_of_elements, elem_of_dom. split.
  - intros [(id & ->)%HasPrefix_inv E]. exists id. split; [done|]. pose proof (rp_store _ _ Hr (SPending id)) as Eq. cbn in Eq.
    unfold pending_key in Eq. rewrite Eq in E. by apply fmap_is_Some in E.
  - intros (id & -> & E). split; [apply HasPrefix_append|]. pose proof (rp_store _ _ Hr (SPending id)) as Eq. cbn in Eq. rewrite Eq.
    by apply fmap_is_Some.
Qed.

Lemma keys_under_NoDup prefix m : NoDup (keys_under prefix m).
Proof. apply NoDup_filter, NoDup_elements. Qed.

Lemma pending_counted w o : represents w o → Zlength (keys_under ingressOutboxPrefix (ow_store w)) = Z.of_nat (size (ob_pending o)).
Proof.
  intros Hr. unfold Zlength. f_equal. rewrite <-(size_dom (D := gset string)). unfold size, set_size. cbn.
  transitivity (length (pending_key <$> elements (dom (ob_pending o)))); [|apply length_fmap].
  apply Permutation_length, NoDup_Permutation; [apply keys_under_NoDup| |].
  - apply NoDup_fmap_2, NoDup_elements. intros a b E. by apply append_inj_l in E.
  - intros k. rewrite (pending_listed _ _ _ Hr), list_elem_of_fmap. setoid_rewrite elem_of_elements. by setoid_rewrite elem_of_dom.
Qed.

(** ** Runs that only make moves *)
Section sim.
  Context (M : relation outbox) (S : surroundings).
  Context (HM : ∀ o o', outbox_ok o → M o o' → outbox_ok o').

Definition stable (P : outbox → Prop) : Prop := ∀ o o', outbox_ok o → rtc admission o o' → P o → P o'.

(** From a represented state that satisfies [P], the run ends in one that [M] reaches,
    with [Q] if it returns a value and [E] if it returns an error. *)
Definition sim {A} (P : outbox → Prop) (m : ob A) (Q : A → outbox → Prop) (E : outbox → Prop) : Prop :=
  ∀ w o, represents w o → outbox_ok o → P o →
  let '(w', a) := m w in
  ∃ o', rtc M o o' ∧ outbox_ok o' ∧ represents w' o' ∧
        match a with Done a => Q a o' | Failed _ => E o' | Died => True end.

Lemma sim_ret {A} (P E : outbox → Prop) (a : A) (Q : A → outbox → Prop) :
  (∀ o, outbox_ok o → P o → Q a o) → sim P (mret a) Q E.
Proof. intros HQ w o Hr Hok HP. exists o. split_and!; try done. by apply HQ. Qed.

Lemma sim_fail {A} (P E : outbox → Prop) e (Q : A → outbox → Prop) : (∀ o, P o → E o) → sim P (fail e) Q E.
Proof. intros HE w o Hr Hok HP. exists o. split_and!; try done. by apply HE. Qed.

Lemma sim_weaken {A} (P P' : outbox → Prop) (m : ob A) (Q Q' : A → outbox → Prop) (E E' : outbox → Prop) :
  (∀ o, outbox_ok o → P' o → P o) → (∀ a o, outbox_ok o → Q a o → Q' a o) → (∀ o, outbox_ok o → E o → E' o) →
  sim P m Q E → sim P' m Q' E'.
Proof.
  intros HP HQ HE Hm w o Hr Hok Hp. specialize (Hm w o Hr Hok (HP o Hok Hp)). destruct (m w) as [w' a].
  destruct Hm as (o' & Hs & Hok' & Hr' & Ha). exists o'. split_and!; try done. destruct a; eauto.
Qed.

Lemma sim_bind {A B} (P : outbox → Prop) (m : ob A) (Q : A → outbox → Prop) (k : A → ob B) (R : B → outbox → Prop) (E : outbox → Prop) :
  sim P m Q E → (∀ a, sim (Q a) (k a) R E) → sim P (m ≫= k) R E.
Proof.
  intros Hm Hk w o Hr Hok HP. specialize (Hm w o Hr Hok HP). unfold mbind, run_bind. destruct (m w) as [w1 [a|e|]].
  - destruct Hm as (o1 & Hs & Hok1 & Hr1 & HQ). specialize (Hk a w1 o1 Hr1 Hok1 HQ). destruct (k a w1) as [w2 b].
    destruct Hk as (o2 & Hs2 & Hok2 & Hr2 & Hb). exists o2. split_and!; try done. by etrans.
  - exact Hm.
  - exact Hm.
Qed.

Lemma sim_pre {A} (P : outbox → Prop) (phi : Prop) (m : ob A) Q E :
  (phi → sim P m Q E) → sim (λ o, phi ∧ P o) m Q E.
Proof. intros Hm w o Hr Hok [Hphi HP]. exact (Hm Hphi w o Hr Hok HP). Qed.

Lemma sim_lift {A} (P E : outbox → Prop) (r : result A) : (∀ o, P o → E o) → sim P (lift r) (λ a o, r = Ok a ∧ P o) E.
Proof. intros HE w o Hr Hok HP. destruct r; exists o; split_and!; cbn; try done; eauto. Qed.

Lemma sim_tick {A} (P : outbox → Prop) (f : nat → ob A) Q E : (∀ n, sim P (f n) Q E) → sim P (tick S f) Q E.
Proof.
  intros Hf w o Hr Hok HP. unfold tick. destruct (su_died S (ow_calls w)); [by exists o|]. apply Hf; [by destruct Hr|done|done].
Qed.

Lemma sim_read {A} (P E : outbox → Prop) (f : gmap string stored → A) :
  (∀ o, P o → E o) → sim P (store_read S f) (λ a o, P o ∧ ∃ w, represents w o ∧ a = f (ow_store w)) E.
Proof.
  intros HE. apply sim_tick. intros n w o Hr Hok HP. exists o. split_and!; try done.
  destruct (su_fates S n); eauto.
Qed.

Lemma sim_get (P E : outbox → Prop) s :
  (∀ o, P o → E o) → sim P (store_Get S (key_of s)) (λ a o, a = content o s ∧ P o) E.
Proof.
  intros HE. eapply sim_weaken; [done| |done|by apply sim_read]. intros a o _ (HP & w & Hr & ->). cbn.
  by rewrite (rp_store _ _ Hr).
Qed.

Lemma sim_write (P : outbox → Prop) s v (Q : outbox → Prop) (E : outbox → Prop) (f : outbox → outbox) :
  (∀ o, outbox_ok o → P o → rtc M o (f o) ∧ outbox_ok (f o)) →
  (∀ o s', outbox_ok o → P o → content (f o) s' = if decide (s' = s) then v else content o s') →
  (∀ o, ob_sent (f o) = ob_sent o) →
  (∀ o, outbox_ok o → P o → Q (f o)) → (∀ o, outbox_ok o → P o → E o) → (∀ o, outbox_ok o → P o → E (f o)) →
  sim P (store_write S (partial_alter (λ _, v) (key_of s))) (λ _, Q) E.
Proof.
  intros Hm Hc Hs HQ HE HE'. apply sim_tick. intros n w o Hr Hok HP. destruct (Hm o Hok HP) as [Hstep Hok'].
  assert (Hr' : represents (set_store (partial_alter (λ _, v) (key_of s)) w) (f o)).
  { eapply represents_update; [done| |done]. intros s'. by apply Hc. }
  destruct (su_fates S n); cbn; [exists (f o)|exists o|exists (f o)]; split_and!; try done; eauto.
Qed.

Lemma sim_now (P E : outbox → Prop) : sim P (now S) (λ t o, (∃ n, su_clock S n = t) ∧ P o) E.
Proof. apply sim_tick. intros n w o Hr Hok HP. exists o. split_and!; cbn; try done; eauto. Qed.

Lemma sim_ctx (P E : outbox → Prop) : sim P (ctx_Err S) (λ _ o, P o) E.
Proof. apply sim_tick. intros n w o Hr Hok HP. exists o. split_and!; cbn; try done; eauto. Qed.

Lemma sim_gcCursor (P E : outbox → Prop) prefix : sim P (gcCursor prefix) (λ _ o, P o) E.
Proof. intros w o Hr Hok HP. by exists o. Qed.
Lemma sim_set_gcCursor (P E : outbox → Prop) prefix key : sim P (set_gcCursor prefix key) (λ _ o, P o) E.
Proof. intros w o [Hr Hl] Hok HP. exists o. split_and!; try done. Qed.

Lemma sim_try {A} (P : outbox → Prop) (m : ob A) (Q : A → outbox → Prop) (E E' : outbox → Prop) :
  sim P m Q E → sim P (try m) (λ r o, match r with Ok a => Q a o | Err _ => E o end) E'.
Proof.
  intros Hm w o Hr Hok HP. specialize (Hm w o Hr Hok HP). unfold try. destruct (m w) as [w' [a|e|]]; exact Hm.
Qed.
End sim.

(** ** The state between two steps of the publisher *)
Definition good (item : pendingIngress) (o : outbox) : Prop :=
  ∃ id, pi_key item = pending_key id ∧ live o id (pi_record item) ∧ DecodeEnvelope (ir_Envelope (pi_record item)) = Ok (pi_env item).
Definition in_order (i j : pendingIngress) : Prop := ir_Sequence (pi_record i) ≤ ir_Sequence (pi_record j).

(** A row not in the batch: of a blocked scope, or after the whole batch. *)
Definition passed_over (items : list pendingIngress) (blocked : list ActorAddress) (r : ingressRecord) : Prop :=
  (∃ scope, row_scope r = Some scope ∧ scope ∈ blocked) ∨ (∀ item, item ∈ items → ir_Sequence (pi_record item) < ir_Sequence r).
Definition covered (items : list pendingIngress) (blocked : list ActorAddress) (id : string) (r : ingressRecord) : Prop :=
  (∃ item, item ∈ items ∧ pi_key item = pending_key id) ∨ passed_over items blocked r.

(** Before an item: the batch is as listed, in order, and nothing else may go first. *)
Record loop_ok (items : list pendingIngress) (blocked : list ActorAddress) (o : outbox) : Prop := mkLoop {
  lo_order : StronglySorted in_order items;
  lo_unique : NoDup (pi_key <$> items);
  lo_good : ∀ item, item ∈ items → good item o;
  lo_rest : ∀ id r, live o id r → covered items blocked id r }.

(** While the first item [id] is settled or kept back. *)
Record item_ok (id : string) (scope : ActorAddress) (items : list pendingIngress) (blocked : list ActorAddress) (o : outbox) : Prop := mkItem {
  io_order : StronglySorted in_order items;
  io_unique : NoDup (pi_key <$> items);
  io_good : ∀ item, item ∈ items → good item o ∧ pi_key item ≠ pending_key id;
  io_rest : ∀ id' r, live o id' r → id' ≠ id → covered items blocked id' r;
  io_own : ∀ r, live o id r → row_scope r = Some scope;
  io_held : is_Some (ob_pending o !! id) ∨ settled o id }.

Lemma pending_key_inj id1 id2 : pending_key id1 = pending_key id2 → id1 = id2.
Proof. apply append_inj_l. Qed.

Lemma covered_tail item items blocked id r :
  pi_key item ≠ pending_key id → covered (item :: items) blocked id r → covered items blocked id r.
Proof.
  intros Hne [(i & [->|Hi]%elem_of_cons & E)|[Hs|Hlt]]; [done| | |].
  - left. by exists i.
  - right; by left.
  - right; right. intros i Hi. apply Hlt. by right.
Qed.

Lemma good_scope item o : good item o → row_scope (pi_record item) = Some (publicationScope (pi_env item)).
Proof. intros (id & _ & _ & E). unfold row_scope. by rewrite E. Qed.

Lemma loop_item item items blocked o id :
  loop_ok (item :: items) blocked o → pi_key item = pending_key id →
  item_ok id (publicationScope (pi_env item)) items blocked o.
Proof.
  intros [H1 H2 H3 H4] Hk. apply StronglySorted_inv in H1 as [H1 _]. rewrite fmap_cons in H2. apply NoDup_cons in H2 as [Hni H2].
  destruct (H3 item) as (id0 & E & Hl & Henv); [left|]. rewrite Hk in E. apply pending_key_inj in E as <-.
  split; try done.
  - intros i Hi. split; [apply H3; by right|]. intros E. apply Hni. rewrite Hk, <-E. by apply list_elem_of_fmap_2.
  - intros id' r Hl' Hne. eapply covered_tail; [|by apply H4]. rewrite Hk. intros E. by apply Hne, pending_key_inj.
  - intros r Hl'. unfold row_scope. pose proof (lv_row _ _ _ Hl). pose proof (lv_row _ _ _ Hl'). assert (r = pi_record item) as -> by congruence.
    by rewrite Henv.
  - left. by rewrite (lv_row _ _ _ Hl).
Qed.

Lemma item_loop_settled id scope items blocked o : item_ok id scope items blocked o → settled o id → loop_ok items blocked o.
Proof.
  intros [H1 H2 H3 H4 _ _] Hs. split; try done; [intros i Hi; by apply H3|].
  intros id' r Hl. apply H4; [done|]. intros ->. by apply (live_settled _ _ _ Hl).
Qed.

Lemma covered_blocked items blocked scope id r : covered items blocked id r → covered items (scope :: blocked) id r.
Proof.
  intros [?|[(sc & E & Hin)|?]]; [by left | right; left | by right; right]. exists sc. split; [done|by right].
Qed.

Lemma item_loop_blocked id scope items blocked o : item_ok id scope items blocked o → loop_ok items (scope :: blocked) o.
Proof.
  intros [H1 H2 H3 H4 H5 _]. split; try done; [intros i Hi; by apply H3|].
  intros id' r Hl. destruct (decide (id' = id)) as [->|Hne]; [|by apply covered_blocked, H4].
  right; left. exists scope. split; [by apply H5|left].
Qed.

Lemma loop_skip item items blocked o :
  loop_ok (item :: items) blocked o → publicationScope (pi_env item) ∈ blocked → loop_ok items blocked o.
Proof.
  intros Hl Hin. destruct (lo_good _ _ _ Hl item) as (id & E & _ & _); [left|].
  pose proof (item_loop_blocked _ _ _ _ _ (loop_item _ _ _ _ _ Hl E)) as [H1 H2 H3 H4]. split; try done.
  intros id' r Hr. destruct (H4 id' r Hr) as [?|[(sc & Es & [->|Hs]%elem_of_cons)|?]]; [by left| | |by right; right];
    right; left; eauto.
Qed.

Lemma loop_block item items blocked o :
  loop_ok (item :: items) blocked o → loop_ok items (publicationScope (pi_env item) :: blocked) o.
Proof.
  intros Hl. destruct (lo_good _ _ _ Hl item) as (id & E & _ & _); [left|]. by eapply item_loop_blocked, loop_item.
Qed.

(** The first item of a scope that is not blocked goes before every live row of its scope. *)
Lemma loop_first item items blocked o id r :
  loop_ok (item :: items) blocked o → publicationScope (pi_env item) ∉ blocked → live o id r →
  row_scope r = Some (publicationScope (pi_env item)) → ir_Sequence (pi_record item) ≤ ir_Sequence r.
Proof.
  intros [H1 H2 H3 H4] Hb Hl Hs. apply StronglySorted_inv in H1 as [_ Hall]. rewrite Forall_forall in Hall.
  destruct (H4 id r Hl) as [(i & Hi & E)|[(sc & E & Hin)|Hlt]].
  - destruct (H3 i Hi) as (id' & E' & Hl' & _). rewrite E in E'. apply pending_key_inj in E' as <-.
    pose proof (lv_row _ _ _ Hl). pose proof (lv_row _ _ _ Hl'). assert (r = pi_record i) as -> by congruence.
    apply elem_of_cons in Hi as [->|Hi]; [lia|]. by apply Hall.
  - congruence.
  - assert (ir_Sequence (pi_record item) < ir_Sequence r) by (apply Hlt; left). lia.
Qed.

Lemma live_admitted o o' id r : admission o o' → live o id r → live o' id r.
Proof.
  intros [|o1 id' wire created Hp] [Hl Hr Hf]; [by split|]. split; cbn; [|done..]. rewrite lookup_insert_ne; [done|congruence].
Qed.

Lemma loop_admission items blocked o o' : outbox_ok o → admission o o' → loop_ok items blocked o → loop_ok items blocked o'.
Proof.
  intros Hok Ha [H1 H2 H3 H4]. split; try done.
  - intros item Hi. destruct (H3 item Hi) as (id & E & Hl & Henv). exists id. split_and!; [done| |done]. by eapply live_admitted.
  - destruct Ha as [o Hm|o id' wire created Hp Hs Hsize Hlt]; intros id r Hl.
    + apply H4. by destruct Hl.
    + apply live_entered in Hl as [(<- & <-)|[_ Hl]]; [|by apply H4]. right; right. intros item Hi.
      destruct (H3 item Hi) as (id & _ & Hrow%lv_row & _). apply (ok_row _ Hok) in Hrow. cbn. lia.
Qed.

Lemma stable_rtc (P : outbox → Prop) :
  (∀ o o', outbox_ok o → admission o o' → P o → P o') → stable P.
Proof.
  intros HP o o' Hok Hs. revert Hok. induction Hs as [|o1 o2 o3 Ha _ IH]; [done|]. intros Hok Hp.
  apply IH; [by eapply ok_admission | by eapply HP].
Qed.

Lemma loop_stable items blocked : stable (loop_ok items blocked).
Proof. apply stable_rtc. intros. by eapply loop_admission. Qed.

Lemma true_stable : stable (λ _, True).
Proof. done. Qed.

Lemma entry_stable (e : sent_entry) : stable (λ o, e ∈ ob_sent o).
Proof. apply stable_rtc. by intros o o' _ [] He. Qed.

Lemma and_stable P Q : stable P → stable Q → stable (λ o, P o ∧ Q o).
Proof. intros HP HQ o o' Hok Hs [Hp Hq]. split; [by eapply HP | by eapply HQ]. Qed.

(** A write that concerns the item at hand only. *)
Definition elsewhere (id : string) (o o' : outbox) : Prop :=
  ∀ id', id' ≠ id → ob_pending o' !! id' = ob_pending o !! id' ∧ ob_receipts o' !! id' = ob_receipts o !! id' ∧
    ob_failed o' !! id' = ob_failed o !! id'.

Lemma elsewhere_live id o o' id' r : elsewhere id o o' → id' ≠ id → live o' id' r ↔ live o id' r.
Proof. intros He Hne. destruct (He id' Hne) as (E1 & E2 & E3). split; intros [? ? ?]; split; congruence. Qed.

Lemma item_local id scope items blocked o o' :
  item_ok id scope items blocked o → elsewhere id o o' → (∀ r, live o' id r → row_scope r = Some scope) →
  is_Some (ob_pending o' !! id) ∨ settled o' id → item_ok id scope items blocked o'.
Proof.
  intros [H1 H2 H3 H4 _ _] He Hown Hheld. split; try done.
  - intros item Hi. destruct (H3 item Hi) as [(id' & E & Hl & Henv) Hne]. split; [|done]. exists id'. split_and!; [done| |done].
    apply (elsewhere_live id o); [done| |done]. intros ->. done.
  - intros id' r Hl Hne. apply H4; [|done]. by apply (elsewhere_live id o o').
Qed.

Section item_writes.
  Context (id : string) (scope : ActorAddress) (items : list pendingIngress) (blocked : list ActorAddress) (o : outbox).
  Context (Hitem : item_ok id scope items blocked o).

Lemma item_retried r t : live o id r → item_ok id scope items blocked (with_pending (<[id := retry_record r t]>) o).
Proof.
  intros Hl. apply (item_local _ _ _ _ o); [done| | |left; cbn; by rewrite lookup_insert_eq].
  - intros id' Hne. cbn. by rewrite lookup_insert_ne by done.
  - intros r' [(_ & <- & _)|[? _]]%live_insert; [|done]. exact (io_own _ _ _ _ _ Hitem r Hl).
Qed.

Lemma item_receipt x : item_ok id scope items blocked (with_receipts (<[id := x]>) o).
Proof.
  apply (item_local _ _ _ _ o); [done| | |right; left; cbn; by rewrite lookup_insert_eq].
  - intros id' Hne. cbn. by rewrite lookup_insert_ne by done.
  - by intros r' [? _]%live_receipt_in.
Qed.

Lemma item_failed x : item_ok id scope items blocked (with_failed (<[id := x]>) o).
Proof.
  apply (item_local _ _ _ _ o); [done| | |right; right; cbn; by rewrite lookup_insert_eq].
  - intros id' Hne. cbn. by rewrite lookup_insert_ne by done.
  - by intros r' [? _]%live_failed_in.
Qed.

Lemma item_dropped : settled o id → item_ok id scope items blocked (with_pending (delete id) o).
Proof.
  intros Hs. apply (item_local _ _ _ _ o); [done| | |by right].
  - intros id' Hne. cbn. by rewrite lookup_delete_ne by done.
  - intros r' Hl%live_dropped. by destruct (live_settled _ _ _ Hl).
Qed.
End item_writes.
End represents.
