(* ===== verification/OutboxRuns.v ===== *)
(** * OutboxRuns: the runs of the command outbox, step by step

    [Dispatch], [collect], [pending], [publish] and [Flush] of [CommandOutbox] make moves
    of [OutboxSpec] only: the invariants of [OutboxRefinement] carried through each of
    them, whatever the store and the transport answer and wherever the process dies. *)

From Stdlib Require Import ZArith Lia String.
From stdpp Require Import base numbers list gmap sets strings relations sorting.
From S2P Require Import Prelude.
From S2P Require Import GoStrings.
From S2P Require Import GoNumeric.
From S2P Require Import GoParse.
From S2P Require Import Runs.
From S2P Require Import CommandOutbox.
From S2P Require Import OutboxSpec.
From S2P Require Import OutboxRefinement.

Local Open Scope string_scope.
Local Open Scope list_scope.
Local Open Scope Z_scope.

(** The content of a state after a write of one slot. *)
Ltac solve_content :=
  let o := fresh "o" in let s' := fresh "s'" in
  intros o s' _ _; destruct s'; cbn; repeat case_decide; simplify_eq; try done;
  first [by rewrite lookup_insert_eq | by rewrite lookup_insert_ne by congruence
        | by rewrite lookup_delete_eq | by rewrite lookup_delete_ne by congruence].

Section runs.
  Context `{ActorLayer}.
  Context (S : surroundings).

(** The listing is sorted by its admission sequences. *)
Lemma pending_sorted items : StronglySorted in_order (SliceStable pending_less items).
Proof.
  assert (Hs : StronglySorted (not_after pending_less) (SliceStable pending_less items)).
  { apply (SliceStable_sorted pending_less (λ _, True)); [| |by apply Forall_true].
    - intros y z _ _. unfold pending_less. rewrite (Z.eqb_sym (ir_CreatedAt (pi_record z))), (Z.eqb_sym (ir_Sequence (pi_record z))).
      rewrite !string_ltb_leb. destruct (Z.eqb_spec (ir_Sequence (pi_record y)) (ir_Sequence (pi_record z))); cbn; [|lia].
      destruct (Z.eqb_spec (ir_CreatedAt (pi_record y)) (ir_CreatedAt (pi_record z))); [|lia].
      destruct (string_leb_total (pi_key y) (pi_key z)) as [-> | ->]; cbn; [done|]. by destruct (string_leb _ _).
    - intros y z u _ _ _. unfold pending_less. rewrite !string_ltb_leb.
      destruct (Z.eqb_spec (ir_Sequence (pi_record z)) (ir_Sequence (pi_record y))), (Z.eqb_spec (ir_Sequence (pi_record u)) (ir_Sequence (pi_record z))),
        (Z.eqb_spec (ir_Sequence (pi_record u)) (ir_Sequence (pi_record y))); cbn; try lia.
      destruct (Z.eqb_spec (ir_CreatedAt (pi_record z)) (ir_CreatedAt (pi_record y))), (Z.eqb_spec (ir_CreatedAt (pi_record u)) (ir_CreatedAt (pi_record z))),
        (Z.eqb_spec (ir_CreatedAt (pi_record u)) (ir_CreatedAt (pi_record y))); try lia.
      rewrite !negb_false_iff. intros H1 H2. by eapply string_leb_trans. }
  induction Hs as [|x l Hs IH Hall]; constructor; [done|]. eapply Forall_impl; [exact Hall|]. intros y. unfold not_after, in_order, pending_less.
  destruct (Z.eqb_spec (ir_Sequence (pi_record y)) (ir_Sequence (pi_record x))); cbn; lia.
Qed.

(** ** Admission *)
Section admitting.
Notation sim := (sim admission).

Lemma parse_mark n : is_u64 n → parse_watermark (Text (FormatUint n)) = Ok n.
Proof. intros Hn. cbn. by rewrite ParseUint_FormatUint. Qed.

Definition mark_raised (o : outbox) : outbox :=
  mkOutbox (ob_pending o) (ob_receipts o) (ob_failed o) (ob_mark o + 1) (ob_entered o) (ob_sent o).
Definition absent (id : string) (o : outbox) : Prop :=
  ob_pending o !! id = None ∧ ¬ settled o id ∧ Z.of_nat (size (ob_pending o)) < 256.

(** Raise the watermark by one, over a row that is not there. *)
Lemma nextSequence_sim id :
  sim (absent id) (nextSequence S) (λ n o, (n = ob_mark o ∧ ob_entered o < ob_mark o) ∧ absent id o) (λ _, True).
Proof.
  unfold nextSequence. eapply sim_bind; [by apply (sim_get _ _ _ (λ _, True) SMark)|]. intros raw. cbv beta.
  eapply (sim_bind _ _ _ (λ n o, (n = ob_mark o ∧ 0 ≤ n ≤ max_u64) ∧ absent id o)).
  { intros w o Hr Hok [-> Ha]. pose proof (ok_mark _ Hok) as Hm. cbn [content]. destruct (Z.eqb_spec (ob_mark o) 0) as [E|E].
    - exists o. split_and!; try done; lia.
    - assert (is_u64 (ob_mark o)) by (unfold is_u64, max_u64 in *; lia). cbn. rewrite (ParseUint_FormatUint (ob_mark o)) by done.
      exists o. split_and!; try done; lia. }
  intros n. destruct (Z.eqb_spec n max_u64) as [->|Hne].
  { by apply sim_fail. }
  eapply (sim_bind _ _ _ (λ _ o, (u64 (n + 1) = ob_mark o ∧ ob_entered o < ob_mark o) ∧ absent id o)); [|intros _; by apply sim_ret].
  assert (Hm : ∀ o, outbox_ok o → n = ob_mark o → n ≤ max_u64 → u64 (n + 1) = ob_mark o + 1 ∧ ob_entered o < ob_mark o + 1).
  { intros o Hok -> Hle. pose proof (ok_mark _ Hok). split; [|lia]. apply u64_small. unfold is_u64, max_u64 in *. lia. }
  apply (sim_write admission S _ SMark (Some (Text (FormatUint (u64 (n + 1))))) _ (λ _, True) mark_raised); try done.
  - intros o Hok [[-> Hn] _]. assert (admission o (mark_raised o)) by (constructor; lia). split; [by apply rtc_once|].
    by eapply ok_admission.
  - intros o s' Hok [[-> Hn] _]. destruct (Hm o Hok eq_refl (proj2 Hn)) as [-> _]. pose proof (ok_mark _ Hok) as Hmark.
    destruct s'; cbn; try (by case_decide). rewrite decide_True by done. by destruct (Z.eqb_spec (ob_mark o + 1) 0); [lia|].
  - intros o Hok [[-> Hn] Ha]. by destruct (Hm o Hok eq_refl (proj2 Hn)).
Qed.

(** The row is entered, or nothing is. *)
Lemma admit_sim id wire env :
  sim (λ o, ob_pending o !! id = None ∧ ¬ settled o id) (admit_new S (pending_key id) wire env)
    (λ receipt o, ∃ r, live o id r ∧ ir_Envelope r = wire) (λ _, True).
Proof.
  unfold admit_new. eapply sim_bind; [by apply (sim_read _ _ _ (λ _, True))|]. intros keys. cbv beta.
  destruct (Z.leb_spec 256 (Zlength keys)) as [Hfull|Hroom]; [by apply sim_fail|].
  eapply sim_bind; [eapply sim_weaken; [| | |apply (nextSequence_sim id)]|]; try done.
  { intros o Hok [[Hp Hs] (w & Hr & ->)]. rewrite (pending_counted _ _ Hr) in Hroom. by split_and!. }
  intros n. eapply sim_bind; [apply sim_now|]. intros created. cbv beta.
  eapply (sim_bind _ _ _ (λ _ o, ∃ r, live o id r ∧ ir_Envelope r = wire)); [|intros ?; by apply sim_ret].
  unfold save. apply (sim_write admission S _ (SPending id) (Some (Record_ (mkIngress n wire None created 0 0 0))) _ (λ _, True)
    (enter id wire created)); try done.
  - intros o Hok (_ & [-> Hlt] & Hp & Hs & Hsize).
    assert (admission o (enter id wire created o)) by by constructor. split; [by apply rtc_once|]. by eapply ok_admission.
  - intros o s' Hok (_ & [-> Hlt] & _). revert o s' Hok Hlt. intros o s' _ _. destruct s'; cbn; case_decide; simplify_eq; try done;
      [by rewrite lookup_insert_eq | by rewrite lookup_insert_ne by congruence].
  - intros o _ (_ & _ & _ & Hs & _). exists (mkIngress (ob_mark o) wire None created 0 0 0). split; [|done]. split; cbn; [apply lookup_insert_eq|..];
      apply eq_None_not_Some; intros ?; apply Hs; [by left | by right].
Qed.

(** An accepted command has a row, or the receipt of its publication; one that was not
    there before has a row of its own. *)
Definition admitted (env : Envelope) (receipt : DispatchReceipt) (o : outbox) : Prop :=
  (is_Some (ob_pending o !! outbox_id env) ∨ is_Some (ob_receipts o !! outbox_id env)) ∧
  (dr_Duplicate receipt = false → ∃ r, live o (outbox_id env) r ∧ EncodeEnvelope env = Ok (ir_Envelope r)).

Lemma Dispatch_sim env : sim (λ _, True) (Dispatch S env) (admitted env) (λ _, True).
Proof.
  unfold Dispatch. eapply sim_bind; [by apply (sim_lift _ _ (λ _, True))|]. intros wire. apply sim_pre. intros Hwire.
  destruct (2 ^ 20 <? len wire); [by apply sim_fail|]. rewrite TrimPrefix_append. set (id := outbox_id env).
  eapply sim_bind; [by apply (sim_get _ _ _ (λ _, True) (SReceipt id))|]. intros raw. cbv beta.
  eapply (sim_bind _ _ _ (λ settled o, match settled with Some _ => is_Some (ob_receipts o !! id) | None => ob_receipts o !! id = None end)).
  { intros w o Hr Hok [-> _]. cbn. destruct (ob_receipts o !! id) as [r|] eqn:E; cbn.
    - exists o. split_and!; try done. destruct (ok_receipt _ Hok _ _ E) as [[receipt ->] _]. by eexists.
    - by exists o. }
  intros [receipt|]; [apply sim_ret; intros o _ Hs; split; [by right|done]|].
  eapply sim_bind; [by apply (sim_get _ _ _ (λ _, True) (SFailed id))|]. intros failed. cbv beta.
  destruct failed as [?|]; [by apply sim_fail|].
  eapply sim_bind; [by apply (sim_get _ _ _ (λ _, True) (SPending id))|]. intros raw'. cbv beta.
  destruct raw' as [v|].
  - apply (sim_weaken _ (λ o, is_Some (ob_pending o !! id)) _ _ (λ receipt o, is_Some (ob_pending o !! id) ∧ dr_Duplicate receipt = true) _
      (λ _, True) _); [|intros ? o _ [Hp Hd]; split; [by left|congruence]|done|].
    { intros o _ (E & _). cbn in E. by destruct (ob_pending o !! id). }
    eapply sim_bind; [by apply (sim_lift _ _ (λ _, True))|]. intros record. cbv beta.
    destruct (ir_Receipt record); [apply sim_ret; cbn; tauto|].
    eapply sim_bind; [by apply (sim_lift _ _ (λ _, True))|]. intros original. apply sim_ret. cbn. tauto.
  - eapply sim_weaken; [| |done|apply (admit_sim id wire env)].
    + intros o _ (E & E' & Hr). cbn in E, E'. destruct (ob_pending o !! id); [done|]. destruct (ob_failed o !! id) eqn:Ef; [done|].
      split; [done|]. intros [[? ?]|[? ?]]; congruence.
    + intros receipt o _ (r & Hl & Hw). split; [left; exists r; by apply lv_row|]. intros _. exists r. split; [done|congruence].
Qed.
End admitting.

(** ** Publication *)
Section publishing.
  Context (T : Z → Prop) (Hclock : ∀ n, T (su_clock S n)).
  Context (Hothers : ∀ n w o, represents w o → outbox_ok o →
    ∃ o', rtc admission o o' ∧ outbox_ok o' ∧ represents (su_others S n w) o').
Notation sim := (sim (move T)).

Lemma admission_moves o o' : rtc admission o o' → rtc (move T) o o'.
Proof. apply rtc_subrel. intros ??. by apply mv_admission. Qed.

Lemma move_ok o o' : outbox_ok o → move T o o' → rtc (move T) o o' ∧ outbox_ok o'.
Proof. intros Hok Hm. split; [by apply rtc_once | by eapply ok_move]. Qed.

Lemma sim_lock (P E : outbox → Prop) : stable P → sim P (lock S) (λ _, P) E.
Proof.
  intros HP. apply sim_tick. intros n w o Hr Hok Hp. destruct (Hothers n w o Hr Hok) as (o' & Hs & Hok' & Hr').
  exists o'. split_and!; try done; [by apply admission_moves | by apply (HP o o')].
Qed.

Lemma sim_clock (P E : outbox → Prop) : sim P (now S) (λ t o, T t ∧ P o) E.
Proof. eapply sim_weaken; [done| |done|apply sim_now]. intros t o _ [[n <-] HP]. by split. Qed.

(** *** The batch *)
Definition rows_are (rows : string → ingressRecord → Prop) (o : outbox) : Prop := ∀ id r, live o id r ↔ rows id r.

Lemma rows_dropped rows id o : settled o id → rows_are rows o → rows_are rows (with_pending (delete id) o).
Proof.
  intros Hs Hrows id' r. rewrite <-(Hrows id' r). split; [by apply live_dropped|]. intros Hlive.
  pose proof Hlive as [Hl Hr Hf]. split; cbn; [|done..]. apply lookup_delete_Some. split; [|done]. intros <-.
  by apply (live_settled _ _ _ Hlive).
Qed.

(** Drop the row of a settled command; nothing live changes. *)
Lemma drop_sim id (P E : outbox → Prop) :
  (∀ o, outbox_ok o → P o → settled o id) → (∀ o, P o → E o) → (∀ o, outbox_ok o → P o → E (with_pending (delete id) o)) →
  sim P (store_Delete S (pending_key id)) (λ _ o', ∃ o, outbox_ok o ∧ P o ∧ o' = with_pending (delete id) o) E.
Proof.
  intros Hs HE HE'. apply (sim_write (move T) S _ (SPending id) None _ _ (with_pending (delete id))); try done.
  - intros o Hok HP. apply move_ok; [done|]. by apply mv_drop, Hs.
  - solve_content.
  - intros o Hok HP. by exists o.
  - intros o _. apply HE.
Qed.

Definition item_of (rows : string → ingressRecord → Prop) (item : pendingIngress) (id : string) : Prop :=
  pi_key item = pending_key id ∧ rows id (pi_record item) ∧ DecodeEnvelope (ir_Envelope (pi_record item)) = Ok (pi_env item).

Lemma read_pending_sim rows id :
  sim (rows_are rows) (read_pending S (pending_key id))
    (λ item o, rows_are rows o ∧ match item with Some item => item_of rows item id | None => ∀ r, ¬ rows id r end) (λ _, True).
Proof.
  unfold read_pending. rewrite !trim_pending.
  eapply sim_bind; [by apply (sim_get _ _ _ (λ _, True) (SReceipt id))|]. intros receipt. cbv beta.
  eapply sim_bind; [by apply (sim_get _ _ _ (λ _, True) (SFailed id))|]. intros failed. cbv beta.
  assert (Hgone : sim (λ o, settled o id ∧ rows_are rows o) (_ ← store_Delete S (pending_key id); mret None)
            (λ item o, rows_are rows o ∧ match item with Some item => item_of rows item id | None => ∀ r, ¬ rows id r end) (λ _, True)).
  { eapply sim_bind; [apply (drop_sim id _ (λ _, True)); tauto|]. intros ?; cbv beta. apply sim_ret. intros o' _ (o & Hok & [Hs Hrows] & ->).
    split; [by apply rows_dropped|]. intros r Hr. apply Hrows in Hr. by eapply live_settled. }
  destruct receipt as [v|]; [eapply sim_weaken; [| | |exact Hgone]; [|done..]|].
  { intros o _ (_ & E & Hrows). split; [left|done]. cbn in E. by destruct (ob_receipts o !! id). }
  destruct failed as [v|]; [eapply sim_weaken; [| | |exact Hgone]; [|done..]|].
  - intros o _ (E & _ & Hrows). split; [right|done]. cbn in E. by destruct (ob_failed o !! id).
  - eapply sim_bind; [by apply (sim_get _ _ _ (λ _, True) (SPending id))|]. intros raw. cbv beta. destruct raw as [v|].
    + eapply sim_bind; [by apply (sim_lift _ _ (λ _, True))|]. intros record. cbv beta.
      eapply sim_bind; [by apply (sim_lift _ _ (λ _, True))|]. intros env. apply sim_ret.
      intros o _ (Henv & Hrec & Ev & Ef & Er & Hrows). split; [done|]. split_and!; [done| |done]. cbn in Ev, Ef, Er. apply Hrows.
      destruct (ob_pending o !! id) as [r|] eqn:Ep; [|done]. injection Ev as ->. injection Hrec as ->.
      split; [done| |]; by eapply fmap_None.
    + apply sim_ret. intros o _ (Ev & _ & _ & Hrows). split; [done|]. intros r Hr. apply Hrows in Hr as [Hr _ _]. cbn in Ev. by rewrite Hr in Ev.
Qed.

(** What the listing of [ids] gives. *)
Record listed (rows : string → ingressRecord → Prop) (ids : list string) (items : list pendingIngress) : Prop := mkListed {
  ls_item : ∀ item, item ∈ items → ∃ id, id ∈ ids ∧ item_of rows item id;
  ls_unique : NoDup (pi_key <$> items);
  ls_all : ∀ id r, id ∈ ids → rows id r → ∃ item, item ∈ items ∧ pi_key item = pending_key id }.

Lemma listed_cons rows id ids item rest :
  id ∉ ids → item_of rows item id → listed rows ids rest → listed rows (id :: ids) (item :: rest).
Proof.
  intros Hni Hi [L1 L2 L3]. pose proof Hi as (Hk & Hrow & Henv). split.
  - intros i [->|Hin]%elem_of_cons; [exists id; split; [left|done]|]. destruct (L1 i Hin) as (id' & ? & ?). exists id'. split; [by right|done].
  - rewrite fmap_cons. constructor; [|done]. rewrite Hk. intros (i & E & Hin)%list_elem_of_fmap.
    destruct (L1 i Hin) as (id' & Hid & E' & _). rewrite E' in E. apply pending_key_inj in E as ->. done.
  - intros id' r [->|Hin]%elem_of_cons Hr; [exists item; split; [left|done]|]. destruct (L3 id' r Hin Hr) as (i & ? & ?).
    exists i. split; [by right|done].
Qed.

Lemma listed_skip rows id ids rest : (∀ r, ¬ rows id r) → listed rows ids rest → listed rows (id :: ids) rest.
Proof.
  intros Hno [L1 L2 L3]. split; [|done|].
  - intros i Hin. destruct (L1 i Hin) as (id' & ? & ?). exists id'. split; [by right|done].
  - intros id' r [->|Hin]%elem_of_cons Hr; [by destruct (Hno r)|]. by apply (L3 id' r).
Qed.

Lemma read_all_sim rows ids : NoDup ids →
  sim (rows_are rows) (read_all S (pending_key <$> ids)) (λ items o, rows_are rows o ∧ listed rows ids items) (λ _, True).
Proof.
  induction ids as [|id ids IH]; intros Hnd; cbn [read_all fmap list_fmap].
  - apply sim_ret. intros o _ Hrows. split; [done|]. split; [by intros ? ?%not_elem_of_nil|constructor|by intros ?? ?%not_elem_of_nil].
  - apply NoDup_cons in Hnd as [Hni Hnd]. eapply sim_bind; [apply read_pending_sim|]. intros item. cbv beta.
    eapply (sim_bind _ _ _ (λ rest o, (rows_are rows o ∧ listed rows ids rest) ∧
              match item with Some item => item_of rows item id | None => ∀ r, ¬ rows id r end)).
    { intros w o Hr Hok [Hrows Hi]. specialize (IH Hnd w o Hr Hok Hrows). destruct (read_all _ _ _) as [w' a].
      destruct IH as (o' & Hs & Hok' & Hr' & Ha). exists o'. split_and!; try done. by destruct a. }
    intros rest. apply sim_ret. intros o _ [[Hrows Hl] Hi]. split; [done|].
    destruct item as [item|]; [by apply listed_cons | by apply listed_skip].
Qed.

(** The listed keys are those of all rows that are live. *)
Definition listing (rows : string → ingressRecord → Prop) (keys : list string) : Prop :=
  ∃ ids, keys = pending_key <$> ids ∧ NoDup ids ∧ ∀ id r, rows id r → id ∈ ids.

Lemma pending_keys_ids w o : represents w o →
  ∃ ids, keys_under ingressOutboxPrefix (ow_store w) = pending_key <$> ids ∧ NoDup ids ∧ ∀ id, is_Some (ob_pending o !! id) → id ∈ ids.
Proof.
  intros Hr. set (keys := keys_under _ _). exists ((λ k, TrimPrefix k ingressOutboxPrefix) <$> keys).
  assert (Hk : keys = pending_key <$> ((λ k, TrimPrefix k ingressOutboxPrefix) <$> keys)).
  { rewrite <-list_fmap_compose. rewrite <-(list_fmap_id keys) at 1. apply list_fmap_ext. intros i k Hi. cbn.
    apply list_elem_of_lookup_2, (pending_listed _ _ _ Hr) in Hi as (id & -> & _). by rewrite trim_pending. }
  split_and!; [done| |].
  - eapply (NoDup_fmap_1 pending_key). rewrite <-Hk. apply keys_under_NoDup.
  - intros id Hs. assert (pending_key id ∈ keys) as Hin by (apply (pending_listed _ _ _ Hr); by exists id).
    rewrite Hk in Hin. apply list_elem_of_fmap in Hin as (id' & ->%pending_key_inj & Hin). done.
Qed.

Lemma keys_listing rows w o : represents w o → rows_are rows o → listing rows (keys_under ingressOutboxPrefix (ow_store w)).
Proof.
  intros Hr Hrows. destruct (pending_keys_ids w o Hr) as (ids & E & Hnd & Hall). exists ids. split_and!; [done..|].
  intros id r Hl%Hrows. apply Hall. exists r. by apply lv_row.
Qed.

Lemma listed_loop rows ids items o :
  rows_are rows o → listed rows ids items → (∀ id r, rows id r → id ∈ ids) → loop_ok (SliceStable pending_less items) [] o.
Proof.
  intros Hrows [L1 L2 L3] Hall. pose proof (SliceStable_perm pending_less items) as Hp. split.
  - apply pending_sorted.
  - by rewrite Hp.
  - intros item Hi. rewrite Hp in Hi. destruct (L1 item Hi) as (id & _ & Hk & Hrow & Henv). exists id. split_and!; [done| |done].
    by apply Hrows.
  - intros id r Hl%Hrows. left. destruct (L3 id r (Hall id r Hl) Hl) as (item & Hi & Hk). exists item. by rewrite Hp.
Qed.

Lemma pending_sim rows : sim (rows_are rows) (pending S) (λ items o, loop_ok items [] o) (λ _, True).
Proof.
  unfold pending. eapply (sim_bind _ _ _ (λ keys o, listing rows keys ∧ rows_are rows o)).
  { eapply sim_weaken; [| | |by apply (sim_read _ _ _ (λ _, True))]; [done| |done].
    intros keys o _ (Hrows & w & Hr & ->). split; [|done]. by eapply keys_listing. }
  intros keys. apply sim_pre. intros (ids & -> & Hnd & Hall). eapply sim_bind; [by apply read_all_sim|].
  intros items. apply sim_ret. intros o _ [Hrows Hl]. by eapply listed_loop.
Qed.

(** *** Retention *)
(** The two kinds of tombstone: their slot, their table and the move that forgets one. *)
Definition tombs (receipts : bool) (o : outbox) : gmap string ingressRecord := if receipts then ob_receipts o else ob_failed o.
Definition tomb_slot (receipts : bool) (id : string) : slot := if receipts then SReceipt id else SFailed id.
Definition tomb_prefix (receipts : bool) : string := if receipts then ingressReceiptPrefix else failedPrefix.
Definition forget (receipts : bool) (id : string) (o : outbox) : outbox :=
  if receipts then with_receipts (delete id) o else with_failed (delete id) o.

Lemma content_forget receipts id o s' :
  content (forget receipts id o) s' = if decide (s' = tomb_slot receipts id) then None else content o s'.
Proof.
  destruct receipts, s'; cbn; repeat case_decide; simplify_eq; try done;
    first [by rewrite lookup_delete_eq | by rewrite lookup_delete_ne by congruence].
Qed.
Lemma pending_of_tomb receipts id :
  ingressOutboxPrefix +:+ TrimPrefix (key_of (tomb_slot receipts id)) (tomb_prefix receipts) = pending_key id.
Proof. destruct receipts; cbn; unfold receipt_key, failed_key; by rewrite TrimPrefix_append. Qed.
Lemma tombs_content receipts id o v :
  Some v = content o (tomb_slot receipts id) → ∃ r, v = Record_ r ∧ tombs receipts o !! id = Some r.
Proof. intros E. destruct receipts; cbn in E |- *; symmetry in E; apply fmap_Some in E as (r & ? & [= ->]); by exists r. Qed.
Lemma tombs_settled receipts id o r : tombs receipts o !! id = Some r → settled o id.
Proof. intros E. destruct receipts; [left|right]; by eexists. Qed.
Lemma forget_move receipts id o r t :
  tombs receipts o !! id = Some r → T t → ir_RetainUntil r ≤ t → move T (with_pending (delete id) o) (forget receipts id (with_pending (delete id) o)).
Proof.
  intros E Ht Hle. destruct receipts; [apply (mv_forget_receipt _ _ _ r t) | apply (mv_forget_failed _ _ _ r t)]; cbn; try done; by rewrite lookup_delete_eq.
Qed.

Lemma collect_key_sim receipts id :
  sim (λ _, True) (collect_key S (tomb_prefix receipts) (key_of (tomb_slot receipts id))) (λ _ _, True) (λ _, True).
Proof.
  unfold collect_key. eapply sim_bind; [by apply (sim_get _ _ _ (λ _, True) (tomb_slot receipts id))|]. intros raw. cbv beta.
  destruct raw as [v|]; [|by apply sim_ret].
  eapply (sim_bind _ _ _ (λ record o, tombs receipts o !! id = Some record)).
  { intros w o Hr Hok [(r & -> & E)%tombs_content _]. by exists o. }
  intros record. destruct (ir_RetainUntil record =? 0); [by apply sim_ret|].
  eapply sim_bind; [apply sim_clock|]. intros t. destruct (Z.ltb_spec t (ir_RetainUntil record)); [by apply sim_ret|].
  rewrite pending_of_tomb.
  eapply sim_bind; [apply (drop_sim id _ (λ _, True)); [|done|done]|].
  { intros o _ [_ E]. by eapply tombs_settled. }
  intros ?; cbv beta. apply (sim_write (move T) S _ (tomb_slot receipts id) None _ _ (forget receipts id)); try done.
  - intros o' Hok' (o & Hok & [Ht E] & ->). apply move_ok; [done|]. by apply (forget_move _ _ _ record t).
  - intros o s' _ _. apply content_forget.
  - intros o. by destruct receipts.
Qed.

Definition any : outbox → Prop := λ _, True.

Lemma collect_keys_sim receipts keys :
  (∀ key, key ∈ keys → HasPrefix key (tomb_prefix receipts) = true) →
  sim any (collect_keys S (tomb_prefix receipts) keys) (λ _, any) any.
Proof.
  induction keys as [|key keys IH]; intros Hk; cbn [collect_keys]; [by apply sim_ret|].
  destruct (HasPrefix_inv key (tomb_prefix receipts)) as (id & ->); [apply Hk; left|].
  eapply sim_bind; [|intros ?; cbv beta; apply IH; intros k Hin; apply Hk; by right].
  pose proof (collect_key_sim receipts id) as Hc. by destruct receipts.
Qed.

Lemma collect_prefix_sim receipts : sim any (collect_prefix S (tomb_prefix receipts)) (λ _, any) any.
Proof.
  unfold collect_prefix. eapply (sim_bind _ _ _ (λ keys o, (∀ key, key ∈ keys → HasPrefix key (tomb_prefix receipts) = true) ∧ any o)).
  { eapply sim_weaken; [| | |by apply (sim_read _ _ any any)]; [done| |done]. intros keys o _ (_ & w & Hr & ->). split; [|done].
    intros key. unfold keys_under. rewrite list_elem_of_filter. tauto. }
  intros keys. apply sim_pre. intros Hk. eapply sim_bind; [apply sim_gcCursor|]. intros cursor. cbv beta zeta.
  eapply (sim_bind _ _ _ (λ _, any)).
  - apply collect_keys_sim. intros key Hin. apply Hk. rewrite <-sort_Strings_perm.
    by apply subseteq_take, subseteq_drop in Hin.
  - intros ?; cbv beta. destruct (bool_decide _); apply sim_set_gcCursor.
Qed.

Lemma collect_sim : sim any (collect S) (λ _, any) any.
Proof. eapply sim_bind; [apply (collect_prefix_sim true) | intros ?; cbv beta; apply (collect_prefix_sim false)]. Qed.

(** *** One item *)
Section one_item.
  Context (id : string) (record : ingressRecord) (env : Envelope) (items : list pendingIngress) (blocked : list ActorAddress).
  Context (Henv : DecodeEnvelope (ir_Envelope record) = Ok env).
Notation item := (mkPending (pending_key id) record env).
Notation scope := (publicationScope env).
Notation before := (loop_ok (item :: items) blocked).
Notation after := (item_ok id scope items blocked).

Lemma before_live o : before o → live o id record.
Proof. intros Hl. destruct (lo_good _ _ _ Hl item) as (id' & E & Hlive & _); [left|]. cbn in E. by apply pending_key_inj in E as <-. Qed.
Lemma before_after o : before o → after o.
Proof. intros Hl. by apply (loop_item item). Qed.

(** Write the tombstone, then drop the row. *)
Lemma finish_sim (P : outbox → Prop) (receipts : bool) (tomb : ingressRecord) :
  let buried (o : outbox) := if receipts then with_receipts (<[id := tomb]>) o else with_failed (<[id := tomb]>) o in
  stable P → (∀ o, outbox_ok o → P o → before o ∧ move T o (buried o)) →
  sim P (finish S (pending_key id) (tomb_prefix receipts) tomb) (λ _ o, settled o id ∧ after o) after.
Proof.
  intros buried Hst HP. unfold finish. rewrite trim_pending. eapply sim_bind; [by apply sim_lock|]. intros ?; cbv beta.
  assert (Hb : ∀ o, before o → settled (buried o) id ∧ after (buried o)).
  { intros o Ho%before_after. destruct receipts; (split; [|by apply item_receipt || apply item_failed]).
    - left. cbn. by rewrite lookup_insert_eq.
    - right. cbn. by rewrite lookup_insert_eq. }
  eapply (sim_bind _ _ _ (λ _ o, settled o id ∧ after o)).
  - replace (tomb_prefix receipts +:+ id) with (key_of (tomb_slot receipts id)) by by destruct receipts.
    apply (sim_write (move T) S _ (tomb_slot receipts id) (Some (Record_ tomb)) _ _ buried).
    + intros o Hok Hp. apply move_ok; [done|]. by apply HP.
    + intros o s' _ _. destruct receipts, s'; cbn; repeat case_decide; simplify_eq; try done;
        first [by rewrite lookup_insert_eq | by rewrite lookup_insert_ne by congruence].
    + intros o. by destruct receipts.
    + intros o Hok Hp. by apply Hb, HP.
    + intros o Hok Hp. by apply before_after, HP.
    + intros o Hok Hp. by apply Hb, HP.
  - intros ?; cbv beta. eapply sim_weaken; [| | |apply (drop_sim id (λ o, settled o id ∧ after o) after)]; try done.
    + intros [] o _ (o1 & Hok1 & [Hs Ha] & ->). split; [done|]. by apply item_dropped.
    + tauto.
    + tauto.
    + intros o _ [Hs Ha]. by apply item_dropped.
Qed.

Lemma retry_sim err :
  sim before (t ← now S; _ ← lock S; _ ← save S (pending_key id) (retry_record record t); fail (TransientError err))
    (λ (_ : DispatchReceipt) o, settled o id ∧ after o) after.
Proof.
  eapply sim_bind; [apply sim_clock|]. intros t. apply sim_pre. intros _.
  eapply sim_bind; [apply sim_lock, loop_stable|]. intros ?; cbv beta.
  eapply (sim_bind _ _ _ (λ _ o, after o)); [|intros ?; by apply sim_fail].
  apply (sim_write (move T) S _ (SPending id) (Some (Record_ (retry_record record t))) _ _ (with_pending (<[id := retry_record record t]>))); try done.
  - intros o Hok Hb. apply move_ok; [done|]. by apply mv_retry, before_live.
  - solve_content.
  - intros o Hok Hb. apply item_retried; [by apply before_after | by apply before_live].
  - intros o Hok Hb. by apply before_after.
  - intros o Hok Hb. apply item_retried; [by apply before_after | by apply before_live].
Qed.

(** The transport was asked, when nothing of the scope had to go first. *)
Lemma send_sim t (E : outbox → Prop) : scope ∉ blocked → T t → t < deadline_of record env →
  sim before (send S (pending_key id) record env)
    (λ answer o, mkSent (pending_key id) (ir_Sequence record) env answer ∈ ob_sent o ∧ before o) E.
Proof.
  intros Hnb HT Ht. apply sim_tick. intros n w o Hr Hok Hb. destruct (Hothers n w o Hr Hok) as (o1 & Hs & Hok1 & Hr1).
  pose proof (loop_stable _ _ _ _ Hok Hs Hb) as Hb1. set (answer := su_downstream S n env).
  set (o2 := mkOutbox (ob_pending o1) (ob_receipts o1) (ob_failed o1) (ob_mark o1) (ob_entered o1)
               (ob_sent o1 ++ [mkSent (pending_key id) (ir_Sequence record) env answer])).
  assert (Hm : move T o1 o2).
  { apply (mv_send T o1 id record env t answer); [by apply before_live|done|done|done|]. intros id' r' Hl Hsc.
    by apply (loop_first item items blocked o1 id'). }
  exists o2. split_and!.
  - etrans; [by apply admission_moves | by apply rtc_once].
  - by eapply ok_move.
  - destruct Hr1 as [Hst Hlog]. split; [done|]. cbn. by rewrite Hlog.
  - apply elem_of_app. right. by apply list_elem_of_singleton.
  - destruct Hb1 as [B1 B2 B3 B4]. split; try done.
    + intros i Hi. destruct (B3 i Hi) as (id' & E1 & [L1 L2 L3] & E3). by exists id'.
    + intros id' r [L1 L2 L3]. by apply B4.
Qed.

Lemma publish_sim : scope ∉ blocked →
  sim before (publish S (pending_key id) record) (λ _ o, settled o id ∧ after o) after.
Proof.
  intros Hnb. unfold publish. rewrite Henv. eapply (sim_bind _ _ _ (λ e o, e = env ∧ before o)); [by apply sim_ret|].
  intros e. apply sim_pre. intros ->. eapply sim_bind; [apply sim_clock|]. intros t. apply sim_pre. intros HT.
  destruct (Z.ltb_spec t (deadline_of record env)) as [Ht|Ht]; cbn [negb].
  - eapply sim_bind; [by apply (send_sim t)|]. intros answer. cbv beta. unfold publish_answered.
    assert (Hretry : ∀ err, sim (λ o, mkSent (pending_key id) (ir_Sequence record) env answer ∈ ob_sent o ∧ before o)
              (t ← now S; _ ← lock S; _ ← save S (pending_key id) (retry_record record t); fail (TransientError err))
              (λ (_ : DispatchReceipt) o, settled o id ∧ after o) after).
    { intros err. eapply sim_weaken; [| | |apply (retry_sim err)]; [tauto|done|done]. }
    destruct answer as [[receipt|]|err] eqn:Ea; [|apply Hretry..]. eapply sim_bind; [apply sim_clock|].
    intros t2. apply sim_pre. intros HT2. eapply sim_bind; [apply (finish_sim _ true)|].
    + apply and_stable; [apply entry_stable | apply loop_stable].
    + intros o Hok [He Hb]. split; [done|]. eapply (mv_receipt T o id record); [by apply before_live|exact He|done|done].
    + intros ?. by apply sim_ret.
  - eapply sim_bind; [apply sim_clock|]. intros t2. apply sim_pre. intros HT2. eapply sim_bind; [apply (finish_sim _ false)|].
    + apply loop_stable.
    + intros o Hok Hb. split; [done|]. by eapply (mv_expire T o id record env t); [apply before_live| | |].
    + intros ?; cbv beta. apply sim_fail. tauto.
Qed.
End one_item.

(** *** The batch, published *)
Lemma flush_items_sim items blocked attempts : sim (loop_ok items blocked) (flush_items S items blocked attempts) (λ _, any) any.
Proof.
  revert blocked attempts. induction items as [|item items IH]; intros blocked attempts; cbn [flush_items]; [by apply sim_ret|].
  eapply sim_bind; [apply sim_ctx|]. intros err. cbv beta. destruct err as [err|]; [by apply sim_fail|].
  case_bool_decide as Hin.
  { eapply sim_weaken; [| | |apply IH]; [|done..]. intros o _ Hl. by eapply loop_skip. }
  eapply sim_bind; [apply sim_clock|]. intros t. apply sim_pre. intros _. destruct (t <? ir_NextAttempt (pi_record item)).
  { eapply sim_weaken; [| | |apply IH]; [|done..]. intros o _ Hl. by apply loop_block. }
  intros w o Hr Hok Hl. destruct (lo_good _ _ _ Hl item) as (id & Hk & _ & Henv); [left|]. destruct item as [key record env]. cbn in *. subst key.
  revert w o Hr Hok Hl. change (sim (loop_ok (mkPending (pending_key id) record env :: items) blocked)
    (published ← try (publish S (pending_key id) record);
     if 32 <=? attempts + 1 then mret () else
     flush_items S items match published with Ok _ => blocked | Err _ => publicationScope env :: blocked end (attempts + 1)) (λ _, any) any).
  eapply sim_bind; [eapply sim_try, publish_sim; done|]. intros published. cbv beta. destruct (32 <=? attempts + 1); [by apply sim_ret|].
  destruct published as [receipt|e]; (eapply sim_weaken; [| | |apply IH]; [|done..]).
  - intros o _ [Hs Ha]. by eapply item_loop_settled.
  - intros o _ Ha. by eapply item_loop_blocked.
Qed.

Lemma Flush_sim : sim any (Flush S) (λ _, any) any.
Proof.
  unfold Flush. eapply sim_bind; [by apply sim_lock|]. intros ?; cbv beta. eapply sim_bind; [apply collect_sim|]. intros ?; cbv beta.
  eapply (sim_bind _ _ _ (λ items, loop_ok items [])); [|intros items; apply flush_items_sim].
  intros w o Hr Hok _. exact (pending_sim (live o) w o Hr Hok (λ _ _, iff_refl _)).
Qed.
End publishing.
End runs.
