(* ===== verification/OutboxHistory.v ===== *)
(** * OutboxHistory: what the command outbox guarantees over any history

    Histories of admissions, flushes and restarts over a store that other users of the
    application's key-value table write to as well, with what [OutboxSpec] promises
    read back as statements about the store and about what the transport was given. *)

From Stdlib Require Import ZArith Lia String.
From stdpp Require Import base numbers list gmap sets strings relations sorting.
From S2P Require Import Prelude.
From S2P Require Import GoStrings.
From S2P Require Import GoNumeric.
From S2P Require Import GoParse.
From S2P Require Import Runs.
From S2P Require Import CommandOutbox.
From S2P Require Import OutboxSpec.
From S2P Require Import OutboxRefinement.
From S2P Require Import OutboxRuns.

Local Open Scope string_scope.
Local Open Scope list_scope.
Local Open Scope Z_scope.

Section history.
  Context `{ActorLayer}.

(** ** Histories *)
Definition dispatch_step (w w' : outbox_world) : Prop := ∃ S env, w' = (Dispatch S env w).1.

(** Only admissions go on beside a flush; its clock reads times of [T]. *)
Record flush_of (T : Z → Prop) (S : surroundings) : Prop := mkFlushOf {
  fo_clock : ∀ n, T (su_clock S n);
  fo_others : ∀ n w, rtc dispatch_step w (su_others S n w) }.

Inductive outbox_step (T : Z → Prop) : outbox_world → outbox_world → Prop :=
  | os_dispatch w w' : dispatch_step w w' → outbox_step T w w'
  | os_flush S w : flush_of T S → outbox_step T w (Flush S w).1
  | os_restart w : outbox_step T w (mkOutboxWorld (ow_store w) ∅ (ow_sent w) (ow_calls w))
  | os_foreign key v w : HasPrefix key "command-outbox/" = false → outbox_step T w (set_store (partial_alter (λ _, v) key) w).

Definition fresh_outbox (w : outbox_world) : Prop := (∀ s, ow_store w !! key_of s = None) ∧ ow_sent w = [].
Definition outbox_reachable (w : outbox_world) : Prop := ∃ w0, fresh_outbox w0 ∧ rtc (outbox_step (λ _, True)) w0 w.

Lemma dispatch_refines w w' o :
  dispatch_step w w' → represents w o → outbox_ok o → ∃ o', rtc admission o o' ∧ outbox_ok o' ∧ represents w' o'.
Proof.
  intros (S & env & ->) Hr Hok. pose proof (Dispatch_sim S env w o Hr Hok I) as Hs.
  destruct (Dispatch S env w) as [w' a]. destruct Hs as (o' & ? & ? & ? & _). by exists o'.
Qed.

Lemma dispatches_refine w w' o :
  rtc dispatch_step w w' → represents w o → outbox_ok o → ∃ o', rtc admission o o' ∧ outbox_ok o' ∧ represents w' o'.
Proof.
  intros Hs. revert o. induction Hs as [w|w w1 w' Hd _ IH]; intros o Hr Hok; [by exists o|].
  destruct (dispatch_refines _ _ _ Hd Hr Hok) as (o1 & Hm1 & Hok1 & Hr1). destruct (IH o1 Hr1 Hok1) as (o2 & Hm2 & Hok2 & Hr2).
  exists o2. split; [by etrans|done].
Qed.

Lemma step_refines T w w' o :
  outbox_step T w w' → represents w o → outbox_ok o → ∃ o', rtc (move T) o o' ∧ outbox_ok o' ∧ represents w' o'.
Proof.
  intros Hs Hr Hok. destruct Hs as [w w' Hd|S w [Hclock Hothers]|w|key v w Hkey].
  - destruct (dispatch_refines _ _ _ Hd Hr Hok) as (o' & Hm & ? & ?). exists o'. split; [by apply admission_moves|done].
  - assert (Ho : ∀ n w o, represents w o → outbox_ok o → ∃ o', rtc admission o o' ∧ outbox_ok o' ∧ represents (su_others S n w) o')
      by (intros n w1 o1 Hr1 Hok1; by apply (dispatches_refine w1)).
    pose proof (Flush_sim S T Hclock Ho w o Hr Hok I) as Hf. destruct (Flush S w) as [w' a].
    destruct Hf as (o' & ? & ? & ? & _). by exists o'.
  - exists o. split_and!; [done|done|]. by destruct Hr.
  - exists o. split_and!; [done|done|]. destruct Hr as [Hst Hl]. split; [|done]. intros s. cbn. rewrite lookup_partial_alter_ne; [done|].
    intros ->. by destruct s.
Qed.

Lemma steps_refine T w w' o :
  rtc (outbox_step T) w w' → represents w o → outbox_ok o → ∃ o', rtc (move T) o o' ∧ outbox_ok o' ∧ represents w' o'.
Proof.
  intros Hs. revert o. induction Hs as [w|w w1 w' Hd _ IH]; intros o Hr Hok; [by exists o|].
  destruct (step_refines _ _ _ _ Hd Hr Hok) as (o1 & Hm1 & Hok1 & Hr1). destruct (IH o1 Hr1 Hok1) as (o2 & Hm2 & Hok2 & Hr2).
  exists o2. split; [by etrans|done].
Qed.

Lemma reachable_represented w : outbox_reachable w → ∃ o, outbox_ok o ∧ represents w o.
Proof.
  intros (w0 & [Hf Hl] & Hs). destruct (steps_refine _ _ _ no_outbox Hs) as (o & _ & Hok & Hr).
  - split; [intros s; rewrite Hf; by destruct s | done].
  - apply no_outbox_ok.
  - by exists o.
Qed.

(** ** Reading the store *)
Record waiting (w : outbox_world) (id : string) (r : ingressRecord) : Prop := mkWaiting {
  wt_row : ow_store w !! pending_key id = Some (Record_ r);
  wt_receipt : ow_store w !! receipt_key id = None;
  wt_failed : ow_store w !! failed_key id = None }.
Definition settled_as (w : outbox_world) (id : string) (r : ingressRecord) : Prop :=
  ow_store w !! receipt_key id = Some (Record_ r) ∨ ow_store w !! failed_key id = Some (Record_ r).

Lemma waiting_live w o id r : represents w o → waiting w id r ↔ live o id r.
Proof.
  intros Hr. pose proof (rp_store _ _ Hr (SPending id)) as E1. pose proof (rp_store _ _ Hr (SReceipt id)) as E2.
  pose proof (rp_store _ _ Hr (SFailed id)) as E3. cbn in E1, E2, E3. split.
  - intros [H1 H2 H3]. rewrite H1 in E1. rewrite H2 in E2. rewrite H3 in E3. symmetry in E1, E2, E3.
    apply fmap_Some in E1 as (? & E1 & [= ->]). split; [done| |]; by eapply fmap_None.
  - intros [H1 H2 H3]. split; [by rewrite E1, H1 | by rewrite E2, H2 | by rewrite E3, H3].
Qed.

Lemma settled_as_tombstone w o id r : represents w o → settled_as w id r → ob_receipts o !! id = Some r ∨ ob_failed o !! id = Some r.
Proof.
  intros Hr [E|E]; [left; pose proof (rp_store _ _ Hr (SReceipt id)) as E1 | right; pose proof (rp_store _ _ Hr (SFailed id)) as E1];
    cbn in E1; rewrite E in E1; symmetry in E1; by apply fmap_Some in E1 as (? & ? & [= ->]).
Qed.

(** ** Properties *)

(** C3. Commands of one session are handed to the transport in the order they were
    admitted, over any history of admissions, flushes, store failures and restarts: the
    entries of one scope carry growing sequences, entries with one sequence are the same
    command, and nothing still waiting is older than anything sent of its scope. *)
Theorem sent_in_admission_order w : outbox_reachable w →
  StronglySorted (λ e1 e2, publicationScope (se_env e1) = publicationScope (se_env e2) → se_sequence e1 ≤ se_sequence e2) (ow_sent w) ∧
  (∀ e1 e2, e1 ∈ ow_sent w → e2 ∈ ow_sent w → se_sequence e1 = se_sequence e2 → se_key e1 = se_key e2 ∧ se_env e1 = se_env e2) ∧
  (∀ e id r env, e ∈ ow_sent w → waiting w id r → DecodeEnvelope (ir_Envelope r) = Ok env →
     publicationScope env = publicationScope (se_env e) → se_sequence e ≤ ir_Sequence r).
Proof.
  intros (o & Hok & Hr)%reachable_represented. rewrite (rp_sent _ _ Hr). split_and!.
  - exact (ok_sorted _ Hok).
  - exact (ok_sent_same _ Hok).
  - intros e id r env He Hw Henv Hs. apply (waiting_live _ _ _ _ Hr) in Hw. apply (ok_ahead _ Hok e id r He Hw).
    unfold row_scope. by rewrite Henv, Hs.
Qed.

(** C4. No admitted command is lost before its deadline. A waiting row, over any later
    history whose flushes read times before the deadline of its command, still waits
    with that command, or the transport acknowledged that very command. *)
Theorem admitted_command_survives (T : Z → Prop) w w' id r env :
  outbox_reachable w → waiting w id r → DecodeEnvelope (ir_Envelope r) = Ok env → (∀ t, T t → t < deadline_of r env) →
  rtc (outbox_step T) w w' →
  (∃ r', waiting w' id r' ∧ same_command r r') ∨
  (∃ e receipt, e ∈ ow_sent w' ∧ se_sequence e = ir_Sequence r ∧ se_env e = env ∧ se_answer e = Ok (Some receipt)).
Proof.
  intros (o & Hok & Hr)%reachable_represented Hw Henv HT Hs. apply (waiting_live _ _ _ _ Hr) in Hw.
  destruct (steps_refine _ _ _ _ Hs Hr Hok) as (o' & Hm & Hok' & Hr').
  destruct (accounted_always _ _ _ _ _ _ Hok Henv Hw Hm) as [(r' & Hl & Hsame)|[Hd|(t & Ht & Hle)]].
  - left. exists r'. split; [by apply (waiting_live _ _ _ _ Hr')|done].
  - right. by rewrite (rp_sent _ _ Hr').
  - specialize (HT t Ht). lia.
Qed.

(** C14. Acceptance is durable. When [Dispatch] accepts a command, the store holds its row
    or the receipt of its publication; when it accepts it as new, a row of its own waits
    with exactly that command. *)
Theorem acceptance_is_durable S env w w' receipt :
  outbox_reachable w → Dispatch S env w = (w', Done receipt) →
  (is_Some (ow_store w' !! pending_key (outbox_id env)) ∨ is_Some (ow_store w' !! receipt_key (outbox_id env))) ∧
  (dr_Duplicate receipt = false → ∃ r, waiting w' (outbox_id env) r ∧ EncodeEnvelope env = Ok (ir_Envelope r)).
Proof.
  intros (o & Hok & Hr)%reachable_represented E. pose proof (Dispatch_sim S env w o Hr Hok I) as Hs. rewrite E in Hs.
  destruct Hs as (o' & _ & _ & Hr' & [Hrow Hnew]). split.
  - destruct Hrow as [Hp|Hp]; [left; pose proof (rp_store _ _ Hr' (SPending (outbox_id env))) as E1
      | right; pose proof (rp_store _ _ Hr' (SReceipt (outbox_id env))) as E1]; cbn in E1; rewrite E1; by apply fmap_is_Some.
  - intros Hd. destruct (Hnew Hd) as (r & Hl & Hw). exists r. split; [by apply (waiting_live _ _ _ _ Hr')|done].
Qed.

(** C15. A settled command is never sent again: once its receipt or its expiry is
    recorded, the transport is not given that admission in any later history, not even
    after the record was collected. *)
Theorem settled_command_is_not_resent (T : Z → Prop) w w' id r :
  outbox_reachable w → settled_as w id r → rtc (outbox_step T) w w' →
  ∃ l, ow_sent w' = ow_sent w ++ l ∧ Forall (λ e, se_sequence e ≠ ir_Sequence r) l.
Proof.
  intros (o & Hok & Hr)%reachable_represented Ht Hs. apply (settled_as_tombstone _ _ _ _ Hr) in Ht.
  destruct (steps_refine _ _ _ _ Hs Hr Hok) as (o' & Hm & Hok' & Hr'). rewrite (rp_sent _ _ Hr), (rp_sent _ _ Hr').
  apply (over_never_sent T o o' _ Hok); [by apply (tombstone_over o id)|done].
Qed.

(** C39. At most 256 commands wait, and no two with one sequence. *)
Theorem pending_is_bounded w : outbox_reachable w →
  Zlength (keys_under ingressOutboxPrefix (ow_store w)) ≤ 256 ∧
  (∀ id1 id2 r1 r2, ow_store w !! pending_key id1 = Some (Record_ r1) → ow_store w !! pending_key id2 = Some (Record_ r2) →
     ir_Sequence r1 = ir_Sequence r2 → id1 = id2).
Proof.
  intros (o & Hok & Hr)%reachable_represented. split; [rewrite (pending_counted _ _ Hr); apply (ok_bound _ Hok)|].
  intros id1 id2 r1 r2 E1 E2. pose proof (rp_store _ _ Hr (SPending id1)) as F1. pose proof (rp_store _ _ Hr (SPending id2)) as F2.
  cbn in F1, F2. rewrite E1 in F1. rewrite E2 in F2. symmetry in F1, F2.
  apply fmap_Some in F1 as (? & F1 & [= ->]). apply fmap_Some in F2 as (? & F2 & [= ->]). by apply (ok_distinct _ Hok).
Qed.

(** ** Rejection *)
Definition untouched (w w' : outbox_world) : Prop := (∀ s, s ≠ SMark → ow_store w' !! key_of s = ow_store w !! key_of s) ∧ ow_sent w' = ow_sent w.
Definition keeps_rows {A} (m : ob A) : Prop := ∀ w, untouched w (m w).1.
Definition keeps_rows_if_rejected {A} (m : ob A) : Prop := ∀ w e, (m w).2 = Failed e → untouched w (m w).1.

Lemma untouched_trans w1 w2 w3 : untouched w1 w2 → untouched w2 w3 → untouched w1 w3.
Proof. intros [H1 H2] [H3 H4]. split; [intros s Hs; by rewrite H3, H1 | congruence]. Qed.

Lemma keeps_rows_bind {A B} (m : ob A) (k : A → ob B) : keeps_rows m → (∀ a, keeps_rows_if_rejected (k a)) → keeps_rows_if_rejected (m ≫= k).
Proof.
  intros Hm Hk w e. unfold mbind, run_bind. specialize (Hm w). destruct (m w) as [w1 [a|e1|]]; cbn in Hm |- *; [|done|done].
  intros E. eapply untouched_trans; [exact Hm|]. by apply (Hk a w1 e).
Qed.
Lemma keeps_rows_bind_all {A B} (m : ob A) (k : A → ob B) : keeps_rows m → (∀ a, keeps_rows (k a)) → keeps_rows (m ≫= k).
Proof.
  intros Hm Hk w. unfold mbind, run_bind. specialize (Hm w). destruct (m w) as [w1 [a|e1|]]; cbn in Hm |- *; [|done|done].
  eapply untouched_trans; [exact Hm|]. apply Hk.
Qed.
Lemma keeps_weaken {A} (m : ob A) : keeps_rows m → keeps_rows_if_rejected m.
Proof. intros Hm w e _. apply Hm. Qed.
Lemma keeps_ret {A} (a : A) : keeps_rows (mret a).
Proof. by intros w. Qed.
Lemma keeps_fail {A} e : keeps_rows (fail (A := A) e).
Proof. by intros w. Qed.
Lemma keeps_lift {A} (r : result A) : keeps_rows (lift r).
Proof. intros w. by destruct r. Qed.
Lemma keeps_tick {A} S (f : nat → ob A) : (∀ n, keeps_rows (f n)) → keeps_rows (tick S f).
Proof. intros Hf w. unfold tick. destruct (su_died S (ow_calls w)); [done|].
  exact (Hf (ow_calls w) (mkOutboxWorld (ow_store w) (ow_gcCursor w) (ow_sent w) (Datatypes.S (ow_calls w)))).
Qed.
Lemma keeps_rows_read {A} S (f : gmap string stored → A) : keeps_rows (store_read S f).
Proof. by apply keeps_tick. Qed.
Lemma keeps_now S : keeps_rows (now S).
Proof. by apply keeps_tick. Qed.
Lemma keeps_mark S v : keeps_rows (store_Set S ingressSequenceKey v).
Proof.
  apply keeps_tick. intros n w. assert (Hu : untouched w (set_store (<[ingressSequenceKey := v]>) w)); [|by destruct (su_fates S n)].
  split; [|done]. intros s Hs. cbn. rewrite lookup_insert_ne; [done|]. intros E. by apply Hs, (key_of_inj s SMark).
Qed.

(** A rejected command never executes. When [Dispatch] returns an error, and the
    store does not report failures for writes it made, no row, receipt or tombstone
    has changed: there is nothing a later flush could send. *)
Theorem rejected_command_leaves_nothing S env w w' e :
  (∀ n err, su_fates S n ≠ CommitsUnreported err) → Dispatch S env w = (w', Failed e) → untouched w w'.
Proof.
  intros Hf E. assert (Hk : keeps_rows_if_rejected (Dispatch S env)); [|by specialize (Hk w e); rewrite E in Hk; apply Hk].
  assert (Hsave : ∀ key r (receipt : DispatchReceipt), keeps_rows_if_rejected (_ ← save S key r; mret receipt)).
  { intros key r receipt w0 e0. unfold save, store_Set, store_write, tick, mbind, run_bind. destruct (su_died S _); [done|].
    specialize (Hf (ow_calls w0)). destruct (su_fates S (ow_calls w0)); [done|done|by destruct (Hf err)]. }
  assert (Hadmit : ∀ key wire, keeps_rows_if_rejected (admit_new S key wire env)).
  { intros key wire. unfold admit_new. apply keeps_rows_bind; [apply keeps_rows_read|]. intros keys. destruct (256 <=? _); [apply keeps_weaken, keeps_fail|].
    apply keeps_rows_bind; [|intros n; apply keeps_rows_bind; [apply keeps_now|intros t; apply Hsave]].
    unfold nextSequence. apply keeps_rows_bind_all; [apply keeps_rows_read|]. intros raw.
    apply keeps_rows_bind_all; [destruct raw; [apply keeps_lift|apply keeps_ret]|]. intros n. destruct (n =? max_u64); [apply keeps_fail|].
    apply keeps_rows_bind_all; [apply keeps_mark|]. intros ?. apply keeps_ret. }
  unfold Dispatch. apply keeps_rows_bind; [apply keeps_lift|]. intros wire. destruct (2 ^ 20 <? len wire); [apply keeps_weaken, keeps_fail|].
  apply keeps_rows_bind; [apply keeps_rows_read|]. intros raw. apply keeps_rows_bind.
  { destruct raw; [|apply keeps_ret]. apply keeps_rows_bind_all; [apply keeps_lift|]. intros ?. apply keeps_ret. }
  intros [receipt|]; [apply keeps_weaken, keeps_ret|]. apply keeps_rows_bind; [apply keeps_rows_read|].
  intros [?|]; [apply keeps_weaken, keeps_fail|]. apply keeps_rows_bind; [apply keeps_rows_read|]. intros [raw'|]; [|apply Hadmit].
  apply keeps_weaken, keeps_rows_bind_all; [apply keeps_lift|]. intros record. destruct (ir_Receipt record); [apply keeps_ret|].
  apply keeps_rows_bind_all; [apply keeps_lift|]. intros ?. apply keeps_ret.
Qed.
End history.

(** ** Witnesses

    Commands are their own text and belong to one session; the clock stands still. *)
#[global] Instance demo_layer : ActorLayer := {|
  Envelope := string; env_ID := id; env_Namespace := λ _, "balda"; env_To := λ _, mkAddress "session" "s1"; env_Meta := λ _, ∅;
  env_ExpiresAt := λ _, 0; DedupeKeyOrID := id; EncodeEnvelope := λ e, Ok e; DecodeEnvelope := λ s, Ok s;
  DecodeError := id; TransientError := id; PolicyError := id |}.
Definition demo_around (fates : nat → fate) (answer : result (option DispatchReceipt)) : surroundings :=
  mkSurroundings (λ _, 1000) fates (λ _, false) (λ _, None) (λ _ _, answer) (λ _ w, w).
Definition demo_up : surroundings := demo_around (λ _, Commits) (Ok (Some (mkReceipt "commands" "m1" false))).
Definition demo_down : surroundings := demo_around (λ _, Commits) (Err (ErrText "bus unavailable")).
Definition demo_empty : outbox_world := mkOutboxWorld ∅ ∅ [] 0.
Definition demo_one : outbox_world := (Dispatch demo_up "first" demo_empty).1.
Definition demo_two : outbox_world := (Dispatch demo_up "second" demo_one).1.
Definition demo_refused : outbox_world := (Flush demo_down demo_one).1.
Definition demo_flushed : outbox_world := (Flush demo_up demo_two).1.
Definition demo_row : ingressRecord := mkIngress 1 "first" None 1000 0 0 0.

Lemma demo_flush_of S : (∀ n w, su_others S n w = w) → (∀ n, su_clock S n = 1000) → flush_of (λ t, t < 5000) S.
Proof. intros Ho Hc. split; [intros n; cbv beta; rewrite Hc; lia | intros n w; by rewrite Ho]. Qed.
Lemma demo_any T S : flush_of T S → flush_of (λ _, True) S.
Proof. intros [_ Ho]. by split. Qed.

Lemma demo_one_reachable : outbox_reachable demo_one.
Proof.
  exists demo_empty. split; [split; [intros s; apply lookup_empty|done]|]. apply rtc_once, os_dispatch. by exists demo_up, "first".
Qed.
Lemma demo_two_reachable : outbox_reachable demo_two.
Proof.
  destruct demo_one_reachable as (w0 & Hf & Hs). exists w0. split; [done|]. eapply rtc_r; [exact Hs|]. apply os_dispatch. by exists demo_up, "second".
Qed.
Lemma demo_flushed_reachable : outbox_reachable demo_flushed.
Proof.
  destruct demo_two_reachable as (w0 & Hf & Hs). exists w0. split; [done|]. eapply rtc_r; [exact Hs|]. apply os_flush. by eapply demo_any, demo_flush_of.
Qed.

Lemma demo_waiting : waiting demo_one (outbox_id "first") demo_row.
Proof. split; vm_compute; reflexivity. Qed.

Lemma sent_in_admission_order_witness :
  se_env <$> ow_sent demo_flushed = ["first"; "second"] ∧
  StronglySorted (λ e1 e2, publicationScope (se_env e1) = publicationScope (se_env e2) → se_sequence e1 ≤ se_sequence e2) (ow_sent demo_flushed).
Proof.
  split; [vm_compute; reflexivity|]. exact (proj1 (sent_in_admission_order demo_flushed demo_flushed_reachable)).
Defined.

(** The bus was down: the command still waits. *)
Lemma admitted_command_survives_witness :
  (∃ r', waiting demo_refused (outbox_id "first") r' ∧ same_command demo_row r') ∨
  (∃ e receipt, e ∈ ow_sent demo_refused ∧ se_sequence e = 1 ∧ se_env e = "first" ∧ se_answer e = Ok (Some receipt)).
Proof.
  refine (admitted_command_survives (λ t, t < 5000) demo_one demo_refused (outbox_id "first") demo_row "first"
    demo_one_reachable demo_waiting eq_refl _ _).
  - intros t Ht. assert (E : deadline_of demo_row "first" = 86400000001000) by (vm_compute; reflexivity). rewrite E. lia.
  - apply rtc_once, os_flush. by apply demo_flush_of.
Defined.

Lemma acceptance_is_durable_witness :
  ∃ r, waiting demo_one (outbox_id "first") r ∧ EncodeEnvelope "first" = Ok (ir_Envelope r).
Proof.
  refine (proj2 (acceptance_is_durable demo_up "first" demo_empty demo_one (admissionReceipt "first" false) _ _) eq_refl).
  - exists demo_empty. split; [split; [intros s; apply lookup_empty|done]|done].
  - vm_compute. reflexivity.
Defined.

Definition demo_receipt : ingressRecord := settled_record demo_row (Some (mkReceipt "commands" "m1" false)) 0 (1000 + retention).
Lemma settled_command_is_not_resent_witness :
  ∃ l, ow_sent (Flush demo_up demo_flushed).1 = ow_sent demo_flushed ++ l ∧ Forall (λ e, se_sequence e ≠ 1) l.
Proof.
  refine (settled_command_is_not_resent (λ _, True) demo_flushed (Flush demo_up demo_flushed).1 (outbox_id "first") demo_receipt
    demo_flushed_reachable _ _).
  - left. vm_compute. reflexivity.
  - apply rtc_once, os_flush. by eapply demo_any, demo_flush_of.
Defined.

Lemma pending_is_bounded_witness : Zlength (keys_under ingressOutboxPrefix (ow_store demo_two)) ≤ 256.
Proof. exact (proj1 (pending_is_bounded demo_two demo_two_reachable)). Defined.

Definition demo_disk_full : surroundings := demo_around (λ n, if (n <? 6)%nat then Commits else Fails (ErrText "disk full")) (Ok None).
Lemma rejected_command_leaves_nothing_witness : untouched demo_empty (Dispatch demo_disk_full "first" demo_empty).1.
Proof.
  refine (rejected_command_leaves_nothing demo_disk_full "first" demo_empty _ (ErrText "disk full") _ _).
  - intros n err. unfold demo_disk_full, demo_around; cbn [su_fates]. case_match; discriminate.
  - vm_compute. reflexivity.
Defined.
