(* ===== verification/OutboxLiveness.v ===== *)
(** * OutboxLiveness: a healthy outbox empties

    With a store that answers, a transport that acknowledges, and a clock between the
    retry times and the deadlines of what waits, a flush of [CommandOutbox] hands over
    the 32 oldest commands; eight flushes empty any outbox. *)

From Stdlib Require Import ZArith Lia String.
From stdpp Require Import base numbers list gmap sets strings relations sorting.
From S2P Require Import Prelude.
From S2P Require Import GoStrings.
From S2P Require Import GoNumeric.
From S2P Require Import GoParse.
From S2P Require Import Runs.
From S2P Require Import CommandOutbox.
From S2P Require Import OutboxSpec.
From S2P Require Import OutboxRefinement.
From S2P Require Import OutboxRuns.
From S2P Require Import OutboxHistory.

Local Open Scope string_scope.
Local Open Scope list_scope.
Local Open Scope Z_scope.

Section liveness.
  Context `{ActorLayer}.

Record healthy (S : surroundings) : Prop := mkHealthy {
  hl_fates : ∀ n, su_fates S n = Commits;
  hl_died : ∀ n, su_died S n = false;
  hl_ctx : ∀ n, su_ctxErr S n = None;
  hl_downstream : ∀ n env, ∃ receipt, su_downstream S n env = Ok (Some receipt);
  hl_others : ∀ n w, su_others S n w = w }.

(** Due for publication whenever the clock of [S] is read. *)
Definition ready (S : surroundings) (r : ingressRecord) : Prop :=
  ∃ env, DecodeEnvelope (ir_Envelope r) = Ok env ∧ ∀ n, ir_NextAttempt r ≤ su_clock S n < deadline_of r env.

(** What a successful publication of row [r] writes to the log. *)
Definition hands (id : string) (r : ingressRecord) (e : sent_entry) : Prop :=
  ∃ env receipt, DecodeEnvelope (ir_Envelope r) = Ok env ∧ e = mkSent (pending_key id) (ir_Sequence r) env (Ok (Some receipt)).

Section healthy.
  Context (S : surroundings) (Hh : healthy S).
  (** The rows and the log a flush starts from. *)
  Context (start : string → ingressRecord → Prop) (L : list sent_entry).
Notation T := (λ t, ∃ n, su_clock S n = t).
Notation never := (λ _ : outbox, False).
Notation sim := (sim (move T)).

(** *** A healthy process does not die *)
Definition alive {A} (m : ob A) : Prop := ∀ w, (m w).2 ≠ Died.

Lemma alive_bind {A B} (m : ob A) (k : A → ob B) : alive m → (∀ a, alive (k a)) → alive (m ≫= k).
Proof.
  intros Hm Hk w. unfold mbind, run_bind. specialize (Hm w). destruct (m w) as [w' [a|e|]]; [apply Hk|done|done].
Qed.
Lemma alive_tick {A} (f : nat → ob A) : (∀ n, alive (f n)) → alive (tick S f).
Proof using Hh. intros Hf w. unfold tick. rewrite (hl_died _ Hh). apply Hf. Qed.
Lemma alive_read {A} (f : gmap string stored → A) : alive (store_read S f).
Proof using Hh. apply alive_tick. intros n w. cbn. by destruct (su_fates S n). Qed.
Lemma alive_write f : alive (store_write S f).
Proof using Hh. apply alive_tick. intros n w. cbn. by destruct (su_fates S n). Qed.
Lemma alive_lift {A} (r : result A) : alive (lift r).
Proof. intros w. by destruct r. Qed.
Lemma alive_ret {A} (a : A) : alive (mret a).
Proof. by intros w. Qed.
Lemma alive_fail {A} e : alive (fail (A := A) e).
Proof. by intros w. Qed.
Lemma alive_try {A} (m : ob A) : alive m → alive (try m).
Proof. intros Hm w. unfold try. specialize (Hm w). by destruct (m w) as [w' [a|e|]]. Qed.
Lemma alive_now : alive (now S).
Proof using Hh. by apply alive_tick. Qed.
Lemma alive_ctx : alive (ctx_Err S).
Proof using Hh. by apply alive_tick. Qed.
Lemma alive_lock : alive (lock S).
Proof using Hh. by apply alive_tick. Qed.
Lemma alive_send key r env : alive (send S key r env).
Proof using Hh. by apply alive_tick. Qed.

Create HintDb alive discriminated.
Hint Resolve alive_read alive_write alive_lift alive_ret alive_fail alive_now alive_ctx alive_lock alive_send : alive.
Ltac solve_alive :=
  repeat first
    [ progress cbv beta zeta
    | apply alive_bind; intros
    | apply alive_try
    | solve [auto with alive]
    | match goal with |- alive (if ?b then _ else _) => destruct b | |- alive (match ?x with _ => _ end) => destruct x
      | |- alive (match ?x with _ => _ end _) => destruct x end
    | by intros w ].

Lemma alive_collect_key prefix key : alive (collect_key S prefix key).
Proof using Hh. unfold collect_key, store_Get, store_Delete. solve_alive. Qed.
Lemma alive_collect_prefix prefix : alive (collect_prefix S prefix).
Proof using Hh.
  unfold collect_prefix, store_List. apply alive_bind; [auto with alive|]. intros keys. apply alive_bind; [by intros w|]. intros cursor.
  apply alive_bind; [|intros ?; destruct (bool_decide _); by intros w].
  induction (take _ _) as [|key ks IH]; cbn [collect_keys]; [by intros w|]. apply alive_bind; [apply alive_collect_key | by intros ?].
Qed.
Lemma alive_read_all keys : alive (read_all S keys).
Proof using Hh.
  induction keys as [|key keys IH]; cbn [read_all]; [by intros w|]. apply alive_bind; [|intros ?; apply alive_bind; [done|solve_alive]].
  unfold read_pending, store_Get, store_Delete. solve_alive.
Qed.
Lemma alive_publish key r : alive (publish S key r).
Proof using Hh. unfold publish, publish_answered, finish, save, store_Set, store_Delete. solve_alive. Qed.
Lemma alive_flush_items items blocked attempts : alive (flush_items S items blocked attempts).
Proof using Hh.
  revert blocked attempts. induction items as [|item items IH]; intros blocked attempts; cbn [flush_items]; [by intros w|].
  apply alive_bind; [auto with alive|]. intros [e|]; [by intros w|]. destruct (bool_decide _); [apply IH|].
  apply alive_bind; [auto with alive|]. intros t. destruct (t <? _); [apply IH|]. apply alive_bind; [apply alive_try, alive_publish|].
  intros r. destruct (32 <=? _); [by intros w | apply IH].
Qed.
Lemma alive_Flush : alive (Flush S).
Proof using Hh.
  unfold Flush, collect, pending, store_List. apply alive_bind; [auto with alive|]. intros ?.
  apply alive_bind; [apply alive_bind; [|intros ?]; apply alive_collect_prefix|]. intros ?.
  apply alive_bind; [|intros ?; apply alive_flush_items]. apply alive_bind; [auto with alive|]. intros ?.
  apply alive_bind; [apply alive_read_all|]. intros ?. apply alive_ret.
Qed.

(** *** Steps that cannot fail *)
Lemma well_read {A} (P : outbox → Prop) (f : gmap string stored → A) :
  sim P (store_read S f) (λ a o, P o ∧ ∃ w, represents w o ∧ a = f (ow_store w)) never.
Proof using Hh.
  apply sim_tick. intros n w o Hr Hok HP. exists o. split_and!; try done. rewrite (hl_fates _ Hh). eauto.
Qed.
Lemma well_get (P : outbox → Prop) s : sim P (store_Get S (key_of s)) (λ a o, a = content o s ∧ P o) never.
Proof using Hh.
  eapply sim_weaken; [| | |apply well_read]; [done| |done]. intros a o _ (HP & w & Hr & ->). cbn. by rewrite (rp_store _ _ Hr).
Qed.
Lemma well_write (P : outbox → Prop) s v (Q : outbox → Prop) (f : outbox → outbox) :
  (∀ o, outbox_ok o → P o → move T o (f o)) →
  (∀ o s', outbox_ok o → P o → content (f o) s' = if decide (s' = s) then v else content o s') →
  (∀ o, ob_sent (f o) = ob_sent o) → (∀ o, outbox_ok o → P o → Q (f o)) →
  sim P (store_write S (partial_alter (λ _, v) (key_of s))) (λ _, Q) never.
Proof using Hh.
  intros Hm Hc Hs HQ. apply sim_tick. intros n w o Hr Hok HP. pose proof (Hm o Hok HP) as Hstep.
  rewrite (hl_fates _ Hh). exists (f o). split_and!; [by apply rtc_once | by eapply ok_move| | by apply HQ].
  eapply represents_update; [done| |done]. intros s'. by apply Hc.
Qed.
Lemma well_lift {A} (P : outbox → Prop) (r : result A) (Q : A → outbox → Prop) :
  (∀ o, outbox_ok o → P o → ∃ a, r = Ok a ∧ Q a o) → sim P (lift r) Q never.
Proof. intros HP w o Hr Hok Hp. destruct (HP o Hok Hp) as (a & -> & Ha). by exists o. Qed.
Lemma well_lock (P : outbox → Prop) : sim P (lock S) (λ _, P) never.
Proof using Hh.
  apply sim_tick. intros n w o Hr Hok HP. rewrite (hl_others _ Hh). by exists o.
Qed.
Lemma well_drop id (P : outbox → Prop) :
  (∀ o, outbox_ok o → P o → settled o id) →
  sim P (store_Delete S (pending_key id)) (λ _ o', ∃ o, outbox_ok o ∧ P o ∧ o' = with_pending (delete id) o) never.
Proof using Hh.
  intros Hs. apply (well_write _ (SPending id) None _ (with_pending (delete id))); try done.
  - intros o Hok HP. by apply mv_drop, Hs.
  - solve_content.
  - intros o Hok HP. by exists o.
Qed.

(** *** What a flush leaves alone *)
(** The rows a flush still has to hand over when it has sent [sent]. *)
Definition remaining (sent : list sent_entry) (id : string) (r : ingressRecord) : Prop :=
  start id r ∧ ∀ e, e ∈ sent → se_key e ≠ pending_key id.
Record handed (sent : list sent_entry) : Prop := mkHanded {
  hd_from : ∀ e, e ∈ sent → ∃ id r, start id r ∧ hands id r e;
  hd_unique : NoDup (se_key <$> sent) }.

(** Every live row is due; at most [n] rows are pending; [sent] was handed over, and
    everything else still waits behind it. *)
Record due (sent : list sent_entry) (n : nat) (o : outbox) : Prop := mkDue {
  du_ready : ∀ id r, live o id r → ready S r;
  du_size : (size (ob_pending o) ≤ n)%nat;
  du_log : ob_sent o = L ++ sent;
  du_rows : rows_are (remaining sent) o;
  du_handed : handed sent;
  du_order : ∀ e id r, e ∈ sent → live o id r → se_sequence e ≤ ir_Sequence r }.

Lemma due_drop sent n id o : settled o id → due sent n o → due sent n (with_pending (delete id) o).
Proof.
  intros Hs [Hr Hn Hl Hrows Hh' Ho]. pose proof (rows_dropped _ _ _ Hs Hrows) as Hrows'. split; [| |done|done|done|].
  - intros id' r Hlive%live_dropped. by eapply Hr.
  - cbn. etrans; [|exact Hn]. apply map_subseteq_size, delete_subseteq.
  - intros e id' r He Hlive%live_dropped. by eapply Ho.
Qed.

Lemma live_forgotten receipts id o id' r :
  ob_pending o !! id = None → live (forget receipts id o) id' r ↔ live o id' r.
Proof.
  intros Hp. assert (Hne : ∀ q, ob_pending o !! id' = Some q → id ≠ id') by (intros q Hq ->; congruence).
  destruct receipts; (split; intros [H1 H2 H3]; cbn in *; (split; cbn; [done|..]); try done);
    [rewrite lookup_delete_ne in H2 | rewrite lookup_delete_ne | rewrite lookup_delete_ne in H3 | rewrite lookup_delete_ne]; eauto.
Qed.

Lemma due_forget sent n receipts id o : ob_pending o !! id = None → due sent n o → due sent n (forget receipts id o).
Proof.
  intros Hp [Hr Hn Hl Hrows Hh' Ho]. split; [|by destruct receipts..| |done|].
  - intros id' r Hlive%live_forgotten; [|done]. by eapply Hr.
  - intros id' r. rewrite live_forgotten by done. apply Hrows.
  - intros e id' r He Hlive%live_forgotten; [|done]. by eapply Ho.
Qed.

Lemma well_collect_key sent n receipts id :
  sim (due sent n) (collect_key S (tomb_prefix receipts) (key_of (tomb_slot receipts id))) (λ _, due sent n) never.
Proof using Hh.
  unfold collect_key. eapply sim_bind; [apply (well_get _ (tomb_slot receipts id))|]. intros raw. cbv beta.
  destruct raw as [v|]; [|by apply sim_ret; intros o _ [_ ?]].
  eapply (sim_bind _ _ _ (λ record o, tombs receipts o !! id = Some record ∧ due sent n o)).
  { intros w o Hr Hok [(r & -> & E)%tombs_content Hd]. exists o. by split_and!. }
  intros record. destruct (ir_RetainUntil record =? 0); [by apply sim_ret; intros o _ [_ ?]|].
  eapply sim_bind; [apply sim_now|]. intros t. cbv beta. destruct (Z.ltb_spec t (ir_RetainUntil record)); [by apply sim_ret; intros o _ (_ & _ & ?)|].
  rewrite pending_of_tomb.
  eapply sim_bind; [apply (well_drop id)|].
  { intros o _ (_ & E & _). by eapply tombs_settled. }
  intros ?; cbv beta. apply (well_write _ (tomb_slot receipts id) None _ (forget receipts id)).
  - intros o' Hok' (o & Hok & (Ht & E & _) & ->). by apply (forget_move T _ _ _ record t).
  - intros o s' _ _. apply content_forget.
  - intros o. by destruct receipts.
  - intros o' _ (o & _ & (_ & E & Hd) & ->). apply due_forget; [apply lookup_delete_eq|]. apply due_drop; [|done]. by eapply tombs_settled.
Qed.

Lemma well_collect_keys sent n receipts keys :
  (∀ key, key ∈ keys → HasPrefix key (tomb_prefix receipts) = true) →
  sim (due sent n) (collect_keys S (tomb_prefix receipts) keys) (λ _, due sent n) never.
Proof using Hh.
  induction keys as [|key keys IH]; intros Hk; cbn [collect_keys]; [by apply sim_ret|].
  destruct (HasPrefix_inv key (tomb_prefix receipts)) as (id & ->); [apply Hk; left|].
  eapply sim_bind; [|intros ?; cbv beta; apply IH; intros k Hin; apply Hk; by right].
  pose proof (well_collect_key sent n receipts id) as Hc. by destruct receipts.
Qed.

Lemma well_collect_prefix sent n receipts : sim (due sent n) (collect_prefix S (tomb_prefix receipts)) (λ _, due sent n) never.
Proof using Hh.
  unfold collect_prefix. eapply (sim_bind _ _ _ (λ keys o, (∀ key, key ∈ keys → HasPrefix key (tomb_prefix receipts) = true) ∧ due sent n o)).
  { eapply sim_weaken; [| | |apply well_read]; [done| |done]. intros keys o _ (Hd & w & Hr & ->). split; [|done].
    intros key. unfold keys_under. rewrite list_elem_of_filter. tauto. }
  intros keys. apply sim_pre. intros Hk. eapply sim_bind; [apply sim_gcCursor|]. intros cursor. cbv beta zeta.
  eapply (sim_bind _ _ _ (λ _, due sent n)); [|intros ?; cbv beta; destruct (bool_decide _); apply sim_set_gcCursor].
  apply well_collect_keys. intros key Hin. apply Hk. rewrite <-sort_Strings_perm. by apply subseteq_take, subseteq_drop in Hin.
Qed.

(** *** The listing *)
(** The state while the keys are read: [gone] rows stay away. *)
Record reading (rows : string → ingressRecord → Prop) (sent : list sent_entry) (n : nat) (gone : string → Prop) (o : outbox) : Prop := mkReading {
  rd_rows : rows_are rows o; rd_due : due sent n o; rd_gone : ∀ id, gone id → ob_pending o !! id = None }.

Lemma reading_drop rows sent n gone id o :
  settled o id → reading rows sent n gone o → reading rows sent n (λ id', gone id' ∨ id' = id) (with_pending (delete id) o).
Proof.
  intros Hs [H1 H2 H3]. split; [by apply rows_dropped | by apply due_drop|]. intros id' [Hg| ->]; cbn; [|apply lookup_delete_eq].
  apply lookup_delete_None. right. by apply H3.
Qed.

Lemma reading_gone rows sent n gone id o : ob_pending o !! id = None → reading rows sent n gone o → reading rows sent n (λ id', gone id' ∨ id' = id) o.
Proof. intros Hp [H1 H2 H3]. split; try done. intros id' [Hg| ->]; [by apply H3|done]. Qed.

Lemma well_read_pending rows sent n gone id :
  sim (reading rows sent n gone) (read_pending S (pending_key id))
    (λ item o, match item with
               | Some item => item_of rows item id ∧ reading rows sent n gone o
               | None => (∀ r, ¬ rows id r) ∧ reading rows sent n (λ id', gone id' ∨ id' = id) o
               end) never.
Proof using Hh.
  unfold read_pending. rewrite !trim_pending.
  eapply sim_bind; [apply (well_get _ (SReceipt id))|]. intros receipt. cbv beta.
  eapply sim_bind; [apply (well_get _ (SFailed id))|]. intros failed. cbv beta.
  assert (Hgone : sim (λ o, settled o id ∧ reading rows sent n gone o) (_ ← store_Delete S (pending_key id); mret None)
            (λ item o, match item with
               | Some item => item_of rows item id ∧ reading rows sent n gone o
               | None => (∀ r, ¬ rows id r) ∧ reading rows sent n (λ id', gone id' ∨ id' = id) o
               end) never).
  { eapply sim_bind; [apply (well_drop id); tauto|]. intros ?; cbv beta. apply sim_ret. intros o' _ (o & Hok & [Hs Hrd] & ->).
    split; [|by apply reading_drop]. intros r Hr. apply (rd_rows _ _ _ _ _ Hrd) in Hr. by eapply live_settled. }
  destruct receipt as [v|]; [eapply sim_weaken; [| | |exact Hgone]; [|done..]|].
  { intros o _ (_ & E & Hrd). split; [left|done]. cbn in E. by destruct (ob_receipts o !! id). }
  destruct failed as [v|]; [eapply sim_weaken; [| | |exact Hgone]; [|done..]|].
  { intros o _ (E & _ & Hrd). split; [right|done]. cbn in E. by destruct (ob_failed o !! id). }
  eapply sim_bind; [apply (well_get _ (SPending id))|]. intros raw. cbv beta. destruct raw as [v|].
  - eapply sim_bind; [apply (well_lift _ _ (λ record o, live o id record ∧ reading rows sent n gone o))|].
    { intros o _ (Ev & Ef & Er & Hrd). cbn in Ev, Ef, Er. symmetry in Ev. apply fmap_Some in Ev as (r & Ep & ->). exists r.
      split_and!; [done| |done]. split; [done| |]; by eapply fmap_None. }
    intros record. cbv beta. eapply sim_bind; [apply (well_lift _ _ (λ env o, DecodeEnvelope (ir_Envelope record) = Ok env ∧ live o id record ∧ reading rows sent n gone o))|].
    { intros o _ [Hl Hrd]. destruct (du_ready _ _ _ (rd_due _ _ _ _ _ Hrd) id record Hl) as (env & Henv & _). by exists env. }
    intros env. apply sim_ret. intros o _ (Henv & Hl & Hrd). split; [|done]. split_and!; [done| |done]. by apply (rd_rows _ _ _ _ _ Hrd).
  - apply sim_ret. intros o _ (Ev & _ & _ & Hrd). cbn in Ev. symmetry in Ev. apply fmap_None in Ev.
    split; [|by apply reading_gone]. intros r Hr. apply (rd_rows _ _ _ _ _ Hrd) in Hr as [Hr _ _]. congruence.
Qed.

Lemma well_read_all rows sent n ids gone : NoDup ids →
  sim (reading rows sent n gone) (read_all S (pending_key <$> ids))
    (λ items o, reading rows sent n gone o ∧ listed rows ids items ∧
       ∀ id, id ∈ ids → is_Some (ob_pending o !! id) → ∃ item, item ∈ items ∧ pi_key item = pending_key id) never.
Proof using Hh.
  revert gone. induction ids as [|id ids IH]; intros gone Hnd; cbn [read_all fmap list_fmap].
  - apply sim_ret. intros o _ Hrd. split_and!; [done| |by intros ? ?%not_elem_of_nil].
    split; [by intros ? ?%not_elem_of_nil|constructor|by intros ?? ?%not_elem_of_nil].
  - apply NoDup_cons in Hnd as [Hni Hnd]. eapply sim_bind; [apply well_read_pending|]. intros [item|]; cbv beta iota.
    + apply sim_pre. intros Hi. eapply sim_bind; [by apply IH|]. intros rest. apply sim_ret. intros o _ (Hrd & Hl & Hall).
      split_and!; [done|by apply listed_cons|]. intros id' [->|Hin]%elem_of_cons Hp; [exists item; split; [left|apply Hi]|].
      destruct (Hall id' Hin Hp) as (i & ? & ?). exists i. split; [by right|done].
    + apply sim_pre. intros Hno. eapply sim_bind; [by apply IH|]. intros rest. apply sim_ret. intros o _ (Hrd & Hl & Hall).
      pose proof (rd_gone _ _ _ _ _ Hrd id (or_intror eq_refl)) as Hg. split_and!; [|by apply listed_skip|].
      * destruct Hrd as [H1 H2 H3]. split; [done..|]. intros id' ?. apply H3. by left.
      * intros id' [->|Hin]%elem_of_cons Hp; [by rewrite Hg in Hp; destruct Hp|]. by apply Hall.
Qed.

(** *** The batch is everything that is pending, and all of it is due *)
Record batch (sent log : list sent_entry) (items : list pendingIngress) (o : outbox) : Prop := mkBatch {
  bt_loop : loop_ok items [] o;
  bt_all : ∀ id, is_Some (ob_pending o !! id) → ∃ item, item ∈ items ∧ pi_key item = pending_key id;
  bt_ready : ∀ item, item ∈ items → ready S (pi_record item);
  bt_log : ob_sent o = log;
  bt_rows : rows_are (remaining sent) o;
  bt_handed : handed sent;
  bt_order : ∀ e item, e ∈ sent → item ∈ items → se_sequence e ≤ ir_Sequence (pi_record item) }.

Lemma batch_keys items o : loop_ok items [] o → pi_key <$> items ⊆+ pending_key <$> elements (dom (ob_pending o)).
Proof.
  intros Hl. apply NoDup_submseteq; [apply (lo_unique _ _ _ Hl)|]. intros k (item & -> & Hi)%list_elem_of_fmap.
  destruct (lo_good _ _ _ Hl item Hi) as (id & -> & Hlive & _). apply list_elem_of_fmap_2, elem_of_elements, elem_of_dom.
  eexists. by apply lv_row.
Qed.

Lemma batch_length items o : loop_ok items [] o → (length items ≤ size (ob_pending o))%nat.
Proof.
  intros Hk%batch_keys%submseteq_length. rewrite !length_fmap in Hk. by rewrite <-(size_dom (D := gset string)).
Qed.

(** A live row is one of the batch. *)
Lemma batch_row sent log items o id r : batch sent log items o → live o id r → ∃ item, item ∈ items ∧ pi_record item = r.
Proof.
  intros Hb Hlive. destruct (bt_all _ _ _ _ Hb id) as (item & Hi & Hk); [eexists; by apply lv_row|]. exists item. split; [done|].
  destruct (lo_good _ _ _ (bt_loop _ _ _ _ Hb) item Hi) as (id' & E & Hlive' & _). rewrite Hk in E. apply pending_key_inj in E as <-.
  pose proof (lv_row _ _ _ Hlive). pose proof (lv_row _ _ _ Hlive'). congruence.
Qed.

Lemma batch_due sent items o : batch sent (L ++ sent) items o → due sent (length items) o.
Proof.
  intros Hb. assert (Hrow : ∀ id r, live o id r → ∃ item, item ∈ items ∧ pi_record item = r) by (intros id r; by eapply batch_row). pose proof Hb as [Hl Ha Hr Hlog Hrows Hh' Ho]. split; [| |done|done|done|].
  - intros id r (item & Hi & <-)%Hrow. by apply Hr.
  - assert (pending_key <$> elements (dom (ob_pending o)) ⊆+ pi_key <$> items) as Hk%submseteq_length.
    { apply NoDup_submseteq; [apply NoDup_fmap_2, NoDup_elements; intros a b; apply pending_key_inj|].
      intros k (id & -> & Hid%elem_of_elements%elem_of_dom)%list_elem_of_fmap. destruct (Ha id Hid) as (item & Hi & <-).
      by apply list_elem_of_fmap_2. }
    rewrite !length_fmap in Hk. by rewrite <-(size_dom (D := gset string)).
  - intros e id r He (item & Hi & <-)%Hrow. by apply Ho.
Qed.

Lemma well_pending n : sim (due [] n) (pending S) (λ items o, (length items ≤ n)%nat ∧ batch [] L items o) never.
Proof using Hh.
  intros w0 o0 Hr0 Hok0 Hd0. set (rows := live o0).
  assert (Hsim : sim (λ o, rows_are rows o ∧ due [] n o) (pending S) (λ items o, (length items ≤ n)%nat ∧ batch [] L items o) never);
    [|by apply Hsim]. clear w0 Hr0 Hok0 Hd0. clearbody rows. clear o0.
  unfold pending. eapply (sim_bind _ _ _ (λ keys o, (∃ ids, keys = pending_key <$> ids ∧ NoDup ids ∧ reading rows [] n (λ id, id ∉ ids) o))).
  { eapply sim_weaken; [| | |apply (well_read (λ o, rows_are rows o ∧ due [] n o))]; [done| |done]. intros keys o _ ([Hrows Hd] & w & Hr & ->).
    destruct (pending_keys_ids w o Hr) as (ids & -> & Hnd & Hids). exists ids. split_and!; [done..|]. split; [done..|].
    intros id Hni. apply eq_None_not_Some. intros Hs. by apply Hni, Hids. }
  intros keys w o Hr Hok (ids & -> & Hnd & Hrd). revert w o Hr Hok Hrd.
  eapply sim_bind; [by apply well_read_all|]. intros items. apply sim_ret. intros o _ (Hrd & Hl & Hall). pose proof (rd_due _ _ _ _ _ Hrd) as Hd.
  assert (Hb : batch [] L (SliceStable pending_less items) o).
  { pose proof (SliceStable_perm pending_less items) as Hp. split.
    - eapply listed_loop; [apply (rd_rows _ _ _ _ _ Hrd)|done|]. intros id r Hlr. apply (rd_rows _ _ _ _ _ Hrd) in Hlr as [Hlr _ _].
      destruct (decide (id ∈ ids)); [done|]. rewrite (rd_gone _ _ _ _ _ Hrd id) in Hlr; done.
    - intros id Hs. destruct (decide (id ∈ ids)) as [Hin|Hni]; [|rewrite (rd_gone _ _ _ _ _ Hrd id) in Hs by done; by destruct Hs].
      destruct (Hall id Hin Hs) as (item & ? & ?). exists item. by rewrite Hp.
    - intros item Hi. rewrite Hp in Hi. destruct (ls_item _ _ _ Hl item Hi) as (id & _ & _ & Hrow & _).
      apply (rd_rows _ _ _ _ _ Hrd) in Hrow. by apply (du_ready _ _ _ Hd id).
    - by rewrite (du_log _ _ _ Hd), app_nil_r.
    - apply (du_rows _ _ _ Hd).
    - apply (du_handed _ _ _ Hd).
    - by intros e item ?%not_elem_of_nil. }
  split; [|done]. etrans; [apply (batch_length _ _ (bt_loop _ _ _ _ Hb))|]. apply (du_size _ _ _ Hd).
Qed.

(** *** One command handed over *)
Lemma batch_done sent log id record env items tomb receipt o :
  let e := mkSent (pending_key id) (ir_Sequence record) env (Ok (Some receipt)) in
  batch sent log (mkPending (pending_key id) record env :: items) o →
  batch (sent ++ [e]) log items (with_pending (delete id) (with_receipts (<[id := tomb]>) o)).
Proof.
  intros e [Hl Ha Hr Hlog Hrows [Hfrom Huniq] Ho]. set (item := mkPending (pending_key id) record env). set (o1 := with_receipts (<[id := tomb]>) o).
  assert (Hs : settled o1 id) by (left; cbn; by rewrite lookup_insert_eq).
  pose proof (before_live id record env items [] o Hl) as Hlive. pose proof (proj1 (Hrows _ _) Hlive) as [Hstart Hnew].
  assert (Henv : DecodeEnvelope (ir_Envelope record) = Ok env).
  { destruct (lo_good _ _ _ Hl item) as (id' & Hk & _ & Henv); [left|exact Henv]. }
  assert (Hin : ∀ e', e' ∈ sent ++ [e] → e' ∈ sent ∨ e' = e) by (intros e'; rewrite elem_of_app, list_elem_of_singleton; tauto).
  split.
  - apply (item_loop_settled id (publicationScope env)); [|by left; cbn; rewrite lookup_insert_eq].
    apply item_dropped; [|done]. apply item_receipt. by apply (loop_item _ _ _ _ _ Hl).
  - intros id' [q Hp]. cbn in Hp. apply lookup_delete_Some in Hp as [Hne Hp]. destruct (Ha id') as (i & Hi & Hk); [by eexists|].
    apply elem_of_cons in Hi as [->|Hi]; [by apply pending_key_inj in Hk|]. by exists i.
  - intros i Hi. apply Hr. by right.
  - exact Hlog.
  - intros id' r. split.
    + intros Hl'%live_dropped. assert (Hl0 : live o id' r ∧ id' ≠ id).
      { destruct Hl' as [L1 L2 L3]. cbn in *. rewrite lookup_insert in L2. case_decide; [discriminate|]. by split; [split|]. }
      destruct Hl0 as [Hl0 Hne]. apply Hrows in Hl0 as [Hst Hni]. split; [exact Hst|].
      intros e' [?| ->]%Hin; [by apply Hni|]. cbn. intros E%pending_key_inj. congruence.
    + intros [Hst Hni]. assert (Hne : id' ≠ id).
      { intros ->. apply (Hni e); [apply elem_of_app; right; by apply list_elem_of_singleton|done]. }
      destruct (proj2 (Hrows id' r)) as [L1 L2 L3]; [split; [exact Hst|]; intros e' He'; apply Hni, elem_of_app; by left|].
      split; cbn; [by rewrite lookup_delete_ne|by rewrite lookup_insert_ne|done].
  - split.
    + intros e' [?| ->]%Hin; [by apply Hfrom|]. exists id, record. split; [exact Hstart|]. by exists env, receipt.
    + rewrite fmap_app. apply NoDup_app. split_and!; [exact Huniq| |apply NoDup_singleton].
      intros k (e' & -> & He')%list_elem_of_fmap Hk%list_elem_of_singleton. by apply (Hnew e').
  - intros e' i [He'| ->]%Hin Hi; [apply (Ho e' i He'); by right|]. pose proof (lo_order _ _ _ Hl) as Hord.
    apply StronglySorted_inv in Hord as [_ Hall]. rewrite Forall_forall in Hall. by apply Hall.
Qed.

Lemma batch_sent sent log items o o' :
  ob_pending o' = ob_pending o → ob_receipts o' = ob_receipts o → ob_failed o' = ob_failed o → batch sent log items o →
  batch sent (ob_sent o') items o'.
Proof.
  intros E1 E2 E3 [[B1 B2 B3 B4] Ha Hr _ Hrows Hh' Ho].
  assert (Hl : ∀ id r, live o' id r ↔ live o id r) by (intros id r; split; intros [? ? ?]; split; congruence).
  split; [split; try done|by rewrite E1|done|done| |done|done].
  - intros i Hi. destruct (B3 i Hi) as (id & E & Hlive & Henv). exists id. by rewrite Hl.
  - intros id r Hlive%Hl. by apply B4.
  - intros id r. by rewrite Hl.
Qed.

Lemma well_publish sent id record env items : DecodeEnvelope (ir_Envelope record) = Ok env → ready S record →
  sim (batch sent (L ++ sent) (mkPending (pending_key id) record env :: items)) (publish S (pending_key id) record)
    (λ _ o, ∃ e, batch (sent ++ [e]) (L ++ sent ++ [e]) items o) never.
Proof using Hh.
  intros Henv (env' & Henv' & Hclock). rewrite Henv in Henv'. injection Henv' as <-.
  set (item := mkPending (pending_key id) record env). set (entry := mkSent (pending_key id) (ir_Sequence record) env).
  unfold publish. rewrite Henv. eapply (sim_bind _ _ _ (λ e o, e = env ∧ batch sent (L ++ sent) (item :: items) o)); [by apply sim_ret|].
  intros e. apply sim_pre. intros ->. eapply sim_bind; [apply sim_now|]. intros t. apply sim_pre. intros [n Hn].
  destruct (Hclock n) as [_ Ht]. rewrite Hn in Ht. destruct (Z.ltb_spec t (deadline_of record env)); [|lia]. cbn [negb].
  eapply (sim_bind _ _ _ (λ answer o, (∃ receipt, answer = Ok (Some receipt)) ∧ batch sent (L ++ sent ++ [entry answer]) (item :: items) o)).
  - apply sim_tick. intros k w o Hr Hok Hb. cbn. rewrite (hl_others _ Hh). set (answer := su_downstream S k env).
    set (o2 := mkOutbox (ob_pending o) (ob_receipts o) (ob_failed o) (ob_mark o) (ob_entered o) (ob_sent o ++ [entry answer])).
    pose proof (before_live id record env items [] o (bt_loop _ _ _ _ Hb)) as Hlive.
    assert (Hm : move T o o2).
    { apply (mv_send _ o id record env t answer); [done|done|by exists n|done|]. intros id' r' Hl Hsc.
      by apply (loop_first item items [] o id' r' (bt_loop _ _ _ _ Hb)); [apply not_elem_of_nil| |]. }
    exists o2. split_and!; [by apply rtc_once | by eapply ok_move| | apply (hl_downstream _ Hh)|].
    + destruct Hr as [Hst Hlog]. split; [done|]. cbn. by rewrite Hlog.
    + rewrite app_assoc, <-(bt_log _ _ _ _ Hb). change (ob_sent o ++ [entry answer]) with (ob_sent o2). by apply (batch_sent _ (L ++ sent) _ o).
  - intros answer. apply sim_pre. intros [receipt ->]. unfold publish_answered. eapply sim_bind; [apply sim_now|]. intros t2. apply sim_pre. intros _.
    set (e := entry (Ok (Some receipt))). set (tomb := settled_record _ _ _ _). set (log := L ++ sent ++ [e]).
    eapply (sim_bind _ _ _ (λ _, batch (sent ++ [e]) log items)); [|intros ?; apply sim_ret; intros o _ Hb; by exists e].
    unfold finish. rewrite trim_pending. eapply sim_bind; [apply well_lock|]. intros ?; cbv beta.
    eapply (sim_bind _ _ _ (λ _ o', settled o' id ∧ ∃ o, o' = with_receipts (<[id := tomb]>) o ∧ batch sent log (item :: items) o)).
    + apply (well_write _ (SReceipt id) (Some (Record_ tomb)) _ (with_receipts (<[id := tomb]>))); try done.
      * intros o Hok Hb. eapply (mv_receipt _ o id record e); [|rewrite (bt_log _ _ _ _ Hb); set_solver|done|done].
        by apply lv_row, (before_live id record env items [] o), (bt_loop _ _ _ _ Hb).
      * solve_content.
      * intros o _ Hb. split; [left; cbn; by rewrite lookup_insert_eq|]. by exists o.
    + intros ?; cbv beta.
      eapply sim_weaken; [| | |apply (well_drop id (λ o', settled o' id ∧ ∃ o, o' = with_receipts (<[id := tomb]>) o ∧ batch sent log (item :: items) o))];
        [done| |done|by intros o _ [Hs _]].
      intros ? o' _ (o1 & _ & [_ (o & -> & Hb)] & ->). by apply (batch_done sent log id record env).
Qed.

(** *** The batch handed over *)
Lemma well_flush_items sent items attempts : (attempts < 32)%nat →
  sim (batch sent (L ++ sent) items) (flush_items S items [] (Z.of_nat attempts))
    (λ _ o, ∃ more, length more = Nat.min (length items) (32 - attempts) ∧ due (sent ++ more) (length items - (32 - attempts)) o) never.
Proof using Hh.
  revert sent attempts. induction items as [|item items IH]; intros sent attempts Hlt; cbn [flush_items].
  { apply sim_ret. intros o _ Hb%batch_due. exists []. by rewrite app_nil_r. }
  eapply (sim_bind _ _ _ (λ err o, err = None ∧ batch sent (L ++ sent) (item :: items) o)).
  { apply sim_tick. intros n w o Hr Hok Hb. exists o. split_and!; try done. apply (hl_ctx _ Hh). }
  intros err. apply sim_pre. intros ->. rewrite bool_decide_false by apply not_elem_of_nil.
  eapply sim_bind; [apply sim_now|]. intros t. apply sim_pre. intros [n Hn].
  intros w o Hr Hok Hb. destruct (lo_good _ _ _ (bt_loop _ _ _ _ Hb) item) as (id & Hk & _ & Henv); [left|].
  pose proof (bt_ready _ _ _ _ Hb item ltac:(left)) as Hready. destruct item as [key record env]. cbn [pi_key pi_record pi_env] in *. subst key.
  assert (Hnext : t <? ir_NextAttempt record = false).
  { destruct Hready as (env' & _ & Hc). destruct (Hc n) as [Hc' _]. rewrite Hn in Hc'. by apply Z.ltb_ge. }
  rewrite Hnext. revert w o Hr Hok Hb. set (after := λ (_ : ()) o, ∃ more, length more = Nat.min (Datatypes.S (length items)) (32 - attempts) ∧
    due (sent ++ more) (Datatypes.S (length items) - (32 - attempts)) o).
  change (sim (batch sent (L ++ sent) (mkPending (pending_key id) record env :: items))
    (published ← try (publish S (pending_key id) record);
     if 32 <=? Z.of_nat attempts + 1 then mret () else
     flush_items S items match published with Ok _ => [] | Err _ => [publicationScope env] end (Z.of_nat attempts + 1))
    after never).
  eapply sim_bind; [by eapply sim_try, well_publish|]. intros [receipt|e]; cbv beta; [|by intros w o _ _ ?].
  intros w o Hr Hok (e & Hb). revert w o Hr Hok Hb.
  change (sim (batch (sent ++ [e]) (L ++ sent ++ [e]) items)
    (if 32 <=? Z.of_nat attempts + 1 then mret () else flush_items S items [] (Z.of_nat attempts + 1)) after never).
  destruct (Z.leb_spec 32 (Z.of_nat attempts + 1)) as [Hend|Hmore].
  - apply sim_ret. intros o _ Hb%batch_due. exists [e]. split; [cbn [length]; lia|].
    by replace (Datatypes.S (length items) - (32 - attempts))%nat with (length items) by lia.
  - replace (Z.of_nat attempts + 1) with (Z.of_nat (Datatypes.S attempts)) by lia.
    eapply sim_weaken; [| | |apply (IH (sent ++ [e]) (Datatypes.S attempts)); lia]; [done| |done].
    intros ? o _ (more & Hlen & Hd). exists (e :: more). split; [cbn [length]; lia|]. rewrite <-app_assoc in Hd. cbn in Hd.
    by replace (Datatypes.S (length items) - (32 - attempts))%nat with (length items - (32 - Datatypes.S attempts))%nat by lia.
Qed.

(** A flush hands over the oldest 32 commands, or all there are. *)
Lemma well_Flush n :
  sim (due [] n) (Flush S) (λ _ o, ∃ sent, (length sent ≤ 32)%nat ∧ due sent (n - 32) o ∧ (length sent = 32%nat ∨ ob_pending o = ∅)) never.
Proof using Hh.
  unfold Flush. eapply sim_bind; [apply well_lock|]. intros ?; cbv beta.
  eapply (sim_bind _ _ _ (λ _, due [] n)).
  { eapply sim_bind; [apply (well_collect_prefix [] n true) | intros ?; cbv beta; apply (well_collect_prefix [] n false)]. }
  intros ?; cbv beta. eapply sim_bind; [apply well_pending|]. intros items. apply sim_pre. intros Hlen.
  eapply sim_weaken; [| | |apply (well_flush_items [] items 0); lia]; [intros o _; by rewrite app_nil_r| |done].
  intros ? o _ (sent & Hs & Hd). exists sent. split; [lia|]. split.
  - destruct Hd. split; try done. cbn in *. lia.
  - destruct (decide (length items < 32)%nat); [right|left; lia]. apply map_size_empty_inv. pose proof (du_size _ _ _ Hd). lia.
Qed.
End healthy.

(** ** A healthy outbox empties *)
Fixpoint flushes (S : surroundings) (k : nat) (w : outbox_world) : outbox_world :=
  match k with O => w | Datatypes.S k => (Flush S (flushes S k w)).1 end.

(** [batch] is what was handed over between [w] and [w']: at most 32 waiting commands, each
    sent once and acknowledged; exactly they no longer wait, nothing older than one of
    them does, and a smaller batch leaves nothing pending. *)
Record hands_over (w w' : outbox_world) (batch : list sent_entry) : Prop := mkHandsOver {
  ho_log : ow_sent w' = ow_sent w ++ batch;
  ho_bound : (length batch ≤ 32)%nat;
  ho_once : NoDup (se_key <$> batch);
  ho_from : ∀ e, e ∈ batch → ∃ id r, waiting w id r ∧ hands id r e;
  ho_rest : ∀ id r, waiting w' id r ↔ waiting w id r ∧ pending_key id ∉ se_key <$> batch;
  ho_oldest : ∀ e id r, e ∈ batch → waiting w' id r → se_sequence e ≤ ir_Sequence r;
  ho_full : length batch = 32%nat ∨ keys_under ingressOutboxPrefix (ow_store w') = [] }.

Lemma nothing_pending w o : represents w o → ob_pending o = ∅ → keys_under ingressOutboxPrefix (ow_store w) = [].
Proof.
  intros Hr E. pose proof (pending_counted _ _ Hr) as Hc. rewrite E, map_size_empty in Hc. unfold Zlength in Hc.
  destruct (keys_under _ _); [done|]. cbn in Hc. lia.
Qed.

Lemma flush_hands_over S w o :
  healthy S → represents w o → outbox_ok o → (∀ id r, live o id r → ready S r) →
  (Flush S w).2 = Done tt ∧
  ∃ o' batch, outbox_ok o' ∧ represents (Flush S w).1 o' ∧ (∀ id r, live o' id r → ready S r) ∧
    (size (ob_pending o') ≤ size (ob_pending o) - 32)%nat ∧ hands_over w (Flush S w).1 batch.
Proof.
  intros Hh Hr Hok Hready. assert (Hd : due S (live o) (ob_sent o) [] (size (ob_pending o)) o).
  { split; [done|done|by rewrite app_nil_r| | |by intros e id r ?%not_elem_of_nil].
    - intros id r. split; [intros Hl; split; [done|by intros e ?%not_elem_of_nil] | by intros [? _]].
    - split; [by intros e ?%not_elem_of_nil|constructor]. }
  pose proof (well_Flush S Hh (live o) (ob_sent o) _ w o Hr Hok Hd) as Hf. pose proof (alive_Flush S Hh w) as Ha.
  destruct (Flush S w) as [w' a]. destruct Hf as (o' & _ & Hok' & Hr' & Ho). destruct a as [[]|e|]; [|done|done]. split; [done|].
  destruct Ho as (sent & Hlen & [D1 D2 D3 D4 [D5 D6] D7] & Hfull). exists o', sent. cbn [fst]. split_and!; [done..|].
  assert (Hin : ∀ id, pending_key id ∉ se_key <$> sent ↔ ∀ e, e ∈ sent → se_key e ≠ pending_key id).
  { intros id. split; [intros Hni e He E; apply Hni; rewrite <-E; by apply list_elem_of_fmap_2|].
    intros Hne (e & E & He)%list_elem_of_fmap. by apply (Hne e). }
  split; [by rewrite (rp_sent _ _ Hr'), (rp_sent _ _ Hr)|done|done| | | |].
  - intros e He. destruct (D5 e He) as (id & r & Hl & Hhand). exists id, r. by rewrite (waiting_live _ _ _ _ Hr).
  - intros id r. rewrite (waiting_live _ _ _ _ Hr), (waiting_live _ _ _ _ Hr'), Hin. apply D4.
  - intros e id r He. rewrite (waiting_live _ _ _ _ Hr'). by apply D7.
  - destruct Hfull as [?|Hempty]; [by left|right; by eapply nothing_pending].
Qed.

Lemma flushes_ok S k w o :
  healthy S → represents w o → outbox_ok o → (∀ id r, live o id r → ready S r) →
  ∃ o', outbox_ok o' ∧ represents (flushes S k w) o' ∧ (∀ id r, live o' id r → ready S r) ∧
    (size (ob_pending o') ≤ size (ob_pending o) - 32 * k)%nat.
Proof.
  intros Hh Hr Hok Hready. induction k as [|k IH]; cbn [flushes].
  - exists o. split_and!; [done..|lia].
  - destruct IH as (o1 & Hok1 & Hr1 & Hready1 & Hn1).
    destruct (flush_hands_over S _ o1 Hh Hr1 Hok1 Hready1) as (_ & o2 & batch & Hok2 & Hr2 & Hready2 & Hn2 & _).
    exists o2. split_and!; [done..|lia].
Qed.

(** C16. A healthy outbox empties. When the store answers, the transport acknowledges and
    every waiting command is due and before its deadline, every flush succeeds and hands
    over the 32 oldest commands, or all of them if there are fewer: each is sent once and
    acknowledged, and exactly these stop waiting. After eight flushes nothing is pending. *)
Theorem outbox_drains S w : outbox_reachable w → healthy S → (∀ id r, waiting w id r → ready S r) →
  (∀ k, (Flush S (flushes S k w)).2 = Done tt ∧ ∃ batch, hands_over (flushes S k w) (flushes S (Datatypes.S k) w) batch) ∧
  keys_under ingressOutboxPrefix (ow_store (flushes S 8 w)) = [].
Proof.
  intros (o & Hok & Hr)%reachable_represented Hh Hready.
  assert (Hready' : ∀ id r, live o id r → ready S r) by (intros id r Hl; apply (Hready id); by apply (waiting_live _ _ _ _ Hr)). split.
  - intros k. destruct (flushes_ok S k w o Hh Hr Hok Hready') as (o1 & Hok1 & Hr1 & Hready1 & _).
    destruct (flush_hands_over S _ o1 Hh Hr1 Hok1 Hready1) as (Hdone & o2 & batch & _ & _ & _ & _ & Hb). split; [done|]. by exists batch.
  - destruct (flushes_ok S 8 w o Hh Hr Hok Hready') as (o' & _ & Hr' & _ & Hn). apply (nothing_pending _ o' Hr').
    pose proof (ok_bound _ Hok). apply map_size_empty_inv. lia.
Qed.
End liveness.

(** ** Witness: two commands wait, the transport is up *)
Lemma demo_rows : (map_to_list (ow_store demo_two)).*2 =
  [Text "2"; Record_ (mkIngress 2 "second" None 1000 0 0 0); Record_ demo_row].
Proof. vm_compute. reflexivity. Qed.

Lemma outbox_drains_witness :
  (∃ batch, hands_over demo_two (flushes demo_up 1 demo_two) batch) ∧ keys_under ingressOutboxPrefix (ow_store (flushes demo_up 8 demo_two)) = [].
Proof.
  destruct (outbox_drains demo_up demo_two demo_two_reachable) as [Hk He].
  - split; intros; [done..| |done]. by eexists.
  - intros id r [Hrow _ _]. assert (Hin : Record_ r ∈ (map_to_list (ow_store demo_two)).*2).
    { apply list_elem_of_fmap. exists (pending_key id, Record_ r). split; [reflexivity|]. apply elem_of_map_to_list. exact Hrow. }
    rewrite demo_rows in Hin. exists (ir_Envelope r). split; [done|]. intros n.
    apply elem_of_cons in Hin as [[=]|[[= ->]|[[= ->]|[]%not_elem_of_nil]%elem_of_cons]%elem_of_cons];
      (split; [vm_compute; discriminate | vm_compute; reflexivity]).
  - split; [exact (proj2 (Hk 0%nat)) | exact He].
Defined.
