(* ===== verification/QuestionTypes.v ===== *)
(** * QuestionTypes: questions to a person, and what is decided about them without I/O

    src/internal/apps/balda/questioncmd/question.go, the question record of
    state/types.go and the pure functions of questions/service.go: who may answer, which
    option an answer selects, and the continuation a settled question is resumed with.
    [InboundReply] leaves out the original input, which only the archive reads. *)

From Stdlib Require Import ZArith Lia Ascii String.
From stdpp Require Import base numbers list gmap strings.
From S2P Require Import Prelude.
From S2P Require Import GoStrings.
From S2P Require Import GoNumeric.
From S2P Require Import GoParse.
From S2P Require Import GoTimeJson.
From S2P Require Import TurnCommand.
From S2P Require Import CommandOutbox.

Local Open Scope string_scope.
Local Open Scope list_scope.
Local Open Scope Z_scope.

(** ** Vocabulary *)
Definition StatusPending : string := "pending".
Definition StatusAnswered : string := "answered".
Definition StatusTimedOut : string := "timed_out".
Definition StatusFailed : string := "failed".
Definition ActionAnswered : string := "answered".
Definition ActionTimedOut : string := "timed_out".
Definition ActionFailed : string := "failed".
Definition ResponderRequester : string := "requester".
Definition NamespaceQuestionCommand : string := "question.command".
Definition KindQuestionAnswered : string := "question_answered".
Definition KindQuestionTimedOut : string := "question_timed_out".
Definition KindQuestionFailed : string := "question_failed".
Definition ActorTypeQuestion : string := "question".

Record UserRef := mkUser { us_UserID : string; us_DisplayName : string }.
Record InteractionOrigin := mkInteractionOrigin {
  io_RootTurnID : string; io_RootJobID : string; io_RootRunID : string; io_TriggerMsgID : string }.
Record InteractionContext := mkInteraction {
  ic_Private : bool; ic_ArchiveID : string; ic_SessionID : string; ic_ChannelKind : string; ic_Locator : Locator;
  ic_RequestedBy : UserRef; ic_Origin : InteractionOrigin; ic_ConversationID : string }.
Record ResumeTarget := mkResume {
  rt_To : string; rt_Namespace : string; rt_Subject : string; rt_CorrelationID : string; rt_Metadata : gmap string string }.
Record Option := mkOption { op_ID : string; op_Label : string }.
Record Request := mkRequest {
  rq_Prompt : string; rq_Options : list Option; rq_AllowFreeText : bool; rq_Responder : string; rq_Timeout : Z;
  rq_Metadata : gmap string string }.
Record DeliveryRef := mkDeliveryRef {
  df_Provider : string; df_ConversationKey : string; df_ProviderCreatedAt : Z; df_ProviderMessageID : string;
  df_ReplyHandle : string; df_ControlHandle : string }.
Record InboundReply := mkReply {
  ir_SharedReplyRef : bool; ir_ProviderCreatedAt : Z; ir_Provider : string; ir_SessionID : string; ir_ConversationKey : string;
  ir_ReplyToMessageID : string; ir_MessageID : string; ir_User : UserRef; ir_Text : string; ir_ReceivedAt : Z }.
Record InboundSelection := mkSelection {
  sl_Provider : string; sl_SessionID : string; sl_ConversationKey : string; sl_QuestionID : string; sl_ProviderMessageID : string;
  sl_User : UserRef; sl_OptionID : string; sl_OptionIndex : Z; sl_ReceivedAt : Z }.
Record Answer := mkAnswer {
  an_Text : string; an_SelectedOption : string; an_AnsweredBy : UserRef; an_AnsweredAt : Z; an_ProviderMsgID : string }.
Record Failure := mkFailure { fl_Code : string; fl_Message : string; fl_FailedAt : Z }.

(** ** JSON columns

    A JSON column holds nothing, the empty object, or what a value was encoded as; the
    value in it is the one it decodes to. *)
Inductive json (A : Type) := NoJson | EmptyObject | JsonOf (a : A).
Arguments NoJson {A}.
Arguments EmptyObject {A}.
Arguments JsonOf {A} a.

(** [strings.TrimSpace(raw) == ""] *)
Definition json_blank {A} (raw : json A) : bool := match raw with NoJson => true | _ => false end.
Definition Unmarshal {A} (zero : A) (raw : json A) : result A :=
  match raw with
  | NoJson => Err (ErrText "unexpected end of JSON input")
  | EmptyObject => Ok zero
  | JsonOf a => Ok a
  end.
Definition emptyJSON {A} (raw : json A) : json A := match raw with NoJson => EmptyObject | _ => raw end.

Definition json_user (u : UserRef) : UserRef := mkUser (json_text (us_UserID u)) (json_text (us_DisplayName u)).
Definition json_locator (l : Locator) : Locator :=
  mkLocator (json_text (loc_ChannelType l)) (json_text (loc_AddressKey l)) (json_text (loc_AddressJSON l)) (json_text (loc_SessionID l)).
(** Members are written in the order of their keys; of two that decode alike the last stays. *)
Definition json_map (m : gmap string string) : gmap string string :=
  list_to_map (reverse (map (λ p, (json_text p.1, json_text p.2)) (SliceStable (λ p q, string_ltb p.1 q.1) (map_to_list m)))).
Definition json_interaction (i : InteractionContext) : InteractionContext :=
  let o := ic_Origin i in
  mkInteraction (ic_Private i) (json_text (ic_ArchiveID i)) (json_text (ic_SessionID i)) (json_text (ic_ChannelKind i))
    (json_locator (ic_Locator i)) (json_user (ic_RequestedBy i))
    (mkInteractionOrigin (json_text (io_RootTurnID o)) (json_text (io_RootJobID o)) (json_text (io_RootRunID o)) (json_text (io_TriggerMsgID o)))
    (json_text (ic_ConversationID i)).
Definition json_resume (r : ResumeTarget) : ResumeTarget :=
  mkResume (json_text (rt_To r)) (json_text (rt_Namespace r)) (json_text (rt_Subject r)) (json_text (rt_CorrelationID r))
    (json_map (rt_Metadata r)).
Definition json_request (r : Request) : Request :=
  mkRequest (json_text (rq_Prompt r)) (map (λ o, mkOption (json_text (op_ID o)) (json_text (op_Label o))) (rq_Options r))
    (rq_AllowFreeText r) (json_text (rq_Responder r)) (rq_Timeout r) (json_map (rq_Metadata r)).
Definition json_answer (a : Answer) : Answer :=
  mkAnswer (json_text (an_Text a)) (json_text (an_SelectedOption a)) (json_user (an_AnsweredBy a)) (an_AnsweredAt a)
    (json_text (an_ProviderMsgID a)).
Definition json_failure (f : Failure) : Failure := mkFailure (json_text (fl_Code f)) (json_text (fl_Message f)) (fl_FailedAt f).

(** [marshalJSON]: only a time can be refused. *)
Definition marshal_answer (a : Answer) : result (json Answer) :=
  if storable (an_AnsweredAt a) then Ok (JsonOf (json_answer a)) else Err (ErrText "Time.MarshalJSON: year outside of range [0,9999]").
Definition marshal_failure (f : Failure) : result (json Failure) :=
  if storable (fl_FailedAt f) then Ok (JsonOf (json_failure f)) else Err (ErrText "Time.MarshalJSON: year outside of range [0,9999]").

Definition no_user : UserRef := mkUser "" "".
Definition zero_interaction : InteractionContext :=
  mkInteraction false "" "" "" (mkLocator "" "" "" "") no_user (mkInteractionOrigin "" "" "" "") "".
Definition zero_resume : ResumeTarget := mkResume "" "" "" "" ∅.
Definition zero_request : Request := mkRequest "" [] false "" 0 ∅.
Definition zero_answer : Answer := mkAnswer "" "" no_user 0 "".
Definition zero_failure : Failure := mkFailure "" "" 0.

(** ** The question record *)
Record QuestionRecord := mkQuestion {
  qr_AnswerContinuationPending : bool; qr_AnswerControlsPending : bool; qr_QuestionID : string; qr_SessionID : string;
  qr_ChannelKind : string; qr_AddressKey : string; qr_AddressJSON : string; qr_Prompt : string; qr_Status : string;
  qr_InteractionJSON : json InteractionContext; qr_ResumeJSON : json ResumeTarget; qr_ResumeTargetKind : string;
  qr_ResumeTargetKey : string; qr_RequestJSON : json Request; qr_AnswerJSON : json Answer; qr_FailureJSON : json Failure;
  qr_Provider : string; qr_ConversationKey : string; qr_ProviderCreatedAt : Z; qr_ProviderMessageID : string;
  qr_ReplyHandle : string; qr_ControlHandle : string; qr_ExpiresAt : Z; qr_AnsweredAt : Z; qr_FailedAt : Z; qr_CreatedAt : Z;
  qr_UpdatedAt : Z }.
Definition zero_question : QuestionRecord :=
  mkQuestion false false "" "" "" "" "" "" "" NoJson NoJson "" "" NoJson NoJson NoJson "" "" 0 "" "" "" 0 0 0 0 0.

(** ** Resuming *)
Definition ParseResumeAddress (raw : string) : result ActorAddress :=
  let '(target, key, found) := Cut (TrimSpace raw) ":"%char in
  if negb found || bool_decide (TrimSpace target = "") || bool_decide (TrimSpace key = "")
  then Err (ErrText "resume target must be <target>:<key>")
  else Ok (mkAddress (TrimSpace target) (TrimSpace key)).
Definition routerAddress : result ActorAddress := ParseResumeAddress (ActorTypeQuestion +:+ ":router").

Definition normalizedResumeTarget (sessionID target : string) : string * string :=
  let '(kind, key, ok) := Cut (TrimSpace target) ":"%char in
  let kind := TrimSpace kind in
  let key := TrimSpace key in
  if negb ok || bool_decide (kind = "") || bool_decide (key = "") then ("", "")
  else if bool_decide (kind = "session") || bool_decide (kind = "goalkeeper") then (kind, key)
  else if bool_decide (kind = "permission") then (kind, TrimSpace sessionID)
  else ("", "").

(** The payload of a continuation. *)
Record continuation := mkContinuation {
  cn_QuestionID : string; cn_Action : string; cn_Resume : ResumeTarget; cn_Interaction : InteractionContext;
  cn_outcome : Answer + (Z + Failure) }.

(** A literal of [actorlayer.Envelope]. *)
Record envelope_fields (P : Type) := mkFields {
  ef_ID : string; ef_Namespace : string; ef_Kind : string; ef_From : string; ef_To : ActorAddress;
  ef_Meta : gmap string string; ef_Priority : Z; ef_DedupeKey : string; ef_Payload : P }.
Arguments mkFields {P}.
Arguments ef_ID {P}.
Arguments ef_Namespace {P}.
Arguments ef_Meta {P}.
Arguments ef_DedupeKey {P}.

(** What is used of go-actorlayer and google/uuid besides [ActorLayer]. *)
Class ActorMessages `{ActorLayer} := {
  Payload : Type;
  MarshalPayload : continuation → result Payload;
  new_envelope : envelope_fields Payload → Envelope;
  SystemAddress : string → string;
  NewSHA1_OID : string → string }.

(** [time.RFC3339]: to the second. *)
Definition Format_RFC3339 (t : Z) : string := Format_RFC3339Nano (t - t `mod` Second).

Section continuations.
  Context `{ActorMessages}.

Definition continuation_meta (resume : ResumeTarget) (interaction : InteractionContext) (questionID : string)
    (more : list (string * string)) : gmap string string :=
  list_to_map ([("resume_to", TrimSpace (rt_To resume)); ("resume_namespace", TrimSpace (rt_Namespace resume));
                ("resume_subject", TrimSpace (rt_Subject resume)); ("resume_correlation_id", TrimSpace (rt_CorrelationID resume));
                ("session_id", TrimSpace (ic_SessionID interaction)); ("question_id", TrimSpace questionID)] ++ more).

Definition dedupe_key (questionID action : string) : string := "question:" +:+ TrimSpace questionID +:+ ":" +:+ action.

(** The common shape of the three envelopes: address, payload, literal. *)
Definition continuation_envelope (id kind dedupeKey : string) (payload : continuation) (more : list (string * string)) : result Envelope :=
  to ← routerAddress;
  data ← MarshalPayload payload;
  Ok (new_envelope (mkFields id NamespaceQuestionCommand kind (SystemAddress "question") to
        (continuation_meta (cn_Resume payload) (cn_Interaction payload) (cn_QuestionID payload) more) 80 dedupeKey data)).

Definition AnsweredEnvelope (resume : ResumeTarget) (interaction : InteractionContext) (answer : Answer) (questionID : string) : result Envelope :=
  let dedupeKey := dedupe_key questionID ActionAnswered in
  continuation_envelope (NewSHA1_OID ("balda:" +:+ dedupeKey)) KindQuestionAnswered dedupeKey
    (mkContinuation (TrimSpace questionID) ActionAnswered resume interaction (inl answer))
    [("answered_at", Format_RFC3339 (an_AnsweredAt answer))].
(** [uuid] is what [uuid.NewString] returns. *)
Definition TimedOutEnvelope (uuid : string) (resume : ResumeTarget) (interaction : InteractionContext) (questionID : string) (timedOutAt : Z) :
    result Envelope :=
  continuation_envelope uuid KindQuestionTimedOut (dedupe_key questionID ActionTimedOut)
    (mkContinuation (TrimSpace questionID) ActionTimedOut resume interaction (inr (inl timedOutAt)))
    [("timed_out_at", Format_RFC3339 timedOutAt)].
Definition FailedEnvelope (uuid : string) (resume : ResumeTarget) (interaction : InteractionContext) (questionID : string) (failure : Failure) :
    result Envelope :=
  continuation_envelope uuid KindQuestionFailed (dedupe_key questionID ActionFailed)
    (mkContinuation (TrimSpace questionID) ActionFailed resume interaction (inr (inr failure)))
    [("failure_code", TrimSpace (fl_Code failure)); ("failed_at", Format_RFC3339 (fl_FailedAt failure))].

Definition answeredContinuation (record : QuestionRecord) : result Envelope :=
  interaction ← Unmarshal zero_interaction (qr_InteractionJSON record);
  resume ← Unmarshal zero_resume (qr_ResumeJSON record);
  answer ← Unmarshal zero_answer (qr_AnswerJSON record);
  AnsweredEnvelope resume interaction answer (qr_QuestionID record).

Definition failedEnvelopeFromRecordWithFailure (uuid : string) (record : QuestionRecord) (failure : Failure) : result Envelope :=
  interaction ← Unmarshal zero_interaction (qr_InteractionJSON record);
  resume ← Unmarshal zero_resume (qr_ResumeJSON record);
  FailedEnvelope uuid resume interaction (qr_QuestionID record) failure.
Definition failedEnvelopeFromRecord (uuid : string) (record : QuestionRecord) : result Envelope :=
  failure ← Unmarshal zero_failure (qr_FailureJSON record);
  failedEnvelopeFromRecordWithFailure uuid record failure.
End continuations.

(** ** Who may answer, and what *)
Definition decodeRequest (record : QuestionRecord) : result Request :=
  if json_blank (qr_RequestJSON record)
  then Ok (mkRequest "" [] true "" 0 ∅)
  else Unmarshal zero_request (qr_RequestJSON record).

Definition responderAllowed (record : QuestionRecord) (request : Request) (user : UserRef) : result bool :=
  if negb (EqualFold (TrimSpace (rq_Responder request)) ResponderRequester) then Ok true
  else
    interaction ← Unmarshal zero_interaction (qr_InteractionJSON record);
    let requesterID := TrimSpace (us_UserID (ic_RequestedBy interaction)) in
    Ok (negb (bool_decide (requesterID = "")) && bool_decide (TrimSpace (us_UserID user) = requesterID)).

Definition filled (s : string) : bool := negb (bool_decide (TrimSpace s = "")).
Definition selectionContextMatches (record : QuestionRecord) (in_ : InboundSelection) : bool :=
  negb (filled (sl_SessionID in_) && negb (bool_decide (TrimSpace (sl_SessionID in_) = TrimSpace (qr_SessionID record)))) &&
  negb (filled (sl_Provider in_) && filled (qr_Provider record) &&
        negb (EqualFold (TrimSpace (sl_Provider in_)) (TrimSpace (qr_Provider record)))) &&
  negb (filled (sl_ConversationKey in_) &&
        negb (bool_decide (TrimSpace (sl_ConversationKey in_) = firstNonEmpty [qr_ConversationKey record; qr_AddressKey record]))) &&
  (negb (filled (sl_ProviderMessageID in_)) || negb (filled (qr_ProviderMessageID record)) ||
   bool_decide (TrimSpace (sl_ProviderMessageID in_) = TrimSpace (qr_ProviderMessageID record))).

(** [options[index-1]] *)
Definition option_at (options : list Option) (index : Z) : option Option :=
  if (0 <? index) && (index <=? Zlength options) then options !! Z.to_nat (index - 1) else None.

Definition selectedStructuredOption (request : Request) (optionID : string) (optionIndex : Z) : option Option :=
  let optionID := TrimSpace optionID in
  if negb (bool_decide (optionID = ""))
  then List.find (λ option, bool_decide (optionID = TrimSpace (op_ID option))) (rq_Options request)
  else option_at (rq_Options request) optionIndex.

(** The selected option's identity, [None] when the text is not an answer. *)
Definition selectedOption (request : Request) (raw : string) : option string :=
  let text := TrimSpace raw in
  let free := if rq_AllowFreeText request && negb (bool_decide (text = "")) then Some "" else None in
  match rq_Options request with
  | [] => free
  | options =>
      match List.find (λ option, EqualFold text (TrimSpace (op_ID option)) || EqualFold text (TrimSpace (op_Label option))) options with
      | Some option => Some (TrimSpace (op_ID option))
      | None =>
          match Atoi text with
          | Ok index => match option_at options index with Some option => Some (TrimSpace (op_ID option)) | None => free end
          | Err _ => free
          end
      end
  end.

Definition selectedAnswerText (answerJSON : json Answer) : string :=
  match answerJSON with
  | NoJson => ""
  | raw => match Unmarshal zero_answer raw with
           | Err _ => ""
           | Ok answer => if filled (an_SelectedOption answer) then TrimSpace (an_Text answer) else ""
           end
  end.

Definition zeroOrNow (v fallback : Z) : Z := if v =? 0 then fallback else v.
