(* ===== verification/QuestionStore.v ===== *)
(** * QuestionStore: the table of questions

    src/internal/apps/balda/state/sqlite_questions.go.  Every method is one or two
    statements of SQL, each atomic, with its WHERE clause and CASE expression written
    out; other goroutines and processes act before each of them.  A row holds the values
    written; reading it gives the times their text parses to. *)

From Stdlib Require Import ZArith Lia Ascii String.
From stdpp Require Import base numbers list gmap strings.
From S2P Require Import Prelude.
From S2P Require Import GoStrings.
From S2P Require Import GoNumeric.
From S2P Require Import GoParse.
From S2P Require Import GoTimeJson.
From S2P Require Import Runs.
From S2P Require Import CommandOutbox.
From S2P Require Import QuestionTypes.

Local Open Scope string_scope.
Local Open Scope list_scope.
Local Open Scope Z_scope.

(** The request to a channel to remove the controls of a settled question. *)
Record ControlClearRequest := mkControlClear {
  cc_QuestionID : string; cc_Locator : TurnCommand.Locator; cc_ProviderMessageID : string; cc_ControlHandle : string;
  cc_SelectionText : string }.
(** The scheduled job that times a question out.  The fields that are the same in every
    such job (schedule "@once", time zone UTC, status active, no retries) are left out,
    and of its content the question's id is kept. *)
Record TimeoutJob := mkTimeoutJob {
  tj_JobID : string; tj_SessionID : string; tj_ChannelType : string; tj_AddressKey : string; tj_AddressJSON : string;
  tj_QuestionID : string; tj_NextRunAt : Z }.
Record Archive := mkArchive {
  BindQuestion : InteractionContext → ResumeTarget → result InteractionContext;
  RecordAnswer : InteractionContext → string → InboundReply → result unit }.

Section questions.
  Context `{ActorMessages} {W : Type}.

(** The table, what lies behind the dispatcher, the cursor of this process's recovery
    and, for the statements only, the envelopes a dispatch answered with a receipt and
    the controls cleared. *)
Record question_world := mkQuestionWorld {
  qw_rows : gmap string QuestionRecord; qw_outer : W; qw_cursor : string; qw_dispatched : list Envelope;
  qw_cleared : list ControlClearRequest; qw_calls : nat }.

Definition set_rows (f : gmap string QuestionRecord → gmap string QuestionRecord) (w : question_world) : question_world :=
  mkQuestionWorld (f (qw_rows w)) (qw_outer w) (qw_cursor w) (qw_dispatched w) (qw_cleared w) (qw_calls w).

#[local] Notation qrun := (run question_world).

(** What surrounds one call, by the number of its step. *)
Record question_env := mkQuestionEnv {
  qe_clock : nat → Z;
  qe_fates : nat → fate;
  qe_died : nat → bool;
  qe_ctxErr : nat → option error;
  qe_uuid : nat → string;
  qe_others : nat → question_world → question_world;
  qe_dispatch : nat → Envelope → W → W * outcome (option DispatchReceipt);
  qe_archive : option (nat → Archive);
  qe_controls : option (nat → ControlClearRequest → result unit);
  qe_scheduled : option (nat → TimeoutJob → result unit) }.

Section run.
  Context (S : question_env).

(** A step: the others go first, unless the process dies here. *)
Definition q_step {A} (f : nat → qrun A) : qrun A := λ w,
  let n := qw_calls w in
  if qe_died S n then (w, Died)
  else f n (qe_others S n (mkQuestionWorld (qw_rows w) (qw_outer w) (qw_cursor w) (qw_dispatched w) (qw_cleared w) (Datatypes.S n))).

Definition q_now : qrun Z := q_step (λ n, mret (qe_clock S n)).
Definition q_uuid : qrun string := q_step (λ n, mret (qe_uuid S n)).
Definition q_ctx_Err : qrun (option error) := q_step (λ n, mret (qe_ctxErr S n)).

(** *** Statements *)
(** A query, and a statement that counts the rows it affected. *)
Definition q_query {A} (view : gmap string QuestionRecord → A) : qrun A :=
  q_step (λ n, read_fated (qe_fates S n) (λ w, view (qw_rows w))).
Definition q_exec (f : gmap string QuestionRecord → gmap string QuestionRecord * Z) : qrun Z :=
  q_step (λ n w, let '(rows, affected) := f (qw_rows w) in
                 match qe_fates S n with
                 | Commits => (set_rows (λ _, rows) w, Done affected)
                 | Fails e => (w, Failed e)
                 | CommitsUnreported e => (set_rows (λ _, rows) w, Failed e)
                 end).
(** [UPDATE balda_questions SET … WHERE question_id = ? AND …] *)
Definition update_where (id : string) (guard : QuestionRecord → bool) (set_ : QuestionRecord → QuestionRecord)
    (rows : gmap string QuestionRecord) : gmap string QuestionRecord * Z :=
  match rows !! id with
  | Some r => if guard r then (<[id := set_ r]> rows, 1) else (rows, 0)
  | None => (rows, 0)
  end.
(** [fmt.Errorf("…: %w", err)] around a call. *)
Definition q_wrapped {A} (message : string) (m : qrun A) : qrun A := λ w,
  match m w with
  | (w, Failed e) => (w, Failed (ErrWrap message e))
  | r => r
  end.

(** *** Reading a row *)
(** [optionalTimeString], then [parseOptionalTime]. *)
Definition column_time (t : Z) : Z := if storable t then t - t `mod` Second else 0.
(** The same for the columns with [time.RFC3339Nano]. *)
Definition column_nano (t : Z) : Z := if storable t then t else 0.
Definition scanQuestion (r : QuestionRecord) : QuestionRecord :=
  mkQuestion (qr_AnswerContinuationPending r) (qr_AnswerControlsPending r) (qr_QuestionID r) (qr_SessionID r) (qr_ChannelKind r)
    (qr_AddressKey r) (qr_AddressJSON r) (qr_Prompt r) (qr_Status r) (qr_InteractionJSON r) (qr_ResumeJSON r) (qr_ResumeTargetKind r)
    (qr_ResumeTargetKey r) (qr_RequestJSON r) (qr_AnswerJSON r) (qr_FailureJSON r) (qr_Provider r) (qr_ConversationKey r)
    (column_nano (qr_ProviderCreatedAt r)) (qr_ProviderMessageID r) (qr_ReplyHandle r) (qr_ControlHandle r)
    (column_time (qr_ExpiresAt r)) (column_time (qr_AnsweredAt r)) (column_time (qr_FailedAt r)) (column_nano (qr_CreatedAt r))
    (column_time (qr_UpdatedAt r)).

Definition pending (r : QuestionRecord) : bool := bool_decide (qr_Status r = StatusPending).
Definition answered (r : QuestionRecord) : bool := bool_decide (qr_Status r = StatusAnswered).

(** *** Methods *)
Definition column_of_create (record : QuestionRecord) (createdAt updatedAt : Z) : QuestionRecord :=
  mkQuestion false false (qr_QuestionID record) (qr_SessionID record) (qr_ChannelKind record) (qr_AddressKey record)
    (qr_AddressJSON record) (qr_Prompt record) (if filled (qr_Status record) then qr_Status record else StatusPending)
    (emptyJSON (qr_InteractionJSON record)) (emptyJSON (qr_ResumeJSON record)) (TrimSpace (qr_ResumeTargetKind record))
    (TrimSpace (qr_ResumeTargetKey record)) (emptyJSON (qr_RequestJSON record)) (qr_AnswerJSON record) (qr_FailureJSON record)
    (TrimSpace (qr_Provider record)) (TrimSpace (qr_ConversationKey record)) (qr_ProviderCreatedAt record)
    (TrimSpace (qr_ProviderMessageID record)) (TrimSpace (qr_ReplyHandle record)) (TrimSpace (qr_ControlHandle record))
    (qr_ExpiresAt record) (qr_AnsweredAt record) (qr_FailedAt record) createdAt updatedAt.

(** The inserted row is the only one its statement can affect: the id is the primary key. *)
Definition insert_row (r : QuestionRecord) (rows : gmap string QuestionRecord) : result (gmap string QuestionRecord) :=
  match rows !! qr_QuestionID r with
  | Some _ => Err (ErrText "UNIQUE constraint failed: balda_questions.question_id")
  | None => Ok (<[qr_QuestionID r := r]> rows)
  end.

Definition CreatePendingQuestion (record : QuestionRecord) : qrun unit :=
  _ ← lift (reject_if (negb (filled (qr_QuestionID record))) (ErrText "question id is required"));
  _ ← lift (reject_if (negb (filled (qr_SessionID record))) (ErrText "session id is required"));
  _ ← lift (reject_if (negb (filled (qr_ChannelKind record))) (ErrText "channel kind is required"));
  _ ← lift (reject_if (negb (filled (qr_AddressKey record))) (ErrText "address key is required"));
  _ ← lift (reject_if (negb (filled (qr_AddressJSON record))) (ErrText "address json is required"));
  _ ← lift (reject_if (negb (filled (qr_Prompt record))) (ErrText "prompt is required"));
  t ← q_now;
  q_wrapped "insert question"
    (q_step (λ n w,
       match insert_row (column_of_create record (zeroOrNow (qr_CreatedAt record) t) (zeroOrNow (qr_UpdatedAt record) t)) (qw_rows w) with
       | Err e => (w, Failed e)
       | Ok rows => write_fated (qe_fates S n) (set_rows (λ _, rows)) w
       end)).

(** The CASE expression reads the row as it was. *)
Definition bound_row (ref : DeliveryRef) (t : Z) (r : QuestionRecord) : QuestionRecord :=
  let moved := answered r &&
    (negb (bool_decide (qr_Provider r = TrimSpace (df_Provider ref))) ||
     negb (bool_decide (qr_ConversationKey r = TrimSpace (df_ConversationKey ref))) ||
     negb (bool_decide (qr_ProviderMessageID r = TrimSpace (df_ProviderMessageID ref))) ||
     negb (bool_decide (qr_ControlHandle r = TrimSpace (df_ControlHandle ref)))) in
  mkQuestion (qr_AnswerContinuationPending r) (if moved then true else qr_AnswerControlsPending r) (qr_QuestionID r) (qr_SessionID r)
    (qr_ChannelKind r) (qr_AddressKey r) (qr_AddressJSON r) (qr_Prompt r) (qr_Status r) (qr_InteractionJSON r) (qr_ResumeJSON r)
    (qr_ResumeTargetKind r) (qr_ResumeTargetKey r) (qr_RequestJSON r) (qr_AnswerJSON r) (qr_FailureJSON r)
    (TrimSpace (df_Provider ref)) (TrimSpace (df_ConversationKey ref)) (df_ProviderCreatedAt ref)
    (TrimSpace (df_ProviderMessageID ref)) (TrimSpace (df_ReplyHandle ref)) (TrimSpace (df_ControlHandle ref))
    (qr_ExpiresAt r) (qr_AnsweredAt r) (qr_FailedAt r) (qr_CreatedAt r) t.
Definition BindQuestionDeliveryRef (questionID : string) (ref : DeliveryRef) : qrun unit :=
  t ← q_now;
  _ ← q_wrapped "bind question delivery ref" (q_exec (update_where (TrimSpace questionID) (λ _, true) (bound_row ref t)));
  mret tt.

Definition GetQuestionByID (questionID : string) : qrun (option QuestionRecord) :=
  q_query (λ rows, scanQuestion <$> rows !! TrimSpace questionID).

(** [ORDER BY created_at DESC, question_id DESC], on the text of the time. *)
Definition created_before (a b : QuestionRecord) : bool :=
  let ta := Format_RFC3339Nano (qr_CreatedAt a) in
  let tb := Format_RFC3339Nano (qr_CreatedAt b) in
  if bool_decide (ta = tb) then string_ltb (qr_QuestionID b) (qr_QuestionID a) else string_ltb tb ta.
Definition select_where (guard : QuestionRecord → bool) (less : QuestionRecord → QuestionRecord → bool)
    (rows : gmap string QuestionRecord) : list QuestionRecord :=
  SliceStable less (filter (λ r, guard r = true) (map snd (map_to_list rows))).

Definition LatestPendingConversationQuestion (sessionID : string) : qrun (option QuestionRecord) :=
  let sessionID := TrimSpace sessionID in
  _ ← lift (reject_if (bool_decide (sessionID = "")) (ErrText "session id is required"));
  q_query (λ rows, scanQuestion <$> head (select_where
    (λ r, bool_decide (qr_SessionID r = sessionID) && pending r && bool_decide (qr_ResumeTargetKey r = sessionID) &&
          (bool_decide (qr_ResumeTargetKind r = "session") || bool_decide (qr_ResumeTargetKind r = "permission")))
    created_before rows)).

Definition has_reply_ref (provider conversationKey messageID : string) (r : QuestionRecord) : bool :=
  bool_decide (qr_Provider r = provider) && bool_decide (qr_ConversationKey r = conversationKey) &&
  bool_decide (qr_ProviderMessageID r = messageID).
Definition pending_first (a b : QuestionRecord) : bool :=
  match pending a, pending b with
  | true, false => true
  | false, true => false
  | _, _ => created_before a b
  end.
(** The first row, unless the second is pending too. *)
Definition scanQuestionReply (rows : list QuestionRecord) : result (option QuestionRecord) :=
  match rows with
  | [] => Ok None
  | record :: rest =>
      if pending record && match rest with next :: _ => pending next | [] => false end
      then Err (ErrText "multiple pending questions share this reply thread")
      else Ok (Some record)
  end.
Definition GetQuestionByReplyRef (provider conversationKey replyToMessageID : string) : qrun (option QuestionRecord) :=
  rows ← q_query (λ rows, map scanQuestion (take 2 (select_where
           (has_reply_ref (TrimSpace provider) (TrimSpace conversationKey) (TrimSpace replyToMessageID)) pending_first rows)));
  lift (scanQuestionReply rows).

(** A transition out of [pending], and the row afterwards. *)
Definition updateQuestionResolution (questionID : string) (set_ : QuestionRecord → QuestionRecord) (action : string) :
    qrun (QuestionRecord * bool) :=
  affected ← q_wrapped ("mark question " +:+ action) (q_exec (update_where (TrimSpace questionID) pending set_));
  affected ← q_wrapped ("count question " +:+ action) (q_query (λ _, affected));
  record ← GetQuestionByID questionID;
  mret (default zero_question record, (0 <? affected) && bool_decide (is_Some record)).

Definition with_answer (answerJSON : json Answer) (answeredAt : Z) (r : QuestionRecord) : QuestionRecord :=
  mkQuestion true true (qr_QuestionID r) (qr_SessionID r) (qr_ChannelKind r) (qr_AddressKey r) (qr_AddressJSON r) (qr_Prompt r)
    StatusAnswered (qr_InteractionJSON r) (qr_ResumeJSON r) (qr_ResumeTargetKind r) (qr_ResumeTargetKey r) (qr_RequestJSON r)
    answerJSON (qr_FailureJSON r) (qr_Provider r) (qr_ConversationKey r) (qr_ProviderCreatedAt r) (qr_ProviderMessageID r)
    (qr_ReplyHandle r) (qr_ControlHandle r) (qr_ExpiresAt r) answeredAt (qr_FailedAt r) (qr_CreatedAt r) answeredAt.
Definition MarkQuestionAnswered (questionID : string) (answer : Answer) : qrun (QuestionRecord * bool) :=
  answerJSON ← q_wrapped "marshal question answer" (lift (marshal_answer answer));
  answeredAt ← (if an_AnsweredAt answer =? 0 then q_now else mret (an_AnsweredAt answer));
  updateQuestionResolution questionID (with_answer answerJSON answeredAt) "answered".

Definition timed_out (t : Z) (r : QuestionRecord) : QuestionRecord :=
  mkQuestion (qr_AnswerContinuationPending r) (qr_AnswerControlsPending r) (qr_QuestionID r) (qr_SessionID r) (qr_ChannelKind r)
    (qr_AddressKey r) (qr_AddressJSON r) (qr_Prompt r) StatusTimedOut (qr_InteractionJSON r) (qr_ResumeJSON r) (qr_ResumeTargetKind r)
    (qr_ResumeTargetKey r) (qr_RequestJSON r) (qr_AnswerJSON r) (qr_FailureJSON r) (qr_Provider r) (qr_ConversationKey r)
    (qr_ProviderCreatedAt r) (qr_ProviderMessageID r) (qr_ReplyHandle r) (qr_ControlHandle r) (qr_ExpiresAt r) t (qr_FailedAt r)
    (qr_CreatedAt r) t.
Definition MarkQuestionTimedOut (questionID : string) (timedOutAt : Z) : qrun (QuestionRecord * bool) :=
  t ← (if timedOutAt =? 0 then q_now else mret timedOutAt);
  updateQuestionResolution questionID (timed_out t) "timed out".

Definition with_failure (failureJSON : json Failure) (failedAt : Z) (r : QuestionRecord) : QuestionRecord :=
  mkQuestion (qr_AnswerContinuationPending r) (qr_AnswerControlsPending r) (qr_QuestionID r) (qr_SessionID r) (qr_ChannelKind r)
    (qr_AddressKey r) (qr_AddressJSON r) (qr_Prompt r) StatusFailed (qr_InteractionJSON r) (qr_ResumeJSON r) (qr_ResumeTargetKind r)
    (qr_ResumeTargetKey r) (qr_RequestJSON r) (qr_AnswerJSON r) failureJSON (qr_Provider r) (qr_ConversationKey r)
    (qr_ProviderCreatedAt r) (qr_ProviderMessageID r) (qr_ReplyHandle r) (qr_ControlHandle r) (qr_ExpiresAt r) (qr_AnsweredAt r) failedAt
    (qr_CreatedAt r) failedAt.
Definition MarkQuestionFailed (questionID : string) (failure : Failure) : qrun (QuestionRecord * bool) :=
  failureJSON ← q_wrapped "marshal question failure" (lift (marshal_failure failure));
  failedAt ← (if fl_FailedAt failure =? 0 then q_now else mret (fl_FailedAt failure));
  updateQuestionResolution questionID (with_failure failureJSON failedAt) "failed".

(** *** Recovery markers *)
Definition awaiting_recovery (r : QuestionRecord) : bool :=
  (qr_AnswerContinuationPending r || qr_AnswerControlsPending r) && answered r.
(** The ids after the cursor, in their order: [ORDER BY question_id LIMIT ?]. *)
Definition ids_after (afterID : string) (rows : gmap string QuestionRecord) : list string :=
  sort_Strings (filter (λ id, string_ltb afterID id = true) (map fst (map_to_list (filter (λ p, awaiting_recovery p.2 = true) rows)))).
Definition PendingQuestionAnswerIDs (afterID : string) (limit : Z) : qrun (list string) :=
  _ ← lift (reject_if ((limit <? 1) || (64 <? limit)) (ErrText "question answer batch limit must be between 1 and 64"));
  q_wrapped "list pending question answers" (q_query (λ rows, take (Z.to_nat limit) (ids_after afterID rows))).

Definition with_markers (continuation controls : bool) (updatedAt : Z) (r : QuestionRecord) : QuestionRecord :=
  mkQuestion continuation controls (qr_QuestionID r) (qr_SessionID r) (qr_ChannelKind r)
    (qr_AddressKey r) (qr_AddressJSON r) (qr_Prompt r) (qr_Status r) (qr_InteractionJSON r) (qr_ResumeJSON r) (qr_ResumeTargetKind r)
    (qr_ResumeTargetKey r) (qr_RequestJSON r) (qr_AnswerJSON r) (qr_FailureJSON r) (qr_Provider r) (qr_ConversationKey r)
    (qr_ProviderCreatedAt r) (qr_ProviderMessageID r) (qr_ReplyHandle r) (qr_ControlHandle r) (qr_ExpiresAt r) (qr_AnsweredAt r)
    (qr_FailedAt r) (qr_CreatedAt r) updatedAt.
Definition MarkQuestionAnswerAdmitted (questionID : string) : qrun unit :=
  t ← q_now;
  _ ← q_wrapped "complete question answer admission"
        (q_exec (update_where (TrimSpace questionID) answered (λ r, with_markers false (qr_AnswerControlsPending r) t r)));
  mret tt.

Definition same_ref (ref : DeliveryRef) (r : QuestionRecord) : bool :=
  bool_decide (qr_Provider r = TrimSpace (df_Provider ref)) && bool_decide (qr_ConversationKey r = TrimSpace (df_ConversationKey ref)) &&
  bool_decide (qr_ProviderMessageID r = TrimSpace (df_ProviderMessageID ref)) &&
  bool_decide (qr_ControlHandle r = TrimSpace (df_ControlHandle ref)).
Definition MarkQuestionAnswerControlsCleared (questionID : string) (ref : DeliveryRef) : qrun unit :=
  _ ← q_wrapped "complete question answer controls"
        (q_exec (update_where (TrimSpace questionID) (λ r, negb (qr_AnswerContinuationPending r) && same_ref ref r)
                   (λ r, with_markers (qr_AnswerContinuationPending r) false (qr_UpdatedAt r) r)));
  mret tt.
End run.
End questions.

Arguments question_world {_} W.
Arguments question_env {_} W.
Notation qrun := (run (question_world _)).
