(* ===== verification/Questions.v ===== *)
(** * Questions: asking, answering and recovering

    src/internal/apps/balda/questions/service.go, the wait's end in
    questions/session_orchestration.go, the timeout of actors/session_actor.go and the
    recovery of answers in jobs/questionoutbox/recovery.go, over [QuestionStore]. *)

From Stdlib Require Import ZArith Lia Ascii String.
From stdpp Require Import base numbers list gmap strings.
From S2P Require Import Prelude.
From S2P Require Import GoStrings.
From S2P Require Import GoNumeric.
From S2P Require Import TurnCommand.
From S2P Require Import Runs.
From S2P Require Import CommandOutbox.
From S2P Require Import QuestionTypes.
From S2P Require Import QuestionStore.

Local Open Scope string_scope.
Local Open Scope list_scope.
Local Open Scope Z_scope.

Record ReplyResolution (E : Type) := mkResolution {
  rr_Record : QuestionRecord; rr_Continuation : option E; rr_Matched : bool; rr_Settled : bool; rr_Invalid : bool;
  rr_Inactive : bool }.
Arguments mkResolution {E}.
Arguments rr_Record {E}.
Arguments rr_Continuation {E}.
Arguments rr_Matched {E}.
Arguments rr_Settled {E}.
Arguments rr_Invalid {E}.

Record SessionResult := mkSessionResult {
  sr_QuestionID : string; sr_OptionID : string; sr_Text : string; sr_Source : string; sr_AnsweredBy : UserRef;
  sr_TimedOut : bool; sr_Canceled : bool }.

Section service.
  Context `{ActorMessages} {W : Type} (S : question_env W).
#[local] Notation step := (q_step S).

(** ** Ports *)
Definition dispatch (env : Envelope) : qrun (option DispatchReceipt) :=
  step (λ n w, let '(outer, answer) := qe_dispatch S n env (qw_outer w) in
               (mkQuestionWorld (qw_rows w) outer (qw_cursor w)
                  (qw_dispatched w ++ match answer with Done (Some _) => [env] | _ => [] end) (qw_cleared w) (qw_calls w), answer)).

Definition ClearQuestionControls (request : ControlClearRequest) : qrun unit :=
  match qe_controls S with
  | None => mret tt
  | Some clear =>
      step (λ n w, match clear n request with
                   | Ok _ => (mkQuestionWorld (qw_rows w) (qw_outer w) (qw_cursor w) (qw_dispatched w) (qw_cleared w ++ [request]) (qw_calls w),
                              Done tt)
                   | Err e => (w, Failed e)
                   end)
  end.

(** ** Asking *)
Definition bind_archive (interaction : InteractionContext) (resume : ResumeTarget) : qrun InteractionContext :=
  match qe_archive S with
  | None => mret interaction
  | Some archive => step (λ n, lift (BindQuestion (archive n) interaction resume))
  end.

Definition new_question (questionID : string) (t : Z) (interaction : InteractionContext) (resume : ResumeTarget) (req : Request) : QuestionRecord :=
  let sessionID := TrimSpace (ic_SessionID interaction) in
  let '(kind, key) := normalizedResumeTarget sessionID (rt_To resume) in
  mkQuestion false false questionID sessionID (firstNonEmpty [ic_ChannelKind interaction; loc_ChannelType (ic_Locator interaction)])
    (TrimSpace (loc_AddressKey (ic_Locator interaction))) (TrimSpace (loc_AddressJSON (ic_Locator interaction)))
    (TrimSpace (rq_Prompt req)) StatusPending (JsonOf (json_interaction interaction)) (JsonOf (json_resume resume)) kind key
    (JsonOf (json_request req)) NoJson NoJson "" "" 0 "" "" "" (if 0 <? rq_Timeout req then t + rq_Timeout req else 0) 0 0 t t.

Definition schedule_timeout (interaction : InteractionContext) (record : QuestionRecord) : qrun unit :=
  match qe_scheduled S with
  | Some upsert =>
      if qr_ExpiresAt record =? 0 then mret tt
      else step (λ n, lift (upsert n (mkTimeoutJob ("question-timeout-" +:+ qr_QuestionID record)
                                        (TrimSpace (loc_SessionID (ic_Locator interaction)))
                                        (TrimSpace (loc_ChannelType (ic_Locator interaction)))
                                        (TrimSpace (loc_AddressKey (ic_Locator interaction)))
                                        (TrimSpace (loc_AddressJSON (ic_Locator interaction)))
                                        (TrimSpace (qr_QuestionID record)) (qr_ExpiresAt record))))
  | None => mret tt
  end.

Definition Ask (interaction : InteractionContext) (resume : ResumeTarget) (req : Request) : qrun QuestionRecord :=
  _ ← lift (reject_if (negb (filled (ic_SessionID interaction))) (ErrText "interaction session_id is required"));
  _ ← lift (reject_if (negb (filled (loc_SessionID (ic_Locator interaction)))) (ErrText "interaction locator session_id is required"));
  _ ← lift (reject_if (negb (filled (rq_Prompt req))) (ErrText "question prompt is required"));
  _ ← lift (reject_if (negb (filled (rt_To resume))) (ErrText "resume target is required"));
  interaction ← bind_archive interaction resume;
  uuid ← q_uuid S;
  t ← q_now S;
  let record := new_question ("question-" +:+ uuid) t interaction resume req in
  _ ← CreatePendingQuestion S record;
  _ ← schedule_timeout interaction record;
  mret record.

(** ** Controls *)
Definition publishControlCleanup (record : QuestionRecord) : qrun unit :=
  if bool_decide (qe_controls S = None) || negb (filled (qr_ProviderMessageID record)) then mret tt
  else
    interaction ← q_wrapped "decode question interaction for control cleanup" (lift (Unmarshal zero_interaction (qr_InteractionJSON record)));
    ClearQuestionControls (mkControlClear (TrimSpace (qr_QuestionID record)) (ic_Locator interaction)
      (TrimSpace (qr_ProviderMessageID record)) (TrimSpace (qr_ControlHandle record)) (selectedAnswerText (qr_AnswerJSON record))).

Definition clearControls (record : QuestionRecord) : qrun unit :=
  if answered record && (qr_AnswerContinuationPending record || negb (qr_AnswerControlsPending record)) then mret tt
  else _ ← try (publishControlCleanup record); mret tt.

Definition BindDelivery (questionID : string) (ref : DeliveryRef) : qrun unit :=
  _ ← lift (reject_if (negb (filled questionID)) (ErrText "question id is required"));
  _ ← BindQuestionDeliveryRef S questionID ref;
  found ← GetQuestionByID S (TrimSpace questionID);
  match found with
  | None => mret tt
  | Some record => if pending record then mret tt else clearControls record
  end.

(** ** Answering *)
Definition unmatched : ReplyResolution Envelope := mkResolution zero_question None false false false false.
Definition matched (record : QuestionRecord) (settled invalid : bool) : ReplyResolution Envelope :=
  mkResolution record None true settled invalid false.
Definition settled_with (record : QuestionRecord) (continuation : result Envelope) : ReplyResolution Envelope * option error :=
  match continuation with
  | Ok env => (mkResolution record (Some env) true true false false, None)
  | Err e => (matched record true false, Some e)
  end.

Definition replayAnsweredReply (record : QuestionRecord) (in_ : InboundReply) : ReplyResolution Envelope * option error :=
  let not_matched := (mkResolution record None false false false false, None) in
  if negb (answered record) || negb (filled (ir_MessageID in_)) then not_matched
  else
    match Unmarshal zero_answer (qr_AnswerJSON record) with
    | Err e => (matched record false false, Some (ErrWrap "decode question answer" e))
    | Ok answer =>
        if negb (bool_decide (TrimSpace (an_ProviderMsgID answer) = TrimSpace (ir_MessageID in_))) ||
           negb (bool_decide (TrimSpace (us_UserID (an_AnsweredBy answer)) = TrimSpace (us_UserID (ir_User in_))))
        then not_matched
        else settled_with record (answeredContinuation record)
    end.

(** A reply in a shared thread must not be older than the question. *)
Definition stale_reply (record : QuestionRecord) (in_ : InboundReply) : bool :=
  ir_SharedReplyRef in_ &&
  ((ir_ProviderCreatedAt in_ =? 0) || (qr_ProviderCreatedAt record =? 0) || (ir_ProviderCreatedAt in_ <? qr_ProviderCreatedAt record)).

Definition record_answer (record : QuestionRecord) (in_ : InboundReply) : qrun unit :=
  match qe_archive S with
  | None => mret tt
  | Some archive =>
      interaction ← lift (Unmarshal zero_interaction (qr_InteractionJSON record));
      step (λ n, lift (RecordAnswer (archive n) interaction (qr_QuestionID record) in_))
  end.

(** What the checks before an answer decide: the selected option, or the reply's outcome. *)
Definition check_reply (record : QuestionRecord) (in_ : InboundReply) : (ReplyResolution Envelope * option error) + string :=
  match decodeRequest record with
  | Err e => inl (matched record false false, Some (ErrWrap "decode question request" e))
  | Ok request =>
      match responderAllowed record request (ir_User in_) with
      | Err e => inl (matched record false false, Some e)
      | Ok allowed =>
          if negb allowed || stale_reply record in_ then inl (matched record false true, None)
          else match selectedOption request (ir_Text in_) with
               | None => inl (matched record false true, None)
               | Some selected => inr selected
               end
      end
  end.

Definition ResolveReplyDetailed (in_ : InboundReply) : qrun (ReplyResolution Envelope * option error) :=
  found ← try (GetQuestionByReplyRef S (TrimSpace (ir_Provider in_)) (TrimSpace (ir_ConversationKey in_)) (TrimSpace (ir_ReplyToMessageID in_)));
  match found with
  | Err e => mret (unmatched, Some e)
  | Ok None => mret (unmatched, None)
  | Ok (Some record) =>
      if negb (pending record) then mret (replayAnsweredReply record in_)
      else match check_reply record in_ with
      | inl outcome => mret outcome
      | inr selected =>
          t ← q_now S;
          let answer := mkAnswer (TrimSpace (ir_Text in_)) selected (ir_User in_) (zeroOrNow (ir_ReceivedAt in_) t) (TrimSpace (ir_MessageID in_)) in
          archived ← try (record_answer record in_);
          match archived with
          | Err e => mret (matched record false false, Some e)
          | Ok _ =>
              marked ← try (MarkQuestionAnswered S (qr_QuestionID record) answer);
              match marked with
              | Err e => mret (matched zero_question false false, Some e)
              | Ok (updated, true) => _ ← clearControls updated; mret (settled_with updated (answeredContinuation updated))
              | Ok (updated, false) =>
                  if answered updated then mret (replayAnsweredReply updated in_) else mret (matched updated false false, None)
              end
          end
      end
  end.

Definition inactive (record : QuestionRecord) : ReplyResolution Envelope := mkResolution record None true false false true.
Definition replayAnsweredSelection (record : QuestionRecord) (in_ : InboundSelection) (choice : Option) : ReplyResolution Envelope * option error :=
  if negb (answered record) then (inactive record, None)
  else match Unmarshal zero_answer (qr_AnswerJSON record) with
       | Err e => (inactive record, Some (ErrWrap "decode question answer" e))
       | Ok answer =>
           if negb (bool_decide (TrimSpace (an_SelectedOption answer) = TrimSpace (op_ID choice))) ||
              negb (bool_decide (TrimSpace (us_UserID (an_AnsweredBy answer)) = TrimSpace (us_UserID (sl_User in_))))
           then (inactive record, None)
           else settled_with record (answeredContinuation record)
       end.

Definition check_selection (record : QuestionRecord) (in_ : InboundSelection) : (ReplyResolution Envelope * option error) + Option :=
  match decodeRequest record with
  | Err e => inl (matched record false false, Some (ErrWrap "decode question request" e))
  | Ok request =>
      match responderAllowed record request (sl_User in_) with
      | Err e => inl (matched record false false, Some e)
      | Ok false => inl (matched record false true, None)
      | Ok true =>
          match selectedStructuredOption request (sl_OptionID in_) (sl_OptionIndex in_) with
          | None => inl (matched record false true, None)
          | Some choice => inr choice
          end
      end
  end.

Definition ResolveSelectionDetailed (in_ : InboundSelection) : qrun (ReplyResolution Envelope * option error) :=
  found ← try (GetQuestionByID S (TrimSpace (sl_QuestionID in_)));
  match found with
  | Err e => mret (unmatched, Some e)
  | Ok None => mret (unmatched, None)
  | Ok (Some record) =>
      if negb (selectionContextMatches record in_) then mret (matched record false true, None)
      else if negb (pending record) && negb (answered record) then
        _ ← clearControls record; mret (inactive record, None)
      else match check_selection record in_ with
      | inl outcome => mret outcome
      | inr choice =>
          if answered record then _ ← clearControls record; mret (replayAnsweredSelection record in_ choice)
          else
            t ← q_now S;
            let answer := mkAnswer (TrimSpace (op_Label choice)) (TrimSpace (op_ID choice)) (sl_User in_) (zeroOrNow (sl_ReceivedAt in_) t)
                            (TrimSpace (sl_ProviderMessageID in_)) in
            marked ← try (MarkQuestionAnswered S (qr_QuestionID record) answer);
            match marked with
            | Err e => mret (matched zero_question false false, Some e)
            | Ok (updated, _) => _ ← clearControls updated; mret (replayAnsweredSelection updated in_ choice)
            end
      end
  end.

(** ** The other ends of a question *)
Definition Timeout_ (questionID : string) (timedOutAt : Z) : qrun (QuestionRecord * bool) :=
  t ← q_now S;
  marked ← MarkQuestionTimedOut S (TrimSpace questionID) (zeroOrNow timedOutAt t);
  let '(record, settled) := marked in
  _ ← (if settled || negb (pending record) then clearControls record else mret tt);
  mret (record, settled).

Definition DeliveryState (questionID : string) : qrun (option string) :=
  found ← GetQuestionByID S (TrimSpace questionID);
  mret (qr_Status <$> found).

Definition FailedDeliveryContinuation (questionID : string) : qrun (option Envelope) :=
  found ← GetQuestionByID S (TrimSpace questionID);
  match found with
  | Some record =>
      if bool_decide (qr_Status record = StatusFailed)
      then uuid ← q_uuid S; env ← lift (failedEnvelopeFromRecord uuid record); mret (Some env)
      else mret None
  | None => mret None
  end.

Definition FailDelivery (questionID : string) (failure : Failure) : qrun (option Envelope) :=
  t ← q_now S;
  let failure := mkFailure (fl_Code failure) (fl_Message failure) (zeroOrNow (fl_FailedAt failure) t) in
  marked ← MarkQuestionFailed S (TrimSpace questionID) failure;
  let '(record, settled) := marked in
  if negb settled && negb (bool_decide (qr_Status record = StatusFailed)) then mret None
  else
    failure ← (if negb settled && negb (json_blank (qr_FailureJSON record))
               then q_wrapped "decode question failure" (lift (Unmarshal zero_failure (qr_FailureJSON record)))
               else mret failure);
    uuid ← q_uuid S;
    env ← lift (failedEnvelopeFromRecordWithFailure uuid record failure);
    mret (Some env).

(** The wait of a session question ends by its timer or its context. *)
Definition sessionTimeoutResult (questionID : string) : qrun (SessionResult * option error) :=
  t ← q_now S;
  timed ← try (Timeout_ questionID t);
  let over := mkSessionResult questionID "" "" "timeout" no_user true true in
  match timed with
  | Err e => mret (over, Some e)
  | Ok (record, settled) =>
      if json_blank (qr_AnswerJSON record) then mret (over, None)
      else match Unmarshal zero_answer (qr_AnswerJSON record) with
           | Err _ => mret (over, None)
           | Ok answer =>
               if settled || filled (an_SelectedOption answer) || filled (an_Text answer)
               then mret (mkSessionResult questionID (TrimSpace (an_SelectedOption answer)) (TrimSpace (an_Text answer)) "user"
                            (an_AnsweredBy answer) false false, None)
               else mret (over, None)
           end
  end.

(** The scheduled job of a question's timeout, once its content is decoded. *)
Definition handleScheduledQuestionTimeout (questionID : string) : qrun bool :=
  t ← q_now S;
  timed ← Timeout_ questionID t;
  let '(record, settled) := timed in
  if negb settled then mret true
  else
    interaction ← q_wrapped "decode timed out question interaction" (lift (Unmarshal zero_interaction (qr_InteractionJSON record)));
    resume ← q_wrapped "decode timed out question resume" (lift (Unmarshal zero_resume (qr_ResumeJSON record)));
    uuid ← q_uuid S;
    env ← lift (TimedOutEnvelope uuid resume interaction (qr_QuestionID record) (qr_AnsweredAt record));
    _ ← dispatch env;
    mret true.

(** ** Recovering answers *)
Definition AnsweredContinuation (questionID : string) : qrun (option Envelope) :=
  found ← GetQuestionByID S questionID;
  match found with
  | Some record =>
      if answered record && qr_AnswerContinuationPending record
      then env ← lift (answeredContinuation record); mret (Some env)
      else mret None
  | None => mret None
  end.

Definition ref_of (record : QuestionRecord) : DeliveryRef :=
  mkDeliveryRef (qr_Provider record) (qr_ConversationKey record) 0 (qr_ProviderMessageID record) "" (qr_ControlHandle record).

Definition ConfirmAnswerAdmission (questionID : string) : qrun unit :=
  found ← GetQuestionByID S questionID;
  match found with
  | Some record =>
      if negb (answered record) then mret tt
      else
        _ ← (if qr_AnswerContinuationPending record then MarkQuestionAnswerAdmitted S questionID else mret tt);
        if negb (qr_AnswerControlsPending record) then mret tt
        else
          _ ← publishControlCleanup record;
          MarkQuestionAnswerControlsCleared S questionID (ref_of record)
  | None => mret tt
  end.

(** [Runner.admit] *)
Definition recover_answer (id : string) : qrun unit :=
  found ← AnsweredContinuation id;
  _ ← match found with
      | Some env =>
          receipt ← dispatch env;
          match receipt with None => fail (ErrText "question continuation admission returned no receipt") | Some _ => mret tt end
      | None => mret tt
      end;
  ConfirmAnswerAdmission id.

Definition set_cursor (cursor : string) : run (question_world W) unit := λ w,
  (mkQuestionWorld (qw_rows w) (qw_outer w) cursor (qw_dispatched w) (qw_cleared w) (qw_calls w), Done tt).

Definition batch : Z := 32.
(** The failures are joined into the error [Flush] returns. *)
Fixpoint recover_all (ids : list string) (failures : list error) : qrun (list error) :=
  match ids with
  | [] => mret failures
  | id :: ids =>
      err ← q_ctx_Err S;
      match err with
      | Some err => fail err
      | None =>
          _ ← set_cursor id;
          recovered ← try (recover_answer id);
          recover_all ids (match recovered with Ok _ => failures | Err e => failures ++ [ErrWrap ("question " +:+ id) e] end)
      end
  end.

Definition FlushAnswers : qrun (list error) :=
  ids ← (λ w, PendingQuestionAnswerIDs S (qw_cursor w) batch w);
  failures ← recover_all ids [];
  _ ← (if Zlength ids <? batch then set_cursor "" else mret tt);
  mret failures.
End service.
