(* ===== verification/QuestionSpec.v ===== *)
(** * QuestionSpec: what the questions promise

    The moves any goroutine may make on the table of questions, what holds after any of
    them, and how a row may change.  [QuestionRuns] shows that every operation makes
    only these moves. *)

From Stdlib Require Import ZArith Lia String.
From stdpp Require Import base numbers list gmap sets strings relations.
From S2P Require Import Prelude.
From S2P Require Import GoStrings.
From S2P Require Import Runs.
From S2P Require Import CommandOutbox.
From S2P Require Import QuestionTypes.
From S2P Require Import QuestionStore.

Local Open Scope string_scope.
Local Open Scope list_scope.
Local Open Scope Z_scope.

(** ** What the questions rely on of the admission of commands *)
Class Admission `{ActorLayer} (W : Type) := mkAdmission {
  outer_ok : W → Prop;
  outer_step : relation W;
  durable : W → Envelope → Prop;
  outer_ok_step : ∀ o o', outer_ok o → outer_step o o' → outer_ok o' }.

Lemma outer_ok_steps `{Admission W} (o o' : W) : outer_ok o → rtc outer_step o o' → outer_ok o'.
Proof. intros Hok Hs. induction Hs; [done|]. eauto using outer_ok_step. Qed.

(** ** Rows *)
Definition valid_choice (request : Request) (answer : Answer) : Prop :=
  (∃ o, o ∈ rq_Options request ∧ an_SelectedOption answer = TrimSpace (op_ID o)) ∨
  (an_SelectedOption answer = "" ∧ rq_AllowFreeText request = true ∧ TrimSpace (an_Text answer) ≠ "").
(** The answer of somebody who may answer, with something the question offers. *)
Definition authorised (r : QuestionRecord) (answer : Answer) : Prop :=
  ∃ request, decodeRequest r = Ok request ∧ responderAllowed r request (an_AnsweredBy answer) = Ok true ∧ valid_choice request answer.

Lemma pending_true r : pending r = true ↔ qr_Status r = StatusPending.
Proof. apply bool_decide_eq_true. Qed.
Lemma answered_true r : answered r = true ↔ qr_Status r = StatusAnswered.
Proof. apply bool_decide_eq_true. Qed.

(** What never changes, and what never changes once the question is settled. *)
Record later (r r' : QuestionRecord) : Prop := mkLater {
  lt_id : qr_QuestionID r' = qr_QuestionID r;
  lt_interaction : qr_InteractionJSON r' = qr_InteractionJSON r;
  lt_resume : qr_ResumeJSON r' = qr_ResumeJSON r;
  lt_request : qr_RequestJSON r' = qr_RequestJSON r;
  lt_status : qr_Status r ≠ StatusPending → qr_Status r' = qr_Status r;
  lt_answer : qr_Status r ≠ StatusPending → qr_AnswerJSON r' = qr_AnswerJSON r;
  lt_failure : qr_Status r ≠ StatusPending → qr_FailureJSON r' = qr_FailureJSON r;
  lt_released : qr_Status r ≠ StatusPending → qr_AnswerContinuationPending r = false → qr_AnswerContinuationPending r' = false }.

Lemma later_refl r : later r r.
Proof. by split. Qed.
Lemma later_trans r1 r2 r3 : later r1 r2 → later r2 r3 → later r1 r3.
Proof.
  intros [A1 A2 A3 A4 A5 A6 A7 A8] [B1 B2 B3 B4 B5 B6 B7 B8]. split; try congruence; intros Hp.
  - rewrite B5 by (by rewrite A5). by apply A5.
  - rewrite B6 by (by rewrite A5). by apply A6.
  - rewrite B7 by (by rewrite A5). by apply A7.
  - intros Hc. apply B8; [by rewrite A5|]. by apply A8.
Qed.

Section spec.
  Context `{ActorMessages} {W : Type} `{!Admission W}.
  Implicit Types (w : question_world W) (r : QuestionRecord).

(** The request that removes the controls the row shows. *)
Definition clears (request : ControlClearRequest) r : Prop :=
  cc_QuestionID request = TrimSpace (qr_QuestionID r) ∧ cc_ProviderMessageID request = TrimSpace (qr_ProviderMessageID r) ∧
  cc_ControlHandle request = TrimSpace (qr_ControlHandle r).
Definition controls_gone w r : Prop :=
  TrimSpace (qr_ProviderMessageID r) ≠ "" → ∃ request, request ∈ qw_cleared w ∧ clears request r.

(** ** Moves *)
Inductive row_move w : relation QuestionRecord :=
  | rm_answer r answer t : qr_Status r = StatusPending → authorised r answer →
      row_move w r (with_answer (JsonOf (json_answer answer)) t r)
  | rm_timeout r t : qr_Status r = StatusPending → row_move w r (timed_out t r)
  | rm_fail r failure t : qr_Status r = StatusPending → row_move w r (with_failure failure t r)
  | rm_bind r ref t : row_move w r (bound_row ref t r)
  | rm_release r env t : qr_Status r = StatusAnswered → answeredContinuation r = Ok env → env ∈ qw_dispatched w →
      row_move w r (with_markers false (qr_AnswerControlsPending r) t r)
  | rm_clear r t : qr_AnswerContinuationPending r = false → (qr_Status r = StatusAnswered → controls_gone w r) →
      row_move w r (with_markers false false t r).

Inductive question_move : relation (question_world W) :=
  | qm_local w cursor calls :
      question_move w (mkQuestionWorld (qw_rows w) (qw_outer w) cursor (qw_dispatched w) (qw_cleared w) calls)
  | qm_outer w outer : outer_step (qw_outer w) outer →
      question_move w (mkQuestionWorld (qw_rows w) outer (qw_cursor w) (qw_dispatched w) (qw_cleared w) (qw_calls w))
  | qm_dispatched w env : durable (qw_outer w) env →
      question_move w (mkQuestionWorld (qw_rows w) (qw_outer w) (qw_cursor w) (qw_dispatched w ++ [env]) (qw_cleared w) (qw_calls w))
  | qm_cleared w request :
      question_move w (mkQuestionWorld (qw_rows w) (qw_outer w) (qw_cursor w) (qw_dispatched w) (qw_cleared w ++ [request]) (qw_calls w))
  | qm_row w r r' : qw_rows w !! qr_QuestionID r = Some r → row_move w r r' →
      question_move w (set_rows (<[qr_QuestionID r := r']>) w)
  | qm_create w r : qw_rows w !! qr_QuestionID r = None → TrimSpace (qr_QuestionID r) = qr_QuestionID r →
      qr_Status r = StatusPending → qr_AnswerContinuationPending r = false → qr_AnswerControlsPending r = false →
      question_move w (set_rows (<[qr_QuestionID r := r]>) w).

(** ** Invariant *)
Record row_ok w r : Prop := mkRowOk {
  ro_answered : qr_Status r = StatusAnswered → ∃ answer, qr_AnswerJSON r = JsonOf (json_answer answer) ∧ authorised r answer;
  ro_released : qr_Status r = StatusAnswered → qr_AnswerContinuationPending r = false →
    ∃ env, answeredContinuation r = Ok env ∧ env ∈ qw_dispatched w;
  ro_controls : qr_Status r = StatusAnswered → qr_AnswerControlsPending r = false →
    qr_AnswerContinuationPending r = false ∧ controls_gone w r;
  ro_unanswered : qr_Status r ≠ StatusAnswered → qr_AnswerContinuationPending r = false ∧ qr_AnswerControlsPending r = false }.

Record question_ok w : Prop := mkQuestionOk {
  qo_key : ∀ id r, qw_rows w !! id = Some r → qr_QuestionID r = id ∧ TrimSpace id = id;
  qo_row : ∀ id r, qw_rows w !! id = Some r → row_ok w r;
  qo_outer : outer_ok (qw_outer w);
  qo_dispatched : ∀ env, env ∈ qw_dispatched w → ∃ o, durable o env ∧ outer_ok o ∧ rtc outer_step o (qw_outer w) }.

Lemma answeredContinuation_later r r' : later r r' → qr_Status r = StatusAnswered → answeredContinuation r' = answeredContinuation r.
Proof.
  intros [Eid Ei Er _ _ Ea _ _] Hs. unfold answeredContinuation. by rewrite Eid, Ei, Er, Ea by (by rewrite Hs).
Qed.
Lemma authorised_later r r' answer : later r r' → authorised r answer → authorised r' answer.
Proof.
  intros [_ Ei _ Eq _ _ _ _] (request & Hd & Ha & Hv). exists request. unfold decodeRequest, responderAllowed in *.
  by rewrite Ei, Eq.
Qed.

Lemma row_move_later w r r' : row_move w r r' → later r r'.
Proof. destruct 1; split; cbn; try done; intros; congruence. Qed.

Lemma row_move_ok w r r' : row_ok w r → row_move w r r' → row_ok w r'.
Proof.
  intros Hok Hm. pose proof (row_move_later _ _ _ Hm) as Hl. destruct Hok as [H1 H2 H3 H4].
  destruct Hm as [r answer t Hp Ha|r t Hp|r failure t Hp|r ref t|r env t Hs He Hin|r t Hc Hg].
  - split; cbn; try done. intros _. exists answer. split; [done|]. by apply (authorised_later r).
  - split; cbn; try done. intros _. apply H4. by rewrite Hp.
  - split; cbn; try done. intros _. apply H4. by rewrite Hp.
  - assert (Hb : qr_AnswerControlsPending (bound_row ref t r) = false → qr_Status r = StatusAnswered →
              qr_AnswerControlsPending r = false ∧ controls_gone w (bound_row ref t r)).
    { unfold bound_row. cbn. intros Hb Hs. unfold answered in Hb. rewrite (bool_decide_eq_true_2 _ Hs) in Hb. cbn in Hb.
      destruct (_ || _ || _ || _) eqn:Hmoved in Hb; [done|]. split; [done|]. rewrite !orb_false_iff, !negb_false_iff in Hmoved.
      destruct Hmoved as [[[E1%bool_decide_eq_true_1 E2%bool_decide_eq_true_1] E3%bool_decide_eq_true_1] E4%bool_decide_eq_true_1].
      destruct (H3 Hs Hb) as [_ Hg]. unfold controls_gone, clears in *. cbn. by rewrite <-E3, <-E4. }
    split.
    + intros Hs. destruct (H1 Hs) as (answer & E & Ha). exists answer. split; [done|]. by apply (authorised_later r).
    + intros Hs Hc. destruct (H2 Hs Hc) as (env & E & Hin). by exists env.
    + intros Hs Hb'. destruct (Hb Hb' Hs) as [Hb'' Hg]. by destruct (H3 Hs Hb'').
    + intros Hs. destruct (H4 Hs) as [? Hc]. split; [done|]. unfold bound_row. cbn.
      destruct (answered r) eqn:Ha; [by apply bool_decide_eq_true_1 in Ha|]. done.
  - split; cbn; try done; [by eauto|]. intros Hs' Hc. by destruct (H3 Hs' Hc) as [_ Hg].
  - split; cbn; try done; intros Hs _; [by apply H2 | split; [done | by apply Hg]].
Qed.

Lemma move_dispatched w w' : question_move w w' → ∃ l, qw_dispatched w' = qw_dispatched w ++ l.
Proof. destruct 1; cbn; try (exists []; by rewrite app_nil_r). by eexists. Qed.
Lemma move_cleared w w' : question_move w w' → ∃ l, qw_cleared w' = qw_cleared w ++ l.
Proof. destruct 1; cbn; try (exists []; by rewrite app_nil_r). by eexists. Qed.
Lemma move_outer w w' : question_move w w' → rtc outer_step (qw_outer w) (qw_outer w').
Proof. destruct 1; cbn; try done. by apply rtc_once. Qed.

Lemma row_ok_move w w' r : question_move w w' → row_ok w r → row_ok w' r.
Proof.
  intros Hm [H1 H2 H3 H4]. destruct (move_dispatched _ _ Hm) as (ld & Ed). destruct (move_cleared _ _ Hm) as (lc & Ec).
  assert (Hg : controls_gone w r → controls_gone w' r).
  { intros Hg Hf. destruct (Hg Hf) as (request & ? & ?). exists request. rewrite Ec, elem_of_app. auto. }
  split; [done| | |done].
  - intros Hs Hc. destruct (H2 Hs Hc) as (env & ? & ?). exists env. rewrite Ed, elem_of_app. auto.
  - intros Hs Hc. destruct (H3 Hs Hc). auto.
Qed.

Lemma ok_question_move w w' : question_ok w → question_move w w' → question_ok w'.
Proof.
  intros [Hk Hr Ho Hd] Hm.
  assert (Ho' : outer_ok (qw_outer w')) by (eapply outer_ok_steps; [exact Ho | by apply move_outer]).
  assert (Hd' : ∀ env, env ∈ qw_dispatched w' → ∃ o, durable o env ∧ outer_ok o ∧ rtc outer_step o (qw_outer w')).
  { intros env Hin. assert (env ∈ qw_dispatched w ∨ durable (qw_outer w') env) as [Hin'|Hdur].
    { destruct Hm; cbn in *; try (by left). apply elem_of_app in Hin as [?| ->%list_elem_of_singleton]; [by left|by right]. }
    - destruct (Hd env Hin') as (o & ? & ? & Hs). exists o. split_and!; [done..|]. etrans; [exact Hs|]. by apply move_outer.
    - by exists (qw_outer w'). }
  pose proof (λ r, row_ok_move w w' r Hm) as Hkeep.
  split; [| |exact Ho'|exact Hd'].
  - intros id r' E. destruct Hm as [| | | |w r0 r1 E0 Hrm|w r0 E0 Ht Hs]; cbn in E; try (by apply Hk).
    + apply lookup_insert_Some in E as [[<- <-]|[_ E]]; [|by apply Hk]. destruct (Hk _ _ E0) as [_ ?].
      split; [|done]. by apply (lt_id _ _ (row_move_later _ _ _ Hrm)).
    + apply lookup_insert_Some in E as [[<- <-]|[_ E]]; [done|by apply Hk].
  - intros id r' E. destruct Hm as [| | | |w r0 r1 E0 Hrm|w r0 E0 Ht Hs Hc Hb]; cbn in E; try (by eapply Hkeep, Hr).
    + apply lookup_insert_Some in E as [[<- <-]|[_ E]]; [|by eapply Hkeep, Hr]. apply Hkeep. by eapply row_move_ok; [eapply Hr|].
    + apply lookup_insert_Some in E as [[<- <-]|[_ E]]; [|by eapply Hkeep, Hr]. apply Hkeep. split; [| | |done]; by rewrite Hs.
Qed.

Lemma ok_question_moves w w' : question_ok w → rtc question_move w w' → question_ok w'.
Proof. intros Hok Hs. induction Hs; [done|]. eauto using ok_question_move. Qed.

(** ** What is known of a row *)
Definition known r w : Prop := ∃ r', qw_rows w !! qr_QuestionID r = Some r' ∧ later r r'.

Lemma known_move r w w' : question_move w w' → known r w → known r w'.
Proof.
  intros Hm (r1 & E & Hl). destruct Hm as [| | | |w r0 r0' E0 Hrm|w r0 E0 Ht Hs]; cbn in *; try (by exists r1).
  - destruct (decide (qr_QuestionID r0 = qr_QuestionID r)) as [Eq|Hne].
    + exists r0'. cbn. rewrite <-Eq, lookup_insert_eq. split; [done|]. rewrite Eq, E in E0. injection E0 as <-.
      eapply later_trans; [exact Hl|]. by eapply row_move_later.
    + exists r1. cbn. by rewrite lookup_insert_ne.
  - exists r1. cbn. rewrite lookup_insert_ne; [done|congruence].
Qed.

Lemma known_moves r w w' : rtc question_move w w' → known r w → known r w'.
Proof. intros Hs. induction Hs; eauto using known_move. Qed.

Lemma known_row w r : qw_rows w !! qr_QuestionID r = Some r → known r w.
Proof. intros E. exists r. split; [done|apply later_refl]. Qed.
End spec.
