(* ===== verification/QuestionRuns.v ===== *)
(** * QuestionRuns: every operation on the questions makes only the moves of [QuestionSpec]

    [does P m Q]: from a state that is well formed and satisfies [P], the run [m] makes
    only moves, whoever acts between its steps, and if it returns a value [Q] holds. *)

From Stdlib Require Import ZArith Lia String.
From stdpp Require Import base numbers list gmap sets strings relations.
From S2P Require Import Prelude.
From S2P Require Import GoStrings.
From S2P Require Import GoParse.
From S2P Require Import Runs.
From S2P Require Import CommandOutbox.
From S2P Require Import QuestionTypes.
From S2P Require Import QuestionStore.
From S2P Require Import Questions.
From S2P Require Import QuestionSpec.

Local Open Scope string_scope.
Local Open Scope list_scope.
Local Open Scope Z_scope.

Section runs.
  Context `{ActorMessages} {W : Type} `{!Admission W} (S : question_env W).
  Implicit Types (w : question_world W) (r record : QuestionRecord).

(** ** The surroundings of a call *)
Record question_env_ok : Prop := mkEnvOk {
  ev_others : ∀ n w, question_ok w → rtc question_move w (qe_others S n w);
  ev_uuid : ∀ n, TrimSpace ("question-" +:+ qe_uuid S n) = "question-" +:+ qe_uuid S n;
  ev_dispatch : ∀ n env o, outer_ok o →
    let '(o', answer) := qe_dispatch S n env o in
    rtc outer_step o o' ∧ ∀ receipt, answer = Done (Some receipt) → durable o' env;
  ev_controls : is_Some (qe_controls S) }.

(** ** Knowledge that stays true *)
Class Stable (P : question_world W → Prop) : Prop :=
  stays : ∀ w w', question_ok w → rtc question_move w w' → P w → P w'.

#[export] Instance const_stable (phi : Prop) : Stable (λ _, phi).
Proof. by intros w w' _ _. Qed.
#[export] Instance known_stable r : Stable (known r).
Proof. intros w w' _. apply known_moves. Qed.
#[export] Instance and_stable P Q : Stable P → Stable Q → Stable (λ w, P w ∧ Q w).
Proof. intros HP HQ w w' Hok Hm [Hp Hq]. split; [by eapply HP | by eapply HQ]. Qed.
#[export] Instance or_stable P Q : Stable P → Stable Q → Stable (λ w, P w ∨ Q w).
Proof. intros HP HQ w w' Hok Hm [Hp|Hq]; [left; by eapply HP | right; by eapply HQ]. Qed.
#[export] Instance exist_stable {A} (P : A → question_world W → Prop) : (∀ a, Stable (P a)) → Stable (λ w, ∃ a, P a w).
Proof. intros HP w w' Hok Hm [a Ha]. exists a. by eapply HP. Qed.
#[export] Instance forall_stable {A} (P : A → question_world W → Prop) : (∀ a, Stable (P a)) → Stable (λ w, ∀ a, P a w).
Proof. intros HP w w' Hok Hm Ha a. by eapply HP. Qed.
#[export] Instance impl_stable (phi : Prop) (P : question_world W → Prop) : Stable P → Stable (λ w, phi → P w).
Proof. intros HP w w' Hok Hm Ha Hp. eapply HP; eauto. Qed.
#[export] Instance dispatched_stable env : Stable (λ w, env ∈ qw_dispatched w).
Proof.
  intros w w' _ Hm. induction Hm as [|w1 w2 w3 Hs _ IH]; [done|]. intros Hin. apply IH.
  destruct (move_dispatched _ _ Hs) as (l & ->). rewrite elem_of_app. by left.
Qed.
#[export] Instance cleared_stable request : Stable (λ w, request ∈ qw_cleared w).
Proof.
  intros w w' _ Hm. induction Hm as [|w1 w2 w3 Hs _ IH]; [done|]. intros Hin. apply IH.
  destruct (move_cleared _ _ Hs) as (l & ->). rewrite elem_of_app. by left.
Qed.
#[export] Instance gone_stable r : Stable (λ w, controls_gone w r).
Proof. unfold controls_gone. apply _. Qed.

(** ** Rules *)
Definition does {A} (P : question_world W → Prop) (m : run (question_world W) A) (Q : A → question_world W → Prop) : Prop :=
  ∀ w, question_ok w → P w →
  let '(w', a) := m w in rtc question_move w w' ∧ match a with Done a => Q a w' | _ => True end.

Lemma does_ret {A} (P : question_world W → Prop) (a : A) (Q : A → question_world W → Prop) :
  (∀ w, question_ok w → P w → Q a w) → does P (mret a) Q.
Proof. intros HQ w Hok HP. split; [done|]. by apply HQ. Qed.
Lemma does_fail {A} (P : question_world W → Prop) e (Q : A → question_world W → Prop) : does P (fail e) Q.
Proof. by intros w Hok HP. Qed.
Lemma does_weaken {A} (P P' : question_world W → Prop) (m : run (question_world W) A) (Q Q' : A → question_world W → Prop) :
  (∀ w, question_ok w → P' w → P w) → (∀ a w, question_ok w → Q a w → Q' a w) → does P m Q → does P' m Q'.
Proof.
  intros HP HQ Hm w Hok Hp. specialize (Hm w Hok (HP w Hok Hp)). destruct (m w) as [w' [a| |]]; [|done..].
  destruct Hm as [Hs Ha]. split; [done|]. apply HQ; [by eapply ok_question_moves|done].
Qed.
Lemma does_since {A} (P P' : question_world W → Prop) (m : run (question_world W) A) (Q : A → question_world W → Prop) :
  does P m Q → (∀ w, question_ok w → P' w → P w) → does P' m Q.
Proof. intros Hm HP. by apply (does_weaken P P' m Q Q). Qed.
Lemma does_post {A} (P : question_world W → Prop) (m : run (question_world W) A) (Q Q' : A → question_world W → Prop) :
  does P m Q → (∀ a w, question_ok w → Q a w → Q' a w) → does P m Q'.
Proof. intros Hm HQ. by apply (does_weaken P P m Q Q'). Qed.
Lemma does_bind {A B} (P : question_world W → Prop) (m : run (question_world W) A) (Q : A → question_world W → Prop)
    (k : A → run (question_world W) B) (R : B → question_world W → Prop) :
  does P m Q → (∀ a, does (Q a) (k a) R) → does P (m ≫= k) R.
Proof.
  intros Hm Hk w Hok HP. specialize (Hm w Hok HP). unfold mbind, run_bind. destruct (m w) as [w1 [a|e|]]; [|done..].
  destruct Hm as [Hs HQ]. specialize (Hk a w1 (ok_question_moves _ _ Hok Hs) HQ). destruct (k a w1) as [w2 b].
  destruct Hk as [Hs2 HR]. split; [by etrans|done].
Qed.
Lemma does_pre {A} (phi : Prop) (P : question_world W → Prop) (m : run (question_world W) A) Q :
  (phi → does P m Q) → does (λ w, phi ∧ P w) m Q.
Proof. intros Hm w Hok [Hphi HP]. exact (Hm Hphi w Hok HP). Qed.
Lemma does_exist {A B} (P : B → question_world W → Prop) (m : run (question_world W) A) Q :
  (∀ b, does (P b) m Q) → does (λ w, ∃ b, P b w) m Q.
Proof. intros Hm w Hok [b HP]. exact (Hm b w Hok HP). Qed.
(** What stays true stays true, also when the run fails. *)
Lemma does_frame {A} (P R : question_world W → Prop) (m : run (question_world W) A) Q :
  Stable R → does P m Q → does (λ w, P w ∧ R w) m (λ a w, Q a w ∧ R w).
Proof.
  intros HR Hm w Hok [HP Hr]. specialize (Hm w Hok HP). destruct (m w) as [w' [a| |]]; [|done..].
  destruct Hm as [Hs HQ]. split; [done|]. split; [done|]. by eapply HR.
Qed.
Lemma does_keep {A} (R : question_world W → Prop) (m : run (question_world W) A) :
  Stable R → does (λ _, True) m (λ _ _, True) → does R m (λ _, R).
Proof.
  intros HR Hm. apply (does_weaken (λ w, True ∧ R w) R m (λ _ w, True ∧ R w)); [done|by intros a w _ [_ Hr]|by apply does_frame].
Qed.
Lemma does_try {A} (P : question_world W → Prop) (m : run (question_world W) A) (Q : A → question_world W → Prop) :
  Stable P → does P m Q → does P (try m) (λ a w, P w ∧ match a with Ok a => Q a w | Err _ => True end).
Proof.
  intros HP Hm w Hok Hp. pose proof (Hm w Hok Hp) as Hd. unfold try. destruct (m w) as [w' [a|e|]]; destruct Hd as [Hs HQ];
    (split; [done|]); [split; [by eapply HP|done]..|done].
Qed.
Lemma does_wrapped {A} (P : question_world W → Prop) message (m : run (question_world W) A) Q : does P m Q → does P (q_wrapped message m) Q.
Proof. intros Hm w Hok Hp. specialize (Hm w Hok Hp). unfold q_wrapped. by destruct (m w) as [w' [a|e|]]. Qed.
Lemma does_lift {A} (P : question_world W → Prop) (x : result A) : does P (lift x) (λ a w, x = Ok a ∧ P w).
Proof. intros w Hok Hp. by destruct x. Qed.

Section env.
  Context (HS : question_env_ok).

Lemma does_step {A} (P : question_world W → Prop) (f : nat → run (question_world W) A) Q :
  Stable P → (∀ n, does P (f n) Q) → does P (q_step S f) Q.
Proof.
  intros HP Hf w Hok Hp. unfold q_step. destruct (qe_died S (qw_calls w)); [done|].
  set (w0 := mkQuestionWorld _ _ _ _ _ _). assert (Hm0 : rtc question_move w w0) by apply rtc_once, qm_local.
  assert (Hm : rtc question_move w (qe_others S (qw_calls w) w0)).
  { etrans; [exact Hm0|]. apply (ev_others HS). by eapply ok_question_moves. }
  specialize (Hf (qw_calls w) _ (ok_question_moves _ _ Hok Hm) (HP _ _ Hok Hm Hp)).
  destruct (f _ _) as [w' a]. destruct Hf as [Hs Ha]. split; [by etrans|done].
Qed.
Lemma does_now P : Stable P → does P (q_now S) (λ _, P).
Proof. intros HP. apply does_step; [done|]. intros n. by apply does_ret. Qed.
Lemma does_ctx P : Stable P → does P (q_ctx_Err S) (λ _, P).
Proof. intros HP. apply does_step; [done|]. intros n. by apply does_ret. Qed.
Lemma does_uuid P : Stable P → does P (q_uuid S) (λ uuid w, TrimSpace ("question-" +:+ uuid) = "question-" +:+ uuid ∧ P w).
Proof. intros HP. apply does_step; [done|]. intros n. apply does_ret. intros w _ Hp. split; [apply (ev_uuid HS)|done]. Qed.

(** A row as some state on the way showed it. *)
Definition seen (P : question_world W → Prop) (key : string) r w : Prop :=
  ∃ w0, question_ok w0 ∧ P w0 ∧ qw_rows w0 !! key = Some r ∧ rtc question_move w0 w.
#[export] Instance seen_stable P key r : Stable (seen P key r).
Proof. intros w w' _ Hm (w0 & ? & ? & ? & ?). exists w0. split_and!; [done..|]. by etrans. Qed.

Lemma seen_now P key r w : question_ok w → P w → qw_rows w !! key = Some r → seen P key r w.
Proof. intros Hok HP E. by exists w. Qed.
Lemma seen_key P key r w : seen P key r w → qr_QuestionID r = key ∧ TrimSpace key = key.
Proof. intros (w0 & Hok & _ & E & _). by apply (qo_key _ Hok). Qed.
Lemma seen_known P key r w : seen P key r w → known r w.
Proof.
  intros Hs. pose proof (seen_key _ _ _ _ Hs) as [Ek _]. destruct Hs as (w0 & Hok & _ & E & Hm). eapply known_moves; [exact Hm|].
  apply known_row. by rewrite Ek.
Qed.
Lemma seen_ok P key r w : seen P key r w → ∃ w0, question_ok w0 ∧ P w0 ∧ row_ok w0 r.
Proof. intros (w0 & Hok & HP & E & _). exists w0. split_and!; [done..|]. by apply (qo_row _ Hok key). Qed.
Lemma seen_weaken (P P' : question_world W → Prop) key r w : (∀ w, P w → P' w) → seen P key r w → seen P' key r w.
Proof. intros HP (w0 & ? & ? & ? & ?). exists w0. eauto. Qed.
(** A row seen after something was known of it. *)
Lemma seen_later P key r0 r w : (∀ w, P w → known r0 w) → qr_QuestionID r0 = key → seen P key r w → later r0 r.
Proof. intros HP <- (w0 & _ & Hp & E & _). destruct (HP _ Hp) as (r' & E' & Hl). by simplify_eq. Qed.

Lemma does_query {A} (P : question_world W → Prop) (view : gmap string QuestionRecord → A) Q :
  Stable P → (∀ w, question_ok w → P w → Q (view (qw_rows w)) w) → does P (q_query S view) Q.
Proof.
  intros HP HQ. apply does_step; [done|]. intros n w Hok Hp. unfold read_fated.
  destruct (qe_fates S n); (split; [done|]); [by apply HQ|done..].
Qed.

Lemma does_exec (P : question_world W → Prop) key guard set_ :
  Stable P →
  (∀ w r, question_ok w → P w → qw_rows w !! key = Some r → guard r = true → row_move w r (set_ r)) →
  does P (q_exec S (update_where key guard set_))
    (λ affected w, P w ∧ (affected = 0 ∨ ∃ r, seen P key r w ∧ guard r = true ∧ known (set_ r) w)).
Proof.
  intros HP Hm. apply does_step; [done|]. intros n w Hok Hp. unfold update_where.
  assert (Hskip : rtc question_move w (set_rows (λ _, qw_rows w) w)) by (by destruct w).
  destruct (qw_rows w !! key) as [r|] eqn:E; [destruct (guard r) eqn:Hg|].
  - assert (Hs : rtc question_move w (set_rows (λ _, <[key := set_ r]> (qw_rows w)) w)).
    { apply rtc_once. destruct (qo_key _ Hok _ _ E) as [<- _]. apply (qm_row w r); [done|]. by apply Hm. }
    assert (Hpost : P (set_rows (λ _, <[key := set_ r]> (qw_rows w)) w) ∧
              ∃ r0, seen P key r0 (set_rows (λ _, <[key := set_ r]> (qw_rows w)) w) ∧ guard r0 = true ∧
                    known (set_ r0) (set_rows (λ _, <[key := set_ r]> (qw_rows w)) w)).
    { split; [by eapply HP|]. exists r. split_and!; [by exists w | done |].
      apply known_row. cbn. destruct (qo_key _ Hok _ _ E) as [Ek _].
      rewrite (lt_id _ _ (row_move_later w _ _ (Hm _ _ Hok Hp E Hg))), Ek. by rewrite lookup_insert_eq. }
    destruct (qe_fates S n); split; try done. destruct Hpost. auto.
  - destruct (qe_fates S n); split; try done; try exact Hskip. split; [by eapply HP|auto].
  - destruct (qe_fates S n); split; try done; try exact Hskip. split; [by eapply HP|auto].
Qed.

(** ** The store *)
Lemma does_get (P : question_world W → Prop) id : Stable P →
  does P (GetQuestionByID S id)
    (λ found w, P w ∧ match found with
                      | Some record => ∃ r, record = scanQuestion r ∧ seen P (TrimSpace id) r w
                      | None => ∃ w0, P w0 ∧ qw_rows w0 !! TrimSpace id = None
                      end).
Proof.
  intros HP. apply does_query; [done|]. intros w Hok Hp. split; [done|]. destruct (qw_rows w !! TrimSpace id) as [r|] eqn:E; cbn.
  - exists r. split; [done|]. by apply seen_now.
  - by exists w.
Qed.

(** A transition out of [pending]: the row returned, and what it means to have settled it. *)
Definition settled_by (P : question_world W → Prop) (key : string) (set_ : QuestionRecord → QuestionRecord) (p : QuestionRecord * bool) w : Prop :=
  (p.1 = zero_question ∧ p.2 = false ∨ ∃ r, p.1 = scanQuestion r ∧ seen P key r w) ∧
  (p.2 = true → ∃ r r', seen P key r w ∧ qr_Status r = StatusPending ∧ p.1 = scanQuestion r' ∧ later (set_ r) r' ∧ known r' w).

Lemma does_settle (P : question_world W → Prop) id set_ action : Stable P →
  (∀ w r, question_ok w → P w → qw_rows w !! TrimSpace id = Some r → qr_Status r = StatusPending → row_move w r (set_ r)) →
  does P (updateQuestionResolution S id set_ action) (λ p w, P w ∧ settled_by P (TrimSpace id) set_ p w).
Proof.
  intros HP Hm. unfold updateQuestionResolution. eapply does_bind.
  { apply does_wrapped, (does_exec P); [done|]. intros w r Hok Hp E Hg. apply Hm; [done..|]. by apply pending_true. }
  intros affected. cbv beta. eapply does_bind.
  { apply does_wrapped, (does_query _ (λ _, affected) (λ a w, a = affected ∧ P w ∧ (affected = 0 ∨
       ∃ r, seen P (TrimSpace id) r w ∧ pending r = true ∧ known (set_ r) w))); [apply _|]. by intros w _ ?. }
  intros a. cbv beta. apply does_pre. intros ->.
  eapply does_bind; [eapply does_get; apply _|]. intros found. apply does_ret. intros w Hok [[Hp Haff] Hf]. split; [done|].
  split.
  - destruct found as [record|]; cbn; [|left; split; [done|by rewrite andb_false_r]].
    right. destruct Hf as (r & -> & Hs). exists r. split; [done|]. eapply seen_weaken; [|exact Hs]. by intros w1 [? _].
  - cbn. intros [Ha Hs]%andb_true_iff. destruct found as [record|]; [|done]. destruct Hf as (r' & -> & w0 & Hok0 & [_ Hat] & E & Hs0).
    destruct Hat as [->|(r & Hr & Hg & Hk)]; [done|]. apply pending_true in Hg. exists r, r'.
    pose proof (seen_key _ _ _ _ Hr) as [Ek Ht]. destruct (qo_key _ Hok0 _ _ E) as [Ek' _].
    split_and!; [by eapply seen_stable|done..| |].
    + destruct Hr as (w1 & Hok1 & Hp1 & E1 & _). pose proof (row_move_later w1 _ _ (Hm _ _ Hok1 Hp1 E1 Hg)) as Hl.
      destruct Hk as (r2 & E2 & Hl2). rewrite (lt_id _ _ Hl), Ek, E in E2. by injection E2 as <-.
    + eapply known_moves; [exact Hs0|]. apply known_row. by rewrite Ek'.
Qed.
End env.
End runs.
