(* ===== verification/QuestionOperations.v ===== *)
(** * QuestionOperations: what each operation on the questions establishes

    One lemma per operation of [Questions]: its run makes only moves, and its result says
    what is in the table. *)

From Stdlib Require Import ZArith Lia String.
From stdpp Require Import base numbers list gmap sets strings relations sorting.
From S2P Require Import Prelude.
From S2P Require Import GoStrings.
From S2P Require Import GoNumeric.
From S2P Require Import GoParse.
From S2P Require GoTimeJson.
From S2P Require Import Runs.
From S2P Require Import CommandOutbox.
From S2P Require Import QuestionTypes.
From S2P Require Import QuestionStore.
From S2P Require Import Questions.
From S2P Require Import QuestionSpec.
From S2P Require Import QuestionRuns.

Local Open Scope string_scope.
Local Open Scope list_scope.
Local Open Scope Z_scope.

(** ** The order of a reply's candidates *)
Definition created_no_later (a b : QuestionRecord) : Prop :=
  let ta := GoTimeJson.Format_RFC3339Nano (qr_CreatedAt a) in
  let tb := GoTimeJson.Format_RFC3339Nano (qr_CreatedAt b) in
  string_leb ta tb = true ∧ (ta = tb → string_leb (qr_QuestionID a) (qr_QuestionID b) = true).

Lemma created_before_false a b : created_before a b = false ↔ created_no_later a b.
Proof.
  unfold created_before, created_no_later. cbv zeta. case_bool_decide as E; rewrite string_ltb_leb, negb_false_iff.
  - rewrite E. split; [|tauto]. intros Hl. split; [apply string_leb_refl|done].
  - tauto.
Qed.
Lemma created_no_later_trans a b c : created_no_later a b → created_no_later b c → created_no_later a c.
Proof.
  intros [H1 H2] [H3 H4]. split; [by eapply string_leb_trans|]. intros E.
  rewrite E in H1, H2. pose proof (string_leb_antisym _ _ H1 H3) as E'. rewrite <-E' in H4.
  eapply string_leb_trans; [apply H2|apply H4]; congruence.
Qed.
Lemma created_no_later_total a b : created_no_later a b ∨ created_no_later b a.
Proof.
  unfold created_no_later. set (ta := GoTimeJson.Format_RFC3339Nano _). set (tb := GoTimeJson.Format_RFC3339Nano _).
  destruct (decide (ta = tb)) as [->|Hne].
  - destruct (string_leb_total (qr_QuestionID a) (qr_QuestionID b)); [left|right]; (split; [apply string_leb_refl|done]).
  - destruct (string_leb_total ta tb); [left|right]; (split; [done|congruence]).
Qed.

Lemma pending_first_false a b :
  pending_first a b = false ↔ (pending a = true → pending b = true) ∧ (pending a = pending b → created_no_later a b).
Proof. unfold pending_first. destruct (pending a), (pending b); rewrite ?created_before_false; naive_solver. Qed.
Lemma pending_first_sorted l : StronglySorted (not_after pending_first) (SliceStable pending_first l).
Proof.
  apply (SliceStable_sorted pending_first (λ _, True)); [| |by apply Forall_true].
  - intros y z _ _ E. apply pending_first_false. unfold pending_first in E.
    destruct (pending y), (pending z); try done; (split; [done|]); intros _;
      (destruct (created_no_later_total z y) as [?|Hc]; [done|]; apply created_before_false in Hc; congruence).
  - intros y z w _ _ _ [H1 H2]%pending_first_false [H3 H4]%pending_first_false. apply pending_first_false.
    split; [auto|]. intros E. apply (created_no_later_trans w z y); [apply H4|apply H2];
      destruct (pending w), (pending z), (pending y); naive_solver.
Qed.

Lemma select_where_elem guard less rows r :
  r ∈ select_where guard less rows ↔ guard r = true ∧ ∃ id, rows !! id = Some r.
Proof.
  unfold select_where. rewrite (SliceStable_perm less), list_elem_of_filter. split; intros [Hg Hr]; (split; [done|]).
  - apply list_elem_of_fmap in Hr as ([id r'] & -> & Hin). exists id. by apply elem_of_map_to_list.
  - destruct Hr as [id E]. apply list_elem_of_fmap. exists (id, r). split; [done|]. by apply elem_of_map_to_list.
Qed.

(** A row the reply reference finds is a row with it, and if it is pending it is the only such row. *)
Lemma reply_ref_found p c m rows record :
  scanQuestionReply (map scanQuestion (take 2 (select_where (has_reply_ref p c m) pending_first rows))) = Ok (Some record) →
  ∃ id r, record = scanQuestion r ∧ rows !! id = Some r ∧ has_reply_ref p c m r = true ∧
    (pending r = true → ∀ id' r', rows !! id' = Some r' → has_reply_ref p c m r' = true → pending r' = true → r' = r).
Proof.
  pose proof (pending_first_sorted (filter (λ r, has_reply_ref p c m r = true) (map snd (map_to_list rows)))) as Hs.
  fold (select_where (has_reply_ref p c m) pending_first rows) in Hs.
  pose proof (select_where_elem (has_reply_ref p c m) pending_first rows) as Hin. revert Hs Hin.
  generalize (select_where (has_reply_ref p c m) pending_first rows) as l. intros l Hs Hin.
  destruct l as [|r rest]; [done|]. cbn [take map scanQuestionReply].
  destruct (Hin r) as [[Hg [id E]] _]; [left|]. intros Hf.
  assert (record = scanQuestion r ∧ (pending r = true → match rest with next :: _ => pending next = false | [] => True end)) as [-> Hnext].
  { destruct rest as [|next rest]; cbn in Hf; rewrite ?andb_false_r in Hf; [by simplify_eq|]. change (pending (scanQuestion r)) with (pending r) in Hf.
    change (pending (scanQuestion next)) with (pending next) in Hf.
    destruct (pending r), (pending next); cbn in Hf; by simplify_eq. }
  exists id, r. split_and!; [done..|]. intros Hp id' r' E' Hg' Hp'. destruct (Hin r') as [_ Hr']. 
  assert (r' ∈ r :: rest) as [->|Hr]%elem_of_cons by (apply Hr'; eauto); [done|]. specialize (Hnext Hp).
  destruct rest as [|next rest]; [by apply not_elem_of_nil in Hr|]. apply StronglySorted_inv in Hs as [Hs _].
  apply StronglySorted_inv in Hs as [_ Hall]. rewrite Forall_forall in Hall. apply elem_of_cons in Hr as [->|Hr]; [congruence|].
  apply Hall in Hr. unfold not_after in Hr. apply pending_first_false in Hr as [Hr _]. rewrite Hr in Hnext; done.
Qed.

Section operations.
  Context `{ActorMessages} {W : Type} `{!Admission W} (S : question_env W) (HS : question_env_ok S).
  Implicit Types (w : question_world W) (r record : QuestionRecord) (P : question_world W → Prop).
#[local] Notation anything := (λ _, True).

(** ** Store methods *)
Lemma does_reject P {A} (cond : bool) e (k : run (question_world W) A) Q :
  (cond = false → does P k Q) → does P (_ ← lift (reject_if cond e); k) Q.
Proof. intros Hk. destruct cond; [|by apply Hk]. by intros w Hok HP. Qed.

Lemma marked_answered_does P id answer : Stable P →
  (∀ w r, question_ok w → P w → qw_rows w !! TrimSpace id = Some r → qr_Status r = StatusPending → authorised r answer) →
  does P (MarkQuestionAnswered S id answer)
    (λ p w, P w ∧ ∃ t, settled_by P (TrimSpace id) (with_answer (JsonOf (json_answer answer)) t) p w).
Proof.
  intros HP Ha. unfold MarkQuestionAnswered. eapply does_bind; [by apply does_wrapped, does_lift|]. intros answerJSON. apply does_pre. intros E.
  assert (answerJSON = JsonOf (json_answer answer)) as -> by (unfold marshal_answer in E; destruct (GoTimeJson.storable _); by simplify_eq).
  eapply (does_bind _ _ (λ _, P)); [destruct (_ =? _); [by apply does_now | by apply does_ret]|].
  intros t. eapply does_post; [apply does_settle; [done..|]|].
  2:{ intros p w _ [Hp Hs]. split; [done|]. by exists t. }
  intros w r Hok Hp Er Hst. apply rm_answer; [done|]. by eapply Ha.
Qed.

Lemma marked_timed_out_does P id t0 : Stable P →
  does P (MarkQuestionTimedOut S id t0) (λ p w, P w ∧ ∃ t, settled_by P (TrimSpace id) (timed_out t) p w).
Proof.
  intros HP. unfold MarkQuestionTimedOut. eapply (does_bind _ _ (λ _, P)); [destruct (_ =? _); [by apply does_now | by apply does_ret]|].
  intros t. eapply does_post; [apply does_settle; [done..|]|].
  2:{ intros p w _ [Hp Hs]. split; [done|]. by exists t. }
  intros. by apply rm_timeout.
Qed.

Lemma marked_failed_does P id failure : Stable P →
  does P (MarkQuestionFailed S id failure) (λ p w, P w ∧ ∃ failureJSON t, settled_by P (TrimSpace id) (with_failure failureJSON t) p w).
Proof.
  intros HP. unfold MarkQuestionFailed. eapply does_bind; [by apply does_wrapped, does_lift|]. intros failureJSON. apply does_pre. intros _.
  eapply (does_bind _ _ (λ _, P)); [destruct (_ =? _); [by apply does_now | by apply does_ret]|].
  intros t. eapply does_post; [apply does_settle; [done..|]|].
  2:{ intros p w _ [Hp Hs]. split; [done|]. by exists failureJSON, t. }
  intros. by apply rm_fail.
Qed.

Lemma bind_ref_does P id ref : Stable P → does P (BindQuestionDeliveryRef S id ref) (λ _, P).
Proof.
  intros HP. unfold BindQuestionDeliveryRef. eapply does_bind; [by apply does_now|]. intros t. eapply does_bind.
  - apply does_wrapped, does_exec; [done..|]. intros. apply rm_bind.
  - intros a. apply does_ret. by intros w _ [? _].
Qed.

Lemma created_does P record : Stable P → TrimSpace (qr_QuestionID record) = qr_QuestionID record → qr_Status record = StatusPending →
  does P (CreatePendingQuestion S record) (λ _ w, P w ∧ ∃ created updated, known (column_of_create record created updated) w).
Proof.
  intros HP Ht Hs. unfold CreatePendingQuestion. do 6 (apply does_reject; intros _). eapply does_bind; [by apply does_now|]. intros t.
  apply does_wrapped, does_step; [done..|]. intros n w Hok Hp. unfold insert_row.
  set (row := column_of_create _ _ _). change (qr_QuestionID row) with (qr_QuestionID record).
  destruct (qw_rows w !! qr_QuestionID record) eqn:E; [by split|]. unfold write_fated.
  assert (Hm : rtc question_move w (set_rows (λ _, <[qr_QuestionID record := row]> (qw_rows w)) w)).
  { apply rtc_once, (qm_create w row); try done. cbn. by rewrite Hs. }
  destruct (qe_fates S n); (split; [done|]); try done. split; [by eapply HP|]. eexists _, _. apply known_row. cbn. apply lookup_insert_eq.
Qed.

(** ** Controls *)
Lemma ClearQuestionControls_does request : does anything (ClearQuestionControls S request) (λ _ w, request ∈ qw_cleared w).
Proof.
  unfold ClearQuestionControls. destruct (ev_controls S HS) as [clear ->]. apply does_step; [done|apply _|]. intros n w Hok _.
  destruct (clear n request); [|done]. split; [apply rtc_once, qm_cleared|]. cbn. apply elem_of_app. right. by apply list_elem_of_singleton.
Qed.

Lemma publishControlCleanup_does record : does anything (publishControlCleanup S record) (λ _ w, controls_gone w record).
Proof.
  unfold publishControlCleanup. destruct (ev_controls S HS) as [clear Hc]. rewrite bool_decide_eq_false_2 by congruence. cbn [orb].
  unfold filled. rewrite negb_involutive. destruct (bool_decide_reflect (TrimSpace (qr_ProviderMessageID record) = "")) as [E|Hne].
  - apply does_ret. intros w _ _ Hf. done.
  - eapply does_bind; [by apply does_wrapped, does_lift|]. intros interaction. apply does_pre. intros _.
    eapply does_post; [apply ClearQuestionControls_does|]. intros a w _ Hin _. eexists. by split; [exact Hin|].
Qed.

Lemma clearControls_does record : does anything (clearControls S record) (λ _, anything).
Proof.
  unfold clearControls. destruct (_ && _); [by apply does_ret|]. eapply does_bind; [apply does_try; [apply _|]; apply publishControlCleanup_does|].
  intros a. by apply does_ret.
Qed.

Lemma clearing_does P record {A} (k : run (question_world W) A) Q : Stable P →
  does P k Q → does P (_ ← clearControls S record; k) Q.
Proof. intros HP Hk. eapply does_bind; [apply does_keep; [done|apply clearControls_does]|]. intros ?. exact Hk. Qed.

(** ** Asking, binding, failing, timing out *)
Lemma Ask_does interaction resume req :
  does anything (Ask S interaction resume req)
    (λ record w, ∃ created updated, known (column_of_create record created updated) w ∧ qr_Status record = StatusPending).
Proof.
  unfold Ask. do 4 (apply does_reject; intros _).
  eapply (does_bind _ _ (λ _, anything)).
  { unfold bind_archive. destruct (qe_archive S); [|by apply does_ret]. apply does_step; [done|apply _|]. intros n.
    eapply does_post; [by apply does_lift|]. done. }
  intros interaction'. eapply does_bind; [apply does_uuid; [done|apply _]|]. intros uuid. apply does_pre. intros Hu.
  eapply does_bind; [apply does_now; [done|apply _]|]. intros t. cbv zeta.
  set (record := new_question _ _ _ _ _).
  assert (Hid : qr_QuestionID record = "question-" +:+ uuid ∧ qr_Status record = StatusPending)
    by (unfold record, new_question; by destruct (normalizedResumeTarget _ _)).
  destruct Hid as [Hid Hst]. eapply does_bind; [apply created_does; [apply _|by rewrite Hid|done]|]. intros u. cbv beta.
  eapply does_bind.
  { apply does_keep; [apply _|]. unfold schedule_timeout. destruct (qe_scheduled S); [|by apply does_ret]. destruct (_ =? _); [by apply does_ret|].
    apply does_step; [done|apply _|]. intros n. eapply does_post; [by apply does_lift|]. done. }
  intros u'. apply does_ret. intros w _ [_ (created & updated & Hk)]. eauto.
Qed.

Lemma BindDelivery_does id ref : does anything (BindDelivery S id ref) (λ _, anything).
Proof.
  unfold BindDelivery. apply does_reject. intros _. eapply does_bind; [apply bind_ref_does, _|]. intros u.
  eapply does_bind; [apply does_get; [done|apply _]|]. intros [record|]; [|by apply does_ret]. destruct (pending record); [by apply does_ret|].
  apply (does_weaken anything _ _ (λ _, anything)); [done..|apply clearControls_does].
Qed.

Lemma Timeout_does P id t0 : Stable P →
  does P (Timeout_ S id t0) (λ p w, P w ∧ ∃ t, settled_by P (TrimSpace (TrimSpace id)) (timed_out t) p w).
Proof.
  intros HP. unfold Timeout_. eapply does_bind; [by apply does_now|]. intros t. eapply does_bind; [by apply marked_timed_out_does|].
  intros [record settled]. cbv beta.
  eapply (does_bind _ _ (λ _ w, P w ∧ ∃ t, settled_by P (TrimSpace (TrimSpace id)) (timed_out t) (record, settled) w)).
  - apply does_keep; [unfold settled_by; apply _|]. destruct (_ || _); [apply clearControls_does | by apply does_ret].
  - intros u. by apply does_ret.
Qed.

Lemma FailDelivery_does id failure : does anything (FailDelivery S id failure) (λ _, anything).
Proof.
  unfold FailDelivery. eapply does_bind; [apply does_now; [done|apply _]|]. intros t. cbv zeta.
  eapply does_bind; [by apply marked_failed_does, _|]. intros [record settled].
  apply (does_weaken anything _ _ (λ _, anything)); [done..|]. destruct (_ && _); [by apply does_ret|].
  eapply (does_bind _ _ (λ _, anything)).
  { destruct (_ && _); [|by apply does_ret]. apply does_wrapped. eapply does_post; [by apply does_lift|]. done. }
  intros failure'. eapply does_bind; [apply does_uuid; [done|apply _]|]. intros uuid.
  eapply does_bind; [by apply does_lift|]. intros env. by apply does_ret.
Qed.

Lemma sessionTimeoutResult_does id : does anything (sessionTimeoutResult S id) (λ _, anything).
Proof.
  unfold sessionTimeoutResult. eapply does_bind; [apply does_now; [done|apply _]|]. intros t.
  eapply does_bind; [apply does_try; [apply _|]; by apply Timeout_does, _|]. intros [[record settled]|e]; cbv zeta; [|by apply does_ret].
  destruct (json_blank _); [by apply does_ret|]. destruct (Unmarshal _ _); [|by apply does_ret]. destruct (_ || _); by apply does_ret.
Qed.

(** ** Dispatching *)
Lemma outer_moves w o : rtc outer_step (qw_outer w) o →
  rtc question_move w (mkQuestionWorld (qw_rows w) o (qw_cursor w) (qw_dispatched w) (qw_cleared w) (qw_calls w)).
Proof.
  intros Hs. remember (qw_outer w) as o0 eqn:E. revert w E. induction Hs as [o|o1 o2 o3 Hs _ IH]; intros w ->; [by destruct w|].
  eapply rtc_l; [by apply qm_outer|]. by apply (IH (mkQuestionWorld (qw_rows w) o2 (qw_cursor w) (qw_dispatched w) (qw_cleared w) (qw_calls w))).
Qed.

Lemma dispatch_does P env : Stable P →
  does P (dispatch S env) (λ receipt w, P w ∧ (is_Some receipt → env ∈ qw_dispatched w)).
Proof.
  intros HP. apply does_step; [done..|]. intros n w Hok Hp. pose proof (ev_dispatch S HS n env _ (qo_outer _ Hok)) as Hd.
  destruct (qe_dispatch S n env (qw_outer w)) as [o answer]. destruct Hd as [Hs Hdur]. pose proof (outer_moves w o Hs) as Hm.
  set (w1 := mkQuestionWorld _ _ _ _ _ _) in Hm.
  assert (Hm' : rtc question_move w (mkQuestionWorld (qw_rows w) o (qw_cursor w)
            (qw_dispatched w ++ match answer with Done (Some _) => [env] | _ => [] end) (qw_cleared w) (qw_calls w)) ∧
            ∀ receipt, answer = Done (Some receipt) → env ∈ qw_dispatched w ++ match answer with Done (Some _) => [env] | _ => [] end).
  { destruct answer as [[receipt|]|e|]; rewrite ?app_nil_r; try done. split.
    - etrans; [exact Hm|]. apply rtc_once. apply (qm_dispatched w1 env). by eapply Hdur.
    - intros _ _. apply elem_of_app. right. by apply list_elem_of_singleton. }
  destruct Hm' as [Hm' Hin]. destruct answer as [receipt|e|]; (split; [exact Hm'|]); [|done..]. split; [by eapply HP|].
  intros [receipt' ->]. by eapply Hin.
Qed.

Lemma handleScheduledQuestionTimeout_does id : does anything (handleScheduledQuestionTimeout S id) (λ _, anything).
Proof.
  unfold handleScheduledQuestionTimeout. eapply does_bind; [apply does_now; [done|apply _]|]. intros t.
  eapply does_bind; [by apply Timeout_does, _|]. intros [record settled]. apply (does_weaken anything _ _ (λ _, anything)); [done..|].
  destruct (negb settled); [by apply does_ret|]. eapply does_bind; [by apply does_wrapped, does_lift|]. intros interaction.
  eapply does_bind; [by apply does_wrapped, does_lift|]. intros resume. apply (does_weaken anything _ _ (λ _, anything)); [done..|].
  eapply does_bind; [apply does_uuid; [done|apply _]|]. intros uuid. eapply does_bind; [by apply does_lift|]. intros env.
  apply (does_weaken anything _ _ (λ _, anything)); [done..|]. eapply does_bind; [apply dispatch_does, _|]. intros r. by apply does_ret.
Qed.

(** ** Recovering answers *)
Definition listed (id : string) w : Prop :=
  ∃ r, qr_QuestionID r = id ∧ TrimSpace id = id ∧ qr_Status r = StatusAnswered ∧ known r w.
(** The continuation of the answered question was dispatched, or released before. *)
Definition ready (id : string) w : Prop :=
  ∃ r, (qr_QuestionID r = id ∧ TrimSpace id = id ∧ qr_Status r = StatusAnswered ∧ known r w) ∧
       (qr_AnswerContinuationPending r = false ∨ ∃ env, answeredContinuation r = Ok env ∧ env ∈ qw_dispatched w).

Lemma ids_after_elem cursor rows id :
  id ∈ ids_after cursor rows ↔ string_ltb cursor id = true ∧ ∃ r, rows !! id = Some r ∧ awaiting_recovery r = true.
Proof.
  unfold ids_after. rewrite sort_Strings_perm, list_elem_of_filter. split; intros [Hl Hr]; (split; [done|]).
  - apply list_elem_of_fmap in Hr as ([id' r] & -> & Hin). exists r. by apply elem_of_map_to_list, map_lookup_filter_Some in Hin.
  - destruct Hr as (r & E & Hu). apply list_elem_of_fmap. exists (id, r). split; [done|]. by apply elem_of_map_to_list, map_lookup_filter_Some.
Qed.

Lemma unfinished_answered r : awaiting_recovery r = true → qr_Status r = StatusAnswered.
Proof. intros [_ Ha]%andb_true_iff. by apply answered_true. Qed.

Lemma PendingQuestionAnswerIDs_does cursor limit :
  does anything (PendingQuestionAnswerIDs S cursor limit) (λ ids w, ∀ id, id ∈ ids → listed id w).
Proof.
  unfold PendingQuestionAnswerIDs. apply does_reject. intros _. apply does_wrapped, does_query; [done|apply _|].
  intros w Hok _ id Hin. apply elem_of_take in Hin as (i & Hin & _). apply list_elem_of_lookup_2 in Hin.
  apply ids_after_elem in Hin as (_ & r & E & Hu). destruct (qo_key _ Hok _ _ E) as [Ek Ht].
  exists r. split_and!; [done..|by apply unfinished_answered|]. apply known_row. by rewrite Ek.
Qed.

Lemma AnsweredContinuation_does id :
  does (listed id) (AnsweredContinuation S id)
    (λ found w, ∃ r, (qr_QuestionID r = id ∧ TrimSpace id = id ∧ qr_Status r = StatusAnswered ∧ known r w) ∧
                     match found with Some env => answeredContinuation r = Ok env | None => qr_AnswerContinuationPending r = false end).
Proof.
  unfold AnsweredContinuation. eapply does_bind; [apply does_get; [done|unfold listed; apply _]|]. intros [record|].
  - apply (does_since (λ w, ∃ r, record = scanQuestion r ∧ (qr_QuestionID r = id ∧ TrimSpace id = id ∧ qr_Status r = StatusAnswered ∧ known r w))).
    2:{ intros w _ [(r0 & Eid & Ht & Hs & _) (r & -> & Hseen)]. exists r. split; [done|]. rewrite Ht in Hseen.
      pose proof (seen_known _ _ _ _ Hseen) as Hk. pose proof (seen_key _ _ _ _ Hseen) as [Ek _]. split_and!; [done..| |done].
      destruct Hseen as (w0 & _ & (r1 & Eid1 & _ & Hs1 & (r2 & E2 & Hl)) & E & _). rewrite Eid1, E in E2. injection E2 as <-.
      by rewrite (lt_status _ _ Hl) by (by rewrite Hs1). }
    apply does_exist. intros r. apply does_pre. intros ->. change (answered (scanQuestion r)) with (answered r).
    change (qr_AnswerContinuationPending (scanQuestion r)) with (qr_AnswerContinuationPending r).
    destruct (answered r && qr_AnswerContinuationPending r) eqn:E.
    + eapply does_bind; [by apply does_lift|]. intros env. apply does_ret. intros w _ [Ec Hr]. by exists r.
    + apply does_ret. intros w _ Hr. exists r. split; [done|]. rewrite (proj2 (answered_true r)) in E by apply Hr. done.
  - apply does_ret. intros w Hok [_ (w0 & (r & Eid & Ht & _ & (r' & E & _)) & E')]. rewrite Ht, <-Eid in E'. congruence.
Qed.

Lemma ready_stable id : Stable (ready id).
Proof. unfold ready. apply _. Qed.

Lemma released_does id : does (ready id) (MarkQuestionAnswerAdmitted S id) (λ _, anything).
Proof.
  unfold MarkQuestionAnswerAdmitted. pose proof (ready_stable id) as Hst. eapply does_bind; [by apply does_now|]. intros t.
  eapply does_bind; [|intros a; by apply does_ret]. apply does_wrapped, (does_exec S HS (ready id)); [done|].
  intros w r Hok (r0 & (Eid & Ht & Hs & (r1 & E1 & Hl)) & Hd) E Ha. rewrite Ht, <-Eid, E1 in E. injection E as ->.
  destruct (qo_row _ Hok _ _ E1) as [_ Hrel _ _]. apply answered_true in Ha.
  destruct Hd as [Hc|(env & Ec & Hin)].
  - destruct Hrel as (env & Ec & Hin); [done|apply (lt_released _ _ Hl); [by rewrite Hs|done]|]. by apply (rm_release w r env).
  - apply (rm_release w r env); [done| |done]. by rewrite (answeredContinuation_later r0 r).
Qed.

Lemma cleared_does id record : qr_QuestionID record = TrimSpace id →
  does (λ w, controls_gone w record) (MarkQuestionAnswerControlsCleared S id (ref_of record)) (λ _, anything).
Proof.
  intros Eid. unfold MarkQuestionAnswerControlsCleared. eapply does_bind; [|intros a; by apply does_ret].
  apply does_wrapped, (does_exec S HS (λ w, controls_gone w record)); [apply _|].
  intros w r Hok Hg E [Hc Href]%andb_true_iff. apply negb_true_iff in Hc. rewrite Hc. apply rm_clear; [done|]. intros _ Hf.
  destruct (qo_key _ Hok _ _ E) as [Ek _]. unfold same_ref in Href. rewrite !andb_true_iff in Href.
  destruct Href as [[[_ _] Em%bool_decide_eq_true_1] Eh%bool_decide_eq_true_1].
  cbn [ref_of df_ProviderMessageID df_ControlHandle] in Em, Eh. rewrite Em, TrimSpace_idemp in Hf.
  destruct (Hg Hf) as (request & Hin & H1 & H2 & H3). exists request. split; [done|]. unfold clears.
  by rewrite Em, Eh, !TrimSpace_idemp, Ek, <-Eid.
Qed.

Lemma ConfirmAnswerAdmission_does id : does (ready id) (ConfirmAnswerAdmission S id) (λ _, anything).
Proof.
  pose proof (ready_stable id) as Hst. unfold ConfirmAnswerAdmission. eapply does_bind; [by apply does_get|].
  intros [record|]; [|by apply does_ret]. apply (does_since (λ w, qr_QuestionID record = TrimSpace id ∧ ready id w)).
  2:{ intros w _ [Hr (r & -> & Hseen)]. split; [|done]. by apply seen_key in Hseen as [? _]. }
  apply does_pre. intros Eid. destruct (negb (answered record)); [by apply does_ret|].
  eapply (does_bind _ _ (λ _, anything)).
  { destruct (qr_AnswerContinuationPending record); [apply released_does | by apply does_ret]. }
  intros u. destruct (negb _); [by apply does_ret|]. eapply does_bind; [apply publishControlCleanup_does|]. intros u'. by apply cleared_does.
Qed.

Lemma recover_answer_does id : does (listed id) (recover_answer S id) (λ _, anything).
Proof.
  unfold recover_answer. eapply does_bind; [apply AnsweredContinuation_does|]. intros found.
  eapply (does_bind _ _ (λ _, ready id)); [|intros u; apply ConfirmAnswerAdmission_does].
  destruct found as [env|].
  - eapply does_bind; [apply dispatch_does, _|]. intros [receipt|]; [|by apply does_fail].
    apply does_ret. intros w _ [(r & Hr & Ec) Hin]. exists r. split; [done|]. right. exists env. split; [done|]. by apply Hin.
  - apply does_ret. intros w _ (r & Hr & Ec). exists r. auto.
Qed.

Lemma set_cursor_does P cursor : Stable P → does P (set_cursor cursor) (λ _, P).
Proof. intros HP w Hok Hp. pose proof (qm_local w cursor (qw_calls w)) as Hm. split; [by apply rtc_once|]. by eapply HP; [|apply rtc_once|]. Qed.

Lemma recover_all_does ids failures : does (λ w, ∀ id, id ∈ ids → listed id w) (recover_all S ids failures) (λ _, anything).
Proof.
  revert failures. induction ids as [|id ids IH]; intros failures; cbn [recover_all]; [by apply does_ret|].
  assert (Hl : Stable (λ w, ∀ id', id' ∈ id :: ids → listed id' w)) by (unfold listed; apply _).
  eapply does_bind; [by apply does_ctx|]. intros [err|]; [by apply does_fail|]. eapply does_bind; [by apply set_cursor_does|]. intros u.
  eapply does_bind.
  - apply does_try; [done|]. eapply does_since; [apply recover_answer_does|]. intros w _ Hall. apply Hall. left.
  - intros a. eapply does_since; [apply IH|]. intros w _ [Hall _] id' Hin. apply Hall. by right.
Qed.

Lemma FlushAnswers_does : does anything (FlushAnswers S) (λ _, anything).
Proof.
  unfold FlushAnswers. eapply does_bind.
  { intros w Hok Hw. by apply PendingQuestionAnswerIDs_does. }
  intros ids. eapply does_bind; [apply recover_all_does|]. intros failures. eapply (does_bind _ _ (λ _, anything)).
  { destruct (_ <? _); [apply set_cursor_does, _ | by apply does_ret]. }
  intros u. by apply does_ret.
Qed.
End operations.
