(* ===== verification/QuestionAnswers.v ===== *)
(** * QuestionAnswers: what it means that an answer was accepted

    A reply or a selection settles a question only if its author may answer it and it is
    something the question offers; and what the two operations report about it is what is
    in the table. *)

From Stdlib Require Import ZArith Lia String.
From stdpp Require Import base numbers list gmap sets strings relations.
From S2P Require Import Prelude.
From S2P Require Import GoStrings.
From S2P Require Import Runs.
From S2P Require Import CommandOutbox.
From S2P Require Import QuestionTypes.
From S2P Require Import QuestionStore.
From S2P Require Import Questions.
From S2P Require Import QuestionSpec.
From S2P Require Import QuestionRuns.
From S2P Require Import QuestionOperations.

Local Open Scope string_scope.
Local Open Scope list_scope.
Local Open Scope Z_scope.

(** ** The checks *)
Lemma find_Some_elem {A} (f : A → bool) l x : List.find f l = Some x → x ∈ l ∧ f x = true.
Proof. intros [Hin Hf]%List.find_some. split; [by apply list_elem_of_In|done]. Qed.

Lemma option_at_elem options index o : option_at options index = Some o → o ∈ options.
Proof. unfold option_at. destruct (_ && _); [apply list_elem_of_lookup_2|done]. Qed.

Lemma selectedOption_valid request raw selected user t msg :
  selectedOption request raw = Some selected → valid_choice request (mkAnswer (TrimSpace raw) selected user t msg).
Proof.
  unfold selectedOption, valid_choice. cbv zeta.
  assert (Hfree : (if rq_AllowFreeText request && negb (bool_decide (TrimSpace raw = "")) then Some "" else None) = Some selected →
            selected = "" ∧ rq_AllowFreeText request = true ∧ TrimSpace (TrimSpace raw) ≠ "").
  { rewrite TrimSpace_idemp. destruct (rq_AllowFreeText request); [|done]. cbn [andb]. case_bool_decide; [done|]. by intros [= <-]. }
  destruct (rq_Options request) as [|o options] eqn:Eo; [intros E; right; by apply Hfree|].
  destruct (List.find _ (o :: options)) as [choice|] eqn:Ef.
  - intros [= <-]. left. exists choice. split; [by apply find_Some_elem in Ef as [? _]|done].
  - destruct (GoParse.Atoi (TrimSpace raw)) as [index|e]; [|intros E; right; by apply Hfree].
    destruct (option_at (o :: options) index) as [choice|] eqn:Ea; [|intros E; right; by apply Hfree].
    intros [= <-]. left. exists choice. split; [by eapply option_at_elem|done].
Qed.

Lemma selectedStructuredOption_elem request id index choice :
  selectedStructuredOption request id index = Some choice → choice ∈ rq_Options request.
Proof.
  unfold selectedStructuredOption. cbv zeta. destruct (negb _); [|apply option_at_elem]. by intros [? _]%find_Some_elem.
Qed.

Section answers.
  Context `{ActorMessages} {W : Type} `{!Admission W}.
  Implicit Types (w : question_world W) (r record : QuestionRecord).

Lemma check_reply_authorised r in_ selected t :
  check_reply (scanQuestion r) in_ = inr selected →
  authorised r (mkAnswer (TrimSpace (ir_Text in_)) selected (ir_User in_) t (TrimSpace (ir_MessageID in_))).
Proof.
  unfold check_reply. change (decodeRequest (scanQuestion r)) with (decodeRequest r).
  destruct (decodeRequest r) as [request|e] eqn:Ed; [|done].
  change (responderAllowed (scanQuestion r) request) with (responderAllowed r request).
  destruct (responderAllowed r request (ir_User in_)) as [[]|e] eqn:Ea; [|done|done]. cbn [negb orb].
  destruct (stale_reply _ _); [done|]. destruct (selectedOption request (ir_Text in_)) as [s|] eqn:Es; [|done]. intros [= <-].
  exists request. split_and!; [done|done|]. by apply selectedOption_valid.
Qed.

Lemma check_selection_authorised r in_ choice t :
  check_selection (scanQuestion r) in_ = inr choice →
  authorised r (mkAnswer (TrimSpace (op_Label choice)) (TrimSpace (op_ID choice)) (sl_User in_) t (TrimSpace (sl_ProviderMessageID in_))).
Proof.
  unfold check_selection. change (decodeRequest (scanQuestion r)) with (decodeRequest r).
  destruct (decodeRequest r) as [request|e] eqn:Ed; [|done].
  change (responderAllowed (scanQuestion r) request) with (responderAllowed r request).
  destruct (responderAllowed r request (sl_User in_)) as [[]|e] eqn:Ea; [|done|done].
  destruct (selectedStructuredOption request _ _) as [o|] eqn:Es; [|done]. intros [= <-].
  exists request. split_and!; [done|done|]. left. exists o. split; [by eapply selectedStructuredOption_elem|done].
Qed.

Lemma check_reply_unsettled record in_ outcome : check_reply record in_ = inl outcome → rr_Settled outcome.1 = false.
Proof. unfold check_reply. repeat case_match; intros; by simplify_eq. Qed.
Lemma check_selection_unsettled record in_ outcome : check_selection record in_ = inl outcome → rr_Settled outcome.1 = false.
Proof. unfold check_selection. repeat case_match; intros; by simplify_eq. Qed.

(** ** What a settled outcome says *)
(** The row is answered by an answer as described, and the outcome carries its continuation. *)
Definition settled_outcome (by_ : QuestionRecord → Answer → Prop) (out : ReplyResolution Envelope * option error) w : Prop :=
  rr_Settled out.1 = true →
  ∃ r answer, rr_Record out.1 = scanQuestion r ∧ known r w ∧ qr_Status r = StatusAnswered ∧
    qr_AnswerJSON r = JsonOf answer ∧ by_ r answer ∧
    (out.2 = None → ∃ env, rr_Continuation out.1 = Some env ∧ answeredContinuation r = Ok env).

Definition same_user (u v : UserRef) : Prop := TrimSpace (us_UserID u) = TrimSpace (us_UserID v).
(** The answer a reply gave: this one, or one that decodes to the same author and message. *)
Definition reply_answer (in_ : InboundReply) (answer : Answer) : Prop :=
  (∃ selected t, answer = json_answer (mkAnswer (TrimSpace (ir_Text in_)) selected (ir_User in_) t (TrimSpace (ir_MessageID in_)))) ∨
  (TrimSpace (an_ProviderMsgID answer) = TrimSpace (ir_MessageID in_) ∧ same_user (an_AnsweredBy answer) (ir_User in_)).
Definition selection_answer (in_ : InboundSelection) r (answer : Answer) : Prop :=
  same_user (an_AnsweredBy answer) (sl_User in_) ∧
  ∃ request choice, decodeRequest r = Ok request ∧ selectedStructuredOption request (sl_OptionID in_) (sl_OptionIndex in_) = Some choice ∧
    TrimSpace (an_SelectedOption answer) = TrimSpace (op_ID choice).

Lemma settled_with_outcome by_ r answer w :
  known r w → qr_Status r = StatusAnswered → qr_AnswerJSON r = JsonOf answer → by_ r answer →
  settled_outcome by_ (settled_with (scanQuestion r) (answeredContinuation (scanQuestion r))) w.
Proof.
  intros Hk Hs Ha Hb _. exists r, answer. change (answeredContinuation (scanQuestion r)) with (answeredContinuation r).
  destruct (answeredContinuation r) as [env|e]; cbn; split_and!; try done. intros _. by exists env.
Qed.

Lemma answered_row w r : row_ok w r → qr_Status r = StatusAnswered → ∃ answer, qr_AnswerJSON r = JsonOf answer.
Proof. intros Hok Hs. destruct (ro_answered _ _ Hok Hs) as (answer & E & _). by exists (json_answer answer). Qed.

Lemma replay_reply_outcome in_ r w w0 : known r w → row_ok w0 r →
  settled_outcome (λ _, reply_answer in_) (replayAnsweredReply (scanQuestion r) in_) w.
Proof.
  intros Hk Hok. unfold replayAnsweredReply. change (answered (scanQuestion r)) with (answered r).
  destruct (answered r) eqn:Ea; [|done]. apply answered_true in Ea. destruct (answered_row _ _ Hok Ea) as (answer & Eq).
  change (qr_AnswerJSON (scanQuestion r)) with (qr_AnswerJSON r). rewrite Eq. cbn [negb orb Unmarshal].
  destruct (negb (filled _)); [done|]. case_bool_decide as Em; [|done]. case_bool_decide as Eu; [|done]. cbn [negb orb].
  apply (settled_with_outcome _ r answer); [done..|]. by right.
Qed.

Lemma replay_selection_outcome in_ choice r w w0 :
  known r w → row_ok w0 r → check_selection (scanQuestion r) in_ = inr choice →
  settled_outcome (selection_answer in_) (replayAnsweredSelection (scanQuestion r) in_ choice) w.
Proof.
  intros Hk Hok Hc. unfold replayAnsweredSelection. change (answered (scanQuestion r)) with (answered r).
  destruct (answered r) eqn:Ea; [|done]. apply answered_true in Ea. destruct (answered_row _ _ Hok Ea) as (answer & Eq).
  change (qr_AnswerJSON (scanQuestion r)) with (qr_AnswerJSON r). rewrite Eq. cbn [negb orb Unmarshal].
  case_bool_decide as Em; [|done]. case_bool_decide as Eu; [|done]. cbn [negb orb].
  apply (settled_with_outcome _ r answer); [done..|]. split; [done|]. unfold check_selection in Hc.
  change (decodeRequest (scanQuestion r)) with (decodeRequest r) in Hc. destruct (decodeRequest r) as [request|]; [|done]. exists request, choice.
  repeat case_match; by simplify_eq.
Qed.

Lemma settled_outcome_false by_ out w : rr_Settled out.1 = false → settled_outcome by_ out w.
Proof. by intros E; unfold settled_outcome; rewrite E. Qed.

Section env.
  Context (S : question_env W) (HS : question_env_ok S).

(** ** Looking up what a reply answers *)
Definition only_candidate (p c m : string) r w : Prop :=
  has_reply_ref p c m r = true ∧
  (pending r = true → ∀ id r', qw_rows w !! id = Some r' → has_reply_ref p c m r' = true → pending r' = true → r' = r).

Lemma reply_ref_does p c m :
  does (λ _, True) (GetQuestionByReplyRef S p c m)
    (λ found w, ∀ record, found = Some record → ∃ r, record = scanQuestion r ∧
       seen (only_candidate (TrimSpace p) (TrimSpace c) (TrimSpace m) r) (qr_QuestionID r) r w).
Proof.
  unfold GetQuestionByReplyRef. set (view := λ rows, map scanQuestion (take 2 _)).
  eapply does_bind.
  { apply (does_query S HS _ view (λ rows w, ∃ w0, question_ok w0 ∧ rows = view (qw_rows w0) ∧ rtc question_move w0 w)); [apply _|].
    intros w Hok _. by exists w. }
  intros rows. eapply does_post; [by apply does_lift|]. intros found w _ [E (w0 & Hok & -> & Hm)] record ->.
  destruct (reply_ref_found _ _ _ _ _ E) as (id & r & -> & Er & Hr & Hsole). destruct (qo_key _ Hok _ _ Er) as [Ek _].
  exists r. split; [done|]. exists w0. split_and!; [done|by split|by rewrite Ek|done].
Qed.

(** ** Settling with an answer *)
Lemma settle_answer_does r answer key : Stable (known r) → qr_QuestionID r = key → TrimSpace key = key → authorised r answer →
  does (known r) (MarkQuestionAnswered S key answer)
    (λ p w, (p.2 = true → ∃ r', p.1 = scanQuestion r' ∧ known r' w ∧ qr_Status r' = StatusAnswered ∧
                          qr_AnswerJSON r' = JsonOf (json_answer answer)) ∧
            (p.1 = zero_question ∧ p.2 = false ∨ ∃ r' w0, p.1 = scanQuestion r' ∧ known r' w ∧ row_ok w0 r' ∧ later r r')).
Proof.
  intros Hst Ek Ht Ha. eapply does_post; [apply (marked_answered_does S HS (known r)); [done|]|].
  - intros w r' Hok (r1 & E1 & Hl) E _. rewrite Ht, <-Ek, E1 in E. injection E as <-. by apply (authorised_later r).
  - intros [updated settled] w _ [_ (t & [Hread Hsettled])]. cbn [fst snd] in *. split.
    + intros Hs. destruct (Hsettled Hs) as (r0 & r' & _ & _ & -> & Hl & Hk). exists r'. split_and!; [done..| |].
      * by rewrite (lt_status _ _ Hl).
      * by rewrite (lt_answer _ _ Hl).
    + destruct Hread as [Hz|(r' & -> & Hseen)]; [by left|]. right. pose proof (seen_known _ _ _ _ Hseen). rewrite Ht in Hseen.
      destruct (seen_ok _ _ _ _ Hseen) as (w0 & _ & _ & Hok). exists r', w0. split_and!; [done..|]. by eapply (seen_later (known r) key).
Qed.

Lemma json_answer_by_reply in_ selected t :
  reply_answer in_ (json_answer (mkAnswer (TrimSpace (ir_Text in_)) selected (ir_User in_) t (TrimSpace (ir_MessageID in_)))).
Proof. left. by exists selected, t. Qed.

Lemma record_answer_does record in_ : does (λ _, True) (record_answer S record in_) (λ _ _, True).
Proof.
  unfold record_answer. destruct (qe_archive S) as [archive|]; [|by apply does_ret].
  eapply does_bind; [by apply does_lift|]. intros interaction. apply (does_since (λ _, True)); [|done].
  apply does_step; [done|apply _|]. intros n. eapply does_post; [by apply does_lift|]. done.
Qed.

(** An accepted reply settled the question, or had settled it before. *)
Lemma ResolveReplyDetailed_does in_ :
  does (λ _, True) (ResolveReplyDetailed S in_) (settled_outcome (λ _, reply_answer in_)).
Proof.
  unfold ResolveReplyDetailed. eapply does_bind; [apply does_try; [apply _|]; apply reply_ref_does|].
  intros [[record|]|e]; [|by apply does_ret..].
  apply (does_since (λ w, ∃ r, record = scanQuestion r ∧ ((qr_QuestionID r = TrimSpace (qr_QuestionID r) ∧ ∃ w0, row_ok w0 r) ∧ known r w))).
  2:{ intros w _ [_ Hf]. destruct (Hf record eq_refl) as (r & -> & Hseen). exists r. split; [done|].
      destruct (seen_key _ _ _ _ Hseen) as [_ Ht]. destruct (seen_ok _ _ _ _ Hseen) as (w0 & _ & _ & Hok).
      split; [split; [done|by exists w0]|]. by eapply seen_known. }
  apply does_exist. intros r. apply does_pre. intros ->. apply does_pre. intros [Ht (w0 & Hrow)].
  change (pending (scanQuestion r)) with (pending r). change (qr_QuestionID (scanQuestion r)) with (qr_QuestionID r).
  destruct (pending r); cbn [negb]; [|by apply does_ret; intros w _ Hk; eapply replay_reply_outcome].
  destruct (check_reply (scanQuestion r) in_) as [outcome|selected] eqn:Ec.
  { apply does_ret. intros w _ _. by apply settled_outcome_false, (check_reply_unsettled _ _ _ Ec). }
  eapply does_bind; [by apply does_now, _|]. intros t. cbv zeta.
  eapply does_bind; [apply does_try; [apply _|]; apply does_keep; [apply _|apply record_answer_does]|].
  intros [u|e]; [|by apply does_ret]. apply (does_since (known r)); [|by intros w _ [? _]].
  eapply does_bind.
  { apply does_try; [apply _|]. apply (settle_answer_does r); [apply _|done|done|]. by apply check_reply_authorised. }
  intros [[updated [|]]|e]; [| |by apply does_ret]; cbn [fst snd].
  - apply (does_since (λ w, ∃ r', updated = scanQuestion r' ∧ known r' w ∧ qr_Status r' = StatusAnswered ∧ qr_AnswerJSON r' =
      JsonOf (json_answer (mkAnswer (TrimSpace (ir_Text in_)) selected (ir_User in_) (zeroOrNow (ir_ReceivedAt in_) t) (TrimSpace (ir_MessageID in_)))))).
    2:{ intros w _ [_ [Hs _]]. by apply Hs. }
    apply clearing_does; [done|apply _|]. apply does_ret. intros w _ (r' & -> & Hk & Hs & Ha).
    eapply settled_with_outcome; [done..|]. apply json_answer_by_reply.
  - destruct (answered updated); [|by apply does_ret]. apply does_ret.
    intros w _ [_ [_ [[-> _]|(r' & w1 & -> & Hk & Hok & _)]]]; [done|by eapply replay_reply_outcome].
Qed.

Lemma check_selection_later r r' in_ choice :
  later r r' → check_selection (scanQuestion r) in_ = inr choice → check_selection (scanQuestion r') in_ = inr choice.
Proof.
  intros [_ Ei _ Eq _ _ _ _]. unfold check_selection, decodeRequest, responderAllowed. cbn [scanQuestion qr_RequestJSON qr_InteractionJSON].
  rewrite Ei, Eq. repeat case_match; intros; by simplify_eq.
Qed.

(** An accepted selection is the table's answer, by this user and with this option. *)
Lemma ResolveSelectionDetailed_does in_ :
  does (λ _, True) (ResolveSelectionDetailed S in_) (settled_outcome (selection_answer in_)).
Proof.
  unfold ResolveSelectionDetailed. eapply does_bind; [apply does_try; [apply _|]; apply does_get; [done|apply _]|].
  intros [[record|]|e]; [|by apply does_ret..].
  apply (does_since (λ w, ∃ r, record = scanQuestion r ∧ ((qr_QuestionID r = TrimSpace (qr_QuestionID r) ∧ ∃ w0, row_ok w0 r) ∧ known r w))).
  2:{ intros w _ [_ [_ (r & -> & Hseen)]]. exists r. split; [done|].
      destruct (seen_key _ _ _ _ Hseen) as [Ek Ht]. destruct (seen_ok _ _ _ _ Hseen) as (w0 & _ & _ & Hok).
      split; [split; [by rewrite Ek|by exists w0]|]. by eapply seen_known. }
  apply does_exist. intros r. apply does_pre. intros ->. apply does_pre. intros [Ht (w0 & Hrow)].
  destruct (negb (selectionContextMatches _ _)); [by apply does_ret|].
  change (pending (scanQuestion r)) with (pending r). change (answered (scanQuestion r)) with (answered r).
  destruct (negb (pending r) && negb (answered r)); [apply clearing_does; [done|apply _|]; by apply does_ret|].
  destruct (check_selection (scanQuestion r) in_) as [outcome|choice] eqn:Ec.
  { apply does_ret. intros w _ _. by apply settled_outcome_false, (check_selection_unsettled _ _ _ Ec). }
  destruct (answered r).
  { apply clearing_does; [done|apply _|]. apply does_ret. intros w _ Hk. by eapply replay_selection_outcome. }
  eapply does_bind; [by apply does_now, _|]. intros t. cbv zeta. change (qr_QuestionID (scanQuestion r)) with (qr_QuestionID r).
  eapply does_bind.
  { apply does_try; [apply _|]. apply (settle_answer_does r); [apply _|done|done|]. by apply check_selection_authorised. }
  intros [[updated settled]|e]; [|by apply does_ret]. cbn [fst snd].
  apply (does_since (λ w, updated = zero_question ∨ ∃ r', (updated = scanQuestion r' ∧ (∃ w1, row_ok w1 r') ∧ later r r') ∧ known r' w)).
  2:{ intros w _ [_ [_ [[-> _]|(r' & w1 & -> & Hk & Hok & Hl)]]]; [by left|]. right. exists r'. eauto. }
  apply clearing_does; [done|apply _|]. apply does_ret. intros w _ [->|(r' & (-> & (w1 & Hok) & Hl) & Hk)]; [done|].
  eapply replay_selection_outcome; [done|exact Hok|]. by apply (check_selection_later r).
Qed.
End env.
End answers.
