(* ===== verification/QuestionHistory.v ===== *)
(** * QuestionHistory: what the questions guarantee over any history

    Histories of calls, in any interleaving, with failing stores, dying processes and
    restarts, over an admission of commands given by its interface. *)

From Stdlib Require Import ZArith Lia Ascii String.
From stdpp Require Import base numbers list gmap sets strings relations.
From S2P Require Import Prelude.
From S2P Require Import GoStrings.
From S2P Require Import Runs.
From S2P Require Import CommandOutbox.
From S2P Require Import QuestionTypes.
From S2P Require Import QuestionStore.
From S2P Require Import Questions.
From S2P Require Import QuestionSpec.
From S2P Require Import QuestionRuns.
From S2P Require Import QuestionOperations.
From S2P Require Import QuestionAnswers.

Local Open Scope string_scope.
Local Open Scope list_scope.
Local Open Scope Z_scope.

(** The calls that change a question. *)
Inductive operation :=
  | OpAsk (interaction : InteractionContext) (resume : ResumeTarget) (req : Request)
  | OpBind (questionID : string) (ref : DeliveryRef)
  | OpReply (in_ : InboundReply)
  | OpSelection (in_ : InboundSelection)
  | OpTimeout (questionID : string) (timedOutAt : Z)
  | OpScheduledTimeout (questionID : string)
  | OpWaitOver (questionID : string)
  | OpFail (questionID : string) (failure : Failure)
  | OpRecover.

Section history.
  Context `{ActorMessages} {W : Type} `{!Admission W}.
  Implicit Types (w : question_world W) (r : QuestionRecord).

Definition perform (S : question_env W) (op : operation) w : question_world W :=
  match op with
  | OpAsk interaction resume req => (Ask S interaction resume req w).1
  | OpBind id ref => (BindDelivery S id ref w).1
  | OpReply in_ => (ResolveReplyDetailed S in_ w).1
  | OpSelection in_ => (ResolveSelectionDetailed S in_ w).1
  | OpTimeout id t => (Timeout_ S id t w).1
  | OpScheduledTimeout id => (handleScheduledQuestionTimeout S id w).1
  | OpWaitOver id => (sessionTimeoutResult S id w).1
  | OpFail id failure => (FailDelivery S id failure w).1
  | OpRecover => (FlushAnswers S w).1
  end.

Inductive question_step : relation (question_world W) :=
  | qs_perform S op w : question_env_ok S → question_step w (perform S op w)
  | qs_restart w : question_step w (mkQuestionWorld (qw_rows w) (qw_outer w) "" (qw_dispatched w) (qw_cleared w) (qw_calls w))
  | qs_outer w o : outer_step (qw_outer w) o →
      question_step w (mkQuestionWorld (qw_rows w) o (qw_cursor w) (qw_dispatched w) (qw_cleared w) (qw_calls w)).

Definition no_questions w : Prop := qw_rows w = ∅ ∧ qw_dispatched w = [] ∧ qw_cleared w = [] ∧ outer_ok (qw_outer w).
Definition question_reachable w : Prop := ∃ w0, no_questions w0 ∧ rtc question_step w0 w.

Lemma does_moves {A} (m : run (question_world W) A) Q w : does (λ _, True) m Q → question_ok w → rtc question_move w (m w).1.
Proof. intros Hm Hok. specialize (Hm w Hok I). by destruct (m w), Hm. Qed.

Lemma perform_moves S op w : question_env_ok S → question_ok w → rtc question_move w (perform S op w).
Proof.
  intros HS Hok. destruct op; cbn [perform]; eapply does_moves; try exact Hok.
  - by apply Ask_does.
  - by apply BindDelivery_does.
  - by apply ResolveReplyDetailed_does.
  - by apply ResolveSelectionDetailed_does.
  - by apply Timeout_does, _.
  - by apply handleScheduledQuestionTimeout_does.
  - by apply sessionTimeoutResult_does.
  - by apply FailDelivery_does.
  - by apply FlushAnswers_does.
Qed.

Lemma question_step_moves w w' : question_ok w → question_step w w' → rtc question_move w w'.
Proof.
  intros Hok Hs. revert Hok. destruct Hs as [S op w0 HS|w0|w0 o Hs]; intros Hok; [by apply perform_moves|by apply rtc_once, qm_local|by apply rtc_once, qm_outer].
Qed.
Lemma question_steps_move w w' : question_ok w → rtc question_step w w' → rtc question_move w w'.
Proof.
  intros Hok Hs. induction Hs as [|w1 w2 w3 Hs _ IH]; [done|]. pose proof (question_step_moves _ _ Hok Hs) as Hm.
  etrans; [exact Hm|]. apply IH. by eapply ok_question_moves.
Qed.

Lemma no_questions_ok w : no_questions w → question_ok w.
Proof.
  intros (Er & Ed & Ec & Ho). split; [..|done|]; rewrite ?Er, ?Ed; try (intros id r E; by rewrite lookup_empty in E).
  by intros env ?%not_elem_of_nil.
Qed.
Lemma question_reachable_ok w : question_reachable w → question_ok w.
Proof. intros (w0 & Hn & Hs). apply no_questions_ok in Hn. eapply ok_question_moves; [exact Hn|]. by apply question_steps_move. Qed.

(** ** Properties *)

(** C5. A question is settled once. Whatever it was settled as (answered, timed out or
    failed), its status, its answer and its failure stay as they are in every later
    history, and an answer released to admission stays released. *)
Theorem settled_question_is_final w w' id r :
  question_reachable w → qw_rows w !! id = Some r → qr_Status r ≠ StatusPending → rtc question_step w w' →
  ∃ r', qw_rows w' !! id = Some r' ∧ qr_Status r' = qr_Status r ∧ qr_AnswerJSON r' = qr_AnswerJSON r ∧
        qr_FailureJSON r' = qr_FailureJSON r ∧
        (qr_AnswerContinuationPending r = false → qr_AnswerContinuationPending r' = false).
Proof.
  intros Hok%question_reachable_ok E Hs Hm%question_steps_move; [|done]. destruct (qo_key _ Hok _ _ E) as [Ek _].
  assert (Hk : known r w) by (apply known_row; by rewrite Ek). destruct (known_moves _ _ _ Hm Hk) as (r' & E' & Hl).
  exists r'. rewrite Ek in E'. split_and!; [done|by apply Hl..].
Qed.

(** C6. Every answer is authorised. In any reachable state an answered question carries the
    answer of somebody its request allows (only its requester where it names the
    requester), selecting one of its options or, where it takes free text, giving a text. *)
Theorem answers_are_authorised w id r :
  question_reachable w → qw_rows w !! id = Some r → qr_Status r = StatusAnswered →
  ∃ request answer, qr_AnswerJSON r = JsonOf (json_answer answer) ∧ decodeRequest r = Ok request ∧
    responderAllowed r request (an_AnsweredBy answer) = Ok true ∧ valid_choice request answer.
Proof.
  intros Hok%question_reachable_ok E Hs. destruct (ro_answered _ _ (qo_row _ Hok _ _ E) Hs) as (answer & Ea & request & ?).
  by exists request, answer.
Qed.

(** Controls are removed. When nothing is left to recover for an answered question,
    the channel confirmed that the controls of the message it is bound to now are
    removed, whatever it was bound to before. *)
Theorem controls_are_removed w id r :
  question_reachable w → qw_rows w !! id = Some r → qr_Status r = StatusAnswered → qr_AnswerControlsPending r = false →
  TrimSpace (qr_ProviderMessageID r) ≠ "" →
  ∃ request, request ∈ qw_cleared w ∧ cc_QuestionID request = id ∧
    cc_ProviderMessageID request = TrimSpace (qr_ProviderMessageID r) ∧ cc_ControlHandle request = TrimSpace (qr_ControlHandle r).
Proof.
  intros Hok%question_reachable_ok E Hs Hc Hm. destruct (ro_controls _ _ (qo_row _ Hok _ _ E) Hs Hc) as [_ Hg].
  destruct (Hg Hm) as (request & Hin & Hq & ?). destruct (qo_key _ Hok _ _ E) as [Ek Ht]. exists request.
  split; [done|]. by rewrite Hq, Ek, Ht.
Qed.

(** C17. What is reported as settled is in the table. When a reply or a selection is
    reported as having settled its question, the question is answered by it: by this user
    (and, for a reply, this message; for a selection, this option), and the continuation
    handed out is the one of the stored answer. *)
Theorem accepted_answer_is_recorded S w :
  question_reachable w → question_env_ok S →
  (∀ in_ w' out, ResolveReplyDetailed S in_ w = (w', Done out) → rr_Settled out.1 = true →
     ∃ r answer, qw_rows w' !! qr_QuestionID (rr_Record out.1) = Some r ∧ qr_Status r = StatusAnswered ∧
       qr_AnswerJSON r = JsonOf answer ∧ reply_answer in_ answer ∧
       (out.2 = None → ∃ env, rr_Continuation out.1 = Some env ∧ answeredContinuation r = Ok env)) ∧
  (∀ in_ w' out, ResolveSelectionDetailed S in_ w = (w', Done out) → rr_Settled out.1 = true →
     ∃ r answer, qw_rows w' !! qr_QuestionID (rr_Record out.1) = Some r ∧ qr_Status r = StatusAnswered ∧
       qr_AnswerJSON r = JsonOf answer ∧ selection_answer in_ r answer ∧
       (out.2 = None → ∃ env, rr_Continuation out.1 = Some env ∧ answeredContinuation r = Ok env)).
Proof.
  intros Hok%question_reachable_ok HS.
  assert (Hnow : ∀ by_ out w', settled_outcome by_ out w' → (∀ r r' answer, later r r' → by_ r answer → by_ r' answer) → rr_Settled out.1 = true →
            ∃ r answer, qw_rows w' !! qr_QuestionID (rr_Record out.1) = Some r ∧ qr_Status r = StatusAnswered ∧
              qr_AnswerJSON r = JsonOf answer ∧ by_ r answer ∧
              (out.2 = None → ∃ env, rr_Continuation out.1 = Some env ∧ answeredContinuation r = Ok env)).
  { intros by_ out w' Ho Hl Hset. destruct (Ho Hset) as (r & answer & Er & (r' & E & Hlater) & Hs & Ha & Hb & Hc).
    exists r', answer. rewrite Er. split_and!; [exact E| | |by apply (Hl r)|].
    - by rewrite (lt_status _ _ Hlater) by (by rewrite Hs).
    - by rewrite (lt_answer _ _ Hlater) by (by rewrite Hs).
    - intros En. destruct (Hc En) as (env & ? & ?). exists env. split; [done|]. by rewrite (answeredContinuation_later r r'). }
  split; intros in_ w' out E.
  - pose proof (ResolveReplyDetailed_does S HS in_ w Hok I) as Hd. rewrite E in Hd. destruct Hd as [_ Hd]. by apply (Hnow _ _ _ Hd).
  - pose proof (ResolveSelectionDetailed_does S HS in_ w Hok I) as Hd. rewrite E in Hd. destruct Hd as [_ Hd]. apply (Hnow _ _ _ Hd).
    intros r r' answer Hl (Hu & request & choice & Hr & ?). split; [done|]. exists request, choice. split; [|done].
    unfold decodeRequest in *. by rewrite (lt_request _ _ Hl).
Qed.
End history.

(** ** Witnesses

    One question with two options for its requester, asked, bound to a message, answered
    by a reply and recovered, over an admission that accepts everything. *)
#[export] Instance question_layer : ActorLayer := {|
  Envelope := string * string; env_ID := snd; env_Namespace := fst; env_To := λ _, mkAddress "question" "router"; env_Meta := λ _, ∅;
  env_ExpiresAt := λ _, 0; DedupeKeyOrID := snd; EncodeEnvelope := λ e, Ok (e.1 +:+ "/" +:+ e.2);
  DecodeEnvelope := λ s, let '(namespace, key, found) := Cut s "/"%char in if found then Ok (namespace, key) else Err (ErrText "no namespace");
  DecodeError := id; TransientError := id; PolicyError := id |}.
#[export] Instance question_messages : ActorMessages := {|
  Payload := continuation; MarshalPayload := λ c, Ok c; new_envelope := λ f, (ef_Namespace f, ef_DedupeKey f);
  SystemAddress := id; NewSHA1_OID := id |}.

Definition demo_interaction : InteractionContext :=
  mkInteraction false "" "s1" "telegram" (TurnCommand.mkLocator "telegram" "chat1" "{}" "s1") (mkUser "user1" "User")
    (mkInteractionOrigin "" "" "" "") "".
Definition demo_resume : ResumeTarget := mkResume "session:s1" "" "" "" ∅.
Definition demo_request : Request := mkRequest "Deploy?" [mkOption "yes" "Yes"; mkOption "no" "No"] false "requester" 0 ∅.
Definition demo_ref : DeliveryRef := mkDeliveryRef "telegram" "chat1" 0 "42" "" "c42".
Definition demo_reply : InboundReply := mkReply false 0 "telegram" "s1" "chat1" "42" "43" (mkUser "user1" "User") "Yes" 0.
Definition demo_selection : InboundSelection := mkSelection "telegram" "s1" "chat1" "question-q" "42" (mkUser "user1" "User") "no" 0 0.

Definition demo_env {W} (send : nat → Envelope → W → W * outcome (option DispatchReceipt)) : question_env W :=
  mkQuestionEnv (λ _, 1000) (λ _, Commits) (λ _, false) (λ _, None) (λ _, "q") (λ _ w, w) send None (Some (λ _ _, Ok tt)) None.
Definition demo_asked {W} (S : question_env W) (outer : W) : question_world W :=
  perform S (OpBind "question-q" demo_ref)
    (perform S (OpAsk demo_interaction demo_resume demo_request) (mkQuestionWorld ∅ outer "" [] [] 0)).
Definition demo_answered {W} (S : question_env W) (outer : W) : question_world W := perform S (OpReply demo_reply) (demo_asked S outer).
Definition demo_recovered {W} (S : question_env W) (outer : W) : question_world W := perform S OpRecover (demo_answered S outer).

Section demo.
  Context {W : Type} `{!Admission W} (S : question_env W) (HS : question_env_ok S) (outer : W) (Ho : outer_ok outer).

Lemma demo_asked_reachable : question_reachable (demo_asked S outer).
Proof using HS Ho.
  exists (mkQuestionWorld ∅ outer "" [] [] 0). split; [by repeat split|]. eapply rtc_l; [by apply (qs_perform S (OpAsk demo_interaction demo_resume demo_request))|].
  apply rtc_once. by apply (qs_perform S (OpBind "question-q" demo_ref)).
Qed.
Lemma demo_answered_reachable : question_reachable (demo_answered S outer).
Proof using HS Ho.
  destruct demo_asked_reachable as (w0 & Hn & Hs). exists w0. split; [done|]. eapply rtc_r; [exact Hs|]. by apply (qs_perform S (OpReply demo_reply)).
Qed.
Lemma demo_recovered_reachable : question_reachable (demo_recovered S outer).
Proof using HS Ho.
  destruct demo_answered_reachable as (w0 & Hn & Hs). exists w0. split; [done|]. eapply rtc_r; [exact Hs|]. by apply (qs_perform S OpRecover).
Qed.
End demo.

(** An admission that accepts everything. *)
Definition accepting : Admission () := mkAdmission _ () (λ _, True) eq (λ _ _, True) (λ _ _ _ _, I).
#[local] Existing Instance accepting.
Definition demo_around_questions : question_env () := demo_env (λ _ env o, (o, Done (Some (mkReceipt "local" env.2 false)))).
Lemma demo_around_questions_ok : question_env_ok demo_around_questions.
Proof. split; [done|intros n; vm_compute; reflexivity|done|by eexists]. Qed.

Definition row_of {W} (w : question_world W) : QuestionRecord := default zero_question (qw_rows w !! "question-q").

Lemma settled_question_is_final_witness :
  ∃ r', qw_rows (demo_recovered demo_around_questions ()) !! "question-q" = Some r' ∧ qr_Status r' = StatusAnswered.
Proof.
  destruct (settled_question_is_final (demo_answered demo_around_questions ()) (demo_recovered demo_around_questions ()) "question-q"
    (row_of (demo_answered demo_around_questions ()))) as (r' & E & Es & _).
  - apply demo_answered_reachable; [apply demo_around_questions_ok|done].
  - vm_compute. reflexivity.
  - vm_compute. discriminate.
  - apply rtc_once. apply (qs_perform demo_around_questions OpRecover), demo_around_questions_ok.
  - exists r'. split; [exact E|]. rewrite Es. vm_compute. reflexivity.
Defined.

Lemma answers_are_authorised_witness :
  ∃ request answer, qr_AnswerJSON (row_of (demo_answered demo_around_questions ())) = JsonOf (json_answer answer) ∧
    decodeRequest (row_of (demo_answered demo_around_questions ())) = Ok request ∧
    responderAllowed (row_of (demo_answered demo_around_questions ())) request (an_AnsweredBy answer) = Ok true ∧ valid_choice request answer.
Proof.
  apply (answers_are_authorised (demo_answered demo_around_questions ()) "question-q").
  - apply demo_answered_reachable; [apply demo_around_questions_ok|done].
  - vm_compute. reflexivity.
  - vm_compute. reflexivity.
Defined.

Lemma controls_are_removed_witness :
  ∃ request, request ∈ qw_cleared (demo_recovered demo_around_questions ()) ∧ cc_QuestionID request = "question-q" ∧
    cc_ProviderMessageID request = "42" ∧ cc_ControlHandle request = "c42".
Proof.
  refine (controls_are_removed (demo_recovered demo_around_questions ()) "question-q" (row_of (demo_recovered demo_around_questions ())) _ _ _ _ _).
  - apply demo_recovered_reachable; [apply demo_around_questions_ok|done].
  - vm_compute. reflexivity.
  - vm_compute. reflexivity.
  - vm_compute. reflexivity.
  - vm_compute. discriminate.
Defined.

Lemma accepted_answer_is_recorded_witness :
  ∃ r answer, qw_rows (demo_answered demo_around_questions ()) !! "question-q" = Some r ∧ qr_Status r = StatusAnswered ∧
    qr_AnswerJSON r = JsonOf answer ∧ reply_answer demo_reply answer.
Proof.
  set (w := demo_asked demo_around_questions ()).
  assert (E : ∃ out, ResolveReplyDetailed demo_around_questions demo_reply w = (demo_answered demo_around_questions (), Done out) ∧
            rr_Settled out.1 = true ∧ qr_QuestionID (rr_Record out.1) = "question-q").
  { eexists. split; [vm_compute; reflexivity|]. split; vm_compute; reflexivity. }
  destruct E as (out & E & Es & Ei).
  destruct (proj1 (accepted_answer_is_recorded demo_around_questions w (demo_asked_reachable _ demo_around_questions_ok () I)
    demo_around_questions_ok) demo_reply _ out E Es) as (r & answer & Er & Hs & Ha & Hr & _).
  exists r, answer. rewrite Ei in Er. split_and!; [exact Er|exact Hs|exact Ha|exact Hr].
Defined.
