(* ===== verification/QuestionOutbox.v ===== *)
(** * QuestionOutbox: answers go through the command outbox

    The outbox of [CommandOutbox] is what the recovery of answers dispatches to, and
    keeps what [QuestionSpec] asks of an admission; so an answer that is no longer marked
    for recovery has a row in the outbox, or the receipt of its publication. *)

From Stdlib Require Import ZArith Lia String.
From stdpp Require Import base numbers list gmap sets strings relations.
From S2P Require Import Prelude.
From S2P Require Import GoStrings.
From S2P Require Import Sha256.
From S2P Require Import TurnCommand.
From S2P Require Import Runs.
From S2P Require Import CommandOutbox.
From S2P Require Import OutboxSpec.
From S2P Require Import OutboxRefinement.
From S2P Require Import OutboxRuns.
From S2P Require Import OutboxHistory.
From S2P Require Import QuestionTypes.
From S2P Require Import QuestionStore.
From S2P Require Import Questions.
From S2P Require Import QuestionSpec.
From S2P Require Import QuestionRuns.
From S2P Require Import QuestionHistory.

Local Open Scope string_scope.
Local Open Scope list_scope.
Local Open Scope Z_scope.

Section outbox.
  Context `{ActorMessages} (T : Z → Prop).

(** A row of the command, or the receipt of its publication. *)
Definition has_row (o : outbox_world) (env : Envelope) : Prop :=
  (∃ r, ow_store o !! pending_key (outbox_id env) = Some (Record_ r) ∧ ir_Receipt r = None) ∨
  (∃ r receipt, ow_store o !! receipt_key (outbox_id env) = Some (Record_ r) ∧ ir_Receipt r = Some receipt).

Lemma reachable_dispatch o o' : outbox_reachable o → dispatch_step o o' → outbox_reachable o'.
Proof. intros (o0 & Hf & Hs) Hd. exists o0. split; [done|]. eapply rtc_r; [exact Hs|]. by apply os_dispatch. Qed.

Lemma outbox_step_any o o' : outbox_step T o o' → outbox_step (λ _, True) o o'.
Proof.
  destruct 1 as [o o' Hd|S o [_ Ho]|o|key v o Hk]; [by apply os_dispatch|apply os_flush; by split|apply os_restart|by apply os_foreign].
Qed.

Lemma reachable_outbox_step o o' : outbox_reachable o → outbox_step T o o' → outbox_reachable o'.
Proof. intros (o0 & Hf & Hs) Hd. exists o0. split; [done|]. eapply rtc_r; [exact Hs|]. by apply outbox_step_any. Qed.

#[export] Instance outbox_admission : Admission outbox_world :=
  mkAdmission _ _ outbox_reachable (outbox_step T) has_row reachable_outbox_step.

(** [Dispatcher.Dispatch] as the port of the recovery. *)
Definition outbox_dispatch (around : nat → surroundings) (n : nat) (env : Envelope) (o : outbox_world) :
    outbox_world * outcome (option DispatchReceipt) :=
  match Dispatch (around n) env o with
  | (o', Done receipt) => (o', Done (Some receipt))
  | (o', Failed e) => (o', Failed e)
  | (o', Died) => (o', Died)
  end.

Lemma outbox_dispatch_lawful around n env (o : outbox_world) : outbox_reachable o →
  let '(o', answer) := outbox_dispatch around n env o in
  rtc outer_step o o' ∧ ∀ receipt, answer = Done (Some receipt) → durable o' env.
Proof.
  intros Hreach. unfold outbox_dispatch. pose proof Hreach as (a & Hok & Hr)%reachable_represented.
  pose proof (Dispatch_sim (around n) env o a Hr Hok I) as Hs.
  assert (Hstep : rtc outer_step o (Dispatch (around n) env o).1) by (apply rtc_once, os_dispatch; by exists (around n), env).
  destruct (Dispatch (around n) env o) as [o' [receipt|e|]]; (split; [exact Hstep|]); [|done..].
  intros _ _. destruct Hs as (a' & _ & Hok' & Hr' & [Hrow _]). destruct Hrow as [(r & E)|(r & E)].
  - left. exists r. pose proof (rp_store _ _ Hr' (SPending (outbox_id env))) as Ep. cbn in Ep. rewrite E in Ep.
    split; [exact Ep|]. by apply (ok_row _ Hok' _ _ E).
  - right. destruct (ok_receipt _ Hok' _ _ E) as [[receipt' Er] _]. exists r, receipt'.
    pose proof (rp_store _ _ Hr' (SReceipt (outbox_id env))) as Ep. cbn in Ep. rewrite E in Ep. by split.
Qed.

(** C7. No answer is lost between the question and the outbox. Once an answered question
    is no longer marked for recovery, the outbox held a row of its continuation, or the
    receipt of its publication, in a state from which it came to the present one by its
    own steps; and both are found under an identity that depends on the question alone. *)
Theorem released_answer_is_admitted (w : question_world outbox_world) id r :
  (∀ f, env_Namespace (new_envelope f) = ef_Namespace f) → (∀ f, ef_DedupeKey f ≠ "" → DedupeKeyOrID (new_envelope f) = ef_DedupeKey f) →
  question_reachable w → qw_rows w !! id = Some r → qr_Status r = StatusAnswered → qr_AnswerContinuationPending r = false →
  ∃ env o, answeredContinuation r = Ok env ∧ has_row o env ∧ outbox_reachable o ∧ rtc (outbox_step T) o (qw_outer w) ∧
    outbox_id env = sha256_hex ("question.command/question:" +:+ id +:+ ":answered").
Proof.
  intros Hns Hkey Hok%question_reachable_ok E Hs Hc. destruct (ro_released _ _ (qo_row _ Hok _ _ E) Hs Hc) as (env & Ec & Hin).
  destruct (qo_dispatched _ Hok env Hin) as (o & Hd & Ho & Hsteps). exists env, o. split_and!; [done..|].
  destruct (qo_key _ Hok _ _ E) as [Ek Ht]. unfold answeredContinuation in Ec.
  apply bind_Ok in Ec as (interaction & _ & Ec). apply bind_Ok in Ec as (resume & _ & Ec). apply bind_Ok in Ec as (answer & _ & Ec).
  unfold AnsweredEnvelope, continuation_envelope in Ec. apply bind_Ok in Ec as (to & _ & Ec). apply bind_Ok in Ec as (data & _ & [= <-]).
  unfold outbox_id. rewrite Hns, Hkey by done. cbn [ef_Namespace ef_DedupeKey]. unfold dedupe_key. by rewrite Ek, Ht.
Qed.
End outbox.

(** ** Witness: an answer recovered through an empty outbox *)
Definition empty_outbox : outbox_world (H := question_layer) := mkOutboxWorld ∅ ∅ [] 0.
Definition still_around : surroundings (H := question_layer) :=
  mkSurroundings (λ _, 1000) (λ _, Commits) (λ _, false) (λ _, None) (λ _ _, Err (ErrText "bus unavailable")) (λ _ w, w).
Definition demo_through_outbox : question_env (H := question_layer) outbox_world := demo_env (outbox_dispatch (λ _, still_around)).
Definition demo_released : question_world outbox_world := demo_recovered demo_through_outbox empty_outbox.

Lemma released_answer_is_admitted_witness :
  ∃ env o, answeredContinuation (row_of demo_released) = Ok env ∧ has_row o env ∧ outbox_reachable o ∧
    rtc (outbox_step (λ _, True)) o (qw_outer demo_released) ∧
    outbox_id env = sha256_hex "question.command/question:question-q:answered".
Proof.
  refine (released_answer_is_admitted (H0 := question_messages) (λ _, True) demo_released "question-q" (row_of demo_released) _ _ _ _ _ _).
  - done.
  - done.
  - apply (demo_recovered_reachable demo_through_outbox).
    + split; [done|intros n; vm_compute; reflexivity|intros n env o; apply outbox_dispatch_lawful|by eexists].
    + exists empty_outbox. split; [split; [intros s; apply lookup_empty|done]|done].
  - vm_compute. reflexivity.
  - vm_compute. reflexivity.
  - vm_compute. reflexivity.
Defined.
