(* ===== verification/QuestionRecovery.v ===== *)
(** * QuestionRecovery: no answer starves

    The recovery of answers works in batches of 32 behind a cursor.  With a store that
    answers, every recoverable answer is admitted within a number of flushes given by how
    many are waiting, however often the others fail. *)

From Stdlib Require Import ZArith Lia String.
From stdpp Require Import base numbers list gmap sets strings relations sorting.
From S2P Require Import Prelude.
From S2P Require Import GoStrings.
From S2P Require Import GoParse.
From S2P Require Import Runs.
From S2P Require Import CommandOutbox.
From S2P Require Import QuestionTypes.
From S2P Require Import QuestionStore.
From S2P Require Import Questions.
From S2P Require Import QuestionSpec.
From S2P Require Import QuestionRuns.
From S2P Require Import QuestionOperations.
From S2P Require Import QuestionHistory.

Local Open Scope string_scope.
Local Open Scope list_scope.
Local Open Scope Z_scope.

(** ** Batches behind a cursor *)
Notation below s t := (string_ltb s t = true).

Lemma below_trans s t u : below s t → below t u → below s u.
Proof.
  rewrite !string_ltb_leb, !negb_true_iff. intros H1 H2. destruct (string_leb u s) eqn:E; [|done].
  destruct (string_leb_total t u) as [Ht|Ht]; [|congruence]. rewrite (string_leb_trans t u s) in H1; done.
Qed.
Lemma below_irrefl s : ¬ below s s.
Proof. by rewrite string_ltb_leb, string_leb_refl. Qed.
Lemma below_leb s t : string_leb s t = true → s ≠ t → below s t.
Proof.
  intros Hl Hne. rewrite string_ltb_leb, negb_true_iff. destruct (string_leb t s) eqn:E; [|done]. destruct Hne. by apply string_leb_antisym.
Qed.
Lemma not_below s t : string_ltb s t = false → s ≠ t → below t s.
Proof. rewrite string_ltb_leb, negb_false_iff. intros Hl Hne. by apply below_leb. Qed.

Section batches.
  Implicit Types (U l : list string) (c t : string).

(** How many of [U] lie strictly between, and above. *)
Definition between U c t : nat := length (filter (λ u, below c u ∧ below u t) U).
Definition above U c : nat := length (filter (λ u, below c u) U).
Definition upto U t : nat := length (filter (λ u, below u t) U).
Definition after U c : list string := sort_Strings (filter (λ u, below c u) U).

Lemma length_after U c : length (after U c) = above U c.
Proof. unfold after, above. by rewrite sort_Strings_perm. Qed.
Lemma after_elem U c u : u ∈ after U c ↔ below c u ∧ u ∈ U.
Proof. unfold after. by rewrite sort_Strings_perm, list_elem_of_filter. Qed.
Lemma after_NoDup U c : NoDup U → NoDup (after U c).
Proof. intros HU. unfold after. rewrite sort_Strings_perm. by apply NoDup_filter. Qed.
Lemma after_sorted U c : NoDup U → StronglySorted (λ s t, below s t) (after U c).
Proof.
  intros HU. pose proof (after_NoDup U c HU) as Hn. pose proof (sort_Strings_sorted (filter (λ u, below c u) U)) as Hs.
  fold (after U c) in Hs. induction Hs as [|s l Hs IH Hall]; constructor; apply NoDup_cons in Hn as [Hni Hn]; [by apply IH|].
  rewrite Forall_forall in Hall |- *. intros x Hx. apply below_leb; [by apply Hall|]. by intros ->.
Qed.

Lemma batch_NoDup U c : NoDup U → NoDup (take 32 (after U c)).
Proof. intros HU%(after_NoDup U c). rewrite <-(take_drop 32 (after U c)) in HU. by apply NoDup_app in HU as [? _]. Qed.

(** A full batch: its last element, and what is left behind it. *)
Lemma full_batch U c : NoDup U → (32 ≤ above U c)%nat →
  ∃ l c', after U c = l ++ c' :: drop 32 (after U c) ∧ length l = 31%nat ∧ below c c'.
Proof.
  intros HU Hlen. rewrite <-length_after in Hlen. destruct (lookup_lt_is_Some_2 (after U c) 31) as [c' E]; [lia|].
  exists (take 31 (after U c)), c'. split_and!.
  - rewrite <-(take_drop 31 (after U c)) at 1. f_equal. by apply drop_S.
  - rewrite length_take. lia.
  - by apply list_elem_of_lookup_2, after_elem in E as [? _].
Qed.

Lemma batch_le U c l c' rest : NoDup U → after U c = l ++ c' :: rest →
  ∀ u, u ∈ l ++ [c'] → below c u ∧ u ∈ U ∧ string_ltb c' u = false.
Proof.
  intros HU E u Hu. assert (Hin : u ∈ after U c).
  { rewrite E. apply elem_of_app in Hu as [?| ->%list_elem_of_singleton]; apply elem_of_app; [by left|right; left]. }
  apply after_elem in Hin as [? ?]. split_and!; [done..|]. pose proof (after_sorted U c HU) as Hs. rewrite E in Hs.
  apply elem_of_app in Hu as [Hu| ->%list_elem_of_singleton]; [|apply not_true_is_false, below_irrefl].
  assert (Hlt : below u c') by (eapply (StronglySorted_app_1_elem_of (λ s t, below s t)); [exact Hs|exact Hu|left]).
  apply not_true_is_false. intros Hb. by apply (below_irrefl u), (below_trans u c' u).
Qed.

Lemma counted_apart U (P Q : string → Prop) `{∀ u, Decision (P u)} `{∀ u, Decision (Q u)} l : NoDup U → NoDup l →
  (∀ u, u ∈ l → u ∈ U ∧ Q u ∧ ¬ P u) → (∀ u, P u → Q u) → (length l + length (filter P U) ≤ length (filter Q U))%nat.
Proof.
  intros HU Hl Hin HPQ. rewrite <-length_app. apply submseteq_length, NoDup_submseteq.
  - apply NoDup_app. split_and!; [done| |by apply NoDup_filter]. intros u Hu [Hp _]%list_elem_of_filter. by apply (Hin u).
  - intros u [Hu|[Hp Hu]%list_elem_of_filter]%elem_of_app; apply list_elem_of_filter; [by split; apply (Hin u)|auto].
Qed.

(** How many flushes it takes at most until the batch holds [t]. *)
Definition patience U c t : nat :=
  if string_ltb c t then S (between U c t / 32)
  else S (S (above U c / 32 + upto U t / 32)).

(** A batch from a cursor before [t] holds it or leaves the cursor before [t], nearer. *)
Lemma batch_before U c t : NoDup U → t ∈ U → below c t →
  t ∈ take 32 (after U c) ∨
  (32 ≤ above U c)%nat ∧ ∃ c', last (take 32 (after U c)) = Some c' ∧ below c' t ∧ (32 + between U c' t ≤ between U c t)%nat.
Proof.
  intros HU Ht Hc. destruct (decide (t ∈ take 32 (after U c))) as [?|Hni]; [by left|right].
  assert (Hin : t ∈ drop 32 (after U c)).
  { assert (t ∈ after U c) as Hin by (by apply after_elem). rewrite <-(take_drop 32) in Hin. by apply elem_of_app in Hin as [?|?]. }
  assert (Hlen : (32 ≤ above U c)%nat).
  { rewrite <-length_after. destruct (decide (32 ≤ length (after U c))%nat); [done|]. rewrite drop_ge in Hin by lia. by apply not_elem_of_nil in Hin. }
  split; [done|]. destruct (full_batch U c HU Hlen) as (l & c' & E & Hl & Hcc').
  assert (Htake : take 32 (after U c) = l ++ [c']).
  { rewrite E. rewrite take_app_ge by lia. rewrite Hl. done. }
  assert (Hct : below c' t).
  { pose proof (after_sorted U c HU) as Hs. rewrite E in Hs. apply StronglySorted_app_1_r in Hs.
    apply StronglySorted_inv in Hs as [_ Hall]. rewrite Forall_forall in Hall. by apply Hall. }
  exists c'. rewrite Htake, last_snoc. split_and!; [done..|].
  replace 32%nat with (length (l ++ [c'])) by (rewrite length_app; cbn; lia). unfold between. apply counted_apart; [done| | |].
  - rewrite <-Htake. by apply batch_NoDup.
  - intros u Hu. destruct (batch_le U c l c' _ HU E u Hu) as (Hb & HuU & Hle). split_and!; [done..| |].
    + destruct (decide (u = c')) as [->|Hne]; [done|]. apply (below_trans u c' t); [|done]. apply not_below; congruence.
    + intros [Hb' _]. congruence.
  - intros u [Hb1 Hb2]. split; [|done]. by apply (below_trans c c' u).
Qed.

(** From a cursor not before [t] a full batch lowers what is above. *)
Lemma batch_after U c : NoDup U → (32 ≤ above U c)%nat →
  ∃ c', last (take 32 (after U c)) = Some c' ∧ below c c' ∧ (32 + above U c' ≤ above U c)%nat.
Proof.
  intros HU Hlen. destruct (full_batch U c HU Hlen) as (l & c' & E & Hl & Hcc').
  assert (Htake : take 32 (after U c) = l ++ [c']) by (rewrite E, take_app_ge by lia; by rewrite Hl).
  exists c'. rewrite Htake, last_snoc. split_and!; [done..|].
  replace 32%nat with (length (l ++ [c'])) by (rewrite length_app; cbn; lia). unfold above. apply counted_apart; [done| | |].
  - rewrite <-Htake. by apply batch_NoDup.
  - intros u Hu. destruct (batch_le U c l c' _ HU E u Hu) as (Hb & HuU & Hle). split_and!; [done..|]. congruence.
  - intros u Hb. by apply (below_trans c c' u).
Qed.

Lemma count_le U U' (P Q : string → Prop) `{∀ u, Decision (P u)} `{∀ u, Decision (Q u)} :
  NoDup U' → (∀ u, u ∈ U' → u ∈ U) → (∀ u, P u → Q u) → (length (filter P U') ≤ length (filter Q U))%nat.
Proof.
  intros HU Hin HPQ. apply submseteq_length, NoDup_submseteq; [by apply NoDup_filter|].
  intros u [Hp Hu]%list_elem_of_filter. apply list_elem_of_filter. auto.
Qed.

(** A flush that leaves [t] in its place shortens the wait. *)
Lemma patience_lowered U U' c c' t : NoDup U → NoDup U' → (∀ u, u ∈ U' → u ∈ U) → t ∈ U → t ≠ "" → t ∉ take 32 (after U c) →
  (if decide (32 ≤ above U c)%nat then last (take 32 (after U c)) = Some c' else c' = "") →
  (patience U' c' t < patience U c t)%nat.
Proof.
  intros HU HU' Hsub Ht Hne Hni Hc'. unfold patience. destruct (string_ltb c t) eqn:Hc.
  - destruct (batch_before U c t HU Ht Hc) as [?|(Hlen & c1 & E & Hb & Hle)]; [done|]. rewrite decide_True in Hc' by done.
    rewrite E in Hc'. injection Hc' as <-. rewrite Hb. apply (proj1 (Nat.succ_lt_mono _ _)).
    pose proof (count_le U U' (λ u, below c1 u ∧ below u t) (λ u, below c1 u ∧ below u t) HU' Hsub ltac:(done)) as Hb'.
    change ((between U' c1 t ≤ between U c1 t)%nat) in Hb'. apply Nat.div_le_mono with (c := 32%nat) in Hle as Hd; [|done].
    replace (32 + between U c1 t)%nat with (1 * 32 + between U c1 t)%nat in Hd by lia. rewrite Nat.div_add_l in Hd by done.
    apply Nat.div_le_mono with (c := 32%nat) in Hb'; [|done]. lia.
  - assert (Hup : (upto U' t / 32 ≤ upto U t / 32)%nat) by (apply Nat.div_le_mono; [done|]; by apply count_le).
    destruct (decide (32 ≤ above U c)%nat) as [Hlen|Hlen].
    + destruct (batch_after U c HU Hlen) as (c1 & E & Hcc1 & Hle). rewrite E in Hc'. injection Hc' as <-.
      assert (string_ltb c1 t = false) as ->.
      { apply not_true_is_false. intros Hb. by rewrite (below_trans c c1 t) in Hc. }
      assert (Ha : (above U' c1 ≤ above U c1)%nat) by by apply count_le.
      apply Nat.div_le_mono with (c := 32%nat) in Hle as Hd; [|done].
      replace (32 + above U c1)%nat with (1 * 32 + above U c1)%nat in Hd by lia. rewrite Nat.div_add_l in Hd by done.
      apply Nat.div_le_mono with (c := 32%nat) in Ha; [|done]. lia.
    + subst c'. assert (string_ltb "" t = true) as -> by (apply below_leb; [by destruct t|congruence]).
      assert (Hb : (between U' "" t ≤ upto U t)%nat) by (apply count_le; [done..|by intros u [_ ?]]).
      apply Nat.div_le_mono with (c := 32%nat) in Hb; [|done]. lia.
Qed.

Lemma patience_bound U c t : NoDup U → t ∈ U → (patience U c t ≤ length U / 32 + 2)%nat.
Proof.
  intros HU Ht. unfold patience. destruct (string_ltb c t) eqn:Hc.
  - assert (Hb : (between U c t ≤ length U)%nat) by apply length_filter. apply Nat.div_le_mono with (c := 32%nat) in Hb; [|done]. lia.
  - assert (Hb : (above U c + upto U t ≤ length U)%nat).
    { unfold above, upto. rewrite <-length_app. apply submseteq_length, NoDup_submseteq.
      - apply NoDup_app. split_and!; [by apply NoDup_filter| |by apply NoDup_filter].
        intros u [H1 _]%list_elem_of_filter [H2 _]%list_elem_of_filter. by rewrite (below_trans c u t) in Hc.
      - by intros u [[_ ?]%list_elem_of_filter|[_ ?]%list_elem_of_filter]%elem_of_app. }
    assert (Hd : (above U c / 32 + upto U t / 32 ≤ length U / 32)%nat).
    { transitivity ((above U c + upto U t) / 32)%nat; [|by apply Nat.div_le_mono]. apply Nat.div_le_lower_bound; [done|].
      pose proof (Nat.mul_div_le (above U c) 32). pose proof (Nat.mul_div_le (upto U t) 32). lia. }
    lia.
Qed.
End batches.

(** ** Flushes with a store that answers *)
Section recovery.
  Context `{ActorMessages} {W : Type} (S : question_env W).
  Implicit Types (w : question_world W) (r : QuestionRecord).

(** The store answers, nobody else writes, and the process lives on; dispatches and the
    removal of controls may fail. *)
Record quiet : Prop := mkQuiet {
  qt_others : ∀ n w, qe_others S n w = w;
  qt_fates : ∀ n, qe_fates S n = Commits;
  qt_died : ∀ n, qe_died S n = false;
  qt_ctx : ∀ n, qe_ctxErr S n = None;
  qt_dispatch : ∀ n env o, (qe_dispatch S n env o).2 ≠ Died }.

Definition waiting_ids w : list string := map fst (map_to_list (filter (λ p, awaiting_recovery p.2 = true) (qw_rows w))).
Definition held r : bool := answered r && qr_AnswerContinuationPending r.

Lemma waiting_NoDup w : NoDup (waiting_ids w).
Proof. apply NoDup_fst_map_to_list. Qed.
Lemma waiting_elem w id : id ∈ waiting_ids w ↔ ∃ r, qw_rows w !! id = Some r ∧ awaiting_recovery r = true.
Proof.
  unfold waiting_ids. rewrite list_elem_of_fmap. split.
  - intros ([id' r] & -> & Hin). exists r. by apply elem_of_map_to_list, map_lookup_filter_Some in Hin.
  - intros (r & E & Hu). exists (id, r). split; [done|]. by apply elem_of_map_to_list, map_lookup_filter_Some.
Qed.
Lemma ids_after_waiting c w : ids_after c (qw_rows w) = after (waiting_ids w) c.
Proof. reflexivity. Qed.

(** Rows only lose their markers. *)
Record keeps w w' : Prop := mkKeeps {
  kp_rows : ∀ id r', qw_rows w' !! id = Some r' → ∃ r, qw_rows w !! id = Some r ∧ (awaiting_recovery r' = true → awaiting_recovery r = true) ∧
    (held r' = true → held r = true ∧ answeredContinuation r' = answeredContinuation r);
  kp_stay : ∀ id r, qw_rows w !! id = Some r → ∃ r', qw_rows w' !! id = Some r' ∧ qr_Status r' = qr_Status r;
  kp_cursor : qw_cursor w' = qw_cursor w }.

Lemma keeps_same w w' : qw_rows w' = qw_rows w → qw_cursor w' = qw_cursor w → keeps w w'.
Proof. intros Er Ec. split; [intros id r' E; rewrite Er in E; by exists r'|intros id r E; rewrite Er; by exists r|done]. Qed.
Lemma keeps_refl w : keeps w w.
Proof. by apply keeps_same. Qed.
Lemma keeps_trans w1 w2 w3 : keeps w1 w2 → keeps w2 w3 → keeps w1 w3.
Proof.
  intros [Hr1 Hs1 Hc1] [Hr2 Hs2 Hc2]. split; [| |congruence].
  - intros id r3 E3. destruct (Hr2 _ _ E3) as (r2 & E2 & Hu2 & Hh2). destruct (Hr1 _ _ E2) as (r1 & E1 & Hu1 & Hh1).
    exists r1. split_and!; [done|auto|]. intros Hh. destruct (Hh2 Hh) as [Hh' ->]. auto.
  - intros id r1 E1. destruct (Hs1 _ _ E1) as (r2 & E2 & Es). destruct (Hs2 _ _ E2) as (r3 & E3 & ?). exists r3. split; [done|congruence].
Qed.

Definition calm {A} (m : run (question_world W) A) : Prop := ∀ w, keeps w (m w).1 ∧ (m w).2 ≠ Died.

Lemma calm_ret {A} (a : A) : calm (mret a).
Proof. intros w. split; [apply keeps_refl|done]. Qed.
Lemma calm_fail {A} e : calm (A := A) (fail e).
Proof. intros w. split; [apply keeps_refl|done]. Qed.
Lemma calm_lift {A} (x : result A) : calm (lift x).
Proof. destruct x; [apply calm_ret|apply calm_fail]. Qed.
Lemma calm_bind {A B} (m : run (question_world W) A) (k : A → run (question_world W) B) : calm m → (∀ a, calm (k a)) → calm (m ≫= k).
Proof.
  intros Hm Hk w. unfold mbind, run_bind. specialize (Hm w). destruct (m w) as [w1 [a|e|]]; destruct Hm as [Hkeep Hd]; [|by split|done].
  destruct (Hk a w1) as [Hkeep' ?]. split; [|done]. by eapply keeps_trans.
Qed.
Lemma calm_try {A} (m : run (question_world W) A) : calm m → calm (try m).
Proof. intros Hm w. unfold try. specialize (Hm w). destruct (m w) as [w1 [a|e|]]; destruct Hm; by split. Qed.
Lemma calm_wrapped {A} message (m : run (question_world W) A) : calm m → calm (q_wrapped message m).
Proof. intros Hm w. unfold q_wrapped. specialize (Hm w). destruct (m w) as [w1 [a|e|]]; destruct Hm; by split. Qed.

Section quiet.
  Context (Hq : quiet).

Definition bump w : question_world W :=
  mkQuestionWorld (qw_rows w) (qw_outer w) (qw_cursor w) (qw_dispatched w) (qw_cleared w) (Datatypes.S (qw_calls w)).
Lemma q_step_quiet {A} (f : nat → run (question_world W) A) w : q_step S f w = f (qw_calls w) (bump w).
Proof using Hq. unfold q_step. by rewrite (qt_died Hq), (qt_others Hq). Qed.

Lemma calm_step {A} (f : nat → run (question_world W) A) : (∀ n, calm (f n)) → calm (q_step S f).
Proof using Hq.
  intros Hf w. rewrite q_step_quiet. destruct (Hf (qw_calls w) (bump w)) as [Hk ?]. split; [|done].
  eapply keeps_trans; [|exact Hk]. by apply keeps_same.
Qed.
Lemma calm_query {A} (view : gmap string QuestionRecord → A) : calm (q_query S view).
Proof using Hq. apply calm_step. intros n w. unfold read_fated. rewrite (qt_fates Hq). split; [apply keeps_refl|done]. Qed.
Lemma calm_get id : calm (GetQuestionByID S id).
Proof using Hq. apply calm_query. Qed.
Lemma calm_now : calm (q_now S).
Proof using Hq. apply calm_step. intros n. apply calm_ret. Qed.

(** A statement that only takes markers away. *)
Lemma calm_markers key guard set_ :
  (∀ r, guard r = true → qr_Status (set_ r) = qr_Status r ∧ (awaiting_recovery (set_ r) = true → awaiting_recovery r = true) ∧
        (held (set_ r) = true → held r = true ∧ answeredContinuation (set_ r) = answeredContinuation r)) →
  calm (q_exec S (update_where key guard set_)).
Proof using Hq.
  intros Hset. apply calm_step. intros n w. unfold update_where. rewrite (qt_fates Hq).
  assert (Hsame : keeps w (set_rows (λ _, qw_rows w) w)) by by apply keeps_same.
  destruct (qw_rows w !! key) as [r|] eqn:E; [destruct (guard r) eqn:Hg|]; cbn; (split; [|done]); try exact Hsame.
  destruct (Hset r Hg) as (Hst & Hu & Hh). split; [| |done]; cbn.
  - intros id r' [[<- <-]|[_ E']]%lookup_insert_Some; [|by exists r']. by exists r.
  - intros id r' E'. destruct (decide (key = id)) as [<-|Hne]; [|rewrite lookup_insert_ne by done; by exists r'].
    rewrite lookup_insert_eq. exists (set_ r). split; [done|]. congruence.
Qed.
Lemma calm_markers_lower c b t r : (c = true → qr_AnswerContinuationPending r = true) → (b = true → qr_AnswerControlsPending r = true) →
  qr_Status (with_markers c b t r) = qr_Status r ∧ (awaiting_recovery (with_markers c b t r) = true → awaiting_recovery r = true) ∧
  (held (with_markers c b t r) = true → held r = true ∧ answeredContinuation (with_markers c b t r) = answeredContinuation r).
Proof.
  intros Hc Hb. unfold awaiting_recovery, held. change (answered (with_markers c b t r)) with (answered r). cbn [with_markers qr_AnswerContinuationPending qr_AnswerControlsPending].
  rewrite !andb_true_iff, !orb_true_iff. split; [done|]. naive_solver.
Qed.

Lemma calm_release id : calm (MarkQuestionAnswerAdmitted S id).
Proof using Hq.
  apply calm_bind; [apply calm_now|]. intros t. apply calm_bind; [|intros a; apply calm_ret].
  apply calm_wrapped, calm_markers. intros r _. by apply calm_markers_lower.
Qed.
Lemma calm_cleared id ref : calm (MarkQuestionAnswerControlsCleared S id ref).
Proof using Hq.
  apply calm_bind; [|intros a; apply calm_ret]. apply calm_wrapped, calm_markers. intros r _. by apply calm_markers_lower.
Qed.
Lemma calm_cleanup record : calm (publishControlCleanup S record).
Proof using Hq.
  unfold publishControlCleanup. destruct (_ || _); [apply calm_ret|]. apply calm_bind; [apply calm_wrapped, calm_lift|]. intros interaction.
  unfold ClearQuestionControls. destruct (qe_controls S); [|apply calm_ret]. apply calm_step. intros n w. destruct (_ n _); cbn; (split; [|done]);
    by apply keeps_same.
Qed.
Lemma calm_dispatch env : calm (dispatch S env).
Proof using Hq.
  apply calm_step. intros n w. pose proof (qt_dispatch Hq n env (qw_outer w)) as Hd. destruct (qe_dispatch S n env (qw_outer w)) as [o a].
  split; [|done]. by apply keeps_same.
Qed.
Lemma calm_confirm id : calm (ConfirmAnswerAdmission S id).
Proof using Hq.
  apply calm_bind; [apply calm_get|]. intros [record|]; [|apply calm_ret]. destruct (negb (answered record)); [apply calm_ret|].
  apply calm_bind; [destruct (qr_AnswerContinuationPending record); [apply calm_release|apply calm_ret]|]. intros u.
  destruct (negb _); [apply calm_ret|]. apply calm_bind; [apply calm_cleanup|]. intros u'. apply calm_cleared.
Qed.
Lemma calm_recover id : calm (recover_answer S id).
Proof using Hq.
  apply calm_bind.
  - apply calm_bind; [apply calm_get|]. intros [record|]; [|apply calm_ret]. destruct (_ && _); [|apply calm_ret].
    apply calm_bind; [apply calm_lift|]. intros env. apply calm_ret.
  - intros found. apply calm_bind; [|intros u; apply calm_confirm]. destruct found as [env|]; [|apply calm_ret].
    apply calm_bind; [apply calm_dispatch|]. intros [receipt|]; [apply calm_ret|apply calm_fail].
Qed.

(** *** One answer *)
Lemma run_bind_done {A B} (m : run (question_world W) A) (k : A → run (question_world W) B) w w1 a :
  m w = (w1, Done a) → (m ≫= k) w = k a w1.
Proof. intros E. unfold mbind, run_bind. by rewrite E. Qed.
Lemma get_quiet id w : GetQuestionByID S id w = (bump w, Done (scanQuestion <$> qw_rows w !! TrimSpace id)).
Proof using Hq. unfold GetQuestionByID, q_query. rewrite q_step_quiet. unfold read_fated. by rewrite (qt_fates Hq). Qed.

Definition released t w : Prop := ∀ r, qw_rows w !! t = Some r → held r = false.
Definition admissible t w : Prop :=
  ∀ r, qw_rows w !! t = Some r → held r = true →
  ∃ env, answeredContinuation r = Ok env ∧ ∀ n o, ∃ receipt, (qe_dispatch S n env o).2 = Done (Some receipt).

Lemma released_kept t w w' : keeps w w' → released t w → released t w'.
Proof.
  intros [Hr _ _] Hrel r' E. destruct (Hr _ _ E) as (r & E' & _ & Hh). destruct (held r') eqn:Hheld; [|done].
  destruct (Hh eq_refl) as [Hheld' _]. rewrite (Hrel _ E') in Hheld'. done.
Qed.
Lemma admissible_kept t w w' : keeps w w' → admissible t w → admissible t w'.
Proof.
  intros [Hr _ _] Hadm r' E Hh. destruct (Hr _ _ E) as (r & E' & _ & Hheld). destruct (Hheld Hh) as [Hh' ->]. by apply Hadm.
Qed.

Lemma release_quiet t w r : TrimSpace t = t → qw_rows w !! t = Some r → answered r = true →
  ∃ w' t', MarkQuestionAnswerAdmitted S t w = (w', Done tt) ∧ qw_rows w' !! t = Some (with_markers false (qr_AnswerControlsPending r) t' r).
Proof using Hq.
  intros Ht E Ha. unfold MarkQuestionAnswerAdmitted. eexists _, _. split.
  - erewrite run_bind_done; [|unfold q_now; rewrite q_step_quiet; reflexivity]. erewrite run_bind_done; [reflexivity|].
    unfold q_wrapped, q_exec. rewrite q_step_quiet. unfold update_where. cbn [bump qw_rows]. rewrite Ht, E, Ha, (qt_fates Hq). reflexivity.
  - cbn. by rewrite lookup_insert_eq.
Qed.

Lemma recover_quiet t w : TrimSpace t = t → admissible t w → released t (recover_answer S t w).1.
Proof using Hq.
  intros Ht Hadm. destruct (qw_rows w !! t) as [r|] eqn:E.
  2:{ eapply released_kept; [by apply calm_recover|]. intros r' E'. congruence. }
  destruct (held r) eqn:Hh.
  2:{ eapply released_kept; [by apply calm_recover|]. intros r' E'. congruence. }
  destruct (Hadm r E Hh) as (env & Ec & Hd). pose proof Hh as [Ha Hc]%andb_true_iff.
  assert (Eans : AnsweredContinuation S t w = (bump w, Done (Some env))).
  { unfold AnsweredContinuation. erewrite run_bind_done by apply get_quiet. rewrite Ht, E. cbn [fmap option_fmap option_map].
    change (answered (scanQuestion r)) with (answered r). change (qr_AnswerContinuationPending (scanQuestion r)) with (qr_AnswerContinuationPending r).
    rewrite Ha, Hc. cbn [andb]. change (answeredContinuation (scanQuestion r)) with (answeredContinuation r). by rewrite Ec. }
  assert (Edis : ∃ w2 receipt, dispatch S env (bump w) = (w2, Done (Some receipt)) ∧ qw_rows w2 = qw_rows w).
  { unfold dispatch. rewrite q_step_quiet. destruct (Hd (qw_calls (bump w)) (qw_outer (bump (bump w)))) as [receipt Er].
    destruct (qe_dispatch S _ env _) as [o a]. cbn in Er. subst a. eexists _, _. split; reflexivity. }
  destruct Edis as (w2 & receipt & Edis & Erows). unfold recover_answer. erewrite run_bind_done by exact Eans.
  erewrite run_bind_done by (erewrite run_bind_done by exact Edis; reflexivity).
  unfold ConfirmAnswerAdmission. erewrite run_bind_done by apply get_quiet. rewrite Ht, Erows, E. cbn [fmap option_fmap option_map].
  change (answered (scanQuestion r)) with (answered r). rewrite Ha. cbn [negb].
  change (qr_AnswerContinuationPending (scanQuestion r)) with (qr_AnswerContinuationPending r). rewrite Hc.
  destruct (release_quiet t (bump w2) r Ht) as (w3 & t' & Emark & E3); [cbn; by rewrite Erows|done|].
  erewrite run_bind_done by exact Emark.
  assert (Hrel : released t w3).
  { intros r' E'. rewrite E3 in E'. injection E' as <-. unfold held. cbn. by rewrite andb_false_r. }
  eapply released_kept; [|exact Hrel]. destruct (negb _); [apply keeps_refl|].
  apply (calm_bind (publishControlCleanup S (scanQuestion r)) (λ _, MarkQuestionAnswerControlsCleared S t (ref_of (scanQuestion r))));
    [apply calm_cleanup|intros u; apply calm_cleared].
Qed.

(** *** A batch and a flush *)
Definition at_cursor c w : question_world W :=
  mkQuestionWorld (qw_rows w) (qw_outer w) c (qw_dispatched w) (qw_cleared w) (qw_calls w).
Lemma keeps_at_cursor c w w' : keeps w w' → keeps (at_cursor c w) (at_cursor c w').
Proof. intros [Hr Hs _]. by split. Qed.

Lemma recover_all_quiet t ids failures w : TrimSpace t = t → admissible t w →
  ∃ w' fs, recover_all S ids failures w = (w', Done fs) ∧ keeps (at_cursor (default (qw_cursor w) (last ids)) w) w' ∧
    (t ∈ ids → released t w').
Proof using Hq.
  intros Ht. revert failures w. induction ids as [|id ids IH]; intros failures w Hadm.
  { exists w, failures. split_and!; [done|by apply keeps_same|]. by intros ?%not_elem_of_nil. }
  cbn [recover_all]. erewrite run_bind_done by (unfold q_ctx_Err; rewrite q_step_quiet, (qt_ctx Hq); reflexivity). cbv beta iota.
  set (w0 := at_cursor id (bump w)). erewrite (run_bind_done (set_cursor id) _ _ w0) by reflexivity.
  assert (Hkeep0 : keeps (at_cursor id w) w0) by by apply keeps_same.
  assert (Hadm0 : admissible t w0) by exact Hadm.
  destruct (calm_recover id w0) as [Hkeep Halive]. pose proof (λ E : id = t, recover_quiet t w0 Ht Hadm0) as Hrec.
  assert (Etry : ∃ res, try (recover_answer S id) w0 = ((recover_answer S id w0).1, Done res)).
  { unfold try. destruct (recover_answer S id w0) as [w1 [a|e|]]; [by eexists..|done]. }
  destruct Etry as (res & Etry). erewrite run_bind_done by exact Etry. set (w1 := (recover_answer S id w0).1) in *.
  edestruct (IH (match res with Ok _ => failures | Err e => failures ++ [ErrWrap ("question " +:+ id) e] end) w1) as (w2 & fs & E2 & Hkeep2 & Hin2).
  { by eapply admissible_kept. }
  exists w2, fs. assert (Hcur : qw_cursor w1 = id) by (by rewrite (kp_cursor _ _ Hkeep)).
  split_and!; [exact E2| |].
  - replace (default (qw_cursor w) (last (id :: ids))) with (default (qw_cursor w1) (last ids)) by (rewrite Hcur, last_cons; by destruct (last ids)).
    eapply keeps_trans; [|exact Hkeep2]. apply (keeps_at_cursor _ (at_cursor id w) w1). by eapply keeps_trans.
  - intros [->|Hin]%elem_of_cons; [|by apply Hin2]. eapply released_kept; [exact Hkeep2|]. by apply Hrec.
Qed.

Lemma flush_quiet t w : TrimSpace t = t → admissible t w →
  let ids := take 32 (after (waiting_ids w) (qw_cursor w)) in
  ∃ c', keeps (at_cursor c' w) (FlushAnswers S w).1 ∧ (t ∈ ids → released t (FlushAnswers S w).1) ∧
    if decide (32 ≤ above (waiting_ids w) (qw_cursor w))%nat then last ids = Some c' else c' = "".
Proof using Hq.
  intros Ht Hadm ids. unfold FlushAnswers.
  assert (Elist : PendingQuestionAnswerIDs S (qw_cursor w) batch w = (bump w, Done ids)).
  { unfold PendingQuestionAnswerIDs. erewrite run_bind_done by reflexivity. unfold q_wrapped, q_query. rewrite q_step_quiet.
    unfold read_fated. by rewrite (qt_fates Hq). }
  erewrite (run_bind_done _ _ w) by exact Elist.
  destruct (recover_all_quiet t ids [] (bump w) Ht Hadm) as (w1 & fs & E1 & Hkeep & Hin). erewrite run_bind_done by exact E1.
  assert (Hlen : length ids = Nat.min 32 (above (waiting_ids w) (qw_cursor w))) by (unfold ids; by rewrite length_take, length_after).
  unfold batch, Zlength. destruct (Z.ltb_spec (Z.of_nat (length ids)) 32) as [Hlt|Hge].
  - erewrite run_bind_done by reflexivity. exists "". split_and!; [|exact Hin|by rewrite decide_False by lia].
    eapply keeps_trans; [|apply (keeps_at_cursor "" _ _ Hkeep)]. by apply keeps_same.
  - erewrite run_bind_done by reflexivity. destruct (last ids) as [c'|] eqn:El.
    + exists c'. split_and!; [|exact Hin|]; [eapply keeps_trans; [|exact Hkeep]; by apply keeps_same|]. by rewrite decide_True by lia.
    + apply last_None in El. rewrite El in Hge. cbn in Hge. lia.
Qed.

Fixpoint recoveries (k : nat) w : question_world W :=
  match k with O => w | Datatypes.S k => recoveries k (FlushAnswers S w).1 end.

Lemma recoveries_quiet t k w : TrimSpace t = t → t ≠ "" → admissible t w →
  (patience (waiting_ids w) (qw_cursor w) t ≤ k)%nat ∨ released t w →
  released t (recoveries k w) ∧ ∃ c, keeps (at_cursor c w) (recoveries k w).
Proof using Hq.
  intros Ht Hne. revert w. induction k as [|k IH]; intros w Hadm Hk.
  - cbn. split; [|by exists (qw_cursor w); apply keeps_same]. destruct Hk as [Hk|?]; [|done]. unfold patience in Hk. case_match; lia.
  - cbn [recoveries]. destruct (flush_quiet t w Ht Hadm) as (c' & Hkeep & Hin & Hc'). set (w1 := (FlushAnswers S w).1) in *.
    assert (Hadm1 : admissible t w1) by (eapply (admissible_kept t (at_cursor c' w)); [exact Hkeep|exact Hadm]).
    assert (Hnext : (patience (waiting_ids w1) (qw_cursor w1) t ≤ k)%nat ∨ released t w1).
    { destruct (decide (t ∈ take 32 (after (waiting_ids w) (qw_cursor w)))) as [Hb|Hb]; [right; by apply Hin|].
      destruct Hk as [Hk|Hrel]; [|right; by eapply (released_kept t (at_cursor c' w))].
      destruct (decide (t ∈ waiting_ids w)) as [Hw|Hw].
      - left. assert (Hlow : (patience (waiting_ids w1) (qw_cursor w1) t < patience (waiting_ids w) (qw_cursor w) t)%nat); [|lia].
        rewrite (kp_cursor _ _ Hkeep). cbn. apply patience_lowered; try done; try apply waiting_NoDup.
        intros u (r' & E' & Hu')%waiting_elem. destruct (kp_rows _ _ Hkeep _ _ E') as (r & E & Hu & _). apply waiting_elem. exists r. auto.
      - right. eapply (released_kept t (at_cursor c' w)); [exact Hkeep|]. intros r E. destruct (held r) eqn:Hh; [|done].
        destruct Hw. apply waiting_elem. exists r. split; [exact E|]. apply andb_true_iff in Hh as [Ha Hc]. unfold awaiting_recovery. by rewrite Ha, Hc. }
    destruct (IH w1 Hadm1 Hnext) as [Hrel (c & Hkeep2)]. split; [done|]. exists c. eapply keeps_trans; [|exact Hkeep2].
    apply (keeps_at_cursor c _ _ Hkeep).
Qed.

(** *** A timeout that was interrupted *)
Definition undispatched w w' : Prop := qw_dispatched w' = qw_dispatched w ∧ qw_outer w' = qw_outer w.

Lemma clearControls_quiet record w : ∃ w', clearControls S record w = (w', Done tt) ∧ undispatched w w'.
Proof using Hq.
  unfold clearControls. destruct (_ && _); [by exists w|].
  assert (Hc : ∃ w' res, try (publishControlCleanup S record) w = (w', Done res) ∧ undispatched w w').
  { unfold publishControlCleanup. destruct (_ || _); [by eexists _, _|]. unfold try, q_wrapped, mbind, run_bind, lift.
    destruct (Unmarshal zero_interaction (qr_InteractionJSON record)); [|by eexists _, _]. cbn. unfold ClearQuestionControls.
    destruct (qe_controls S) as [clear|]; [|by eexists _, _]. rewrite q_step_quiet. destruct (clear _ _); by eexists _, _. }
  destruct Hc as (w' & res & E & Hu). exists w'. split; [|done]. by erewrite run_bind_done by exact E.
Qed.

Lemma timed_out_quiet id t r w : t ≠ 0 → qw_rows w !! TrimSpace id = Some r → qr_Status r ≠ StatusPending →
  ∃ w', MarkQuestionTimedOut S id t w = (w', Done (scanQuestion r, false)) ∧ undispatched w w'.
Proof using Hq.
  intros Ht E Hs. unfold MarkQuestionTimedOut. rewrite (proj2 (Z.eqb_neq t 0) Ht). erewrite run_bind_done by reflexivity. unfold updateQuestionResolution.
  assert (pending r = false) as Hp by (apply not_true_is_false; by rewrite pending_true).
  assert (Eex : q_wrapped ("mark question " +:+ "timed out") (q_exec S (update_where (TrimSpace id) pending (timed_out t))) w =
            (set_rows (λ _, qw_rows w) (bump w), Done 0)).
  { unfold q_wrapped, q_exec. rewrite q_step_quiet. unfold update_where. cbn [bump qw_rows]. by rewrite E, Hp, (qt_fates Hq). }
  erewrite run_bind_done by exact Eex. erewrite run_bind_done.
  2:{ unfold q_wrapped, q_query. rewrite q_step_quiet. unfold read_fated. by rewrite (qt_fates Hq). }
  erewrite run_bind_done by apply get_quiet. cbn [bump set_rows qw_rows]. rewrite E. by eexists.
Qed.

Lemma timed_out_again id r w : (∀ n, qe_clock S n ≠ 0) → qw_rows w !! TrimSpace (TrimSpace id) = Some r → qr_Status r ≠ StatusPending →
  ∃ w', handleScheduledQuestionTimeout S id w = (w', Done true) ∧ undispatched w w'.
Proof using Hq.
  intros Hclock E Hs. unfold handleScheduledQuestionTimeout. erewrite run_bind_done by (unfold q_now; rewrite q_step_quiet; reflexivity).
  unfold Timeout_. assert (Ez : zeroOrNow (qe_clock S (qw_calls w)) (qe_clock S (qw_calls (bump w))) ≠ 0).
  { unfold zeroOrNow. rewrite (proj2 (Z.eqb_neq _ 0) (Hclock _)). apply Hclock. }
  destruct (timed_out_quiet (TrimSpace id) _ r (bump (bump w)) Ez E Hs) as (w1 & E1 & Hu1).
  destruct (clearControls_quiet (scanQuestion r) w1) as (w2 & E2 & Hu2). exists w2.
  assert (Hp : pending (scanQuestion r) = false) by (apply not_true_is_false; by rewrite pending_true).
  split; [|destruct Hu1 as [Hd1 Ho1], Hu2 as [Hd2 Ho2]; split; [by rewrite Hd2, Hd1|by rewrite Ho2, Ho1]].
  rewrite (run_bind_done _ _ _ w2 (scanQuestion r, false)); [reflexivity|].
  erewrite run_bind_done by (unfold q_now; rewrite q_step_quiet; reflexivity). erewrite run_bind_done by exact E1. cbv beta iota. rewrite Hp. cbn [negb orb]. by erewrite run_bind_done by exact E2.
Qed.
End quiet.

(** C40. An interrupted timeout is not completed. Once a question has left [pending], as
    it has when its first scheduled run timed it out but could not dispatch the timeout's
    continuation, every later run reports success and dispatches nothing. *)
Theorem timed_out_continuation_is_lost w id r :
  quiet → (∀ n, qe_clock S n ≠ 0) → qw_rows w !! TrimSpace id = Some r → qr_Status r ≠ StatusPending →
  ∃ w', handleScheduledQuestionTimeout S id w = (w', Done true) ∧ qw_dispatched w' = qw_dispatched w ∧ qw_outer w' = qw_outer w.
Proof. intros Hq Hclock E Hs. apply (timed_out_again Hq id r w Hclock); [by rewrite TrimSpace_idemp|done]. Qed.

(** C8. No answer starves. While the store answers and nobody else settles or binds
    questions, every answer whose continuation the outbox accepts is released after as
    many flushes as a 32nd of the waiting answers, plus two; the other answers may fail
    in every flush, and the cursor may be anywhere. *)
Theorem answers_are_recovered `{!Admission W} w t r env k :
  question_reachable w → quiet → qw_rows w !! t = Some r → t ≠ "" → qr_Status r = StatusAnswered → qr_AnswerContinuationPending r = true →
  answeredContinuation r = Ok env → (∀ n o, ∃ receipt, (qe_dispatch S n env o).2 = Done (Some receipt)) →
  (length (waiting_ids w) / 32 + 2 ≤ k)%nat →
  ∃ r', qw_rows (recoveries k w) !! t = Some r' ∧ qr_Status r' = StatusAnswered ∧ qr_AnswerContinuationPending r' = false.
Proof.
  intros Hok%question_reachable_ok Hq E Hne Hs Hc Ec Hd Hk. destruct (qo_key _ Hok _ _ E) as [_ Ht].
  assert (Ha : answered r = true) by by apply answered_true.
  destruct (recoveries_quiet Hq t k w Ht Hne) as [Hrel (c & Hkeep)].
  - intros r0 E0 _. rewrite E in E0. injection E0 as <-. by exists env.
  - left. etrans; [|exact Hk]. apply patience_bound; [apply waiting_NoDup|]. apply waiting_elem. exists r. split; [done|]. unfold awaiting_recovery.
    by rewrite Hc, Ha.
  - destruct (kp_stay _ _ Hkeep _ _ E) as (r' & E' & Es). exists r'. split_and!; [done|congruence|]. specialize (Hrel _ E').
    unfold held in Hrel. rewrite (proj2 (answered_true r')) in Hrel by congruence. done.
Qed.
End recovery.

(** ** Witness: the demo's answer, its message's controls refusing to go *)
Definition demo_stubborn : question_env (H := question_layer) () :=
  mkQuestionEnv (λ _, 1000) (λ _, Commits) (λ _, false) (λ _, None) (λ _, "q") (λ _ w, w)
    (λ _ env o, (o, Done (Some (mkReceipt "local" env.2 false)))) None (Some (λ _ _, Err (ErrText "channel unavailable"))) None.
Lemma answers_are_recovered_witness :
  ∃ r', qw_rows (recoveries demo_stubborn 2 (demo_answered demo_around_questions ())) !! "question-q" = Some r' ∧
    qr_Status r' = StatusAnswered ∧ qr_AnswerContinuationPending r' = false.
Proof.
  refine (answers_are_recovered (H0 := question_messages) demo_stubborn (Admission0 := accepting) (demo_answered demo_around_questions ()) "question-q"
    (row_of (demo_answered demo_around_questions ())) ("question.command", "question:question-q:answered") 2 _ _ _ _ _ _ _ _ _).
  - apply (demo_answered_reachable (Admission0 := accepting)); [apply demo_around_questions_ok|done].
  - by split.
  - vm_compute. reflexivity.
  - done.
  - vm_compute. reflexivity.
  - vm_compute. reflexivity.
  - vm_compute. reflexivity.
  - intros n o. by eexists.
  - vm_compute. reflexivity.
Defined.

(** The dispatch of the first run failed; the second succeeds without it. *)
Definition demo_unreachable : question_env (H := question_layer) () := demo_env (λ _ _ o, (o, Failed (ErrText "bus unavailable"))).
Definition demo_interrupted : question_world (H := question_layer) () * outcome bool :=
  handleScheduledQuestionTimeout (H0 := question_messages) demo_unreachable "question-q" (demo_asked demo_around_questions ()).
Lemma timed_out_continuation_is_lost_witness :
  demo_interrupted.2 = Failed (ErrText "bus unavailable") ∧ qr_Status (row_of demo_interrupted.1) = StatusTimedOut ∧
  ∃ w', handleScheduledQuestionTimeout (H0 := question_messages) demo_around_questions "question-q" demo_interrupted.1 = (w', Done true) ∧
    qw_dispatched w' = [] ∧ qw_outer w' = ().
Proof.
  split; [vm_compute; reflexivity|]. split; [vm_compute; reflexivity|].
  refine (timed_out_continuation_is_lost (H0 := question_messages) demo_around_questions demo_interrupted.1 "question-q" (row_of demo_interrupted.1) _ _ _ _).
  - by split.
  - done.
  - vm_compute. reflexivity.
  - vm_compute. discriminate.
Defined.
